(* ===== verification/_CoqProject ===== *)
-Q . S2P
Prelude.v
Bytes.v
Verbs.v
Protocol.v
RdmaQueue.v
Controller.v
Helpers.v
EfaHelpers.v
ReadScheduler.v
Ring.v
Json.v
Stream.v
Handles.v
ProcessGroup.v
GroupTheorems.v
Agreement.v
GroupResources.v
GroupProgress.v
GroupSetup.v
GroupExamples.v
Kernels.v
Backend.v
Transport.v
TransportTheorems.v
Stripes.v
BenchText.v
Bench.v
BenchWorkers.v
LocalTransfer.v
Sweep.v
AllreduceBench.v
BenchTheorems.v
SweepTheorems.v
LocalTransferTheorems.v
BenchExamples.v
GpuNetIO.v
VerbsLib.v
VerbsValues.v
VerbsPost.v
VerbsObjects.v
VerbsSafety.v
VerbsMethods.v
VerbsInvariant.v
VerbsAlong.v
VerbsRuns.v
VerbsTheorems.v
VerbsExternal.v
VerbsTeardown.v
VerbsUse.v
Cuda.v
CudaTheorems.v
VerbsModel.v
VerbsExamples.v
EfaLib.v
EfaValues.v
EfaObjects.v
EfaSafety.v
EfaInvariant.v
EfaPost.v
EfaRuns.v
EfaTheorems.v
EfaModel.v
EfaExamples.v
CudaExamples.v
