(* ===== verification/Prelude.v ===== *)
(** rdma4py: a verification development.

    The repository is a family of Python packages over RDMA hardware.  A program
    opens a device through a native binding (libibverbs, libefa), and on top of the
    binding the packages give: an NVMe-oF initiator that drives a remote disk with
    commands over queue pairs (src/nvmeof); a scheduler that keeps many queue pairs
    busy with reads and writes, helpers that connect queue pairs, and the export of
    queue pairs to the GPU (src/ibverbs); a fault-tolerant all-reduce whose members
    exchange handles, rebuild their ring when one fails, and reduce tensors with a
    GPU kernel (src/experiments/fault_tolerant_allreduce); and a TCP transport that
    stripes a tensor over several connections (src/experiments/tcp_multiflow).

    * How it is modelled

    Python calls are functions in the state and exception monad [M S A] of this file:
    the state written before an exception stays written, [try_except] and
    [try_finally] are the statements of the source.  Integers are [Z], with the
    wrap-around written where the source has a width; bytes are lists of [Z]; a [str]
    is its list of code points.  What the source does not define is a class of
    operations over a world [W] (a device, sockets, a clock, the CUDA driver): the
    model is generic in them, theorems name the laws they need ([ClockLaws],
    [CloseLaws], [SentLaws], ...), and a witness runs them on a concrete world.
    Definitions keep the names of the source, so that [RdmaQueue.submit] is
    [RDMAQueue.submit] of rdma.py.

    * The files

    - Prelude: exceptions, the monad, weakest preconditions ([wp]), loops with fuel,
      relations kept along a call ([along] and its tactic), sums.
    - Bytes: [struct], slices and buffers.  Verbs: what is used of the verbs layer,
      and the clock.
    - Protocol: src/nvmeof/src/nvmeof/protocol.py.  RdmaQueue: rdma.py.  Controller:
      controller.py, a client of the interface [NvmeEnv].
    - Helpers: src/ibverbs/src/ibverbs/helpers.py.  ReadScheduler: read_scheduler.py.
      GpuNetIO: gpunetio/_runtime.py.  EfaHelpers: src/efa/src/efa/helpers.py.
    - src/experiments/fault_tolerant_allreduce/allreduce.py: Ring is the ring kernel on
      all ranks at once; Json, Stream and Handles are the membership handles and the
      rendezvous frames; ProcessGroup is the group ([reconfigure], [allreduce],
      [abort], [close]); GroupTheorems, Agreement, GroupResources and GroupProgress
      prove it; GroupSetup is its construction; GroupExamples runs it.  Kernels is the copy
      kernel and the caches of compiled kernels, Backend the registration with torch.
      AllreduceBench are the parsers, the inputs and the plan of its benchmark.py.
    - src/experiments/tcp_multiflow/transport.py: Transport are the definitions,
      TransportTheorems the flows with threads, Stripes those with processes.
      LocalTransfer is [transfer_tensor_local], proved in LocalTransferTheorems.
    - src/experiments/tcp_multiflow: BenchText has the text, the doubles and the argument
      parsers of the benchmarks; Bench is benchmark.py over the class [BenchHost] (commands,
      files, CPU affinity, processes); BenchWorkers is python_benchmark.py and latency.py,
      their workers and their drivers; BenchTheorems proves them and BenchExamples runs
      them.  Sweep is sweep.py and the pattern of tensor_benchmark.py, proved in
      SweepTheorems.
    - src/ibverbs/src/ibverbs/_ibverbs.pyx, the binding itself.  VerbsLib: the C
      structures, and libibverbs, librdmacm and mlx5 as the class [Libibverbs], whose
      laws [LibibverbsLaws] say which objects a call makes, needs and destroys.
      VerbsValues: the classes that only hold values.  VerbsPost: the arrays of work
      requests.  VerbsObjects: the heap of Python objects that wrap native ones, and
      every method on it.  VerbsSafety states the invariant, VerbsMethods and
      VerbsInvariant prove that methods keep it, VerbsAlong has relations kept along a
      method.  VerbsRuns: programs as sequences of calls ([run_call], [reach]), with the
      conditions [allowed] on them.  VerbsTheorems, VerbsExternal, VerbsTeardown and
      VerbsUse have the theorems; VerbsModel is a library that satisfies the laws and
      VerbsExamples runs programs on it.
    - src/efa/src/efa/_efa.pyx, the EFA binding, on the heap and the invariant of the
      verbs binding.  EfaLib: libefa and the extended calls of libibverbs as the class
      [Libefa] with its laws [LibefaLaws], among them the state of an open batch or poll.
      EfaValues and EfaObjects are the classes and methods.  EfaSafety and EfaInvariant:
      the invariant [EInv] and the methods that keep it.  EfaPost: batches of work
      requests and polls.  EfaRuns: programs as sequences of calls.  EfaTheorems,
      EfaModel and EfaExamples as for the verbs binding.
    - src/ibverbs/src/ibverbs/cuda.py and its twin in src/efa: Cuda are the definitions
      over the class [CudaDriver], CudaTheorems and CudaExamples the rest.

    * What is shown

    - NVMe: every command and capsule field is where a target reads it and the builders
      accept exactly the valid arguments; the queue keeps its invariant through any
      order of completions, never loses or doubles a command id, rolls a failed
      submission back, completes a request after both its halves in either order, and
      releases its resources; [execute] ends by its deadline; a transfer split into
      commands is one copy of the whole range; construction connects a consistent
      controller or leaves nothing open.
    - Scheduler: a batch that returns moved every chunk of every request by one work
      request; counters match the pending requests; queue pairs stay full while input
      lasts; a failure poisons the scheduler; waits end.
    - Ring: in every interleaving of ranks, channels and puts, a rank that ends holds the
      reduction of all inputs, in an order that depends only on the element; no
      deadlock; byte offsets are exact below 2 GiB.
    - Copy kernel: in every interleaving of its threads a launch ends, with the source in the
      destination and nothing else changed; each kernel is compiled once.
    - All-reduce benchmark: every generation of its plan is asked for by all its members,
      under a uuid that no rank uses twice.
    - Group: members that accept the same handles agree on one ring; a reconfiguration is
      atomic on the communicator, leaks no object, and returns by its deadline; handles
      and frames round-trip; what is decoded is in range; construction gives a group
      that owns its objects, or nothing.
    - Transport: in every interleaving and fragmentation the tensor arrives whole, with
      threads and with dynamic stripes, where each task is sent and placed once.
    - Local transfer and benchmarks: a transfer that returns leaves no worker alive, and
      three of its errors do; whatever fails, a benchmark leaves no process that it started;
      flows share no CPU while there are enough; the echo server returns each message; a
      list of CPUs reads back; a sweep chooses the fewest verified flows that reach the
      target, or else the highest verified rate.
    - EFA: the work requests of a large operation, executed in any order, do what one
      for the whole range would do.
    - GPU export: page reference counts are the mappings that hold each page, through every
      failure; an export or its cleanup is complete; completion queues are checked before
      anything is written.
    - Binding: through every sequence of calls, an open object holds a live native object
      made from those of its open parents, and every native object has one owner, so that
      none is lost or used after it is freed; closing refuses while children are open, and
      closing everything in order succeeds; GPU handles are counted and lock the queue
      pair; the arrays given to the library hold the requests of the program; scatter
      entries stay in their region; state changes carry the attributes they announce, and
      [connect_rc] of Helpers is three of them.  Three programs outside [allowed] break the
      library.
    - EFA binding: the same through every sequence of its calls; post_send submits all its
      requests as they were given, or none; a poll returns what it took and is ended on
      every path; a queue pair without an extended view is destroyed again; listing the
      devices closes what it opens.  Two programs lose completions or break the library.
    - CUDA registration: one region for the bytes of the tensor or none, and no file
      descriptor left on any path; the exported range is the smallest of whole pages;
      a failed export falls back to the registration by address, except with a driver
      that lacks the call.

    * Bounds and fuel

    Waiting loops take a fuel; [None] or [Ok None] is a loop still running when it
    ended.  With a clock that advances, a fuel above the timeout suffices:
    [execute_terminates], [wait_terminates], [reconfigure_returns].  Loops over data
    take as fuel a bound on their rounds (the bytes left, the blocks left), and their
    theorems say that it is enough.  Times are integers (nanoseconds or ticks).

    * Not modelled

    - Text of exceptions and logs; floating-point results (throughput, statistics), but
      for those that decide the verdict of a TCP benchmark, which are doubles there.
    - In _ibverbs.pyx, _efa.pyx and cuda.py: the strings of events and statuses, [repr],
      the methods of the [with] statement, a failing [calloc], and casts of objects of a
      wrong class.  Threads: a method runs without another between its steps, though the
      source releases the interpreter lock in some calls.
    - Enumerations of constants.
    - In allreduce.py: what cutlass compiles, and the declarations of the CUDA functions.
      The launches of ProcessGroup are operations of its device; Ring and Kernels are what
      they do.
    - In transport.py: the start and the supervision of the threads and processes of the
      flows.
    - The main of tensor_benchmark.py; of the all-reduce benchmark the calls of torch and
      NCCL and the timings; the GPUDirect benchmarks; plots, packaging, documentation and linters. *)

From stdpp Require Export base list list_numbers numbers gmap strings sorting.
From Stdlib Require Export Lia ZArith ZifyBool.

#[local] Open Scope Z_scope.

(** * Python values *)

(** [bytes] and [bytearray]: the list of byte values, each in [0, 256). *)
Abbreviation bytes := (list Z).

Definition wf_bytes (b : bytes) : Prop := Forall (λ x, 0 ≤ x < 256) b.

(** Python exceptions by class.  Messages are not modelled.  [BaseError] is
    an exception outside [Exception] (KeyboardInterrupt, SystemExit). *)
Inductive exn : Type :=
| ValueError
| TypeError
| IndexError
| AttributeError
| KeyError
| UnicodeError
| StructError
| OverflowError
| RuntimeError
| MemoryError
| ImportError
| NotImplementedError
| OSError
| TimeoutError
| VerbsError (errno : Z)
| QueueFullError
| NVMeStatusError (result sq_head sq_id command_id status_field : Z)
| RdmaReadError
| RdmaReadTimeout
| ReconfigureError
| AllReduceError
| AllReduceTimeoutError
| GPUNetIOError (status : Z)
| OtherError (tag : Z)
| BaseError (tag : Z).

#[global] Instance exn_eq_dec : EqDecision exn.
Proof. solve_decision. Defined.

(** [isinstance(e, Exception)] *)
Definition is_Exception (e : exn) : bool :=
  match e with BaseError _ => false | _ => true end.

(** [isinstance(e, OSError)]: TimeoutError, VerbsError and NVMeStatusError
    are subclasses of OSError. *)
Definition is_OSError (e : exn) : bool :=
  match e with
  | OSError | TimeoutError | VerbsError _ | NVMeStatusError _ _ _ _ _
  | RdmaReadTimeout | AllReduceTimeoutError => true
  | _ => false
  end.

(** [isinstance(e, TimeoutError)] *)
Definition is_TimeoutError (e : exn) : bool :=
  match e with
  | TimeoutError | RdmaReadTimeout | AllReduceTimeoutError => true
  | _ => false
  end.

(** [isinstance(e, AllReduceError)] *)
Definition is_AllReduceError (e : exn) : bool :=
  match e with
  | AllReduceError | AllReduceTimeoutError | ReconfigureError => true
  | _ => false
  end.

(** * Fallible computations *)

Inductive result (A : Type) : Type :=
| Ok (a : A)
| Raise (e : exn).
Arguments Ok {A} a.
Arguments Raise {A} e.

#[global] Instance result_ret : MRet result := λ A a, Ok a.
#[global] Instance result_bind : MBind result := λ A B f r,
  match r with Ok a => f a | Raise e => Raise e end.

#[global] Instance result_eq_dec `{EqDecision A} : EqDecision (result A).
Proof. solve_decision. Defined.

Definition is_Ok {A} (r : result A) : Prop := ∃ a, r = Ok a.

(** [if cond: raise e] *)
Definition raise_if (cond : bool) (e : exn) : result unit :=
  if cond then Raise e else Ok tt.

(** * Stateful fallible computations *)

(** A Python call that reads and writes a state [S] and returns or raises; the
    state written before an exception stays written. *)
Definition M (S A : Type) : Type := S → result A * S.

#[global] Instance M_ret S : MRet (M S) := λ A a s, (Ok a, s).
#[global] Instance M_bind S : MBind (M S) := λ A B f m s,
  match m s with
  | (Ok a, s') => f a s'
  | (Raise e, s') => (Raise e, s')
  end.

Section StateOps.
Context {S : Type}.

Definition get : M S S := λ s, (Ok s, s).
Definition modify (f : S → S) : M S unit := λ s, (Ok tt, f s).
Definition raise {A} (e : exn) : M S A := λ s, (Raise e, s).
Definition lift {A} (r : result A) : M S A := λ s, (r, s).
Definition guard_raise (cond : bool) (e : exn) : M S unit :=
  if cond then raise e else mret tt.

(** [try: m except ...: h]; [h] re-raises what it does not catch. *)
Definition try_except {A} (m : M S A) (h : exn → M S A) : M S A := λ s,
  match m s with
  | (Ok a, s') => (Ok a, s')
  | (Raise e, s') => h e s'
  end.

(** [try: m finally: f]: an exception of [f] replaces that of [m]. *)
Definition try_finally {A} (m : M S A) (f : M S unit) : M S A := λ s,
  match m s with
  | (r, s') =>
      match f s' with
      | (Ok _, s'') => (r, s'')
      | (Raise e, s'') => (Raise e, s'')
      end
  end.

(** [for x in l: f x] *)
Fixpoint for_each {A} (f : A → M S unit) (l : list A) : M S unit :=
  match l with
  | [] => mret tt
  | x :: l' => f x ≫= λ _, for_each f l'
  end.
End StateOps.

(** ** Weakest preconditions

    [wp m Q E s]: run from [s], [m] either returns a value and a state in [Q]
    or raises an exception and leaves a state in [E]. *)
Definition wp {S A} (m : M S A) (Q : A → S → Prop) (E : exn → S → Prop)
    (s : S) : Prop :=
  match m s with
  | (Ok a, s') => Q a s'
  | (Raise e, s') => E e s'
  end.

Section Wp.
Context {S : Type}.
Implicit Types (s : S) (E : exn → S → Prop).

Lemma wp_ret {A} (a : A) Q E s : wp (mret a) Q E s ↔ Q a s.
Proof. done. Qed.

Lemma wp_bind {A B} (m : M S A) (f : A → M S B) Q E s :
  wp (m ≫= f) Q E s ↔ wp m (λ a, wp (f a) Q E) E s.
Proof. unfold wp, mbind, M_bind. by destruct (m s) as [[a|e] s']. Qed.

Lemma wp_get Q E s : wp get Q E s ↔ Q s s.
Proof. done. Qed.

Lemma wp_modify f Q E s : wp (modify f) Q E s ↔ Q tt (f s).
Proof. done. Qed.

Lemma wp_raise {A} e (Q : A → S → Prop) E s : wp (raise e) Q E s ↔ E e s.
Proof. done. Qed.

Lemma wp_lift {A} (r : result A) Q E s :
  wp (lift r) Q E s ↔ match r with Ok a => Q a s | Raise e => E e s end.
Proof. by destruct r. Qed.

Lemma wp_guard_raise c e Q E s :
  wp (guard_raise c e) Q E s ↔ if c then E e s else Q tt s.
Proof. by destruct c. Qed.

Lemma wp_try_except {A} (m : M S A) h Q E s :
  wp (try_except m h) Q E s ↔ wp m Q (λ e, wp (h e) Q E) s.
Proof. unfold wp, try_except. by destruct (m s) as [[a|e] s']. Qed.

Lemma wp_mono {A} (m : M S A) (Q Q' : A → S → Prop) E E' s :
  wp m Q E s → (∀ a s', Q a s' → Q' a s') → (∀ e s', E e s' → E' e s') →
  wp m Q' E' s.
Proof. unfold wp. destruct (m s) as [[a|e] s']; eauto. Qed.

Lemma wp_try_finally {A} (m : M S A) f Q E s :
  wp m (λ a s', wp f (λ _, Q a) E s') (λ e s', wp f (λ _, E e) E s') s →
  wp (try_finally m f) Q E s.
Proof.
  unfold wp, try_finally. destruct (m s) as [[a|e] s']; by destruct (f s') as [[[]|e'] s''].
Qed.

Lemma wp_trivial {A} (m : M S A) s : wp m (λ _ _, True) (λ _ _, True) s.
Proof. unfold wp. by destruct (m s) as [[a|e] s']. Qed.

(** What a call returns, and that it does not raise, proved apart. *)
Lemma wp_and_exn {A} (m : M S A) (Q Q' : A → S → Prop) E s :
  wp m Q E s → wp m Q' (λ _ _, False) s → wp m Q (λ _ _, False) s.
Proof. unfold wp. by destruct (m s) as [[a|e] s']. Qed.

Lemma wp_for_each {A} (f : A → M S unit) l (I : list A → S → Prop) E s :
  I l s →
  (∀ x l' s', I (x :: l') s' → wp (f x) (λ _, I l') E s') →
  wp (for_each f l) (λ _, I []) E s.
Proof.
  revert s. induction l as [|x l IH]; intros s HI Hstep; [done|].
  simpl. apply wp_bind. eapply wp_mono; [by apply Hstep| |done].
  intros [] s' HI'. eauto.
Qed.
End Wp.

(** * Loops

    [while True: body], where [body] returns [Some r] to leave the loop with
    [r] and [None] to go round again; [Ok None] is a loop that was still
    running when the fuel ended. *)
Fixpoint while_loop {S R} (fuel : nat) (body : M S (option R)) :
    M S (option R) :=
  match fuel with
  | O => mret None
  | S n =>
      o ← body;
      match o with Some r => mret (Some r) | None => while_loop n body end
  end.

Section WhileLoop.
Context {S R : Type} (body : M S (option R)).

(** A loop whose rounds decrease a measure leaves within the measure. *)
Lemma while_loop_terminates (I : S → Prop) (μ : S → nat) fuel s :
  (∀ s s', I s → body s = (Ok None, s') → I s' ∧ (μ s' < μ s)%nat) →
  I s → (μ s < fuel)%nat → (while_loop fuel body s).1 ≠ Ok None.
Proof.
  intros Hstep. revert s.
  induction fuel as [|fuel IH]; intros s HI Hlt; [lia|].
  unfold while_loop; fold (@while_loop S R). unfold mbind, M_bind.
  destruct (body s) as [[[r|]|e] s'] eqn:Hb; simpl; [done| |done].
  destruct (Hstep _ _ HI Hb). apply IH; [done|lia].
Qed.

(** What a loop invariant gives at the exit. *)
Lemma wp_while_loop (I : S → Prop) (Q : option R → S → Prop) E fuel s :
  (∀ s, I s → wp body (λ o s', match o with
                               | Some r => Q (Some r) s'
                               | None => I s'
                               end) E s) →
  (∀ s, I s → Q None s) →
  I s → wp (while_loop fuel body) Q E s.
Proof.
  intros Hbody HQ. revert s. induction fuel as [|fuel IH]; intros s HI.
  { by apply HQ. }
  unfold while_loop; fold (@while_loop S R). apply wp_bind.
  eapply wp_mono; [by apply Hbody| |done]. intros [r|] s' H; [done|by apply IH].
Qed.
End WhileLoop.

(** ** What a call does to its state, whatever its outcome

    [along R m]: from every state, [m] leaves a state related to it, whether it
    returns or raises. *)
Definition along {S A} (R : relation S) (m : M S A) : Prop := ∀ s, R s (m s).2.

Section Along.
Context {S : Type} (R : relation S) `{!PreOrder R}.

Lemma along_ret {A} (a : A) : along R (mret a).
Proof. intros s. reflexivity. Qed.
Lemma along_raise {A} e : along R (raise (A := A) e).
Proof. intros s. reflexivity. Qed.
Lemma along_lift {A} (r : result A) : along R (lift r).
Proof. intros s. reflexivity. Qed.
Lemma along_get : along R get.
Proof. intros s. reflexivity. Qed.
Lemma along_guard b e : along R (guard_raise b e).
Proof. destruct b; [apply along_raise|apply along_ret]. Qed.

Lemma along_bind {A B} (m : M S A) (f : A → M S B) :
  along R m → (∀ a, along R (f a)) → along R (m ≫= f).
Proof.
  intros Hm Hf s. unfold mbind, M_bind. specialize (Hm s).
  destruct (m s) as [[a|e] s']; cbn in *; [|done]. etransitivity; [exact Hm|apply Hf].
Qed.

Lemma along_try {A} (m : M S A) h :
  along R m → (∀ e, along R (h e)) → along R (try_except m h).
Proof.
  intros Hm Hh s. unfold try_except. specialize (Hm s).
  destruct (m s) as [[a|e] s']; cbn in *; [done|]. etransitivity; [exact Hm|apply Hh].
Qed.

Lemma along_finally {A} (m : M S A) f : along R m → along R f → along R (try_finally m f).
Proof.
  intros Hm Hf s. unfold try_finally. specialize (Hm s). destruct (m s) as [r s']; cbn in *.
  specialize (Hf s'). destruct (f s') as [[a|e] s'']; cbn in *; by etransitivity.
Qed.

Lemma along_for_each {A} (f : A → M S unit) l : (∀ x, along R (f x)) → along R (for_each f l).
Proof. intros Hf. induction l; [apply along_ret|]. by apply along_bind. Qed.

Lemma along_while {T} fuel (body : M S (option T)) :
  along R body → along R (while_loop fuel body).
Proof.
  intros Hb. induction fuel as [|fuel IH]; [apply along_ret|]. apply along_bind; [done|].
  intros [r|]; [apply along_ret|done].
Qed.

(** The same in a weakest precondition. *)
Lemma wp_along {A} (m : M S A) s : along R m → wp m (λ _, R s) (λ _, R s) s.
Proof. intros Hm. unfold wp. specialize (Hm s). by destruct (m s) as [[a|e] s']. Qed.
End Along.

(** Two postconditions at once. *)
Lemma wp_conj {S A} (m : M S A) (Q Q' : A → S → Prop) E E' s :
  wp m Q E s → wp m Q' E' s →
  wp m (λ a s, Q a s ∧ Q' a s) (λ e s, E e s ∧ E' e s) s.
Proof. unfold wp. by destruct (m s) as [[a|e] s']. Qed.

Create HintDb along.
#[export] Hint Resolve along_ret along_raise along_lift along_get along_guard along_bind
  along_try along_finally along_for_each along_while : along.

(** Break a call into its parts. *)
Ltac along :=
  repeat first
    [ progress intros
    | assumption
    | match goal with H : _ |- _ => apply H end
    | solve [auto with along nocore typeclass_instances]
    | apply along_bind; [apply _|..] | apply along_try; [apply _|..]
    | apply along_finally; [apply _|..] | apply along_for_each; [apply _|..]
    | apply along_while; [apply _|..] | case_match ].

(** * Lists of integers *)

Fixpoint sumZ (l : list Z) : Z :=
  match l with [] => 0 | x :: l => x + sumZ l end.

Lemma sumZ_app l k : sumZ (l ++ k) = sumZ l + sumZ k.
Proof. induction l as [|x l IH]; simpl; lia. Qed.

#[global] Instance sumZ_proper : Proper ((≡ₚ) ==> eq) sumZ.
Proof. induction 1; simpl; lia. Qed.

Lemma sumZ_nonneg l : Forall (λ x, 0 ≤ x) l → 0 ≤ sumZ l.
Proof. induction 1; simpl; lia. Qed.

Lemma sumZ_fmap_const {A} (f : A → Z) c l :
  (∀ x, x ∈ l → f x = c) → sumZ (f <$> l) = c * Z.of_nat (length l).
Proof.
  induction l as [|x l IH]; intros H; [simpl; lia|].
  rewrite fmap_cons. cbn [sumZ length]. rewrite IH, (H x) by set_solver. lia.
Qed.

Lemma sumZ_fmap_add {A} (f g : A → Z) l :
  sumZ ((λ x, f x + g x) <$> l) = sumZ (f <$> l) + sumZ (g <$> l).
Proof. induction l as [|x l IH]; [done|]. rewrite !fmap_cons. cbn [sumZ]. lia. Qed.

Lemma sumZ_fmap_mul {A} c (f : A → Z) l : sumZ ((λ x, c * f x) <$> l) = c * sumZ (f <$> l).
Proof. induction l as [|x l IH]; [simpl; lia|]. rewrite !fmap_cons. cbn [sumZ]. lia. Qed.

Lemma sumZ_fmap_le {A} (f g : A → Z) l :
  (∀ x, x ∈ l → f x ≤ g x) → sumZ (f <$> l) ≤ sumZ (g <$> l).
Proof.
  induction l as [|x l IH]; intros H; [done|]. rewrite !fmap_cons. cbn [sumZ].
  pose proof (H x ltac:(by left)). pose proof (IH (λ y Hy, H y ltac:(by right))). lia.
Qed.

Lemma sumZ_fmap_ext {A} (f g : A → Z) l :
  (∀ x, x ∈ l → f x = g x) → sumZ (f <$> l) = sumZ (g <$> l).
Proof.
  intros H. apply Z.le_antisymm; apply sumZ_fmap_le; intros x Hx; by rewrite H.
Qed.

(** The sum over a list without duplicates of the indicator of a member. *)
Lemma sumZ_indicator {A} `{EqDecision A} (j : A) l :
  NoDup l → j ∈ l → sumZ ((λ i, if decide (j = i) then 1 else 0) <$> l) = 1.
Proof.
  induction 1 as [|x l Hx Hnd IH]; intros Hj; [by apply not_elem_of_nil in Hj|].
  rewrite fmap_cons. cbn [sumZ]. apply elem_of_cons in Hj. case_decide as Heq.
  - subst x. rewrite (sumZ_fmap_const _ 0); [lia|]. intros y Hy. case_decide; [by subst|done].
  - rewrite IH; [lia|]. by destruct Hj.
Qed.

Lemma elem_of_concat {A} (x : A) ll : x ∈ concat ll ↔ ∃ l, x ∈ l ∧ l ∈ ll.
Proof.
  induction ll as [|l ll IH]; cbn [concat].
  - split; [by intros ?%not_elem_of_nil|]. by intros (? & _ & ?%not_elem_of_nil).
  - rewrite elem_of_app, IH. set_solver.
Qed.

(** * Sums over a map *)

Section MapSum.
Context {K A : Type} `{Countable K}.
Implicit Types (m : gmap K A) (f : A → Z).

Definition msum f m : Z := map_fold (λ _ x n, f x + n) 0 m.
(** What the entry at [k] adds. *)
Definition at_key f m (k : K) : Z := match m !! k with Some x => f x | None => 0 end.

Lemma msum_insert_new f m k x : m !! k = None → msum f (<[k := x]> m) = f x + msum f m.
Proof. intros Hk. unfold msum. rewrite map_fold_insert_L; [done| |done]. intros; lia. Qed.

Lemma msum_delete f m k : msum f m = at_key f m k + msum f (delete k m).
Proof.
  unfold at_key. destruct (m !! k) as [x|] eqn:Hk.
  - rewrite <-(insert_delete_id m k x Hk) at 1. by rewrite msum_insert_new by apply lookup_delete_eq.
  - by rewrite delete_id.
Qed.

Lemma msum_insert f m k x : msum f (<[k := x]> m) = msum f m - at_key f m k + f x.
Proof.
  rewrite <-insert_delete_eq, msum_insert_new by apply lookup_delete_eq.
  pose proof (msum_delete f m k). lia.
Qed.

Lemma msum_empty f : msum f ∅ = 0.
Proof. done. Qed.

Lemma msum_ext f g m : (∀ k x, m !! k = Some x → f x = g x) → msum f m = msum g m.
Proof.
  induction m as [|k x m Hk IH] using map_ind; intros Hfg; [done|].
  rewrite !msum_insert_new, IH, (Hfg k x); try done; [by rewrite lookup_insert_eq|].
  intros k' y Hy. apply (Hfg k'). rewrite lookup_insert_ne; [done|]. congruence.
Qed.

Lemma msum_zero f m : (∀ k x, m !! k = Some x → f x = 0) → msum f m = 0.
Proof.
  induction m as [|k x m Hk IH] using map_ind; intros Hf; [done|].
  rewrite msum_insert_new, (Hf k x), IH; [done| |by rewrite lookup_insert_eq|done].
  intros k' y Hy. apply (Hf k'). rewrite lookup_insert_ne; [done|]. congruence.
Qed.

Lemma msum_nonneg f m : (∀ k x, m !! k = Some x → 0 ≤ f x) → 0 ≤ msum f m.
Proof.
  induction m as [|k x m Hk IH] using map_ind; intros Hf; [done|].
  rewrite msum_insert_new by done. pose proof (Hf k x ltac:(by rewrite lookup_insert_eq)).
  enough (0 ≤ msum f m) by lia. apply IH. intros k' y Hy. apply (Hf k').
  rewrite lookup_insert_ne; [done|]. congruence.
Qed.

(** A sum of nonnegative terms that is 0 has no positive term. *)
Lemma msum_zero_inv f m k x :
  (∀ k x, m !! k = Some x → 0 ≤ f x) → msum f m = 0 → m !! k = Some x → f x = 0.
Proof.
  intros Hf H0 Hk. pose proof (msum_delete f m k) as Hd. unfold at_key in Hd. rewrite Hk in Hd.
  pose proof (Hf _ _ Hk). enough (0 ≤ msum f (delete k m)) by lia. apply msum_nonneg.
  intros k' y [_ Hy]%lookup_delete_Some. by apply (Hf k').
Qed.

(** Counting the objects that have an entry of their own in another map. *)
Lemma msum_le_size {J B} `{Countable J} f (key : A → J) (L : gmap J B) m :
  (∀ k x, m !! k = Some x → f x = 0 ∨ f x = 1 ∧ is_Some (L !! key x)) →
  (∀ k1 k2 x1 x2, m !! k1 = Some x1 → m !! k2 = Some x2 → f x1 = 1 → f x2 = 1 →
     key x1 = key x2 → k1 = k2) →
  msum f m ≤ Z.of_nat (size L).
Proof.
  revert L. induction m as [|k x m Hk IH] using map_ind; intros L Hf Hinj; [rewrite msum_empty; lia|].
  assert (Hne : ∀ k' y, m !! k' = Some y → <[k := x]> m !! k' = Some y).
  { intros k' y Hy. rewrite lookup_insert_ne; [done|]. congruence. }
  assert (Hinj' : ∀ k1 k2 x1 x2, m !! k1 = Some x1 → m !! k2 = Some x2 → f x1 = 1 → f x2 = 1 →
     key x1 = key x2 → k1 = k2) by (intros; eapply (Hinj k1 k2); eauto).
  rewrite msum_insert_new by done.
  destruct (Hf k x ltac:(by rewrite lookup_insert_eq)) as [->|[Hfx [b Hb]]].
  { apply IH; [|done]. intros k' y Hy. by apply (Hf k'), Hne. }
  rewrite Hfx.
  assert (size L = S (size (delete (key x) L))) as ->.
  { rewrite <-(insert_delete_id L (key x) b Hb) at 1.
    rewrite map_size_insert_None; [done|apply lookup_delete_eq]. }
  enough (msum f m ≤ Z.of_nat (size (delete (key x) L))) by lia. apply IH; [|done].
  intros k' y Hy. destruct (Hf k' y (Hne _ _ Hy)) as [?|[H1 HL]]; [by left|right; split; [done|]].
  rewrite lookup_delete_ne; [done|]. intros He. assert (k = k'); [|congruence].
  apply (Hinj k k' x y); [by rewrite lookup_insert_eq|by apply Hne|done|done|done].
Qed.
End MapSum.

Lemma msum_fmap {K A A'} `{Countable K} (g : A' → A) (f : A → Z) (m : gmap K A') :
  msum f (g <$> m) = msum (λ x, f (g x)) m.
Proof.
  induction m as [|k x m Hk IH] using map_ind; [done|].
  rewrite fmap_insert, !msum_insert_new, IH; [done|done|]. by rewrite lookup_fmap, Hk.
Qed.

(** * Tactics *)

(** Decide the first guard of the goal by arithmetic on the hypotheses. *)
Ltac guard_false :=
  match goal with
  | |- context [if ?b then _ else _] => replace b with false by lia; cbv iota
  end.
Ltac guard_true :=
  match goal with
  | |- context [if ?b then _ else _] => replace b with true by lia; cbv iota
  end.
Ltac guards := repeat (first [guard_false | guard_true]).
