(* ===== verification/Bytes.v ===== *)
(** Byte strings: the Python operations the wire formats use ([bytes] slices,
    [bytearray] slice assignment, [struct] packing and unpacking of fixed-width
    unsigned fields in either byte order), with the lemmas that compute a slice
    of a built record. *)

From S2P Require Import Prelude.
#[local] Open Scope Z_scope.

(** * Operations *)

(** [data[off : off + n]] *)
Definition slice (off n : nat) (data : bytes) : bytes := take n (drop off data).

(** [data[off : off + len(new)] = new] within the bounds of [data]. *)
Definition splice (off : nat) (new data : bytes) : bytes :=
  take off data ++ new ++ drop (off + length new) data.

(** Little-endian and big-endian renderings of [n] bytes. *)
Definition le (n : nat) (v : Z) : bytes := Z_to_little_endian (Z.of_nat n) 8 v.
Definition be (n : nat) (v : Z) : bytes := reverse (le n v).
Definition le_val (b : bytes) : Z := little_endian_to_Z 8 b.
Definition be_val (b : bytes) : Z := le_val (reverse b).

Arguments le : simpl never.
Arguments be : simpl never.

(** A [struct] unsigned field of [n] bytes packs [v] or raises
    [struct.error]. *)
Definition in_uint (n : nat) (v : Z) : bool :=
  (0 <=? v) && (v <? 2 ^ (8 * Z.of_nat n)).

Definition pack_le (n : nat) (v : Z) : result bytes :=
  if in_uint n v then Ok (le n v) else Raise StructError.
Definition pack_be (n : nat) (v : Z) : result bytes :=
  if in_uint n v then Ok (be n v) else Raise StructError.

(** The [struct] format characters B, H, I and Q as widths. *)
Abbreviation fB := 1%nat (only parsing).
Abbreviation fH := 2%nat (only parsing).
Abbreviation fI := 4%nat (only parsing).
Abbreviation fQ := 8%nat (only parsing).

(** [struct.pack] of consecutive fields given as (width, value) pairs. *)
Fixpoint pack_fields_le (fs : list (nat * Z)) : result bytes :=
  match fs with
  | [] => Ok []
  | (n, v) :: fs' =>
      b ← pack_le n v; bs ← pack_fields_le fs'; Ok (b ++ bs)
  end.

(** [struct.pack_into(fmt, buf, off, ...)]: raises when a value does not fit
    its field or the record does not fit the buffer. *)
Definition pack_into_le (fs : list (nat * Z)) (off : nat) (buf : bytes) :
    result bytes :=
  b ← pack_fields_le fs;
  if (off + length b <=? length buf)%nat then Ok (splice off b buf)
  else Raise StructError.

(** [struct.unpack_from] of one unsigned field. *)
Definition unpack_le (n off : nat) (buf : bytes) : result Z :=
  if (off + n <=? length buf)%nat then Ok (le_val (slice off n buf))
  else Raise StructError.
Definition unpack_be (n off : nat) (buf : bytes) : result Z :=
  if (off + n <=? length buf)%nat then Ok (be_val (slice off n buf))
  else Raise StructError.

(** [data[i]] *)
Definition byte_at (i : nat) (data : bytes) : result Z :=
  match data !! i with Some x => Ok x | None => Raise IndexError end.

(** [data[i] = v] on a [bytearray]: [v] outside a byte raises ValueError. *)
Definition set_byte (i : nat) (v : Z) (data : bytes) : result bytes :=
  if negb (i <? length data)%nat then Raise IndexError
  else if (0 <=? v) && (v <? 256) then Ok (<[i := v]> data)
  else Raise ValueError.

(** * Lemmas *)

Lemma length_le n v : length (le n v) = n.
Proof. unfold le. apply Nat2Z.inj. rewrite length_Z_to_little_endian; lia. Qed.

Lemma length_be n v : length (be n v) = n.
Proof. unfold be. by rewrite length_reverse, length_le. Qed.

Lemma wf_le n v : wf_bytes (le n v).
Proof. unfold wf_bytes, le. change 256 with (2 ^ 8). apply Z_to_little_endian_bound; lia. Qed.

Lemma wf_be n v : wf_bytes (be n v).
Proof. unfold wf_bytes, be. apply Forall_reverse, wf_le. Qed.

Lemma le_val_le n v : in_uint n v = true → le_val (le n v) = v.
Proof.
  unfold in_uint, le_val, le. intros H.
  rewrite little_endian_to_Z_to_little_endian by lia.
  rewrite Z.mod_small; [done|]. rewrite (Z.mul_comm (Z.of_nat n)). lia.
Qed.

Lemma be_val_be n v : in_uint n v = true → be_val (be n v) = v.
Proof. intros. unfold be_val, be. rewrite reverse_involutive. by apply le_val_le. Qed.

Lemma le_le_val b n : wf_bytes b → length b = n → le n (le_val b) = b.
Proof. intros Hwf <-. by apply Z_to_little_endian_to_Z. Qed.

Lemma be_be_val b n : wf_bytes b → length b = n → be n (be_val b) = b.
Proof.
  intros Hwf <-. unfold be, be_val. rewrite le_le_val.
  - apply reverse_involutive.
  - by apply Forall_reverse.
  - apply length_reverse.
Qed.

Lemma le_val_bound b :
  wf_bytes b → 0 ≤ le_val b < 2 ^ (8 * Z.of_nat (length b)).
Proof.
  intros Hwf. rewrite (Z.mul_comm 8). by apply little_endian_to_Z_bound.
Qed.

Lemma in_uint_le_val b n : wf_bytes b → length b = n → in_uint n (le_val b) = true.
Proof. intros Hwf <-. unfold in_uint. pose proof (le_val_bound b Hwf). lia. Qed.

Lemma pack_le_ok n v : in_uint n v = true → pack_le n v = Ok (le n v).
Proof. unfold pack_le. by intros ->. Qed.

Lemma pack_be_ok n v : in_uint n v = true → pack_be n v = Ok (be n v).
Proof. unfold pack_be. by intros ->. Qed.

Lemma set_byte_ok i v data :
  (i < length data)%nat → 0 ≤ v < 256 → set_byte i v data = Ok (<[i := v]> data).
Proof. intros. unfold set_byte. guards. done. Qed.

Lemma pack_fields_le_ok fs :
  Forall (λ f, in_uint f.1 f.2 = true) fs →
  pack_fields_le fs = Ok (concat ((λ f, le f.1 f.2) <$> fs)).
Proof.
  induction 1 as [|[n v] fs Hf ? IH]; [done|]; simpl in *.
  by rewrite pack_le_ok, IH.
Qed.

Lemma lor_bound n a b :
  0 ≤ n → 0 ≤ a < 2 ^ n → 0 ≤ b < 2 ^ n → 0 ≤ Z.lor a b < 2 ^ n.
Proof.
  intros Hn Ha Hb. rewrite <- (Z.mod_small a (2 ^ n)), <- (Z.mod_small b (2 ^ n)) by done.
  rewrite <- !Z.land_ones, <- Z.land_lor_distr_l, Z.land_ones by done.
  apply Z.mod_pos_bound. lia.
Qed.

(** ** Slices of spliced buffers *)

Lemma length_slice off n data :
  (off + n ≤ length data)%nat → length (slice off n data) = n.
Proof. intros. unfold slice. rewrite length_take, length_drop. lia. Qed.

Lemma wf_slice off n data : wf_bytes data → wf_bytes (slice off n data).
Proof. intros. by apply Forall_take, Forall_drop. Qed.

Lemma length_splice off new data :
  (off + length new ≤ length data)%nat →
  length (splice off new data) = length data.
Proof.
  intros. unfold splice. rewrite !length_app, length_take, length_drop. lia.
Qed.

Lemma length_splice_eq off new data :
  length (splice off new data) =
    (Nat.min off (length data) + (length new + (length data - (off + length new))))%nat.
Proof. unfold splice. by rewrite !length_app, length_take, length_drop. Qed.

Lemma wf_splice off new data :
  wf_bytes new → wf_bytes data → wf_bytes (splice off new data).
Proof.
  intros. apply Forall_app; split; [by apply Forall_take|].
  apply Forall_app; split; [done|by apply Forall_drop].
Qed.

Lemma lookup_splice off new data i :
  (off + length new ≤ length data)%nat →
  splice off new data !! i =
    if decide (off ≤ i < off + length new)%nat then new !! (i - off)%nat
    else data !! i.
Proof.
  intros Hlen. unfold splice. case_decide.
  - rewrite lookup_app_r; rewrite length_take_le by lia; [|lia].
    by rewrite lookup_app_l by lia.
  - destruct (decide (i < off)%nat).
    + rewrite lookup_app_l by (rewrite length_take_le; lia).
      by rewrite lookup_take_lt.
    + rewrite lookup_app_r; rewrite length_take_le by lia; [|lia].
      rewrite lookup_app_r by lia. rewrite lookup_drop. f_equal. lia.
Qed.

Lemma lookup_slice off n data i :
  slice off n data !! i =
    if decide (i < n)%nat then data !! (off + i)%nat else None.
Proof.
  unfold slice. case_decide.
  - rewrite lookup_take_lt by done. apply lookup_drop.
  - by apply lookup_take_ge, Nat.nlt_ge.
Qed.

Lemma slice_splice_eq off n new data :
  (off + length new ≤ length data)%nat → n = length new →
  slice off n (splice off new data) = new.
Proof.
  intros Hlen ->. apply list_eq. intros i.
  rewrite lookup_slice, lookup_splice by done.
  repeat case_decide; try lia.
  - f_equal. lia.
  - symmetry. apply lookup_ge_None. lia.
Qed.

Lemma slice_splice_ne off n off' new data :
  (off' + length new ≤ length data)%nat →
  (off + n ≤ off' ∨ off' + length new ≤ off)%nat →
  slice off n (splice off' new data) = slice off n data.
Proof.
  intros Hlen Hdis. apply list_eq. intros i.
  rewrite !lookup_slice. case_decide; [|done].
  rewrite lookup_splice by done. case_decide; [lia|done].
Qed.

(** A slice inside the spliced part is a slice of the new bytes. *)
Lemma slice_splice_in off n off' new data :
  (off' + length new ≤ length data)%nat →
  (off' ≤ off)%nat → (off + n ≤ off' + length new)%nat →
  slice off n (splice off' new data) = slice (off - off') n new.
Proof.
  intros. apply list_eq. intros i. rewrite !lookup_slice.
  case_decide; [|done]. rewrite lookup_splice by done.
  case_decide; [|lia]. f_equal. lia.
Qed.

Lemma slice_app_l off n a b :
  (off + n ≤ length a)%nat → slice off n (a ++ b) = slice off n a.
Proof.
  intros. apply list_eq. intros i. rewrite !lookup_slice.
  case_decide; [|done]. by rewrite lookup_app_l by lia.
Qed.

Lemma slice_app_r off n a b :
  (length a ≤ off)%nat → slice off n (a ++ b) = slice (off - length a) n b.
Proof.
  intros. apply list_eq. intros i. rewrite !lookup_slice.
  case_decide; [|done]. rewrite lookup_app_r by lia. f_equal. lia.
Qed.

Lemma slice_split off n m data :
  slice off (n + m) data = slice off n data ++ slice (off + n) m data.
Proof. unfold slice. by rewrite <- drop_drop, take_take_drop. Qed.

Lemma slice_full n a : length a = n → slice 0 n a = a.
Proof. intros <-. unfold slice. by rewrite drop_0, firstn_all. Qed.

Lemma slice_insert off n i v data :
  (i < off ∨ off + n ≤ i)%nat →
  slice off n (<[i := v]> data) = slice off n data.
Proof.
  intros. apply list_eq. intros j. rewrite !lookup_slice.
  case_decide; [|done]. rewrite list_lookup_insert_ne by lia. done.
Qed.

Lemma wf_insert i v data :
  0 ≤ v < 256 → wf_bytes data → wf_bytes (<[i := v]> data).
Proof. intros. by apply Forall_insert. Qed.

Lemma length_pack_fields fs :
  length (concat ((λ f : nat * Z, le f.1 f.2) <$> fs)) = sum_list_with fst fs.
Proof.
  induction fs as [|[n v] fs IH]; [done|].
  rewrite fmap_cons; simpl. by rewrite length_app, length_le, IH.
Qed.

Lemma pack_into_le_ok fs off buf :
  Forall (λ f, in_uint f.1 f.2 = true) fs →
  (off + sum_list_with fst fs ≤ length buf)%nat →
  pack_into_le fs off buf =
    Ok (splice off (concat ((λ f, le f.1 f.2) <$> fs)) buf).
Proof.
  intros Hfs Hlen. unfold pack_into_le. rewrite pack_fields_le_ok by done.
  simpl. rewrite (proj2 (Nat.leb_le _ _)); [done|].
  by rewrite length_pack_fields.
Qed.

Lemma wf_replicate_0 n : wf_bytes (replicate n 0).
Proof. apply Forall_replicate. lia. Qed.

Lemma wf_nil : wf_bytes [].
Proof. by apply Forall_nil. Qed.

Lemma wf_app a b : wf_bytes a → wf_bytes b → wf_bytes (a ++ b).
Proof. intros. by apply Forall_app. Qed.

Create HintDb wf_bytes.
#[export] Hint Resolve wf_le wf_be wf_splice wf_slice wf_replicate_0 wf_insert wf_nil wf_app : wf_bytes.

Create Rewrite HintDb len.
#[export] Hint Rewrite @length_app @length_insert @length_replicate @length_take
  @length_drop length_le length_be length_splice_eq : len.

(** Lengths of built records. *)
Ltac len_lia :=
  cbn [length concat app fmap list_fmap sum_list_with fst snd Nat.add];
  autorewrite with len;
  cbn [length concat app fmap list_fmap sum_list_with fst snd Nat.add]; lia.

(** The side conditions of [pack_into_le_ok]: every field fits its width. *)
Ltac fields_ok :=
  repeat (apply Forall_cons; split; [simpl; try done; unfold in_uint in *; lia|]);
  apply Forall_nil; exact I.
