(* ===== verification/Verbs.v ===== *)
(** What the transport components share of the verbs layer: work completions,
    and the interface of a monotonic clock ([time.monotonic]) that the waiting
    loops rely on. *)

From S2P Require Import Prelude.
#[local] Open Scope Z_scope.

(** The fields of [ibverbs.WC] that the source reads. *)
Record WC := mk_WC {
  wc_wr_id : Z;
  wc_status : Z;
  wc_byte_len : Z;
}.

(** [WC.raise_for_status]: a failed completion raises CompletionError, a
    VerbsError whose errno is EIO. *)
Definition wc_raise_for_status (wc : WC) : result unit :=
  if negb (wc_status wc =? 0) then Raise (VerbsError 5) else Ok tt.

(** A clock read from the environment, in integer ticks. *)
Class Clock (W : Type) := dev_clock : W → Z * W.

(** [time.monotonic] advances: each read returns the current time and leaves a
    strictly later one.  [now] is the time a read would return. *)
Class ClockLaws (W : Type) `{Clock W} := {
  now : W → Z;
  clock_now : ∀ w, (dev_clock w).1 = now w;
  clock_advances : ∀ w, now w < now (dev_clock w).2;
}.
