(* ===== verification/Protocol.v ===== *)
(** NVMe, NVMe-oF and NVMe/RDMA wire layouts: src/nvmeof/src/nvmeof/protocol.py.

    Every builder and parser of the module is a definition of the same name.
    A [bytearray] command is a list of 64 bytes threaded through the builder;
    [struct.error], ValueError and IndexError are values of [result].  A [str]
    is its list of code points; an NQN argument is its UTF-8 encoding and a
    host id is the 16 bytes of its UUID. *)

From S2P Require Import Prelude Bytes.
#[local] Open Scope Z_scope.

(** * Constants *)

Definition NVME_RDMA_PORT := 4420.
Definition ADMIN_QUEUE_DEPTH := 32.
Definition MAX_QUEUE_DEPTH := 256.
Definition MAX_KEYED_SGL_LENGTH := 2 ^ 24 - 1.
Definition OPC_FLUSH := 0x00.
Definition OPC_WRITE := 0x01.
Definition OPC_READ := 0x02.
Definition OPC_IDENTIFY := 0x06.
Definition OPC_SET_FEATURES := 0x09.
Definition OPC_FABRICS := 0x7F.
Definition FCTYPE_PROPERTY_SET := 0x00.
Definition FCTYPE_CONNECT := 0x01.
Definition FCTYPE_PROPERTY_GET := 0x04.
Definition REG_CAP := 0x00.
Definition REG_VS := 0x08.
Definition REG_CC := 0x14.
Definition REG_CSTS := 0x1C.
Definition CC_ENABLE := 1.
Definition CC_CSS_CSI := Z.shiftl 6 4.
Definition CC_MPS_SHIFT := 7.
Definition CC_IOSQES := Z.shiftl 6 16.
Definition CC_IOCQES := Z.shiftl 4 20.
Definition CSTS_READY := 1.
Definition CSTS_FATAL := 2.
Definition FEAT_NUMBER_OF_QUEUES := 0x07.
Definition PSDT_SGL := Z.shiftl 1 6.
Definition KEYED_DATA_BLOCK := 0x40.

(** * Completions *)

Record Completion := mk_Completion {
  result_ : Z;
  sq_head : Z;
  sq_id : Z;
  command_id : Z;
  status_field : Z;
}.

#[global] Instance Completion_eq_dec : EqDecision Completion.
Proof. solve_decision. Defined.

Definition Completion_from_bytes (data : bytes) : result Completion :=
  if (length data <? 16)%nat then Raise ValueError else
  res ← unpack_le 8 0 data;
  head ← unpack_le 2 8 data;
  sqid ← unpack_le 2 10 data;
  cid ← unpack_le 2 12 data;
  st ← unpack_le 2 14 data;
  Ok (mk_Completion res head sqid cid st).

Definition status (c : Completion) : Z := Z.shiftr (status_field c) 1.
Definition status_code (c : Completion) : Z := Z.land (status c) 0xFF.
Definition status_type (c : Completion) : Z := Z.land (Z.shiftr (status c) 8) 0x7.
Definition do_not_retry (c : Completion) : bool :=
  negb (Z.land (status c) (Z.shiftl 1 14) =? 0).
Definition succeeded (c : Completion) : bool := Z.land (status c) 0x7FF =? 0.

Definition raise_for_status (c : Completion) : result unit :=
  if negb (succeeded c) then
    Raise (NVMeStatusError (result_ c) (sq_head c) (sq_id c)
             (command_id c) (status_field c))
  else Ok tt.

(** * Identify data *)

(** [data[offset : offset + n].decode("ascii", "replace").strip()] *)
Definition decode_ascii (b : bytes) : list Z :=
  (λ x, if x <? 128 then x else 0xFFFD) <$> b.

Definition is_space (c : Z) : bool :=
  ((9 <=? c) && (c <=? 13)) || ((28 <=? c) && (c <=? 32)).

Fixpoint lstrip (s : list Z) : list Z :=
  match s with
  | c :: s' => if is_space c then lstrip s' else s
  | [] => []
  end.

Definition strip (s : list Z) : list Z := reverse (lstrip (reverse (lstrip s))).

Definition text (data : bytes) (offset n : nat) : list Z :=
  strip (decode_ascii (slice offset n data)).

Record ControllerInfo := mk_ControllerInfo {
  serial : list Z;
  model : list Z;
  firmware : list Z;
  mdts : Z;
  ci_controller_id : Z;
  version : Z;
  max_commands : Z;
  namespace_count : Z;
  sgls : Z;
  ioccsz : Z;
  iorcsz : Z;
  icdoff : Z;
}.

Definition ControllerInfo_from_bytes (data : bytes) : result ControllerInfo :=
  if (length data <? 4096)%nat then Raise ValueError else
  mdts ← byte_at 77 data;
  cntlid ← unpack_le 2 78 data;
  ver ← unpack_le 4 80 data;
  maxcmd ← unpack_le 2 514 data;
  nn ← unpack_le 4 516 data;
  sgls ← unpack_le 4 536 data;
  ioccsz ← unpack_le 4 1792 data;
  iorcsz ← unpack_le 4 1796 data;
  icdoff ← unpack_le 2 1800 data;
  Ok (mk_ControllerInfo (text data 4 20) (text data 24 40) (text data 64 8)
        mdts cntlid ver maxcmd nn sgls ioccsz iorcsz icdoff).

Record NamespaceInfo := mk_NamespaceInfo {
  ns_nsid : Z;
  size_lbas : Z;
  capacity_lbas : Z;
  used_lbas : Z;
  lba_size : Z;
  metadata_size : Z;
}.

Definition NamespaceInfo_from_bytes (nsid : Z) (data : bytes) :
    result NamespaceInfo :=
  if (length data <? 4096)%nat then Raise ValueError else
  flbas ← byte_at 26 data;
  let fmt := Z.land flbas 0x0F in
  nlbaf ← byte_at 25 data;
  if nlbaf <? fmt then Raise ValueError else
  let lbaf := 128 + fmt * 4 in
  metadata ← unpack_le 2 (Z.to_nat lbaf) data;
  data_shift ← unpack_le 1 (Z.to_nat lbaf + 2) data;
  if (data_shift <? 9) || (31 <? data_shift) then Raise ValueError else
  size ← unpack_le 8 0 data;
  cap ← unpack_le 8 8 data;
  used ← unpack_le 8 16 data;
  Ok (mk_NamespaceInfo nsid size cap used (Z.shiftl 1 data_shift) metadata).

(** * Commands *)

(** A registered memory region: what the builders read of [buffer]. *)
Record MemBuf := mk_MemBuf {
  buf_addr : Z;
  buf_length : Z;
  buf_rkey : Z;
}.

Definition _command (opcode nsid : Z) : result bytes :=
  command ← pack_into_le [(fB, opcode); (fB, PSDT_SGL); (fH, 0); (fI, nsid)] 0
              (replicate 64 0);
  set_byte 39 KEYED_DATA_BLOCK command.

Definition set_keyed_sgl (command : bytes) (buffer : MemBuf)
    (length_ : option Z) (offset : Z) : result bytes :=
  let total := buf_length buffer in
  if (offset <? 0) || (total <? offset) then Raise ValueError else
  let len := default (total - offset) length_ in
  if (len <=? 0) || (total - offset <? len) then Raise ValueError else
  if MAX_KEYED_SGL_LENGTH <? len then Raise ValueError else
  let addr := buf_addr buffer + offset in
  let rkey := buf_rkey buffer in
  if (addr <? 0) || (2 ^ 64 - 1 <? addr) then Raise ValueError else
  if (rkey <? 0) || (2 ^ 32 - 1 <? rkey) then Raise ValueError else
  flags ← byte_at 1 command;
  command ← set_byte 1 (Z.lor flags PSDT_SGL) command;
  command ← pack_into_le [(fQ, addr)] 24 command;
  let command := splice 32 (le 3 len) command in
  command ← pack_into_le [(fI, rkey)] 35 command;
  set_byte 39 KEYED_DATA_BLOCK command.

Definition rdma_cm_request (qid depth controller_id : Z) : result bytes :=
  if (qid <? 0) || (0xFFFF <? qid) then Raise ValueError else
  if (depth <? 2) || (MAX_QUEUE_DEPTH <? depth) then Raise ValueError else
  let cntlid := if qid =? 0 then 0 else controller_id in
  if (cntlid <? 0) || (0xFFFF <? cntlid) then Raise ValueError else
  b ← pack_fields_le [(fH, 0); (fH, qid); (fH, depth); (fH, depth - 1); (fH, cntlid)];
  Ok (b ++ replicate 22 0).

Definition parse_rdma_cm_response (data : bytes) : result Z :=
  if (length data <? 4)%nat then Raise ValueError else
  recfmt ← unpack_le 2 0 data;
  crqsize ← unpack_le 2 2 data;
  if negb (recfmt =? 0) then Raise ValueError else
  if crqsize =? 0 then Raise ValueError else
  Ok crqsize.

(** One NQN of the Connect data: the loop body of [connect_data]. *)
Definition put_nqn (offset : nat) (encoded : bytes) (data : bytes) :
    result bytes :=
  if (length encoded <? 11)%nat || (223 <? length encoded)%nat
     || bool_decide (0 ∈ encoded) then Raise ValueError
  else Ok (splice offset encoded data).

Definition connect_data (host_uuid subsystem_nqn host_nqn : bytes)
    (controller_id : Z) : result bytes :=
  let data := splice 0 host_uuid (replicate 1024 0) in
  data ← pack_into_le [(fH, controller_id)] 16 data;
  data ← put_nqn 256 subsystem_nqn data;
  put_nqn 512 host_nqn data.

Definition fabrics_connect (qid depth : Z) (data_buffer : MemBuf)
    (kato_ms : Z) : result bytes :=
  if (kato_ms <? 0) || (0xFFFFFFFF <? kato_ms) then Raise ValueError else
  command ← _command OPC_FABRICS 0;
  command ← set_byte 4 FCTYPE_CONNECT command;
  command ← set_keyed_sgl command data_buffer (Some 1024) 0;
  pack_into_le [(fH, 0); (fH, qid); (fH, depth - 1); (fB, 0); (fB, 0); (fI, kato_ms)]
    40 command.

Definition property_get (offset size : Z) : result bytes :=
  if negb ((size =? 4) || (size =? 8)) then Raise ValueError else
  command ← _command OPC_FABRICS 0;
  command ← set_byte 4 FCTYPE_PROPERTY_GET command;
  command ← set_byte 40 (if size =? 8 then 1 else 0) command;
  pack_into_le [(fI, offset)] 44 command.

Definition property_set (offset value size : Z) : result bytes :=
  if negb ((size =? 4) || (size =? 8)) then Raise ValueError else
  command ← _command OPC_FABRICS 0;
  command ← set_byte 4 FCTYPE_PROPERTY_SET command;
  command ← set_byte 40 (if size =? 8 then 1 else 0) command;
  pack_into_le [(fI, offset); (fQ, value)] 44 command.

Definition identify (data_buffer : MemBuf) (nsid : Z) (controller : bool) :
    result bytes :=
  command ← _command OPC_IDENTIFY nsid;
  command ← set_keyed_sgl command data_buffer (Some 4096) 0;
  set_byte 40 (if controller then 1 else 0) command.

Definition set_features (feature_id value : Z) : result bytes :=
  command ← _command OPC_SET_FEATURES 0;
  pack_into_le [(fI, feature_id); (fI, value)] 40 command.

Definition rw_command (opcode nsid slba blocks : Z) (buffer : MemBuf)
    (lba_size buffer_offset : Z) : result bytes :=
  if negb ((opcode =? OPC_READ) || (opcode =? OPC_WRITE)) then Raise ValueError else
  if (slba <? 0) || (2 ^ 64 - 1 <? slba) then Raise ValueError else
  if (blocks <=? 0) || (65536 <? blocks) then Raise ValueError else
  if lba_size <=? 0 then Raise ValueError else
  let length_ := blocks * lba_size in
  command ← _command opcode nsid;
  command ← set_keyed_sgl command buffer (Some length_) buffer_offset;
  pack_into_le [(fQ, slba); (fH, blocks - 1)] 40 command.

(** * Specification of the command layout

    What a target reads from a 64-byte capsule: the common dwords, the keyed
    SGL data pointer and command dwords 10 to 12. *)

Definition field (off n : nat) (cmd : bytes) : Z := le_val (slice off n cmd).

Record Capsule := mk_Capsule {
  cp_opcode : Z;
  cp_flags : Z;
  cp_cid : Z;
  cp_nsid : Z;
  cp_addr : Z;
  cp_len : Z;
  cp_rkey : Z;
  cp_sgl_type : Z;
}.

Definition parse_capsule (cmd : bytes) : Capsule :=
  mk_Capsule (field 0 1 cmd) (field 1 1 cmd) (field 2 2 cmd) (field 4 4 cmd)
    (field 24 8 cmd) (field 32 3 cmd) (field 35 4 cmd) (field 39 1 cmd).

(** The arguments [set_keyed_sgl] accepts. *)
Definition sgl_valid (buffer : MemBuf) (len offset : Z) : bool :=
  (0 <=? offset) && (0 <? len) && (offset + len <=? buf_length buffer)
  && (len <=? MAX_KEYED_SGL_LENGTH)
  && in_uint 8 (buf_addr buffer + offset) && in_uint 4 (buf_rkey buffer).

(** The arguments [rw_command] accepts. *)
Definition rw_valid (opcode nsid slba blocks : Z) (buffer : MemBuf)
    (lba_size buffer_offset : Z) : bool :=
  ((opcode =? OPC_READ) || (opcode =? OPC_WRITE)) && in_uint 4 nsid
  && in_uint 8 slba && (0 <? blocks) && (blocks <=? 65536) && (0 <? lba_size)
  && sgl_valid buffer (blocks * lba_size) buffer_offset.

(** * Lemmas *)

(** The bytes of a command before its specific dwords, as a list. *)
Definition base_bytes (opcode nsid : Z) : bytes :=
  <[39%nat := KEYED_DATA_BLOCK]>
    (splice 0 (le 1 opcode ++ le 1 PSDT_SGL ++ le 2 0 ++ le 4 nsid ++ [])
       (replicate 64 0)).

Definition sgl_bytes (flags addr len rkey : Z) (cmd : bytes) : bytes :=
  <[39%nat := KEYED_DATA_BLOCK]>
    (splice 35 (le 4 rkey ++ [])
      (splice 32 (le 3 len)
        (splice 24 (le 8 addr ++ []) (<[1%nat := Z.lor flags PSDT_SGL]> cmd)))).

Lemma command_ok opcode nsid :
  in_uint 1 opcode = true → in_uint 4 nsid = true →
  _command opcode nsid = Ok (base_bytes opcode nsid).
Proof.
  intros Ho Hn. unfold _command. rewrite pack_into_le_ok; [done|fields_ok|len_lia].
Qed.

Lemma command_err opcode nsid :
  in_uint 1 opcode = true → in_uint 4 nsid = false →
  _command opcode nsid = Raise StructError.
Proof.
  intros Ho Hn. unfold _command, pack_into_le, pack_fields_le, pack_le.
  by rewrite Ho, Hn.
Qed.

Lemma length_base_bytes opcode nsid : length (base_bytes opcode nsid) = 64%nat.
Proof. done. Qed.

Lemma wf_base_bytes opcode nsid : wf_bytes (base_bytes opcode nsid).
Proof.
  apply wf_insert; [done|]. apply wf_splice; auto with wf_bytes.
Qed.

Lemma lookup_base_flags opcode nsid : base_bytes opcode nsid !! 1%nat = Some PSDT_SGL.
Proof. done. Qed.

Lemma set_keyed_sgl_ok cmd buffer len offset flags :
  length cmd = 64%nat → cmd !! 1%nat = Some flags → 0 ≤ flags < 256 →
  sgl_valid buffer len offset = true →
  set_keyed_sgl cmd buffer (Some len) offset =
    Ok (sgl_bytes flags (buf_addr buffer + offset) len (buf_rkey buffer) cmd).
Proof.
  unfold sgl_valid. intros Hlen Hfl Hr Hv.
  assert (in_uint 8 (buf_addr buffer + offset) = true ∧
          in_uint 4 (buf_rkey buffer) = true) as [Ha Hk] by lia.
  assert (0 ≤ Z.lor flags PSDT_SGL < 256) as Hor.
  { apply (lor_bound 8); [lia|done|done]. }
  unfold in_uint, MAX_KEYED_SGL_LENGTH in *; simpl in *.
  unfold set_keyed_sgl, MAX_KEYED_SGL_LENGTH; simpl default. guards.
  unfold byte_at. rewrite Hfl; simpl. rewrite set_byte_ok by (done || lia). simpl.
  rewrite pack_into_le_ok; simpl; [|fields_ok|len_lia].
  rewrite pack_into_le_ok; simpl; [|fields_ok|len_lia].
  rewrite set_byte_ok; [done|len_lia|done].
Qed.

Lemma le_val_field n v : in_uint n v = true → le_val (le n v ++ []) = v.
Proof. rewrite app_nil_r. apply le_val_le. Qed.

Lemma length_sgl_bytes flags addr len rkey opcode nsid :
  length (sgl_bytes flags addr len rkey (base_bytes opcode nsid)) = 64%nat.
Proof. done. Qed.
#[local] Hint Rewrite length_sgl_bytes length_base_bytes : len.

Lemma wf_sgl_bytes flags addr len rkey cmd :
  0 ≤ Z.lor flags PSDT_SGL < 256 → wf_bytes cmd →
  wf_bytes (sgl_bytes flags addr len rkey cmd).
Proof. intros. apply wf_insert; [done|]. auto 10 with wf_bytes. Qed.

(** The bytes [rw_command] returns. *)
Definition rw_bytes (opcode nsid slba blocks addr len rkey : Z) : bytes :=
  splice 40 (le 8 slba ++ le 2 (blocks - 1) ++ [])
    (sgl_bytes PSDT_SGL addr len rkey (base_bytes opcode nsid)).

Lemma rw_command_ok opcode nsid slba blocks buffer lba off :
  rw_valid opcode nsid slba blocks buffer lba off = true →
  rw_command opcode nsid slba blocks buffer lba off =
    Ok (rw_bytes opcode nsid slba blocks (buf_addr buffer + off)
          (blocks * lba) (buf_rkey buffer)).
Proof.
  unfold rw_valid, in_uint. intros Hv. simpl in Hv. unfold rw_command. guards.
  rewrite command_ok by (unfold in_uint, OPC_READ, OPC_WRITE in *; simpl; lia).
  simpl. rewrite (set_keyed_sgl_ok _ _ _ _ PSDT_SGL); try done; [|lia].
  simpl. rewrite pack_into_le_ok; [done|fields_ok|len_lia].
Qed.

(** An invalid read/write request raises ValueError, or [struct.error] for a
    namespace id wider than 32 bits; it never builds a command. *)
Lemma rw_command_err opcode nsid slba blocks buffer lba off :
  rw_valid opcode nsid slba blocks buffer lba off = false →
  ∃ e, rw_command opcode nsid slba blocks buffer lba off = Raise e ∧
       (e = ValueError ∨ e = StructError).
Proof.
  unfold rw_valid. intros Hv. unfold rw_command.
  repeat (case_match; [by eauto|]).
  destruct (in_uint 4 nsid) eqn:Hn.
  2: { rewrite command_err; [by eauto| |done].
       unfold in_uint, OPC_READ, OPC_WRITE in *. simpl. lia. }
  rewrite command_ok; [|unfold in_uint, OPC_READ, OPC_WRITE in *; simpl; lia|done].
  simpl. assert (sgl_valid buffer (blocks * lba) off = false) as Hs.
  { unfold in_uint in *. simpl in *. lia. }
  exists ValueError. split; [|by left]. clear -Hs.
  unfold sgl_valid, in_uint in Hs. simpl in Hs. unfold set_keyed_sgl. simpl default.
  repeat (case_match; [done|]). exfalso. lia.
Qed.

(** Fields of a completion written back to its 16 bytes. *)
Definition Completion_bytes (c : Completion) : bytes :=
  le 8 (result_ c) ++ le 2 (sq_head c) ++ le 2 (sq_id c) ++
  le 2 (command_id c) ++ le 2 (status_field c).

Lemma unpack_le_ok n off data :
  (off + n ≤ length data)%nat → unpack_le n off data = Ok (field off n data).
Proof. intros. unfold unpack_le. guards. done. Qed.

Lemma byte_at_ok i data : (i < length data)%nat → ∃ x, data !! i = Some x ∧ byte_at i data = Ok x.
Proof.
  intros Hi. destruct (lookup_lt_is_Some_2 data i Hi) as [x Hx].
  exists x. unfold byte_at. by rewrite Hx.
Qed.

Lemma le_field off n data :
  wf_bytes data → (off + n ≤ length data)%nat →
  le n (field off n data) = slice off n data.
Proof.
  intros. apply le_le_val; [by apply wf_slice|]. by apply length_slice.
Qed.

Lemma field_bound off n data :
  wf_bytes data → (off + n ≤ length data)%nat →
  0 ≤ field off n data < 2 ^ (8 * Z.of_nat n).
Proof.
  intros Hwf Hl. pose proof (le_val_bound _ (wf_slice off n data Hwf)) as Hb.
  rewrite length_slice in Hb by done. done.
Qed.

(** Reading a NUL-terminated name from a fixed field. *)
Fixpoint cstring (b : bytes) : bytes :=
  match b with
  | [] => []
  | x :: b' => if x =? 0 then [] else x :: cstring b'
  end.

Lemma cstring_app b rest : 0 ∉ b → cstring (b ++ 0 :: rest) = b.
Proof.
  induction b as [|x b IH]; intros Hn; simpl; [done|].
  destruct (Z.eqb_spec x 0) as [->|]; [set_solver|].
  f_equal. apply IH. set_solver.
Qed.

Definition nqn_valid (b : bytes) : bool :=
  (11 <=? length b)%nat && (length b <=? 223)%nat && bool_decide (0 ∉ b).

Lemma nqn_valid_inv b : nqn_valid b = true → (length b ≤ 223)%nat ∧ 0 ∉ b.
Proof.
  unfold nqn_valid. intros Hv. destruct (bool_decide (0 ∉ b)) eqn:Hb; [|lia].
  apply bool_decide_eq_true in Hb. split; [lia|done].
Qed.

Lemma put_nqn_ok off b data :
  nqn_valid b = true → put_nqn off b data = Ok (splice off b data).
Proof.
  unfold nqn_valid, put_nqn. intros Hv.
  repeat rewrite andb_true_iff in Hv. destruct Hv as [[? ?] Hn%bool_decide_eq_true].
  rewrite (bool_decide_eq_false_2 (0 ∈ b)) by done. guards. done.
Qed.

Lemma put_nqn_err off b data :
  nqn_valid b = false → put_nqn off b data = Raise ValueError.
Proof.
  unfold nqn_valid, put_nqn. intros Hv.
  destruct (decide (0 ∈ b)) as [Hin|Hin].
  - rewrite (bool_decide_eq_true_2 (0 ∈ b)) by done. by rewrite orb_true_r.
  - rewrite (bool_decide_eq_true_2 (0 ∉ b)) in Hv by done. guards. done.
Qed.

Lemma slice_name off b data :
  (off + 256 ≤ length data)%nat → (length b ≤ 223)%nat → 0 ∉ b →
  slice off 256 data = replicate 256 0 →
  cstring (slice off 256 (splice off b data)) = b.
Proof.
  intros Hl Hb Hn Hz.
  replace 256%nat with (length b + (256 - length b))%nat at 1 by lia.
  rewrite slice_split, slice_splice_eq by lia.
  rewrite slice_splice_ne by lia.
  replace (slice (off + length b) (256 - length b) data)
    with (replicate (S (255 - length b)) 0 : bytes).
  { simpl. by apply cstring_app. }
  apply (f_equal (drop (length b))) in Hz. rewrite drop_replicate in Hz.
  unfold slice in *. rewrite skipn_firstn_comm, drop_drop in Hz.
  rewrite Hz. f_equal. lia.
Qed.

(** A field of a built record is the value packed there: the slice computes,
    what is left is that the value fits. *)
Ltac field_eq :=
  match goal with
  | |- field _ ?n _ = ?v => transitivity (le_val (le n v)); [reflexivity|apply le_val_le]
  end.

(** A valid command decodes to what was asked for; the others are refused. *)
Lemma rw_command_capsule opcode nsid slba blocks buffer lba off :
  if rw_valid opcode nsid slba blocks buffer lba off then
    ∃ cmd,
      rw_command opcode nsid slba blocks buffer lba off = Ok cmd ∧
      length cmd = 64%nat ∧ wf_bytes cmd ∧
      parse_capsule cmd =
        mk_Capsule opcode PSDT_SGL 0 nsid (buf_addr buffer + off)
          (blocks * lba) (buf_rkey buffer) KEYED_DATA_BLOCK ∧
      field 40 8 cmd = slba ∧ field 48 2 cmd = blocks - 1
  else
    ∃ e, rw_command opcode nsid slba blocks buffer lba off = Raise e ∧
         (e = ValueError ∨ e = StructError).
Proof.
  destruct (rw_valid _ _ _ _ _ _ _) eqn:Hv; [|by apply rw_command_err].
  eexists. split; [by apply rw_command_ok|].
  split; [done|]. split.
  { unfold rw_bytes. apply wf_splice; [auto 10 with wf_bytes|].
    apply wf_sgl_bytes; [done|apply wf_base_bytes]. }
  unfold rw_valid, sgl_valid, MAX_KEYED_SGL_LENGTH in Hv.
  split.
  - unfold parse_capsule. f_equal; field_eq; try done; unfold in_uint, OPC_READ, OPC_WRITE in *; simpl in *; lia.
  - split; field_eq; unfold in_uint in *; simpl in *; lia.
Qed.

(** * Properties *)

(** C15: [rw_command] on valid arguments returns one 64-byte capsule from which
    a target reads back exactly the opcode, namespace, buffer address, byte
    count, remote key, starting LBA and zero-based block count that were asked
    for; on any other arguments it raises ValueError or [struct.error]. *)
Theorem rw_command_correct opcode nsid slba blocks buffer lba off :
  if rw_valid opcode nsid slba blocks buffer lba off then
    ∃ cmd,
      rw_command opcode nsid slba blocks buffer lba off = Ok cmd ∧
      length cmd = 64%nat ∧ wf_bytes cmd ∧
      parse_capsule cmd =
        mk_Capsule opcode PSDT_SGL 0 nsid (buf_addr buffer + off)
          (blocks * lba) (buf_rkey buffer) KEYED_DATA_BLOCK ∧
      field 40 8 cmd = slba ∧ field 48 2 cmd = blocks - 1
  else
    ∃ e, rw_command opcode nsid slba blocks buffer lba off = Raise e ∧
         (e = ValueError ∨ e = StructError).
Proof. apply rw_command_capsule. Qed.

(** a completion of at least 16 bytes decodes to the record whose fields
    written back in wire order are exactly its first 16 bytes, and a shorter
    one raises ValueError; so decoding loses nothing and never fails late. *)
Theorem Completion_from_bytes_roundtrip data :
  wf_bytes data →
  if (length data <? 16)%nat then Completion_from_bytes data = Raise ValueError
  else ∃ c, Completion_from_bytes data = Ok c ∧
            Completion_bytes c = take 16 data.
Proof.
  intros Hwf. unfold Completion_from_bytes.
  destruct (Nat.ltb_spec (length data) 16); [done|].
  rewrite !unpack_le_ok by lia. simpl. eexists; split; [done|].
  unfold Completion_bytes; cbn [result_ sq_head sq_id command_id status_field].
  rewrite !le_field by (done || lia).
  change (take 16 data) with (slice 0 (8 + (2 + (2 + (2 + 2)))) data).
  by rewrite !slice_split.
Qed.

Lemma Completion_from_bytes_roundtrip_witness :
  wf_bytes (replicate 16 7) ∧
  ∃ c, Completion_from_bytes (replicate 16 7) = Ok c ∧
       Completion_bytes c = take 16 (replicate 16 7).
Proof.
  assert (wf_bytes (replicate 16 7)) as H by (apply Forall_replicate; lia).
  split; [exact H|]. exact (Completion_from_bytes_roundtrip _ H).
Defined.

(** [succeeded] (one test of eleven status bits) holds exactly when both
    the status code and the status code type are zero, and [raise_for_status]
    raises NVMeStatusError, carrying the completion, in every other case. *)
Theorem succeeded_spec c :
  (succeeded c = true ↔ status_code c = 0 ∧ status_type c = 0) ∧
  raise_for_status c =
    (if succeeded c then Ok tt
     else Raise (NVMeStatusError (result_ c) (sq_head c) (sq_id c)
                   (command_id c) (status_field c))).
Proof.
  split; [|unfold raise_for_status; by destruct (succeeded c)].
  unfold succeeded, status_code, status_type.
  change 0x7FF with (Z.ones 11). change 0xFF with (Z.ones 8).
  change 0x7 with (Z.ones 3).
  rewrite !Z.land_ones, Z.shiftr_div_pow2 by lia.
  change (2 ^ 11) with (2 ^ 8 * 2 ^ 3).
  rewrite Z.rem_mul_r, Z.eqb_eq by lia.
  pose proof (Z.mod_pos_bound (status c) (2 ^ 8)).
  pose proof (Z.mod_pos_bound (status c / 2 ^ 8) (2 ^ 3)). lia.
Qed.

(** parsing Identify Namespace data either raises ValueError (short data, a
    selected format beyond the advertised count, an unsupported block size) and
    nothing else, or returns the geometry of the selected LBA format: a block
    size that is a power of two from 2^9 to 2^31 and the sizes at their wire
    offsets. *)
Theorem NamespaceInfo_from_bytes_spec nsid data :
  wf_bytes data →
  match NamespaceInfo_from_bytes nsid data with
  | Ok i =>
      let fmt := Z.to_nat (Z.land (field 26 1 data) 0x0F) in
      let k := field (128 + 4 * fmt + 2) 1 data in
      (4096 ≤ length data)%nat ∧ Z.of_nat fmt ≤ field 25 1 data ∧
      9 ≤ k ≤ 31 ∧ lba_size i = 2 ^ k ∧
      metadata_size i = field (128 + 4 * fmt) 2 data ∧
      ns_nsid i = nsid ∧ size_lbas i = field 0 8 data ∧
      capacity_lbas i = field 8 8 data ∧ used_lbas i = field 16 8 data
  | Raise e => e = ValueError
  end.
Proof.
  intros Hwf. unfold NamespaceInfo_from_bytes.
  destruct (Nat.ltb_spec (length data) 4096); [done|].
  destruct (byte_at_ok 26 data) as (b & Hb & ->); [lia|].
  destruct (byte_at_ok 25 data) as (n & Hn & ->); [lia|].
  cbv [mbind result_bind].
  assert (∀ i x, data !! i = Some x → field i 1 data = x) as Hf.
  { intros i x Hx. unfold field, slice.
    rewrite (drop_S _ x i) by done. simpl. unfold le_val; simpl.
    by rewrite Z.shiftl_0_l, Z.lor_0_r. }
  rewrite (Hf _ _ Hb), (Hf _ _ Hn).
  assert (0 ≤ Z.land b 0x0F < 16).
  { change 0x0F with (Z.ones 4). rewrite Z.land_ones by lia. by apply Z.mod_pos_bound. }
  remember (Z.land b 0x0F) as fmt eqn:Efmt. clear Efmt.
  destruct (Z.ltb_spec n fmt); [done|].
  replace (Z.to_nat (128 + fmt * 4)) with (128 + 4 * Z.to_nat fmt)%nat by lia.
  rewrite !unpack_le_ok by lia. cbv beta iota.
  match goal with |- context [if ?g then _ else _] => destruct g eqn:Hg end; [done|].
  cbv zeta. cbn [lba_size metadata_size ns_nsid size_lbas capacity_lbas used_lbas].
  rewrite Z2Nat.id by lia. rewrite Z.shiftl_1_l. repeat split; try done; lia.
Qed.

Lemma NamespaceInfo_from_bytes_spec_witness :
  wf_bytes (<[130%nat := 12]> (replicate 4096 0)) ∧
  NamespaceInfo_from_bytes 1 (<[130%nat := 12]> (replicate 4096 0)) =
    Ok (mk_NamespaceInfo 1 0 0 0 4096 0) ∧
  9 ≤ field 130 1 (<[130%nat := 12]> (replicate 4096 0)) ≤ 31.
Proof.
  assert (wf_bytes (<[130%nat := 12]> (replicate 4096 0))) as H
    by (apply wf_insert; [done|apply wf_replicate_0]).
  assert (NamespaceInfo_from_bytes 1 (<[130%nat := 12]> (replicate 4096 0)) =
    Ok (mk_NamespaceInfo 1 0 0 0 4096 0)) as He by (vm_compute; reflexivity).
  split; [exact H|]. split; [exact He|].
  pose proof (NamespaceInfo_from_bytes_spec 1 _ H) as Hs. rewrite He in Hs.
  vm_compute in Hs |- *. tauto.
Defined.

(** the connection records.  [rdma_cm_request] accepts exactly a 16-bit
    queue id, a depth from 2 to 256 and (for I/O queues) a 16-bit controller
    id, and then packs record format 0, the queue id, the receive size, the
    zero-based send size and the controller id (0 on the admin queue) into 32
    bytes. *)
Theorem rdma_cm_request_spec qid depth cntlid :
  let id := if qid =? 0 then 0 else cntlid in
  if in_uint 2 qid && (2 <=? depth) && (depth <=? 256) && in_uint 2 id then
    ∃ b, rdma_cm_request qid depth cntlid = Ok b ∧ length b = 32%nat ∧
         [field 0 2 b; field 2 2 b; field 4 2 b; field 6 2 b; field 8 2 b] =
         [0; qid; depth; depth - 1; id] ∧
         slice 10 22 b = replicate 22 0
  else rdma_cm_request qid depth cntlid = Raise ValueError.
Proof.
  cbv zeta. remember (if qid =? 0 then 0 else cntlid) as id eqn:Eid.
  unfold rdma_cm_request, MAX_QUEUE_DEPTH. rewrite <- Eid. clear Eid.
  destruct (in_uint 2 qid && _ && _ && _) eqn:Hv.
  - unfold in_uint in Hv. simpl in Hv. guards.
    rewrite pack_fields_le_ok by fields_ok. cbv [mbind result_bind].
    eexists; split; [reflexivity|]. split; [done|]. split; [|done].
    repeat (apply f_equal2; [field_eq; unfold in_uint; simpl; lia|]). done.
  - unfold in_uint in Hv. simpl in Hv.
    repeat (case_match; [done|]). exfalso. lia.
Qed.

(** [connect_data] accepts exactly a 16-bit controller id and two NQNs of
    11 to 223 bytes without a NUL; the 1024-byte structure it returns carries
    the host UUID at 0, the controller id at 16 and each NQN as a
    NUL-terminated name in its 256-byte field. *)
Theorem connect_data_spec uuid sub host cntlid :
  length uuid = 16%nat →
  if in_uint 2 cntlid && nqn_valid sub && nqn_valid host then
    ∃ d, connect_data uuid sub host cntlid = Ok d ∧ length d = 1024%nat ∧
         slice 0 16 d = uuid ∧ field 16 2 d = cntlid ∧
         cstring (slice 256 256 d) = sub ∧ cstring (slice 512 256 d) = host
  else ∃ e, connect_data uuid sub host cntlid = Raise e ∧
            (e = ValueError ∨ e = StructError).
Proof.
  intros Hu. unfold connect_data.
  destruct (in_uint 2 cntlid) eqn:Hc; simpl.
  2: { unfold pack_into_le, pack_fields_le, pack_le. rewrite Hc; simpl. eauto. }
  rewrite pack_into_le_ok by (fields_ok || len_lia). cbv [mbind result_bind].
  cbn [concat fmap list_fmap fst snd]. rewrite app_nil_r.
  destruct (nqn_valid sub) eqn:Hs; simpl; [|rewrite put_nqn_err by done; eauto].
  rewrite put_nqn_ok by done; simpl.
  destruct (nqn_valid host) eqn:Hh; simpl; [|rewrite put_nqn_err by done; eauto].
  rewrite put_nqn_ok by done.
  eexists; split; [done|].
  destruct (nqn_valid_inv _ Hs) as [Hsl Hsn], (nqn_valid_inv _ Hh) as [Hhl Hhn].
  split; [len_lia|]. split.
  { rewrite !slice_splice_ne by len_lia. apply slice_splice_eq; len_lia. }
  split.
  { unfold field. rewrite !slice_splice_ne by len_lia.
    rewrite slice_splice_eq by len_lia. by apply le_val_le. }
  split.
  - rewrite slice_splice_ne by len_lia. apply slice_name; try done; [len_lia|].
    by rewrite !slice_splice_ne by len_lia.
  - apply slice_name; try done; [len_lia|].
    by rewrite !slice_splice_ne by len_lia.
Qed.

Lemma connect_data_spec_witness :
  ∃ d, connect_data (replicate 16 9) (replicate 11 65) (replicate 12 66) 0xFFFF = Ok d ∧
       cstring (slice 256 256 d) = replicate 11 65.
Proof.
  destruct (connect_data_spec (replicate 16 9) (replicate 11 65) (replicate 12 66)
    0xFFFF eq_refl) as (d & Hd & _ & _ & _ & Hn & _).
  exists d. split; [exact Hd|exact Hn].
Defined.
