(* ===== verification/RdmaQueue.v ===== *)
(** The NVMe/RDMA command queue: src/nvmeof/src/nvmeof/rdma.py.

    [QState] is the state of one [RDMAQueue] together with the store of the
    [Request] objects it shares with its callers: [_pending], [_completed] and
    the value [submit] returns hold object ids into [q_heap] (an object is allocated at its
    end and never freed), so an update made
    by [poll] is seen through the handle the caller kept.  [data_owner] is a reference
    kept for its lifetime only and has no field here.  The verbs objects, the
    connection manager, the clock and the response memory the device writes
    are the operations of the class [QueueDevice] over a world [W]. *)

From S2P Require Import Prelude Bytes Verbs Protocol.
#[local] Open Scope Z_scope.

Definition _SEND_TAG := 2 ^ 63.
Definition _RECV_TAG := 2 ^ 62.
Definition _INDEX_MASK := 2 ^ 32 - 1.

(** * Host buffers *)

(** A registered host allocation: its memory and its keys. *)
Record HostBuffer := mk_HostBuffer {
  hb_addr : Z;
  hb_mem : bytes;
  hb_rkey : Z;
  hb_lkey : Z;
}.

(** The part of the constructor before the registration call. *)
Definition HostBuffer_alloc (length_ : Z) : result bytes :=
  if length_ <=? 0 then Raise ValueError else Ok (replicate (Z.to_nat length_) 0).

Definition HostBuffer_write (data : bytes) (offset : Z) (mem : bytes) :
    result bytes :=
  if (offset <? 0) || (Z.of_nat (length mem) - offset <? Z.of_nat (length data))
  then Raise ValueError
  else Ok (splice (Z.to_nat offset) data mem).

Definition HostBuffer_read (length_ : option Z) (offset : Z) (mem : bytes) :
    result bytes :=
  let total := Z.of_nat (length mem) in
  let n := default (total - offset) length_ in
  if (offset <? 0) || (n <? 0) || (total - offset <? n) then Raise ValueError
  else Ok (slice (Z.to_nat offset) (Z.to_nat n) mem).

(** * Queue state *)

Record Request := mk_Request {
  rq_command_id : Z;
  rq_send_complete : bool;
  rq_response : option Completion;
  rq_done : bool;
}.

(** The resources a queue owns, in the order [close] releases them. *)
Inductive resource := RCommands | RResponses | RQp | RCq | RPd | RCm.

#[global] Instance resource_eq_dec : EqDecision resource.
Proof. solve_decision. Defined.

Record SendWR := mk_SendWR { sw_wr_id : Z; sw_length : Z; sw_offset : Z }.
Record RecvWR := mk_RecvWR { rw_wr_id : Z; rw_length : Z; rw_offset : Z }.

(** The calls out of the queue.  [dev_post_send] is given the command memory
    its scatter entry points into; [dev_responses] is the response memory. *)
Class QueueDevice (W : Type) := {
  dev_acquire : resource → W → result unit * W;
  dev_release : resource → W → result unit * W;
  dev_connected : W → bool;
  dev_disconnect : W → result unit * W;
  dev_max_qp_rd_atom : W → result Z * W;
  dev_connect : bytes → Z → W → result bytes * W;
  dev_post_send : SendWR → bytes → W → result unit * W;
  dev_post_recv : list RecvWR → W → result unit * W;
  dev_poll : Z → W → result (list WC) * W;
  dev_responses : W → bytes;
}.

Record QState (W : Type) := mk_QState {
  q_qid : Z;
  q_depth : Z;
  q_live : list resource;
  q_commands : bytes;
  q_heap : list Request;
  q_pending : gmap Z nat;
  q_completed : list nat;
  q_free : list Z;
  q_closed : bool;
  q_world : W;
}.
Arguments mk_QState {W}.
Arguments q_qid {W}. Arguments q_depth {W}. Arguments q_live {W}.
Arguments q_commands {W}. Arguments q_heap {W}. Arguments q_pending {W}.
Arguments q_completed {W}. Arguments q_free {W}. Arguments q_closed {W}.
Arguments q_world {W}.

Section Setters.
Context {W : Type}.
Implicit Types q : QState W.

Definition set_world (w : W) q := mk_QState (q_qid q) (q_depth q) (q_live q)
  (q_commands q) (q_heap q) (q_pending q) (q_completed q) (q_free q) (q_closed q) w.
Definition set_live l q := mk_QState (q_qid q) (q_depth q) l
  (q_commands q) (q_heap q) (q_pending q) (q_completed q) (q_free q) (q_closed q)
  (q_world q).
Definition set_commands c q := mk_QState (q_qid q) (q_depth q) (q_live q)
  c (q_heap q) (q_pending q) (q_completed q) (q_free q) (q_closed q) (q_world q).
Definition set_closed q := mk_QState (q_qid q) (q_depth q) (q_live q)
  (q_commands q) (q_heap q) (q_pending q) (q_completed q) (q_free q) true (q_world q).
Definition set_completed l q := mk_QState (q_qid q) (q_depth q) (q_live q)
  (q_commands q) (q_heap q) (q_pending q) l (q_free q) (q_closed q) (q_world q).
Definition set_heap h q := mk_QState (q_qid q) (q_depth q) (q_live q)
  (q_commands q) h (q_pending q) (q_completed q) (q_free q) (q_closed q) (q_world q).
Definition set_ids p c f q := mk_QState (q_qid q) (q_depth q) (q_live q)
  (q_commands q) (q_heap q) p c f (q_closed q) (q_world q).
End Setters.

(** A call out: it changes the world only. *)
Definition dev {W A} (f : W → result A * W) : M (QState W) A := λ q,
  let '(r, w) := f (q_world q) in (r, set_world w q).

(** * Operations *)

Section Queue.
Context {W : Type} `{!QueueDevice W} `{!Clock W}.
Abbreviation Q := (M (QState W)).

(** ** Closing *)

(** One [try: resource.close(); setattr(self, name, None)] of [close]. *)
Definition release (errors : list exn) (r : resource) : Q (list exn) :=
  q ← get;
  if bool_decide (r ∈ q_live q) then
    try_except
      (dev (dev_release r);;
       modify (λ q, set_live (filter (.≠ r) (q_live q)) q);;
       mret errors)
      (λ e, if is_OSError e then mret (errors ++ [e]) else raise e)
  else mret errors.

(** [for name in (...)] of [close]. *)
Fixpoint release_all (errors : list exn) (rs : list resource) : Q (list exn) :=
  match rs with
  | [] => mret errors
  | r :: rs' => errors ← release errors r; release_all errors rs'
  end.

Definition close : Q unit :=
  q ← get;
  if q_closed q && bool_decide (q_live q = []) then mret tt else
  modify set_closed;;
  (if bool_decide (RCm ∈ q_live q) && dev_connected (q_world q) then
     try_except (dev dev_disconnect)
       (λ e, if is_OSError e then mret tt else raise e)
   else mret tt);;
  errors ← release_all [] [RCommands; RResponses; RQp; RCq; RPd];
  errors ← release errors RCm;
  match errors with [] => mret tt | e :: _ => raise e end.

(** ** Construction *)

Definition acquire (r : resource) : Q unit :=
  dev (dev_acquire r);; modify (λ q, set_live (r :: q_live q) q).

Definition _recv_wr (slot : Z) : RecvWR :=
  mk_RecvWR (Z.lor _RECV_TAG slot) 16 (slot * 16).

Definition queue_fields (qid depth : Z) (w : W) : QState W :=
  mk_QState qid depth [] [] [] ∅ [] (seqZ 0 (depth - 1)) false w.

Definition connect_queue (controller_id : Z) : Q unit :=
  q ← get;
  acquire RCm;;
  acquire RPd;;
  acquire RCq;;
  acquire RQp;;
  max_rd_atom ← dev dev_max_qp_rd_atom;
  private ← lift (rdma_cm_request (q_qid q) (q_depth q) controller_id);
  peer ← dev (dev_connect private (Z.min 255 max_rd_atom));
  receive_depth ← lift (parse_rdma_cm_response peer);
  guard_raise (receive_depth <? q_depth q - 1) RuntimeError;;
  mem ← lift (HostBuffer_alloc (64 * (q_depth q - 1)));
  acquire RCommands;;
  modify (set_commands mem);;
  _ ← lift (HostBuffer_alloc (16 * q_depth q));
  acquire RResponses;;
  dev (dev_post_recv (_recv_wr <$> seqZ 0 (q_depth q))).

(** [RDMAQueue.__init__]: a failure closes what was opened, hiding an
    OSError of the cleanup, and is raised again. *)
Definition RDMAQueue_init (qid depth controller_id : Z) (w : W) :
    result unit * QState W :=
  match rdma_cm_request qid depth controller_id with
  | Raise e => (Raise e, queue_fields qid depth w)
  | Ok _ =>
      try_except (connect_queue controller_id)
        (λ e, if is_Exception e then
                try_except close (λ e', if is_OSError e' then mret tt else raise e');;
                raise e
              else raise e)
        (queue_fields qid depth w)
  end.

Definition outstanding (q : QState W) : Z := Z.of_nat (size (q_pending q)).

(** ** Submission *)

Definition submit (command : bytes) : Q nat :=
  q ← get;
  if q_closed q then raise RuntimeError else
  if negb (length command =? 64)%nat then raise ValueError else
  match q_free q with
  | [] => raise QueueFullError
  | cid :: free =>
      modify (set_ids (q_pending q) (q_completed q) free);;
      capsule ← lift (pack_into_le [(fH, cid)] 2 command);
      mem ← lift (HostBuffer_write capsule (cid * 64) (q_commands q));
      modify (set_commands mem);;
      let oid := length (q_heap q) in
      modify (λ q, set_heap (q_heap q ++ [mk_Request cid false None false]) q);;
      modify (λ q, set_ids (<[cid := oid]> (q_pending q)) (q_completed q) (q_free q) q);;
      try_except
        (dev (dev_post_send (mk_SendWR (Z.lor _SEND_TAG cid) 64 (cid * 64)) mem))
        (λ e, if is_Exception e then
                modify (λ q, set_ids (delete cid (q_pending q)) (q_completed q)
                               (cid :: q_free q) q);;
                raise e
              else raise e);;
      mret oid
  end.

(** ** Completion *)

Definition _finish_if_ready (oid : nat) (r : Request) : Q unit :=
  if rq_send_complete r && bool_decide (is_Some (rq_response r)) then
    modify (λ q, set_heap (<[oid := mk_Request (rq_command_id r)
               (rq_send_complete r) (rq_response r) true]> (q_heap q)) q);;
    q ← get;
    guard_raise (bool_decide (q_pending q !! rq_command_id r = None)) KeyError;;
    modify (λ q, set_ids (delete (rq_command_id r) (q_pending q))
                   (q_completed q ++ [oid]) (q_free q ++ [rq_command_id r]) q)
  else mret tt.

(** Write a [Request] object and run [_finish_if_ready] on it. *)
Definition update_request (oid : nat) (f : Request → Request) : Q unit :=
  q ← get;
  match q_heap q !! oid with
  | Some r =>
      modify (set_heap (<[oid := f r]> (q_heap q)));;
      _finish_if_ready oid (f r)
  | None => raise KeyError
  end.

Definition mark_sent (r : Request) : Request :=
  mk_Request (rq_command_id r) true (rq_response r) (rq_done r).
Definition set_response (c : Completion) (r : Request) : Request :=
  mk_Request (rq_command_id r) (rq_send_complete r) (Some c) (rq_done r).

(** The body of the loop of [poll]: one work completion. *)
Definition poll_wc (wc : WC) : Q unit :=
  lift (wc_raise_for_status wc);;
  if negb (Z.land (wc_wr_id wc) _SEND_TAG =? 0) then
    let cid := Z.land (wc_wr_id wc) _INDEX_MASK in
    q ← get;
    match q_pending q !! cid with
    | None => raise RuntimeError
    | Some oid => update_request oid mark_sent
    end
  else if negb (Z.land (wc_wr_id wc) _RECV_TAG =? 0) then
    let slot := Z.land (wc_wr_id wc) _INDEX_MASK in
    q ← get;
    guard_raise ((wc_byte_len wc <? 16) || (q_depth q <=? slot)) RuntimeError;;
    raw ← lift (HostBuffer_read (Some 16) (slot * 16) (dev_responses (q_world q)));
    completion ← lift (Completion_from_bytes raw);
    dev (dev_post_recv [_recv_wr slot]);;
    q ← get;
    match q_pending q !! command_id completion with
    | None => raise RuntimeError
    | Some oid => update_request oid (set_response completion)
    end
  else raise RuntimeError.

Definition poll (max_entries : option Z) : Q (list nat) :=
  q ← get;
  if q_closed q then mret [] else
  wcs ← dev (dev_poll (default (2 * q_depth q + 1) max_entries));
  for_each poll_wc wcs;;
  q ← get;
  modify (set_completed []);;
  mret (q_completed q).

(** ** Synchronous execution *)

(** [request.done]: the caller's view of the object it submitted. *)
Definition request_done (q : QState W) (oid : nat) : bool :=
  match q_heap q !! oid with Some r => rq_done r | None => false end.

Definition monotonic : Q Z := λ q,
  let '(t, w) := dev_clock (q_world q) in (Ok t, set_world w q).

(** One round of [while not request.done]. *)
Definition execute_round (oid : nat) (deadline : Z) : Q (option unit) :=
  q ← get;
  if request_done q oid then mret (Some tt) else
  _ ← poll None;
  t ← monotonic;
  if deadline <=? t then raise TimeoutError else mret None.

Definition execute (fuel : nat) (command : bytes) (timeout : Z) :
    Q (option Completion) :=
  oid ← submit command;
  t ← monotonic;
  o ← while_loop fuel (execute_round oid (t + timeout));
  match o with
  | None => mret None
  | Some _ =>
      q ← get;
      match q_heap q !! oid ≫= rq_response with
      | None => raise RuntimeError
      | Some response =>
          lift (raise_for_status response);; mret (Some response)
      end
  end.
End Queue.

(** * Invariant *)

(** Requests in flight: a pending id maps to a live object that carries that
    id and has not both halves; a response recorded on an object answers its
    command id; an object is done only with both halves; every command id is
    either free or pending, once. *)
Record Inv {W} (q : QState W) : Prop := mk_Inv {
  inv_depth : 2 ≤ q_depth q ≤ MAX_QUEUE_DEPTH;
  inv_mem : length (q_commands q) = Z.to_nat (64 * (q_depth q - 1));
  inv_ids : q_free q ++ (map_to_list (q_pending q)).*1 ≡ₚ seqZ 0 (q_depth q - 1);
  inv_pending : ∀ cid oid, q_pending q !! cid = Some oid →
    ∃ r, q_heap q !! oid = Some r ∧ rq_command_id r = cid ∧ rq_done r = false ∧
         (rq_send_complete r = false ∨ rq_response r = None);
  inv_done : ∀ oid r, q_heap q !! oid = Some r → rq_done r = true →
    rq_send_complete r = true ∧ is_Some (rq_response r);
  inv_response : ∀ oid r c, q_heap q !! oid = Some r → rq_response r = Some c →
    command_id c = rq_command_id r;
  inv_completed : NoDup (q_completed q) ∧
    ∀ oid, oid ∈ q_completed q → request_done q oid = true;
}.

Section Lemmas.
Context {W : Type} `{!QueueDevice W} `{!Clock W}.
Implicit Types (q : QState W).

(** [Inv] does not look at the world, the resources or the closed flag. *)
Lemma Inv_set_world q w : Inv q → Inv (set_world w q).
Proof. by intros []. Qed.

Lemma Inv_free_range q cid : Inv q → cid ∈ q_free q → 0 ≤ cid < q_depth q - 1.
Proof.
  intros HI Hin. assert (cid ∈ seqZ 0 (q_depth q - 1)) as Hs%elem_of_seqZ; [|lia].
  rewrite <- (inv_ids q HI). set_solver.
Qed.

Lemma Inv_nodup q : Inv q → NoDup (q_free q ++ (map_to_list (q_pending q)).*1).
Proof. intros HI. rewrite (inv_ids q HI). apply NoDup_seqZ. Qed.

Lemma Inv_free_not_pending q cid :
  Inv q → cid ∈ q_free q → q_pending q !! cid = None.
Proof.
  intros HI Hin. destruct (q_pending q !! cid) as [oid|] eqn:Hp; [|done].
  pose proof (Inv_nodup q HI) as (_ & Hdis & _)%NoDup_app.
  destruct (Hdis cid Hin). apply list_elem_of_fmap.
  exists (cid, oid). split; [done|]. by apply elem_of_map_to_list.
Qed.

Lemma Inv_pending_range q cid oid :
  Inv q → q_pending q !! cid = Some oid → 0 ≤ cid < q_depth q - 1.
Proof.
  intros HI Hp. assert (cid ∈ seqZ 0 (q_depth q - 1)) as Hs%elem_of_seqZ; [|lia].
  rewrite <- (inv_ids q HI). apply elem_of_app; right.
  apply list_elem_of_fmap. exists (cid, oid). split; [done|].
  by apply elem_of_map_to_list.
Qed.

(** The free ids and the outstanding commands account for every slot. *)
Lemma Inv_count q :
  Inv q → Z.of_nat (length (q_free q)) + outstanding q = q_depth q - 1.
Proof.
  intros HI. pose proof (inv_depth q HI).
  pose proof (Permutation_length (inv_ids q HI)) as Hl.
  rewrite length_app, length_fmap, length_map_to_list, length_seqZ in Hl.
  unfold outstanding. lia.
Qed.

Lemma Inv_pending_oid q cid cid' oid :
  Inv q → q_pending q !! cid = Some oid → q_pending q !! cid' = Some oid → cid = cid'.
Proof.
  intros HI H1 H2. destruct (inv_pending q HI _ _ H1) as (r & Hr & <- & _).
  destruct (inv_pending q HI _ _ H2) as (r' & Hr' & <- & _). congruence.
Qed.

(** ** One half of a request arrives *)

Definition ready (r : Request) : bool :=
  rq_send_complete r && bool_decide (is_Some (rq_response r)).

(** The state [update_request] leaves. *)
Definition after_update q (oid : nat) (r : Request) : QState W :=
  if ready r then
    set_ids (delete (rq_command_id r) (q_pending q))
      (q_completed q ++ [oid]) (q_free q ++ [rq_command_id r])
      (set_heap (<[oid := mk_Request (rq_command_id r) (rq_send_complete r)
                            (rq_response r) true]> (q_heap q)) q)
  else set_heap (<[oid := r]> (q_heap q)) q.

Lemma update_request_eq q oid f r cid :
  q_heap q !! oid = Some r → q_pending q !! cid = Some oid →
  rq_command_id (f r) = cid →
  update_request oid f q = (Ok tt, after_update q oid (f r)).
Proof.
  intros Hr Hp Hc. unfold update_request, mbind, M_bind, get. rewrite Hr.
  unfold modify, _finish_if_ready, after_update, ready.
  destruct (_ && _); [|done]. unfold mbind, M_bind, modify, get, guard_raise; simpl.
  rewrite Hc, Hp; simpl.
  unfold mret, M_ret. by rewrite list_insert_insert_eq.
Qed.

Section Update.
Context q (oid : nat) (r r' : Request) (cid : Z).
Hypothesis (HI : Inv q) (Hr : q_heap q !! oid = Some r)
  (Hp : q_pending q !! cid = Some oid) (Hc : rq_command_id r' = cid)
  (Hd : rq_done r' = false)
  (Hresp : ∀ c, rq_response r' = Some c → command_id c = cid).

Lemma update_in_heap : (oid < length (q_heap q))%nat.
Proof using Hr. by eapply lookup_lt_Some. Qed.

Lemma update_not_completed : oid ∉ q_completed q.
Proof using HI Hp.
  destruct (inv_pending q HI _ _ Hp) as (r0 & Hr0 & _ & Hd0 & _).
  intros Hin%(inv_completed q HI). unfold request_done in Hin.
  rewrite Hr0 in Hin. congruence.
Qed.

Lemma complete_inv : ready r' = true → Inv (after_update q oid r').
Proof using All.
  intros Hrdy. pose proof update_in_heap as Hlt.
  pose proof update_not_completed as Hnew.
  destruct HI as [Hdep Hmem Hids Hpend Hdone Hrsp [Hnd Hcmp]].
  unfold after_update. rewrite Hrdy. unfold ready in Hrdy.
  apply andb_true_iff in Hrdy as [Hs Hi%bool_decide_eq_true].
  split; simpl; try done.
  - rewrite <- Hids, <- (map_to_list_delete _ _ _ Hp), Hc.
    by rewrite <- app_assoc.
  - intros cid' oid' [Hne Hp']%lookup_delete_Some.
    destruct (Hpend _ _ Hp') as (r1 & Hr1 & Hc1 & H1).
    destruct (Hpend _ _ Hp) as (r2 & Hr2 & Hc2 & _).
    exists r1. rewrite list_lookup_insert_ne; [done|]. intros <-. congruence.
  - intros oid' r1 Hl Hd1. apply list_lookup_insert_Some in Hl
      as [(<- & <- & _)|[_ Hl]]; [done|eauto].
  - intros oid' r1 c Hl Hc1. apply list_lookup_insert_Some in Hl
      as [(<- & <- & _)|[_ Hl]]; [simpl in *; rewrite Hc; by apply Hresp|eauto].
  - split.
    + apply NoDup_app. split; [done|]. split; [|by apply NoDup_singleton].
      by intros x Hx ->%list_elem_of_singleton.
    + intros oid' Hin. unfold request_done; simpl.
      destruct (decide (oid' = oid)) as [->|Hne].
      { by rewrite list_lookup_insert_eq. }
      rewrite list_lookup_insert_ne by done.
      apply elem_of_app in Hin as [|?%list_elem_of_singleton]; [by apply Hcmp|done].
Qed.

Lemma half_inv : ready r' = false → Inv (after_update q oid r').
Proof using All.
  intros Hrdy. pose proof update_in_heap as Hlt.
  pose proof update_not_completed as Hnew.
  destruct HI as [Hdep Hmem Hids Hpend Hdone Hrsp [Hnd Hcmp]].
  unfold after_update. rewrite Hrdy. unfold ready in Hrdy.
  assert (rq_send_complete r' = false ∨ rq_response r' = None) as Hhalf.
  { apply andb_false_iff in Hrdy as [|Hx%bool_decide_eq_false]; [by left|right].
    by apply eq_None_not_Some. }
  split; simpl; try done.
  - intros cid' oid' Hp'. destruct (decide (oid' = oid)) as [->|Hne].
    + exists r'. rewrite list_lookup_insert_eq by done. repeat split; try done.
      destruct (Hpend _ _ Hp) as (r2 & Hr2 & Hc2 & _).
      destruct (Hpend _ _ Hp') as (r1 & Hr1 & Hc1 & _). congruence.
    + rewrite list_lookup_insert_ne by done. eauto.
  - intros oid' r1 Hl Hd1. apply list_lookup_insert_Some in Hl
      as [(<- & <- & _)|[_ Hl]]; [congruence|eauto].
  - intros oid' r1 c Hl Hc1. apply list_lookup_insert_Some in Hl
      as [(<- & <- & _)|[_ Hl]]; [rewrite Hc; by apply Hresp|eauto].
  - split; [done|]. intros oid' Hin. unfold request_done; simpl.
    rewrite list_lookup_insert_ne; [by apply Hcmp|]. by intros ->.
Qed.

Lemma after_update_inv : Inv (after_update q oid r').
Proof using All.
  destruct (ready r') eqn:Hrdy; [by apply complete_inv|by apply half_inv].
Qed.
End Update.

(** ** Submission *)

Lemma HostBuffer_write_ok data off mem :
  0 ≤ off → off + Z.of_nat (length data) ≤ Z.of_nat (length mem) →
  HostBuffer_write data off mem = Ok (splice (Z.to_nat off) data mem).
Proof. intros. unfold HostBuffer_write. guards. done. Qed.

(** Allocating a request for a free id keeps the invariant. *)
Lemma Inv_submit q cid free mem :
  Inv q → q_free q = cid :: free → length mem = length (q_commands q) →
  Inv (set_ids (<[cid := length (q_heap q)]> (q_pending q)) (q_completed q) free
         (set_heap (q_heap q ++ [mk_Request cid false None false])
            (set_commands mem q))).
Proof.
  intros HI Hf Hmem0. assert (q_pending q !! cid = None) as Hnp.
  { apply Inv_free_not_pending; [done|]. rewrite Hf. set_solver. }
  destruct HI as [Hdep Hmem Hids Hpend Hdone Hrsp [Hnd Hcmp]].
  assert (∀ oid r, q_heap q !! oid = Some r →
    (q_heap q ++ [mk_Request cid false None false]) !! oid = Some r) as Hext.
  { intros oid r Hr. by apply lookup_app_l_Some. }
  split; simpl; try done; [lia|..].
  - rewrite <- Hids, Hf, map_to_list_insert by done. simpl.
    by rewrite Permutation_middle.
  - intros cid' oid [[<- <-]|[Hne Hp]]%lookup_insert_Some.
    + exists (mk_Request cid false None false).
      rewrite lookup_app_r, Nat.sub_diag by lia. auto.
    + destruct (Hpend _ _ Hp) as (r & Hr & H1). exists r. auto.
  - intros oid r [Hl|[_ Hl]]%lookup_app_Some Hd; [eauto|].
    apply list_lookup_singleton_Some in Hl as [_ <-]. done.
  - intros oid r c [Hl|[_ Hl]]%lookup_app_Some Hc; [eauto|].
    apply list_lookup_singleton_Some in Hl as [_ <-]. done.
  - split; [done|]. intros oid Hin%Hcmp. unfold request_done in *; simpl.
    destruct (q_heap q !! oid) eqn:Hl; [|done]. by rewrite (Hext _ _ Hl).
Qed.

(** The failed post of [submit] gives the id back. *)
Lemma Inv_unsubmit q cid oid :
  Inv q → q_pending q !! cid = Some oid →
  Inv (set_ids (delete cid (q_pending q)) (q_completed q) (cid :: q_free q) q).
Proof.
  intros [Hdep Hmem Hids Hpend Hdone Hrsp Hcmp] Hp.
  split; simpl; try done.
  - rewrite <- Hids, <- (map_to_list_delete _ _ _ Hp). simpl.
    by rewrite Permutation_middle.
  - intros cid' oid' [_ Hp']%lookup_delete_Some. eauto.
Qed.

Definition capsule_of (command : bytes) (cid : Z) : bytes :=
  splice 2 (le 2 cid) command.

(** [submit] up to its device call, on the path that reaches it. *)
Definition submitted q (command : bytes) (cid : Z) (free : list Z) : QState W :=
  set_ids (<[cid := length (q_heap q)]> (q_pending q)) (q_completed q) free
    (set_heap (q_heap q ++ [mk_Request cid false None false])
       (set_commands
          (splice (Z.to_nat (cid * 64)) (capsule_of command cid) (q_commands q)) q)).

Lemma submit_unfold q command cid free :
  Inv q → q_closed q = false → length command = 64%nat → q_free q = cid :: free →
  submit command q =
    (try_except
       (dev (dev_post_send (mk_SendWR (Z.lor _SEND_TAG cid) 64 (cid * 64))
               (q_commands (submitted q command cid free))))
       (λ e, if is_Exception e then
               modify (λ q, set_ids (delete cid (q_pending q)) (q_completed q)
                              (cid :: q_free q) q);; raise e
             else raise e);; mret (length (q_heap q)))
      (submitted q command cid free).
Proof.
  intros HI Hcl Hlen Hf.
  assert (0 ≤ cid < q_depth q - 1) as Hr.
  { apply Inv_free_range; [done|]. rewrite Hf. set_solver. }
  pose proof (inv_depth q HI). pose proof (inv_mem q HI).
  unfold MAX_QUEUE_DEPTH in *.
  unfold submit. unfold mbind at 1, M_bind at 1, get.
  rewrite Hcl, Hlen, Hf; simpl negb; cbv iota.
  unfold mbind at 1 2 3, M_bind at 1 2 3, modify at 1, lift at 1.
  rewrite pack_into_le_ok; [|fields_ok|len_lia].
  change (concat _) with (le 2 cid ++ []). rewrite app_nil_r.
  fold (capsule_of command cid). unfold lift at 1.
  rewrite HostBuffer_write_ok; [|lia|].
  2: { unfold capsule_of. rewrite length_splice_eq, length_le. lia. }
  done.
Qed.
End Lemmas.

(** * Preservation *)

(** What [poll] may change of a state: requests only gain their halves, keep
    their command id and stay done; an object enters the completed list only
    when it becomes done. *)
Record grows {W} (q0 q : QState W) : Prop := mk_grows {
  grows_depth : q_depth q = q_depth q0;
  grows_requests : ∀ oid r, q_heap q0 !! oid = Some r →
    ∃ r', q_heap q !! oid = Some r' ∧ rq_command_id r' = rq_command_id r ∧
          (rq_done r = true → rq_done r' = true);
  grows_completed : ∀ oid, oid ∈ q_completed q →
    oid ∈ q_completed q0 ∨ request_done q0 oid = false;
}.

Section Preservation.
Context {W : Type} `{!QueueDevice W} `{!Clock W}.
Implicit Types (q : QState W).

Lemma grows_refl q : grows q q.
Proof. split; eauto. Qed.

Lemma grows_set_world q0 q w : grows q0 q → grows q0 (set_world w q).
Proof. by intros []. Qed.

Lemma grows_done q0 q oid :
  grows q0 q → request_done q0 oid = true → request_done q oid = true.
Proof.
  intros Hg. unfold request_done.
  destruct (q_heap q0 !! oid) as [r|] eqn:Hr; [|done].
  destruct (grows_requests _ _ Hg _ _ Hr) as (r' & -> & _ & Hd). auto.
Qed.

Lemma wp_dev {A} (f : W → result A * W) Q E q :
  (∀ a w, Q a (set_world w q)) → (∀ e w, E e (set_world w q)) →
  wp (dev f) Q E q.
Proof. intros HQ HE. unfold wp, dev. destruct (f (q_world q)) as [[a|e] w]; auto. Qed.

Lemma after_update_grows q0 q oid r r' cid :
  Inv q → grows q0 q → q_heap q !! oid = Some r → q_pending q !! cid = Some oid →
  rq_command_id r' = cid → grows q0 (after_update q oid r').
Proof.
  intros HI Hg Hr Hp Hc.
  destruct (inv_pending q HI _ _ Hp) as (r0 & Hr0 & Hc0 & Hd0 & _).
  rewrite Hr in Hr0; injection Hr0 as <-.
  assert (oid < length (q_heap q))%nat as Hlt by (by eapply lookup_lt_Some).
  assert (request_done q0 oid = false) as Hnd.
  { destruct (request_done q0 oid) eqn:H0; [|done].
    apply (grows_done _ _ _ Hg) in H0. unfold request_done in H0.
    rewrite Hr in H0. congruence. }
  destruct Hg as [Hdep Hreq Hcomp].
  assert (∀ rr, rq_command_id rr = cid → ∀ oid1 r1, q_heap q0 !! oid1 = Some r1 →
    ∃ r2, <[oid:=rr]> (q_heap q) !! oid1 = Some r2 ∧
      rq_command_id r2 = rq_command_id r1 ∧ (rq_done r1 = true → rq_done r2 = true))
    as Hins.
  { intros rr Hrr oid1 r1 Hl. destruct (Hreq _ _ Hl) as (r2 & Hr2 & Hc2 & Hd2).
    destruct (decide (oid = oid1)) as [<-|Hne].
    - exists rr. rewrite list_lookup_insert_eq by done.
      unfold request_done in Hnd. rewrite Hl in Hnd.
      repeat split; congruence.
    - exists r2. by rewrite list_lookup_insert_ne. }
  unfold after_update. destruct (ready r'); split; simpl; auto.
  intros oid1 [Hin| ->%list_elem_of_singleton]%elem_of_app; auto.
Qed.

(** One half of a pending request arriving keeps the invariant. *)
Lemma wp_update_request q0 q cid oid f :
  Inv q → grows q0 q → q_pending q !! cid = Some oid →
  (∀ r, rq_command_id (f r) = rq_command_id r ∧ rq_done (f r) = rq_done r) →
  (∀ r c, q_heap q !! oid = Some r → rq_response (f r) = Some c → command_id c = cid) →
  wp (update_request oid f) (λ _ q', Inv q' ∧ grows q0 q')
    (λ _ q', Inv q' ∧ grows q0 q') q.
Proof.
  intros HI Hg Hp Hf Hresp.
  destruct (inv_pending q HI _ _ Hp) as (r & Hr & Hc & Hd & _).
  destruct (Hf r) as [Hfc Hfd].
  unfold wp. rewrite (update_request_eq q oid f r cid) by congruence.
  split; [|eapply after_update_grows; eauto; congruence].
  eapply after_update_inv; eauto; congruence.
Qed.

Lemma wp_poll_wc q0 q wc :
  Inv q ∧ grows q0 q →
  wp (poll_wc wc) (λ _ q', Inv q' ∧ grows q0 q') (λ _ q', Inv q' ∧ grows q0 q') q.
Proof.
  intros [HI Hg]. unfold poll_wc.
  apply wp_bind, wp_lift. destruct (wc_raise_for_status wc); [|done].
  destruct (negb _).
  - apply wp_bind, wp_get.
    destruct (q_pending q !! _) as [oid|] eqn:Hp; [|done].
    apply (wp_update_request q0 q _ oid _ HI Hg Hp); [done|].
    intros r c Hr Hresp. simpl in Hresp.
    destruct (inv_pending q HI _ _ Hp) as (r1 & Hr1 & <- & _).
    rewrite Hr in Hr1; injection Hr1 as <-. by eapply inv_response.
  - destruct (negb _); [|done].
    apply wp_bind, wp_get, wp_bind, wp_guard_raise. destruct (_ || _); [done|].
    apply wp_bind, wp_lift. destruct (HostBuffer_read _ _ _) as [raw|]; [|done].
    apply wp_bind, wp_lift. destruct (Completion_from_bytes raw) as [c|]; [|done].
    apply wp_bind, wp_dev; [|auto using Inv_set_world, grows_set_world].
    intros _ w. apply wp_bind, wp_get.
    destruct (q_pending _ !! _) as [oid|] eqn:Hp;
      [|apply wp_raise; auto using Inv_set_world, grows_set_world].
    eapply wp_update_request; eauto using Inv_set_world, grows_set_world.
    by intros r c' _ [= <-].
Qed.

Lemma wp_poll q max :
  Inv q →
  wp (poll max)
    (λ oids q', Inv q' ∧ grows q (set_completed (oids ++ q_completed q') q') ∧
       NoDup oids ∧ (∀ oid, oid ∈ oids → request_done q' oid = true) ∧
       (q_closed q = false → q_completed q' = []) ∧ (q_closed q = true → oids = []))
    (λ _ q', Inv q' ∧ grows q q') q.
Proof.
  intros HI. unfold poll. apply wp_bind, wp_get.
  destruct (q_closed q) eqn:Hcl.
  { apply wp_ret. split; [done|]. split; [|repeat split; by try apply NoDup_nil_2 || set_solver].
    destruct q; apply grows_refl. }
  apply wp_bind, wp_dev; [|auto using Inv_set_world, grows_set_world, grows_refl].
  intros wcs w. apply wp_bind. eapply wp_mono.
  - apply (wp_for_each _ _ (λ _ q', Inv q' ∧ grows q q')).
    + split; [by apply Inv_set_world|apply grows_set_world, grows_refl].
    + intros wc _ q'. apply wp_poll_wc.
  - simpl. intros _ q' [HI' Hg]. apply wp_bind, wp_get, wp_bind, wp_modify, wp_ret.
    destruct HI' as [Hdep Hmem Hids Hpend Hdone Hrsp [Hnd Hcmp]].
    split; [split; try done; split; [by apply NoDup_nil_2|by set_solver]|].
    split; [simpl; rewrite app_nil_r; by destruct Hg|]. done.
  - auto.
Qed.
End Preservation.

(** * Closing, construction and execution *)

Definition all_resources : list resource := [RCommands; RResponses; RQp; RCq; RPd; RCm].

(** Release calls that succeed, and a disconnect that fails at most with an
    OSError ("the peer may already have disconnected"). *)
Class Releasable (W : Type) `{QueueDevice W} := {
  release_ok : ∀ r w, (dev_release r w).1 = Ok tt;
  disconnect_ok : ∀ w e, (dev_disconnect w).1 = Raise e → is_OSError e = true;
}.

(** Calls that do not move the clock back. *)
Class QueueClock (W : Type) `{QueueDevice W} `{ClockLaws W} := {
  poll_clock : ∀ n w, now w ≤ now (dev_poll n w).2;
  recv_clock : ∀ l w, now w ≤ now (dev_post_recv l w).2;
}.

Section Closing.
Context {W : Type} `{!QueueDevice W} `{!Clock W}.
Implicit Types (q : QState W).

(** The resources [rs] have been worked through from [q0]: each is gone or
  its release raised an OSError that is recorded. *)
Record closing q0 (rs : list resource) (errors : list exn) q : Prop := mk_closing {
  closing_closed : q_closed q = true;
  closing_live : ∀ x, x ∈ q_live q → x ∈ q_live q0 ∧
    (x ∈ rs → ∃ w e, (dev_release x w).1 = Raise e ∧ is_OSError e = true);
  closing_errors : Forall (λ e, is_OSError e = true) errors;
  closing_none : errors = [] → ∀ x, x ∈ rs → x ∉ q_live q;
}.

Lemma wp_release q0 rs errors r q :
  closing q0 rs errors q →
  wp (release errors r) (λ errors', closing q0 (r :: rs) errors')
    (λ e _, is_OSError e = false) q.
Proof.
  intros [Hcl Hlive Herr Hnone]. unfold release. apply wp_bind, wp_get.
  case_bool_decide as Hin.
  - apply wp_try_except, wp_bind. unfold wp, dev.
    destruct (dev_release r (q_world q)) as [[[]|e] w] eqn:Hrel.
    + split; simpl; [done| |done|].
      * intros x [Hne Hx]%list_elem_of_filter. destruct (Hlive x Hx) as [? Hr].
        split; [done|]. intros [->|Hrs]%elem_of_cons; [done|auto].
      * intros -> x [->|Hrs]%elem_of_cons [Hne Hx]%list_elem_of_filter; [done|].
        by apply (Hnone eq_refl x).
    + destruct (is_OSError e) eqn:He; [|done].
      split; simpl; [done| | |].
      * intros x Hx. destruct (Hlive x Hx) as [? Hr]. split; [done|].
        intros [->|Hrs]%elem_of_cons; [|auto].
        exists (q_world q), e. by rewrite Hrel.
      * apply Forall_app. by rewrite Forall_singleton.
      * by intros [_ ?]%app_eq_nil.
  - apply wp_ret. split; [done| |done|].
    + intros x Hx. destruct (Hlive x Hx) as [? Hr]. split; [done|].
      intros [->|Hrs]%elem_of_cons; [done|auto].
    + intros -> x [->|Hrs]%elem_of_cons; [done|by apply Hnone].
Qed.

Lemma wp_release_all q0 rs rs' errors q :
  closing q0 rs errors q →
  wp (release_all errors rs') (λ errors', closing q0 (reverse rs' ++ rs) errors')
    (λ e _, is_OSError e = false) q.
Proof.
  revert rs errors q. induction rs' as [|r rs' IH]; intros rs errors q H; [done|].
  simpl. apply wp_bind. eapply wp_mono; [by apply wp_release| |done].
  intros errors1 q1 H1. rewrite reverse_cons, <- app_assoc. by apply IH.
Qed.

Lemma wp_close q :
  wp close
    (λ _ q', q_closed q' = true ∧ q_live q' = [])
    (λ e q', is_OSError e = true →
       q_closed q' = true ∧ ∀ x, x ∈ q_live q' → x ∈ q_live q ∧
         ∃ w e', (dev_release x w).1 = Raise e' ∧ is_OSError e' = true) q.
Proof.
  unfold close. apply wp_bind, wp_get.
  destruct (q_closed q && _) eqn:Hc.
  { apply andb_true_iff in Hc as [? ?%bool_decide_eq_true]. done. }
  apply wp_bind, wp_modify, wp_bind.
  assert (∀ w, closing q [] [] (set_world w (set_closed q))) as H0.
  { intros w. split; simpl; [done| |done|].
    - intros x Hx. split; [done|]. by intros ?%elem_of_nil.
    - by intros _ x ?%elem_of_nil. }
  apply wp_mono with (λ _, closing q [] []) (λ e _, is_OSError e = false);
    [|clear H0; intros _ q1 H0|intros; congruence].
  { clear Hc. destruct (_ && dev_connected _).
    - apply wp_try_except. apply wp_dev; [by intros _ w|].
      intros e w. destruct (is_OSError e) eqn:?; [apply wp_ret|apply wp_raise]; auto.
    - apply wp_ret. apply (H0 (q_world q)). }
  apply wp_bind. eapply wp_mono; [by eapply wp_release_all| |intros; congruence].
  clear q1 H0. intros errors q1 H0.
  apply wp_bind. eapply wp_mono; [by eapply wp_release| |intros; congruence].
  clear q1 errors H0. intros errors q1 H0.
  destruct H0 as [Hcl Hlive Herr Hnone].
  assert (∀ x, x ∈ q_live q1 → x ∈ RCm :: reverse [RCommands; RResponses; RQp; RCq; RPd] ++ []) as Hall.
  { intros [] _; apply list_elem_of_In; simpl; tauto. }
  destruct errors as [|e errors].
  - apply wp_ret. split; [done|]. apply elem_of_nil_inv. intros x Hx.
    by apply (Hnone eq_refl x (Hall x Hx)).
  - apply wp_raise. intros _. split; [done|]. intros x Hx.
    destruct (Hlive x Hx). auto.
Qed.

Lemma wp_release_releasable `{!Releasable W} r q :
  wp (release [] r) (λ errors _, errors = []) (λ _ _, False) q.
Proof.
  unfold release. apply wp_bind, wp_get. case_bool_decide; [|by apply wp_ret].
  apply wp_try_except, wp_bind. unfold wp, dev. pose proof (release_ok r (q_world q)).
  destruct (dev_release r (q_world q)) as [[[]|e] w]; done.
Qed.

Lemma wp_release_all_releasable `{!Releasable W} rs q :
  wp (release_all [] rs) (λ errors _, errors = []) (λ _ _, False) q.
Proof.
  revert q. induction rs as [|r rs IH]; intros q; [done|].
  simpl. apply wp_bind. eapply wp_mono; [apply wp_release_releasable| |done].
  intros ? q' ->. apply IH.
Qed.

(** When releases succeed, [close] returns with nothing left open. *)
Lemma wp_close_releasable `{!Releasable W} q :
  wp close (λ _ q', q_closed q' = true ∧ q_live q' = []) (λ _ _, False) q.
Proof.
  eapply (wp_and_exn _ _ (λ _ _, True)); [apply wp_close|].
  unfold close. apply wp_bind, wp_get. destruct (_ && _); [done|].
  apply wp_bind, wp_modify, wp_bind.
  apply wp_mono with (λ _ _, True) (λ _ _, False); [|intros _ q1 _|done].
  { destruct (_ && _); [|by apply wp_ret]. apply wp_try_except. unfold wp, dev.
    pose proof (disconnect_ok (q_world (set_closed q))) as Hdis.
    destruct (dev_disconnect _) as [[[]|e] w]; [done|].
    by rewrite (Hdis e eq_refl). }
  apply wp_bind. eapply wp_mono; [apply wp_release_all_releasable| |done].
  intros ? q2 ->. apply wp_bind.
  eapply wp_mono; [apply wp_release_releasable| |done]. by intros ? q3 ->.
Qed.
End Closing.

Section Construction.
Context {W : Type} `{!QueueDevice W} `{!Clock W}.

Lemma rdma_cm_request_depth qid depth cid b :
  rdma_cm_request qid depth cid = Ok b → 2 ≤ depth ≤ MAX_QUEUE_DEPTH.
Proof.
  unfold rdma_cm_request. destruct (_ || _); [done|].
  destruct (_ || _) eqn:Hd; [done|]. lia.
Qed.

Lemma Inv_queue_fields qid depth w mem l w' :
  2 ≤ depth ≤ MAX_QUEUE_DEPTH → length mem = Z.to_nat (64 * (depth - 1)) →
  Inv (set_world w' (set_live l (set_commands mem (queue_fields qid depth (w : W))))).
Proof.
  intros Hd Hm. split; simpl; try done.
  - by rewrite map_to_list_empty, app_nil_r.
  - split; [apply NoDup_nil_2|]. by intros ? ?%elem_of_nil.
Qed.

Lemma wp_acquire r (P : unit → QState W → Prop) E q :
  (∀ w, P tt (set_live (r :: q_live q) (set_world w q))) →
  (∀ e w, E e (set_world w q)) → wp (acquire r) P E q.
Proof.
  intros HP HE. unfold acquire. apply wp_bind, wp_dev; [|done].
  intros _ w. by apply wp_modify.
Qed.

Lemma wp_connect_queue qid depth cid w :
  2 ≤ depth ≤ MAX_QUEUE_DEPTH →
  wp (connect_queue cid)
    (λ _ q, Inv q ∧ q_closed q = false ∧ q_pending q = ∅ ∧
            q_live q ≡ₚ all_resources)
    (λ _ _, True) (queue_fields qid depth (w : W)).
Proof.
  intros Hd. unfold connect_queue. apply wp_bind, wp_get.
  do 4 (apply wp_bind, wp_acquire; [intros ?|done]).
  apply wp_bind, wp_dev; [intros m ?|done].
  apply wp_bind, wp_lift. destruct (rdma_cm_request _ _ _) as [b|]; [|done].
  apply wp_bind, wp_dev; [intros peer ?|done].
  apply wp_bind, wp_lift. destruct (parse_rdma_cm_response peer) as [n|]; [|done].
  apply wp_bind, wp_guard_raise. destruct (n <? _); [done|].
  apply wp_bind, wp_lift. unfold HostBuffer_alloc at 1. simpl q_depth.
  unfold MAX_QUEUE_DEPTH in Hd. guard_false.
  apply wp_bind, wp_acquire; [intros ?|done]. apply wp_bind, wp_modify.
  apply wp_bind, wp_lift. unfold HostBuffer_alloc at 1. guard_false.
  apply wp_bind, wp_acquire; [intros ?|done].
  apply wp_dev; [|done]. intros _ w'.
  split; [|split; [done|split; [done|]]].
  - apply (Inv_queue_fields qid depth w _ _ w'); [done|]. by rewrite length_replicate.
  - simpl. unfold all_resources. apply NoDup_Permutation; [..|intros x].
    + apply NoDup_ListNoDup. repeat constructor; simpl; intuition discriminate.
    + apply NoDup_ListNoDup. repeat constructor; simpl; intuition discriminate.
    + rewrite !list_elem_of_In. simpl. tauto.
Qed.
End Construction.

Section Execution.
Context {W : Type} `{!QueueDevice W} `{!Clock W}.
Implicit Types (q : QState W).

Lemma wp_submit command q :
  Inv q →
  wp (submit command)
    (λ oid q', ∃ cid free w, q_free q = cid :: free ∧ q_closed q = false ∧
       length command = 64%nat ∧ oid = length (q_heap q) ∧
       q' = set_world w (submitted q command cid free) ∧ Inv q')
    (λ e q', Inv q' ∧ (is_Exception e = true →
               q_pending q' = q_pending q ∧ q_free q' = q_free q)) q.
Proof.
  intros HI. destruct (q_closed q) eqn:Hcl.
  { unfold submit. apply wp_bind, wp_get. rewrite Hcl. by apply wp_raise. }
  destruct (decide (length command = 64%nat)) as [Hlen|Hlen].
  2: { unfold submit. apply wp_bind, wp_get. rewrite Hcl.
       rewrite (proj2 (Nat.eqb_neq _ _) Hlen). by apply wp_raise. }
  destruct (q_free q) as [|cid free] eqn:Hf.
  { unfold submit. apply wp_bind, wp_get. rewrite Hcl, Hlen, Hf. by apply wp_raise. }
  unfold wp. rewrite (submit_unfold q command cid free) by done.
  assert (Inv (submitted q command cid free)) as HI'.
  { apply Inv_submit; [done..|]. unfold capsule_of. rewrite length_splice; [done|].
    rewrite length_splice_eq, length_le, Hlen.
    assert (0 ≤ cid < q_depth q - 1) by (apply Inv_free_range; [done|rewrite Hf; set_solver]).
    pose proof (inv_mem q HI). lia. }
  assert (q_pending q !! cid = None) as Hnp.
  { apply Inv_free_not_pending; [done|]. rewrite Hf. set_solver. }
  apply wp_bind, wp_try_except, wp_dev.
  - intros _ w. apply wp_ret. exists cid, free, w.
    split_and!; try done. by apply Inv_set_world.
  - intros e w. destruct (is_Exception e) eqn:He.
    2: { apply wp_raise. split; [by apply Inv_set_world|by rewrite He]. }
    apply wp_bind, wp_modify, wp_raise. split.
    + apply (Inv_unsubmit (set_world w (submitted q command cid free)) cid (length (q_heap q)));
        [by apply Inv_set_world|]. apply lookup_insert_eq.
    + intros _. simpl. by rewrite delete_insert_id.
Qed.

Lemma wp_monotonic (P : Z → QState W → Prop) E q :
  P (dev_clock (q_world q)).1 (set_world (dev_clock (q_world q)).2 q) →
  wp monotonic P E q.
Proof. unfold wp, monotonic. by destruct (dev_clock (q_world q)). Qed.

(** The caller's object, while the queue works on it. *)
Definition owns (oid : nat) (cid : Z) q : Prop :=
  ∃ r, q_heap q !! oid = Some r ∧ rq_command_id r = cid.

Lemma owns_grows oid cid q q' : owns oid cid q → grows q q' → owns oid cid q'.
Proof.
  intros (r & Hr & <-) Hg. destruct (grows_requests _ _ Hg _ _ Hr) as (r' & ? & ? & _).
  by exists r'.
Qed.

Lemma wp_execute_round oid cid deadline q :
  Inv q ∧ owns oid cid q →
  wp (execute_round oid deadline) (λ _ q', Inv q' ∧ owns oid cid q')
    (λ _ q', Inv q') q.
Proof.
  intros [HI Ho]. unfold execute_round. apply wp_bind, wp_get.
  destruct (request_done q oid); [by apply wp_ret|].
  apply wp_bind. eapply wp_mono; [by apply wp_poll| |by intros e q' [? _]].
  simpl. intros oids q' (HI' & Hg & _). apply wp_bind, wp_monotonic.
  assert (owns oid cid q') as Ho' by exact (owns_grows _ _ _ _ Ho Hg).
  destruct (_ <=? _); [by apply wp_raise, Inv_set_world|].
  apply wp_ret. split; [by apply Inv_set_world|done].
Qed.

Lemma wp_poll_wc_clock `{!ClockLaws W} `{!QueueClock W} t wc q :
  t ≤ now (q_world q) →
  wp (poll_wc wc) (λ _ q', t ≤ now (q_world q')) (λ _ q', t ≤ now (q_world q')) q.
Proof.
  intros Ht.
  assert (∀ oid f q1, t ≤ now (q_world q1) → wp (update_request oid f)
    (λ _ q', t ≤ now (q_world q')) (λ _ q', t ≤ now (q_world q')) q1) as Hupd.
  { intros oid f q1 H1. unfold update_request, _finish_if_ready.
    apply wp_bind, wp_get. destruct (q_heap q1 !! oid); [|done].
    apply wp_bind, wp_modify. destruct (_ && _); [|done].
    apply wp_bind, wp_modify, wp_bind, wp_get, wp_bind, wp_guard_raise.
    by destruct (bool_decide _). }
  unfold poll_wc. apply wp_bind, wp_lift. destruct (wc_raise_for_status wc); [|done].
  destruct (negb _).
  - apply wp_bind, wp_get. destruct (q_pending q !! _); [by apply Hupd|done].
  - destruct (negb _); [|done]. apply wp_bind, wp_get, wp_bind, wp_guard_raise.
    destruct (_ || _); [done|].
    apply wp_bind, wp_lift. destruct (HostBuffer_read _ _ _); [|done].
    apply wp_bind, wp_lift. destruct (Completion_from_bytes _); [|done].
    apply wp_bind. unfold wp at 1, dev.
    match goal with |- context [dev_post_recv ?l ?w] =>
      pose proof (recv_clock l w); destruct (dev_post_recv l w) as [[]  w'] end;
      simpl in *; [|lia].
    apply wp_bind, wp_get. destruct (q_pending _ !! _); [apply Hupd|apply wp_raise]; simpl; lia.
Qed.

Lemma wp_poll_clock `{!ClockLaws W} `{!QueueClock W} max q :
  wp (poll max) (λ _ q', now (q_world q) ≤ now (q_world q'))
    (λ _ q', now (q_world q) ≤ now (q_world q')) q.
Proof.
  unfold poll. apply wp_bind, wp_get. destruct (q_closed q); [by apply wp_ret|].
  assert (∀ n, wp (dev (dev_poll n)) (λ _ q', now (q_world q) ≤ now (q_world q'))
    (λ _ q', now (q_world q) ≤ now (q_world q')) q) as Hdp.
  { intros n. unfold wp, dev. pose proof (poll_clock n (q_world q)).
    by destruct (dev_poll n (q_world q)) as [[?|?] ?]. }
  apply wp_bind. eapply wp_mono; [apply Hdp| |done]. intros wcs q2 Hq2.
  apply wp_bind. eapply wp_mono.
  - apply (wp_for_each _ _ (λ _ q', now (q_world q) ≤ now (q_world q'))); [done|].
    intros wc _ q4 H4. by apply wp_poll_wc_clock.
  - simpl. intros _ q3 H3. by apply wp_bind, wp_get, wp_bind, wp_modify, wp_ret.
  - done.
Qed.

(** A round that goes on has read the clock before the deadline. *)
Lemma execute_round_clock `{!ClockLaws W} `{!QueueClock W} oid deadline q q' :
  execute_round oid deadline q = (Ok None, q') →
  (Z.to_nat (deadline - now (q_world q')) < Z.to_nat (deadline - now (q_world q)))%nat.
Proof.
  unfold execute_round, mbind, M_bind, get.
  destruct (request_done q oid); [done|].
  destruct (poll None q) as [[oids|e] q1] eqn:Hpoll; [|done].
  pose proof (wp_poll_clock None q) as Hle. unfold wp in Hle. rewrite Hpoll in Hle.
  unfold monotonic.
  pose proof (clock_now (q_world q1)) as Hn. pose proof (clock_advances (q_world q1)) as Ha.
  destruct (dev_clock (q_world q1)) as [t w]; simpl in *. subst t.
  destruct (Z.leb_spec deadline (now (q_world q1))); [done|].
  intros [= <-]. simpl. lia.
Qed.
End Execution.

(** * A scripted device

    A concrete device for evaluating the queue: every call succeeds, each poll
    takes the next script entry (completions and the response memory they come
    with), the clock ticks by one at each read. *)
Module Scripted.
Record world := mk_world {
  script : list (list WC * bytes);
  responses : bytes;
  ticks : Z;
  posted : list SendWR;
}.

#[global] Instance device : QueueDevice world := {|
  dev_acquire _ w := (Ok tt, w);
  dev_release _ w := (Ok tt, w);
  dev_connected _ := true;
  dev_disconnect w := (Ok tt, w);
  dev_max_qp_rd_atom w := (Ok 16, w);
  dev_connect _ _ w := (Ok [0; 0; 32; 0], w);
  dev_post_send wr _ w :=
    (Ok tt, mk_world (script w) (responses w) (ticks w) (wr :: posted w));
  dev_post_recv _ w := (Ok tt, w);
  dev_poll _ w :=
    match script w with
    | [] => (Ok [], w)
    | (wcs, mem) :: rest => (Ok wcs, mk_world rest mem (ticks w) (posted w))
    end;
  dev_responses := responses;
|}.

#[global] Instance clock : Clock world := λ w,
  (ticks w, mk_world (script w) (responses w) (ticks w + 1) (posted w)).

#[global] Instance clock_laws : ClockLaws world.
Proof. refine {| now := ticks |}; [done|]. intros w. simpl. lia. Defined.

#[global] Instance queue_clock : QueueClock world.
Proof.
  split; [|done]. intros n w. simpl. by destruct (script w) as [|[? ?] ?].
Defined.

#[global] Instance releasable : Releasable world.
Proof. by split. Defined.

(** Responses for the first [n] slots of a queue: slot 0 holds [c]. *)
Definition memory (c : Completion) (depth : nat) : bytes :=
  splice 0 (Completion_bytes c) (replicate (16 * depth) 0).

Definition start (s : list (list WC * bytes)) : world :=
  mk_world s (replicate 64 0) 0 [].

(** A connected admin queue of depth 4. *)
Definition queue (s : list (list WC * bytes)) : QState world :=
  (RDMAQueue_init 0 4 0 (start s)).2.
End Scripted.

(** * One completion, computed *)

Lemma land_pow2_small a n : 0 ≤ n → 0 ≤ a < 2 ^ n → Z.land a (2 ^ n) = 0.
Proof.
  intros Hn Ha. apply Z.bits_inj_0. intros i. rewrite Z.land_spec, Z.pow2_bits_eqb by done.
  destruct (Z.eqb_spec n i) as [<-|]; [|apply andb_false_r].
  rewrite andb_true_r. destruct (decide (a = 0)) as [->|]; [apply Z.bits_0|].
  apply Z.bits_above_log2; [lia|]. apply Z.log2_lt_pow2; lia.
Qed.

Lemma send_tag cid :
  0 ≤ cid < 2 ^ 32 →
  Z.land (Z.lor _SEND_TAG cid) _SEND_TAG ≠ 0 ∧
  Z.land (Z.lor _SEND_TAG cid) _INDEX_MASK = cid.
Proof.
  intros Hc. unfold _SEND_TAG, _INDEX_MASK. split.
  - rewrite Z.land_lor_distr_l, Z.land_diag, land_pow2_small by lia. done.
  - change (2 ^ 32 - 1) with (Z.ones 32). rewrite Z.land_lor_distr_l.
    rewrite (Z.land_ones cid), Z.mod_small by lia. done.
Qed.

Lemma recv_tag slot :
  0 ≤ slot < 2 ^ 32 →
  Z.land (Z.lor _RECV_TAG slot) _SEND_TAG = 0 ∧
  Z.land (Z.lor _RECV_TAG slot) _RECV_TAG ≠ 0 ∧
  Z.land (Z.lor _RECV_TAG slot) _INDEX_MASK = slot.
Proof.
  intros Hc. unfold _SEND_TAG, _RECV_TAG, _INDEX_MASK. split_and!.
  - rewrite Z.land_lor_distr_l, (land_pow2_small slot) by lia. done.
  - rewrite Z.land_lor_distr_l, Z.land_diag, (land_pow2_small slot) by lia. done.
  - change (2 ^ 32 - 1) with (Z.ones 32). rewrite Z.land_lor_distr_l.
    rewrite (Z.land_ones slot), Z.mod_small by lia. done.
Qed.

Definition send_wc (cid : Z) : WC := mk_WC (Z.lor _SEND_TAG cid) 0 0.
Definition recv_wc (slot : Z) : WC := mk_WC (Z.lor _RECV_TAG slot) 0 16.

Section OneCompletion.
Context {W : Type} `{!QueueDevice W} `{!Clock W}.
Implicit Types (q : QState W).

Lemma poll_send_wc q cid oid r :
  0 ≤ cid < 2 ^ 32 → q_pending q !! cid = Some oid → q_heap q !! oid = Some r →
  rq_command_id r = cid →
  poll_wc (send_wc cid) q = (Ok tt, after_update q oid (mark_sent r)).
Proof.
  intros Hr Hp Hh Hc. destruct (send_tag cid Hr) as [Ht Hm].
  unfold poll_wc, send_wc, mbind, M_bind, lift, wc_raise_for_status; simpl.
  rewrite (proj2 (Z.eqb_neq _ _) Ht); simpl. unfold get. rewrite Hm, Hp.
  by apply update_request_eq with cid.
Qed.

Lemma poll_recv_wc q slot oid r c :
  0 ≤ slot < q_depth q → q_depth q ≤ MAX_QUEUE_DEPTH →
  length (dev_responses (q_world q)) = Z.to_nat (16 * q_depth q) →
  Completion_from_bytes
    (slice (Z.to_nat (slot * 16)) 16 (dev_responses (q_world q))) = Ok c →
  (dev_post_recv [_recv_wr slot] (q_world q)).1 = Ok tt →
  q_pending q !! command_id c = Some oid → q_heap q !! oid = Some r →
  rq_command_id r = command_id c →
  poll_wc (recv_wc slot) q =
    (Ok tt, after_update
              (set_world (dev_post_recv [_recv_wr slot] (q_world q)).2 q)
              oid (set_response c r)).
Proof.
  unfold MAX_QUEUE_DEPTH. intros Hs Hd Hlen Hdec Hpost Hp Hh Hc.
  destruct (recv_tag slot) as (Ht & Ht' & Hm); [lia|].
  unfold poll_wc, recv_wc, mbind, M_bind, lift, wc_raise_for_status; simpl.
  rewrite Ht, (proj2 (Z.eqb_neq _ _) Ht'); simpl. unfold get. rewrite Hm.
  unfold guard_raise. guard_false. unfold mret, M_ret.
  unfold HostBuffer_read; simpl default. rewrite Hlen. guard_false.
  change (Z.to_nat 16) with 16%nat. rewrite Hdec. unfold dev.
  destruct (dev_post_recv _ _) as [[[]|e] w]; simpl in *; [|done].
  rewrite Hp. by apply update_request_eq with (command_id c).
Qed.
End OneCompletion.

(** * Properties *)

Lemma Inv_after_submit {W} `{!QueueDevice W} `{!Clock W} command (q : QState W) :
  Inv q → Inv (submit command q).2.
Proof.
  intros HI. pose proof (wp_submit command q HI) as Hw. unfold wp in Hw.
  destruct (submit command q) as [[oid|e] q'].
  - by destruct Hw as (? & ? & ? & ? & ? & ? & ? & ? & ?).
  - by destruct Hw.
Qed.

(** A successful construction establishes the invariant. *)
Lemma RDMAQueue_init_wp {W} `{!QueueDevice W} `{!Clock W} qid depth cid (w : W) :
  (RDMAQueue_init qid depth cid w).1 = Ok tt →
  let q := (RDMAQueue_init qid depth cid w).2 in
  Inv q ∧ q_closed q = false ∧ q_pending q = ∅ ∧ q_live q ≡ₚ all_resources.
Proof.
  unfold RDMAQueue_init. destruct (rdma_cm_request qid depth cid) as [b|] eqn:Hreq; [|done].
  apply rdma_cm_request_depth in Hreq.
  pose proof (wp_connect_queue qid depth cid w Hreq) as Hwp. unfold wp in Hwp.
  unfold try_except. destruct (connect_queue _ _) as [[[]|e] q]; [done|].
  destruct (is_Exception e); simpl; [|done].
  unfold mbind, M_bind. destruct (close q) as [[[]|e'] q']; [done|].
  by destruct (is_OSError e').
Qed.

Lemma Inv_scripted_queue s : Inv (Scripted.queue s).
Proof.
  assert ((RDMAQueue_init 0 4 0 (Scripted.start s)).1 = Ok tt) as H
    by (vm_compute; reflexivity).
  apply (RDMAQueue_init_wp 0 4 0 (Scripted.start s) H).
Qed.

(** C13: [submit] hands out the first free command id and posts one 64-byte
    capsule: on success the capsule memory at that slot is the caller's command
    with the id written at bytes 2 and 3, every other slot's capsule is
    untouched, and exactly that id becomes outstanding.  When it raises, the
    queue invariant still holds and (for any Exception) no id is lost. *)
Theorem submit_correct {W} `{!QueueDevice W} `{!Clock W} (q : QState W) command :
  Inv q →
  match submit command q with
  | (Ok oid, q') =>
      ∃ cid, head (q_free q) = Some cid ∧ Inv q' ∧
        outstanding q' = outstanding q + 1 ∧
        q_pending q' = <[cid := oid]> (q_pending q) ∧
        slice (Z.to_nat (cid * 64)) 64 (q_commands q') = splice 2 (le 2 cid) command ∧
        (∀ other, 0 ≤ other < q_depth q - 1 → other ≠ cid →
           slice (Z.to_nat (other * 64)) 64 (q_commands q') =
           slice (Z.to_nat (other * 64)) 64 (q_commands q))
  | (Raise e, q') =>
      Inv q' ∧ (is_Exception e = true →
                q_pending q' = q_pending q ∧ q_free q' = q_free q)
  end.
Proof.
  intros HI. pose proof (wp_submit command q HI) as Hwp. unfold wp in Hwp.
  destruct (submit command q) as [[oid|e] q']; [|done].
  destruct Hwp as (cid & free & w & Hf & Hcl & Hlen & -> & -> & HI').
  assert (0 ≤ cid < q_depth q - 1) as Hr
    by (apply Inv_free_range; [done|rewrite Hf; set_solver]).
  pose proof (inv_mem q HI) as Hmem.
  assert (length (capsule_of command cid) = 64%nat) as Hcap
    by (unfold capsule_of; len_lia).
  exists cid. rewrite Hf. split_and!; try done.
  - unfold outstanding; simpl. rewrite map_size_insert_None; [lia|].
    apply Inv_free_not_pending; [done|]. rewrite Hf. set_solver.
  - simpl. by rewrite slice_splice_eq by lia.
  - intros other Ho Hne. simpl. apply slice_splice_ne; lia.
Qed.

Lemma submit_correct_witness :
  Inv (Scripted.queue []) ∧
  (submit (replicate 64 5) (Scripted.queue [])).1 = Ok 0%nat ∧
  slice 0 64 (q_commands (submit (replicate 64 5) (Scripted.queue [])).2) =
    splice 2 (le 2 0) (replicate 64 5).
Proof.
  pose proof (Inv_scripted_queue []) as HI.
  split; [exact HI|]. split; [vm_compute; reflexivity|].
  pose proof (submit_correct (Scripted.queue []) (replicate 64 5) HI) as H.
  destruct (submit (replicate 64 5) (Scripted.queue [])) as [r q'] eqn:Hs.
  vm_compute in Hs. injection Hs as <- <-.
  destruct H as (cid & Hcid & _ & _ & _ & H & _).
  vm_compute in Hcid. injection Hcid as <-. exact H.
Defined.

(** a full queue refuses: with the invariant, [submit] of a well-formed
    capsule on an open queue raises QueueFullError exactly when depth - 1
    commands are outstanding, and then changes nothing. *)
Theorem submit_full_iff {W} `{!QueueDevice W} `{!Clock W} (q : QState W) command :
  Inv q → q_closed q = false → length command = 64%nat →
  (∀ wr mem w e, (dev_post_send wr mem w).1 = Raise e → e ≠ QueueFullError) →
  ((submit command q).1 = Raise QueueFullError ↔ outstanding q = q_depth q - 1) ∧
  (outstanding q = q_depth q - 1 → submit command q = (Raise QueueFullError, q)).
Proof.
  intros HI Hcl Hlen Hdev. pose proof (Inv_count q HI) as Hcount.
  destruct (q_free q) as [|cid free] eqn:Hf.
  - assert (submit command q = (Raise QueueFullError, q)) as ->.
    { unfold submit, mbind, M_bind, get. by rewrite Hcl, Hlen, Hf. }
    simpl in Hcount. split; [|done]. split; [lia|done].
  - simpl in Hcount. split; [|lia]. split; [|lia].
    rewrite (submit_unfold q command cid free) by done. intros Hr. exfalso. revert Hr.
    unfold mbind, M_bind, try_except, dev.
    match goal with |- context [dev_post_send ?a ?b ?c] =>
      pose proof (Hdev a b c) as He; destruct (dev_post_send a b c) as [[[]|e] w] end;
      [done|].
    specialize (He e eq_refl). destruct (is_Exception e); simpl; congruence.
Qed.

Lemma submit_full_iff_witness :
  (submit (replicate 64 5)
     (submit (replicate 64 5) (submit (replicate 64 5)
        (submit (replicate 64 5) (Scripted.queue [])).2).2).2).1 = Raise QueueFullError.
Proof.
  pose proof (Inv_scripted_queue []) as H0.
  assert (Inv (submit (replicate 64 5) (submit (replicate 64 5)
        (submit (replicate 64 5) (Scripted.queue [])).2).2).2) as H
    by (do 3 apply Inv_after_submit; exact H0).
  apply (submit_full_iff _ (replicate 64 5) H); vm_compute; try reflexivity.
  intros ? ? ? ? [=].
Defined.

(** C12: [poll] keeps the queue invariant whether it returns or raises, and
    returns each finished request once: the handles it returns are distinct and
    done, were not done before the call (or were left by a call that raised),
    and are no longer queued for return; request objects only gain halves. *)
Theorem poll_correct {W} `{!QueueDevice W} `{!Clock W} (q : QState W) max :
  Inv q → q_closed q = false →
  match poll max q with
  | (Ok oids, q') =>
      Inv q' ∧ NoDup oids ∧ q_completed q' = [] ∧
      ∀ oid, oid ∈ oids →
        request_done q' oid = true ∧
        (oid ∈ q_completed q ∨ request_done q oid = false)
  | (Raise e, q') => Inv q' ∧ grows q q'
  end.
Proof.
  intros HI Hcl. pose proof (wp_poll q max HI) as Hwp. unfold wp in Hwp.
  destruct (poll max q) as [[oids|e] q']; [|done].
  destruct Hwp as (HI' & Hg & Hnd & Hdone & Hnil & _).
  split_and!; try done; [by apply Hnil|].
  intros oid Hin. split; [by apply Hdone|].
  apply (grows_completed _ _ Hg). simpl. set_solver.
Qed.

(** A queue with one command in flight whose two halves come in one poll. *)
Definition one_command : QState Scripted.world :=
  (submit (replicate 64 0) (Scripted.queue
    [([recv_wc 0; send_wc 0], Scripted.memory (mk_Completion 7 0 0 0 0) 4)])).2.

Lemma Inv_one_command : Inv one_command.
Proof. apply Inv_after_submit, Inv_scripted_queue. Qed.

Lemma poll_correct_witness :
  (poll None one_command).1 = Ok [0%nat] ∧
  request_done one_command 0 = false ∧ request_done (poll None one_command).2 0 = true.
Proof.
  assert (q_closed one_command = false) as Hcl by (vm_compute; reflexivity).
  assert ((poll None one_command).1 = Ok [0%nat]) as Hp by (vm_compute; reflexivity).
  pose proof (poll_correct one_command None Inv_one_command Hcl) as H.
  split; [exact Hp|]. split; [vm_compute; reflexivity|].
  destruct (poll None one_command) as [r q']. simpl in Hp. subst r.
  destruct H as (_ & _ & _ & H). destruct (H 0%nat) as [Hd _]; [by left|exact Hd].
Defined.

(** a pending command whose SEND completion and response both arrive, in
    either order, finishes: its object holds that response and is done, its id
    goes back to the free list, and it is queued for return exactly once. *)
Theorem halves_in_any_order {W} `{!QueueDevice W} `{!Clock W}
    (q : QState W) cid oid r c slot wcs :
  Inv q → q_pending q !! cid = Some oid → q_heap q !! oid = Some r →
  rq_send_complete r = false → rq_response r = None →
  (∀ l w, (dev_post_recv l w).1 = Ok tt) →
  length (dev_responses (q_world q)) = Z.to_nat (16 * q_depth q) →
  0 ≤ slot < q_depth q → command_id c = cid →
  Completion_from_bytes
    (slice (Z.to_nat (slot * 16)) 16 (dev_responses (q_world q))) = Ok c →
  wcs = [send_wc cid; recv_wc slot] ∨ wcs = [recv_wc slot; send_wc cid] →
  ∃ q', for_each poll_wc wcs q = (Ok tt, q') ∧
    q_heap q' = <[oid := mk_Request cid true (Some c) true]> (q_heap q) ∧
    q_pending q' = delete cid (q_pending q) ∧
    q_free q' = q_free q ++ [cid] ∧ q_completed q' = q_completed q ++ [oid].
Proof.
  intros HI Hp Hh Hs Hr Hpost Hmem Hslot Hc Hdec Hwcs.
  pose proof (inv_depth q HI) as [_ Hd]. unfold MAX_QUEUE_DEPTH in Hd.
  pose proof (Inv_pending_range q cid oid HI Hp).
  assert (oid < length (q_heap q))%nat by (by eapply lookup_lt_Some).
  destruct (inv_pending q HI _ _ Hp) as (r0 & Hr0 & Hc0 & _).
  rewrite Hh in Hr0; injection Hr0 as <-.
  destruct Hwcs as [-> | ->]; simpl; unfold mbind, M_bind.
  - rewrite (poll_send_wc q cid oid r) by (done || lia).
    unfold after_update at 1, ready at 1; simpl. rewrite Hr; simpl.
    rewrite (poll_recv_wc _ slot oid (mark_sent r) c); simpl; try done;
      [|congruence|by rewrite list_lookup_insert_eq|congruence].
    unfold after_update, ready; simpl. eexists. split; [done|]. simpl.
    rewrite !list_insert_insert_eq. by rewrite Hc0.
  - rewrite (poll_recv_wc q slot oid r c) by (done || congruence).
    unfold after_update at 1, ready at 1; simpl. rewrite Hs; simpl.
    rewrite (poll_send_wc _ cid oid (set_response c r)); simpl; try done;
      [|lia|by rewrite list_lookup_insert_eq].
    unfold after_update, ready; simpl. eexists. split; [done|]. simpl.
    rewrite !list_insert_insert_eq. by rewrite Hc0.
Qed.

(** The same queue with the response written to slot 2. *)
Definition one_command_slot2 : QState Scripted.world :=
  set_world (Scripted.mk_world [] (splice 32
    (Completion_bytes (mk_Completion 7 0 0 0 0)) (replicate 64 0)) 0 []) one_command.

Lemma halves_in_any_order_witness :
  ∃ q', for_each poll_wc [recv_wc 2; send_wc 0] one_command_slot2 = (Ok tt, q') ∧
        q_free q' = q_free one_command_slot2 ++ [0].
Proof.
  assert (Inv one_command_slot2) as HI by apply Inv_set_world, Inv_one_command.
  destruct (halves_in_any_order one_command_slot2 0 0 (mk_Request 0 false None false)
    (mk_Completion 7 0 0 0 0) 2 [recv_wc 2; send_wc 0] HI) as (q' & Hq & _ & _ & Hf & _);
    try (vm_compute; reflexivity); try (vm_compute; split; [discriminate|reflexivity]);
    [by right|].
  exists q'. split; [exact Hq|exact Hf].
Defined.

(** C14: whatever the device does, [execute] leaves the queue invariant in
    place, and when it returns a completion, that completion carries the
    command id the queue had assigned and a successful status. *)
Theorem execute_correct {W} `{!QueueDevice W} `{!Clock W}
    (q : QState W) fuel command timeout :
  Inv q →
  match execute fuel command timeout q with
  | (Ok (Some c), q') =>
      Inv q' ∧ succeeded c = true ∧ head (q_free q) = Some (command_id c)
  | (Ok None, q') => Inv q'
  | (Raise e, q') => Inv q'
  end.
Proof.
  intros HI.
  assert (wp (execute fuel command timeout)
    (λ o q', Inv q' ∧ ∀ c, o = Some c → succeeded c = true ∧
               head (q_free q) = Some (command_id c)) (λ _ q', Inv q') q) as Hwp.
  2: { unfold wp in Hwp. destruct (execute _ _ _ q) as [[[c|]|e] q']; [|tauto|done].
       destruct Hwp as [? Hc]. split; [done|by apply Hc]. }
  unfold execute. apply wp_bind. eapply wp_mono; [by apply wp_submit| |by intros e q' [? _]].
  simpl. intros oid q1 (cid & free & w & Hf & _ & _ & -> & -> & HI1).
  apply wp_bind, wp_monotonic. apply wp_bind. eapply wp_mono.
  - apply (wp_while_loop _ (λ q', Inv q' ∧ owns (length (q_heap q)) cid q')
      (λ _ q', Inv q' ∧ owns (length (q_heap q)) cid q') (λ _ q', Inv q')).
    + intros q2 H2. eapply wp_mono; [by eapply wp_execute_round| |done].
      by intros [[]|] q3 H3.
    + done.
    + split; [by apply Inv_set_world|]. exists (mk_Request cid false None false).
      simpl. by rewrite lookup_app_r, Nat.sub_diag by lia.
  - simpl. intros [[]|] q2 [HI2 (r & Hr & Hc)]; [|by apply wp_ret].
    apply wp_bind, wp_get. rewrite Hr; simpl.
    destruct (rq_response r) as [c|] eqn:Hrsp; [|done].
    apply wp_bind, wp_lift. unfold raise_for_status.
    destruct (succeeded c) eqn:Hsucc; [|done]. apply wp_ret.
    split; [done|]. intros c' [= <-]. rewrite Hf. split; [done|]. simpl.
    by rewrite (inv_response q2 HI2 _ _ _ Hr Hrsp), Hc.
  - done.
Qed.

Lemma execute_correct_witness :
  let q := Scripted.queue [([send_wc 0], Scripted.memory (mk_Completion 7 0 0 0 0) 4);
                           ([recv_wc 0], Scripted.memory (mk_Completion 7 0 0 0 0) 4)] in
  (execute 5 (replicate 64 0) 10 q).1 = Ok (Some (mk_Completion 7 0 0 0 0)) ∧
  Inv (execute 5 (replicate 64 0) 10 q).2.
Proof.
  cbv zeta. set (q := Scripted.queue _).
  assert (Inv q) as HI by apply Inv_scripted_queue.
  assert ((execute 5 (replicate 64 0) 10 q).1 = Ok (Some (mk_Completion 7 0 0 0 0)))
    as He by (vm_compute; reflexivity).
  split; [exact He|].
  pose proof (execute_correct q 5 (replicate 64 0) 10 HI) as H.
  destruct (execute 5 (replicate 64 0) 10 q) as [r q']. simpl in He. subst r.
  exact (proj1 H).
Defined.

(** [execute] terminates: with a clock that advances at each reading, a
    timeout of [timeout] ticks and more rounds of fuel than ticks, the wait loop
    has always left, with a completion or an exception. *)
Theorem execute_terminates {W} `{!QueueDevice W} `{!Clock W} `{!ClockLaws W}
    `{!QueueClock W} (q : QState W) fuel command timeout :
  (Z.to_nat timeout < fuel)%nat →
  (execute fuel command timeout q).1 ≠ Ok None.
Proof.
  intros Hfuel. unfold execute, mbind, M_bind.
  destruct (submit command q) as [[oid|e] q1]; [|done].
  destruct (monotonic q1) as [[t|e] q2] eqn:Ht; [|done].
  assert (now (q_world q2) > t) as Hnow.
  { unfold monotonic in Ht. pose proof (clock_now (q_world q1)).
    pose proof (clock_advances (q_world q1)).
    destruct (dev_clock (q_world q1)). injection Ht as -> <-. simpl in *. lia. }
  pose proof (while_loop_terminates (execute_round oid (t + timeout)) (λ _, True)
    (λ q', Z.to_nat (t + timeout - now (q_world q'))) fuel q2) as Hloop.
  destruct (while_loop fuel _ q2) as [[[u|]|e] q3].
  - unfold get; simpl. destruct (option_bind _ _ _ _) as [c|]; [|done].
    unfold lift. by destruct (raise_for_status c).
  - exfalso. apply Hloop; [|done|lia|done].
    intros s s' _ Hs. split; [done|]. by eapply execute_round_clock.
  - done.
Qed.

Lemma execute_terminates_witness :
  (execute 11 (replicate 64 0) 10 (Scripted.queue [])).1 = Raise TimeoutError ∧
  (execute 11 (replicate 64 0) 10 (Scripted.queue [])).1 ≠ Ok None.
Proof.
  split; [vm_compute; reflexivity|].
  apply (execute_terminates (Scripted.queue []) 11 (replicate 64 0) 10).
  apply Nat.ltb_lt. reflexivity.
Defined.

(** construction either yields a queue that owns all six resources, has
    every command id free and satisfies the invariant, or raises; and when it
    raises an Exception after some step failed, provided the releases succeed,
    no resource is left open. *)
Theorem RDMAQueue_init_correct {W} `{!QueueDevice W} `{!Clock W} `{!Releasable W}
    qid depth cid (w : W) :
  match RDMAQueue_init qid depth cid w with
  | (Ok _, q) =>
      Inv q ∧ q_closed q = false ∧ outstanding q = 0 ∧ q_live q ≡ₚ all_resources
  | (Raise e, q) => is_Exception e = true → q_live q = []
  end.
Proof.
  destruct (RDMAQueue_init qid depth cid w) as [[[]|e] q] eqn:Hinit.
  - pose proof (RDMAQueue_init_wp qid depth cid w) as H. rewrite Hinit in H.
    destruct (H eq_refl) as (HI & Hcl & Hp & Hl). split_and!; try done.
    unfold outstanding. simpl in Hp. rewrite Hp. by rewrite map_size_empty.
  - intros He. revert Hinit. unfold RDMAQueue_init.
    destruct (rdma_cm_request _ _ _); [|by intros [= _ <-]].
    unfold try_except. destruct (connect_queue _ _) as [[[]|e1] q1]; [done|].
    destruct (is_Exception e1) eqn:He1; [|intros [= -> _]; congruence].
    unfold mbind, M_bind. pose proof (wp_close_releasable q1) as Hc. unfold wp in Hc.
    destruct (close q1) as [[[]|e'] q2]; [|done]. intros [= _ <-]. by destruct Hc.
Qed.

(** [close] always marks the queue closed; when it returns, every resource
    has been released; when it raises an OSError, the resources still open are
    exactly among those whose own release raised one, so one failing release
    never keeps the others open; and closing a fully closed queue again does
    nothing. *)
Theorem close_correct {W} `{!QueueDevice W} (q : QState W) :
  match close q with
  | (Ok _, q') => q_closed q' = true ∧ q_live q' = [] ∧ close q' = (Ok tt, q')
  | (Raise e, q') =>
      is_OSError e = true →
      q_closed q' = true ∧
      ∀ r, r ∈ q_live q' → r ∈ q_live q ∧
        ∃ w e', (dev_release r w).1 = Raise e' ∧ is_OSError e' = true
  end.
Proof.
  pose proof (wp_close q) as Hc. unfold wp in Hc.
  destruct (close q) as [[[]|e] q']; [|done]. destruct Hc as [Hcl Hl].
  split_and!; [done..|]. unfold close, mbind, M_bind, get. by rewrite Hcl, Hl.
Qed.

Lemma RDMAQueue_init_correct_witness :
  (RDMAQueue_init 0 4 0 (Scripted.start [])).1 = Ok tt ∧
  (RDMAQueue_init 0 64 0 (Scripted.start [])).1 = Raise RuntimeError ∧
  q_live (RDMAQueue_init 0 64 0 (Scripted.start [])).2 = [].
Proof.
  assert ((RDMAQueue_init 0 64 0 (Scripted.start [])).1 = Raise RuntimeError) as H
    by (vm_compute; reflexivity).
  split; [vm_compute; reflexivity|]. split; [exact H|].
  pose proof (RDMAQueue_init_correct 0 64 0 (Scripted.start [])) as Hc.
  destruct (RDMAQueue_init 0 64 0 (Scripted.start [])) as [r q]. simpl in H. subst r.
  apply Hc. reflexivity.
Defined.
