(* ===== verification/Controller.v ===== *)
(** The high-level NVMe-oF controller and namespace:
    src/nvmeof/src/nvmeof/controller.py.

    The controller's own fields are a record [Ctrl]; the queues, the registered
    buffers and the clock it uses are the operations of the class [NvmeEnv], the
    interface the command queue of RdmaQueue promises to its client.  Times are
    in milliseconds. *)

From S2P Require Import Prelude Bytes Verbs Protocol RdmaQueue.
#[local] Open Scope Z_scope.

(** * Interface *)

(** Queue 0 is the admin queue, queue 1 the I/O queue. *)
Class NvmeEnv (S : Type) := {
  env_open_queue : Z → Z → Z → M S unit;
  env_close_queue : Z → M S unit;
  env_execute : Z → bytes → M S Completion;
  env_alloc : Z → Z → M S MemBuf;
  env_write : MemBuf → bytes → M S unit;
  env_read : MemBuf → M S bytes;
  env_free : MemBuf → M S unit;
  env_monotonic : M S Z;
  env_sleep : Z → M S unit;
  env_cuda_synchronize : M S unit;
  env_flush_gpudirect_writes : M S unit;
}.

(** * Namespace *)

(** A registered buffer as [Namespace] sees it; [db_gpu] is [_is_gpu_memory]. *)
Record DataBuf := mk_DataBuf { db_mem : MemBuf; db_gpu : bool }.

Record Namespace := mk_Namespace {
  ns_info : NamespaceInfo;
  ns_max_transfer_bytes : Z;
}.

Section NamespaceOps.
Context {S : Type} `{!NvmeEnv S}.
Implicit Types (ns : Namespace) (buffer : DataBuf).

Definition ns_lba ns : Z := lba_size (ns_info ns).

Definition max_blocks ns : Z :=
  Z.min 65536 (ns_max_transfer_bytes ns `div` ns_lba ns).

(** [while remaining]: [None] is a loop cut by the fuel. *)
Fixpoint transfer_loop (fuel : nat) ns (opcode : Z) buffer
    (remaining offset current_lba : Z) : M S (option unit) :=
  if remaining =? 0 then mret (Some tt) else
  match fuel with
  | O => mret None
  | Datatypes.S fuel =>
      let count := Z.min remaining (max_blocks ns) in
      command ← lift (rw_command opcode (ns_nsid (ns_info ns)) current_lba count
                        (db_mem buffer) (ns_lba ns) offset);
      _ ← env_execute 1 command;
      transfer_loop fuel ns opcode buffer (remaining - count)
        (offset + count * ns_lba ns) (current_lba + count)
  end.

Definition _transfer ns (opcode : Z) buffer (slba : Z) (blocks : option Z)
    (buffer_offset : Z) : M S (option unit) :=
  let available := buf_length (db_mem buffer) - buffer_offset in
  blocks ← match blocks with
           | Some b => mret b
           | None =>
               guard_raise (negb (available `mod` ns_lba ns =? 0)) ValueError;;
               mret (available `div` ns_lba ns)
           end;
  guard_raise ((blocks <=? 0) || (slba <? 0)
               || (size_lbas (ns_info ns) <? slba + blocks)) ValueError;;
  let total := blocks * ns_lba ns in
  guard_raise ((buffer_offset <? 0) || (available <? total)) ValueError;;
  (if db_gpu buffer && (opcode =? OPC_WRITE) then env_cuda_synchronize else mret tt);;
  guard_raise (max_blocks ns =? 0) RuntimeError;;
  o ← transfer_loop (Z.to_nat blocks) ns opcode buffer blocks buffer_offset slba;
  (if db_gpu buffer && (opcode =? OPC_READ) then env_flush_gpudirect_writes else mret tt);;
  mret o.

Definition read ns buffer slba blocks offset :=
  _transfer ns OPC_READ buffer slba blocks offset.
Definition write ns buffer slba blocks offset :=
  _transfer ns OPC_WRITE buffer slba blocks offset.

Definition flush ns : M S unit :=
  command ← lift (_command OPC_FLUSH (ns_nsid (ns_info ns)));
  _ ← env_execute 1 command; mret tt.
End NamespaceOps.

(** * Controller *)

Record Ctrl := mk_Ctrl {
  c_admin : bool;
  c_io : bool;
  c_controller_id : Z;
  c_capabilities : Z;
  c_page_size : Z;
  c_info : option ControllerInfo;
  c_max_transfer_bytes : option Z;
}.

Definition ctrl_init : Ctrl := mk_Ctrl false false 0 0 0 None None.

Section ControllerOps.
Context {S : Type} `{!NvmeEnv S}.
Abbreviation C := (M (Ctrl * S)).

Definition env {A} (m : M S A) : C A := λ s,
  let '(r, w) := m s.2 in (r, (s.1, w)).
Definition upd (f : Ctrl → Ctrl) : C unit := modify (λ s, (f s.1, s.2)).

Definition set_admin b c := mk_Ctrl b (c_io c) (c_controller_id c)
  (c_capabilities c) (c_page_size c) (c_info c) (c_max_transfer_bytes c).
Definition set_io b c := mk_Ctrl (c_admin c) b (c_controller_id c)
  (c_capabilities c) (c_page_size c) (c_info c) (c_max_transfer_bytes c).
Definition set_controller_id i c := mk_Ctrl (c_admin c) (c_io c) i
  (c_capabilities c) (c_page_size c) (c_info c) (c_max_transfer_bytes c).
Definition set_capabilities v ps c := mk_Ctrl (c_admin c) (c_io c)
  (c_controller_id c) v ps (c_info c) (c_max_transfer_bytes c).
Definition set_info i c := mk_Ctrl (c_admin c) (c_io c) (c_controller_id c)
  (c_capabilities c) (c_page_size c) (Some i) (c_max_transfer_bytes c).
Definition set_max_transfer m c := mk_Ctrl (c_admin c) (c_io c)
  (c_controller_id c) (c_capabilities c) (c_page_size c) (c_info c) (Some m).

(** [with HostBuffer(pd, n) as data: body] *)
Definition with_buffer {A} (qid n : Z) (body : MemBuf → C A) : C A :=
  data ← env (env_alloc qid n);
  try_finally (body data) (env (env_free data)).

Definition _property_get (offset size : Z) : C Z :=
  command ← lift (property_get offset size);
  completion ← env (env_execute 0 command);
  mret (result_ completion).

Definition _property_set (offset value size : Z) : C unit :=
  command ← lift (property_set offset value size);
  _ ← env (env_execute 0 command); mret tt.

(** One round of [_wait_ready]. *)
Definition wait_ready_round (deadline : Z) : C (option unit) :=
  csts ← _property_get REG_CSTS 4;
  if negb (Z.land csts CSTS_FATAL =? 0) then raise RuntimeError else
  if negb (Z.land csts CSTS_READY =? 0) then mret (Some tt) else
  t ← env env_monotonic;
  if deadline <=? t then raise TimeoutError else
  env (env_sleep 10);; mret None.

(** The ready timeout in milliseconds: CAP.TO counts half seconds. *)
Definition ready_timeout (capabilities : Z) : Z :=
  let timeout := Z.land (Z.shiftr capabilities 24) 0xFF + 1 in
  Z.max 500 (timeout * 500).

Definition _wait_ready (fuel : nat) : C (option unit) :=
  s ← get;
  t ← env env_monotonic;
  while_loop fuel (wait_ready_round (t + ready_timeout (c_capabilities s.1))).

(** The controller configuration written to CC. *)
Definition controller_config (capabilities : Z) : Z :=
  let mpsmin := Z.land (Z.shiftr capabilities 48) 0xF in
  let css := Z.land (Z.shiftr capabilities 37) 0xFF in
  let cc := Z.lor (Z.lor (Z.lor CC_ENABLE CC_IOSQES) CC_IOCQES)
              (Z.shiftl mpsmin CC_MPS_SHIFT) in
  if negb (Z.land css (Z.shiftl 1 6) =? 0) then Z.lor cc CC_CSS_CSI else cc.

(** The negotiated I/O queue depth. *)
Definition io_depth (capabilities requested : Z) (info : ControllerInfo) : Z :=
  let queue_limit := Z.land capabilities 0xFFFF + 1 in
  let queue_limit :=
    if max_commands info =? 0 then queue_limit
    else Z.min queue_limit (max_commands info) in
  Z.min requested (Z.min queue_limit MAX_QUEUE_DEPTH).

(** The byte limit of one command. *)
Definition transfer_limit (page_size : Z) (info : ControllerInfo) : Z :=
  if mdts info =? 0 then MAX_KEYED_SGL_LENGTH
  else Z.min MAX_KEYED_SGL_LENGTH (Z.shiftl page_size (mdts info)).

(** The test after Set Features (Number of Queues). *)
Definition no_io_queue (result_dw : Z) : bool :=
  Z.min (Z.land result_dw 0xFFFF) (Z.shiftr result_dw 16) + 1 <? 1.

Definition check_identity (id : Z) (info : ControllerInfo) : result unit :=
  if negb (ci_controller_id info =? id) then Raise RuntimeError else
  if Z.land (sgls info) (Z.shiftl 1 2) =? 0 then Raise RuntimeError else
  if negb (icdoff info =? 0) then Raise RuntimeError else Ok tt.

Variables (host_uuid subsystem_nqn host_nqn : bytes) (keep_alive_ms : Z).

(** The Fabrics Connect exchange of one queue. *)
Definition fabrics_handshake (qid depth cntlid kato : Z) : C Completion :=
  with_buffer qid 1024 (λ data,
    payload ← lift (connect_data host_uuid subsystem_nqn host_nqn cntlid);
    env (env_write data payload);;
    command ← lift (fabrics_connect qid depth data kato);
    env (env_execute qid command)).

Definition _connect (fuel : nat) (requested_depth : Z) : C (option unit) :=
  guard_raise ((requested_depth <? 2) || (MAX_QUEUE_DEPTH <? requested_depth)) ValueError;;
  env (env_open_queue 0 ADMIN_QUEUE_DEPTH 0);;
  upd (set_admin true);;
  completion ← fabrics_handshake 0 ADMIN_QUEUE_DEPTH 0xFFFF keep_alive_ms;
  let id := Z.land (result_ completion) 0xFFFF in
  upd (set_controller_id id);;
  guard_raise (negb (Z.land (result_ completion)
    (Z.lor (Z.shiftl 1 17) (Z.shiftl 1 18)) =? 0)) NotImplementedError;;
  cap ← _property_get REG_CAP 8;
  let page_size := Z.shiftl 1 (12 + Z.land (Z.shiftr cap 48) 0xF) in
  upd (set_capabilities cap page_size);;
  _property_set REG_CC (controller_config cap) 4;;
  o ← _wait_ready fuel;
  match o with
  | None => mret None
  | Some _ =>
      info ← with_buffer 0 4096 (λ data,
        command ← lift (identify data 0 true);
        _ ← env (env_execute 0 command);
        raw ← env (env_read data);
        lift (ControllerInfo_from_bytes raw));
      upd (set_info info);;
      lift (check_identity id info);;
      let depth := io_depth cap requested_depth info in
      command ← lift (set_features FEAT_NUMBER_OF_QUEUES 0);
      completion ← env (env_execute 0 command);
      guard_raise (no_io_queue (result_ completion)) RuntimeError;;
      env (env_open_queue 1 depth id);;
      upd (set_io true);;
      _ ← fabrics_handshake 1 depth id 0;
      upd (set_max_transfer (transfer_limit page_size info));;
      mret (Some tt)
  end.

(** One [try: queue.close(); queue = None] of [close]. *)
Definition close_queue (error : option exn) (qid : Z) (open : Ctrl → bool)
    (clear : Ctrl → Ctrl) : C (option exn) :=
  s ← get;
  if open s.1 then
    try_except (env (env_close_queue qid);; upd clear;; mret error)
      (λ e, if is_OSError e then mret (Some (default e error)) else raise e)
  else mret error.

Definition ctrl_close : C unit :=
  error ← close_queue None 1 c_io (set_io false);
  error ← close_queue error 0 c_admin (set_admin false);
  match error with Some e => raise e | None => mret tt end.

(** [Controller.__init__] after its argument conversions. *)
Definition Controller_init (fuel : nat) (queue_depth : Z) : C (option unit) :=
  guard_raise (negb (keep_alive_ms =? 0)) NotImplementedError;;
  try_except (_connect fuel queue_depth)
    (λ e, if is_Exception e then
            try_except ctrl_close
              (λ e', if is_OSError e' then mret tt else raise e');;
            raise e
          else raise e).

Definition identify_namespace (nsid : Z) : C NamespaceInfo :=
  s ← get;
  match c_info s.1 with
  | None => raise AttributeError
  | Some info =>
      guard_raise ((nsid <=? 0) || (namespace_count info <? nsid)) ValueError;;
      ns ← with_buffer 0 4096 (λ data,
        command ← lift (identify data nsid false);
        _ ← env (env_execute 0 command);
        raw ← env (env_read data);
        lift (NamespaceInfo_from_bytes nsid raw));
      guard_raise (negb (metadata_size ns =? 0)) NotImplementedError;;
      mret ns
  end.
End ControllerOps.

(** * A target as specification

    What an NVMe target does with the capsules it is sent: a READ copies blocks
    from the disk to the address in the SGL, a WRITE copies them back.  [disk]
    and [mem] are byte-addressed; [log] is every capsule executed, in order. *)
Module Target.
Record machine := mk_machine {
  disk : Z → Z;
  mem : Z → Z;
  log : list bytes;
}.

Definition copy (dst src : Z → Z) (to from n : Z) : Z → Z := λ a,
  if (to <=? a) && (a <? to + n) then src (from + (a - to)) else dst a.

Definition run (lba : Z) (cmd : bytes) (m : machine) : machine :=
  let cp := parse_capsule cmd in
  let start := field 40 8 cmd * lba in
  let log := log m ++ [cmd] in
  if cp_opcode cp =? OPC_READ then
    mk_machine (disk m) (copy (mem m) (disk m) (cp_addr cp) start (cp_len cp)) log
  else if cp_opcode cp =? OPC_WRITE then
    mk_machine (copy (disk m) (mem m) start (cp_addr cp) (cp_len cp)) (mem m) log
  else mk_machine (disk m) (mem m) log.

Definition ok_completion : Completion := mk_Completion 0 0 0 0 0.

#[export] Instance target_env (lba : Z) : NvmeEnv machine := {|
  env_open_queue _ _ _ := mret tt;
  env_close_queue _ := mret tt;
  env_execute _ cmd := λ m, (Ok ok_completion, run lba cmd m);
  env_alloc _ n := mret (mk_MemBuf 0 n 0);
  env_write _ _ := mret tt;
  env_read _ := mret [];
  env_free _ := mret tt;
  env_monotonic := mret 0;
  env_sleep _ := mret tt;
  env_cuda_synchronize := mret tt;
  env_flush_gpudirect_writes := mret tt;
|}.

(** The block range a capsule names. *)
Definition lbas (cmd : bytes) : list Z := seqZ (field 40 8 cmd) (field 48 2 cmd + 1).
End Target.
Import Target.

(** What identification and registration establish. *)
Definition ns_valid (ns : Namespace) : bool :=
  in_uint 4 (ns_nsid (ns_info ns)) && (0 <? ns_lba ns)
  && in_uint 8 (size_lbas (ns_info ns)).

Definition limit_valid (ns : Namespace) : bool :=
  (ns_lba ns <=? ns_max_transfer_bytes ns)
  && (ns_max_transfer_bytes ns <=? MAX_KEYED_SGL_LENGTH).

Definition buf_valid (b : MemBuf) : bool :=
  (0 <=? buf_addr b) && (buf_addr b + buf_length b <=? 2 ^ 64)
  && in_uint 4 (buf_rkey b).

(** The ranges [_transfer] accepts. *)
Definition range_valid (ns : Namespace) (b : MemBuf) (slba blocks off : Z) : bool :=
  (0 <? blocks) && (0 <=? slba) && (slba + blocks <=? size_lbas (ns_info ns))
  && (0 <=? off) && (off + blocks * ns_lba ns <=? buf_length b).

(** The state after copying [n] bytes between memory at [addr] and the disk at
    byte [start], in the direction of [opcode]. *)
Definition copied (opcode addr start n : Z) (m m' : machine) : Prop :=
  (∀ a, mem m' a = if opcode =? OPC_READ
                   then copy (mem m) (disk m) addr start n a else mem m a) ∧
  (∀ x, disk m' x = if opcode =? OPC_READ
                    then disk m x else copy (disk m) (mem m) start addr n x).

Lemma copy_ext d d' s s' to from n a :
  (∀ x, d x = d' x) → (∀ x, s x = s' x) → copy d s to from n a = copy d' s' to from n a.
Proof. intros Hd Hs. unfold copy. by rewrite Hd, Hs. Qed.

Lemma copy_app d s to from n1 n2 a :
  0 ≤ n1 → 0 ≤ n2 →
  copy (copy d s to from n1) s (to + n1) (from + n1) n2 a = copy d s to from (n1 + n2) a.
Proof.
  intros. unfold copy. repeat case_match; try lia; try done. f_equal. lia.
Qed.

Lemma copied_app opcode addr start n1 n2 m m1 m2 :
  0 ≤ n1 → 0 ≤ n2 →
  copied opcode addr start n1 m m1 → copied opcode (addr + n1) (start + n1) n2 m1 m2 →
  copied opcode addr start (n1 + n2) m m2.
Proof.
  intros H1 H2 [Hm1 Hd1] [Hm2 Hd2]. unfold copied in *.
  destruct (opcode =? OPC_READ); split; intros a; rewrite ?Hm2, ?Hd2, ?Hd1, ?Hm1; try done.
  - rewrite <- copy_app by done. by apply copy_ext.
  - rewrite <- copy_app by done. by apply copy_ext.
Qed.

Section Transfers.
Context (ns : Namespace) (b : DataBuf) (opcode : Z).
Hypothesis (Hop : (opcode =? OPC_READ) || (opcode =? OPC_WRITE) = true)
  (Hns : ns_valid ns = true) (Hlim : limit_valid ns = true)
  (Hbuf : buf_valid (db_mem b) = true).
#[local] Instance target : NvmeEnv machine := target_env (ns_lba ns).

Lemma max_blocks_bound :
  1 ≤ max_blocks ns ≤ 65536 ∧ max_blocks ns * ns_lba ns ≤ ns_max_transfer_bytes ns.
Proof using All.
  unfold ns_valid, limit_valid, max_blocks in *.
  assert (0 < ns_lba ns ∧ ns_lba ns ≤ ns_max_transfer_bytes ns) as [Hl Hle] by lia.
  pose proof (Z.mul_div_le (ns_max_transfer_bytes ns) (ns_lba ns) Hl).
  assert (1 ≤ ns_max_transfer_bytes ns `div` ns_lba ns)
    by (apply Z.div_le_lower_bound; lia).
  split; [lia|]. nia.
Qed.

(** One command of the loop is accepted and copies its blocks. *)
Lemma transfer_step count offset current m :
  0 < count ≤ max_blocks ns →
  range_valid ns (db_mem b) current count offset = true →
  ∃ cmd, rw_command opcode (ns_nsid (ns_info ns)) current count (db_mem b)
           (ns_lba ns) offset = Ok cmd ∧
    copied opcode (buf_addr (db_mem b) + offset) (current * ns_lba ns)
      (count * ns_lba ns) m (run (ns_lba ns) cmd m) ∧
    log (run (ns_lba ns) cmd m) = log m ++ [cmd] ∧
    lbas cmd = seqZ current count ∧ field 32 3 cmd ≤ ns_max_transfer_bytes ns.
Proof using All.
  intros Hc Hr. pose proof max_blocks_bound as [Hmb Hml].
  unfold ns_valid, limit_valid, buf_valid, range_valid in *.
  assert (0 < count * ns_lba ns ≤ ns_max_transfer_bytes ns) as Hlen by nia.
  pose proof (rw_command_capsule opcode (ns_nsid (ns_info ns)) current count
    (db_mem b) (ns_lba ns) offset) as Hrw.
  destruct (rw_valid _ _ _ _ _ _ _) eqn:Hv.
  2: { exfalso. unfold rw_valid, sgl_valid, in_uint in *. simpl in *. lia. }
  destruct Hrw as (cmd & Hcmd & _ & _ & Hcap & Hslba & Hnlb).
  exists cmd. split; [done|].
  assert (field 32 3 cmd = count * ns_lba ns) as Hl3.
  { change (field 32 3 cmd) with (cp_len (parse_capsule cmd)). by rewrite Hcap. }
  unfold run, lbas. rewrite Hcap, Hslba, Hnlb, Hl3; simpl.
  split_and!; [| |by rewrite Z.sub_add|lia].
  - unfold copied. destruct (Z.eqb_spec opcode OPC_READ); [done|].
    replace (opcode =? OPC_WRITE) with true by lia. done.
  - by repeat case_match.
Qed.

(** The loop copies what remains, in blocks of bounded size that tile it. *)
Lemma transfer_loop_copies fuel remaining offset current m :
  0 ≤ remaining → (Z.to_nat remaining ≤ fuel)%nat →
  (remaining = 0 ∨ range_valid ns (db_mem b) current remaining offset = true) →
  ∃ m' cmds,
    transfer_loop fuel ns opcode b remaining offset current m = (Ok (Some tt), m') ∧
    copied opcode (buf_addr (db_mem b) + offset) (current * ns_lba ns)
      (remaining * ns_lba ns) m m' ∧
    log m' = log m ++ cmds ∧ concat (lbas <$> cmds) = seqZ current remaining ∧
    Forall (λ cmd, field 32 3 cmd ≤ ns_max_transfer_bytes ns) cmds.
Proof using All.
  pose proof max_blocks_bound as [Hmb Hml].
  assert (0 < ns_lba ns) as Hl by (unfold ns_valid in Hns; lia).
  revert remaining offset current m.
  induction fuel as [|fuel IH]; intros remaining offset current m H0 Hfuel Hr.
  all: destruct (Z.eqb_spec remaining 0) as [->|Hne].
  all: try (exists m, []; simpl; rewrite app_nil_r, Z.mul_0_l;
    split_and!; try done; unfold copied, copy; split; intros; repeat case_match; lia || done).
  { lia. }
  destruct Hr as [|Hr]; [done|].
  cbn [transfer_loop]. rewrite (proj2 (Z.eqb_neq _ _) Hne).
  set (count := Z.min remaining (max_blocks ns)).
  assert (0 < count ≤ max_blocks ns ∧ count ≤ remaining) as [Hc Hcr] by (unfold count; lia).
  assert (0 ≤ count * ns_lba ns ≤ remaining * ns_lba ns) as Hcl by nia.
  destruct (transfer_step count offset current m Hc) as (cmd & Hcmd & Hcp & Hlog & Hlb & Hlen).
  { unfold range_valid in *. lia. }
  unfold mbind, M_bind, lift. rewrite Hcmd. cbn [env_execute target target_env].
  destruct (IH (remaining - count) (offset + count * ns_lba ns) (current + count)
    (run (ns_lba ns) cmd m)) as (m' & cmds & Hrun & Hcp' & Hlog' & Hlb' & Hlen');
    [lia|lia| |].
  { destruct (decide (remaining - count = 0)); [by left|right].
    unfold range_valid in *. rewrite Z.mul_sub_distr_r. lia. }
  exists m', (cmd :: cmds). split; [exact Hrun|]. split_and!.
  - replace (remaining * ns_lba ns)
      with (count * ns_lba ns + (remaining - count) * ns_lba ns) by lia.
    eapply copied_app; [lia|nia|done|].
    replace (buf_addr (db_mem b) + offset + count * ns_lba ns)
      with (buf_addr (db_mem b) + (offset + count * ns_lba ns)) by lia.
    replace (current * ns_lba ns + count * ns_lba ns)
      with ((current + count) * ns_lba ns) by lia. done.
  - by rewrite Hlog', Hlog, <- app_assoc.
  - rewrite fmap_cons; simpl. rewrite Hlb, Hlb', <- seqZ_app by lia. f_equal. lia.
  - by constructor.
Qed.
End Transfers.

(** * Controller lemmas *)

Section Keeps.
Context {S : Type} `{!NvmeEnv S}.

(** A call that leaves the controller's own fields alone. *)
Definition keeps {A} (m : M (Ctrl * S) A) : Prop :=
  ∀ s, wp m (λ _ s', s'.1 = s.1) (λ _ s', s'.1 = s.1) s.

Lemma keeps_ret {A} (a : A) : keeps (mret a).
Proof. done. Qed.
Lemma keeps_lift {A} (r : result A) : keeps (lift r).
Proof. intros s. apply wp_lift. by destruct r. Qed.
Lemma keeps_raise {A} e : keeps (raise e : M (Ctrl * S) A).
Proof. done. Qed.
Lemma keeps_env {A} (m : M S A) : keeps (env m).
Proof. intros s. unfold wp, env. by destruct (m s.2) as [[a|e] w]. Qed.
Lemma keeps_bind {A B} (m : M (Ctrl * S) A) (f : A → M (Ctrl * S) B) :
  keeps m → (∀ a, keeps (f a)) → keeps (m ≫= f).
Proof.
  intros Hm Hf s. apply wp_bind. eapply wp_mono; [apply Hm| |done].
  simpl. intros a s' Hs. rewrite <- Hs. apply Hf.
Qed.
Lemma keeps_with_buffer {A} qid n (body : MemBuf → M (Ctrl * S) A) :
  (∀ data, keeps (body data)) → keeps (with_buffer qid n body).
Proof.
  intros Hb. apply keeps_bind; [apply keeps_env|]. intros data s.
  unfold wp, try_finally. specialize (Hb data s). unfold wp in Hb.
  destruct (body data s) as [r s'].
  assert (s'.1 = s.1) as <- by (by destruct r).
  pose proof (keeps_env (env_free data) s') as Hf. unfold wp in Hf.
  destruct (env (env_free data) s') as [[[]|e] s'']; [by destruct r|done].
Qed.

Lemma wp_keeps {A} (m : M (Ctrl * S) A) (P : A → Ctrl * S → Prop) E s :
  keeps m → (∀ a w, P a (s.1, w)) → (∀ e w, E e (s.1, w)) → wp m P E s.
Proof.
  intros Hk HP HE. eapply wp_mono; [apply Hk| |]; simpl; intros a [c w] Hs;
    simpl in Hs; subst c; auto.
Qed.
End Keeps.

Create HintDb keeps.
#[export] Hint Resolve keeps_ret keeps_lift keeps_raise keeps_env keeps_bind
  keeps_with_buffer : keeps.

Section Connecting.
Context {S : Type} `{!NvmeEnv S} (uuid sub host : bytes) (kato : Z).

Lemma keeps_property_get offset size : keeps (_property_get offset size).
Proof. unfold _property_get. auto with keeps. Qed.

Lemma keeps_property_set offset value size : keeps (_property_set offset value size).
Proof. unfold _property_set. auto 10 with keeps. Qed.

Lemma keeps_handshake qid depth cntlid k :
  keeps (fabrics_handshake uuid sub host qid depth cntlid k).
Proof. unfold fabrics_handshake. auto 10 with keeps. Qed.

Lemma keeps_while {R} fuel (body : M (Ctrl * S) (option R)) :
  keeps body → keeps (while_loop fuel body).
Proof.
  intros Hb. induction fuel as [|fuel IH]; [apply keeps_ret|].
  apply keeps_bind; [done|]. intros [r|]; [apply keeps_ret|done].
Qed.

Lemma keeps_wait_ready fuel : keeps (_wait_ready fuel).
Proof.
  unfold _wait_ready. intros s. apply wp_bind, wp_get.
  apply wp_bind, wp_keeps; [apply keeps_env| |done]. intros t w.
  eapply wp_mono; [apply keeps_while| |]; [|done|done].
  unfold wait_ready_round. apply keeps_bind; [apply keeps_property_get|]. intros csts.
  repeat (case_match; auto with keeps).
  apply keeps_bind; [auto with keeps|]. intros t'. case_match; auto with keeps.
Qed.

(** What a connected controller holds. *)
Definition connected (c : Ctrl) : Prop :=
  c_admin c = true ∧ c_io c = true ∧
  ∃ info, c_info c = Some info ∧ check_identity (c_controller_id c) info = Ok tt ∧
    c_page_size c = Z.shiftl 1 (12 + Z.land (Z.shiftr (c_capabilities c) 48) 0xF) ∧
    c_max_transfer_bytes c = Some (transfer_limit (c_page_size c) info).

Lemma wp_connect fuel depth s :
  wp (_connect uuid sub host kato fuel depth)
    (λ o s', o = Some tt → connected s'.1) (λ _ _, True) s.
Proof.
  unfold _connect. apply wp_bind, wp_guard_raise. destruct (_ || _); [done|].
  apply wp_bind, wp_keeps; [apply keeps_env| |done]. intros _ w0.
  apply wp_bind, wp_modify.
  apply wp_bind, wp_keeps; [apply keeps_handshake| |done]. intros completion w1.
  apply wp_bind, wp_modify, wp_bind, wp_guard_raise. destruct (negb _); [done|].
  apply wp_bind, wp_keeps; [apply keeps_property_get| |done]. intros cap w2.
  apply wp_bind, wp_modify.
  apply wp_bind, wp_keeps; [apply keeps_property_set| |done]. intros _ w3.
  apply wp_bind, wp_keeps; [apply keeps_wait_ready| |done]. intros [[]|] w4; [|done].
  apply wp_bind, wp_keeps; [auto 10 with keeps| |done]. intros info w5.
  apply wp_bind, wp_modify, wp_bind, wp_lift.
  destruct (check_identity _ info) as [[]|] eqn:Hid; [|done].
  apply wp_bind, wp_lift. destruct (set_features _ _); [|done].
  apply wp_bind, wp_keeps; [apply keeps_env| |done]. intros completion' w6.
  apply wp_bind, wp_guard_raise. destruct (no_io_queue _); [done|].
  apply wp_bind, wp_keeps; [apply keeps_env| |done]. intros _ w7.
  apply wp_bind, wp_modify.
  apply wp_bind, wp_keeps; [apply keeps_handshake| |done]. intros _ w8.
  apply wp_bind, wp_modify, wp_ret. intros _. simpl.
  split; [done|]. split; [done|]. by exists info.
Qed.

(** When the queues close, closing leaves neither open. *)
Lemma wp_ctrl_close s :
  (∀ qid w, (env_close_queue qid w).1 = Ok tt) →
  wp ctrl_close (λ _ s', c_admin s'.1 = false ∧ c_io s'.1 = false) (λ _ _, False) s.
Proof.
  intros Hclose.
  assert (∀ qid open clear s0, wp (close_queue None qid open clear)
    (λ o s', o = None ∧ s'.1 = if open s0.1 then clear s0.1 else s0.1)
    (λ _ _, False) s0) as Hq.
  { intros qid open clear s0. unfold close_queue. apply wp_bind, wp_get.
    destruct (open s0.1); [|by apply wp_ret].
    apply wp_try_except, wp_bind. unfold wp, env. pose proof (Hclose qid s0.2).
    by destruct (env_close_queue qid s0.2) as [[[]|e] w]. }
  unfold ctrl_close. apply wp_bind. eapply wp_mono; [apply Hq| |done].
  simpl. intros o s1 [-> H1]. apply wp_bind. eapply wp_mono; [apply Hq| |done].
  simpl. intros o s2 [-> H2]. apply wp_ret. rewrite H2.
  destruct (c_admin s1.1) eqn:?, (c_io s.1) eqn:?; rewrite H1 in *; simpl in *; auto.
Qed.
End Connecting.

(** * Properties *)

(** C11: splitting is invisible.  Against a target that executes capsules, a
    namespace read (or write) of a valid range returns and leaves memory (or
    the disk) as one copy of the whole range would; the capsules it sent tile
    the block range in order, each block once, and none moves more bytes than
    the controller's transfer limit. *)
Theorem transfer_refines_copy ns b opcode slba blocks off m :
  (opcode =? OPC_READ) || (opcode =? OPC_WRITE) = true →
  ns_valid ns = true → limit_valid ns = true → buf_valid (db_mem b) = true →
  range_valid ns (db_mem b) slba blocks off = true →
  ∃ m' cmds,
    _transfer (NvmeEnv0 := target_env (ns_lba ns)) ns opcode b slba (Some blocks) off m
      = (Ok (Some tt), m') ∧
    copied opcode (buf_addr (db_mem b) + off) (slba * ns_lba ns)
      (blocks * ns_lba ns) m m' ∧
    log m' = log m ++ cmds ∧ concat (lbas <$> cmds) = seqZ slba blocks ∧
    Forall (λ cmd, field 32 3 cmd ≤ ns_max_transfer_bytes ns) cmds.
Proof.
  intros Hop Hns Hlim Hbuf Hr.
  pose proof (max_blocks_bound ns b opcode Hop Hns Hlim Hbuf) as [Hmb _].
  destruct (transfer_loop_copies ns b opcode Hop Hns Hlim Hbuf (Z.to_nat blocks)
    blocks off slba m) as (m' & cmds & Hrun & H); [|done|by right|].
  { unfold range_valid in Hr. lia. }
  exists m', cmds. split; [|exact H].
  unfold range_valid in Hr. unfold _transfer, mbind, M_bind, guard_raise, mret at 1, M_ret at 1.
  guards. unfold mret at 1, M_ret at 1.
  unfold target in Hrun.
  destruct (db_gpu b && (opcode =? OPC_WRITE)); simpl; unfold mret at 1, M_ret at 1;
    guards; unfold mret at 1, M_ret at 1; rewrite Hrun;
    by destruct (db_gpu b && (opcode =? OPC_READ)).
Qed.

(** A namespace of 512-byte blocks over a target limited to two blocks. *)
Definition ns_small : Namespace :=
  mk_Namespace (mk_NamespaceInfo 1 100 100 0 512 0) 1024.
Definition buf_small : DataBuf := mk_DataBuf (mk_MemBuf 4096 8192 7) false.

Lemma transfer_refines_copy_witness :
  ∃ m' cmds,
    _transfer (NvmeEnv0 := target_env 512) ns_small OPC_READ buf_small 3 (Some 5) 512
      (mk_machine (λ x, x `mod` 251) (λ _, 0) []) = (Ok (Some tt), m') ∧
    mem m' 4608 = (3 * 512) `mod` 251 ∧ mem m' 4607 = 0 ∧
    log m' = cmds ∧ concat (lbas <$> cmds) = [3; 4; 5; 6; 7].
Proof.
  destruct (transfer_refines_copy ns_small buf_small OPC_READ 3 5 512
    (mk_machine (λ x, x `mod` 251) (λ _, 0) [])) as (m' & cmds & Hrun & [Hmem _] & Hlog & Hl & _);
    [vm_compute; reflexivity..|].
  exists m', cmds. split; [exact Hrun|].
  rewrite !Hmem. split; [vm_compute; reflexivity|]. split; [vm_compute; reflexivity|].
  split; [exact Hlog|]. rewrite Hl. vm_compute. reflexivity.
Defined.

(** a request outside the namespace or outside the buffer is refused with
    ValueError before anything is sent: whatever the queue would do, the state
    is unchanged. *)
Theorem transfer_rejects {S} `{!NvmeEnv S} ns b opcode slba blocks off (s : S) :
  range_valid ns (db_mem b) slba blocks off = false →
  _transfer ns opcode b slba (Some blocks) off s = (Raise ValueError, s).
Proof.
  unfold range_valid, _transfer, mbind, M_bind, guard_raise, mret at 1, M_ret at 1.
  intros Hr. destruct ((blocks <=? 0) || _ || _) eqn:Hg; [done|].
  unfold mret at 1, M_ret at 1.
  guard_true. done.
Qed.

Lemma transfer_rejects_witness :
  _transfer (NvmeEnv0 := target_env 512) ns_small OPC_READ buf_small 98 (Some 3) 0
      (mk_machine (λ _, 1) (λ _, 0) []) =
    (Raise ValueError, mk_machine (λ _, 1) (λ _, 0) []).
Proof. apply transfer_rejects. vm_compute. reflexivity. Defined.

(** every transfer terminates: for any queue behaviour and arguments, with
    a positive block size and a non-negative limit, the [while remaining] loop
    ends within one round per block. *)
Theorem transfer_terminates {S} `{!NvmeEnv S} ns b opcode slba blocks off (s : S) :
  0 < ns_lba ns → 0 ≤ ns_max_transfer_bytes ns →
  (_transfer ns opcode b slba blocks off s).1 ≠ Ok None.
Proof.
  intros Hl Hm.
  assert (∀ fuel r o c s, 0 < max_blocks ns → 0 ≤ r → (Z.to_nat r ≤ fuel)%nat →
    (transfer_loop fuel ns opcode b r o c s).1 ≠ Ok None) as Hloop.
  { induction fuel as [|fuel IH]; intros r o c s0 Hmb Hr Hf; cbn [transfer_loop];
      (destruct (Z.eqb_spec r 0); [done|]); [lia|].
    unfold mbind, M_bind, lift. destruct (rw_command _ _ _ _ _ _ _); [|done].
    destruct (env_execute 1 _ s0) as [[?|?] s1]; [|done]. apply IH; lia. }
  assert (0 ≤ max_blocks ns) as Hmb
    by (unfold max_blocks; pose proof (Z.div_pos (ns_max_transfer_bytes ns) (ns_lba ns)); lia).
  intros Hnone.
  assert (wp (_transfer ns opcode b slba blocks off) (λ o _, o ≠ None) (λ _ _, True) s) as Hwp.
  2: { unfold wp in Hwp. destruct (_transfer _ _ _ _ _ _ s) as [[o|e] s']; [|done].
       simpl in Hnone. congruence. }
  clear Hnone. unfold _transfer. apply wp_bind.
  eapply wp_mono; [apply wp_trivial|intros bl s1 _|done].
  apply wp_bind, wp_guard_raise.
  destruct ((bl <=? 0) || (slba <? 0) || (size_lbas (ns_info ns) <? slba + bl)) eqn:Hg; [done|].
  apply wp_bind, wp_guard_raise.
  destruct ((off <? 0) || (buf_length (db_mem b) - off <? bl * ns_lba ns)); [done|].
  apply wp_bind. eapply wp_mono; [apply wp_trivial|intros _ s2 _|done].
  apply wp_bind, wp_guard_raise. destruct (Z.eqb_spec (max_blocks ns) 0); [done|].
  apply wp_bind. pose proof (Hloop (Z.to_nat bl) bl off slba s2) as Hlp.
  unfold wp at 1. destruct (transfer_loop _ _ _ _ _ _ _ s2) as [[o|e] s3]; [|done].
  assert (o ≠ None) by (intros ->; apply Hlp; lia || done).
  apply wp_bind. eapply wp_mono; [apply wp_trivial|done|done].
Qed.

Lemma transfer_terminates_witness :
  (_transfer (NvmeEnv0 := target_env 512) ns_small OPC_WRITE buf_small 0 None 0
     (mk_machine (λ _, 1) (λ _, 0) [])).1 ≠ Ok None.
Proof. apply transfer_terminates; vm_compute; [reflexivity|discriminate]. Defined.

(** A target that answers with the scripted results and one Identify page. *)
Module Replies.
#[export] Instance replies_env (page : bytes) : NvmeEnv (list Z) := {|
  env_open_queue _ _ _ := mret tt;
  env_close_queue _ := mret tt;
  env_execute _ _ := λ l, (Ok (mk_Completion (default 0 (head l)) 0 0 0 0), tail l);
  env_alloc _ n := mret (mk_MemBuf 0 n 0);
  env_write _ _ := mret tt;
  env_read _ := mret page;
  env_free _ := mret tt;
  env_monotonic := mret 0;
  env_sleep _ := mret tt;
  env_cuda_synchronize := mret tt;
  env_flush_gpudirect_writes := mret tt;
|}.

(** Controller 5, keyed SGLs, no in-capsule offset. *)
Definition identify_page : bytes :=
  <[78%nat := 5]> (<[536%nat := 4]> (replicate 4096 0)).
#[export] Instance page_env : NvmeEnv (list Z) := replies_env identify_page.

Definition host_uuid0 : bytes := replicate 16 9.
Definition nqn0 : bytes := replicate 11 65.
(** Connect, CAP, CC, CSTS, Identify, Set Features, Connect. *)
Definition replies0 : list Z := [5; 63; 0; 1; 0; 0; 0].
End Replies.
Import Replies.

(** constructing a controller.  If it returns, both queues are open, the
    Identify data agrees with the Connect response, supports keyed SGLs and has
    no in-capsule offset, and the transfer limit is the one negotiated; if it
    raises an Exception and the queues can be closed, neither is left open. *)
Theorem Controller_init_correct {S} `{!NvmeEnv S} uuid sub host kato fuel depth (w : S) :
  (∀ qid w, (env_close_queue qid w).1 = Ok tt) →
  match Controller_init uuid sub host kato fuel depth (ctrl_init, w) with
  | (Ok (Some _), s) => connected s.1
  | (Ok None, _) => True
  | (Raise e, s) => is_Exception e = true → c_admin s.1 = false ∧ c_io s.1 = false
  end.
Proof.
  intros Hclose.
  assert (wp (Controller_init uuid sub host kato fuel depth)
    (λ o s', o = Some tt → connected s'.1)
    (λ e s', is_Exception e = true → c_admin s'.1 = false ∧ c_io s'.1 = false)
    (ctrl_init, w)) as Hwp.
  2: { unfold wp in Hwp. destruct (Controller_init _ _ _ _ _ _ _) as [[[[]|]|e] s]; auto. }
  unfold Controller_init. apply wp_bind, wp_guard_raise. destruct (negb _); [done|].
  apply wp_try_except. eapply wp_mono; [apply wp_connect|done|].
  simpl. intros e s _. destruct (is_Exception e) eqn:He; [|apply wp_raise; congruence].
  apply wp_bind, wp_try_except. eapply wp_mono; [by apply wp_ctrl_close| |done].
  simpl. intros _ s' Hs. by apply wp_raise.
Qed.

Lemma Controller_init_correct_witness :
  (Controller_init host_uuid0 nqn0 nqn0 0 1 128 (ctrl_init, replies0)).1 = Ok (Some tt) ∧
  connected (Controller_init host_uuid0 nqn0 nqn0 0 1 128 (ctrl_init, replies0)).2.1.
Proof.
  pose proof (Controller_init_correct host_uuid0 nqn0 nqn0 0 1 128 replies0
    (λ _ _, eq_refl)) as H.
  assert ((Controller_init host_uuid0 nqn0 nqn0 0 1 128 (ctrl_init, replies0)).1
          = Ok (Some tt)) as Hok by (vm_compute; reflexivity).
  split; [exact Hok|].
  destruct (Controller_init host_uuid0 nqn0 nqn0 0 1 128 (ctrl_init, replies0))
    as [[[[]|]|e] s]; [exact H|discriminate Hok|discriminate Hok].
Defined.

(** the negotiated sizes.  The I/O queue is never deeper than asked for,
    than the controller's maximum, than its command limit (when it has one) or
    than 256, and the transfer limit is positive, fits one keyed SGL and never
    exceeds MDTS memory pages. *)
Theorem negotiated_limits cap requested page_size info :
  0 < page_size → 0 ≤ mdts info →
  let d := io_depth cap requested info in
  let t := transfer_limit page_size info in
  d ≤ requested ∧ d ≤ MAX_QUEUE_DEPTH ∧ d ≤ cap `mod` 2 ^ 16 + 1 ∧
  (max_commands info ≠ 0 → d ≤ max_commands info) ∧
  0 < t ≤ MAX_KEYED_SGL_LENGTH ∧
  (mdts info ≠ 0 → t ≤ page_size * 2 ^ mdts info).
Proof.
  intros Hp Hm. cbv zeta. unfold io_depth, transfer_limit, MAX_KEYED_SGL_LENGTH.
  change 0xFFFF with (Z.ones 16). rewrite Z.land_ones by lia.
  rewrite Z.shiftl_mul_pow2 by lia.
  assert (0 < page_size * 2 ^ mdts info) by (apply Z.mul_pos_pos; [|apply Z.pow_pos_nonneg]; lia).
  destruct (Z.eqb_spec (max_commands info) 0), (Z.eqb_spec (mdts info) 0); lia.
Qed.

Lemma negotiated_limits_witness :
  io_depth 0x3f 128 (mk_ControllerInfo [] [] [] 5 1 0 32 1 4 0 0 0) = 32 ∧
  io_depth 0x3f 128 (mk_ControllerInfo [] [] [] 5 1 0 32 1 4 0 0 0) ≤ 128 ∧
  transfer_limit 4096 (mk_ControllerInfo [] [] [] 5 1 0 32 1 4 0 0 0) = 131072.
Proof.
  split; [vm_compute; reflexivity|]. split; [|vm_compute; reflexivity].
  apply (negotiated_limits 0x3f 128 4096 (mk_ControllerInfo [] [] [] 5 1 0 32 1 4 0 0 0));
    vm_compute; [reflexivity|discriminate].
Defined.

(** the check for a missing I/O queue never fires: Number of Queues is
    zero-based, so for every (unsigned) completion result the smaller count
    plus one is at least one, and the RuntimeError is unreachable. *)
Theorem no_io_queue_never result_dw : 0 ≤ result_dw → no_io_queue result_dw = false.
Proof.
  intros H. unfold no_io_queue. change 0xFFFF with (Z.ones 16).
  rewrite Z.land_ones, Z.shiftr_div_pow2 by lia.
  pose proof (Z.mod_pos_bound result_dw (2 ^ 16)).
  pose proof (Z.div_pos result_dw (2 ^ 16)). lia.
Qed.

Lemma no_io_queue_never_witness : 0 ≤ 0xffffffff ∧ no_io_queue 0xffffffff = false.
Proof. split; [lia|]. apply no_io_queue_never. lia. Defined.
