(* ===== verification/Helpers.v ===== *)
(** The connection helpers of the verbs binding:
    src/ibverbs/src/ibverbs/helpers.py.  [QPInfo], its 28-byte wire format, the
    description of a tensor's memory, registration and the RC connection
    sequence.  The QP itself is the interface [RcQp]. *)

From S2P Require Import Prelude Bytes.
#[local] Open Scope Z_scope.

(** * QPInfo *)

Record QPInfo := mk_QPInfo {
  qi_qp_num : Z;
  qi_psn : Z;
  qi_lid : Z;
  qi_gid : bytes;
  qi_port : Z;
  qi_mtu : Z;
}.

#[global] Instance QPInfo_eq_dec : EqDecision QPInfo.
Proof. solve_decision. Defined.

(** [QPInfo.__post_init__]: the checks in the source's order. *)
Definition QPInfo_init (qp_num psn lid : Z) (gid : bytes) (port mtu : Z) :
    result QPInfo :=
  if negb (length gid =? 16)%nat then Raise ValueError else
  if negb ((0 <=? qp_num) && (qp_num <=? 0xFFFFFF)) then Raise ValueError else
  if negb ((0 <=? psn) && (psn <=? 0xFFFFFF)) then Raise ValueError else
  if negb ((0 <=? lid) && (lid <=? 0xFFFF)) then Raise ValueError else
  if negb ((1 <=? port) && (port <=? 0xFF)) then Raise ValueError else
  if negb ((1 <=? mtu) && (mtu <=? 5)) then Raise ValueError else
  Ok (mk_QPInfo qp_num psn lid gid port mtu).

(** The size of ["!IIH16sBB"]. *)
Definition QPInfo_size : nat := 28.

Definition QPInfo_to_bytes (i : QPInfo) : result bytes :=
  qp_num ← pack_be fI (qi_qp_num i);
  psn ← pack_be fI (qi_psn i);
  lid ← pack_be fH (qi_lid i);
  port ← pack_be fB (qi_port i);
  mtu ← pack_be fB (qi_mtu i);
  Ok (qp_num ++ psn ++ lid ++ qi_gid i ++ port ++ mtu).

Definition QPInfo_from_bytes (data : bytes) : result QPInfo :=
  if negb (length data =? QPInfo_size)%nat then Raise ValueError else
  qp_num ← unpack_be fI 0 data;
  psn ← unpack_be fI 4 data;
  lid ← unpack_be fH 8 data;
  port ← unpack_be fB 26 data;
  mtu ← unpack_be fB 27 data;
  QPInfo_init qp_num psn lid (slice 10 16 data) port mtu.

(** What [port_attr] and the QP give [local_qp_info]. *)
Definition local_qp_info (qp_num lid active_mtu : Z) (gid : bytes) (port psn : Z) :
    result QPInfo :=
  QPInfo_init qp_num psn lid gid port active_mtu.

(** * Tensors *)

(** A tensor-like object as the duck typing sees it: a torch tensor
    ([data_ptr], [numel], [element_size]), a numpy array ([ctypes], [nbytes]) or
    neither; [t_is_contiguous] is the answer of [is_contiguous()] when there is
    such a method, [t_c_contiguous] the flag when there are [flags]. *)
Inductive tensor_kind :=
| TorchTensor (data_ptr numel element_size : Z)
| NumpyArray (data nbytes : Z)
| OtherObject.

Record Tensor := mk_Tensor {
  t_kind : tensor_kind;
  t_is_contiguous : option bool;
  t_c_contiguous : option bool;
  t_is_cuda : bool;
}.

Definition _require_contiguous (t : Tensor) : result unit :=
  raise_if (negb (default true (t_is_contiguous t))) ValueError;;
  raise_if (negb (default true (t_c_contiguous t))) ValueError.

Definition tensor_addr_len (t : Tensor) : result (Z * Z) :=
  _require_contiguous t;;
  match t_kind t with
  | TorchTensor p n e => Ok (p, n * e)
  | NumpyArray p n => Ok (p, n)
  | OtherObject => Raise TypeError
  end.

(** * Connection *)

(** [QP.to_rts]'s keyword arguments; [None] is one left out. *)
Record RtsArgs := mk_RtsArgs {
  rts_timeout : option Z;
  rts_retry_cnt : option Z;
  rts_rnr_retry : option Z;
  rts_max_rd_atomic : option Z;
}.

(** The state changes of one RC queue pair, named by [Q], and the path MTU of
    its port. *)
Class RcQp (Q W : Type) := {
  qp_active_mtu : Q → Z → M W Z;
  qp_to_init : Q → Z → Z → M W unit;
  qp_to_rtr : Q → QPInfo → Z → Z → option Z → M W unit;
  qp_to_rts : Q → Z → RtsArgs → M W unit;
}.

Section Connect.
Context {Q W : Type} `{!RcQp Q W}.

(** The explicit path MTU, or the smaller of the endpoints'. *)
Definition negotiate_mtu (qp : Q) (remote : QPInfo) (port : Z) (mtu : option Z) :
    M W Z :=
  match mtu with
  | Some m => mret m
  | None => local_mtu ← qp_active_mtu qp port; mret (Z.min local_mtu (qi_mtu remote))
  end.

Definition connect_rc (qp : Q) (remote : QPInfo) (port sgid_index access local_psn : Z)
    (mtu : option Z) (rts_kwargs : RtsArgs) : M W unit :=
  mtu ← negotiate_mtu qp remote port mtu;
  qp_to_init qp port access;;
  qp_to_rtr qp remote sgid_index mtu None;;
  qp_to_rts qp local_psn rts_kwargs.

(** [reg_tensor]: [reg] is [pd.reg_mr(addr, n, access)]. *)
Definition reg_tensor {R} (reg : Z → Z → Z → M W R) (t : Tensor) (access : Z) : M W R :=
  guard_raise (t_is_cuda t) ValueError;;
  an ← lift (tensor_addr_len t);
  guard_raise (an.2 <=? 0) ValueError;;
  reg an.1 an.2 access.
End Connect.

(** * Properties *)

(** The ranges [__post_init__] accepts. *)
Definition qp_info_valid (i : QPInfo) : bool :=
  (length (qi_gid i) =? 16)%nat && (0 <=? qi_qp_num i) && (qi_qp_num i <=? 0xFFFFFF)
  && (0 <=? qi_psn i) && (qi_psn i <=? 0xFFFFFF) && (0 <=? qi_lid i) && (qi_lid i <=? 0xFFFF)
  && (1 <=? qi_port i) && (qi_port i <=? 0xFF) && (1 <=? qi_mtu i) && (qi_mtu i <=? 5).

Lemma QPInfo_init_spec qp_num psn lid gid port mtu :
  QPInfo_init qp_num psn lid gid port mtu =
    if qp_info_valid (mk_QPInfo qp_num psn lid gid port mtu)
    then Ok (mk_QPInfo qp_num psn lid gid port mtu) else Raise ValueError.
Proof.
  unfold QPInfo_init, qp_info_valid; cbn [qi_gid qi_qp_num qi_psn qi_lid qi_port qi_mtu].
  destruct (length gid =? 16)%nat; [|done]. cbn [negb andb].
  repeat case_match; done || lia.
Qed.

Definition QPInfo_bytes (i : QPInfo) : bytes :=
  be 4 (qi_qp_num i) ++ be 4 (qi_psn i) ++ be 2 (qi_lid i) ++ qi_gid i
  ++ be 1 (qi_port i) ++ be 1 (qi_mtu i).

Lemma QPInfo_to_bytes_ok i :
  qp_info_valid i = true → QPInfo_to_bytes i = Ok (QPInfo_bytes i).
Proof.
  unfold qp_info_valid, QPInfo_to_bytes. intros Hv.
  by rewrite !pack_be_ok by (unfold in_uint; simpl; lia).
Qed.

Lemma unpack_be_ok n off data :
  (off + n ≤ length data)%nat → unpack_be n off data = Ok (be_val (slice off n data)).
Proof. intros. unfold unpack_be. by rewrite (proj2 (Nat.leb_le _ _)). Qed.

(** The field at [off] of a concatenation, with the offset counted down over
    the parts before it. *)
Lemma slice_app_here n a b : length a = n → slice 0 n (a ++ b) = a.
Proof. intros <-. rewrite slice_app_l by lia. by apply slice_full. Qed.

Lemma slice_app_skip off n a b :
  (length a ≤ off)%nat → slice off n (a ++ b) = slice (off - length a) n b.
Proof. apply slice_app_r. Qed.

(** Each field of [QPInfo_bytes] is where [from_bytes] reads it. *)
Ltac qp_field Hg :=
  unfold QPInfo_bytes; cbn [qi_qp_num qi_psn qi_lid qi_gid qi_port qi_mtu];
  repeat (rewrite slice_app_skip by (rewrite ?length_be, ?Hg; lia);
          rewrite ?length_be, ?Hg; cbn [Nat.sub]);
  first [rewrite slice_app_here by (rewrite ?length_be, ?Hg; done)
        |rewrite slice_full by (rewrite ?length_be, ?Hg; done)];
  rewrite ?be_val_be by (unfold in_uint; simpl; lia).

Lemma QPInfo_from_bytes_ok i :
  qp_info_valid i = true → QPInfo_from_bytes (QPInfo_bytes i) = Ok i.
Proof.
  intros Hv. assert (length (qi_gid i) = 16%nat) as Hg by (unfold qp_info_valid in Hv; lia).
  assert (length (QPInfo_bytes i) = 28%nat) as Hlen
    by (unfold QPInfo_bytes; autorewrite with len; lia).
  unfold QPInfo_from_bytes, QPInfo_size. rewrite Hlen.
  cbn [negb Nat.eqb]. rewrite !unpack_be_ok by lia. cbv [mbind result_bind].
  rewrite QPInfo_init_spec.
  replace (mk_QPInfo _ _ _ _ _ _) with i; [by rewrite Hv|].
  unfold qp_info_valid in Hv. destruct i as [q p l g po m]; simpl in Hv, Hg. clear Hlen.
  f_equal; symmetry; qp_field Hg; done.
Qed.

(** a QPInfo survives the wire: what [to_bytes] writes for any constructible
    endpoint is 28 bytes that [from_bytes] reads back as the same endpoint;
    and conversely any payload [from_bytes] accepts is a valid endpoint whose
    [to_bytes] is that payload. *)
Theorem QPInfo_roundtrip i data :
  (qp_info_valid i = true →
   ∃ b, QPInfo_to_bytes i = Ok b ∧ length b = QPInfo_size ∧
        QPInfo_from_bytes b = Ok i) ∧
  (wf_bytes data → QPInfo_from_bytes data = Ok i →
   qp_info_valid i = true ∧ QPInfo_to_bytes i = Ok data).
Proof.
  split.
  - intros Hv. exists (QPInfo_bytes i). rewrite QPInfo_to_bytes_ok by done.
    split_and!; [done| |by apply QPInfo_from_bytes_ok].
    unfold QPInfo_bytes, qp_info_valid in *. autorewrite with len. unfold QPInfo_size. lia.
  - intros Hwf. unfold QPInfo_from_bytes.
    destruct (Nat.eqb_spec (length data) QPInfo_size) as [Hlen|]; [|done].
    cbn [negb]. unfold QPInfo_size in Hlen. rewrite !unpack_be_ok by lia.
    cbv [mbind result_bind]. rewrite QPInfo_init_spec.
    destruct (qp_info_valid _) eqn:Hv; [|done]. intros [= <-].
    split; [done|]. rewrite QPInfo_to_bytes_ok by done. f_equal. unfold QPInfo_bytes.
    cbn [qi_qp_num qi_psn qi_lid qi_gid qi_port qi_mtu].
    rewrite !be_be_val by (auto with wf_bytes || (apply length_slice; lia)).
    rewrite <- !slice_split. by apply slice_full.
Qed.

Lemma QPInfo_roundtrip_witness :
  qp_info_valid (mk_QPInfo 0x123456 7 1 (replicate 16 254) 1 5) = true ∧
  ∃ b, QPInfo_to_bytes (mk_QPInfo 0x123456 7 1 (replicate 16 254) 1 5) = Ok b ∧
    QPInfo_from_bytes b = Ok (mk_QPInfo 0x123456 7 1 (replicate 16 254) 1 5).
Proof.
  assert (qp_info_valid (mk_QPInfo 0x123456 7 1 (replicate 16 254) 1 5) = true) as Hv
    by (vm_compute; reflexivity).
  split; [exact Hv|].
  destruct (proj1 (QPInfo_roundtrip (mk_QPInfo 0x123456 7 1 (replicate 16 254) 1 5) [])
    Hv) as (b & Hb & _ & Hf).
  exists b. split; [exact Hb|exact Hf].
Defined.
