(* ===== verification/EfaHelpers.v ===== *)
(** The helpers of the EFA binding: src/efa/src/efa/helpers.py.  [EndpointInfo] and its
    24-byte wire format, peers, and the work requests of an RDMA operation too large for
    one.  The functions on tensors are those of the verbs helpers, word for word.  A
    protection domain and an address handle are operations of [AhDevice]. *)

From S2P Require Import Prelude Bytes Helpers.
#[local] Open Scope Z_scope.

(** * Endpoints *)

Record EndpointInfo := mk_EndpointInfo { ep_gid : bytes; ep_qp_num : Z; ep_qkey : Z }.
#[global] Instance EndpointInfo_eq_dec : EqDecision EndpointInfo.
Proof. solve_decision. Defined.

(** [__post_init__] *)
Definition EndpointInfo_init (gid : bytes) (qp_num qkey : Z) : result EndpointInfo :=
  if negb (length gid =? 16)%nat then Raise ValueError else
  if negb ((0 <=? qp_num) && (qp_num <=? 0xFFFFFF)) then Raise ValueError else
  if negb ((0 <=? qkey) && (qkey <=? 0xFFFFFFFF)) then Raise ValueError else
  Ok (mk_EndpointInfo gid qp_num qkey).

(** The size of ["!16sII"]. *)
Definition EndpointInfo_size : nat := 24.
Definition EndpointInfo_to_bytes (e : EndpointInfo) : result bytes :=
  qp_num ← pack_be fI (ep_qp_num e);
  qkey ← pack_be fI (ep_qkey e);
  Ok (ep_gid e ++ qp_num ++ qkey).
Definition EndpointInfo_from_bytes (data : bytes) : result EndpointInfo :=
  if negb (length data =? EndpointInfo_size)%nat then Raise ValueError else
  qp_num ← unpack_be fI 16 data;
  qkey ← unpack_be fI 20 data;
  EndpointInfo_init (slice 0 16 data) qp_num qkey.

(** * Peers *)

Class AhDevice (W : Type) := {
  ah_create : bytes → Z → Z → W → result nat * W;
  ah_close : nat → W → result unit * W;
  ah_query_gid : Z → Z → W → result bytes * W;
}.

(** [Peer]; [pe_ah] is [None] once it is closed. *)
Record Peer := mk_Peer { pe_ah : option nat; pe_qp_num : Z; pe_qkey : Z }.

Section Peers.
Context {W : Type} `{!AhDevice W}.

Definition peer (e : EndpointInfo) (sgid_index port : Z) : M W Peer :=
  ah ← ah_create (ep_gid e) sgid_index port;
  mret (mk_Peer (Some ah) (ep_qp_num e) (ep_qkey e)).
Definition Peer_close (p : Peer) : M W Peer :=
  match pe_ah p with
  | None => mret p
  | Some ah => (ah_close ah : M W unit);; mret (mk_Peer None (pe_qp_num p) (pe_qkey p))
  end.
(** [gid]: what the caller passed, if anything. *)
Definition local_endpoint_info (qp_num qkey : Z) (gid : option bytes) (gid_index port : Z) :
    M W EndpointInfo :=
  raw ← match gid with Some g => mret g | None => ah_query_gid port gid_index end;
  lift (EndpointInfo_init raw qp_num qkey).
End Peers.

(** * Tensors *)

Definition _require_contiguous (t : Tensor) : result unit := Helpers._require_contiguous t.
Definition tensor_addr_len (t : Tensor) : result (Z * Z) :=
  _require_contiguous t;;
  match t_kind t with
  | TorchTensor p n e => Ok (p, n * e)
  | NumpyArray p n => Ok (p, n)
  | OtherObject => Raise TypeError
  end.
Definition reg_tensor {W R} (reg : Z → Z → Z → M W R) (t : Tensor) (access : Z) : M W R :=
  guard_raise (t_is_cuda t) ValueError;;
  an ← lift (tensor_addr_len t);
  guard_raise (an.2 <=? 0) ValueError;;
  reg an.1 an.2 access.

(** * Chunked RDMA *)

Inductive Opcode := RDMA_WRITE | RDMA_READ.

(** The fields that differ between the work requests of one operation; all are SIGNALED
    and go to the same peer. *)
Record SendWR := mk_SendWR {
  sw_wr_id : Z;
  sw_addr : Z;
  sw_length : Z;
  sw_lkey : Z;
  sw_opcode : Opcode;
  sw_remote_addr : Z;
  sw_rkey : Z;
}.
(** What is used of a memory region. *)
Record Region := mk_Region { rg_addr : Z; rg_length : Z; rg_lkey : Z }.

Section Chunks.
Context (opcode : Opcode) (mr : Region) (remote_addr rkey length offset chunk wr_id : Z).

(** The loop, from [pos]; [count] is [len(wrs)]. *)
Fixpoint chunk_loop (fuel : nat) (pos count : Z) : option (list SendWR) :=
  if pos <? length then
    match fuel with
    | O => None
    | S fuel =>
        let n := Z.min chunk (length - pos) in
        wrs ← chunk_loop fuel (pos + n) (count + 1);
        Some (mk_SendWR (wr_id + count) (rg_addr mr + offset + pos) n (rg_lkey mr) opcode
                (remote_addr + pos) rkey :: wrs)
    end
  else Some [].
End Chunks.

(** [None] is a loop that was still running after [length] rounds. *)
Definition _chunked_rdma_wrs (opcode : Opcode) (mr : Region) (remote_addr rkey : Z)
    (length : option Z) (offset chunk wr_id : Z) : result (option (list SendWR)) :=
  let length := default (rg_length mr - offset) length in
  raise_if (chunk <=? 0) ValueError;;
  raise_if ((offset <? 0) || (length <=? 0) || (rg_length mr <? offset + length)) ValueError;;
  Ok (chunk_loop opcode mr remote_addr rkey length offset chunk wr_id (Z.to_nat length) 0 0).

Definition write_wrs := _chunked_rdma_wrs RDMA_WRITE.
Definition read_wrs := _chunked_rdma_wrs RDMA_READ.

(** * Theorems *)

Definition endpoint_valid (e : EndpointInfo) : bool :=
  (length (ep_gid e) =? 16)%nat && (0 <=? ep_qp_num e) && (ep_qp_num e <=? 0xFFFFFF)
  && (0 <=? ep_qkey e) && (ep_qkey e <=? 0xFFFFFFFF).

Lemma EndpointInfo_init_spec gid qp_num qkey :
  EndpointInfo_init gid qp_num qkey =
    if endpoint_valid (mk_EndpointInfo gid qp_num qkey)
    then Ok (mk_EndpointInfo gid qp_num qkey) else Raise ValueError.
Proof.
  unfold EndpointInfo_init, endpoint_valid; cbn [ep_gid ep_qp_num ep_qkey].
  destruct (length gid =? 16)%nat; [|done]. cbn [negb andb]. repeat case_match; done || lia.
Qed.

Lemma EndpointInfo_to_bytes_ok e :
  endpoint_valid e = true →
  EndpointInfo_to_bytes e = Ok (ep_gid e ++ be 4 (ep_qp_num e) ++ be 4 (ep_qkey e)).
Proof.
  unfold endpoint_valid, EndpointInfo_to_bytes. intros Hv.
  by rewrite !pack_be_ok by (unfold in_uint; simpl; lia).
Qed.

(** An endpoint survives the wire: [from_bytes] reads back what [to_bytes] writes, and
    accepts only payloads that [to_bytes] writes. *)
Theorem EndpointInfo_roundtrip e data :
  (endpoint_valid e = true →
   ∃ b, EndpointInfo_to_bytes e = Ok b ∧ length b = EndpointInfo_size ∧
        EndpointInfo_from_bytes b = Ok e) ∧
  (wf_bytes data → EndpointInfo_from_bytes data = Ok e →
   endpoint_valid e = true ∧ EndpointInfo_to_bytes e = Ok data).
Proof.
  split.
  - intros Hv. destruct e as [g q k].
    assert (length g = 16%nat) as Hg by (unfold endpoint_valid in Hv; cbn in Hv; lia).
    exists (g ++ be 4 q ++ be 4 k). split; [by apply EndpointInfo_to_bytes_ok|].
    unfold endpoint_valid in Hv; cbn [ep_gid ep_qp_num ep_qkey] in Hv.
    assert (length (g ++ be 4 q ++ be 4 k) = 24%nat) as Hlen
      by (rewrite !length_app, !length_be; lia).
    split; [exact Hlen|]. unfold EndpointInfo_from_bytes, EndpointInfo_size. rewrite Hlen.
    cbn [negb Nat.eqb]. rewrite !unpack_be_ok by lia. cbv [mbind result_bind].
    rewrite (slice_app_skip 16 _ g), (slice_app_skip 20 _ g) by lia. rewrite Hg. cbn [Nat.sub].
    rewrite (slice_app_here 4 (be 4 q)) by apply length_be.
    rewrite (slice_app_skip 4 _ (be 4 q)) by (rewrite length_be; lia). rewrite length_be. cbn [Nat.sub].
    rewrite (slice_app_here 16 g) by done. rewrite slice_full by apply length_be.
    rewrite !be_val_be by (unfold in_uint; simpl; lia). rewrite EndpointInfo_init_spec.
    unfold endpoint_valid; cbn [ep_gid ep_qp_num ep_qkey]. by rewrite Hv.
  - intros Hwf. unfold EndpointInfo_from_bytes.
    destruct (Nat.eqb_spec (length data) EndpointInfo_size) as [Hlen|]; [|done].
    cbn [negb]. unfold EndpointInfo_size in Hlen. rewrite !unpack_be_ok by lia.
    cbv [mbind result_bind]. rewrite EndpointInfo_init_spec.
    destruct (endpoint_valid _) eqn:Hv; [|done]. intros [= <-]. split; [done|].
    rewrite EndpointInfo_to_bytes_ok by done. f_equal. cbn [ep_gid ep_qp_num ep_qkey].
    rewrite !be_be_val by (auto with wf_bytes || (apply length_slice; lia)).
    rewrite <- !slice_split. by apply slice_full.
Qed.

(** ** The chunks of an operation *)

Section ChunkTheorems.
Context (opcode : Opcode) (mr : Region) (remote_addr rkey length offset chunk wr_id : Z).
Context (Hchunk : 0 < chunk) (Hlength : 0 < length).
Local Abbreviation loop := (chunk_loop opcode mr remote_addr rkey length offset chunk wr_id).

(** The work request of chunk [i], and the number of chunks. *)
Definition chunk_wr (i : Z) : SendWR :=
  mk_SendWR (wr_id + i) (rg_addr mr + offset + i * chunk) (Z.min chunk (length - i * chunk))
    (rg_lkey mr) opcode (remote_addr + i * chunk) rkey.
Definition chunk_count : Z := (length + chunk - 1) `div` chunk.

Lemma chunk_count_spec : 0 < chunk_count ∧ (chunk_count - 1) * chunk < length ≤ chunk_count * chunk.
Proof using Hchunk Hlength.
  unfold chunk_count. pose proof (Z.div_mod (length + chunk - 1) chunk ltac:(lia)).
  pose proof (Z.mod_pos_bound (length + chunk - 1) chunk ltac:(lia)). split; nia.
Qed.

Lemma chunk_loop_spec (m : nat) fuel i :
  0 ≤ i → i + Z.of_nat m = chunk_count → (m ≤ fuel)%nat →
  loop fuel (Z.min (i * chunk) length) i = Some (chunk_wr <$> seqZ i (Z.of_nat m)).
Proof using Hchunk Hlength.
  pose proof chunk_count_spec as [_ Hc].
  revert fuel i. induction m as [|m IH]; intros fuel i Hi Hm Hfuel.
  { assert (i * chunk = chunk_count * chunk) by (f_equal; lia).
    destruct fuel; cbn [chunk_loop]; replace (_ <? _) with false by lia; done. }
  destruct fuel as [|fuel]; [lia|]. cbn [chunk_loop].
  assert (i * chunk ≤ (chunk_count - 1) * chunk) by nia.
  replace (Z.min (i * chunk) length) with (i * chunk) by lia.
  replace (i * chunk <? length) with true by lia.
  replace (i * chunk + Z.min chunk (length - i * chunk)) with (Z.min ((i + 1) * chunk) length) by lia.
  rewrite IH by lia. cbn [mbind option_bind]. rewrite (seqZ_cons i) by lia. cbn [fmap list_fmap].
  by replace (Z.pred (Z.of_nat (S m))) with (Z.of_nat m) by lia.
Qed.
End ChunkTheorems.

(** ** What the work requests do *)

(** Memory is bytes by address; a write puts local bytes into remote memory, a read
    remote bytes into local memory. *)
Record Mem := mk_Mem { m_local : Z → Z; m_remote : Z → Z }.
Definition copied (dst src n : Z) (from into : Z → Z) (a : Z) : Z :=
  if (dst <=? a) && (a <? dst + n) then from (src + (a - dst)) else into a.
Definition run_wr (m : Mem) (w : SendWR) : Mem :=
  match sw_opcode w with
  | RDMA_WRITE => mk_Mem (m_local m)
      (copied (sw_remote_addr w) (sw_addr w) (sw_length w) (m_local m) (m_remote m))
  | RDMA_READ => mk_Mem
      (copied (sw_addr w) (sw_remote_addr w) (sw_length w) (m_remote m) (m_local m)) (m_remote m)
  end.

(** Ranges of the destination, as addresses of one side. *)
Definition covers (side : SendWR → Z) (a : Z) (w : SendWR) : Prop := side w ≤ a < side w + sw_length w.
#[local] Instance covers_dec side a w : Decision (covers side a w).
Proof. unfold covers. apply _. Defined.

(** Work requests that move all by the same distance: in any order, an address of the
    destination that one of them covers holds its source, any other what it held. *)
Lemma run_writes delta l m :
  Forall (λ w, sw_opcode w = RDMA_WRITE ∧ sw_addr w = sw_remote_addr w + delta) l →
  m_local (foldl run_wr m l) = m_local m ∧
  ∀ a, m_remote (foldl run_wr m l) a =
    if decide (Exists (covers sw_remote_addr a) l) then m_local m (a + delta) else m_remote m a.
Proof.
  intros Hl. revert m. induction Hl as [|w l [Ho Ha] _ IH]; intros m; cbn [foldl].
  { split; [done|]. intros a. rewrite decide_False; [done|]. by intros ?%Exists_nil. }
  destruct (IH (run_wr m w)) as [H1 H2]. unfold run_wr in *. rewrite Ho in *. cbn in *.
  split; [exact H1|]. intros a. rewrite H2. clear IH H1 H2.
  destruct (decide (Exists _ l)) as [Hl'|Hl'].
  { rewrite decide_True; [done|]. by apply Exists_cons_tl. }
  unfold copied. destruct (_ && _) eqn:E.
  - rewrite decide_True; [f_equal; lia|]. apply Exists_cons_hd. unfold covers. lia.
  - rewrite decide_False; [done|]. intros [Hc|Hc]%Exists_cons; [unfold covers in Hc; lia|done].
Qed.
Lemma run_reads delta l m :
  Forall (λ w, sw_opcode w = RDMA_READ ∧ sw_addr w = sw_remote_addr w + delta) l →
  m_remote (foldl run_wr m l) = m_remote m ∧
  ∀ a, m_local (foldl run_wr m l) a =
    if decide (Exists (covers sw_addr a) l) then m_remote m (a - delta) else m_local m a.
Proof.
  intros Hl. revert m. induction Hl as [|w l [Ho Ha] _ IH]; intros m; cbn [foldl].
  { split; [done|]. intros a. rewrite decide_False; [done|]. by intros ?%Exists_nil. }
  destruct (IH (run_wr m w)) as [H1 H2]. unfold run_wr in *. rewrite Ho in *. cbn in *.
  split; [exact H1|]. intros a. rewrite H2. clear IH H1 H2.
  destruct (decide (Exists _ l)) as [Hl'|Hl'].
  { rewrite decide_True; [done|]. by apply Exists_cons_tl. }
  unfold copied. destruct (_ && _) eqn:E.
  - rewrite decide_True; [f_equal; lia|]. apply Exists_cons_hd. unfold covers. lia.
  - rewrite decide_False; [done|]. intros [Hc|Hc]%Exists_cons; [unfold covers in Hc; lia|done].
Qed.

Section Moves.
Context (opcode : Opcode) (mr : Region) (remote_addr rkey length offset chunk wr_id : Z).
Context (Hchunk : 0 < chunk) (Hlength : 0 < length).
Local Abbreviation wr := (chunk_wr opcode mr remote_addr rkey length offset chunk wr_id).
Local Abbreviation all := (wr <$> seqZ 0 (chunk_count length chunk)).

(** The chunks cover the whole range. *)
Lemma chunks_cover side base l a :
  (∀ i, side (wr i) = base + i * chunk) → l ≡ₚ all →
  Exists (covers side a) l ↔ base ≤ a < base + length.
Proof using Hchunk Hlength.
  intros Hside Hl. pose proof (chunk_count_spec length chunk Hchunk Hlength) as [_ Hc].
  rewrite Exists_exists. setoid_rewrite Hl. setoid_rewrite list_elem_of_fmap.
  setoid_rewrite elem_of_seqZ. unfold covers. split.
  - intros (w & (i & -> & Hi) & Hcov). rewrite Hside in Hcov. cbn in Hcov. nia.
  - intros Ha. set (i := (a - base) `div` chunk).
    pose proof (Z.div_mod (a - base) chunk ltac:(lia)).
    pose proof (Z.mod_pos_bound (a - base) chunk Hchunk).
    assert (0 ≤ i) by (subst i; apply Z.div_pos; lia).
    exists (wr i). split; [exists i; split; [done|subst i; nia]|].
    rewrite Hside. cbn. subst i. nia.
Qed.

Lemma chunks_move m l :
  l ≡ₚ all →
  let one := mk_SendWR wr_id (rg_addr mr + offset) length (rg_lkey mr) opcode remote_addr rkey in
  ∀ a, m_local (foldl run_wr m l) a = m_local (run_wr m one) a ∧
       m_remote (foldl run_wr m l) a = m_remote (run_wr m one) a.
Proof using Hchunk Hlength.
  intros Hl one a. set (delta := rg_addr mr + offset - remote_addr).
  assert (Hf : Forall (λ w, sw_opcode w = opcode ∧ sw_addr w = sw_remote_addr w + delta) l).
  { rewrite Hl, Forall_fmap. apply Forall_forall. intros i _. split; [done|]. cbn. subst delta. lia. }
  pose proof (chunks_cover sw_remote_addr remote_addr l a (λ _, eq_refl) Hl) as Hr.
  pose proof (chunks_cover sw_addr (rg_addr mr + offset) l a (λ _, eq_refl) Hl) as Hw.
  clear Hl. destruct opcode.
  - destruct (run_writes delta l m Hf) as [H1 H2]. rewrite H1, H2. split; [done|].
    cbn. unfold copied. case_decide as Hd; rewrite Hr in Hd; destruct (_ && _) eqn:E; try lia; try done;
    f_equal; subst delta; lia.
  - destruct (run_reads delta l m Hf) as [H1 H2]. rewrite H1, H2. split; [|done].
    cbn. unfold copied. case_decide as Hd; rewrite Hw in Hd; destruct (_ && _) eqn:E; try lia; try done;
    f_equal; subst delta; lia.
Qed.
End Moves.


(** A thousand bytes in chunks of 300: four work requests. *)
Example four_chunks :
  match write_wrs (mk_Region 4096 2000 7) 65536 9 (Some 1000) 24 300 40 with
  | Ok (Some wrs) =>
      (sw_wr_id <$> wrs = [40; 41; 42; 43]) ∧ (sw_length <$> wrs = [300; 300; 300; 100]) ∧
      (sw_addr <$> wrs = [4120; 4420; 4720; 5020]) ∧
      (sw_remote_addr <$> wrs = [65536; 65836; 66136; 66436])
  | _ => False
  end.
Proof. vm_compute. done. Qed.
