(* ===== verification/ReadScheduler.v ===== *)
(** The pipelined multi-QP scheduler of RDMA reads and writes:
    src/ibverbs/src/ibverbs/read_scheduler.py.

    A scheduler is a record [Sched] over an abstract environment [W] whose
    operations are the class [SchedDevice] (queue pairs, completion queues, the
    completion callback, sleeping) with a [Clock].  Batches are objects that the
    caller and the scheduler share: they live in [s_batches] and are named by
    their index.  [s_trace] is not a field of the source: it records the work
    requests each successful [post_send] was handed and the callbacks that were
    called, in order, so that theorems can speak of them.  Times are integer
    ticks.  A callback does not re-enter the scheduler. *)

From S2P Require Import Prelude Bytes Verbs Helpers.
#[local] Open Scope Z_scope.

Definition _MAX_SGE_LENGTH : Z := Z.shiftl 1 32 - 1.
Definition _MAX_WR_ID : Z := Z.shiftl 1 64 - 1.

(** * Requests and chunks *)

(** [RdmaReadRequest], or [RdmaWriteRequest] when [rr_is_write]. *)
Record RdmaRequest := mk_RdmaRequest {
  rr_is_write : bool;
  rr_local_mr : Z;
  rr_remote_addr : Z;
  rr_rkey : Z;
  rr_length : Z;
  rr_local_offset : Z;
  rr_remote_offset : Z;
}.

(** [__post_init__]: [has_sge] is [hasattr(self.local_mr, "sge")]. *)
Definition RdmaRequest_init (is_write has_sge : bool)
    (local_mr remote_addr rkey length local_offset remote_offset : Z) :
    result RdmaRequest :=
  if negb has_sge then Raise TypeError else
  if (remote_addr <? 0) || (_MAX_WR_ID <? remote_addr) then Raise ValueError else
  if (rkey <? 0) || (_MAX_SGE_LENGTH <? rkey) then Raise ValueError else
  if length <=? 0 then Raise ValueError else
  if local_offset <? 0 then Raise ValueError else
  if remote_offset <? 0 then Raise ValueError else
  if _MAX_WR_ID + 1 <? remote_addr + remote_offset + length then Raise ValueError else
  Ok (mk_RdmaRequest is_write local_mr remote_addr rkey length local_offset
        remote_offset).

Record Chunk := mk_Chunk {
  ck_request_index : nat;
  ck_request : RdmaRequest;
  ck_offset : Z;
  ck_length : Z;
}.

Record Pending := mk_Pending { pd_qp_index : nat; pd_chunk : Chunk }.

(** The work request posted for a chunk. *)
Record WR := mk_WR {
  wr_wr_id : Z;
  wr_local_mr : Z;
  wr_length : Z;
  wr_local_offset : Z;
  wr_is_write : bool;
  wr_remote_addr : Z;
  wr_rkey : Z;
}.

(** [range(0, n, step)] for a positive step. *)
Definition range_step (n step : Z) : list Z :=
  (λ k, k * step) <$> seqZ 0 ((n + step - 1) `div` step).

(** The chunks of one request: [for offset in range(0, length, chunk_size)]. *)
Definition request_chunks (chunk_size : Z) (i : nat) (r : RdmaRequest) : list Chunk :=
  (λ offset, mk_Chunk i r offset (Z.min chunk_size (rr_length r - offset)))
    <$> range_step (rr_length r) chunk_size.

(** What the generator [_iter_chunks] yields. *)
Definition _iter_chunks (chunk_size : Z) (requests : list RdmaRequest) : list Chunk :=
  concat (imap (request_chunks chunk_size) requests).

Definition chunk_wr (wr_id : Z) (c : Chunk) : WR :=
  let r := ck_request c in
  mk_WR wr_id (rr_local_mr r) (ck_length c) (rr_local_offset r + ck_offset c)
    (rr_is_write r) (rr_remote_addr r + rr_remote_offset r + ck_offset c) (rr_rkey r).

(** [sum(math.ceil(request.length / self.chunk_size))]; the source divides as
    floats, which is exact for the lengths below 2^53 and is modelled as the
    exact quotient rounded up. *)
Definition total_chunks_of (chunk_size : Z) (requests : list RdmaRequest) : Z :=
  foldr (λ r n, (rr_length r + chunk_size - 1) `div` chunk_size + n) 0 requests.

(** * Batches and the scheduler *)

(** The [on_complete] argument. *)
Inductive callback := NoCallback | Callback | NotCallable.

#[global] Instance callback_eq_dec : EqDecision callback.
Proof. solve_decision. Defined.

Record Batch := mk_Batch {
  b_requests : list RdmaRequest;
  b_total_bytes : Z;
  b_total_chunks : Z;
  b_completed_bytes : Z;
  b_completed_chunks : Z;
  b_error : option exn;
  b_on_complete : callback;
  b_callback_called : bool;
  b_done : bool;
}.

Definition Batch_init (requests : list RdmaRequest) (total_chunks : Z)
    (on_complete : callback) : Batch :=
  mk_Batch requests (foldr (λ r n, rr_length r + n) 0 requests) total_chunks 0 0
    None on_complete false false.

(** [RdmaReadBatch.raise_for_status] *)
Definition batch_raise_for_status (b : Batch) : result unit :=
  match b_error b with Some e => Raise e | None => Ok tt end.

Definition batch_failed (b : Batch) : bool :=
  match b_error b with Some _ => true | None => false end.

Inductive event :=
| EPost (qp : nat) (wr : WR)
| ECallback (batch : nat).

(** What the constructor fixes. *)
Record Config := mk_Config {
  cf_qp_count : nat;
  cf_queue_depth : Z;
  cf_chunk_size : Z;
  cf_poll_batch : Z;
}.

Record Sched (W : Type) := mk_Sched {
  s_cfg : Config;
  s_context : bool;
  s_owns : bool;
  s_batches : list Batch;
  s_active : option nat;
  s_iter : list Chunk;
  s_exhausted : bool;
  s_pending : gmap Z Pending;
  s_outstanding : list Z;
  s_next_wr_id : Z;
  s_closed : bool;
  s_poisoned : bool;
  s_trace : list event;
  s_world : W;
}.
Arguments mk_Sched {W}.
Arguments s_cfg {W}. Arguments s_context {W}. Arguments s_owns {W}.
Arguments s_batches {W}. Arguments s_active {W}. Arguments s_iter {W}.
Arguments s_exhausted {W}. Arguments s_pending {W}. Arguments s_outstanding {W}.
Arguments s_next_wr_id {W}. Arguments s_closed {W}. Arguments s_poisoned {W}.
Arguments s_trace {W}. Arguments s_world {W}.

(** The calls out of the scheduler.  Queue pairs and completion queues are
    named by their index. *)
Class SchedDevice (W : Type) := {
  dev_sge : Z → Z → Z → M W unit;
  dev_post_send : nat → list WR → M W unit;
  dev_poll : nat → Z → M W (list WC);
  dev_close_qp : nat → M W unit;
  dev_close_cq : nat → M W unit;
  dev_on_complete : nat → M W unit;
  dev_sleep : Z → M W unit;
  dev_create_cq : Z → M W unit;
  dev_create_qp : Z → Z → M W unit;
  dev_qp_num : nat → Z;
  dev_qp_has_context : W → bool;
  dev_max_qp_rd_atom : M W Z;
}.

Section Setters.
Context {W : Type}.

Definition set_world (w : W) (s : Sched W) : Sched W := mk_Sched (s_cfg s) (s_context s) (s_owns s) (s_batches s)
  (s_active s) (s_iter s) (s_exhausted s) (s_pending s) (s_outstanding s)
  (s_next_wr_id s) (s_closed s) (s_poisoned s) (s_trace s) w.
Definition set_context c (s : Sched W) : Sched W := mk_Sched (s_cfg s) c (s_owns s) (s_batches s)
  (s_active s) (s_iter s) (s_exhausted s) (s_pending s) (s_outstanding s)
  (s_next_wr_id s) (s_closed s) (s_poisoned s) (s_trace s) (s_world s).
Definition set_batches l (s : Sched W) : Sched W := mk_Sched (s_cfg s) (s_context s) (s_owns s) l
  (s_active s) (s_iter s) (s_exhausted s) (s_pending s) (s_outstanding s)
  (s_next_wr_id s) (s_closed s) (s_poisoned s) (s_trace s) (s_world s).
Definition set_input a i x (s : Sched W) : Sched W := mk_Sched (s_cfg s) (s_context s) (s_owns s)
  (s_batches s) a i x (s_pending s) (s_outstanding s) (s_next_wr_id s)
  (s_closed s) (s_poisoned s) (s_trace s) (s_world s).
Definition set_pending p o (s : Sched W) : Sched W := mk_Sched (s_cfg s) (s_context s) (s_owns s)
  (s_batches s) (s_active s) (s_iter s) (s_exhausted s) p o (s_next_wr_id s)
  (s_closed s) (s_poisoned s) (s_trace s) (s_world s).
Definition set_next n (s : Sched W) : Sched W := mk_Sched (s_cfg s) (s_context s) (s_owns s) (s_batches s)
  (s_active s) (s_iter s) (s_exhausted s) (s_pending s) (s_outstanding s) n
  (s_closed s) (s_poisoned s) (s_trace s) (s_world s).
Definition set_flags o c p (s : Sched W) : Sched W := mk_Sched (s_cfg s) (s_context s) o (s_batches s)
  (s_active s) (s_iter s) (s_exhausted s) (s_pending s) (s_outstanding s)
  (s_next_wr_id s) c p (s_trace s) (s_world s).
Definition set_trace t (s : Sched W) : Sched W := mk_Sched (s_cfg s) (s_context s) (s_owns s) (s_batches s)
  (s_active s) (s_iter s) (s_exhausted s) (s_pending s) (s_outstanding s)
  (s_next_wr_id s) (s_closed s) (s_poisoned s) t (s_world s).

(** Run an operation of the environment. *)
Definition dev {A} (m : M W A) : M (Sched W) A := λ s,
  let '(r, w) := m (s_world s) in (r, set_world w s).
End Setters.

Definition set_b_error e b := mk_Batch (b_requests b) (b_total_bytes b)
  (b_total_chunks b) (b_completed_bytes b) (b_completed_chunks b) (Some e)
  (b_on_complete b) (b_callback_called b) (b_done b).
Definition set_b_done b := mk_Batch (b_requests b) (b_total_bytes b)
  (b_total_chunks b) (b_completed_bytes b) (b_completed_chunks b) (b_error b)
  (b_on_complete b) (b_callback_called b) true.
Definition set_b_called b := mk_Batch (b_requests b) (b_total_bytes b)
  (b_total_chunks b) (b_completed_bytes b) (b_completed_chunks b) (b_error b)
  (b_on_complete b) true (b_done b).
Definition add_b_completed n b := mk_Batch (b_requests b) (b_total_bytes b)
  (b_total_chunks b) (b_completed_bytes b + n) (b_completed_chunks b + 1) (b_error b)
  (b_on_complete b) (b_callback_called b) (b_done b).

(** * Operations *)

(** An entry of [posts]: the id, the chunk and its work request. *)
Abbreviation Post := (Z * Chunk * WR)%type.

Section Scheduler.
Context {W : Type} `{!SchedDevice W} `{!Clock W} `{!RcQp nat W}.
Abbreviation SM := (M (Sched W)).

Definition _ensure_usable : SM unit :=
  s ← get;
  if s_closed s then raise RuntimeError else
  if s_poisoned s then raise RuntimeError else mret tt.

(** [reversed(self.qps)] then [reversed(self.cqs)], the first error kept. *)
Definition close_each (close : nat → M W unit) (ids : list nat)
    (first_error : option exn) : SM (option exn) :=
  foldr (λ i (k : option exn → SM (option exn)) first_error,
      first_error ← try_except (dev (close i);; mret first_error)
                      (λ e, mret (Some (default e first_error)));
      k first_error) mret ids first_error.

Definition _close_owned (suppress : bool) : SM unit :=
  s ← get;
  if negb (s_owns s) then mret tt else
  let ids := reverse (seq 0 (cf_qp_count (s_cfg s))) in
  first_error ← close_each dev_close_qp ids None;
  first_error ← close_each dev_close_cq ids first_error;
  modify (λ s, set_flags false (s_closed s) (s_poisoned s) s);;
  match first_error with
  | Some e => if suppress then mret tt else raise e
  | None => mret tt
  end.

Definition _poison_resources : SM unit :=
  modify (λ s, set_flags (s_owns s) (s_closed s) true s);;
  s ← get;
  if s_owns s then
    modify (λ s, set_flags (s_owns s) true (s_poisoned s) s);;
    _close_owned true
  else mret tt.

(** [[0] * self.qp_count] *)
Definition no_outstanding (s : Sched W) : list Z := replicate (cf_qp_count (s_cfg s)) 0.

Definition update_batch (bid : nat) (f : Batch → Batch) : SM unit :=
  modify (λ s, set_batches (alter f bid (s_batches s)) s).

(** The fields of a batch object; every batch the caller holds is one of
    [s_batches]. *)
Definition get_batch (bid : nat) : SM Batch :=
  s ← get;
  match s_batches s !! bid with Some b => mret b | None => raise ValueError end.

Definition raise_batch_status (bid : nat) : SM unit :=
  b ← get_batch bid; lift (batch_raise_for_status b).

(** [isinstance(error, (RdmaReadError, TimeoutError))] *)
Definition keeps_class (e : exn) : bool :=
  match e with RdmaReadError => true | _ => is_TimeoutError e end.

Definition _fail_transport (bid : nat) (error : exn) (message : bool) : SM unit :=
  let error := if message && negb (keeps_class error) then RdmaReadError else error in
  update_batch bid (λ b, set_b_done (set_b_error error b));;
  modify (set_input None [] true);;
  modify (λ s, set_pending ∅ (no_outstanding s) s);;
  _poison_resources.

Definition _finish_success (bid : nat) : SM unit :=
  update_batch bid set_b_done;;
  modify (λ s, set_input None [] (s_exhausted s) s);;
  b ← get_batch bid;
  match b_on_complete b with
  | NoCallback => mret tt
  | _ =>
      if b_callback_called b then mret tt else
      update_batch bid set_b_called;;
      try_except
        (dev (dev_on_complete bid);;
         modify (λ s, set_trace (s_trace s ++ [ECallback bid]) s))
        (λ e, modify (λ s, set_trace (s_trace s ++ [ECallback bid]) s);;
              update_batch bid (set_b_error e))
  end.

(** One round of [_allocate_wr_id]'s loop per unit of fuel. *)
Fixpoint alloc_loop (fuel : nat) : SM Z :=
  match fuel with
  | O => raise RdmaReadError
  | S fuel =>
      s ← get;
      let wr_id := s_next_wr_id s in
      modify (set_next (if wr_id =? _MAX_WR_ID then 1 else wr_id + 1));;
      match s_pending s !! wr_id with
      | None => mret wr_id
      | Some _ => alloc_loop fuel
      end
  end.

(** The source goes round at most [_MAX_WR_ID] times; one round more than there
    are pending ids gives the same result ([alloc_loop_stable]) and can be
    evaluated. *)
Definition _allocate_wr_id : SM Z :=
  s ← get;
  alloc_loop (Z.to_nat (Z.min _MAX_WR_ID (Z.of_nat (size (s_pending s)) + 1))).

Definition outstanding_of (s : Sched W) (i : nat) : Z := default 0 (s_outstanding s !! i).
Definition posts_of (posts : list (list Post)) (i : nat) : list Post :=
  default [] (posts !! i).

(** [next(self._chunk_iter)], [_allocate_wr_id] and the work request. *)
Definition next_post (chunk : Chunk) (rest : list Chunk) : SM Post :=
  modify (λ s, set_input (s_active s) rest (s_exhausted s) s);;
  wr_id ← _allocate_wr_id;
  let wr := chunk_wr wr_id chunk in
  dev (dev_sge (wr_local_mr wr) (wr_length wr) (wr_local_offset wr));;
  mret (wr_id, chunk, wr).

(** [for qp_index in range(self.qp_count)]: the posts so far and
    [made_progress]. *)
Fixpoint refill_pass (idx : list nat) (posts : list (list Post)) (made : bool) :
    SM (list (list Post) * bool) :=
  match idx with
  | [] => mret (posts, made)
  | i :: idx =>
      s ← get;
      if cf_queue_depth (s_cfg s) <=? outstanding_of s i + Z.of_nat (length (posts_of posts i))
      then refill_pass idx posts made
      else
        match s_iter s with
        | [] => modify (λ s, set_input (s_active s) [] true s);; mret (posts, made)
        | chunk :: rest =>
            p ← next_post chunk rest;
            refill_pass idx (alter (λ l, l ++ [p]) i posts) true
        end
  end.

(** [while not self._input_exhausted and made_progress]: each round but the
    last consumes a chunk, so one round more than there are chunks is enough
    ([wp_refill_stage] has no case for the fuel). *)
Fixpoint refill_stage (fuel : nat) (posts : list (list Post)) (made : bool) :
    SM (list (list Post)) :=
  s ← get;
  if s_exhausted s || negb made then mret posts else
  match fuel with
  | O => mret posts
  | S fuel =>
      pm ← refill_pass (seq 0 (cf_qp_count (s_cfg s))) posts false;
      refill_stage fuel pm.1 pm.2
  end.

Definition post_queue (i : nat) (queued : list Post) : SM unit :=
  match queued with
  | [] => mret tt
  | _ =>
      modify (λ s, set_pending
        (foldl (λ p q, <[q.1.1 := mk_Pending i q.1.2]> p) (s_pending s) queued)
        (s_outstanding s) s);;
      dev (dev_post_send i (snd <$> queued));;
      modify (λ s, set_trace (s_trace s ++ (EPost i ∘ snd <$> queued)) s);;
      modify (λ s, set_pending (s_pending s)
        (alter (λ n, n + Z.of_nat (length queued)) i (s_outstanding s)) s)
  end.

Fixpoint post_all (i : nat) (posts : list (list Post)) : SM unit :=
  match posts with
  | [] => mret tt
  | queued :: posts => post_queue i queued;; post_all (S i) posts
  end.

Definition _refill : SM unit :=
  s ← get;
  posts ← refill_stage (S (S (length (s_iter s))))
            (replicate (cf_qp_count (s_cfg s)) []) true;
  post_all 0 posts.

(** [submit]: [None] in [requests] is an object of another class. *)
Definition submit (requests : list (option RdmaRequest)) (on_complete : callback) :
    SM nat :=
  _ensure_usable;;
  s ← get;
  match s_active s with
  | Some _ => raise RuntimeError
  | None =>
      match on_complete with NotCallable => raise TypeError | _ => mret tt end;;
      match mapM id requests with
      | None => raise TypeError
      | Some request_tuple =>
          let chunk_size := cf_chunk_size (s_cfg s) in
          let total_chunks := total_chunks_of chunk_size request_tuple in
          let bid := length (s_batches s) in
          modify (λ s, set_batches
            (s_batches s ++ [Batch_init request_tuple total_chunks on_complete]) s);;
          modify (set_input (Some bid) (_iter_chunks chunk_size request_tuple)
            (total_chunks =? 0));;
          if total_chunks =? 0 then _finish_success bid;; mret bid
          else
            try_except _refill
              (λ e, _fail_transport bid e true;; raise_batch_status bid);;
            mret bid
      end
  end.

(** The body of [for wc in cq.poll(count)]. *)
Definition route_wc (bid qp_index : nat) (wc : WC) : SM unit :=
  s ← get;
  match s_pending s !! wc_wr_id wc with
  | None => raise RdmaReadError
  | Some pending =>
      modify (λ s, set_pending (delete (wc_wr_id wc) (s_pending s)) (s_outstanding s) s);;
      guard_raise (negb (pd_qp_index pending =? qp_index)%nat) RdmaReadError;;
      modify (λ s, set_pending (s_pending s)
        (alter (λ n, n - 1) qp_index (s_outstanding s)) s);;
      lift (wc_raise_for_status wc);;
      update_batch bid (add_b_completed (ck_length (pd_chunk pending)))
  end.

(** [for qp_index, cq in enumerate(self.cqs)]; returns [completed]. *)
Fixpoint poll_cqs (bid : nat) (idx : list nat) (completed : Z) : SM Z :=
  match idx with
  | [] => mret completed
  | i :: idx =>
      s ← get;
      let count := Z.min (cf_poll_batch (s_cfg s)) (outstanding_of s i) in
      if count =? 0 then poll_cqs bid idx completed else
      wcs ← dev (dev_poll i count);
      for_each (route_wc bid i) wcs;;
      poll_cqs bid idx (completed + Z.of_nat (length wcs))
  end.

Definition _validate_batch (bid : nat) : SM unit :=
  b ← get_batch bid;
  s ← get;
  guard_raise (negb (b_done b) && negb (bool_decide (s_active s = Some bid))) ValueError.

Definition progress_body (bid : nat) : SM Z :=
  s ← get;
  completed ← poll_cqs bid (seq 0 (cf_qp_count (s_cfg s))) 0;
  (if negb (completed =? 0) then _refill else mret tt);;
  s ← get;
  (if s_exhausted s && bool_decide (s_pending s = ∅) then _finish_success bid
   else mret tt);;
  mret completed.

Definition progress (bid : nat) : SM Z :=
  _validate_batch bid;;
  b ← get_batch bid;
  if b_done b then raise_batch_status bid;; mret 0
  else
    try_except (progress_body bid)
      (λ e, _fail_transport bid e true;; raise_batch_status bid;; mret 0).

Definition monotonic : SM Z := λ s,
  let '(t, w) := dev_clock (s_world s) in (Ok t, set_world w s).

Definition _validate_wait_options (timeout : option Z) (idle_sleep : Z) : SM unit :=
  guard_raise (match timeout with Some t => t <=? 0 | None => false end) ValueError;;
  guard_raise (idle_sleep <? 0) ValueError.

(** One round of [while not batch.done].  [always_sleep] is the asynchronous
    wait, which yields to its event loop every round. *)
Definition wait_round (always_sleep : bool) (bid : nat) (deadline : option Z)
    (idle_sleep : Z) : SM (option unit) :=
  b ← get_batch bid;
  if b_done b then mret (Some tt) else
  completed ← progress bid;
  b ← get_batch bid;
  if b_done b then mret (Some tt) else
  match deadline with
  | None => mret tt
  | Some d =>
      t ← monotonic;
      if d <=? t then
        _fail_transport bid RdmaReadTimeout false;; raise_batch_status bid
      else mret tt
  end;;
  (if always_sleep || ((completed =? 0) && negb (idle_sleep =? 0))
   then dev (dev_sleep idle_sleep) else mret tt);;
  mret None.

(** [wait], and [wait_async] with [always_sleep]. *)
Definition wait_with (always_sleep : bool) (fuel : nat) (bid : nat)
    (timeout : option Z) (idle_sleep : Z) : SM (option nat) :=
  _validate_wait_options timeout idle_sleep;;
  deadline ← match timeout with
             | None => mret None
             | Some t => now ← monotonic; mret (Some (now + t))
             end;
  o ← try_except (while_loop fuel (wait_round always_sleep bid deadline idle_sleep))
        (λ e, b ← get_batch bid;
              (if b_done b then mret tt else _fail_transport bid e false);;
              raise e);
  match o with
  | None => mret None
  | Some _ => raise_batch_status bid;; mret (Some bid)
  end.
Definition wait := wait_with false.
Definition wait_async := wait_with true.

(** [isinstance(request, RdmaReadRequest)] and not a write; a write. *)
Definition is_read (o : option RdmaRequest) : bool :=
  match o with Some r => negb (rr_is_write r) | None => false end.
Definition is_write (o : option RdmaRequest) : bool :=
  match o with Some r => rr_is_write r | None => false end.

Definition many (always_sleep : bool) (ok : option RdmaRequest → bool) (fuel : nat)
    (requests : list (option RdmaRequest)) (timeout : option Z) (idle_sleep : Z)
    (on_complete : callback) : SM (option nat) :=
  guard_raise (negb (forallb ok requests)) TypeError;;
  bid ← submit requests on_complete;
  wait_with always_sleep fuel bid timeout idle_sleep.
Definition read_many := many false is_read.
Definition read_many_async := many true is_read.
Definition write_many := many false is_write.
Definition write_many_async := many true is_write.

Definition close : SM unit :=
  s ← get;
  if s_closed s then mret tt else
  match s_active s with
  | Some bid =>
      b ← get_batch bid;
      if b_done b then mret tt
      else update_batch bid (λ b, set_b_done (set_b_error RdmaReadError b))
  | None => mret tt
  end;;
  modify (λ s, set_input None (s_iter s) (s_exhausted s) s);;
  modify (λ s, set_pending ∅ (no_outstanding s) s);;
  modify (λ s, set_flags (s_owns s) true (s_poisoned s) s);;
  _close_owned false.

(** ** Construction and connection *)

(** [__init__]: [callable_clock] is [callable(clock)]. *)
Definition Sched_init (qps cqs : nat) (queue_depth chunk_size : Z)
    (poll_batch : option Z) (context owns callable_clock : bool) (w : W) :
    result (Sched W) :=
  if (qps =? 0)%nat then Raise ValueError else
  if negb (qps =? cqs)%nat then Raise ValueError else
  if queue_depth <=? 0 then Raise ValueError else
  if (chunk_size <=? 0) || (_MAX_SGE_LENGTH <? chunk_size) then Raise ValueError else
  let poll_batch := default queue_depth poll_batch in
  if poll_batch <=? 0 then Raise ValueError else
  if negb callable_clock then Raise TypeError else
  Ok (mk_Sched (mk_Config qps queue_depth chunk_size poll_batch) context owns
        [] None [] true ∅ (replicate qps 0) 1 false false [] w).

(** The [except BaseException] of [create]: close what was allocated, newest
    first; a close that raises replaces the error. *)
Definition create_cleanup (qps cqs : nat) : M W unit :=
  for_each dev_close_qp (reverse (seq 0 qps));;
  for_each dev_close_cq (reverse (seq 0 cqs)).

Fixpoint create_loop (queue_depth cq_slack : Z) (n i : nat) : M W unit :=
  match n with
  | O => mret tt
  | S n =>
      try_except (dev_create_cq (queue_depth + cq_slack))
        (λ e, create_cleanup i i;; raise e);;
      try_except (dev_create_qp (queue_depth + cq_slack) (Z.max 1 cq_slack))
        (λ e, create_cleanup i (S i);; raise e);;
      create_loop queue_depth cq_slack n (S i)
  end.

Definition create (qp_count queue_depth chunk_size : Z) (poll_batch : option Z)
    (cq_slack : Z) (pd_in_context callable_clock : bool) : M W (Sched W) :=
  guard_raise (qp_count <=? 0) ValueError;;
  guard_raise (queue_depth <=? 0) ValueError;;
  guard_raise ((chunk_size <=? 0) || (_MAX_SGE_LENGTH <? chunk_size)) ValueError;;
  guard_raise (match poll_batch with Some p => p <=? 0 | None => false end) ValueError;;
  guard_raise (cq_slack <? 0) ValueError;;
  guard_raise (negb pd_in_context) ValueError;;
  create_loop queue_depth cq_slack (Z.to_nat qp_count) 0;;
  w ← get;
  lift (Sched_init (Z.to_nat qp_count) (Z.to_nat qp_count) queue_depth chunk_size
          poll_batch true true callable_clock w).

(** One value for every queue pair, from an int or a sequence. *)
Definition _per_qp_values (values : Z + list Z) : SM (list Z) :=
  s ← get;
  match values with
  | inl v => mret (replicate (cf_qp_count (s_cfg s)) v)
  | inr l =>
      guard_raise (negb (length l =? cf_qp_count (s_cfg s))%nat) ValueError;;
      mret l
  end.

Definition local_infos (lid active_mtu : Z) (gid : bytes) (port : Z)
    (psns : Z + list Z) : SM (list QPInfo) :=
  _ensure_usable;;
  values ← _per_qp_values psns;
  lift (mapM (M := result) (λ qv, local_qp_info (dev_qp_num qv.1) lid active_mtu gid port qv.2)
          (zip (seq 0 (length values)) values)).

(** The limit on outstanding reads used when one is left out. *)
Definition rd_atomic_limit : SM Z :=
  s ← get;
  let depth := cf_queue_depth (s_cfg s) in
  if s_context s then
    max_qp_rd_atom ← dev dev_max_qp_rd_atom;
    mret (Z.min depth (Z.max 1 max_qp_rd_atom))
  else mret depth.

Definition connect_one (port sgid_index access : Z) (mtu : option Z)
    (max_rd_atomic max_dest_rd_atomic timeout retry_cnt rnr_retry : Z)
    (q : nat * QPInfo * Z) : SM unit :=
  let '(qp, remote, psn) := q in
  negotiated_mtu ← dev (negotiate_mtu qp remote port mtu);
  dev (qp_to_init qp port access);;
  dev (qp_to_rtr qp remote sgid_index negotiated_mtu (Some max_dest_rd_atomic));;
  dev (qp_to_rts qp psn (mk_RtsArgs (Some timeout) (Some retry_cnt) (Some rnr_retry)
         (Some max_rd_atomic))).

Definition connect (remote_infos : list QPInfo) (port sgid_index access : Z)
    (local_psns : Z + list Z) (mtu max_rd_atomic max_dest_rd_atomic : option Z)
    (timeout retry_cnt rnr_retry : Z) : SM unit :=
  _ensure_usable;;
  s ← get;
  guard_raise (negb (length remote_infos =? cf_qp_count (s_cfg s))%nat) ValueError;;
  psns ← _per_qp_values local_psns;
  modify (λ s, if s_context s then s else set_context (dev_qp_has_context (s_world s)) s);;
  limits ← match max_rd_atomic, max_dest_rd_atomic with
           | Some a, Some b => mret (a, b)
           | _, _ =>
               limit ← rd_atomic_limit;
               mret (default limit max_rd_atomic, default limit max_dest_rd_atomic)
           end;
  guard_raise (negb ((1 <=? limits.1) && (limits.1 <=? 255))) ValueError;;
  guard_raise (negb ((1 <=? limits.2) && (limits.2 <=? 255))) ValueError;;
  try_except
    (for_each (connect_one port sgid_index access mtu limits.1 limits.2 timeout
                 retry_cnt rnr_retry)
       (zip (zip (seq 0 (cf_qp_count (s_cfg s))) remote_infos) psns))
    (λ e, _poison_resources;; raise e).
End Scheduler.

(** * Chunks *)

(** The byte offsets a chunk covers within its request. *)
Definition chunk_bytes (c : Chunk) : list Z := seqZ (ck_offset c) (ck_length c).

Section Chunks.
Context (cs : Z) (Hcs : 0 < cs).

Lemma ceil_bounds n : 0 < n →
  1 ≤ (n + cs - 1) `div` cs ∧ ((n + cs - 1) `div` cs - 1) * cs < n ≤ (n + cs - 1) `div` cs * cs.
Proof using Hcs.
  intros Hn. pose proof (Z.div_mod (n + cs - 1) cs). pose proof (Z.mod_pos_bound (n + cs - 1) cs).
  nia.
Qed.

Lemma length_range_step n : 0 < n →
  Z.of_nat (length (range_step n cs)) = (n + cs - 1) `div` cs.
Proof using Hcs.
  intros Hn. pose proof (ceil_bounds n Hn). unfold range_step.
  rewrite length_fmap, length_seqZ. lia.
Qed.

Lemma chunks_prefix i r j :
  (Z.of_nat j - 1) * cs < rr_length r →
  concat (chunk_bytes <$>
    ((λ offset, mk_Chunk i r offset (Z.min cs (rr_length r - offset))) <$>
       ((λ k, k * cs) <$> seqZ 0 (Z.of_nat j)))) =
  seqZ 0 (Z.min (Z.of_nat j * cs) (rr_length r)).
Proof using Hcs.
  induction j as [|j IH]; intros Hj.
  { destruct (rr_length r); [done|done|]. rewrite seqZ_nil by lia. done. }
  rewrite seqZ_S, !fmap_app, concat_app, IH by lia.
  cbn [fmap list_fmap concat]. rewrite app_nil_r. unfold chunk_bytes; cbn [ck_offset ck_length].
  rewrite Z.add_0_l.
  replace (Z.min (Z.of_nat j * cs) (rr_length r)) with (Z.of_nat j * cs) by lia.
  replace (Z.min (Z.of_nat (S j) * cs) (rr_length r))
    with (Z.of_nat j * cs + Z.min cs (rr_length r - Z.of_nat j * cs)) by lia.
  rewrite seqZ_app by lia. f_equal.
Qed.

(** The chunks of a request cover its bytes in order, each once. *)
Lemma request_chunks_tile i r : 0 < rr_length r →
  concat (chunk_bytes <$> request_chunks cs i r) = seqZ 0 (rr_length r).
Proof using Hcs.
  intros Hr. pose proof (ceil_bounds _ Hr) as [H1 H2]. unfold request_chunks, range_step.
  rewrite <- (Z2Nat.id ((rr_length r + cs - 1) `div` cs)) by lia.
  rewrite chunks_prefix by lia. f_equal. lia.
Qed.

Lemma request_chunks_wf i r c : 0 < rr_length r → c ∈ request_chunks cs i r →
  ck_request_index c = i ∧ ck_request c = r ∧ 1 ≤ ck_length c ≤ cs ∧
  0 ≤ ck_offset c ∧ ck_offset c + ck_length c ≤ rr_length r.
Proof using Hcs.
  intros Hr. pose proof (ceil_bounds _ Hr). unfold request_chunks, range_step.
  rewrite list_elem_of_fmap. intros (o & -> & (k & -> & Hk%elem_of_seqZ)%list_elem_of_fmap).
  simpl. split_and!; try done; nia.
Qed.

Lemma sum_chunk_lengths l :
  Forall (λ c, 0 ≤ ck_length c) l →
  sumZ (ck_length <$> l) = Z.of_nat (length (concat (chunk_bytes <$> l))).
Proof using.
  induction 1 as [|c l Hc _ IH]; [done|]. rewrite !fmap_cons. cbn [sumZ concat].
  unfold chunk_bytes at 1. rewrite length_app, length_seqZ, IH. lia.
Qed.

(** The counters a batch starts from count its chunks and its bytes. *)
Lemma iter_chunks_counts (requests : list RdmaRequest) :
  Forall (λ r, 0 < rr_length r) requests →
  Z.of_nat (length (_iter_chunks cs requests)) = total_chunks_of cs requests ∧
  sumZ (ck_length <$> _iter_chunks cs requests) =
    foldr (λ r n, rr_length r + n) 0 requests ∧
  Forall (λ c, 1 ≤ ck_length c ≤ cs) (_iter_chunks cs requests).
Proof using Hcs.
  unfold _iter_chunks. intros H.
  assert (∀ f : nat → nat, Z.of_nat (length (concat (imap (λ i, request_chunks cs (f i)) requests)))
      = total_chunks_of cs requests ∧
    sumZ (ck_length <$> concat (imap (λ i, request_chunks cs (f i)) requests)) =
      foldr (λ r n, rr_length r + n) 0 requests ∧
    Forall (λ c, 1 ≤ ck_length c ≤ cs) (concat (imap (λ i, request_chunks cs (f i)) requests)))
    as Hgen; [|apply (Hgen id)].
  induction H as [|r l Hr _ IH]; intros f; [done|].
  destruct (IH (f ∘ S)) as (IH1 & IH2 & IH3). cbn [imap concat].
  assert (Forall (λ c, 1 ≤ ck_length c ≤ cs) (request_chunks cs (f 0%nat) r)) as Hwf.
  { apply Forall_forall. intros c Hc. by apply (request_chunks_wf (f 0%nat) r). }
  rewrite length_app, fmap_app, sumZ_app. split_and!.
  - rewrite Nat2Z.inj_add. change (imap _ l) with (imap (λ i, request_chunks cs ((f ∘ S) i)) l).
    rewrite IH1. unfold request_chunks. rewrite length_fmap, length_range_step by done. done.
  - change (imap _ l) with (imap (λ i, request_chunks cs ((f ∘ S) i)) l).
    rewrite IH2, sum_chunk_lengths, request_chunks_tile, length_seqZ by
      (done || (eapply Forall_impl; [exact Hwf|simpl; lia])). simpl. lia.
  - apply Forall_app. split; [done|exact IH3].
Qed.
End Chunks.

(** * Work-request ids *)

(** The [d]-th id after [n0] in the cycle 1, 2, ..., [_MAX_WR_ID], 1, ... *)
Definition cyc (n0 d : Z) : Z := (n0 - 1 + d) `mod` _MAX_WR_ID + 1.

Lemma cyc_0 n0 : 1 ≤ n0 ≤ _MAX_WR_ID → cyc n0 0 = n0.
Proof. intros H. unfold cyc. rewrite Z.mod_small; lia. Qed.

Lemma cyc_range n0 d : 1 ≤ cyc n0 d ≤ _MAX_WR_ID.
Proof.
  unfold cyc. pose proof (Z.mod_pos_bound (n0 - 1 + d) _MAX_WR_ID).
  assert (0 < _MAX_WR_ID) by done. lia.
Qed.

Lemma cyc_succ n0 d :
  (if cyc n0 d =? _MAX_WR_ID then 1 else cyc n0 d + 1) = cyc n0 (d + 1).
Proof.
  unfold cyc. assert (1 < _MAX_WR_ID) by done.
  generalize dependent _MAX_WR_ID. intros m Hm.
  replace (n0 - 1 + (d + 1)) with (n0 - 1 + d + 1) by lia.
  generalize (n0 - 1 + d). intros x.
  rewrite <- (Zplus_mod_idemp_l x). pose proof (Z.mod_pos_bound x m).
  destruct (Z.eqb_spec (x `mod` m + 1) m) as [Heq|].
  - rewrite Heq, Z.mod_same; lia.
  - rewrite (Z.mod_small (x `mod` m + 1)); lia.
Qed.

Lemma cyc_inj n0 d d' :
  0 ≤ d < _MAX_WR_ID → 0 ≤ d' < _MAX_WR_ID → cyc n0 d = cyc n0 d' → d = d'.
Proof.
  unfold cyc. generalize _MAX_WR_ID. intros m Hd Hd' H.
  assert ((n0 - 1 + d) `mod` m = (n0 - 1 + d') `mod` m) as Hm by lia.
  pose proof (Z.div_mod (n0 - 1 + d) m ltac:(lia)) as H1.
  pose proof (Z.div_mod (n0 - 1 + d') m ltac:(lia)) as H2.
  rewrite Hm in H1. set (q := (n0 - 1 + d) `div` m) in *. set (q' := (n0 - 1 + d') `div` m) in *.
  destruct (Z.lt_trichotomy q q') as [?|[?|?]]; nia.
Qed.

(** The allocations since the cursor stood at [n0], over a fixed pending map:
    the ids passed over were all pending, those handed out all free, and the
    cursor has visited exactly these. *)
Record Staged (P : gmap Z Pending) (n0 : Z) (skipped ids : list Z) (n : Z) : Prop :=
  mk_Staged {
  st_next : n = cyc n0 (Z.of_nat (length skipped + length ids));
  st_visited : cyc n0 <$> seqZ 0 (Z.of_nat (length skipped + length ids)) ≡ₚ skipped ++ ids;
  st_skipped : ∀ x, x ∈ skipped → is_Some (P !! x);
  st_ids : ∀ x, x ∈ ids → P !! x = None;
  st_bound : Z.of_nat (length skipped + length ids) ≤ _MAX_WR_ID;
}.

Section StagedLemmas.
Context {P : gmap Z Pending} {n0 : Z} {skipped ids : list Z} {n : Z}.
Hypothesis (H : Staged P n0 skipped ids n).

Lemma Staged_nodup : NoDup (skipped ++ ids).
Proof using H.
  rewrite <- (st_visited _ _ _ _ _ H). pose proof (st_bound _ _ _ _ _ H) as Hb.
  apply NoDup_fmap_2_strong; [|apply NoDup_seqZ].
  intros x y Hx%elem_of_seqZ Hy%elem_of_seqZ. apply cyc_inj; lia.
Qed.

Lemma Staged_skipped : (length skipped ≤ size P)%nat.
Proof using H.
  pose proof (proj1 (NoDup_app _ _) Staged_nodup) as [Hnd _].
  assert (skipped ⊆+ (map_to_list P).*1) as Hs.
  { apply NoDup_submseteq; [done|]. intros x [p Hp]%(st_skipped _ _ _ _ _ H).
    apply list_elem_of_fmap. exists (x, p). split; [done|]. by apply elem_of_map_to_list. }
  apply submseteq_length in Hs. by rewrite length_fmap, length_map_to_list in Hs.
Qed.

Lemma Staged_visit (Hb : Z.of_nat (length skipped + length ids) < _MAX_WR_ID) :
  cyc n0 <$> seqZ 0 (Z.of_nat (S (length skipped + length ids))) ≡ₚ n :: skipped ++ ids.
Proof using H.
  rewrite seqZ_S, fmap_app, (st_visited _ _ _ _ _ H). simpl.
  rewrite Z.add_0_l, <- (st_next _ _ _ _ _ H), Permutation_app_comm. done.
Qed.

Lemma Staged_skip :
  Z.of_nat (length skipped + length ids) < _MAX_WR_ID → is_Some (P !! n) →
  Staged P n0 (n :: skipped) ids (if n =? _MAX_WR_ID then 1 else n + 1).
Proof using H.
  intros Hb Hn. pose proof (Staged_visit Hb) as Hv. split; simpl.
  - rewrite (st_next _ _ _ _ _ H), cyc_succ. f_equal. lia.
  - done.
  - intros x [->|Hx]%elem_of_cons; [done|by apply (st_skipped _ _ _ _ _ H)].
  - apply (st_ids _ _ _ _ _ H).
  - lia.
Qed.

Lemma Staged_take :
  Z.of_nat (length skipped + length ids) < _MAX_WR_ID → P !! n = None →
  Staged P n0 skipped (ids ++ [n]) (if n =? _MAX_WR_ID then 1 else n + 1).
Proof using H.
  intros Hb Hn. pose proof (Staged_visit Hb) as Hv.
  split; rewrite ?length_app; simpl; rewrite ?Nat.add_1_r, ?Nat.add_succ_r.
  - rewrite (st_next _ _ _ _ _ H), cyc_succ. f_equal. lia.
  - rewrite Hv, app_assoc. apply Permutation_cons_append.
  - apply (st_skipped _ _ _ _ _ H).
  - intros x [Hx| ->%list_elem_of_singleton]%elem_of_app; [|done].
    by apply (st_ids _ _ _ _ _ H).
  - lia.
Qed.
End StagedLemmas.

Lemma Staged_init P n0 : 1 ≤ n0 ≤ _MAX_WR_ID → Staged P n0 [] [] n0.
Proof.
  intros Hn. split; simpl; [by rewrite cyc_0|done|set_solver|set_solver|lia].
Qed.

Section Alloc.
Context {W : Type}.
Implicit Types s : Sched W.

Lemma wp_alloc_loop fuel P n0 skipped ids s :
  Staged P n0 skipped ids (s_next_wr_id s) → s_pending s = P →
  Z.of_nat (size P + length ids) < _MAX_WR_ID →
  (size P < fuel + length skipped)%nat →
  wp (alloc_loop fuel)
    (λ id s', ∃ skipped' n, s' = set_next n s ∧ Staged P n0 skipped' (ids ++ [id]) n)
    (λ _ _, False) s.
Proof.
  revert skipped s. induction fuel as [|fuel IH]; intros skipped s HS HP Hsz Hf.
  { pose proof (Staged_skipped HS). cbn [Nat.add] in Hf. lia. }
  pose proof (Staged_skipped HS) as Hsk.
  cbn [alloc_loop]. apply wp_bind, wp_get, wp_bind, wp_modify.
  cbn [s_pending set_next]. rewrite HP. destruct (P !! s_next_wr_id s) as [p|] eqn:Hp.
  - eapply wp_mono; [eapply IH; [apply (Staged_skip HS); [lia|done]|done|done|simpl; lia]| |done].
    intros id s' (sk & n & -> & HS'). by exists sk, n.
  - apply wp_ret. exists skipped. eexists. split; [done|]. apply (Staged_take HS); [lia|done].
Qed.

Lemma alloc_loop_mono fuel fuel' s id s' :
  alloc_loop fuel s = (Ok id, s') → (fuel ≤ fuel')%nat → alloc_loop fuel' s = (Ok id, s').
Proof.
  revert fuel' s. induction fuel as [|fuel IH]; intros [|fuel'] s H Hle; try done; [lia|].
  cbn [alloc_loop] in *. unfold mbind, M_bind, get, modify in *.
  cbn [s_pending set_next] in *. destruct (s_pending s !! s_next_wr_id s); [|done].
  apply IH; [done|lia].
Qed.

(** Enough ids are free: the allocator returns one, at the cost of moving the
    cursor only. *)
Lemma wp_allocate_wr_id P n0 skipped ids s :
  Staged P n0 skipped ids (s_next_wr_id s) → s_pending s = P →
  Z.of_nat (size P + length ids) < _MAX_WR_ID →
  wp _allocate_wr_id
    (λ id s', ∃ skipped' n, s' = set_next n s ∧ Staged P n0 skipped' (ids ++ [id]) n)
    (λ _ _, False) s.
Proof.
  intros HS HP Hsz. unfold _allocate_wr_id. apply wp_bind, wp_get. rewrite HP.
  eapply wp_alloc_loop; [done..|]. pose proof (Staged_skipped HS). lia.
Qed.
End Alloc.

(** * Invariant *)

(** A usable configuration: what the constructor checks, and fewer work
    requests in flight than there are ids. *)
Record CfgOk (c : Config) : Prop := mk_CfgOk {
  cfg_qps : (0 < cf_qp_count c)%nat;
  cfg_depth : 0 < cf_queue_depth c;
  cfg_chunk : 0 < cf_chunk_size c;
  cfg_poll : 0 < cf_poll_batch c;
  cfg_ids : Z.of_nat (cf_qp_count c) * cf_queue_depth c < _MAX_WR_ID;
}.

(** The pending work requests of one queue pair, and the pending chunks. *)
Definition count_qp (i : nat) (P : gmap Z Pending) : nat :=
  size (filter (λ kp, pd_qp_index kp.2 = i) P).
Definition pchunks (P : gmap Z Pending) : list Chunk := pd_chunk <$> (map_to_list P).*2.

(** The send-queue accounting: each counter is the number of pending requests
    of its queue pair and is at most the queue depth. *)
Record Books {W} (s : Sched W) : Prop := mk_Books {
  bk_cfg : CfgOk (s_cfg s);
  bk_next : 1 ≤ s_next_wr_id s ≤ _MAX_WR_ID;
  bk_len : length (s_outstanding s) = cf_qp_count (s_cfg s);
  bk_out : ∀ i, (i < cf_qp_count (s_cfg s))%nat →
    outstanding_of s i = Z.of_nat (count_qp i (s_pending s));
  bk_depth : ∀ i, (i < cf_qp_count (s_cfg s))%nat →
    outstanding_of s i ≤ cf_queue_depth (s_cfg s);
  bk_range : ∀ k p, s_pending s !! k = Some p →
    (pd_qp_index p < cf_qp_count (s_cfg s))%nat;
}.

(** Every batch but [bid] has ended. *)
Definition others_done {W} (bid : nat) (s : Sched W) : Prop :=
  ∀ bid' b, s_batches s !! bid' = Some b → bid' ≠ bid → b_done b = true.

(** A batch of which the chunks [dn] have completed. *)
Definition batch_at (cs : Z) (reqs : list RdmaRequest) (cbk : callback)
    (dn : list Chunk) : Batch :=
  mk_Batch reqs (foldr (λ r n, rr_length r + n) 0 reqs) (total_chunks_of cs reqs)
    (sumZ (ck_length <$> dn)) (Z.of_nat (length dn)) None cbk false false.

Definition post_event (p : nat * WR) : event := EPost p.1 p.2.

(** A work request with its id left out. *)
Definition wr_strip (wr : WR) : WR :=
  mk_WR 0 (wr_local_mr wr) (wr_length wr) (wr_local_offset wr) (wr_is_write wr)
    (wr_remote_addr wr) (wr_rkey wr).

(** Batch [bid] is in flight since the trace was [T0]: its chunks are the
    completed, the pending, those in [extra] (taken from the iterator but not
    yet posted) and those still to come, and the work requests posted so far are
    those of its completed and pending chunks. *)
Record RunningX {W} (T0 : list event) (bid : nat) (reqs : list RdmaRequest)
    (cbk : callback) (extra : list Chunk) (s : Sched W) : Prop := mk_RunningX {
  rn_books : Books s;
  rn_active : s_active s = Some bid;
  rn_reqs : Forall (λ r, 0 < rr_length r) reqs;
  rn_cbk : cbk ≠ NotCallable;
  rn_exh : s_exhausted s = true → s_iter s = [];
  rn_others : others_done bid s;
  rn_acct : ∃ dn pw,
    s_batches s !! bid = Some (batch_at (cf_chunk_size (s_cfg s)) reqs cbk dn) ∧
    s_trace s = T0 ++ (post_event <$> pw) ∧
    wr_strip ∘ snd <$> pw ≡ₚ chunk_wr 0 <$> (dn ++ pchunks (s_pending s)) ∧
    dn ++ pchunks (s_pending s) ++ extra ++ s_iter s ≡ₚ
      _iter_chunks (cf_chunk_size (s_cfg s)) reqs;
}.
Abbreviation Running T0 bid reqs cbk := (RunningX T0 bid reqs cbk []).

(** No batch in flight. *)
Record Idle {W} (s : Sched W) : Prop := mk_Idle {
  id_books : Books s;
  id_active : s_active s = None;
  id_pending : s_pending s = ∅;
  id_done : ∀ bid b, s_batches s !! bid = Some b → b_done b = true;
}.

Definition Inv {W} (s : Sched W) : Prop :=
  Idle s ∨ ∃ T0 bid reqs cbk, Running T0 bid reqs cbk s.

(** What survives any failure in the middle of an operation on [bid]. *)
Record Safe {W} (bid : nat) (s : Sched W) : Prop := mk_Safe {
  sf_cfg : CfgOk (s_cfg s);
  sf_next : 1 ≤ s_next_wr_id s ≤ _MAX_WR_ID;
  sf_batch : is_Some (s_batches s !! bid);
  sf_others : others_done bid s;
}.

(** ** Counting *)

Lemma pchunks_insert P k p :
  P !! k = None → pchunks (<[k:=p]> P) ≡ₚ pd_chunk p :: pchunks P.
Proof. intros Hk. unfold pchunks. by rewrite map_to_list_insert. Qed.

Lemma pchunks_delete P k p :
  P !! k = Some p → pchunks P ≡ₚ pd_chunk p :: pchunks (delete k P).
Proof.
  intros Hk. rewrite <- (pchunks_insert (delete k P) k p) by apply lookup_delete_eq.
  by rewrite insert_delete_id.
Qed.

Lemma count_qp_insert i P k p :
  P !! k = None →
  count_qp i (<[k:=p]> P) =
    (if decide (pd_qp_index p = i) then S (count_qp i P) else count_qp i P).
Proof.
  intros Hk. unfold count_qp.
  assert (filter (λ kp : Z * Pending, pd_qp_index kp.2 = i) P !! k = None)
    by (apply map_lookup_filter_None; by left).
  case_decide as Hi.
  - rewrite map_filter_insert_True by done. by rewrite map_size_insert_None.
  - rewrite map_filter_insert_False by done. by rewrite delete_id.
Qed.

Lemma count_qp_delete i P k p :
  P !! k = Some p →
  count_qp i P =
    (if decide (pd_qp_index p = i) then S (count_qp i (delete k P))
     else count_qp i (delete k P)).
Proof.
  intros Hk. rewrite <- (count_qp_insert i (delete k P) k p) by apply lookup_delete_eq.
  by rewrite insert_delete_id.
Qed.

Lemma count_qp_empty i : count_qp i ∅ = 0%nat.
Proof. unfold count_qp. by rewrite map_filter_empty, map_size_empty. Qed.

Lemma size_count n P :
  (∀ k p, P !! k = Some p → (pd_qp_index p < n)%nat) →
  Z.of_nat (size P) = sumZ ((λ i, Z.of_nat (count_qp i P)) <$> seq 0 n).
Proof.
  induction P as [|k p P Hk IH] using map_ind; intros Hr.
  { rewrite map_size_empty, (sumZ_fmap_const _ 0); [lia|].
    intros i _. by rewrite count_qp_empty. }
  rewrite map_size_insert_None by done.
  rewrite (sumZ_fmap_ext _ (λ i, Z.of_nat (count_qp i P)
    + if decide (pd_qp_index p = i) then 1 else 0)).
  - rewrite sumZ_fmap_add, sumZ_indicator, <- IH; [lia| |apply NoDup_seq|].
    + intros k' p' Hk'. apply (Hr k' p'). rewrite lookup_insert_ne; [done|congruence].
    + apply elem_of_seq. pose proof (Hr k p (lookup_insert_eq _ _ _)). lia.
  - intros i _. rewrite count_qp_insert by done. case_decide; lia.
Qed.

(** ** Staging a refill *)

Definition post_ids (posts : list (list Post)) : list Z := (λ p : Post, p.1.1) <$> concat posts.
Definition post_chunks (posts : list (list Post)) : list Chunk :=
  (λ p : Post, p.1.2) <$> concat posts.
Definition posts_wf (posts : list (list Post)) : Prop :=
  Forall (λ p : Post, p.2 = chunk_wr p.1.1 p.1.2) (concat posts).

Lemma concat_alter {A} i (p : A) ls :
  (i < length ls)%nat → concat (alter (λ l, l ++ [p]) i ls) ≡ₚ p :: concat ls.
Proof.
  revert i. induction ls as [|l ls IH]; intros [|i] Hi; simpl in *; try lia.
  - rewrite <- app_assoc. by rewrite Permutation_middle.
  - change (list_alter _ i ls) with (alter (λ l, l ++ [p]) i ls).
    rewrite IH by lia. by rewrite Permutation_middle.
Qed.

Lemma length_concat_posts (posts : list (list Post)) :
  Z.of_nat (length (concat posts)) =
    sumZ ((λ i, Z.of_nat (length (posts_of posts i))) <$> seq 0 (length posts)).
Proof.
  induction posts as [|l posts IH]; [done|].
  cbn [concat length seq]. rewrite fmap_cons, length_app. cbn [sumZ].
  rewrite Nat2Z.inj_add, IH, <- fmap_S_seq, <- list_fmap_compose. done.
Qed.

(** The pending map after the posts of one queue are recorded. *)
Definition record_posts (i : nat) (P : gmap Z Pending) (queued : list Post) : gmap Z Pending :=
  foldl (λ p q, <[q.1.1 := mk_Pending i q.1.2]> p) P queued.

Lemma record_posts_spec i P queued :
  NoDup ((λ p : Post, p.1.1) <$> queued) →
  (∀ x, x ∈ ((λ p : Post, p.1.1) <$> queued) → P !! x = None) →
  pchunks (record_posts i P queued) ≡ₚ ((λ p : Post, p.1.2) <$> queued) ++ pchunks P ∧
  (∀ j, count_qp j (record_posts i P queued) =
    (count_qp j P + if decide (i = j) then length queued else 0)%nat) ∧
  (∀ x, x ∉ ((λ p : Post, p.1.1) <$> queued) → record_posts i P queued !! x = P !! x) ∧
  (∀ x p, record_posts i P queued !! x = Some p → P !! x = Some p ∨ pd_qp_index p = i).
Proof.
  revert P. induction queued as [|[[id c] wr] queued IH]; intros P Hnd Hfresh.
  { cbn. split_and!; [done|intros j; case_decide; lia|done|by left]. }
  rewrite !fmap_cons in *. cbn [fst snd] in *. apply NoDup_cons in Hnd as [Hid Hnd].
  assert (P !! id = None) as Hnone by (apply Hfresh; by left).
  change (record_posts i P ((id, c, wr) :: queued))
    with (record_posts i (<[id := mk_Pending i c]> P) queued).
  destruct (IH (<[id := mk_Pending i c]> P)) as (H1 & H2 & H3 & H4); [done| |].
  { intros x Hx. rewrite lookup_insert_ne by (intros ->; done). apply Hfresh. by right. }
  split_and!.
  - rewrite H1, pchunks_insert by done. cbn [pd_chunk app]. by rewrite <- Permutation_middle.
  - intros j. rewrite H2, count_qp_insert by done. cbn [pd_qp_index length].
    repeat case_decide; lia.
  - intros x Hx. apply not_elem_of_cons in Hx as [Hne Hx]. rewrite H3 by done.
    by rewrite lookup_insert_ne.
  - intros x p Hp. destruct (H4 x p Hp) as [Hp'|]; [|by right].
    rewrite lookup_insert_Some in Hp'. destruct Hp' as [[_ <-]|[_ ?]]; [by right|by left].
Qed.

Section Refill.
Context {W : Type} `{!SchedDevice W} `{!Clock W} `{!RcQp nat W}.
Context (T0 : list event) (bid : nat) (reqs : list RdmaRequest) (cbk : callback).
Implicit Types s : Sched W.
Abbreviation Run := (RunningX (W := W) T0 bid reqs cbk).

Lemma wp_dev_any {A} (m : M W A) Q E s :
  (∀ a w, Q a (set_world w s)) → (∀ e w, E e (set_world w s)) → wp (dev m) Q E s.
Proof.
  intros HQ HE. unfold wp, dev. destruct (m (s_world s)) as [[a|e] w]; [apply HQ|apply HE].
Qed.

Lemma Run_world ex w s : Run ex s → Run ex (set_world w s).
Proof. intros [[]]. by split; [split|..]. Qed.

Lemma Run_next ex n s : 1 ≤ n ≤ _MAX_WR_ID → Run ex s → Run ex (set_next n s).
Proof. intros Hn [[]]. by split; [split|..]. Qed.

Lemma Run_safe ex s : Run ex s → Safe bid s.
Proof.
  intros [[] ? ? ? ? ? (dn & pw & Hb & _)]. by split.
Qed.

Lemma Safe_world w s : Safe bid s → Safe bid (set_world w s).
Proof. by intros []. Qed.

(** A refill in preparation: the posts hold their queue pairs within depth, and
    their ids are new and distinct. *)
Record Stage (posts : list (list Post)) s : Prop := mk_Stage {
  sg_run : Run (post_chunks posts) s;
  sg_len : length posts = cf_qp_count (s_cfg s);
  sg_depth : ∀ i, (i < cf_qp_count (s_cfg s))%nat →
    outstanding_of s i + Z.of_nat (length (posts_of posts i)) ≤ cf_queue_depth (s_cfg s);
  sg_ids : ∃ n0 sk ids, Staged (s_pending s) n0 sk ids (s_next_wr_id s) ∧ ids ≡ₚ post_ids posts;
  sg_wf : posts_wf posts;
}.

(** Less than a full set of queues is in flight while one has room. *)
Lemma Stage_room posts s i :
  Stage posts s → (i < cf_qp_count (s_cfg s))%nat →
  outstanding_of s i + Z.of_nat (length (posts_of posts i)) < cf_queue_depth (s_cfg s) →
  Z.of_nat (size (s_pending s) + length (post_ids posts)) < _MAX_WR_ID.
Proof.
  intros HS Hi Hlt. pose proof (rn_books _ _ _ _ _ _ (sg_run _ _ HS)) as HB.
  unfold post_ids. rewrite length_fmap, Nat2Z.inj_add, length_concat_posts, (sg_len _ _ HS).
  rewrite (size_count (cf_qp_count (s_cfg s))) by apply (bk_range _ HB).
  rewrite <- sumZ_fmap_add. pose proof (cfg_ids _ (bk_cfg _ HB)).
  eapply Z.le_lt_trans; [|done].
  etransitivity; [apply (sumZ_fmap_le _ (λ _, cf_queue_depth (s_cfg s)))|].
  - intros j [_ Hj]%elem_of_seq. rewrite <- (bk_out _ HB) by lia.
    apply (sg_depth _ _ HS). lia.
  - rewrite (sumZ_fmap_const _ (cf_queue_depth (s_cfg s))) by done. rewrite length_seq. lia.
Qed.

(** Taking the next chunk for queue [i]. *)
Lemma wp_next_post posts i chunk rest s :
  Stage posts s → (i < cf_qp_count (s_cfg s))%nat →
  outstanding_of s i + Z.of_nat (length (posts_of posts i)) < cf_queue_depth (s_cfg s) →
  s_iter s = chunk :: rest →
  wp (next_post chunk rest)
    (λ p s', Stage (alter (λ l, l ++ [p]) i posts) s' ∧ s_iter s' = rest ∧
             s_exhausted s' = s_exhausted s ∧ s_cfg s' = s_cfg s ∧
             s_outstanding s' = s_outstanding s)
    (λ _ s', Safe bid s') s.
Proof.
  intros HS Hi Hlt Hit. pose proof (Stage_room posts s i HS Hi Hlt) as Hroom.
  pose proof (rn_exh _ _ _ _ _ _ (sg_run _ _ HS)) as Hexh.
  destruct (sg_ids _ _ HS) as (n0 & sk & ids & Hst & Hids).
  unfold next_post. apply wp_bind, wp_modify, wp_bind.
  eapply wp_mono; [apply (wp_allocate_wr_id (s_pending s) n0 sk ids);
    [done|done|by rewrite Hids]| |done].
  intros id s' (sk' & n & -> & Hst').
  assert (1 ≤ n ≤ _MAX_WR_ID) as Hn
    by (rewrite (st_next _ _ _ _ _ Hst'); apply cyc_range).
  assert (Safe bid (set_next n (set_input (s_active s) rest (s_exhausted s) s))) as Hsafe
    by (destruct (Run_safe _ _ (sg_run _ _ HS)); done).
  apply wp_bind, wp_dev_any; [|intros e w; by apply Safe_world].
  intros _ w. apply wp_ret. split; [|done].
  assert (posts_of (alter (λ l, l ++ [(id, chunk, chunk_wr id chunk)]) i posts) i =
    posts_of posts i ++ [(id, chunk, chunk_wr id chunk)]) as Hpi.
  { unfold posts_of. rewrite list_lookup_alter_eq.
    destruct (lookup_lt_is_Some_2 posts i) as [l Hl]; [by rewrite (sg_len _ _ HS)|].
    by rewrite Hl. }
  assert (i < length posts)%nat as Hlt' by (by rewrite (sg_len _ _ HS)).
  pose proof (concat_alter i (id, chunk, chunk_wr id chunk) posts Hlt') as Hcat.
  destruct HS as [[[] ? ? ? ? ? (dn & pw & Hb & Ht & Hp & Hc)] Hl Hd _ Hwf].
  constructor.
  - constructor; [by constructor|done..|intros Hx; specialize (Hexh Hx); congruence|done|].
    exists dn, pw. split_and!; [done..|]. cbn. rewrite <- Hc, Hit.
    unfold post_chunks. rewrite Hcat. cbn [fmap list_fmap fst snd].
    rewrite <- (Permutation_middle _ rest). by rewrite app_comm_cons.
  - by rewrite length_alter.
  - intros j Hj. cbn in Hj |- *. change (outstanding_of _ j) with (outstanding_of s j).
    destruct (decide (i = j)) as [<-|Hne].
    + rewrite Hpi, length_app. cbn [length]. lia.
    + unfold posts_of. rewrite list_lookup_alter_ne by done. by apply Hd.
  - exists n0, sk', (ids ++ [id]). split; [done|].
    unfold post_ids. rewrite Hcat, fmap_cons, <- Permutation_cons_append. by constructor.
  - unfold posts_wf. rewrite Hcat. by constructor.
Qed.

Definition full (posts : list (list Post)) s (i : nat) : Prop :=
  cf_queue_depth (s_cfg s) ≤ outstanding_of s i + Z.of_nat (length (posts_of posts i)).

(** One pass over the queues either takes a chunk or leaves the posts alone;
    it takes none only when there is none left or no queue has room. *)
Lemma wp_refill_pass idx posts made s :
  Stage posts s → (∀ i, i ∈ idx → (i < cf_qp_count (s_cfg s))%nat) →
  wp (refill_pass idx posts made)
    (λ pm s', Stage pm.1 s' ∧ s_cfg s' = s_cfg s ∧ s_outstanding s' = s_outstanding s ∧
       (length (s_iter s') ≤ length (s_iter s))%nat ∧
       (made = true → pm.2 = true) ∧
       (pm.2 = true → made = true ∨ (length (s_iter s') < length (s_iter s))%nat) ∧
       (pm.2 = false → s_exhausted s' = true ∨ pm.1 = posts ∧ ∀ i, i ∈ idx → full pm.1 s' i))
    (λ _ s', Safe bid s') s.
Proof.
  revert posts made s. induction idx as [|i idx IH]; intros posts made s HS Hidx.
  { cbn. split_and!; [done..|by left|intros _; right].
    split; [done|]. by intros j ?%not_elem_of_nil. }
  cbn [refill_pass]. apply wp_bind, wp_get.
  pose proof (Hidx i ltac:(by left)) as Hi.
  assert (∀ j, j ∈ idx → (j < cf_qp_count (s_cfg s))%nat) as Hidx' by (intros; apply Hidx; by right).
  destruct (Z.leb_spec (cf_queue_depth (s_cfg s))
    (outstanding_of s i + Z.of_nat (length (posts_of posts i)))) as [Hfull|Hroom].
  - eapply wp_mono; [by apply IH| |done].
    intros [posts' made'] s' (HS' & Hc & Ho & Hlen & Hm1 & Hm2 & Hm3). split_and!; try done.
    intros Hf. destruct (Hm3 Hf) as [?|[-> Hall]]; [by left|]. right.
    split; [done|]. intros j [->|Hj]%elem_of_cons; [|by apply Hall].
    unfold full, outstanding_of. by rewrite Hc, Ho.
  - destruct (s_iter s) as [|chunk rest] eqn:Hit.
    + apply wp_bind, wp_modify, wp_ret. cbn. split_and!; try done; [|by left|by left].
      destruct HS as [[[] ? ? ? ? ? Hacct] ? ? ? ?]. constructor; try done.
      rewrite Hit in Hacct. by constructor.
    + apply wp_bind. eapply wp_mono; [by eapply (wp_next_post posts i)| |done].
      intros p s' (HS' & Hit' & Hx & Hc & Ho).
      eapply wp_mono; [apply IH; [done|by rewrite Hc]| |done].
      intros [posts' made'] s'' (HS'' & Hc' & Ho' & Hlen & Hm1 & Hm2 & Hm3).
      cbn in *. specialize (Hm1 eq_refl). rewrite Hit' in Hlen.
      split_and!; [done|congruence|congruence|lia|done|right; lia|congruence].
Qed.

Lemma wp_refill_stage fuel posts made s :
  Stage posts s → (made = true → (length (s_iter s) < fuel)%nat) →
  (made = false → s_exhausted s = true ∨ ∀ i, (i < cf_qp_count (s_cfg s))%nat → full posts s i) →
  wp (refill_stage fuel posts made)
    (λ posts' s', Stage posts' s' ∧ s_cfg s' = s_cfg s ∧
       (s_exhausted s' = true ∨ ∀ i, (i < cf_qp_count (s_cfg s'))%nat → full posts' s' i))
    (λ _ s', Safe bid s') s.
Proof.
  revert posts made s. induction fuel as [|fuel IH]; intros posts made s HS Hfuel Hfull;
    cbn [refill_stage]; apply wp_bind, wp_get;
    destruct (s_exhausted s) eqn:Hx; cbn [orb]; try (apply wp_ret; by eauto);
    destruct made; cbn [negb]; try (apply wp_ret; split_and!; [done..|]; by destruct (Hfull eq_refl); auto).
  { specialize (Hfuel eq_refl). lia. }
  apply wp_bind. eapply wp_mono; [apply wp_refill_pass; [done|]| |done].
  { intros i [_ Hi]%elem_of_seq. lia. }
  intros [posts' made'] s' (HS' & Hc & Ho & Hlen & _ & Hm2 & Hm3). cbn in *.
  specialize (Hfuel eq_refl). eapply wp_mono; [apply IH; [done| |]| |done].
  - intros Hm. destruct (Hm2 Hm); [done|lia].
  - intros Hm. destruct (Hm3 Hm) as [?|[_ Hall]]; [by left|right].
    intros i Hi. apply Hall, elem_of_seq. rewrite Hc in Hi. lia.
  - intros posts'' s'' (? & Hc' & ?). split_and!; [done|congruence|done].
Qed.

(** The posts still to hand to the queues from [i] on. *)
Record Posting (i : nat) (rest : list (list Post)) s : Prop := mk_Posting {
  ps_run : Run (post_chunks rest) s;
  ps_len : (i + length rest)%nat = cf_qp_count (s_cfg s);
  ps_depth : ∀ j, (j < length rest)%nat →
    outstanding_of s (i + j) + Z.of_nat (length (posts_of rest j)) ≤ cf_queue_depth (s_cfg s);
  ps_ids : NoDup (post_ids rest);
  ps_fresh : ∀ x, x ∈ post_ids rest → s_pending s !! x = None;
  ps_wf : posts_wf rest;
}.

Lemma Stage_posting posts s : Stage posts s → Posting 0 posts s.
Proof.
  intros [Hrun Hlen Hdepth (n0 & sk & ids & Hst & Hids) Hwf].
  split; try done; cbn.
  - intros j Hj. apply Hdepth. lia.
  - rewrite <- Hids. by apply (NoDup_app sk ids), (Staged_nodup Hst).
  - intros x. rewrite <- Hids. apply (st_ids _ _ _ _ _ Hst).
Qed.

Lemma outstanding_alter f i j s :
  (i < length (s_outstanding s))%nat →
  default 0 (alter f i (s_outstanding s) !! j) =
    if decide (i = j) then f (outstanding_of s i) else outstanding_of s j.
Proof.
  intros Hi. unfold outstanding_of. case_decide as Hij.
  - subst j. rewrite list_lookup_alter_eq. destruct (lookup_lt_is_Some_2 _ _ Hi) as [x Hx].
    by rewrite Hx.
  - by rewrite list_lookup_alter_ne.
Qed.

Lemma wp_post_queue i queued rest s :
  Posting i (queued :: rest) s →
  wp (post_queue i queued)
    (λ _ s', Posting (S i) rest s' ∧ s_cfg s' = s_cfg s ∧ s_exhausted s' = s_exhausted s ∧
       ∀ j, outstanding_of s' j =
              outstanding_of s j + if decide (i = j) then Z.of_nat (length queued) else 0)
    (λ _ s', Safe bid s') s.
Proof.
  intros [Hrun Hlen Hdepth Hids Hfresh Hwf]. unfold post_ids, post_chunks, posts_wf in *.
  cbn [concat length] in *. rewrite fmap_app in Hids. rewrite fmap_app in Hfresh. rewrite fmap_app in Hrun.
  apply Forall_app in Hwf as [Hwf1 Hwf2]. apply NoDup_app in Hids as (Hnd1 & Hdis & Hnd2).
  destruct queued as [|q queued'].
  { cbn [post_queue]. apply wp_ret. split_and!; [split| | |]; try done.
    - lia.
    - intros j Hj. pose proof (Hdepth (S j) ltac:(lia)). by rewrite Nat.add_succ_comm.
    - intros j. case_decide; cbn; lia. }
  set (queued := q :: queued') in *. unfold post_queue, queued at 1. fold queued.
  clearbody queued. clear q queued'.
  pose proof (Run_safe _ _ Hrun) as [Hs1 Hs2 Hs3 Hs4].
  destruct (record_posts_spec i (s_pending s) queued) as (H1 & H2 & H3 & H4);
    [done|intros x Hx; apply Hfresh, elem_of_app; by left|].
  destruct Hrun as [[] Hact Hreqs Hcbk Hexh Hoth (dn & pw & Hb & Ht & Hp & Hc)].
  assert (i < length (s_outstanding s))%nat as Hi by lia.
  apply wp_bind, wp_modify, wp_bind, wp_dev_any; [intros _ w|by intros e w].
  apply wp_bind, wp_modify, wp_modify. fold (record_posts i (s_pending s) queued).
  match goal with |- Posting _ _ ?x ∧ _ => set (s' := x) end.
  assert (∀ j, outstanding_of s' j =
    outstanding_of s j + if decide (i = j) then Z.of_nat (length queued) else 0) as Hout.
  { intros j. unfold outstanding_of at 1, s'. cbn [s_outstanding set_pending set_trace set_world].
    rewrite outstanding_alter by done. case_decide; [by subst|lia]. }
  assert (s_pending s' = record_posts i (s_pending s) queued) as HP by done.
  assert (s_cfg s' = s_cfg s) as HC by done.
  split_and!; try done. constructor.
  - constructor; try done.
    + constructor; try done; rewrite ?HP, ?HC.
      * cbn. by rewrite length_alter.
      * intros j Hj. rewrite Hout, bk_out0, H2 by done. case_decide; lia.
      * intros j Hj. rewrite Hout. case_decide as Hij; [|specialize (bk_depth0 j Hj); lia].
        specialize (Hdepth 0%nat ltac:(lia)). rewrite Nat.add_0_r, Hij in Hdepth.
        exact Hdepth.
      * intros k p Hk. destruct (H4 k p Hk) as [?| ->]; [by eapply bk_range0|]. lia.
    + exists dn, (pw ++ ((λ q : Post, (i, q.2)) <$> queued)). split_and!; [done| | |].
      * cbn. rewrite Ht, fmap_app, app_assoc, <- list_fmap_compose. done.
      * rewrite fmap_app, Hp, HP, H1, <- list_fmap_compose, !fmap_app, <- !app_assoc.
        f_equiv. rewrite Permutation_app_comm. f_equiv.
        rewrite <- list_fmap_compose. apply reflexive_eq, list_fmap_ext.
        intros k q Hq. apply list_elem_of_lookup_2 in Hq.
        rewrite Forall_forall in Hwf1. cbn. by rewrite (Hwf1 q Hq).
      * rewrite HP, HC, H1, <- Hc. change (s_iter s') with (s_iter s).
        rewrite <- !app_assoc. f_equiv. by rewrite Permutation_app_swap_app.
  - rewrite HC. lia.
  - intros j Hj. rewrite HC, Hout, decide_False by lia.
    pose proof (Hdepth (S j) ltac:(lia)) as Hd.
    change (posts_of (queued :: rest) (S j)) with (posts_of rest j) in Hd.
    rewrite Nat.add_succ_comm. lia.
  - done.
  - intros x Hx. rewrite HP, H3; [|by intros ?%Hdis]. apply Hfresh, elem_of_app. by right.
  - done.
Qed.

Lemma wp_post_all i rest s :
  Posting i rest s →
  wp (post_all i rest)
    (λ _ s', Running T0 bid reqs cbk s' ∧ s_cfg s' = s_cfg s ∧
       s_exhausted s' = s_exhausted s ∧
       ∀ j, outstanding_of s' j = outstanding_of s j +
         if decide (i ≤ j)%nat then Z.of_nat (length (posts_of rest (j - i))) else 0)
    (λ _ s', Safe bid s') s.
Proof.
  revert i s. induction rest as [|queued rest IH]; intros i s HP; cbn [post_all].
  { apply wp_ret. split_and!; [by destruct HP|done..|]. intros j.
    change (posts_of [] (j - i)) with (@nil Post). case_decide; cbn [length]; lia. }
  apply wp_bind. eapply wp_mono; [by apply wp_post_queue| |done].
  intros _ s' (HP' & Hc & Hx & Ho). eapply wp_mono; [by apply IH| |done].
  intros _ s'' (HR & Hc' & Hx' & Ho'). split_and!; [done|congruence|congruence|].
  intros j. rewrite Ho', Ho.
  destruct (decide (i = j)) as [<-|Hne].
  - rewrite decide_False, decide_True, Nat.sub_diag by lia.
    change (posts_of (queued :: rest) 0) with queued. lia.
  - destruct (decide (S i ≤ j)%nat); [rewrite decide_True by lia|rewrite decide_False by lia; lia].
    replace (j - i)%nat with (S (j - S i)) by lia.
    change (posts_of (queued :: rest) (S (j - S i))) with (posts_of rest (j - S i)). lia.
Qed.

(** A refill that returns leaves the batch running with every queue pair filled
    to its depth unless the input has run out. *)
Lemma wp_refill s :
  Running T0 bid reqs cbk s →
  wp _refill
    (λ _ s', Running T0 bid reqs cbk s' ∧ s_cfg s' = s_cfg s ∧
       (s_exhausted s' = true ∨
        ∀ i, (i < cf_qp_count (s_cfg s'))%nat → outstanding_of s' i = cf_queue_depth (s_cfg s')))
    (λ _ s', Safe bid s') s.
Proof.
  intros HR. unfold _refill. apply wp_bind, wp_get, wp_bind.
  assert (concat (replicate (cf_qp_count (s_cfg s)) ([] : list Post)) = []) as Hnil
    by (by induction (cf_qp_count (s_cfg s))).
  eapply wp_mono; [apply wp_refill_stage; [|intros _; lia|done]| |done].
  { constructor.
    - unfold post_chunks. by rewrite Hnil.
    - by rewrite length_replicate.
    - intros i Hi. unfold posts_of. rewrite lookup_replicate_2 by done. cbn.
      pose proof (bk_depth _ (rn_books _ _ _ _ _ _ HR) i Hi). lia.
    - exists (s_next_wr_id s), [], []. unfold post_ids. rewrite Hnil. split; [|done].
      apply Staged_init, (bk_next _ (rn_books _ _ _ _ _ _ HR)).
    - unfold posts_wf. by rewrite Hnil. }
  intros posts s1 (HS & Hc & Hfull). pose proof (sg_depth _ _ HS) as Hdepth.
  eapply wp_mono; [by apply wp_post_all, Stage_posting| |done].
  intros _ s2 (HR' & Hc' & Hx & Ho). split_and!; [done|congruence|].
  rewrite Hx. destruct Hfull as [?|Hfull]; [by left|right]. intros i Hi.
  rewrite Ho, decide_True, Nat.sub_0_r by lia. rewrite Hc' in *.
  specialize (Hfull i Hi). specialize (Hdepth i Hi). unfold full in Hfull. lia.
Qed.

(** ** Progress *)

(** No queue pair has room that a chunk could fill. *)
Definition Saturated s : Prop :=
  s_exhausted s = true ∨
  ∀ i, (i < cf_qp_count (s_cfg s))%nat → outstanding_of s i = cf_queue_depth (s_cfg s).

(** The batch has completed: every byte of every request was moved by exactly
    one posted work request, and the callback has run once, after all of them. *)
Record Finished s : Prop := mk_Finished {
  fn_idle : Idle s;
  fn_batch : ∃ b, s_batches s !! bid = Some b ∧ b_done b = true ∧ b_requests b = reqs ∧
    b_total_bytes b = foldr (λ r n, rr_length r + n) 0 reqs ∧
    b_completed_bytes b = b_total_bytes b ∧ b_completed_chunks b = b_total_chunks b ∧
    (cbk = NoCallback → b_error b = None);
  fn_trace : ∃ pw,
    s_trace s = T0 ++ (post_event <$> pw) ++
      match cbk with Callback => [ECallback bid] | _ => [] end ∧
    wr_strip ∘ snd <$> pw ≡ₚ chunk_wr 0 <$> _iter_chunks (cf_chunk_size (s_cfg s)) reqs;
}.

(** The batch has failed with [e] and taken the scheduler with it. *)
Record Failed (e : exn) s : Prop := mk_Failed {
  fl_idle : Idle s;
  fl_poisoned : s_poisoned s = true;
  fl_owns : s_owns s = false;
  fl_batch : ∃ b, s_batches s !! bid = Some b ∧ b_done b = true ∧ b_error b = Some e;
}.

Lemma wp_route_wc i wc s :
  Running T0 bid reqs cbk s → (i < cf_qp_count (s_cfg s))%nat →
  wp (route_wc bid i wc)
    (λ _ s', Running T0 bid reqs cbk s' ∧ s_cfg s' = s_cfg s ∧ s_exhausted s' = s_exhausted s)
    (λ _ s', Safe bid s') s.
Proof.
  intros HR Hi. pose proof (Run_safe _ _ HR) as HS. unfold route_wc. apply wp_bind, wp_get.
  destruct (s_pending s !! wc_wr_id wc) as [[q c]|] eqn:Hp; [|done].
  assert (∀ p o, Safe bid (set_pending p o s)) as HS' by (by destruct HS).
  apply wp_bind, wp_modify, wp_bind, wp_guard_raise. cbn [pd_qp_index pd_chunk].
  destruct (Nat.eqb_spec q i) as [->|]; [cbn [negb]|apply HS'].
  apply wp_bind, wp_modify, wp_bind, wp_lift. unfold wc_raise_for_status.
  destruct (negb (wc_status wc =? 0)); [apply (HS' _ _)|].
  apply wp_modify. set (P := s_pending s) in *.
  destruct HR as [[] Hact Hreqs Hcbk Hexh Hoth (dn & pw & Hb & Ht & Hpw & Hc)]. fold P in Hpw, Hc.
  pose proof (pchunks_delete P _ _ Hp) as Hdel. cbn [pd_chunk] in Hdel.
  assert (i < length (s_outstanding s))%nat as Hi' by lia.
  split_and!; try done. constructor; try done.
  - constructor; try done.
    + cbn. by rewrite length_alter.
    + intros j Hj. cbn in Hj. etransitivity; [apply (outstanding_alter (λ n, n - 1) i j s Hi')|].
      cbn [s_pending set_batches set_pending].
      pose proof (count_qp_delete j P _ _ Hp) as Hcount. cbn [pd_qp_index] in Hcount.
      rewrite !bk_out0 by done. fold P. case_decide; [subst j|]; lia.
    + intros j Hj. cbn in Hj. etransitivity;
        [apply Z.eq_le_incl, (outstanding_alter (λ n, n - 1) i j s Hi')|].
      specialize (bk_depth0 j Hj). case_decide; [subst j|]; cbn; lia.
    + intros k p. cbn. rewrite lookup_delete_Some. intros [_ Hk]. by eapply bk_range0.
  - intros bid' b. cbn. destruct (decide (bid' = bid)) as [->|Hne]; [done|].
    rewrite list_lookup_alter_ne by done. apply Hoth.
  - exists (dn ++ [c]), pw. split_and!; [|done| |].
    + cbn. rewrite list_lookup_alter_eq, Hb. cbn. unfold batch_at, add_b_completed; cbn.
      do 2 f_equal; [rewrite fmap_app, sumZ_app; cbn; lia|rewrite length_app; cbn; lia].
    + rewrite Hpw, Hdel. cbn [s_pending set_batches set_pending].
      by rewrite <- app_assoc.
    + cbn [s_pending s_iter s_cfg set_batches set_pending]. rewrite <- Hc, Hdel.
      by rewrite <- !app_assoc.
Qed.

Lemma wp_poll_cqs idx completed s :
  Running T0 bid reqs cbk s → (∀ i, i ∈ idx → (i < cf_qp_count (s_cfg s))%nat) →
  wp (poll_cqs bid idx completed)
    (λ c s', Running T0 bid reqs cbk s' ∧ s_cfg s' = s_cfg s ∧
       s_exhausted s' = s_exhausted s ∧ completed ≤ c ∧
       (c = completed → s_outstanding s' = s_outstanding s))
    (λ _ s', Safe bid s') s.
Proof.
  revert completed s. induction idx as [|i idx IH]; intros completed s HR Hidx;
    cbn [poll_cqs]; [by apply wp_ret|]. apply wp_bind, wp_get.
  assert (∀ j, j ∈ idx → (j < cf_qp_count (s_cfg s))%nat) as Hidx' by (intros; apply Hidx; by right).
  destruct (_ =? 0); [by apply IH|].
  apply wp_bind, wp_dev_any; [intros wcs w|intros e w; by eapply Safe_world, Run_safe].
  apply wp_bind. destruct wcs as [|wc wcs].
  { cbn [for_each]. apply wp_ret. rewrite Z.add_0_r.
    by apply (IH completed (set_world w s)); [apply Run_world|]. }
  eapply wp_mono; [apply (wp_for_each _ _ (λ _ s', Running T0 bid reqs cbk s' ∧
    s_cfg s' = s_cfg s ∧ s_exhausted s' = s_exhausted s) (λ _ s', Safe bid s'))| |done].
  - split; [by apply Run_world|done].
  - intros x l s' (HR' & Hc & Hx). eapply wp_mono; [apply wp_route_wc; [done|]| |done].
    + rewrite Hc. apply Hidx. by left.
    + intros _ s'' (? & ? & ?). split_and!; [done|congruence|congruence].
  - cbn. intros _ s' (HR' & Hc & Hx). eapply wp_mono; [apply IH; [done|by rewrite Hc]| |done].
    cbn. intros c s'' (? & Hc' & Hx' & Hle & _). split_and!; try done; [congruence..|lia|lia].
Qed.

Lemma wp_finish_success s :
  Running T0 bid reqs cbk s → s_exhausted s = true → s_pending s = ∅ →
  wp (_finish_success bid)
    (λ _ s', Finished s' ∧ s_cfg s' = s_cfg s ∧ s_poisoned s' = s_poisoned s) (λ _ _, False) s.
Proof.
  intros [HB Hact Hreqs Hcbk Hexh Hoth (dn & pw & Hb & Ht & Hpw & Hc)] Hx HP.
  rewrite HP in Hpw, Hc. unfold pchunks in Hpw, Hc. rewrite map_to_list_empty in Hpw, Hc.
  cbn in Hpw, Hc. rewrite (Hexh Hx), app_nil_r in Hc. rewrite app_nil_r in Hpw.
  pose proof (iter_chunks_counts _ (cfg_chunk _ (bk_cfg _ HB)) reqs Hreqs) as (Hn & Hsum & _).
  rewrite Hc in Hpw. pose proof (Permutation_length Hc) as Hlen.
  assert (sumZ (ck_length <$> dn) = foldr (λ r n, rr_length r + n) 0 reqs) as Hbytes
    by (rewrite Hc; exact Hsum).
  set (b0 := batch_at (cf_chunk_size (s_cfg s)) reqs cbk dn) in *.
  assert (∀ f bs tr w, (∀ b, b_done (f b) = b_done b) →
    s_batches s = bs → Idle (set_world w (set_trace tr (set_batches
      (alter f bid (alter set_b_done bid bs)) (set_input None [] (s_exhausted s) s))))) as Hidle.
  { intros f bs tr w Hf <-. destruct HB. constructor; try done.
    intros bid' b. cbn. destruct (decide (bid' = bid)) as [->|Hne].
    - rewrite !list_lookup_alter_eq, Hb. intros [= <-]. by rewrite Hf.
    - rewrite !list_lookup_alter_ne by done. intros Hl. by apply (Hoth bid' b Hl). }
  unfold _finish_success, update_batch.
  apply wp_bind, wp_modify, wp_bind, wp_modify, wp_bind. unfold get_batch.
  apply wp_bind, wp_get. cbn [s_batches set_input set_batches].
  rewrite list_lookup_alter_eq, Hb. cbn [fmap option_fmap option_map]. apply wp_ret.
  change (b_on_complete (set_b_done b0)) with cbk.
  change (b_callback_called (set_b_done b0)) with false.
  destruct cbk eqn:Hcb; [| |done].
  - apply wp_ret. split_and!; [|done|done]. constructor.
    + specialize (Hidle id (s_batches s) (s_trace s) (s_world s)).
      rewrite list_alter_id in Hidle by done. by apply Hidle.
    + exists (set_b_done b0). cbn. rewrite list_lookup_alter_eq, Hb. split_and!; try done.
      rewrite <- Hn, <- Hlen. done.
    + exists pw. cbn. by rewrite Hcb, app_nil_r.
  - assert (∀ f w, (∀ b, b_done (f b) = b_done b ∧ b_requests (f b) = b_requests b ∧
        b_total_bytes (f b) = b_total_bytes b ∧ b_total_chunks (f b) = b_total_chunks b ∧
        b_completed_bytes (f b) = b_completed_bytes b ∧
        b_completed_chunks (f b) = b_completed_chunks b) →
      Finished (set_world w (set_trace (s_trace s ++ [ECallback bid]) (set_batches
        (alter f bid (alter set_b_done bid (s_batches s)))
        (set_input None [] (s_exhausted s) s))))) as Hfin.
    { intros f w Hf. constructor.
      - apply Hidle; [|done]. intros b. by destruct (Hf b).
      - exists (f (set_b_done b0)). cbn. rewrite !list_lookup_alter_eq, Hb.
        destruct (Hf (set_b_done b0)) as (-> & -> & -> & -> & -> & ->).
        split_and!; [done..| |congruence]. cbn. by rewrite <- Hn, <- Hlen.
      - exists pw. cbn. rewrite Hcb, Ht. by rewrite app_assoc. }
    apply wp_bind, wp_modify. apply wp_try_except, wp_bind. unfold wp, dev.
    destruct (dev_on_complete bid _) as [[[]|e] w].
    + apply wp_modify. split_and!; [|done|done]. by apply (Hfin set_b_called w).
    + apply wp_bind, wp_modify, wp_modify. split_and!; [|done|done].
      specialize (Hfin (set_b_error e ∘ set_b_called) w).
      rewrite <- list_alter_alter_eq in Hfin. by apply Hfin.
Qed.

Lemma wp_close_each (close : nat → M W unit) ids first s :
  wp (close_each close ids first) (λ _ s', ∃ w, s' = set_world w s) (λ _ _, False) s.
Proof.
  revert first s. induction ids as [|i ids IH]; intros first s.
  { exists (s_world s). by destruct s. }
  change (close_each close (i :: ids) first) with
    (try_except (dev (close i);; mret first) (λ e, mret (Some (default e first)))
       ≫= close_each close ids).
  apply wp_bind, wp_try_except, wp_bind. apply wp_dev_any.
  - intros _ w. apply wp_ret. eapply wp_mono; [apply IH| |done].
    intros _ s' [w' ->]. by exists w'.
  - intros e w. apply wp_ret. eapply wp_mono; [apply IH| |done].
    intros _ s' [w' ->]. by exists w'.
Qed.

(** Poisoning: the owned resources are closed, errors are swallowed, and only
    the flags and the environment change. *)
Lemma wp_poison_resources s :
  wp _poison_resources
    (λ _ s', ∃ w c, s' = set_world w (set_flags false c true s) ∧
       (s_owns s = true → c = true))
    (λ _ _, False) s.
Proof.
  unfold _poison_resources. apply wp_bind, wp_modify, wp_bind, wp_get. cbn [s_owns set_flags].
  destruct (s_owns s) eqn:Ho.
  2: { apply wp_ret. exists (s_world s), (s_closed s). split; [|done]. done. }
  apply wp_bind, wp_modify. unfold _close_owned. apply wp_bind, wp_get.
  cbn [s_owns set_flags negb]. apply wp_bind.
  eapply wp_mono; [apply wp_close_each| |done]. intros o1 s1 [w1 ->].
  apply wp_bind. eapply wp_mono; [apply wp_close_each| |done]. intros o2 s2 [w2 ->].
  apply wp_bind, wp_modify. destruct o2; apply wp_ret; by exists w2, true.
Qed.

Lemma wp_fail_transport e msg s :
  Safe bid s →
  wp (_fail_transport bid e msg)
    (λ _ s', Failed (if msg && negb (keeps_class e) then RdmaReadError else e) s' ∧
       s_cfg s' = s_cfg s)
    (λ _ _, False) s.
Proof.
  intros [Hcfg Hnext [b Hb] Hoth]. unfold _fail_transport.
  set (e' := if msg && negb (keeps_class e) then RdmaReadError else e).
  apply wp_bind. unfold update_batch. apply wp_modify, wp_bind, wp_modify, wp_bind, wp_modify.
  eapply wp_mono; [apply wp_poison_resources| |done].
  intros _ s' (w & c & -> & _). split; [|done].
  pose proof (cfg_depth _ Hcfg). constructor; try done.
  - constructor; try done.
    + constructor; try done.
      * cbn. unfold no_outstanding. by rewrite length_replicate.
      * intros i Hi. cbn [s_pending set_world set_flags set_pending]. rewrite count_qp_empty.
        unfold outstanding_of. cbn. unfold no_outstanding. by rewrite lookup_replicate_2.
      * intros i Hi. unfold outstanding_of. cbn in *. unfold no_outstanding. rewrite lookup_replicate_2 by done.
        cbn. lia.
    + intros bid' b'. cbn. destruct (decide (bid' = bid)) as [->|Hne].
      * rewrite list_lookup_alter_eq, Hb. by intros [= <-].
      * rewrite list_lookup_alter_ne by done. intros Hl. by apply (Hoth bid' b' Hl).
  - eexists. cbn. rewrite list_lookup_alter_eq, Hb. done.
Qed.

(** Reading the fields of a batch. *)
Lemma wp_raise_batch_status (b : Batch) Q E s :
  s_batches s !! bid = Some b →
  wp (raise_batch_status bid) Q E s ↔
    match b_error b with None => Q tt s | Some e => E e s end.
Proof.
  intros Hb. unfold raise_batch_status, get_batch, wp, mbind, M_bind, get, lift,
    batch_raise_for_status. rewrite Hb. cbn. by destruct (b_error b).
Qed.

Lemma wp_get_batch (b : Batch) Q E s :
  s_batches s !! bid = Some b → wp (get_batch bid) Q E s ↔ Q b s.
Proof. intros Hb. unfold get_batch, wp, mbind, M_bind, get. by rewrite Hb. Qed.

Lemma Run_batch ex s : Run ex s →
  ∃ b, s_batches s !! bid = Some b ∧ b_done b = false ∧ s_active s = Some bid.
Proof. intros [? Ha ? ? ? ? (dn & pw & Hb & _)]. by exists (batch_at (cf_chunk_size (s_cfg s)) reqs cbk dn). Qed.

(** A failure inside an operation ends as the error of the batch. *)
Lemma wp_fail_and_raise {A} e msg (Q : A → Sched W → Prop) (k : M (Sched W) A) s :
  Safe bid s →
  wp (_fail_transport bid e msg;; raise_batch_status bid;; k) Q (λ e' s', Failed e' s') s.
Proof.
  intros HS. apply wp_bind. eapply wp_mono; [by apply wp_fail_transport| |done].
  intros _ s' [HF _]. apply wp_bind.
  destruct (fl_batch _ _ HF) as (b & Hb & _ & He).
  rewrite (wp_raise_batch_status b) by done. by rewrite He.
Qed.

Lemma wp_progress_body s :
  Running T0 bid reqs cbk s →
  wp (progress_body bid)
    (λ _ s', s_cfg s' = s_cfg s ∧
       (Running T0 bid reqs cbk s' ∧ (Saturated s → Saturated s') ∨ Finished s'))
    (λ _ s', Safe bid s') s.
Proof.
  intros HR. unfold progress_body. apply wp_bind, wp_get, wp_bind.
  eapply wp_mono; [apply wp_poll_cqs; [done|]| |done].
  { intros i [_ Hi]%elem_of_seq. lia. }
  intros c s1 (HR1 & Hc1 & Hx1 & Hle & Hsame). apply wp_bind.
  eapply wp_mono with (λ _ s2, Running T0 bid reqs cbk s2 ∧ s_cfg s2 = s_cfg s ∧
    (Saturated s → Saturated s2)) (λ _ s', Safe bid s'); [| |done].
  { destruct (Z.eqb_spec c 0) as [->|]; cbn [negb].
    - apply wp_ret. split_and!; [done..|]. unfold Saturated, outstanding_of.
      by rewrite Hx1, Hc1, Hsame.
    - eapply wp_mono; [by apply wp_refill| |done].
      intros _ s2 (? & ? & ?). split_and!; [done|congruence|done]. }
  intros _ s2 (HR2 & Hc2 & Hsat). apply wp_bind, wp_get, wp_bind.
  destruct (s_exhausted s2) eqn:Hx; cbn [andb].
  2: { apply wp_ret, wp_ret. split; [done|by left]. }
  case_bool_decide as HP.
  - eapply wp_mono; [by apply wp_finish_success| |done]. intros _ s3 (HF & Hc3 & _).
    apply wp_ret. split; [congruence|by right].
  - apply wp_ret, wp_ret. split; [done|by left].
Qed.

Lemma wp_progress s :
  Running T0 bid reqs cbk s →
  wp (progress bid)
    (λ _ s', s_cfg s' = s_cfg s ∧
       (Running T0 bid reqs cbk s' ∧ (Saturated s → Saturated s') ∨ Finished s'))
    (λ e s', Failed e s') s.
Proof.
  intros HR. destruct (Run_batch _ _ HR) as (b & Hb & Hd & Ha).
  unfold progress, _validate_batch. apply wp_bind, wp_bind, (wp_get_batch b); [done|].
  apply wp_bind, wp_get, wp_guard_raise. rewrite Hd, bool_decide_true by done. cbn [andb negb].
  apply wp_bind, (wp_get_batch b); [done|]. rewrite Hd.
  apply wp_try_except. eapply wp_mono; [by apply wp_progress_body|done|].
  intros e s' HS. by apply wp_fail_and_raise.
Qed.

Lemma wp_wait_round always deadline idle s :
  Running T0 bid reqs cbk s ∨ Finished s →
  wp (wait_round always bid deadline idle)
    (λ o s', s_cfg s' = s_cfg s ∧
       match o with Some _ => Finished s' | None => Running T0 bid reqs cbk s' end)
    (λ e s', Failed e s' ∨ Running T0 bid reqs cbk s') s.
Proof.
  intros [HR|HF]; unfold wait_round; apply wp_bind.
  2: { destruct (fn_batch _ HF) as (b & Hb & Hd & _). rewrite (wp_get_batch b) by done.
       rewrite Hd. by apply wp_ret. }
  destruct (Run_batch _ _ HR) as (b & Hb & Hd & _). rewrite (wp_get_batch b) by done.
  rewrite Hd. apply wp_bind. eapply wp_mono; [by apply wp_progress| |by left].
  intros c s1 (Hc1 & [[HR1 _]|HF1]); apply wp_bind.
  2: { destruct (fn_batch _ HF1) as (b1 & Hb1 & Hd1 & _). rewrite (wp_get_batch b1) by done.
       rewrite Hd1. by apply wp_ret. }
  destruct (Run_batch _ _ HR1) as (b1 & Hb1 & Hd1 & _). rewrite (wp_get_batch b1) by done.
  rewrite Hd1. apply wp_bind.
  eapply wp_mono with (λ _ s2, Running T0 bid reqs cbk s2 ∧ s_cfg s2 = s_cfg s)
    (λ e s2, Failed e s2 ∨ Running T0 bid reqs cbk s2); [| |done].
  - destruct deadline as [d|]; [|by apply wp_ret]. apply wp_bind.
    unfold wp at 1, monotonic. destruct (dev_clock (s_world s1)) as [t w].
    destruct (d <=? t); [|apply wp_ret; split; [by apply Run_world|done]].
    apply (Run_world _ w), Run_safe in HR1.
    pose proof (wp_fail_and_raise RdmaReadTimeout false (λ _ _, False) (mret tt)
      (set_world w s1) HR1) as Hf.
    unfold wp, mbind, M_bind in *. unfold mret, M_ret in Hf.
    destruct (_fail_transport _ _ _ _) as [[[]|e] s2]; [|by left].
    destruct (raise_batch_status bid s2) as [[[]|e] s3]; [done|by left].
  - intros _ s2 [HR2 Hc2]. apply wp_bind.
    destruct (_ || _); [|apply wp_ret, wp_ret; done].
    apply wp_dev_any; [|intros e w; right; by apply Run_world].
    intros _ w. apply wp_ret. split; [done|by apply Run_world].
Qed.

Lemma wp_wait always fuel timeout idle s :
  Running T0 bid reqs cbk s ∨ Finished s →
  wp (wait_with always fuel bid timeout idle)
    (λ o s', s_cfg s' = s_cfg s ∧
       match o with
       | Some r => r = bid ∧ Finished s' ∧
           ∃ b, s_batches s' !! bid = Some b ∧ b_error b = None
       | None => Running T0 bid reqs cbk s' ∨ Finished s'
       end)
    (λ e s', Failed e s' ∨ Finished s' ∨ e = ValueError ∧ s' = s) s.
Proof.
  intros Hs. unfold wait_with, _validate_wait_options. apply wp_bind, wp_bind, wp_guard_raise.
  destruct (match timeout with Some t => t <=? 0 | None => false end); [by auto|].
  apply wp_guard_raise. destruct (idle <? 0); [by auto|]. apply wp_bind.
  eapply wp_mono with (λ _ s1, (Running T0 bid reqs cbk s1 ∨ Finished s1) ∧ s_cfg s1 = s_cfg s)
    (λ _ _, False); [|intros deadline s1 [Hs1 Hc1]|done].
  { destruct timeout as [t|]; [|by apply wp_ret]. apply wp_bind. unfold wp at 1, monotonic.
    destruct (dev_clock (s_world s)) as [now w]. apply wp_ret. split; [|done].
    destruct Hs as [HR|[[[]] Hb Ht]]; [left; by apply Run_world|right].
    constructor; [|done|done]. by constructor. }
  apply wp_bind, wp_try_except.
  eapply wp_mono with (λ o s2, s_cfg s2 = s_cfg s ∧
      match o with Some _ => Finished s2 | None => Running T0 bid reqs cbk s2 ∨ Finished s2 end)
    (λ e s2, Failed e s2 ∨ Running T0 bid reqs cbk s2).
  - apply (wp_while_loop _ (λ s2, (Running T0 bid reqs cbk s2 ∨ Finished s2) ∧ s_cfg s2 = s_cfg s)
      (λ o s2, s_cfg s2 = s_cfg s ∧
      match o with Some _ => Finished s2 | None => Running T0 bid reqs cbk s2 ∨ Finished s2 end)).
    + intros s2 [Hs2 Hc2]. eapply wp_mono; [by apply wp_wait_round| |done].
      intros [[]|] s3 [Hc3 Hs3]; split; [congruence|done|by left|congruence].
    + by intros s2 [? ?].
    + done.
  - intros [[]|] s2 [Hc2 HF]; [|by apply wp_ret]. apply wp_bind.
    destruct (fn_batch _ HF) as (b & Hb & _). rewrite (wp_raise_batch_status b) by done.
    destruct (b_error b) eqn:He; [by auto|]. apply wp_ret. split_and!; [done..|by exists b].
  - intros e s2 [HF|HR]; apply wp_bind.
    + destruct (fl_batch _ _ HF) as (b & Hb & Hd & _). rewrite (wp_get_batch b) by done.
      rewrite Hd. apply wp_bind, wp_ret. by left.
    + destruct (Run_batch _ _ HR) as (b & Hb & Hd & _). rewrite (wp_get_batch b) by done.
      rewrite Hd. apply wp_bind.
      eapply wp_mono; [apply wp_fail_transport; by eapply Run_safe| |done].
      cbn. intros _ s3 [HF _]. by left.
Qed.

Lemma mapM_Some {A} (l : list A) : mapM id (Some <$> l) = Some l.
Proof. induction l as [|x l IH]; [done|]. rewrite fmap_cons. cbn. by rewrite IH. Qed.

Lemma wp_sched_submit s :
  Idle s → s_closed s = false → s_poisoned s = false → T0 = s_trace s →
  bid = length (s_batches s) → cbk ≠ NotCallable → Forall (λ r, 0 < rr_length r) reqs →
  wp (submit (Some <$> reqs) cbk)
    (λ r s', r = bid ∧ s_cfg s' = s_cfg s ∧
       (Running T0 bid reqs cbk s' ∧ Saturated s' ∨ Finished s'))
    (λ e s', Failed e s') s.
Proof.
  intros [HB Hact HP Hdone] Hcl Hpo HT Hbid Hcbk Hreqs. unfold submit, _ensure_usable.
  apply wp_bind, wp_bind, wp_get. rewrite Hcl, Hpo. apply wp_ret, wp_bind, wp_get.
  rewrite Hact. apply wp_bind.
  assert (∀ Q E, Q tt s → wp (match cbk with NotCallable => raise TypeError | _ => mret tt end) Q E s)
    as Hcallable by (intros; destruct cbk; done).
  apply Hcallable. rewrite mapM_Some.
  pose proof (iter_chunks_counts _ (cfg_chunk _ (bk_cfg _ HB)) reqs Hreqs) as (Hn & _ & _).
  apply wp_bind, wp_modify, wp_bind, wp_modify. rewrite <- Hbid. cbn [s_batches set_batches].
  match goal with |- wp _ _ _ ?x => set (s1 := x) end.
  assert (Running T0 bid reqs cbk s1) as HR.
  { destruct HB. constructor; try done.
    - cbn. intros Hz. apply nil_length_inv. lia.
    - intros bid' b. cbn. intros Hl Hne.
      apply lookup_app_Some in Hl as [Hl|[Hge Hl]]; [by eapply Hdone|].
      destruct (bid' - length (s_batches s))%nat eqn:Hd; [lia|done].
    - exists [], []. cbn. rewrite HP. unfold pchunks. rewrite map_to_list_empty. split_and!; [|by rewrite app_nil_r|done|done].
      rewrite lookup_app_r, Hbid, Nat.sub_diag by lia. done. }
  destruct (total_chunks_of _ reqs =? 0) eqn:Hz.
  - apply wp_bind. eapply wp_mono; [apply wp_finish_success; [done..|exact HP]| |done].
    intros _ s2 (HF & Hc & _). apply wp_ret. split_and!; [done|by rewrite Hc|by right].
  - apply wp_bind, wp_try_except. eapply wp_mono; [by apply wp_refill| |].
    + intros _ s2 (HR2 & Hc & Hsat). apply wp_ret. split_and!; [done|by rewrite Hc|by left].
    + intros e s2 HS. pose proof (wp_fail_and_raise e true (λ _ _, False) (mret tt) s2 HS) as Hf.
      unfold wp, mbind, M_bind in *. unfold mret, M_ret in Hf |- *.
      destruct (_fail_transport _ _ _ _) as [[[]|e'] s3]; [|done].
      by destruct (raise_batch_status bid s3) as [[[]|e''] s4].
Qed.
End Refill.

(** ** The clock *)

(** The environment's operations do not turn the clock back. *)
Class SchedClock (W : Type) `{SchedDevice W} `{ClockLaws W} := {
  sge_clock : ∀ a b c w, now w ≤ now (dev_sge a b c w).2;
  post_send_clock : ∀ i l w, now w ≤ now (dev_post_send i l w).2;
  poll_clock : ∀ i n w, now w ≤ now (dev_poll i n w).2;
  close_qp_clock : ∀ i w, now w ≤ now (dev_close_qp i w).2;
  close_cq_clock : ∀ i w, now w ≤ now (dev_close_cq i w).2;
  on_complete_clock : ∀ i w, now w ≤ now (dev_on_complete i w).2;
  sleep_clock : ∀ t w, now w ≤ now (dev_sleep t w).2;
}.

Section SchedulerClock.
Context {W : Type} `{!SchedDevice W} `{!Clock W} `{!RcQp nat W} `{!ClockLaws W}
  `{!SchedClock W}.
Implicit Types s : Sched W.

(** Run from any state, [m] leaves the clock no earlier. *)
Definition forward {A} (m : M (Sched W) A) : Prop :=
  ∀ s, now (s_world s) ≤ now (s_world (m s).2).

Lemma forward_ret {A} (a : A) : forward (mret a).
Proof. intros s. cbn. lia. Qed.
Lemma forward_raise {A} e : forward (raise (A := A) e).
Proof. intros s. cbn. lia. Qed.
Lemma forward_lift {A} (r : result A) : forward (lift r).
Proof. intros s. cbn. lia. Qed.
Lemma forward_get : forward get.
Proof. intros s. cbn. lia. Qed.
Lemma forward_guard c e : forward (guard_raise c e).
Proof. destruct c; [apply forward_raise|apply forward_ret]. Qed.
Lemma forward_modify f : (∀ s, s_world (f s) = s_world s) → forward (modify f).
Proof. intros H s. cbn. rewrite H. lia. Qed.
Lemma forward_bind {A B} (m : M (Sched W) A) (f : A → M (Sched W) B) :
  forward m → (∀ a, forward (f a)) → forward (m ≫= f).
Proof.
  intros Hm Hf s. specialize (Hm s). unfold mbind, M_bind.
  destruct (m s) as [[a|e] s']; [|done]. specialize (Hf a s'). cbn in *. lia.
Qed.
Lemma forward_try {A} (m : M (Sched W) A) h :
  forward m → (∀ e, forward (h e)) → forward (try_except m h).
Proof.
  intros Hm Hf s. specialize (Hm s). unfold try_except.
  destruct (m s) as [[a|e] s']; [done|]. specialize (Hf e s'). cbn in *. lia.
Qed.
Lemma forward_dev {A} (m : M W A) : (∀ w, now w ≤ now (m w).2) → forward (dev m).
Proof. intros Hm s. specialize (Hm (s_world s)). unfold dev. by destruct (m (s_world s)). Qed.
Lemma forward_for_each {A} (f : A → M (Sched W) unit) l :
  (∀ a, forward (f a)) → forward (for_each f l).
Proof. intros Hf. induction l; cbn; auto using forward_ret, forward_bind. Qed.

Create HintDb forward.
Hint Resolve forward_ret forward_raise forward_lift forward_get forward_guard
  forward_for_each : forward.
Hint Extern 1 (forward (modify _)) => apply forward_modify; done : forward.
Hint Resolve sge_clock post_send_clock poll_clock close_qp_clock close_cq_clock
  on_complete_clock sleep_clock : forward.

Ltac forward_step :=
  match goal with
  | |- forward (_ ≫= _) => apply forward_bind; [|intros ?]
  | |- forward (try_except _ _) => apply forward_try; [|intros ?]
  | |- forward (dev _) => apply forward_dev; intros ?
  | |- forward (match ?x with _ => _ end) => destruct x
  | |- _ => progress (cbv beta zeta)
  end.
Ltac forward := auto with forward; repeat (forward_step; auto with forward).

Lemma forward_close_each close ids first :
  (∀ i w, now w ≤ now (close i w).2) → forward (close_each close ids first).
Proof.
  intros Hc. revert first. induction ids as [|i ids IH]; intros first; [apply forward_ret|].
  unfold close_each in *. cbn [foldr]. forward.
Qed.
Hint Resolve forward_close_each : forward.

Lemma forward_get_batch bid : forward (get_batch bid).
Proof. unfold get_batch. forward. Qed.
Hint Resolve forward_get_batch : forward.

Lemma forward_fail_transport bid e msg : forward (_fail_transport bid e msg).
Proof.
  unfold _fail_transport, update_batch, _poison_resources, _close_owned. forward.
Qed.
Hint Resolve forward_fail_transport : forward.

Lemma forward_alloc_loop fuel : forward (alloc_loop (W := W) fuel).
Proof. induction fuel; cbn [alloc_loop]; forward. Qed.
Hint Resolve forward_alloc_loop : forward.

Lemma forward_refill_pass idx posts made : forward (refill_pass idx posts made).
Proof.
  revert posts made. induction idx as [|i idx IH]; intros posts made; cbn [refill_pass];
    unfold next_post, _allocate_wr_id; forward.
Qed.
Hint Resolve forward_refill_pass : forward.

Lemma forward_refill_stage fuel posts made : forward (refill_stage fuel posts made).
Proof.
  revert posts made. induction fuel; intros posts made; cbn [refill_stage]; forward.
Qed.
Hint Resolve forward_refill_stage : forward.

Lemma forward_post_all i posts : forward (post_all i posts).
Proof.
  revert i. induction posts as [|q posts IH]; intros i; cbn [post_all]; unfold post_queue; forward.
Qed.
Hint Resolve forward_post_all : forward.

Lemma forward_poll_cqs bid idx c : forward (poll_cqs bid idx c).
Proof.
  revert c. induction idx as [|i idx IH]; intros c; cbn [poll_cqs]; forward.
  apply forward_for_each. intros wc. unfold route_wc, update_batch. forward.
Qed.
Hint Resolve forward_poll_cqs : forward.

Lemma forward_progress bid : forward (progress bid).
Proof.
  unfold progress, _validate_batch, progress_body, _refill, _finish_success, update_batch,
    raise_batch_status. forward.
Qed.

Lemma forward_wp {A} (m : M (Sched W) A) t s :
  forward m → t ≤ now (s_world s) →
  wp m (λ _ s', t ≤ now (s_world s')) (λ _ _, True) s.
Proof.
  intros Hm Ht. specialize (Hm s). unfold wp. destruct (m s) as [[a|e] s']; [|done].
  cbn in Hm. lia.
Qed.

Lemma wp_monotonic_clock Q E s :
  (∀ w, now w > now (s_world s) → Q (now (s_world s)) (set_world w s)) →
  wp monotonic Q E s.
Proof.
  intros HQ. unfold wp, monotonic. pose proof (clock_now (s_world s)) as Hn.
  pose proof (clock_advances (s_world s)). destruct (dev_clock (s_world s)) as [t w].
  cbn in *. subst t. apply HQ. lia.
Qed.

Lemma wp_get_batch_any bid s :
  wp (get_batch bid) (λ b s', s' = s ∧ s_batches s !! bid = Some b) (λ _ _, True) s.
Proof.
  unfold get_batch. apply wp_bind, wp_get. destruct (s_batches s !! bid) eqn:Hb; [|done].
  by apply wp_ret.
Qed.

(** A failed batch raises. *)
Lemma wp_fail_raises bid e msg s :
  is_Some (s_batches s !! bid) →
  wp (_fail_transport bid e msg;; raise_batch_status bid) (λ _ _, False) (λ _ _, True) s.
Proof.
  intros [b Hb]. apply wp_bind. unfold _fail_transport, update_batch.
  apply wp_bind, wp_modify, wp_bind, wp_modify, wp_bind, wp_modify.
  eapply wp_mono; [apply wp_poison_resources| |done]. intros _ s' (w & c & -> & _).
  eapply wp_raise_batch_status; [cbn; by rewrite list_lookup_alter_eq, Hb|done].
Qed.

(** A round of a timed wait that goes on has read the clock before the
    deadline and moved it forward. *)
Lemma wait_round_clock always bid d idle s s' :
  wait_round always bid (Some d) idle s = (Ok None, s') →
  now (s_world s) < now (s_world s') ∧ now (s_world s) < d.
Proof.
  intros Hrun.
  enough (wp (wait_round always bid (Some d) idle)
    (λ o s', o = None → now (s_world s) < now (s_world s') ∧ now (s_world s) < d)
    (λ _ _, True) s) as Hwp by (unfold wp in Hwp; rewrite Hrun in Hwp; by apply Hwp).
  clear Hrun s'. unfold wait_round. apply wp_bind.
  eapply wp_mono; [apply wp_get_batch_any| |done].
  intros b s1 [-> _]. destruct (b_done b); [by apply wp_ret|]. apply wp_bind.
  eapply wp_mono; [apply (forward_wp _ (now (s_world s))); [apply forward_progress|lia]| |done].
  intros c s2 H2. apply wp_bind. cbn in H2.
  eapply wp_mono; [apply wp_get_batch_any| |done].
  intros b2 s3 [-> Hb2]. destruct (b_done b2); [by apply wp_ret|].
  apply wp_bind.
  eapply wp_mono with (λ _ s4, now (s_world s) + 1 ≤ now (s_world s4) ∧ now (s_world s) < d)
    (λ _ _, True); [| |done].
  - apply wp_bind, wp_monotonic_clock. intros w Hw.
    destruct (Z.leb_spec d (now (s_world s2))); [|apply wp_ret; cbn; lia].
    eapply wp_mono; [apply wp_fail_raises; by exists b2|done|done].
  - intros _ s4 [H4 Hd]. apply wp_bind.
    eapply wp_mono; [apply (forward_wp _ (now (s_world s) + 1)); [forward|lia]| |done].
    intros u s5 H5. apply wp_ret. cbn in H5. lia.
Qed.
End SchedulerClock.

(** * A concrete device

    Each queue pair completes its requests in the order posted, at most two per
    poll, with status [lw_status]; the clock ticks at each reading. *)
Module Loopback.
Record world := mk_world {
  lw_queues : list (list Z);
  lw_status : Z;
  lw_time : Z;
}.

#[global] Instance device : SchedDevice world := {|
  dev_sge _ _ _ := mret tt;
  dev_post_send i wrs := λ w, (Ok tt, mk_world
    (alter (λ q, q ++ (wr_wr_id <$> wrs)) i (lw_queues w)) (lw_status w) (lw_time w));
  dev_poll i n := λ w,
    let q := default [] (lw_queues w !! i) in
    let k := Nat.min 2 (Z.to_nat n) in
    (Ok ((λ id, mk_WC id (lw_status w) 0) <$> take k q),
     mk_world (alter (drop k) i (lw_queues w)) (lw_status w) (lw_time w));
  dev_close_qp _ := mret tt;
  dev_close_cq _ := mret tt;
  dev_on_complete _ := mret tt;
  dev_sleep _ := mret tt;
  dev_create_cq _ := mret tt;
  dev_create_qp _ _ := mret tt;
  dev_qp_num i := Z.of_nat i;
  dev_qp_has_context _ := true;
  dev_max_qp_rd_atom := mret 16;
|}.

#[global] Instance clock : Clock world := λ w,
  (lw_time w, mk_world (lw_queues w) (lw_status w) (lw_time w + 1)).

#[global] Instance clock_laws : ClockLaws world.
Proof. refine {| now := lw_time |}; [done|intros w; cbn; lia]. Defined.

#[global] Instance sched_clock : SchedClock world.
Proof. split; intros; cbn; lia. Defined.

#[global] Instance rc_qp : RcQp nat world := {|
  qp_active_mtu _ _ := mret 3;
  qp_to_init _ _ _ := mret tt;
  qp_to_rtr _ _ _ _ _ := mret tt;
  qp_to_rts _ _ _ := mret tt;
|}.

(** Two queue pairs of depth 2, chunks of four bytes. *)
Definition start (status : Z) : Sched world :=
  mk_Sched (mk_Config 2 2 4 2) true true [] None [] true ∅ [0; 0] 1 false false []
    (mk_world [[]; []] status 0).

Definition requests : list RdmaRequest :=
  [mk_RdmaRequest false 0 1000 7 10 0 0; mk_RdmaRequest false 0 2000 7 9 16 100].
End Loopback.

(** What the constructor returns is idle. *)
Lemma Sched_init_idle {W} qps cqs depth cs poll context owns cl (w : W) s :
  Z.of_nat qps * depth < _MAX_WR_ID →
  Sched_init qps cqs depth cs poll context owns cl w = Ok s → Idle s.
Proof.
  intros Hids. unfold Sched_init.
  destruct (Nat.eqb_spec qps 0); [done|]. destruct (negb _); [done|].
  destruct (Z.leb_spec depth 0); [done|].
  destruct ((cs <=? 0) || _) eqn:Hcs; [done|].
  destruct (Z.leb_spec (default depth poll) 0); [done|]. destruct (negb cl); [done|].
  intros [= <-]. apply orb_false_iff in Hcs as [Hcs _].
  constructor; [constructor|done|done|done]; cbn.
  - constructor; cbn; lia.
  - split; [lia|done].
  - by rewrite length_replicate.
  - intros i Hi. unfold outstanding_of. cbn.
    rewrite lookup_replicate_2, count_qp_empty by done. done.
  - intros i Hi. unfold outstanding_of. cbn. rewrite lookup_replicate_2 by done. cbn. lia.
  - done.
Qed.

Lemma Idle_start status : Idle (Loopback.start status).
Proof.
  apply (Sched_init_idle 2 2 2 4 (Some 2) true true true
    (Loopback.mk_world [[]; []] status 0)); [done|]. by vm_compute.
Qed.

(** * Every operation keeps the invariant *)

Section Reachable.
Context {W : Type} `{!SchedDevice W} `{!Clock W} `{!RcQp nat W}.
Implicit Types s : Sched W.

Definition valid_requests (reqs : list (option RdmaRequest)) : Prop :=
  Forall (λ o, match o with Some r => 0 < rr_length r | None => True end) reqs.

Lemma wp_snd {A} (m : M (Sched W) A) (P : Sched W → Prop) s :
  wp m (λ _ s', P s') (λ _ s', P s') s → P (m s).2.
Proof. unfold wp. by destruct (m s) as [[a|e] s']. Qed.

Lemma Inv_world w s : Inv s → Inv (set_world w s).
Proof.
  intros [[[]]|(T0 & bid & reqs & cbk & HR)]; [left|right].
  - by constructor.
  - exists T0, bid, reqs, cbk. by apply Run_world.
Qed.

Lemma Inv_books s : Inv s → Books s.
Proof. by intros [[]|(T0 & bid & reqs & cbk & [])]. Qed.

(** A batch that has not ended is the active one. *)
Lemma Inv_undone s bid b :
  Inv s → s_batches s !! bid = Some b → b_done b = false →
  ∃ T0 reqs cbk, Running T0 bid reqs cbk s.
Proof.
  intros [HI|(T0 & bid0 & reqs & cbk & HR)] Hb Hd.
  - by rewrite (id_done _ HI bid b Hb) in Hd.
  - destruct (decide (bid = bid0)) as [->|Hne]; [by exists T0, reqs, cbk|].
    by rewrite (rn_others _ _ _ _ _ _ HR bid b Hb Hne) in Hd.
Qed.

Lemma Failed_Inv bid e s : Failed bid e s → Inv s.
Proof. intros []. by left. Qed.
Lemma Finished_Inv T0 bid reqs cbk s : Finished T0 bid reqs cbk s → Inv s.
Proof. intros []. by left. Qed.
Lemma Running_Inv T0 bid reqs cbk s : Running T0 bid reqs cbk s → Inv s.
Proof. intros HR. right. by exists T0, bid, reqs, cbk. Qed.
Hint Resolve Failed_Inv Finished_Inv Running_Inv : core.

Lemma mapM_id_Some {A} (l : list (option A)) k : mapM id l = Some k → l = Some <$> k.
Proof.
  revert k. induction l as [|[x|] l IH]; intros k; cbn; [by intros [= <-]| |done].
  destruct (mapM id l) as [k'|]; [|done]. cbn. intros [= <-]. cbn. by rewrite <- IH.
Qed.

Lemma Inv_sched_submit reqs cbk s : Inv s → valid_requests reqs → Inv (submit reqs cbk s).2.
Proof.
  intros HI Hv. destruct HI as [HI|HR].
  2: { destruct HR as (T0 & bid & reqs0 & cbk0 & HR). pose proof (rn_active _ _ _ _ _ _ HR) as Ha.
       unfold submit, _ensure_usable, mbind, M_bind, get. destruct (s_closed s); [eauto|].
       destruct (s_poisoned s); [eauto|]. unfold mret, M_ret. rewrite Ha. cbn. eauto. }
  destruct (s_closed s) eqn:Hc.
  { unfold submit, _ensure_usable, mbind, M_bind, get. rewrite Hc. by left. }
  destruct (s_poisoned s) eqn:Hp.
  { unfold submit, _ensure_usable, mbind, M_bind, get. rewrite Hc, Hp. by left. }
  destruct (decide (cbk = NotCallable)) as [->|Hcb].
  { unfold submit, _ensure_usable, mbind, M_bind, get. rewrite Hc, Hp. unfold mret at 1, M_ret.
    rewrite (id_active _ HI). by left. }
  destruct (mapM id reqs) as [rs|] eqn:Hm.
  2: { unfold submit, _ensure_usable, mbind, M_bind, get. rewrite Hc, Hp. unfold mret at 1, M_ret at 1.
       rewrite (id_active _ HI), Hm. destruct cbk; by left. }
  apply mapM_id_Some in Hm as ->. apply wp_snd.
  eapply wp_mono; [apply (wp_sched_submit (s_trace s) (length (s_batches s)) rs cbk); try done| |eauto].
  - unfold valid_requests in Hv. by rewrite Forall_fmap in Hv.
  - intros r s' (_ & _ & [[HR _]|HF]); eauto.
Qed.

(** Progress on a batch that has ended changes nothing. *)
Lemma progress_ended bid b s :
  s_batches s !! bid = Some b → b_done b = true → (progress bid s).2 = s.
Proof.
  intros Hb Hd. apply wp_snd. unfold progress, _validate_batch.
  apply wp_bind, wp_bind, (wp_get_batch bid b); [done|].
  apply wp_bind, wp_get, wp_guard_raise. rewrite Hd.
  apply wp_bind, (wp_get_batch bid b); [done|]. rewrite Hd.
  apply wp_bind, (wp_raise_batch_status bid b); [done|]. by destruct (b_error b).
Qed.

Lemma Inv_progress bid s : Inv s → Inv (progress bid s).2.
Proof.
  intros HI. destruct (s_batches s !! bid) as [b|] eqn:Hb.
  2: { unfold progress, _validate_batch, get_batch, mbind, M_bind, get. by rewrite Hb. }
  destruct (b_done b) eqn:Hd.
  - by rewrite (progress_ended bid b).
  - destruct (Inv_undone s bid b HI Hb Hd) as (T0 & reqs & cbk & HR).
    apply wp_snd. eapply wp_mono; [by apply wp_progress| |eauto].
    intros _ s' (_ & [[HR' _]|HF]); eauto.
Qed.

(** Waiting for a batch that has ended, or that is not there, reads the clock
    at most. *)
Lemma wp_wait_ended always fuel bid timeout idle s :
  (∀ b, s_batches s !! bid = Some b → b_done b = true) →
  wp (wait_with always fuel bid timeout idle)
    (λ _ s', ∃ w, s' = set_world w s) (λ _ s', ∃ w, s' = set_world w s) s.
Proof.
  intros Hd. unfold wait_with, _validate_wait_options.
  assert (∃ w, s = set_world w s) as H0 by (exists (s_world s); by destruct s).
  apply wp_bind, wp_bind, wp_guard_raise.
  destruct (match timeout with Some t => t <=? 0 | None => false end); [done|].
  apply wp_guard_raise. destruct (idle <? 0); [done|]. apply wp_bind.
  eapply wp_mono with (λ _ s1, ∃ w, s1 = set_world w s) (λ _ _, False);
    [|intros deadline s1 [w1 ->]|done].
  { destruct timeout as [t|]; [|by apply wp_ret]. apply wp_bind. unfold wp at 1, monotonic.
    destruct (dev_clock (s_world s)) as [now w]. apply wp_ret. by exists w. }
  assert (∀ {A} (k : Batch → M (Sched W) A) Q E s1, (∃ w, s1 = set_world w s) →
    (∀ e, E e s1) → (∀ b, b_done b = true → wp (k b) Q E s1) → wp (get_batch bid ≫= k) Q E s1)
    as Hget.
  { intros A k Q E s1 [w ->] HE Hk. apply wp_bind. unfold get_batch. apply wp_bind, wp_get.
    cbn [s_batches set_world]. destruct (s_batches s !! bid) as [b|] eqn:Hb; [|apply HE].
    apply wp_ret, Hk. by apply Hd. }
  apply wp_bind, wp_try_except.
  eapply wp_mono; [apply (wp_while_loop _ (λ s1, ∃ w, s1 = set_world w s)
    (λ _ s1, ∃ w, s1 = set_world w s) (λ _ s1, ∃ w, s1 = set_world w s))| |].
  - intros s1 Hs1. unfold wait_round. apply Hget; [done|done|]. intros b Hb. rewrite Hb.
    by apply wp_ret.
  - done.
  - by exists w1.
  - intros [[]|] s2 Hs2; [|by apply wp_ret]. apply wp_bind. unfold raise_batch_status.
    apply Hget; [done|done|]. intros b _. apply wp_lift. by destruct (batch_raise_for_status b).
  - intros e s2 Hs2. apply Hget; [done|done|]. intros b Hb. rewrite Hb. by apply wp_bind, wp_ret.
Qed.

Lemma Inv_wait always fuel bid timeout idle s :
  Inv s → Inv (wait_with always fuel bid timeout idle s).2.
Proof.
  intros HI. apply wp_snd. destruct (s_batches s !! bid) as [b|] eqn:Hb.
  - destruct (b_done b) eqn:Hd.
    + eapply wp_mono; [apply wp_wait_ended|..].
      * rewrite Hb. by intros b' [= <-].
      * cbn. intros _ s' [w ->]. by apply Inv_world.
      * cbn. intros _ s' [w ->]. by apply Inv_world.
    + destruct (Inv_undone s bid b HI Hb Hd) as (T0 & reqs & cbk & HR).
      eapply wp_mono; [apply (wp_wait T0 bid reqs cbk); by left|..].
      * intros [r|] s' [_ H]; [by destruct H as (_ & HF & _); eauto|]. destruct H; eauto.
      * intros e s' [HF|[HF|[_ ->]]]; eauto.
  - eapply wp_mono; [apply wp_wait_ended; by rewrite Hb|..];
    cbn; intros _ s' [w ->]; by apply Inv_world.
Qed.

Lemma Idle_frame s w o c p : Idle s → Idle (set_world w (set_flags o c p s)).
Proof. intros [[]]. by constructor. Qed.

Lemma wp_close_owned suppress s :
  wp (_close_owned suppress)
    (λ _ s', ∃ w o, s' = set_world w (set_flags o (s_closed s) (s_poisoned s) s))
    (λ _ s', ∃ w o, s' = set_world w (set_flags o (s_closed s) (s_poisoned s) s)) s.
Proof.
  unfold _close_owned. apply wp_bind, wp_get. destruct (negb (s_owns s)).
  { apply wp_ret. exists (s_world s), (s_owns s). by destruct s. }
  apply wp_bind. eapply wp_mono; [apply wp_close_each| |done]. intros o1 s1 [w1 ->].
  apply wp_bind. eapply wp_mono; [apply wp_close_each| |done]. intros o2 s2 [w2 ->].
  apply wp_bind, wp_modify.
  destruct o2 as [e|]; [destruct suppress; [apply wp_ret|apply wp_raise]|apply wp_ret];
    by exists w2, false.
Qed.

Lemma Inv_close s : Inv s → Inv (close s).2.
Proof.
  intros HI. destruct (s_closed s) eqn:Hcl.
  { unfold close, mbind, M_bind, get. by rewrite Hcl. }
  apply wp_snd. unfold close. apply wp_bind, wp_get. rewrite Hcl. apply wp_bind.
  eapply wp_mono with (λ _ s1, Books s1 ∧ ∀ bid b, s_batches s1 !! bid = Some b → b_done b = true)
    (λ _ _, False); [| |done].
  - destruct HI as [[HB Ha HP Hd]|(T0 & bid & reqs & cbk & HR)]; [by rewrite Ha; apply wp_ret|].
    destruct (Run_batch _ _ _ _ _ _ HR) as (b & Hb & Hdn & Ha). rewrite Ha.
    apply wp_bind, (wp_get_batch bid b); [done|]. rewrite Hdn. unfold update_batch.
    apply wp_modify. destruct HR as [[] ? ? ? ? Hoth _]. split; [by constructor|].
    intros bid' b'. cbn. destruct (decide (bid' = bid)) as [->|Hne].
    + rewrite list_lookup_alter_eq, Hb. by intros [= <-].
    + rewrite list_lookup_alter_ne by done. intros Hl. by eapply Hoth.
  - intros _ s1 [HB Hd]. apply wp_bind, wp_modify, wp_bind, wp_modify, wp_bind, wp_modify.
    match goal with |- wp _ _ _ ?x => set (s2 := x) end.
    assert (Idle s2) as H2.
    { destruct HB as [Hcfg Hnext]. pose proof (cfg_depth _ Hcfg). constructor; try done.
      constructor; try done.
      - cbn. unfold no_outstanding. by rewrite length_replicate.
      - intros i Hi. change (s_pending s2) with (∅ : gmap Z Pending). rewrite count_qp_empty.
        unfold outstanding_of. cbn. unfold no_outstanding. by rewrite lookup_replicate_2.
      - intros i Hi. unfold outstanding_of. cbn in *. unfold no_outstanding.
        rewrite lookup_replicate_2 by done. cbn. lia. }
    eapply wp_mono; [apply wp_close_owned|..]; intros _ s3 (w & o & ->); left; by apply Idle_frame.
Qed.

(** What the owner of a scheduler may do, in any order, with any arguments and
    any outcome; between calls the environment moves on its own. *)
Inductive step : Sched W → Sched W → Prop :=
| step_submit reqs cbk s : valid_requests reqs → step s (submit reqs cbk s).2
| step_progress bid s : step s (progress bid s).2
| step_wait always fuel bid timeout idle s :
    step s (wait_with always fuel bid timeout idle s).2
| step_close s : step s (close s).2
| step_world w s : step s (set_world w s).

Lemma step_Inv s s' : step s s' → Inv s → Inv s'.
Proof.
  intros [] HI; [by apply Inv_sched_submit|by apply Inv_progress|by apply Inv_wait|by apply Inv_close|
    by apply Inv_world].
Qed.
End Reachable.

(** * Properties *)

(** The single-byte moves of a work request: local region, local offset and
    remote address. *)
Definition wr_moves (wr : WR) : list (Z * Z * Z) :=
  (λ k, (wr_local_mr wr, wr_local_offset wr + k, wr_remote_addr wr + k))
    <$> seqZ 0 (wr_length wr).

Lemma chunk_moves id c :
  wr_moves (chunk_wr id c) =
    (λ k, (rr_local_mr (ck_request c), rr_local_offset (ck_request c) + k,
           rr_remote_addr (ck_request c) + rr_remote_offset (ck_request c) + k))
      <$> chunk_bytes c.
Proof.
  unfold wr_moves, chunk_bytes. cbn. 
  replace (seqZ (ck_offset c) (ck_length c))
    with (Z.add (ck_offset c) <$> seqZ 0 (ck_length c))
    by (rewrite fmap_add_seqZ; f_equal; lia).
  rewrite <- list_fmap_compose. apply list_fmap_ext. intros _ k _. cbn. f_equal; [f_equal|]; lia.
Qed.

(** chunking moves every byte once.  For any positive chunk size the
    work requests of a request's chunks, in order, move exactly the request's
    bytes: byte k of the remote range to or from byte k of the local range; each
    carries between one byte and a chunk, and there are as many as the batch
    counts. *)
Theorem chunks_move_request cs i r :
  0 < cs → 0 < rr_length r →
  concat ((λ c, wr_moves (chunk_wr 0 c)) <$> request_chunks cs i r) =
    (λ k, (rr_local_mr r, rr_local_offset r + k, rr_remote_addr r + rr_remote_offset r + k))
      <$> seqZ 0 (rr_length r) ∧
  Forall (λ c, 1 ≤ ck_length c ≤ cs) (request_chunks cs i r) ∧
  Z.of_nat (length (request_chunks cs i r)) = total_chunks_of cs [r].
Proof.
  intros Hcs Hr.
  assert (∀ c, c ∈ request_chunks cs i r → ck_request c = r ∧ 1 ≤ ck_length c ≤ cs) as Hwf
    by (intros c Hc; by destruct (request_chunks_wf cs Hcs i r c Hr Hc) as (_ & ? & ? & _)).
  split_and!.
  - rewrite <- (request_chunks_tile cs Hcs i r Hr). revert Hwf.
    induction (request_chunks cs i r) as [|c l IH]; intros Hwf; [done|].
    rewrite !fmap_cons. cbn [concat]. rewrite fmap_app, chunk_moves, IH by set_solver.
    by destruct (Hwf c ltac:(by left)) as [-> _].
  - apply Forall_forall. intros c Hc. by apply Hwf.
  - unfold request_chunks. rewrite length_fmap, length_range_step by done. cbn. lia.
Qed.

Lemma chunks_move_request_witness :
  concat ((λ c, wr_moves (chunk_wr 0 c))
      <$> request_chunks 4 0 (mk_RdmaRequest false 5 1000 7 6 100 20)) =
    [(5, 100, 1020); (5, 101, 1021); (5, 102, 1022); (5, 103, 1023); (5, 104, 1024);
     (5, 105, 1025)].
Proof.
  destruct (chunks_move_request 4 0 (mk_RdmaRequest false 5 1000 7 6 100 20)) as [H _];
    [reflexivity..|].
  rewrite H. vm_compute. reflexivity.
Defined.

(** work-request ids.  While fewer than 2^64 - 1 are pending, the
    allocator returns an id in range that is not pending and changes nothing
    but its cursor, across the wrap-around; and the bound the model puts on its
    loop does not matter: the source's 2^64 - 1 rounds give the same result. *)
Theorem allocate_wr_id_correct {W} (s : Sched W) fuel :
  1 ≤ s_next_wr_id s ≤ _MAX_WR_ID → Z.of_nat (size (s_pending s)) < _MAX_WR_ID →
  (size (s_pending s) < fuel)%nat →
  ∃ id n, _allocate_wr_id s = (Ok id, set_next n s) ∧
    alloc_loop fuel s = (Ok id, set_next n s) ∧
    1 ≤ id ≤ _MAX_WR_ID ∧ s_pending s !! id = None ∧ 1 ≤ n ≤ _MAX_WR_ID.
Proof.
  intros Hn Hsz Hf.
  pose proof (wp_alloc_loop (S (size (s_pending s))) (s_pending s) (s_next_wr_id s) [] [] s
    (Staged_init _ _ Hn) eq_refl) as Hwp.
  specialize (Hwp ltac:(cbn; lia) ltac:(cbn; lia)). unfold wp in Hwp.
  destruct (alloc_loop (S (size (s_pending s))) s) as [[id|e] s'] eqn:Hrun; [|done].
  destruct Hwp as (sk & n & -> & HS). exists id, n.
  assert (1 ≤ id ≤ _MAX_WR_ID) as Hid.
  { assert (id ∈ sk ++ [] ++ [id]) as Hin by set_solver.
    rewrite <- (st_visited _ _ _ _ _ HS) in Hin.
    apply list_elem_of_fmap in Hin as (d & -> & _). apply cyc_range. }
  split; [|split; [|split; [done|split]]].
  - unfold _allocate_wr_id, mbind, M_bind, get. rewrite <- Hrun. f_equal. lia.
  - eapply alloc_loop_mono; [done|lia].
  - apply (st_ids _ _ _ _ _ HS). set_solver.
  - rewrite (st_next _ _ _ _ _ HS). apply cyc_range.
Qed.

(** The cursor at the last id, which is pending with the first one. *)
Definition wrapping : Sched unit :=
  mk_Sched (mk_Config 1 4 4 1) false false [] None [] true
    (<[_MAX_WR_ID := mk_Pending 0 (mk_Chunk 0 (mk_RdmaRequest false 0 0 0 1 0 0) 0 1)]>
       (<[1 := mk_Pending 0 (mk_Chunk 0 (mk_RdmaRequest false 0 0 0 1 0 0) 0 1)]> ∅))
    [2] _MAX_WR_ID false false [] tt.

Lemma allocate_wr_id_correct_witness :
  (_allocate_wr_id wrapping).1 = Ok 2 ∧ (alloc_loop 3 wrapping).1 = Ok 2.
Proof.
  assert ((_allocate_wr_id wrapping).1 = Ok 2) as Ha by (vm_compute; reflexivity).
  split; [exact Ha|].
  destruct (allocate_wr_id_correct wrapping 3) as (id & n & H1 & H2 & _);
    [vm_compute; split; discriminate|vm_compute; reflexivity|apply Nat.ltb_lt; reflexivity|].
  rewrite H2. rewrite H1 in Ha. exact Ha.
Defined.

(** C20: the whole protocol keeps its books.  From a constructed scheduler, through
    any sequence of submits, progresses, waits and closes, whatever the device
    answers: every counter equals the number of pending requests of its queue
    pair and never exceeds the queue depth, and either no batch is active and
    nothing is pending, or exactly one batch has not ended and its completed,
    pending and remaining chunks are together the chunks of its requests. *)
Theorem scheduler_invariant {W} `{!SchedDevice W} `{!Clock W} `{!RcQp nat W}
    qps cqs depth cs poll context owns callable (w : W) s0 s :
  Z.of_nat qps * depth < _MAX_WR_ID →
  Sched_init qps cqs depth cs poll context owns callable w = Ok s0 →
  rtc step s0 s →
  Inv s ∧ ∀ i, (i < cf_qp_count (s_cfg s))%nat →
    outstanding_of s i = Z.of_nat (count_qp i (s_pending s)) ∧
    0 ≤ outstanding_of s i ≤ cf_queue_depth (s_cfg s).
Proof.
  intros Hids Hinit Hsteps.
  assert (Inv s) as HI.
  { assert (Inv s0) as H0 by (left; by eapply Sched_init_idle).
    clear Hinit. induction Hsteps; [done|]. eauto using step_Inv. }
  split; [done|]. intros i Hi. pose proof (Inv_books s HI) as HB.
  pose proof (bk_out _ HB i Hi). pose proof (bk_depth _ HB i Hi). lia.
Qed.

Lemma scheduler_invariant_witness :
  let s := (submit (Some <$> Loopback.requests) Callback (Loopback.start 0)).2 in
  outstanding_of s 0 = 2 ∧ outstanding_of s 1 = 2 ∧ Inv s.
Proof.
  cbv zeta. split; [vm_compute; reflexivity|]. split; [vm_compute; reflexivity|].
  apply (scheduler_invariant 2 2 2 4 (Some 2) true true true
    (Loopback.mk_world [[]; []] 0 0) (Loopback.start 0)).
  - vm_compute. reflexivity.
  - vm_compute. reflexivity.
  - apply rtc_once, step_submit. repeat constructor; vm_compute; reflexivity.
Defined.

(** C19: reading many.  From an idle scheduler, if [read_many] returns a batch,
    the batch ended without an error, its byte count is that of the requests, and
    the work requests posted since the call are exactly those of the requests'
    chunks, each once, with the completion callback called once and after all of
    them; if it raises or is still waiting, the scheduler's invariant holds. *)
Theorem read_many_correct {W} `{!SchedDevice W} `{!Clock W} `{!RcQp nat W}
    (s : Sched W) fuel reqs cbk timeout idle :
  Idle s → s_closed s = false → s_poisoned s = false → cbk ≠ NotCallable →
  Forall (λ r, 0 < rr_length r ∧ rr_is_write r = false) reqs →
  match read_many fuel (Some <$> reqs) timeout idle cbk s with
  | (Ok (Some bid), s') =>
      Idle s' ∧ (∃ b, s_batches s' !! bid = Some b ∧ b_done b = true ∧ b_error b = None ∧
        b_completed_bytes b = foldr (λ r n, rr_length r + n) 0 reqs ∧
        b_completed_chunks b = b_total_chunks b) ∧
      ∃ pw, s_trace s' = s_trace s ++ (post_event <$> pw) ++
              match cbk with Callback => [ECallback bid] | _ => [] end ∧
        wr_strip ∘ snd <$> pw ≡ₚ chunk_wr 0 <$> _iter_chunks (cf_chunk_size (s_cfg s)) reqs
  | (_, s') => Inv s'
  end.
Proof.
  intros HI Hcl Hpo Hcb Hreqs. set (bid := length (s_batches s)).
  assert (Forall (λ r, 0 < rr_length r) reqs) as Hpos
    by (eapply Forall_impl; [exact Hreqs|by intros r []]).
  enough (wp (read_many fuel (Some <$> reqs) timeout idle cbk)
    (λ o s', s_cfg s' = s_cfg s ∧ match o with
       | Some r => r = bid ∧ Finished (s_trace s) bid reqs cbk s' ∧
           ∃ b, s_batches s' !! bid = Some b ∧ b_error b = None
       | None => Inv s' end) (λ _ s', Inv s') s) as Hwp.
  { unfold wp in Hwp. destruct (read_many _ _ _ _ _ s) as [[[r|]|e] s']; [|by destruct Hwp|done].
    destruct Hwp as (Hc & -> & [Hidle (b & Hb & Hd & Hr & Htot & Hby & Hch & _) (pw & Ht & Hpw)] &
      b' & Hb' & He).
    rewrite Hb in Hb'. injection Hb' as <-. split; [done|]. split.
    - exists b. split_and!; try done. by rewrite Hby.
    - exists pw. by rewrite <- Hc. }
  unfold read_many, many. apply wp_bind, wp_guard_raise.
  replace (forallb is_read (Some <$> reqs)) with true.
  2: { symmetry. apply Is_true_eq_true, forallb_True, Forall_fmap. eapply Forall_impl; [exact Hreqs|].
       intros r [_ Hr]. cbn. by rewrite Hr. }
  apply wp_bind. eapply wp_mono; [by apply (wp_sched_submit (s_trace s) bid reqs cbk)| |].
  2: { intros e s' HF. by eapply Failed_Inv. }
  intros r s1 (-> & Hc1 & Hs1).
  eapply wp_mono; [apply (wp_wait (s_trace s) bid reqs cbk); naive_solver|..].
  - intros [r|] s' [Hc H]; (split; [congruence|]); [done|].
    destruct H; by eauto using Running_Inv, Finished_Inv.
  - intros e s' [HF|[HF|[_ ->]]]; [by eapply Failed_Inv|by eapply Finished_Inv|].
    destruct Hs1 as [[? _]|?]; by eauto using Running_Inv, Finished_Inv.
Qed.

Lemma read_many_correct_witness :
  (read_many 10 (Some <$> Loopback.requests) (Some 50) 0 Callback (Loopback.start 0)).1
    = Ok (Some 0%nat) ∧
  ∃ pw, s_trace (read_many 10 (Some <$> Loopback.requests) (Some 50) 0 Callback
                   (Loopback.start 0)).2 = (post_event <$> pw) ++ [ECallback 0] ∧
    length pw = 6%nat.
Proof.
  assert ((read_many 10 (Some <$> Loopback.requests) (Some 50) 0 Callback (Loopback.start 0)).1
    = Ok (Some 0%nat)) as Hok by (vm_compute; reflexivity).
  split; [exact Hok|].
  pose proof (read_many_correct (Loopback.start 0) 10 Loopback.requests Callback (Some 50) 0
    (Idle_start 0) eq_refl eq_refl) as H.
  specialize (H ltac:(discriminate) ltac:(repeat constructor; vm_compute; reflexivity)).
  destruct (read_many 10 (Some <$> Loopback.requests) (Some 50) 0 Callback (Loopback.start 0))
    as [r s']. cbn in Hok. subst r. destruct H as (_ & _ & pw & Ht & Hpw).
  exists pw. split; [exact Ht|].
  apply Permutation_length in Hpw. rewrite !length_fmap in Hpw. rewrite Hpw.
  vm_compute. reflexivity.
Defined.



(** the pipeline stays full.  After a submit that leaves the batch
    unfinished, and after every progress on it, each queue pair holds exactly
    [queue_depth] requests unless every chunk has been posted. *)
Theorem pipeline_full {W} `{!SchedDevice W} `{!Clock W} `{!RcQp nat W}
    (s : Sched W) reqs cbk bid s1 n :
  Idle s → s_closed s = false → s_poisoned s = false → cbk ≠ NotCallable →
  Forall (λ r, 0 < rr_length r) reqs →
  submit (Some <$> reqs) cbk s = (Ok bid, s1) →
  let s' := Nat.iter n (λ x, (progress bid x).2) s1 in
  s_active s' = Some bid →
  s_iter s' = [] ∨
  ∀ i, (i < cf_qp_count (s_cfg s'))%nat → outstanding_of s' i = cf_queue_depth (s_cfg s').
Proof.
  intros HI Hcl Hpo Hcb Hreqs Hsub.
  pose proof (wp_sched_submit (s_trace s) (length (s_batches s)) reqs cbk s HI Hcl Hpo eq_refl eq_refl
    Hcb Hreqs) as Hwp. unfold wp in Hwp. rewrite Hsub in Hwp. destruct Hwp as (-> & _ & Hs1).
  set (bid := length (s_batches s)) in *.
  assert (let s' := Nat.iter n (λ x, (progress bid x).2) s1 in
    Running (s_trace s) bid reqs cbk s' ∧ Saturated s' ∨
    s_active s' = None ∧ ∃ b, s_batches s' !! bid = Some b ∧ b_done b = true) as Hn.
  { induction n as [|n IH]; cbv zeta.
    - destruct Hs1 as [?|[Hid (b & Hb & Hd & _) _]]; [by left|right].
      split; [by apply id_active|by exists b].
    - change (Nat.iter (S n) _ s1) with
        ((progress bid (Nat.iter n (λ x, (progress bid x).2) s1)).2).
      cbv zeta in IH. destruct IH as [[HR Hsat]|(Ha & b & Hb & Hd)].
      2: { rewrite (progress_ended bid b) by done. right. split; [done|by exists b]. }
      apply wp_snd. eapply wp_mono; [by apply wp_progress|..].
      + intros _ s2 (_ & [[HR2 Hsat2]|[Hid (b & Hb & Hd & _) _]]); [left; by auto|right].
        split; [by apply id_active|by exists b].
      + intros e s2 [Hid _ _ (b & Hb & Hd & _)]. right.
        split; [by apply id_active|by exists b]. }
  intros s' Ha. fold s' in Hn. destruct Hn as [[HR Hsat]|[Hno _]]; [|congruence].
  destruct Hsat as [Hx|?]; [left|by right]. by apply (rn_exh _ _ _ _ _ _ HR).
Qed.

Lemma pipeline_full_witness :
  let s' := Nat.iter 1 (λ x, (progress 0 x).2)
    (submit (Some <$> Loopback.requests) Callback (Loopback.start 0)).2 in
  s_iter s' = [] ∨
  ∀ i, (i < cf_qp_count (s_cfg s'))%nat → outstanding_of s' i = cf_queue_depth (s_cfg s').
Proof.
  apply (pipeline_full (Loopback.start 0) Loopback.requests Callback).
  - apply Idle_start.
  - reflexivity.
  - reflexivity.
  - discriminate.
  - repeat constructor; vm_compute; reflexivity.
  - vm_compute. reflexivity.
  - vm_compute. reflexivity.
Defined.

(** a timed wait ends.  With a clock that advances and is never turned back
    by the device, [wait] and [wait_async] have returned or raised within as many
    rounds as the timeout has ticks, whatever the state. *)
Theorem wait_terminates {W} `{!SchedDevice W} `{!Clock W} `{!RcQp nat W}
    `{!ClockLaws W} `{!SchedClock W} (s : Sched W) always fuel bid timeout idle :
  (Z.to_nat timeout < fuel)%nat →
  (wait_with always fuel bid (Some timeout) idle s).1 ≠ Ok None.
Proof.
  intros Hfuel.
  enough (wp (wait_with always fuel bid (Some timeout) idle) (λ o _, o ≠ None) (λ _ _, True) s)
    as Hwp.
  { unfold wp in Hwp. destruct (wait_with _ _ _ _ _ s) as [[o|e] s']; cbn; congruence. }
  unfold wait_with. apply wp_bind. eapply wp_mono; [apply wp_trivial|intros _ s0 _|done].
  apply wp_bind, wp_bind, wp_monotonic_clock. intros w Hw. apply wp_ret.
  apply wp_bind, wp_try_except.
  set (d := now (s_world s0) + timeout).
  pose proof (while_loop_terminates (wait_round always bid (Some d) idle) (λ _, True)
    (λ s', Z.to_nat (d - now (s_world s'))) fuel (set_world w s0)) as Hloop.
  unfold wp at 1. destruct (while_loop _ _ _) as [[o|e] s1] eqn:Hrun.
  - destruct o as [u|].
    + apply wp_bind. eapply wp_mono; [apply wp_trivial| |done]. intros _ s2 _. by apply wp_ret.
    + exfalso. apply Hloop; [|done|unfold d; cbn; lia|done].
      intros x x' _ Hx. split; [done|]. apply wait_round_clock in Hx. lia.
  - apply wp_bind. eapply wp_mono; [apply wp_trivial|intros b s2 _|done].
    apply wp_bind. by eapply wp_mono; [apply wp_trivial| |].
Qed.

(** A device that never completes anything: its queues are not there. *)
Definition stuck : Sched Loopback.world :=
  set_world (Loopback.mk_world [] 0 0)
    (submit (Some <$> Loopback.requests) Callback (Loopback.start 0)).2.

Lemma wait_terminates_witness :
  (wait_with false 21 0 (Some 20) 1 stuck).1 = Raise RdmaReadTimeout ∧
  (wait_with false 21 0 (Some 20) 1 stuck).1 ≠ Ok None.
Proof.
  split; [vm_compute; reflexivity|].
  apply (wait_terminates stuck). apply Nat.ltb_lt. reflexivity.
Defined.
