(* ===== verification/Ring.v ===== *)
(** The GPU ring all-reduce: [_nccl_channel_layout] and the ring kernel of
    [_CuteGpuNetIOKernels] in
    src/experiments/fault_tolerant_allreduce/allreduce.py.

    The first part is the geometry: how a tensor is cut into channels, loops and
    chunks.  The second part runs the kernel on every rank at once, as a step
    relation: a rank posts the put of its current index, the network executes the
    put at some later time, the rank ends the index when its own put has been
    executed and the previous rank's has arrived.  Ranks, channels and puts
    interleave freely.  A rank whose [status] became non-zero posts and reduces
    nothing more: it is a rank that takes no more steps.  Elements are of any
    type with any reduction operator (no law is assumed, as for floating point);
    element counts are exact integers, the byte offsets of a put wrap at 32 bits. *)

From S2P Require Import Prelude.
#[local] Open Scope Z_scope.

(** * Geometry *)

Definition _NCCL_CELL_BYTES : Z := 16 * 1024.
Definition _NCCL_SIMPLE_CHANNEL_BYTES : Z := 512 * 64.
Definition _NCCL_SIMPLE_CHUNK_BYTES : Z := 2 * 1024 * 1024.

(** (cell_elements, cells_per_channel, active_channels) *)
Definition _nccl_channel_layout (count itemsize num_sms : Z) : Z * Z * Z :=
  let cell_elements := Z.max 1 (_NCCL_CELL_BYTES `div` itemsize) in
  let cells := (count + cell_elements - 1) `div` cell_elements in
  let nbytes := count * itemsize in
  let active := Z.min num_sms (Z.max 1 (nbytes `div` _NCCL_SIMPLE_CHANNEL_BYTES)) in
  let per_channel := (cells + active - 1) `div` active in
  (cell_elements, per_channel, active).

(** The kernel's scalar arguments. *)
Record Launch := mk_Launch {
  l_count : Z;
  l_world : Z;
  l_cell_elements : Z;
  l_cells_per_channel : Z;
  l_active_channels : Z;
  l_base_chunk : Z;
  l_align_elements : Z;
}.

(** The launch [allreduce] makes. *)
Definition allreduce_launch (count itemsize num_sms world : Z) : Launch :=
  let '(cell, cells_per_channel, active) := _nccl_channel_layout count itemsize num_sms in
  mk_Launch count world cell cells_per_channel active
    (Z.max 1 (_NCCL_SIMPLE_CHUNK_BYTES `div` itemsize)) (Z.max 1 (16 `div` itemsize)).

Section Geometry.
Context (l : Launch).
Implicit Types channel j owner rank i : Z.

Definition channel_start channel : Z :=
  channel * l_cells_per_channel l * l_cell_elements l.
Definition channel_count channel : Z :=
  Z.min (l_count l - channel_start channel) (l_cells_per_channel l * l_cell_elements l).
Definition loop_count : Z := l_world l * l_base_chunk l.

(** The number of rounds of [range(0, channel_count, loop_count)]. *)
Definition loops channel : Z :=
  Z.max 0 ((channel_count channel + loop_count - 1) `div` loop_count).

(** Round [j] of that loop. *)
Definition elem_offset j : Z := j * loop_count.
Definition remaining channel j : Z := channel_count channel - elem_offset j.
Definition chunk_size channel j : Z :=
  if remaining channel j <? loop_count then
    let chunk := (remaining channel j + l_world l - 1) `div` l_world l in
    (chunk + l_align_elements l - 1) `div` l_align_elements l * l_align_elements l
  else l_base_chunk l.

(** Where the chunk of [owner] begins and how long it is. *)
Definition seg_start channel j owner : Z :=
  channel_start channel + elem_offset j + owner * chunk_size channel j.
Definition seg_length channel j owner : Z :=
  Z.min (chunk_size channel j)
    (Z.max 0 (remaining channel j - owner * chunk_size channel j)).

Definition in_seg channel j owner (e : Z) : bool :=
  (seg_start channel j owner <=? e) &&
  (e <? seg_start channel j owner + seg_length channel j owner).

(** ** Ranks and indices

    The body of one round runs [world - 1] reduce-scatter steps and then
    [world - 1] all-gather steps; [i] counts both, from 0. *)
Definition steps : Z := 2 * (l_world l - 1).
Definition is_reduce i : bool := i <? l_world l - 1.

(** [send_owner] of step [i + 1] of the reduce-scatter, of step
    [i - (world - 1)] of the all-gather. *)
Definition send_owner rank i : Z :=
  let step := if is_reduce i then i + 1 else i - (l_world l - 1) in
  (rank - step + l_world l) `mod` l_world l.
Definition recv_owner rank i : Z :=
  (rank - (i + 1) - 1 + 2 * l_world l) `mod` l_world l.

Definition next_rank rank : Z := (rank + 1) `mod` l_world l.
Definition prev_rank rank : Z := (rank - 1) `mod` l_world l.

(** The indices of a channel, over all its rounds. *)
Definition indices channel : Z := loops channel * steps.
End Geometry.

(** * The kernel as a transition system *)

Section Ring.
Context (l : Launch) {E : Type} (op : E → E → E) (rnr : bool).
Implicit Types channel rank e k : Z.

(** [pc] is the index a rank is at on a channel, [posted] whether it has posted
    its put there, [landed] how many of its puts have been executed. *)
Record Ring := mk_Ring {
  pc : Z → Z → Z;
  posted : Z → Z → bool;
  landed : Z → Z → Z;
  work : Z → Z → E;
  scratch : Z → Z → E;
}.

(** Update a function at one point. *)
Definition upd2 {A} (f : Z → Z → A) (a b : Z) (v : A) : Z → Z → A := λ x y,
  if (x =? a) && (y =? b) then v else f x y.

Definition valid_lane channel rank : Prop :=
  0 ≤ channel < l_active_channels l ∧ 0 ≤ rank < l_world l.

(** The elements of index [k] that [rank] sends, and those it reduces. *)
Definition sends channel rank k e : bool :=
  in_seg l channel (k `div` steps l) (send_owner l rank (k `mod` steps l)) e.
Definition reduces channel rank k e : bool :=
  is_reduce l (k `mod` steps l) &&
  in_seg l channel (k `div` steps l) (recv_owner l rank (k `mod` steps l)) e.

(** Post the receive and the put of the current index. *)
Definition post (g : Ring) channel rank : Ring :=
  mk_Ring (pc g) (upd2 (posted g) channel rank true) (landed g) (work g) (scratch g).

(** The network executes the put: the reduce-scatter writes the next rank's
    scratch buffer, the all-gather its work buffer. *)
Definition land (g : Ring) channel rank : Ring :=
  let k := pc g channel rank in
  let copy (dst : Z → Z → E) : Z → Z → E := λ r e,
    if (r =? next_rank l rank) && sends channel rank k e then work g rank e else dst r e in
  let reduce := is_reduce l (k `mod` steps l) in
  mk_Ring (pc g) (posted g) (upd2 (landed g) channel rank (k + 1))
    (if reduce then work g else copy (work g))
    (if reduce then copy (scratch g) else scratch g).

(** Both completions are there: reduce what arrived and go on. *)
Definition finish (g : Ring) channel rank : Ring :=
  let k := pc g channel rank in
  mk_Ring (upd2 (pc g) channel rank (k + 1)) (upd2 (posted g) channel rank false) (landed g)
    (λ r e, if (r =? rank) && reduces channel rank k e
            then op (work g r e) (scratch g r e) else work g r e)
    (scratch g).

(** The next rank has posted the receive that the put of the current index
    consumes. *)
Definition receive_posted (g : Ring) channel rank : Prop :=
  pc g channel rank < pc g channel (next_rank l rank)
                      + (if posted g channel (next_rank l rank) then 1 else 0).

(** A put without its receive is retried ([rnr_retry] is 7, for ever), but its
    data may be in place before: [rnr] says whether the network holds it back. *)
Inductive ring_step : Ring → Ring → Prop :=
| step_post g channel rank :
    valid_lane channel rank → pc g channel rank < indices l channel →
    posted g channel rank = false → ring_step g (post g channel rank)
| step_land g channel rank :
    valid_lane channel rank → posted g channel rank = true →
    landed g channel rank = pc g channel rank →
    (rnr = true → receive_posted g channel rank) → ring_step g (land g channel rank)
| step_finish g channel rank :
    valid_lane channel rank → posted g channel rank = true →
    landed g channel rank = pc g channel rank + 1 →
    pc g channel rank < landed g channel (prev_rank l rank) →
    ring_step g (finish g channel rank).

(** The same steps, as a function of which one is taken. *)
Inductive Move := Post channel rank | Land channel rank | Finish channel rank.

Definition lane_ok channel rank : bool :=
  (0 <=? channel) && (channel <? l_active_channels l) && (0 <=? rank) && (rank <? l_world l).

Definition move (g : Ring) (m : Move) : option Ring :=
  match m with
  | Post channel rank =>
      if lane_ok channel rank && (pc g channel rank <? indices l channel)
           && negb (posted g channel rank)
      then Some (post g channel rank) else None
  | Land channel rank =>
      if lane_ok channel rank && posted g channel rank
           && (landed g channel rank =? pc g channel rank)
           && (negb rnr || (pc g channel rank <?
                 pc g channel (next_rank l rank)
                 + (if posted g channel (next_rank l rank) then 1 else 0)))
      then Some (land g channel rank) else None
  | Finish channel rank =>
      if lane_ok channel rank && posted g channel rank
           && (landed g channel rank =? pc g channel rank + 1)
           && (pc g channel rank <? landed g channel (prev_rank l rank))
      then Some (finish g channel rank) else None
  end.

Fixpoint moves (g : Ring) (ms : list Move) : option Ring :=
  match ms with
  | [] => Some g
  | m :: ms => g' ← move g m; moves g' ms
  end.

(** The launch: every rank holds its own input. *)
Definition launch (input junk : Z → Z → E) : Ring :=
  mk_Ring (λ _ _, 0) (λ _ _, false) (λ _ _, 0) input junk.

Definition finished (g : Ring) channel rank : Prop := pc g channel rank = indices l channel.

(** ** What is reduced

    The value of an element of chunk [c] after [n] reductions: the chunk starts
    at rank [c + 1] and goes round the ring. *)
Fixpoint reduced (input : Z → Z → E) (c e : Z) (n : nat) : E :=
  match n with
  | O => input ((c + 1) `mod` l_world l) e
  | S n => op (input ((c + 1 + Z.of_nat (S n)) `mod` l_world l) e) (reduced input c e n)
  end.
Definition total (input : Z → Z → E) (c e : Z) : E :=
  reduced input c e (Z.to_nat (l_world l - 1)).
End Ring.

(** A put's byte offset in the buffers: [cutlass.Int32] arithmetic on the
    element, then widened to 64 bits. *)
Definition wrap32 (z : Z) : Z := (z + 2 ^ 31) `mod` 2 ^ 32 - 2 ^ 31.
Definition put_offset (l : Launch) (itemsize channel j owner : Z) : Z :=
  wrap32 (seg_start l channel j owner * itemsize).

Arguments mk_Ring {E}.
Arguments pc {E}. Arguments posted {E}. Arguments landed {E}.
Arguments work {E}. Arguments scratch {E}.

(** * The chunks tile the tensor *)

Record LaunchOk (l : Launch) : Prop := mk_LaunchOk {
  lo_world : 2 ≤ l_world l;
  lo_cell : 0 < l_cell_elements l;
  lo_cells : 0 < l_cells_per_channel l;
  lo_active : 0 < l_active_channels l;
  lo_base : 0 < l_base_chunk l;
  lo_align : 0 < l_align_elements l;
  lo_cover : l_count l ≤
    l_active_channels l * (l_cells_per_channel l * l_cell_elements l);
}.

Lemma ceil_div a b : 0 < b → a ≤ (a + b - 1) `div` b * b < a + b.
Proof.
  intros Hb. pose proof (Z.div_mod (a + b - 1) b). pose proof (Z.mod_pos_bound (a + b - 1) b). lia.
Qed.

Lemma div_unique_pos a b q r : 0 ≤ r < b → a = b * q + r → q = a `div` b.
Proof. intros. by apply (Z.div_unique_pos a b q r). Qed.

Section Tiling.
Context (l : Launch) (Hl : LaunchOk l).

Lemma loop_count_pos : 0 < loop_count l.
Proof using Hl. unfold loop_count. destruct Hl. nia. Qed.

Lemma chunk_size_bound ch j :
  0 < remaining l ch j →
  0 < chunk_size l ch j ∧ Z.min (remaining l ch j) (loop_count l) ≤ chunk_size l ch j * l_world l.
Proof using Hl.
  intros Hr. destruct Hl. unfold chunk_size.
  destruct (Z.ltb_spec (remaining l ch j) (loop_count l)).
  - pose proof (ceil_div (remaining l ch j) (l_world l) ltac:(lia)).
    pose proof (ceil_div ((remaining l ch j + l_world l - 1) `div` l_world l)
      (l_align_elements l) ltac:(lia)).
    split; [nia|]. nia.
  - unfold loop_count in *. split; [lia|]. nia.
Qed.

(** The position of an element inside its segment. *)
Lemma in_seg_inv ch j c e :
  0 ≤ j → 0 ≤ c < l_world l → in_seg l ch j c e = true →
  let K := chunk_size l ch j in
  let x := e - channel_start l ch in
  0 ≤ x < l_cells_per_channel l * l_cell_elements l ∧ x < channel_count l ch ∧
  0 ≤ x - j * loop_count l < loop_count l ∧
  0 < K ∧ 0 ≤ x - j * loop_count l - c * K < K.
Proof using Hl.
  intros Hj Hc Hin. unfold in_seg, seg_start, seg_length in Hin.
  assert (0 < remaining l ch j) as Hrem.
  { destruct (Z.ltb_spec 0 (remaining l ch j)); [done|].
    unfold chunk_size in Hin. pose proof loop_count_pos. destruct Hl.
    destruct (Z.ltb_spec (remaining l ch j) (loop_count l)); [|lia].
    set (K := _ * l_align_elements l) in Hin. nia. }
  pose proof (chunk_size_bound ch j Hrem) as [HK _]. set (K := chunk_size l ch j) in *.
  cbv zeta. pose proof loop_count_pos as HB.
  assert (0 ≤ c * K) by nia. assert (0 ≤ j * loop_count l) by nia.
  unfold remaining, elem_offset in *.
  assert (c * K + K ≤ loop_count l ∨ channel_count l ch - j * loop_count l < loop_count l) as Hcase.
  { destruct (Z.ltb_spec (channel_count l ch - j * loop_count l) (loop_count l)) as [|Hge]; [by right|left].
    unfold K, chunk_size, remaining, elem_offset. rewrite (proj2 (Z.ltb_ge _ _)) by lia.
    unfold loop_count. destruct Hl. nia. }
  unfold channel_count in *. destruct Hcase; split_and!; lia.
Qed.

(** An element is in one segment only. *)
Lemma in_seg_unique ch j c ch' j' c' e :
  0 ≤ j → 0 ≤ c < l_world l → 0 ≤ j' → 0 ≤ c' < l_world l →
  in_seg l ch j c e = true → in_seg l ch' j' c' e = true →
  ch = ch' ∧ j = j' ∧ c = c'.
Proof using Hl.
  intros Hj Hc Hj' Hc' H1 H2. pose proof loop_count_pos as HB. destruct Hl.
  apply in_seg_inv in H1 as (H1a & _ & H1b & H1k & H1c); [|done..].
  apply in_seg_inv in H2 as (H2a & _ & H2b & H2k & H2c); [|done..].
  set (S := l_cells_per_channel l * l_cell_elements l) in *.
  unfold channel_start in *.
  rewrite <- !Z.mul_assoc in *. fold S in H1a, H1b, H1c, H2a, H2b, H2c.
  assert (ch = ch') as <-.
  { rewrite (div_unique_pos e S ch (e - ch * S)), (div_unique_pos e S ch' (e - ch' * S)) by lia. done. }
  assert (j = j') as <-.
  { rewrite (div_unique_pos (e - ch * S) (loop_count l) j (e - ch * S - j * loop_count l)),
      (div_unique_pos (e - ch * S) (loop_count l) j' (e - ch * S - j' * loop_count l)) by lia. done. }
  split_and!; [done..|]. set (K := chunk_size l ch j) in *.
  set (x := e - ch * S - j * loop_count l) in *.
  rewrite (div_unique_pos x K c (x - c * K)), (div_unique_pos x K c' (x - c' * K)) by lia. done.
Qed.

(** Every element is in a segment of an active channel and round. *)
Lemma in_seg_exists e :
  0 ≤ e < l_count l →
  ∃ ch j c, 0 ≤ ch < l_active_channels l ∧ 0 ≤ j < loops l ch ∧ 0 ≤ c < l_world l ∧
    in_seg l ch j c e = true.
Proof using Hl.
  intros He. pose proof loop_count_pos as HB. destruct Hl.
  set (S := l_cells_per_channel l * l_cell_elements l) in *.
  assert (0 < S) by (unfold S; nia).
  pose proof (Z.div_mod e S ltac:(lia)) as Hch. pose proof (Z.mod_pos_bound e S ltac:(lia)).
  set (ch := e `div` S) in *. set (x := e `mod` S) in *.
  assert (0 ≤ ch < l_active_channels l) by nia.
  assert (channel_start l ch = ch * S) as Hstart by (unfold channel_start, S; lia).
  assert (x < channel_count l ch) by (unfold channel_count; fold S; lia).
  pose proof (Z.div_mod x (loop_count l) ltac:(lia)).
  pose proof (Z.mod_pos_bound x (loop_count l) ltac:(lia)).
  set (j := x `div` loop_count l) in *. set (y := x `mod` loop_count l) in *.
  assert (0 ≤ j) by nia.
  assert (y < remaining l ch j) by (unfold remaining, elem_offset; lia).
  pose proof (chunk_size_bound ch j ltac:(lia)) as [HK Hcov]. set (K := chunk_size l ch j) in *.
  pose proof (Z.div_mod y K ltac:(lia)). pose proof (Z.mod_pos_bound y K ltac:(lia)).
  set (c := y `div` K) in *.
  exists ch, j, c. split_and!; try lia.
  - unfold loops. pose proof (ceil_div (channel_count l ch) (loop_count l) HB). nia.
  - nia.
  - nia.
  - unfold in_seg, seg_start, seg_length. fold K. rewrite Hstart. unfold elem_offset. lia.
Qed.

(** A chunk that is not empty lies inside the tensor. *)
Lemma seg_within ch j c :
  0 ≤ ch → 0 ≤ j → 0 ≤ c < l_world l → 0 < seg_length l ch j c →
  0 ≤ seg_start l ch j c ∧ seg_start l ch j c + seg_length l ch j c ≤ l_count l.
Proof using Hl.
  intros Hch Hj Hc Hlen. assert (0 < seg_length l ch j c) as Hl0 by done.
  assert (in_seg l ch j c (seg_start l ch j c) = true) as Hfirst by (unfold in_seg; lia).
  assert (in_seg l ch j c (seg_start l ch j c + seg_length l ch j c - 1) = true) as Hlast
    by (unfold in_seg; lia).
  apply in_seg_inv in Hfirst as (H1 & _); [|done..].
  apply in_seg_inv in Hlast as (_ & H2 & _); [|done..].
  unfold channel_count in H2. destruct Hl. unfold channel_start in *.
  split; [|lia]. nia.
Qed.
End Tiling.

Lemma launch_fields count itemsize num_sms world :
  l_world (allreduce_launch count itemsize num_sms world) = world ∧
  l_count (allreduce_launch count itemsize num_sms world) = count.
Proof. unfold allreduce_launch. by destruct (_nccl_channel_layout _ _ _) as [[? ?] ?]. Qed.

(** The launches [allreduce] makes cover the tensor. *)
Lemma allreduce_launch_ok count itemsize num_sms world :
  0 < count → 0 < itemsize → 0 < num_sms → 2 ≤ world →
  LaunchOk (allreduce_launch count itemsize num_sms world).
Proof.
  intros Hc Hi Hs Hw. unfold allreduce_launch, _nccl_channel_layout.
  set (cell := Z.max 1 (_NCCL_CELL_BYTES `div` itemsize)).
  set (active := Z.min num_sms _). assert (0 < cell) by lia. assert (0 < active) by lia.
  pose proof (ceil_div count cell ltac:(lia)).
  set (cells := (count + cell - 1) `div` cell) in *. assert (0 < cells) by nia.
  pose proof (ceil_div cells active ltac:(lia)).
  split; cbn; try lia; nia.
Qed.

(** * Moves are steps *)

Lemma move_step (l : Launch) {E} (op : E → E → E) rnr g m g' :
  move l op rnr g m = Some g' → ring_step l op rnr g g'.
Proof.
  unfold move, lane_ok. destruct m; case_match eqn:Hc; intros [= <-]; constructor;
    unfold valid_lane, receive_posted; destruct (posted g _ _), rnr; cbn in *;
    try done; intros; lia.
Qed.

Lemma moves_run (l : Launch) {E} (op : E → E → E) rnr ms g g' :
  moves l op rnr g ms = Some g' → nsteps (ring_step l op rnr) (length ms) g g'.
Proof.
  revert g. induction ms as [|m ms IH]; intros g H; cbn in *; [injection H as <-; constructor|].
  destruct (move l op rnr g m) as [g1|] eqn:Hm; [|done]. apply move_step in Hm.
  econstructor; [exact Hm|]. by apply IH.
Qed.

(** * The invariant *)

Lemma upd2_eq {A} (f : Z → Z → A) a b v : upd2 f a b v a b = v.
Proof. unfold upd2. by rewrite !Z.eqb_refl. Qed.

Lemma upd2_ne {A} (f : Z → Z → A) a b v x y : x ≠ a ∨ y ≠ b → upd2 f a b v x y = f x y.
Proof. intros H. unfold upd2. destruct (Z.eqb_spec x a), (Z.eqb_spec y b); tauto || done. Qed.

Lemma upd2_case {A} (f : Z → Z → A) a b v x y :
  upd2 f a b v x y = if decide (x = a ∧ y = b) then v else f x y.
Proof.
  unfold upd2. case_decide as H; [destruct H as [-> ->]; by rewrite !Z.eqb_refl|].
  destruct (Z.eqb_spec x a), (Z.eqb_spec y b); tauto || done.
Qed.

Section Invariant.
Context (l : Launch) (Hl : LaunchOk l) {E : Type} (op : E → E → E) (rnr : bool) (input junk : Z → Z → E).
Abbreviation w := (l_world l).
Abbreviation L := (steps l).
Abbreviation redn := (reduced l op input).
Implicit Types (g : Ring (E := E)).

(** How far [rank] is behind the rank that chunk [c] starts from. *)
Definition dist (r c : Z) : Z := (r - c - 1) `mod` w.

Lemma mod_cases x :
  - w ≤ x < 3 * w →
  x `mod` w = if x <? 0 then x + w else if x <? w then x
              else if x <? 2 * w then x - w else x - 2 * w.
Proof using Hl.
  intros Hx. destruct Hl.
  destruct (Z.ltb_spec x 0); [|destruct (Z.ltb_spec x w); [|destruct (Z.ltb_spec x (2 * w))]];
    symmetry; [apply (Z.mod_unique_pos x w (-1))|apply (Z.mod_unique_pos x w 0)
    |apply (Z.mod_unique_pos x w 1)|apply (Z.mod_unique_pos x w 2)]; lia.
Qed.

Ltac mods :=
  destruct Hl;
  unfold dist, send_owner, recv_owner, next_rank, prev_rank, is_reduce in *;
  repeat match goal with
  | |- context [?x `mod` w] => rewrite (mod_cases x) by lia
  | H : context [?x `mod` w] |- _ => rewrite (mod_cases x) in H by lia
  end;
  repeat case_match; lia.

Lemma prev_range r : 0 ≤ prev_rank l r < w.
Proof using Hl. destruct Hl. apply Z.mod_pos_bound. lia. Qed.

Lemma next_prev r r' : 0 ≤ r < w → 0 ≤ r' < w → r' = next_rank l r ↔ prev_rank l r' = r.
Proof using Hl. intros Hr Hr'. split; intros ?; mods. Qed.

Lemma steps_pos : 0 < L.
Proof using Hl. destruct Hl. unfold steps. lia. Qed.

Lemma index_split j m k : 0 ≤ m < L → j * L + m = k → k `div` L = j ∧ k `mod` L = m.
Proof using Hl.
  intros Hm <-. pose proof steps_pos. split.
  - symmetry. apply (Z.div_unique_pos _ _ j m); lia.
  - symmetry. apply (Z.mod_unique_pos _ _ j m); lia.
Qed.

Lemma index_eq k : 0 ≤ k → k = k `div` L * L + k `mod` L ∧ 0 ≤ k `mod` L < L ∧ 0 ≤ k `div` L.
Proof using Hl.
  intros Hk. pose proof steps_pos. pose proof (Z.div_mod k L). pose proof (Z.mod_pos_bound k L).
  pose proof (Z.div_pos k L). lia.
Qed.

(** The control part: a rank is at most one put ahead of itself and has
    received one put per index it ended. *)
Record Ctl g : Prop := mk_Ctl {
  ct_pc : ∀ ch r, valid_lane l ch r → 0 ≤ pc g ch r ≤ indices l ch;
  ct_landed : ∀ ch r, valid_lane l ch r →
    pc g ch r ≤ landed g ch r ≤ pc g ch r + 1;
  ct_posted : ∀ ch r, valid_lane l ch r → landed g ch r = pc g ch r + 1 → posted g ch r = true;
  ct_bound : ∀ ch r, valid_lane l ch r → posted g ch r = true → pc g ch r < indices l ch;
  ct_recv : ∀ ch r, valid_lane l ch r → pc g ch r ≤ landed g ch (prev_rank l r);
}.

Lemma valid_prev ch r : valid_lane l ch r → valid_lane l ch (prev_rank l r).
Proof using Hl. intros [? ?]. split; [done|apply prev_range]. Qed.

(** Going back round the ring, each rank is at most one index behind. *)
Lemma lag g ch a m :
  Ctl g → valid_lane l ch a → 0 ≤ m →
  pc g ch a - m ≤ landed g ch ((a - (m + 1)) `mod` w).
Proof using Hl.
  intros HC Ha Hm. revert m Hm. apply natlike_ind; [by apply (ct_recv g HC) in Ha; rewrite Z.sub_0_r|].
  intros m Hm IH. pose proof Hl as [Hw _ _ _ _ _ _].
  assert (valid_lane l ch ((a - (m + 1)) `mod` w)) as Hv
    by (destruct Ha; split; [done|apply Z.mod_pos_bound; lia]).
  pose proof (ct_landed g HC _ _ Hv). pose proof (ct_recv g HC _ _ Hv) as Hr.
  unfold prev_rank in Hr. rewrite Zminus_mod_idemp_l in Hr.
  replace (a - (m + 1) - 1) with (a - (Z.succ m + 1)) in Hr by lia. lia.
Qed.

(** No rank is more than a round trip ahead of the one it sends to. *)
Lemma lead g ch r :
  Ctl g → valid_lane l ch r → landed g ch (prev_rank l r) ≤ landed g ch r + w - 1.
Proof using Hl.
  intros HC Hr. pose proof (valid_prev ch r Hr) as Hp. pose proof Hl as [Hw _ _ _ _ _ _].
  pose proof (lag g ch (prev_rank l r) (w - 2) HC Hp ltac:(lia)) as Hlag.
  pose proof (ct_landed g HC _ _ Hp).
  replace ((prev_rank l r - (w - 2 + 1)) `mod` w) with r in Hlag.
  - lia.
  - destruct Hr as [_ Hr]. unfold prev_rank. rewrite Zminus_mod_idemp_l.
    replace (r - 1 - (w - 2 + 1)) with (r - w) by lia. mods.
Qed.

(** The value an element of chunk [c] of round [j] has in the work buffer. *)
Definition expected g (ch j c r e : Z) : E :=
  let d := dist r c in
  if (d <? w - 1) && (j * L + (w - 1) + d <? landed g ch (prev_rank l r)) then
    total l op input c e
  else if j * L + d <=? pc g ch r then redn c e (Z.to_nat d)
  else input r e.

Record RInv g : Prop := mk_RInv {
  ri_ctl : Ctl g;
  ri_work : ∀ ch j c r e, valid_lane l ch r → 0 ≤ j → 0 ≤ c < w →
    in_seg l ch j c e = true → work g r e = expected g ch j c r e;
  ri_scratch : ∀ ch j c r e, valid_lane l ch r → 0 ≤ j → 0 ≤ c < w →
    in_seg l ch j c e = true → 1 ≤ dist r c →
    j * L + dist r c - 1 < landed g ch (prev_rank l r) →
    scratch g r e = redn c e (Z.to_nat (dist r c - 1));
}.

Lemma dist_range r c : 0 ≤ dist r c < w.
Proof using Hl. destruct Hl. apply Z.mod_pos_bound. lia. Qed.

Lemma launch_inv : RInv (launch input junk).
Proof using Hl.
  pose proof Hl as [Hw _ _ _ _ _ _]. pose proof steps_pos. split; [split|..]; cbn; try (intros; lia || done).
  - intros ch r _. unfold indices, loops. nia.
  - intros ch j c r e [_ Hr] Hj Hc _. unfold expected; cbn. pose proof (dist_range r c).
    replace (j * L + (w - 1) + dist r c <? 0) with false by nia. rewrite andb_false_r.
    destruct (Z.leb_spec (j * L + dist r c) 0); [|done].
    assert (dist r c = 0) as Hd by nia. rewrite Hd. change (Z.to_nat 0) with O.
    cbn [reduced]. f_equal. clear H1. mods.
Qed.

(** What the put of index [k] carries belongs to one chunk of one round. *)
Lemma sends_seg ch r k j c e :
  0 ≤ k → 0 ≤ r < w → 0 ≤ j → 0 ≤ c < w → in_seg l ch j c e = true →
  sends l ch r k e = true ↔ k `div` L = j ∧ send_owner l r (k `mod` L) = c.
Proof using Hl.
  intros Hk Hr Hj Hc Hin. destruct (index_eq k Hk) as (_ & Hi & Hq). unfold sends.
  assert (0 ≤ send_owner l r (k `mod` L) < w) as Ho
    by (destruct Hl; apply Z.mod_pos_bound; lia).
  split; [|by intros [-> ->]]. intros Hs.
  by destruct (in_seg_unique l Hl _ _ _ _ _ _ e Hq Ho Hj Hc Hs Hin) as (_ & -> & ->).
Qed.

Lemma reduces_seg ch r k j c e :
  0 ≤ k → 0 ≤ r < w → 0 ≤ j → 0 ≤ c < w → in_seg l ch j c e = true →
  reduces l ch r k e = true ↔
    k `mod` L < w - 1 ∧ k `div` L = j ∧ recv_owner l r (k `mod` L) = c.
Proof using Hl.
  intros Hk Hr Hj Hc Hin. destruct (index_eq k Hk) as (_ & Hi & Hq). unfold reduces.
  assert (0 ≤ recv_owner l r (k `mod` L) < w) as Ho
    by (destruct Hl; apply Z.mod_pos_bound; lia).
  rewrite andb_true_iff. unfold is_reduce. rewrite Z.ltb_lt.
  split; [|by intros (? & -> & ->)]. intros [Hi' Hs].
  by destruct (in_seg_unique l Hl _ _ _ _ _ _ e Hq Ho Hj Hc Hs Hin) as (_ & -> & ->).
Qed.

(** The chunk a rank sends and reduces at an index, by its distance. *)
Lemma send_owner_reduce r c i :
  0 ≤ r < w → 0 ≤ c < w → 0 ≤ i < w - 1 →
  send_owner l r i = c ↔ dist r c = i.
Proof using Hl.
  intros Hr Hc Hi. unfold send_owner, is_reduce, dist.
  rewrite (proj2 (Z.ltb_lt _ _)) by lia. pose proof Hl as [Hw _ _ _ _ _ _].
  rewrite !mod_cases by lia. split; intros ?; repeat case_match; lia.
Qed.

Lemma send_owner_gather r c s :
  0 ≤ r < w → 0 ≤ c < w → 0 ≤ s < w - 1 →
  send_owner l r (w - 1 + s) = c ↔ dist (next_rank l r) c = s.
Proof using Hl.
  intros Hr Hc Hs. unfold send_owner, is_reduce, dist, next_rank.
  rewrite (proj2 (Z.ltb_ge _ _)) by lia. pose proof Hl as [Hw _ _ _ _ _ _].
  rewrite (mod_cases (r + 1)) by lia.
  destruct (r + 1 <? 0) eqn:?, (r + 1 <? w) eqn:?; try lia;
    [|replace (r + 1 <? 2 * w) with true by lia]; rewrite !mod_cases by lia;
    split; intros ?; repeat case_match; lia.
Qed.

Lemma dist_next r c :
  0 ≤ r < w → 0 ≤ c < w →
  dist (next_rank l r) c = if dist r c =? w - 1 then 0 else dist r c + 1.
Proof using Hl.
  intros Hr Hc. unfold dist, next_rank. pose proof Hl as [Hw _ _ _ _ _ _].
  rewrite (mod_cases (r + 1)) by lia.
  destruct (r + 1 <? 0) eqn:?, (r + 1 <? w) eqn:?; try lia;
    [|replace (r + 1 <? 2 * w) with true by lia]; rewrite !mod_cases by lia;
    repeat case_match; lia.
Qed.

Lemma recv_owner_dist r c i :
  0 ≤ r < w → 0 ≤ c < w → 0 ≤ i < w - 1 →
  recv_owner l r i = c ↔ dist r c = i + 1.
Proof using Hl.
  intros Hr Hc Hi. unfold recv_owner, dist. pose proof Hl as [Hw _ _ _ _ _ _].
  rewrite !mod_cases by lia. split; intros ?; repeat case_match; lia.
Qed.

Lemma rank_of_dist r c : 0 ≤ r < w → 0 ≤ c < w → (c + 1 + dist r c) `mod` w = r.
Proof using Hl.
  intros Hr Hc. unfold dist. pose proof Hl as [Hw _ _ _ _ _ _].
  rewrite Zplus_mod_idemp_r. replace (c + 1 + (r - c - 1)) with r by lia. by apply Z.mod_small.
Qed.

Lemma ctl_step g g' : Ctl g → ring_step l op rnr g g' → Ctl g'.
Proof using All.
  intros HC Hs. pose proof HC as [Hpc Hld Hpo Hbd Hrc].
  destruct Hs as [g ch0 r0 Hv Hlt Hp|g ch0 r0 Hv Hp Hk Hrnr|g ch0 r0 Hv Hp Hk Hr]; split; cbn;
    intros ch r Hchr; pose proof (Hpc ch r Hchr); pose proof (Hld ch r Hchr);
    pose proof (Hrc ch r Hchr); pose proof (Hbd ch r Hchr); pose proof (Hpo ch r Hchr);
    rewrite ?upd2_case; repeat case_decide as Hd;
    try (destruct Hd as [-> ->] || destruct Hd as [-> <-]);
    try (lia || (intros; (congruence || lia || auto))).
Qed.

Lemma post_inv g ch0 r0 : RInv g → Ctl (post g ch0 r0) → RInv (post g ch0 r0).
Proof using All. by intros [_ Hw Hs] HC. Qed.

(** Nobody else's elements move when a put lands or a rank reduces. *)
Lemma sends_channel ch0 r0 k ch j c e :
  0 ≤ k → 0 ≤ r0 < w → 0 ≤ j → 0 ≤ c < w → in_seg l ch j c e = true →
  sends l ch0 r0 k e = true → ch = ch0.
Proof using All.
  intros Hk Hr Hj Hc Hin Hs. destruct (index_eq k Hk) as (_ & Hi & Hq). unfold sends in Hs.
  assert (0 ≤ send_owner l r0 (k `mod` L) < w) as Ho
    by (destruct Hl; apply Z.mod_pos_bound; lia).
  by destruct (in_seg_unique l Hl _ _ _ _ _ _ e Hj Hc Hq Ho Hin Hs) as (-> & _).
Qed.

Lemma reduces_channel ch0 r0 k ch j c e :
  0 ≤ k → 0 ≤ r0 < w → 0 ≤ j → 0 ≤ c < w → in_seg l ch j c e = true →
  reduces l ch0 r0 k e = true → ch = ch0.
Proof using All.
  intros Hk Hr Hj Hc Hin [Hi' Hs]%andb_true_iff.
  destruct (index_eq k Hk) as (_ & Hi & Hq).
  assert (0 ≤ recv_owner l r0 (k `mod` L) < w) as Ho
    by (destruct Hl; apply Z.mod_pos_bound; lia).
  by destruct (in_seg_unique l Hl _ _ _ _ _ _ e Hj Hc Hq Ho Hin Hs) as (-> & _).
Qed.

Lemma finish_inv g ch0 r0 :
  RInv g → valid_lane l ch0 r0 → landed g ch0 r0 = pc g ch0 r0 + 1 →
  pc g ch0 r0 < landed g ch0 (prev_rank l r0) →
  Ctl (finish l op g ch0 r0) → RInv (finish l op g ch0 r0).
Proof using All.
  intros [HC Hw Hs] Hv0 Hk Hrecv HC'. split; [done| |exact Hs].
  intros ch j c r e Hv Hj Hc Hin. pose proof (ct_pc g HC _ _ Hv0) as [Hk0 _].
  pose proof (lead g ch0 r0 HC Hv0) as Hlead. pose proof Hl as [Hw2 _ _ _ _ _ _].
  pose proof (dist_range r c) as Hdr.
  assert (L = 2 * (w - 1)) as HL by done.
  cbn [work finish]. set (k := pc g ch0 r0) in *.
  destruct (decide (ch = ch0 ∧ r = r0)) as [[-> ->]|Hne].
  2: { replace ((r =? r0) && reduces l ch0 r0 k e) with false.
       - rewrite (Hw ch j c r e) by done. unfold expected. cbn [landed pc finish].
         rewrite upd2_ne by lia. done.
       - symmetry. apply andb_false_iff. destruct (Z.eqb_spec r r0) as [->|]; [right|by left].
         apply not_true_iff_false. intros Hred. destruct Hv0 as [_ Hr0].
         apply (reduces_channel ch0 r0 k ch j c e) in Hred; [|done..]. tauto. }
  rewrite Z.eqb_refl. cbn [andb]. pose proof Hv0 as [_ Hr0].
  pose proof (reduces_seg ch0 r0 k j c e Hk0 Hr0 Hj Hc Hin) as Hred.
  unfold expected. cbn [landed pc finish]. rewrite upd2_eq. fold k.
  destruct (reduces l ch0 r0 k e).
  - destruct (proj1 Hred eq_refl) as (Hi & Hq & Ho).
    destruct (index_eq k Hk0) as (Hke & Hi0 & _). rewrite Hq in Hke.
    apply (recv_owner_dist r0 c) in Ho; [|lia..].
    rewrite (Hw ch0 j c r0 e), (Hs ch0 j c r0 e) by (done || lia). unfold expected. rewrite Ho in *.
    replace (_ && (_ <? landed g ch0 (prev_rank l r0))) with false by lia.
    rewrite (proj2 (Z.leb_gt _ _)) by (fold k; lia). rewrite (proj2 (Z.leb_le _ _)) by lia.
    replace (Z.to_nat (k `mod` L + 1)) with (S (Z.to_nat (k `mod` L))) by lia.
    cbn [reduced]. f_equal; [|f_equal; lia].
    replace (Z.of_nat (S (Z.to_nat (k `mod` L)))) with (dist r0 c) by lia.
    by rewrite rank_of_dist.
  - rewrite (Hw ch0 j c r0 e) by done. unfold expected. fold k. case_match; [done|].
    destruct (Z.leb_spec (j * L + dist r0 c) k), (Z.leb_spec (j * L + dist r0 c) (k + 1));
      try done; [lia|].
    destruct (decide (dist r0 c = 0)) as [Hd0|Hd0].
    + pose proof (rank_of_dist r0 c Hr0 Hc) as Hr. rewrite Hd0, Z.add_0_r in Hr.
      rewrite Hd0. change (Z.to_nat 0) with O. cbn [reduced]. by rewrite Hr.
    + destruct (index_split j (dist r0 c - 1) k) as [Hq Hi]; [lia..|].
      enough (false = true) by done. apply Hred. rewrite Hi, Hq.
      split; [lia|]. split; [done|]. apply recv_owner_dist; lia.
Qed.

(** What the sender's work buffer holds of the chunk it sends. *)
Lemma sent_reduce g ch r j c e i :
  RInv g → valid_lane l ch r → 0 ≤ j → 0 ≤ c < w → in_seg l ch j c e = true →
  pc g ch r = j * L + i → 0 ≤ i < w - 1 → dist r c = i → landed g ch r = pc g ch r →
  work g r e = redn c e (Z.to_nat i).
Proof using All.
  intros [HC Hw _] Hv Hj Hc Hin Hk Hi Hd Hl0. rewrite (Hw ch j c r e) by done.
  pose proof (lead g ch r HC Hv) as Hlead. unfold expected. rewrite Hd.
  replace (_ && (_ <? landed g ch (prev_rank l r))) with false by lia.
  by rewrite (proj2 (Z.leb_le _ _)) by lia.
Qed.

Lemma sent_gather g ch r j c e s :
  RInv g → valid_lane l ch r → 0 ≤ j → 0 ≤ c < w → in_seg l ch j c e = true →
  pc g ch r = j * L + (w - 1) + s → 0 ≤ s < w - 1 → dist (next_rank l r) c = s →
  work g r e = total l op input c e.
Proof using All.
  intros [HC Hw _] Hv Hj Hc Hin Hk Hi Hd. rewrite (Hw ch j c r e) by done.
  pose proof (ct_recv g HC ch r Hv). pose proof Hv as [_ Hr].
  pose proof (dist_range r c). rewrite dist_next in Hd by done. unfold expected.
  destruct (Z.eqb_spec (dist r c) (w - 1)) as [Hd'|Hd'].
  - rewrite Hd', (proj2 (Z.ltb_ge (w - 1) (w - 1))) by lia. cbn [andb].
    by rewrite (proj2 (Z.leb_le _ _)) by lia.
  - replace (_ && (_ <? landed g ch (prev_rank l r))) with true by lia. done.
Qed.

Lemma land_work g ch0 r0 r e :
  work (land l g ch0 r0) r e =
    if negb (is_reduce l (pc g ch0 r0 `mod` L)) && (r =? next_rank l r0)
         && sends l ch0 r0 (pc g ch0 r0) e
    then work g r0 e else work g r e.
Proof using All. cbn. by destruct (is_reduce _ _). Qed.

Lemma land_scratch g ch0 r0 r e :
  scratch (land l g ch0 r0) r e =
    if is_reduce l (pc g ch0 r0 `mod` L) && (r =? next_rank l r0)
         && sends l ch0 r0 (pc g ch0 r0) e
    then work g r0 e else scratch g r e.
Proof using All. cbn. by destruct (is_reduce _ _). Qed.

Lemma land_inv g ch0 r0 :
  RInv g → valid_lane l ch0 r0 → landed g ch0 r0 = pc g ch0 r0 →
  pc g ch0 r0 < indices l ch0 →
  Ctl (land l g ch0 r0) → RInv (land l g ch0 r0).
Proof using All.
  intros HI Hv0 Hk Hb HC'. pose proof HI as [HC Hw Hs].
  pose proof (ct_pc g HC _ _ Hv0) as [Hk0 _]. pose proof Hl as [Hw2 _ _ _ _ _ _].
  assert (L = 2 * (w - 1)) as HL by done. pose proof Hv0 as [_ Hr0].
  set (k := pc g ch0 r0) in *. destruct (index_eq k Hk0) as (Hke & Hi & Hq).
  (* the elements of another lane do not move *)
  assert (∀ ch j c r e, valid_lane l ch r → 0 ≤ j → 0 ≤ c < w → in_seg l ch j c e = true →
    ¬ (ch = ch0 ∧ prev_rank l r = r0) → (r =? next_rank l r0) && sends l ch0 r0 k e = false)
    as Hother.
  { intros ch j c r e [_ Hr] Hj Hc Hin Hne. apply andb_false_iff.
    destruct (Z.eqb_spec r (next_rank l r0)) as [Heq|]; [right|by left].
    apply (next_prev r0 r) in Heq; [|done..]. apply not_true_iff_false. intros Hsend.
    apply (sends_channel ch0 r0 k ch j c e) in Hsend; [|done..]. tauto. }
  split; [done|..]; intros ch j c r e Hv Hj Hc Hin; rewrite ?land_work, ?land_scratch; fold k;
    rewrite <- andb_assoc; cbn [land landed pc]; fold k;
    pose proof (dist_range r c) as Hdr; pose proof Hv as [_ Hr];
    (destruct (decide (ch = ch0 ∧ prev_rank l r = r0)) as [[-> Hprev]|Hne];
     [|rewrite (Hother ch j c r e), andb_false_r by done]).
  - apply (next_prev r0 r) in Hprev as Hnext; [|done..].
    pose proof (sends_seg ch0 r0 k j c e Hk0 Hr0 Hj Hc Hin) as Hsend.
    rewrite Hnext, Z.eqb_refl. cbn [andb]. rewrite <- Hnext.
    pose proof (Hw ch0 j c r e Hv Hj Hc Hin) as Hold. unfold expected in *.
    cbn [land landed pc]. rewrite Hprev in *. rewrite upd2_eq, Hk in *. fold k in Hold.
    fold k. unfold is_reduce in *.
    destruct (Z.ltb_spec (k `mod` L) (w - 1)) as [Hred|Hgat]; cbn [negb andb].
    + (* a reduce-scatter put leaves the work buffers alone *)
      rewrite Hold. replace ((dist r c <? w - 1) && (j * L + (w - 1) + dist r c <? k + 1))
        with ((dist r c <? w - 1) && (j * L + (w - 1) + dist r c <? k)); [done|].
      destruct (Z.ltb_spec (dist r c) (w - 1)); [cbn [andb]|done].
      destruct (decide (j * L + (w - 1) + dist r c = k)) as [Heq|]; [|lia].
      destruct (index_split j (w - 1 + dist r c) k) as [_ Hmod]; lia.
    + destruct (sends l ch0 r0 k e).
      * destruct (proj1 Hsend eq_refl) as [Hj' Ho].
        replace (k `mod` L) with (w - 1 + (k `mod` L - (w - 1))) in Ho by lia.
        apply (send_owner_gather r0 c) in Ho; [|lia..]. rewrite <- Hnext in Ho.
        replace (_ && _) with true by lia.
        apply (sent_gather g ch0 r0 j c e (k `mod` L - (w - 1))); try done; try lia.
        by rewrite <- Hnext.
      * rewrite Hold. replace ((dist r c <? w - 1) && (j * L + (w - 1) + dist r c <? k + 1))
          with ((dist r c <? w - 1) && (j * L + (w - 1) + dist r c <? k)); [done|].
        destruct (Z.ltb_spec (dist r c) (w - 1)); [cbn [andb]|done].
        destruct (decide (j * L + (w - 1) + dist r c = k)) as [Heq|]; [|lia].
        destruct (index_split j (w - 1 + dist r c) k) as [Hdiv Hmod]; [lia..|].
        enough (false = true) by done. apply Hsend. split; [done|]. rewrite Hmod.
        apply send_owner_gather; [done|done|lia|by rewrite <- Hnext].
  - rewrite (Hw ch j c r e) by done. unfold expected. cbn [land landed pc].
    by rewrite upd2_ne by lia.
  - intros Hd1 Hlt. apply (next_prev r0 r) in Hprev as Hnext; [|done..].
    pose proof (sends_seg ch0 r0 k j c e Hk0 Hr0 Hj Hc Hin) as Hsend.
    rewrite Hnext, Z.eqb_refl. cbn [andb]. rewrite <- Hnext.
    pose proof (Hs ch0 j c r e Hv Hj Hc Hin Hd1) as Hold. rewrite Hprev in *.
    rewrite upd2_eq in Hlt. rewrite Hk in Hold. fold k in Hold. unfold is_reduce in *.
    destruct (decide (j * L + dist r c - 1 = k)) as [Heq|Hneq].
    + destruct (index_split j (dist r c - 1) k) as [Hdiv Hmod]; [lia..|].
      rewrite (proj2 (Z.ltb_lt _ _)) by lia. cbn [andb].
      assert (dist r0 c = dist r c - 1) as Hd0.
      { subst r. rewrite dist_next in * by done. destruct (Z.eqb_spec (dist r0 c) (w - 1)); lia. }
      replace (sends l ch0 r0 k e) with true.
      * apply (sent_reduce g ch0 r0 j c e); try done; try lia.
      * symmetry. apply Hsend. split; [done|]. rewrite Hmod. apply send_owner_reduce; lia.
    + destruct (_ && sends l ch0 r0 k e) eqn:Hc'; [|apply Hold; lia].
      apply andb_true_iff in Hc' as [Hi'%Z.ltb_lt Hse]. rewrite Hse in Hsend.
      destruct (proj1 Hsend eq_refl) as [Hj' Ho].
      apply (send_owner_reduce r0 c) in Ho; [|lia..].
      subst r. rewrite dist_next in * by done.
      destruct (Z.eqb_spec (dist r0 c) (w - 1)); lia.
  - intros Hd1 Hlt. rewrite upd2_ne in Hlt by lia. by apply (Hs ch j c r e).
Qed.

Lemma ring_inv g g' : RInv g → ring_step l op rnr g g' → RInv g'.
Proof using All.
  intros HI Hs. pose proof (ctl_step g g' (ri_ctl g HI) Hs) as HC'. pose proof HI as [HC _ _].
  destruct Hs as [g ch r Hv Hlt Hp|g ch r Hv Hp Hk Hrnr|g ch r Hv Hp Hk Hr].
  - by apply post_inv.
  - apply land_inv; try done. by apply (ct_bound g HC).
  - by apply finish_inv.
Qed.
End Invariant.

(** ** Progress *)

Section Progress.
Context (l : Launch) (Hl : LaunchOk l) {E : Type} (op : E → E → E) (rnr : bool)
  (input junk : Z → Z → E).
Implicit Types (g : Ring (E := E)).

Definition all_finished g : Prop := ∀ ch r, valid_lane l ch r → finished l g ch r.

Lemma reachable_inv g : rtc (ring_step l op rnr) (launch input junk) g → RInv l op input g.
Proof using Hl.
  intros Hs. assert (RInv l op input (launch input junk)) as H0
    by exact (launch_inv l Hl op input junk).
  induction Hs as [|g1 g2 g3 Hstep _ IH]; [done|]. apply IH.
  exact (ring_inv l Hl op rnr input junk g1 g2 H0 Hstep).
Qed.

Lemma valid_next ch r : valid_lane l ch r → valid_lane l ch (next_rank l r).
Proof using Hl. intros [? ?]. destruct Hl. split; [done|]. apply Z.mod_pos_bound. lia. Qed.

Lemma next_of_prev r : 0 ≤ r < l_world l → next_rank l (prev_rank l r) = r.
Proof using Hl.
  intros Hr. unfold next_rank, prev_rank. rewrite Zplus_mod_idemp_l.
  replace (r - 1 + 1) with r by lia. by apply Z.mod_small.
Qed.

(** The rank furthest behind on a channel can always move, or a neighbour of it
    can. *)
Lemma ring_can_step g ch r :
  Ctl l g → valid_lane l ch r → ¬ finished l g ch r →
  (∀ r', valid_lane l ch r' → pc g ch r ≤ pc g ch r') →
  ∃ g', ring_step l op rnr g g'.
Proof using Hl.
  intros HC Hv Hnf Hmin. unfold finished in Hnf.
  pose proof (ct_pc l g HC _ _ Hv). pose proof (ct_landed l g HC _ _ Hv) as Hld.
  destruct (posted g ch r) eqn:Hp; [|eexists; apply (step_post l op rnr g ch r); done || lia].
  pose proof (valid_next ch r Hv) as Hvn. pose proof (Hmin _ Hvn) as Hnx.
  destruct (decide (landed g ch r = pc g ch r)) as [Hk|Hk].
  { destruct (posted g ch (next_rank l r)) eqn:Hpn.
    - eexists. apply (step_land l op rnr g ch r); try done. intros _. unfold receive_posted.
      rewrite Hpn. lia.
    - destruct (decide (pc g ch (next_rank l r) = pc g ch r)) as [Heq|].
      + eexists. apply (step_post l op rnr g ch (next_rank l r)); done || lia.
      + eexists. apply (step_land l op rnr g ch r); try done. intros _. unfold receive_posted. lia. }
  pose proof (valid_prev l Hl ch r Hv) as Hv'. pose proof (Hmin _ Hv') as Hle.
  pose proof (ct_landed l g HC _ _ Hv') as Hld'.
  destruct (decide (pc g ch r < landed g ch (prev_rank l r))) as [Hr|Hr];
    [eexists; apply (step_finish l op rnr g ch r); done || lia|].
  destruct (posted g ch (prev_rank l r)) eqn:Hp'.
  - eexists. apply (step_land l op rnr g ch (prev_rank l r)); try done || lia. intros _.
    unfold receive_posted. rewrite (next_of_prev r), Hp by apply Hv. lia.
  - eexists. apply (step_post l op rnr g ch (prev_rank l r)); done || lia.
Qed.

(** The least value of a function on the first [n] integers. *)
Lemma min_exists (f : Z → Z) n :
  0 < n → ∃ x, 0 ≤ x < n ∧ ∀ y, 0 ≤ y < n → f x ≤ f y.
Proof using.
  intros Hn. replace n with (Z.succ (n - 1)) by lia.
  assert (0 ≤ n - 1) as Hm by lia. revert Hm. generalize (n - 1). clear n Hn.
  apply natlike_ind.
  - exists 0. split; [lia|]. intros y ?. by replace y with 0 by lia.
  - intros n Hn (x & Hx & Hmin). destruct (Z.le_gt_cases (f x) (f (Z.succ n))).
    + exists x. split; [lia|]. intros y Hy. destruct (decide (y = Z.succ n)) as [->|]; [done|].
      apply Hmin. lia.
    + exists (Z.succ n). split; [lia|]. intros y Hy.
      destruct (decide (y = Z.succ n)) as [->|]; [done|].
      etransitivity; [|apply (Hmin y); lia]. lia.
Qed.

Lemma deadlock_free g ch r :
  Ctl l g → valid_lane l ch r → ¬ finished l g ch r → ∃ g', ring_step l op rnr g g'.
Proof using Hl.
  intros HC Hv Hnf. pose proof Hl as [Hw _ _ _ _ _ _].
  destruct (min_exists (pc g ch) (l_world l) ltac:(lia)) as (x & Hx & Hmin).
  pose proof Hv as [Hch Hr]. assert (valid_lane l ch x) as Hvx by done.
  apply (ring_can_step g ch x); [done|done| |].
  - unfold finished in *. intros Hf. specialize (Hmin r Hr).
    pose proof (ct_pc l g HC ch r Hv). lia.
  - intros r' [_ Hr']. by apply Hmin.
Qed.

(** ** Termination *)

Definition lane_measure g (ch r : Z) : Z :=
  3 * (indices l ch - pc g ch r) - (if posted g ch r then 1 else 0)
  - (landed g ch r - pc g ch r).
Definition measure g : Z :=
  sumZ ((λ ch, sumZ ((λ r, lane_measure g ch r) <$> seqZ 0 (l_world l)))
          <$> seqZ 0 (l_active_channels l)).

Lemma sumZ_minus_indicator (j n : Z) :
  0 ≤ j < n → sumZ ((λ i, - (if decide (j = i) then 1 else 0)) <$> seqZ 0 n) = -1.
Proof using.
  intros Hj. rewrite (sumZ_fmap_ext _ (λ i, -1 * (if decide (j = i) then 1 else 0)))
    by (intros; case_decide; lia).
  rewrite sumZ_fmap_mul, sumZ_indicator; [done|apply NoDup_seqZ|]. apply elem_of_seqZ. lia.
Qed.

Lemma measure_lane g g' ch0 r0 :
  valid_lane l ch0 r0 →
  (∀ ch r, lane_measure g' ch r =
    lane_measure g ch r + - (if decide (ch0 = ch) then if decide (r0 = r) then 1 else 0 else 0)) →
  measure g' = measure g - 1.
Proof using.
  intros [Hch Hr] Hlane. unfold measure.
  rewrite (sumZ_fmap_ext _ (λ ch, sumZ ((λ r, lane_measure g ch r) <$> seqZ 0 (l_world l))
    + - (if decide (ch0 = ch) then 1 else 0))).
  - rewrite sumZ_fmap_add, sumZ_minus_indicator by done. lia.
  - intros ch _. rewrite (sumZ_fmap_ext _ _ _ (λ r _, Hlane ch r)), sumZ_fmap_add. f_equal.
    case_decide as Hc; [by rewrite sumZ_minus_indicator|].
    by rewrite (sumZ_fmap_const _ 0) by done.
Qed.

Lemma measure_step g g' : Ctl l g → ring_step l op rnr g g' → measure g' = measure g - 1.
Proof using.
  intros HC Hs.
  destruct Hs as [g ch0 r0 Hv Hlt Hp|g ch0 r0 Hv Hp Hk Hrnr|g ch0 r0 Hv Hp Hk Hr];
    apply (measure_lane _ _ ch0 r0 Hv); intros ch r; unfold lane_measure;
    cbn [pc posted landed post land finish]; rewrite ?upd2_case;
    (destruct (decide (ch = ch0 ∧ r = r0)) as [[-> ->]|Hne];
     [rewrite !(decide_True _ _ eq_refl), ?Hp; lia|]);
    (destruct (decide (ch0 = ch)); [|lia]); (destruct (decide (r0 = r)); [|lia]);
    by destruct Hne.
Qed.

Lemma measure_nonneg g : Ctl l g → 0 ≤ measure g.
Proof using.
  intros HC. apply sumZ_nonneg, Forall_fmap, Forall_forall. intros ch Hch%elem_of_seqZ.
  apply sumZ_nonneg, Forall_fmap, Forall_forall. intros r Hr%elem_of_seqZ. cbn.
  assert (valid_lane l ch r) as Hv by (split; lia). unfold lane_measure.
  pose proof (ct_pc l g HC ch r Hv). pose proof (ct_landed l g HC ch r Hv).
  pose proof (ct_posted l g HC ch r Hv). pose proof (ct_bound l g HC ch r Hv).
  destruct (posted g ch r); [specialize (H2 eq_refl); lia|].
  destruct (decide (landed g ch r = pc g ch r + 1)) as [Heq|]; [by specialize (H1 Heq)|lia].
Qed.
End Progress.

(** * What the ring computes *)

Section Result.
Context (l : Launch) (Hl : LaunchOk l) {E : Type} (op : E → E → E) (input : Z → Z → E).

(** A rank that has ended every channel holds the total of every element. *)
Lemma finished_total g r e ch j c :
  RInv l op input g → 0 ≤ r < l_world l → (∀ ch, valid_lane l ch r → finished l g ch r) →
  0 ≤ ch < l_active_channels l → 0 ≤ j < loops l ch → 0 ≤ c < l_world l →
  in_seg l ch j c e = true → work g r e = total l op input c e.
Proof using Hl.
  intros [HC Hw _] Hr Hfin Hch Hj Hc Hin.
  assert (valid_lane l ch r) as Hv by done. specialize (Hfin ch Hv). unfold finished in Hfin.
  rewrite (Hw ch j c r e) by (done || lia). unfold expected.
  pose proof (ct_recv l g HC ch r Hv). pose proof (dist_range l Hl r c) as Hd.
  pose proof Hl as [Hw2 _ _ _ _ _ _]. unfold indices in Hfin.
  assert (steps l = 2 * (l_world l - 1)) as HL by done.
  assert ((j + 1) * steps l ≤ pc g ch r) by (rewrite Hfin; nia).
  destruct (Z.ltb_spec (dist l r c) (l_world l - 1)) as [Hlt|Hge]; cbn [andb].
  - by rewrite (proj2 (Z.ltb_lt _ _)) by lia.
  - rewrite (proj2 (Z.leb_le _ _)) by lia. unfold total. f_equal. lia.
Qed.
End Result.

(** For integers the total is the sum over all ranks. *)
Lemma reduced_sum l input c e n :
  reduced l Z.add input c e n =
    sumZ ((λ m, input ((c + 1 + m) `mod` l_world l) e) <$> seqZ 0 (Z.of_nat (S n))).
Proof.
  induction n as [|n IH].
  { change (seqZ 0 (Z.of_nat 1)) with [0]. cbn [reduced sumZ fmap list_fmap].
    rewrite !Z.add_0_r. done. }
  rewrite seqZ_S, fmap_app, sumZ_app, <- IH. cbn [reduced sumZ fmap list_fmap].
  rewrite Z.add_0_l. lia.
Qed.

Lemma total_sum l input c e :
  0 < l_world l →
  total l Z.add input c e = sumZ ((λ r, input r e) <$> seqZ 0 (l_world l)).
Proof.
  intros Hw. unfold total. rewrite reduced_sum.
  replace (Z.of_nat (S (Z.to_nat (l_world l - 1)))) with (l_world l) by lia.
  assert ((λ m, (c + 1 + m) `mod` l_world l) <$> seqZ 0 (l_world l) ≡ₚ seqZ 0 (l_world l)) as Hp.
  { apply submseteq_length_Permutation; [|by rewrite length_fmap].
    apply NoDup_submseteq.
    - apply NoDup_fmap_2_strong; [|apply NoDup_seqZ].
      intros x y Hx%elem_of_seqZ Hy%elem_of_seqZ Heq.
      pose proof (Z.div_mod (c + 1 + x) (l_world l)). pose proof (Z.div_mod (c + 1 + y) (l_world l)).
      set (qx := (c + 1 + x) `div` _) in *. set (qy := (c + 1 + y) `div` _) in *.
      destruct (Z.lt_trichotomy qx qy) as [?|[?|?]]; nia.
    - intros x (m & -> & _)%list_elem_of_fmap. apply elem_of_seqZ.
      pose proof (Z.mod_pos_bound (c + 1 + m) (l_world l)). lia. }
  change (λ m, input ((c + 1 + m) `mod` l_world l) e)
    with ((λ r, input r e) ∘ (λ m, (c + 1 + m) `mod` l_world l)).
  by rewrite list_fmap_compose, Hp.
Qed.

(** * Properties *)


(** with exact addition every rank that ends holds the sum of all ranks'
    inputs, at every element. *)
Theorem ring_allreduce_sum count itemsize num_sms world rnr (input junk : Z → Z → Z) g rank e :
  0 < count → 0 < itemsize → 0 < num_sms → 2 ≤ world →
  let l := allreduce_launch count itemsize num_sms world in
  rtc (ring_step l Z.add rnr) (launch input junk) g →
  0 ≤ rank < world → (∀ channel, valid_lane l channel rank → finished l g channel rank) →
  0 ≤ e < count →
  work g rank e = sumZ ((λ r, input r e) <$> seqZ 0 world).
Proof.
  intros Hc Hi Hs Hw l Hrun Hr Hfin He.
  pose proof (allreduce_launch_ok count itemsize num_sms world Hc Hi Hs Hw) as Hl. fold l in Hl.
  pose proof (reachable_inv l Hl Z.add rnr input junk g Hrun) as HI.
  pose proof (launch_fields count itemsize num_sms world) as [Hlw Hlc]. fold l in Hlw, Hlc.
  destruct (in_seg_exists l Hl e) as (ch & j & c & Hch & Hj & Hcr & Hin); [lia|].
  rewrite <- Hlw, <- (total_sum l input c e) by lia.
  apply (finished_total l Hl Z.add input g rank e ch j c); done || lia.
Qed.


(** C18: where the bytes of a put go.  Below 2 GiB the 32-bit offsets of every put
    that carries data are exact, and the put stays inside the tensor; so puts and
    reductions never leave the registered buffers. *)
Theorem put_offset_exact count itemsize num_sms world channel j owner :
  0 < count → 0 < itemsize → 0 < num_sms → 2 ≤ world → count * itemsize ≤ 2 ^ 31 →
  let l := allreduce_launch count itemsize num_sms world in
  0 ≤ channel → 0 ≤ j → 0 ≤ owner < world → 0 < seg_length l channel j owner →
  put_offset l itemsize channel j owner = seg_start l channel j owner * itemsize ∧
  0 ≤ seg_start l channel j owner * itemsize ∧
  (seg_start l channel j owner + seg_length l channel j owner) * itemsize ≤ count * itemsize.
Proof.
  intros Hc Hi Hs Hw Hb l Hch Hj Ho Hlen.
  pose proof (allreduce_launch_ok count itemsize num_sms world Hc Hi Hs Hw) as Hl. fold l in Hl.
  pose proof (launch_fields count itemsize num_sms world) as [Hlw Hlc]. fold l in Hlw, Hlc.
  pose proof (seg_within l Hl channel j owner Hch Hj ltac:(lia) Hlen) as [H0 H1].
  rewrite Hlc in H1.
  assert (0 ≤ seg_start l channel j owner * itemsize < count * itemsize) by nia.
  split; [|nia]. unfold put_offset, wrap32. rewrite Z.mod_small; lia.
Qed.

(** At two to the thirty elements of four bytes, which [_allreduce_tensor] lets
    through, the offset of a put is negative. *)
Theorem put_offset_wraps :
  let l := allreduce_launch (2 ^ 30) 4 32 2 in
  0 < seg_length l 16 0 0 ∧ put_offset l 4 16 0 0 < 0.
Proof. vm_compute. split; reflexivity. Qed.

(** ** A run of two ranks *)

Definition two_ranks : list Move :=
  let round := [Post 0 0; Post 0 1; Land 0 1; Land 0 0; Finish 0 0; Finish 0 1] in
  round ++ round.
Definition two_launch : Launch := allreduce_launch 3 4 1 2.
Definition two_input : Z → Z → Z := λ r e, 10 * r + e.
Definition two_end : Ring :=
  default (launch two_input two_input)
    (moves two_launch Z.add true (launch two_input two_input) two_ranks).

Lemma two_run : nsteps (ring_step two_launch Z.add true) 12 (launch two_input two_input) two_end.
Proof.
  apply (moves_run two_launch Z.add true two_ranks). unfold two_end.
  destruct (moves _ _ _ _ _) as [g|] eqn:Hm; [done|].
  assert (is_Some (moves two_launch Z.add true (launch two_input two_input) two_ranks)) as Hs
    by (apply is_Some_alt; vm_compute; exact I).
  rewrite Hm in Hs. by destruct Hs.
Qed.

Lemma two_finished rank : 0 ≤ rank < 2 →
  ∀ channel, valid_lane two_launch channel rank → finished two_launch two_end channel rank.
Proof.
  intros Hr channel [Hch _]. change (l_active_channels two_launch) with 1 in Hch.
  assert (channel = 0) as -> by lia. unfold finished.
  assert (rank = 0 ∨ rank = 1) as [-> | ->] by lia; vm_compute; reflexivity.
Qed.


Lemma ring_allreduce_sum_witness : work two_end 1 2 = 14.
Proof.
  assert (sumZ ((λ r, two_input r 2) <$> seqZ 0 2) = 14) as <- by (vm_compute; reflexivity).
  apply (ring_allreduce_sum 3 4 1 2 true two_input two_input two_end 1 2); [lia..| |lia| |lia].
  - apply rtc_nsteps. exists 12%nat. exact two_run.
  - apply two_finished. lia.
Defined.


Lemma put_offset_exact_witness :
  let l := allreduce_launch 100000 4 32 4 in
  0 < seg_length l 3 0 2 ∧ put_offset l 4 3 0 2 = seg_start l 3 0 2 * 4.
Proof.
  assert (0 < seg_length (allreduce_launch 100000 4 32 4) 3 0 2) as Hlen
    by (vm_compute; reflexivity).
  intros l. split; [exact Hlen|].
  apply (put_offset_exact 100000 4 32 4 3 0 2); [lia..|exact Hlen].
Defined.
