(* ===== verification/Json.v ===== *)
(** JSON values and the Python operations that
    src/experiments/fault_tolerant_allreduce/allreduce.py applies to decoded
    ones: comparisons, truth, [len], [int], iteration and lookup by key, with the
    exceptions they raise on values of another type; and the encoder and the decoder,
    [json.dumps(...).encode()] and [json.loads(...decode())], with UTF-8.  The texts of
    floats and of very long integers are the class [PyText]. *)

From S2P Require Import Prelude.
#[local] Open Scope Z_scope.
#[local] Set Warnings "-register-all".

(** [str]: the list of its code points. *)
Abbreviation str := (list Z).

(** An ASCII literal of the source. *)
Fixpoint lit (s : string) : str :=
  match s with
  | EmptyString => []
  | String c s => Z.of_nat (Ascii.nat_of_ascii c) :: lit s
  end.

(** A double: [FFin m e] is [m * 2 ^ e]. *)
Inductive pyfloat := FFin (m e : Z) | FInf (negative : bool) | FNaN.

Inductive json :=
| JNull
| JBool (b : bool)
| JInt (z : Z)
| JFloat (f : pyfloat)
| JStr (s : str)
| JList (l : list json)
| JObj (fields : list (str * json)).

(** * Numbers *)

(** The value scaled to an integer, with the scale: [m * 2 ^ e] with [e < 0] is
    [m / 2 ^ -e]. *)
Definition float_lt_int (f : pyfloat) (n : Z) : bool :=
  match f with
  | FFin m e => if 0 <=? e then m * 2 ^ e <? n else m <? n * 2 ^ (- e)
  | FInf negative => negative
  | FNaN => false
  end.
Definition int_lt_float (n : Z) (f : pyfloat) : bool :=
  match f with
  | FFin m e => if 0 <=? e then n <? m * 2 ^ e else n * 2 ^ (- e) <? m
  | FInf negative => negb negative
  | FNaN => false
  end.
Definition float_eq_int (f : pyfloat) (n : Z) : bool :=
  match f with
  | FFin m e => if 0 <=? e then m * 2 ^ e =? n else m =? n * 2 ^ (- e)
  | _ => false
  end.

Definition bool_int (b : bool) : Z := if b then 1 else 0.

(** [v < n] and [n < v] for an integer [n]: TypeError unless [v] is a number. *)
Definition lt_int (v : json) (n : Z) : result bool :=
  match v with
  | JInt z => Ok (z <? n)
  | JBool b => Ok (bool_int b <? n)
  | JFloat f => Ok (float_lt_int f n)
  | _ => Raise TypeError
  end.
Definition int_lt (n : Z) (v : json) : result bool :=
  match v with
  | JInt z => Ok (n <? z)
  | JBool b => Ok (n <? bool_int b)
  | JFloat f => Ok (int_lt_float n f)
  | _ => Raise TypeError
  end.

(** [v <= n]: not the negation of [n < v] on a NaN. *)
Definition le_int (v : json) (n : Z) : result bool :=
  match v with
  | JFloat f => Ok (float_lt_int f n || float_eq_int f n)
  | _ => b ← int_lt n v; Ok (negb b)
  end.

(** [v == n] never raises. *)
Definition eq_int (v : json) (n : Z) : bool :=
  match v with
  | JInt z => z =? n
  | JBool b => bool_int b =? n
  | JFloat f => float_eq_int f n
  | _ => false
  end.

(** [v == s] for a string. *)
Definition eq_str (v : json) (s : str) : bool :=
  match v with JStr t => bool_decide (t = s) | _ => false end.

(** [bool(v)] *)
Definition truthy (v : json) : bool :=
  match v with
  | JNull => false
  | JBool b => b
  | JInt z => negb (z =? 0)
  | JFloat f => negb (float_eq_int f 0)
  | JStr s => negb (bool_decide (s = []))
  | JList l => negb (length l =? 0)%nat
  | JObj fields => negb (length fields =? 0)%nat
  end.

(** [len(v)] *)
Definition py_len (v : json) : result Z :=
  match v with
  | JStr s => Ok (Z.of_nat (length s))
  | JList l => Ok (Z.of_nat (length l))
  | JObj fields => Ok (Z.of_nat (length fields))
  | _ => Raise TypeError
  end.

(** [int(v)]; [int_of_str] is the conversion of a string. *)
Definition py_int (int_of_str : str → option Z) (v : json) : result Z :=
  match v with
  | JInt z => Ok z
  | JBool b => Ok (bool_int b)
  | JFloat (FFin m e) => Ok (if 0 <=? e then m * 2 ^ e else Z.quot m (2 ^ (- e)))
  | JFloat (FInf _) => Raise OverflowError
  | JFloat FNaN => Raise ValueError
  | JStr s => match int_of_str s with Some z => Ok z | None => Raise ValueError end
  | JNull | JList _ | JObj _ => Raise TypeError
  end.

(** * Containers *)

Fixpoint assoc {A} (k : str) (l : list (str * A)) : option A :=
  match l with
  | [] => None
  | (k', a) :: l => if bool_decide (k = k') then Some a else assoc k l
  end.

(** [v[key]] for a string key. *)
Definition getitem (v : json) (key : str) : result json :=
  match v with
  | JObj fields => match assoc key fields with Some x => Ok x | None => Raise KeyError end
  | _ => Raise TypeError
  end.

(** [d.get(key)] *)
Definition dict_get (d : list (str * json)) (key : str) : json :=
  default JNull (assoc key d).

(** [for x in v] *)
Definition py_iter (v : json) : result (list json) :=
  match v with
  | JList l => Ok l
  | JStr s => Ok ((λ c, JStr [c]) <$> s)
  | JObj fields => Ok ((λ kv, JStr kv.1) <$> fields)
  | _ => Raise TypeError
  end.

(** [[f(x) for x in l]] *)
Fixpoint mapM_result {A B} (f : A → result B) (l : list A) : result (list B) :=
  match l with
  | [] => Ok []
  | x :: l => y ← f x; ys ← mapM_result f l; Ok (y :: ys)
  end.

(** * Text *)

(** The conversions between numbers and text that the interpreter provides:
    [float.__repr__], [float] of a JSON literal and [int] of any string. *)
Class PyText := {
  float_repr : pyfloat → str;
  float_of_literal : str → pyfloat;
  int_of_str : str → option Z;
}.

Definition is_digit (c : Z) : bool := (48 <=? c) && (c <=? 57).

Fixpoint digits_fuel (fuel : nat) (z : Z) (acc : str) : str :=
  match fuel with
  | O => acc
  | S n => if z <? 10 then 48 + z :: acc
           else digits_fuel n (z `div` 10) (48 + z `mod` 10 :: acc)
  end.

(** [str(z)] of a non-negative integer, and of an integer. *)
Definition digits (z : Z) : str := digits_fuel (S (Z.to_nat (Z.log2 z))) z [].
Definition int_repr (z : Z) : str := if z <? 0 then 45 :: digits (- z) else digits z.

Definition digits_value (s : str) : Z := foldl (λ acc c, 10 * acc + (c - 48)) 0 s.

(** The longest prefix of characters in [p]. *)
Fixpoint span (p : Z → bool) (s : str) : str * str :=
  match s with
  | c :: s' => if p c then (c :: (span p s').1, (span p s').2) else ([], s)
  | [] => ([], [])
  end.

Definition hex_digit (d : Z) : Z := if d <? 10 then 48 + d else 87 + d.
Definition hex_value (c : Z) : option Z :=
  if (48 <=? c) && (c <=? 57) then Some (c - 48)
  else if (97 <=? c) && (c <=? 102) then Some (c - 87)
  else if (65 <=? c) && (c <=? 70) then Some (c - 55)
  else None.

(** ["\\u{0:04x}"] *)
Definition u_escape (u : Z) : str :=
  [92; 117; hex_digit ((u `div` 4096) `mod` 16); hex_digit ((u `div` 256) `mod` 16);
   hex_digit ((u `div` 16) `mod` 16); hex_digit (u `mod` 16)].

(** One character of a string literal ([ensure_ascii]). *)
Definition escape (c : Z) : str :=
  if c =? 34 then [92; 34] else if c =? 92 then [92; 92]
  else if c =? 10 then [92; 110] else if c =? 13 then [92; 114]
  else if c =? 9 then [92; 116] else if c =? 12 then [92; 102]
  else if c =? 8 then [92; 98]
  else if (32 <=? c) && (c <=? 126) then [c]
  else if c <? 0x10000 then u_escape c
  else u_escape (0xD800 + (c - 0x10000) `div` 1024)
       ++ u_escape (0xDC00 + (c - 0x10000) `mod` 1024).

Definition quote (s : str) : str := 34 :: concat (escape <$> s) ++ [34].

(** * Printing *)

Section Dumps.
Context `{PyText}.

Definition join_comma (parts : list str) : str :=
  match parts with
  | [] => []
  | p :: ps => p ++ concat ((λ q, 44 :: q) <$> ps)
  end.

(** [json.dumps(v, sort_keys=True, separators=(",", ":"))] of a value whose
    fields are in order; [canon] puts them in order. *)
Fixpoint dumps (v : json) : str :=
  match v with
  | JNull => lit "null"
  | JBool b => if b then lit "true" else lit "false"
  | JInt z => int_repr z
  | JFloat f => float_repr f
  | JStr s => quote s
  | JList l => 91 :: join_comma (map dumps l) ++ [93]
  | JObj fields =>
      123 :: join_comma (map (λ kv, quote kv.1 ++ (58 :: dumps kv.2)) fields) ++ [125]
  end.
End Dumps.

(** Strings compare by code point. *)
Fixpoint str_le (a b : str) : bool :=
  match a, b with
  | [], _ => true
  | _ :: _, [] => false
  | x :: a, y :: b => (x <? y) || ((x =? y) && str_le a b)
  end.

Definition key_le {A} (x y : str * A) : Prop := str_le x.1 y.1 = true.
#[global] Instance key_le_dec {A} (x y : str * A) : Decision (key_le x y).
Proof. unfold key_le. apply _. Defined.

(** [sort_keys=True], at every depth. *)
Fixpoint canon (v : json) : json :=
  match v with
  | JList l => JList (map canon l)
  | JObj fields => JObj (merge_sort key_le (map (λ kv, (kv.1, canon kv.2)) fields))
  | _ => v
  end.

(** * Parsing *)

Definition is_ws (c : Z) : bool := (c =? 32) || (c =? 9) || (c =? 10) || (c =? 13).
Definition skip_ws (s : str) : str := (span is_ws s).2.

(** A dict keeps the place of a key that is set again. *)
Fixpoint dict_set {A} (k : str) (a : A) (l : list (str * A)) : list (str * A) :=
  match l with
  | [] => [(k, a)]
  | (k', a') :: l =>
      if bool_decide (k = k') then (k', a) :: l else (k', a') :: dict_set k a l
  end.

(** Four hexadecimal digits. *)
Definition hex4 (s : str) : option (Z * str) :=
  match s with
  | a :: b :: c :: d :: s' =>
      a ← hex_value a; b ← hex_value b; c ← hex_value c; d ← hex_value d;
      Some (a * 4096 + b * 256 + c * 16 + d, s')
  | _ => None
  end.

Definition high_surrogate (u : Z) : bool := (0xD800 <=? u) && (u <=? 0xDBFF).
Definition low_surrogate (u : Z) : bool := (0xDC00 <=? u) && (u <=? 0xDFFF).

(** After [\u]: the code point, joined with a low surrogate that follows. *)
Definition unescape_u (s : str) : option (Z * str) :=
  us ← hex4 s;
  let '(u, s1) := us in
  match s1 with
  | 92 :: 117 :: s2 =>
      if high_surrogate u && (4 <? Z.of_nat (length s2)) then
        vs ← hex4 s2;
        let '(v, s3) := vs in
        if low_surrogate v
        then Some (0x10000 + (u - 0xD800) * 1024 + (v - 0xDC00), s3)
        else Some (u, s1)
      else Some (u, s1)
  | _ => Some (u, s1)
  end.

(** What a character after a backslash stands for. *)
Definition unescape (c : Z) : option Z :=
  if c =? 34 then Some 34 else if c =? 92 then Some 92
  else if c =? 47 then Some 47 else if c =? 98 then Some 8
  else if c =? 102 then Some 12 else if c =? 110 then Some 10
  else if c =? 114 then Some 13 else if c =? 116 then Some 9
  else None.

(** A string after its opening quote. *)
Fixpoint parse_string (fuel : nat) (s : str) : option (str * str) :=
  match fuel with
  | O => None
  | S n =>
      match s with
      | [] => None
      | c :: s1 =>
          if c =? 34 then Some ([], s1)
          else if c <? 32 then None
          else if c =? 92 then
            match s1 with
            | [] => None
            | d :: s2 =>
                xs ← (if d =? 117 then unescape_u s2
                      else x ← unescape d; Some (x, s2));
                ts ← parse_string n xs.2; Some (xs.1 :: ts.1, ts.2)
            end
          else ts ← parse_string n s1; Some (c :: ts.1, ts.2)
      end
  end.

Section Parse.
Context `{PyText}.

(** A minus sign; then [0] or a run of digits. *)
Definition number_sign (s : str) : bool * str :=
  match s with
  | c :: s1 => if c =? 45 then (true, s1) else (false, s)
  | [] => (false, s)
  end.
Definition number_integer (s : str) : str * str :=
  match s with
  | c :: s1 => if c =? 48 then ([48], s1) else span is_digit s
  | [] => ([], s)
  end.

(** An optional [.] or exponent part: at least one digit after its mark. *)
Definition number_fraction (s : str) : str * str :=
  match s with
  | 46 :: s' => let '(ds, r) := span is_digit s' in
                if (length ds =? 0)%nat then ([], s) else (46 :: ds, r)
  | _ => ([], s)
  end.
Definition number_exponent (s : str) : str * str :=
  match s with
  | e :: s1 =>
      if (e =? 101) || (e =? 69) then
        let '(sign, s2) := match s1 with
                           | c :: s2 => if (c =? 43) || (c =? 45) then ([c], s2) else ([], s1)
                           | [] => ([], s1)
                           end in
        let '(ds, r) := span is_digit s2 in
        if (length ds =? 0)%nat then ([], s) else (e :: sign ++ ds, r)
      else ([], s)
  | [] => ([], s)
  end.

Definition parse_number (s : str) : option (json * str) :=
  let '(negative, s1) := number_sign s in
  let '(ds, s2) := number_integer s1 in
  if (length ds =? 0)%nat then None else
  let '(frac, s3) := number_fraction s2 in
  let '(exp, s4) := number_exponent s3 in
  if (length frac + length exp =? 0)%nat
  then Some (JInt (if negative then - digits_value ds else digits_value ds), s4)
  else Some (JFloat (float_of_literal
               ((if negative then [45] else []) ++ ds ++ frac ++ exp)), s4).

(** [s] after the literal [p]. *)
Fixpoint after (p s : str) : option str :=
  match p, s with
  | [], _ => Some s
  | x :: p, y :: s => if x =? y then after p s else None
  | _, [] => None
  end.

Definition parse_literal (s : str) : option (json * str) :=
  match after (lit "null") s, after (lit "true") s, after (lit "false") s,
        after (lit "NaN") s, after (lit "Infinity") s, after (lit "-Infinity") s with
  | Some r, _, _, _, _, _ => Some (JNull, r)
  | _, Some r, _, _, _, _ => Some (JBool true, r)
  | _, _, Some r, _, _, _ => Some (JBool false, r)
  | _, _, _, Some r, _, _ => Some (JFloat FNaN, r)
  | _, _, _, _, Some r, _ => Some (JFloat (FInf false), r)
  | _, _, _, _, _, Some r => Some (JFloat (FInf true), r)
  | _, _, _, _, _, _ => None
  end.

(** [scan_once]; [parse_items] is at an element of a list, [parse_members] at a
    key of an object, with what was read before them. *)
Fixpoint parse_value (fuel : nat) (s : str) : option (json * str) :=
  match fuel with
  | O => None
  | S n =>
      match s with
      | 34 :: s1 => ts ← parse_string n s1; Some (JStr ts.1, ts.2)
      | 123 :: s1 =>
          match skip_ws s1 with
          | 125 :: s2 => Some (JObj [], s2)
          | s2 => parse_members n [] s2
          end
      | 91 :: s1 =>
          match skip_ws s1 with
          | 93 :: s2 => Some (JList [], s2)
          | s2 => parse_items n [] s2
          end
      | _ => match parse_literal s with
             | Some r => Some r
             | None => parse_number s
             end
      end
  end
with parse_items (fuel : nat) (acc : list json) (s : str) : option (json * str) :=
  match fuel with
  | O => None
  | S n =>
      vs ← parse_value n s;
      match skip_ws vs.2 with
      | 93 :: s2 => Some (JList (acc ++ [vs.1]), s2)
      | 44 :: s2 => parse_items n (acc ++ [vs.1]) (skip_ws s2)
      | _ => None
      end
  end
with parse_members (fuel : nat) (acc : list (str * json)) (s : str) :
    option (json * str) :=
  match fuel with
  | O => None
  | S n =>
      match s with
      | 34 :: s1 =>
          ks ← parse_string n s1;
          match skip_ws ks.2 with
          | 58 :: s2 =>
              vs ← parse_value n (skip_ws s2);
              let acc := dict_set ks.1 vs.1 acc in
              match skip_ws vs.2 with
              | 125 :: s3 => Some (JObj acc, s3)
              | 44 :: s3 => parse_members n acc (skip_ws s3)
              | _ => None
              end
          | _ => None
          end
      | _ => None
      end
  end.

(** [json.loads]: JSONDecodeError is a ValueError. *)
Definition loads (s : str) : result json :=
  match parse_value (S (2 * length s)) (skip_ws s) with
  | Some (v, r) => if (length (skip_ws r) =? 0)%nat then Ok v else Raise ValueError
  | None => Raise ValueError
  end.
End Parse.

(** * UTF-8 *)

Definition continuation (b : Z) : bool := (128 <=? b) && (b <? 192).

(** [data.decode()] *)
Fixpoint utf8_decode (fuel : nat) (data : bytes) : result str :=
  match fuel, data with
  | _, [] => Ok []
  | O, _ => Raise UnicodeError
  | S n, a :: r =>
      if a <? 128 then s ← utf8_decode n r; Ok (a :: s)
      else if (194 <=? a) && (a <? 224) then
        match r with
        | b :: r => if continuation b
                    then s ← utf8_decode n r; Ok ((a - 192) * 64 + (b - 128) :: s)
                    else Raise UnicodeError
        | _ => Raise UnicodeError
        end
      else if (224 <=? a) && (a <? 240) then
        match r with
        | b :: c :: r =>
            let u := (a - 224) * 4096 + (b - 128) * 64 + (c - 128) in
            if continuation b && continuation c && (0x800 <=? u)
               && negb ((0xD800 <=? u) && (u <=? 0xDFFF))
            then s ← utf8_decode n r; Ok (u :: s)
            else Raise UnicodeError
        | _ => Raise UnicodeError
        end
      else if (240 <=? a) && (a <? 245) then
        match r with
        | b :: c :: d :: r =>
            let u := (a - 240) * 262144 + (b - 128) * 4096 + (c - 128) * 64 + (d - 128) in
            if continuation b && continuation c && continuation d
               && (0x10000 <=? u) && (u <=? 0x10FFFF)
            then s ← utf8_decode n r; Ok (u :: s)
            else Raise UnicodeError
        | _ => Raise UnicodeError
        end
      else Raise UnicodeError
  end.
Definition decode (data : bytes) : result str := utf8_decode (length data) data.

(** [json.dumps(v, ...).encode()] (the text is ASCII) and
    [json.loads(data.decode())]. *)
Definition json_encode `{PyText} (v : json) : bytes := dumps (canon v).
Definition json_decode `{PyText} (data : bytes) : result json :=
  s ← decode data; loads s.

(** The values the source sends: text without surrogates, no key twice, no
    float. *)
Definition wf_char (c : Z) : Prop := 0 ≤ c < 0x110000 ∧ ¬ 0xD800 ≤ c ≤ 0xDFFF.
Definition wf_str (s : str) : Prop := Forall wf_char s.

Inductive plain : json → Prop :=
| plain_null : plain JNull
| plain_bool b : plain (JBool b)
| plain_int z : plain (JInt z)
| plain_str s : wf_str s → plain (JStr s)
| plain_list l : Forall plain l → plain (JList l)
| plain_obj fields :
    NoDup fields.*1 → Forall wf_str fields.*1 → Forall plain fields.*2 →
    plain (JObj fields).

(** * The round trip *)

(** ** Numbers *)

Lemma digits_value_app a b : digits_value (a ++ b) = foldl (λ acc c, 10 * acc + (c - 48)) (digits_value a) b.
Proof. apply foldl_app. Qed.

(** What [digits] writes: a run of digits with the value, no leading zero. *)
Record Digits (z : Z) (ds : str) : Prop := mk_Digits {
  dg_digits : Forall (λ c, is_digit c = true) ds;
  dg_value : digits_value ds = z;
  dg_head : ∃ c r, ds = c :: r ∧ 48 ≤ c ≤ 57 ∧ (c = 48 → r = []);
}.

Lemma digits_fuel_spec n z acc :
  0 ≤ z < 2 ^ Z.of_nat n → (0 < n)%nat → ∃ ds, digits_fuel n z acc = ds ++ acc ∧ Digits z ds.
Proof.
  revert z acc. induction n as [|n IH]; intros z acc Hz Hn; [lia|]. cbn [digits_fuel].
  destruct (Z.ltb_spec z 10).
  { exists [48 + z]. split; [done|].
    split; [|unfold digits_value; cbn [foldl]; lia|].
    - apply Forall_singleton. unfold is_digit. lia.
    - exists (48 + z), []. split; [done|]. split; [lia|done]. }
  pose proof (Z.div_mod z 10 ltac:(lia)). pose proof (Z.mod_pos_bound z 10 ltac:(lia)).
  replace (Z.of_nat (S n)) with (Z.succ (Z.of_nat n)) in Hz by lia.
  rewrite Z.pow_succ_r in Hz by lia.
  destruct n as [|n]; [change (2 ^ Z.of_nat 0) with 1 in Hz; lia|].
  destruct (IH (z `div` 10) (48 + z `mod` 10 :: acc) ltac:(lia) ltac:(lia)) as (ds & -> & [Hd Hv Hh]).
  exists (ds ++ [48 + z `mod` 10]). split; [by rewrite <- app_assoc|]. split.
  - apply Forall_app. split; [done|]. apply Forall_singleton. unfold is_digit. lia.
  - rewrite digits_value_app, Hv. cbn [foldl]. lia.
  - destruct Hh as (c & r & -> & Hc & Hh). exists c, (r ++ [48 + z `mod` 10]).
    split; [done|]. split; [done|]. intros Hc0. specialize (Hh Hc0) as ->.
    exfalso. subst c. unfold digits_value in Hv. cbn [foldl] in Hv. lia.
Qed.

Lemma digits_spec z : 0 ≤ z → Digits z (digits z).
Proof.
  intros Hz. unfold digits.
  destruct (digits_fuel_spec (S (Z.to_nat (Z.log2 z))) z []) as (ds & -> & Hd).
  - pose proof (Z.log2_nonneg z). replace (Z.of_nat _) with (Z.succ (Z.log2 z)) by lia.
    split; [done|]. destruct (decide (z = 0)) as [->|]; [done|]. apply Z.log2_spec. lia.
  - lia.
  - by rewrite app_nil_r.
Qed.

(** What may follow a value. *)
Definition stops (r : str) : Prop :=
  match r with [] => True | c :: _ => c = 44 ∨ c = 93 ∨ c = 125 end.

Lemma span_run p ds r :
  Forall (λ c, p c = true) ds → match r with [] => True | c :: _ => p c = false end →
  span p (ds ++ r) = (ds, r).
Proof.
  intros Hds Hr. induction Hds as [|c ds Hc _ IH]; cbn.
  - destruct r as [|c r]; [done|]. cbn. by rewrite Hr.
  - by rewrite Hc, IH.
Qed.

Lemma stops_digit r : stops r → match r with [] => True | c :: _ => is_digit c = false end.
Proof. destruct r; [done|]. cbn. by intros [-> | [-> | ->]]. Qed.

Lemma stops_number r : stops r → number_fraction r = ([], r) ∧ number_exponent r = ([], r).
Proof. destruct r as [|c r]; [done|]. cbn. by intros [-> | [-> | ->]]. Qed.

Section ParseDigits.
Context `{PyText}.

Lemma parse_digits z r :
  0 ≤ z → stops r → number_integer (digits z ++ r) = (digits z, r).
Proof using.
  intros Hz Hr. destruct (digits_spec z Hz) as [Hd _ (c & ds & Heq & Hc & H0)].
  pose proof (span_run is_digit (digits z) r Hd (stops_digit r Hr)) as Hspan.
  rewrite Heq in *. cbn [app number_integer]. destruct (Z.eqb_spec c 48) as [->|]; [|done].
  by rewrite H0.
Qed.

Lemma parse_sign z r :
  number_sign (int_repr z ++ r) = (z <? 0, digits (Z.abs z) ++ r).
Proof using.
  unfold int_repr. destruct (Z.ltb_spec z 0).
  - by replace (Z.abs z) with (- z) by lia.
  - replace (Z.abs z) with z by lia.
    destruct (digits_spec z ltac:(lia)) as [_ _ (c & ds & -> & Hc & _)].
    cbn. by rewrite (proj2 (Z.eqb_neq _ _)) by lia.
Qed.

Lemma parse_number_int z r : stops r → parse_number (int_repr z ++ r) = Some (JInt z, r).
Proof.
  intros Hr. destruct (stops_number r Hr) as [Hf He]. unfold parse_number.
  rewrite parse_sign, parse_digits by (done || lia).
  destruct (digits_spec (Z.abs z) ltac:(lia)) as [_ Hv (c & ds & Heq & _)].
  rewrite Hf, He, Hv, Heq. cbn. destruct (Z.ltb_spec z 0); do 3 f_equal; lia.
Qed.

(** The first character of a printed integer. *)
Lemma int_repr_head z : ∃ c r, int_repr z = c :: r ∧ (c = 45 ∨ 48 ≤ c ≤ 57).
Proof using.
  unfold int_repr. destruct (Z.ltb_spec z 0); [by eexists _, _; split; [done|left]|].
  destruct (digits_spec z ltac:(lia)) as [_ _ (c & r & -> & Hc & _)].
  exists c, r. split; [done|by right].
Qed.
End ParseDigits.

(** ** Strings *)

Lemma hex_value_digit d : 0 ≤ d < 16 → hex_value (hex_digit d) = Some d.
Proof.
  intros Hd. unfold hex_digit, hex_value. destruct (Z.ltb_spec d 10).
  - replace (_ && _) with true by lia. f_equal. lia.
  - replace ((48 <=? 87 + d) && (87 + d <=? 57)) with false by lia.
    replace (_ && _) with true by lia. f_equal. lia.
Qed.

Lemma hex4_u_escape u tl :
  0 ≤ u < 0x10000 → hex4 (drop 2 (u_escape u) ++ tl) = Some (u, tl).
Proof.
  intros Hu. unfold u_escape. cbn [drop app hex4].
  rewrite !hex_value_digit by (apply Z.mod_pos_bound; lia). cbn. do 2 f_equal.
  change 4096 with (16 * 256). change 256 with (16 * 16). rewrite <- !Z.div_div by lia.
  Z.to_euclidean_division_equations. lia.
Qed.

(** A code point that is not a surrogate is read back from its escape. *)
Lemma unescape_u_escape u tl :
  0 ≤ u < 0x10000 → high_surrogate u = false →
  unescape_u (drop 2 (u_escape u) ++ tl) = Some (u, tl).
Proof.
  intros Hu Hs. unfold unescape_u. rewrite hex4_u_escape by done. cbn [mbind option_bind].
  rewrite Hs. cbn [andb]. by repeat case_match.
Qed.

Lemma unescape_u_pair c tl :
  0x10000 ≤ c < 0x110000 → tl ≠ [] →
  unescape_u (drop 2 (u_escape (0xD800 + (c - 0x10000) `div` 1024))
              ++ u_escape (0xDC00 + (c - 0x10000) `mod` 1024) ++ tl) = Some (c, tl).
Proof.
  intros Hc Htl.
  pose proof (Z.div_mod (c - 0x10000) 1024). pose proof (Z.mod_pos_bound (c - 0x10000) 1024).
  set (h := (c - 0x10000) `div` 1024) in *. set (m := (c - 0x10000) `mod` 1024) in *.
  assert (0 ≤ h < 1024) by lia.
  unfold unescape_u. rewrite hex4_u_escape by lia. cbn [mbind option_bind].
  change (u_escape (0xDC00 + m) ++ tl)
    with (92 :: 117 :: drop 2 (u_escape (0xDC00 + m)) ++ tl). cbv beta iota.
  replace (high_surrogate (0xD800 + h)) with true by (unfold high_surrogate; lia).
  rewrite (proj2 (Z.ltb_lt 4 _)).
  2: { rewrite length_app. destruct tl; [done|]. unfold u_escape. cbn [drop length]. lia. }
  rewrite hex4_u_escape by lia. cbn [andb mbind option_bind].
  replace (low_surrogate (0xDC00 + m)) with true by (unfold low_surrogate; lia).
  do 2 f_equal. lia.
Qed.

Lemma parse_string_backslash n d s2 :
  parse_string (S n) (92 :: d :: s2) =
    (xs ← (if d =? 117 then unescape_u s2 else (x ← unescape d; Some (x, s2)));
     ts ← parse_string n xs.2; Some (xs.1 :: ts.1, ts.2)).
Proof. done. Qed.

Lemma parse_escape n c tl :
  wf_char c → tl ≠ [] →
  parse_string (S n) (escape c ++ tl) =
    (ts ← parse_string n tl; Some (c :: ts.1, ts.2)).
Proof.
  intros [Hc Hs] Htl. unfold escape.
  repeat match goal with
  | |- context [if c =? ?k then _ else _] =>
      destruct (Z.eqb_spec c k) as [->|]; [by rewrite ?app_nil_l|]
  end.
  destruct ((32 <=? c) && (c <=? 126)) eqn:Hp.
  { cbn [app parse_string]. rewrite !(proj2 (Z.eqb_neq _ _)), (proj2 (Z.ltb_ge _ _)) by lia.
    done. }
  destruct (Z.ltb_spec c 0x10000).
  - change (u_escape c ++ tl) with (92 :: 117 :: drop 2 (u_escape c) ++ tl).
    rewrite parse_string_backslash. change (117 =? 117) with true. cbv iota.
    by rewrite unescape_u_escape by (unfold high_surrogate; lia).
  - rewrite <- app_assoc.
    change (u_escape (0xD800 + ?h) ++ ?t) with (92 :: 117 :: drop 2 (u_escape (0xD800 + h)) ++ t).
    rewrite parse_string_backslash. change (117 =? 117) with true. cbv iota.
    by rewrite unescape_u_pair by (done || lia).
Qed.

Lemma parse_string_quote n s r :
  wf_str s → (length s < n)%nat →
  parse_string n (concat (escape <$> s) ++ 34 :: r) = Some (s, r).
Proof.
  intros Hs. revert n. induction Hs as [|c s Hc _ IH]; intros n Hn.
  - destruct n; [lia|done].
  - destruct n; [cbn in Hn; lia|]. rewrite fmap_cons. cbn [concat]. rewrite <- app_assoc.
    rewrite parse_escape by (done || by destruct (concat _)).
    cbn [length] in Hn. by rewrite IH by lia.
Qed.

Lemma escape_length s : (length s ≤ length (concat (escape <$> s)))%nat.
Proof.
  induction s as [|c s IH]; [done|]. rewrite fmap_cons. cbn [concat length].
  rewrite length_app. enough (1 ≤ length (escape c))%nat by lia.
  unfold escape. repeat case_match; cbn; lia.
Qed.

(** ** Values *)

(** Induction on plain values, through their lists. *)
Section PlainInd.
Context (P : json → Prop).
Context (Hnull : P JNull) (Hbool : ∀ b, P (JBool b)) (Hint : ∀ z, P (JInt z)).
Context (Hstr : ∀ s, wf_str s → P (JStr s)).
Context (Hlist : ∀ l, Forall plain l → Forall P l → P (JList l)).
Context (Hobj : ∀ fields, NoDup fields.*1 → Forall wf_str fields.*1 →
  Forall plain fields.*2 → Forall P fields.*2 → P (JObj fields)).

Fixpoint plain_ind' v (H : plain v) {struct H} : P v :=
  let fix all l (Hl : Forall plain l) {struct Hl} : Forall P l :=
    match Hl with
    | List.Forall_nil _ => List.Forall_nil _
    | List.Forall_cons _ x l Hx Hl => List.Forall_cons _ _ _ (plain_ind' x Hx) (all l Hl)
    end in
  match H with
  | plain_null => Hnull
  | plain_bool b => Hbool b
  | plain_int z => Hint z
  | plain_str s Hs => Hstr s Hs
  | plain_list l Hl => Hlist l Hl (all l Hl)
  | plain_obj fields Hnd Hk Hv => Hobj fields Hnd Hk Hv (all _ Hv)
  end.
End PlainInd.

Section Roundtrip.
Context `{PyText}.

(** How a printed value begins: not with white space or a closing bracket. *)
Definition starts (c : Z) : bool :=
  negb (is_ws c) && negb (c =? 93) && negb (c =? 125).

Lemma dumps_head v : plain v → ∃ c s, dumps v = c :: s ∧ starts c = true.
Proof.
  destruct 1 as [|b|z|s Hs|l Hl|fields ? ? ?]; try (eexists _, _; split; [done|done]).
  - destruct b; by eexists _, _.
  - destruct (int_repr_head z) as (c & r & Heq & Hc). exists c, r. split; [exact Heq|].
    unfold starts, is_ws. lia.
Qed.

Lemma skip_ws_starts c s : starts c = true → skip_ws (c :: s) = c :: s.
Proof.
  unfold starts, skip_ws. intros Hc. cbn. destruct (is_ws c); done.
Qed.

Lemma skip_ws_dumps v r : plain v → skip_ws (dumps v ++ r) = dumps v ++ r.
Proof.
  intros Hv. destruct (dumps_head v Hv) as (c & s & -> & Hc). by apply skip_ws_starts.
Qed.

Lemma skip_ws_stops r : stops r → skip_ws r = r.
Proof. destruct r as [|c r]; [done|]. cbn. by intros [-> | [-> | ->]]. Qed.

(** What printing then parsing a value means. *)
Definition reads (v : json) : Prop := ∀ fuel r,
  stops r → (2 * length (dumps v) ≤ fuel)%nat → parse_value fuel (dumps v ++ r) = Some (v, r).

Definition comma_all (parts : list str) : str := concat ((λ q, 44 :: q) <$> parts).

Lemma parse_items_tail l fuel acc r :
  Forall plain l → Forall reads l →
  (2 * length (comma_all (map dumps l)) < fuel)%nat →
  ∀ v, plain v → reads v → (2 * length (dumps v) + 2 * length (comma_all (map dumps l)) < fuel)%nat →
  parse_items fuel acc (dumps v ++ comma_all (map dumps l) ++ 93 :: r) =
    Some (JList (acc ++ v :: l), r).
Proof.
  intros Hpl. revert fuel acc. induction Hpl as [|v' l Hv' _ IH]; intros fuel acc Hrd _ v Hv Hr Hf.
  - destruct fuel; [lia|]. cbn [parse_items]. rewrite Hr by (cbn in *; tauto || lia). done.
  - apply Forall_cons in Hrd as [Hr' Hrl]. destruct fuel; [lia|]. cbn [map] in *.
    unfold comma_all in *. rewrite fmap_cons in *. cbn [concat app length] in *.
    rewrite length_app in Hf.
    cbn [parse_items]. rewrite Hr by (cbn; tauto || lia). cbn [mbind option_bind fst snd].
    rewrite skip_ws_stops by (cbn; tauto). rewrite <- app_assoc, skip_ws_dumps by done.
    rewrite IH by (done || lia). by rewrite <- app_assoc.
Qed.

Lemma reads_list l : Forall plain l → Forall reads l → reads (JList l).
Proof.
  intros Hpl Hrd fuel r Hr Hf. destruct fuel; [cbn in Hf; lia|].
  destruct l as [|v l]; [done|]. cbn [dumps map join_comma] in *.
  rewrite length_cons, length_app in Hf. cbn [length] in Hf.
  apply Forall_cons in Hpl as [Hv Hpl]. apply Forall_cons in Hrd as [Hrv Hrd].
  fold (comma_all (map dumps l)) in *. rewrite length_app in Hf.
  change ((91 :: ?s) ++ ?t) with (91 :: (s ++ t)). cbn [parse_value].
  rewrite <- !app_assoc, skip_ws_dumps by done.
  pose proof (parse_items_tail l fuel [] r Hpl Hrd ltac:(lia) v Hv Hrv ltac:(lia)) as Hp.
  cbn [app] in Hp |- *.
  destruct (dumps_head v Hv) as (c & s & Heq & Hc). rewrite Heq in *. cbn [app] in *.
  assert (c ≠ 93) as Hne by (intros ->; done). rewrite <- Hp. clear - Hne.
  repeat (case_match; try done).
Qed.

Definition member (kv : str * json) : str := quote kv.1 ++ (58 :: dumps kv.2).

Lemma dict_set_new {A} k (a : A) l : k ∉ l.*1 → dict_set k a l = l ++ [(k, a)].
Proof using.
  induction l as [|[k' a'] l IH]; [done|]. rewrite fmap_cons. intros Hk. cbn.
  rewrite bool_decide_eq_false_2 by set_solver. by rewrite IH by set_solver.
Qed.

(** Up to the value of a member. *)
Lemma parse_member fuel acc k v t :
  wf_str k → plain v → (2 * length (member (k, v)) ≤ fuel)%nat →
  parse_members (S fuel) acc (member (k, v) ++ t) =
    (vs ← parse_value fuel (dumps v ++ t);
     let acc := dict_set k vs.1 acc in
     match skip_ws vs.2 with
     | 125 :: s3 => Some (JObj acc, s3)
     | 44 :: s3 => parse_members fuel acc (skip_ws s3)
     | _ => None
     end).
Proof.
  intros Hk Hv Hf. unfold member, quote in *. cbn [fst snd] in *.
  rewrite !length_app, length_cons, length_app in Hf. cbn [length] in Hf.
  pose proof (escape_length k). rewrite <- app_assoc. cbn [app parse_members].
  rewrite <- app_assoc. cbn [app]. rewrite parse_string_quote by (done || lia).
  cbn [mbind option_bind fst snd]. cbn [skip_ws span]. change (skip_ws (58 :: ?s)) with (58 :: s).
  cbv iota. by rewrite skip_ws_dumps.
Qed.

Lemma parse_members_tail fields : ∀ fuel acc r k v,
  Forall wf_str fields.*1 → Forall plain fields.*2 → Forall reads fields.*2 →
  wf_str k → plain v → reads v → NoDup (acc ++ (k, v) :: fields).*1 →
  (2 * length (member (k, v)) + 2 * length (comma_all (map member fields)) < fuel)%nat →
  parse_members fuel acc (member (k, v) ++ comma_all (map member fields) ++ 125 :: r) =
    Some (JObj (acc ++ (k, v) :: fields), r).
Proof.
  induction fields as [|[k' v'] fields IH]; intros fuel acc r k v Hks Hvs Hrs Hk Hv Hr Hnd Hf;
    (destruct fuel; [lia|]); cbn [map] in *;
    assert (k ∉ acc.*1) as Hnew by
      (rewrite fmap_app, fmap_cons in Hnd; apply NoDup_app in Hnd as (_ & Hd & _);
       intros Hin; eapply Hd; [exact Hin|left]);
    rewrite parse_member by (done || lia);
    (assert (2 * length (dumps v) ≤ fuel)%nat
       by (unfold member in Hf; cbn [fst snd] in Hf; rewrite length_app in Hf;
           cbn [length] in Hf; lia)).
  - rewrite Hr by (cbn; tauto || lia). cbn [mbind option_bind fst snd].
    rewrite skip_ws_stops by (cbn; tauto). by rewrite dict_set_new.
  - rewrite fmap_cons in Hks. rewrite fmap_cons in Hvs. rewrite fmap_cons in Hrs. apply Forall_cons in Hks as [Hk' Hks].
    apply Forall_cons in Hvs as [Hv' Hvs]. apply Forall_cons in Hrs as [Hr' Hrs].
    unfold comma_all in *. rewrite fmap_cons in *. cbn [concat app length] in *.
    rewrite length_app in Hf. rewrite Hr by (cbn; tauto || lia).
    cbn [mbind option_bind fst snd]. rewrite skip_ws_stops by (cbn; tauto).
    rewrite dict_set_new by done. rewrite <- app_assoc.
    change (skip_ws (member (k', v') ++ ?t)) with (member (k', v') ++ t).
    rewrite IH; [by rewrite <- app_assoc|done..|by rewrite <- app_assoc|].
    lia.
Qed.

Lemma reads_obj fields :
  NoDup fields.*1 → Forall wf_str fields.*1 → Forall plain fields.*2 → Forall reads fields.*2 →
  reads (JObj fields).
Proof.
  intros Hnd Hks Hvs Hrs fuel r Hr Hf. destruct fuel; [cbn in Hf; lia|].
  destruct fields as [|[k v] fields]; [done|]. rewrite fmap_cons in Hks. rewrite fmap_cons in Hvs. rewrite fmap_cons in Hrs.
  apply Forall_cons in Hks as [Hk Hks]. apply Forall_cons in Hvs as [Hv Hvs].
  apply Forall_cons in Hrs as [Hrv Hrs].
  assert (dumps (JObj ((k, v) :: fields))
    = 123 :: (member (k, v) ++ comma_all (map member fields)) ++ [125]) as Hd by done.
  rewrite Hd in Hf |- *. rewrite length_cons, !length_app in Hf. cbn [length] in Hf.
  change ((123 :: ?s) ++ ?t) with (123 :: (s ++ t)). cbn [parse_value].
  rewrite <- !app_assoc.
  change (skip_ws (member (k, v) ++ ?t)) with (member (k, v) ++ t).
  pose proof (parse_members_tail fields fuel [] r k v Hks Hvs Hrs Hk Hv Hrv Hnd ltac:(lia)) as Hp.
  cbn [app] in Hp |- *. rewrite <- Hp. done.
Qed.

Lemma digit_cases d :
  48 ≤ d ≤ 57 →
  d = 48 ∨ d = 49 ∨ d = 50 ∨ d = 51 ∨ d = 52 ∨ d = 53 ∨ d = 54 ∨ d = 55 ∨ d = 56 ∨ d = 57.
Proof using. lia. Qed.

Lemma parse_literal_int z r : parse_literal (int_repr z ++ r) = None.
Proof.
  unfold int_repr. destruct (Z.ltb_spec z 0).
  - destruct (digits_spec (- z) ltac:(lia)) as [_ _ (d & ds & -> & Hd & _)].
    apply digit_cases in Hd. by repeat destruct Hd as [-> | Hd]; [..|subst d].
  - destruct (digits_spec z ltac:(lia)) as [_ _ (d & ds & -> & Hd & _)].
    apply digit_cases in Hd. by repeat destruct Hd as [-> | Hd]; [..|subst d].
Qed.

Lemma reads_int z : reads (JInt z).
Proof.
  intros fuel r Hr Hf. destruct fuel.
  { cbn [dumps] in Hf. destruct (int_repr_head z) as (c & t & Heq & _). rewrite Heq in Hf.
    cbn in Hf. lia. }
  pose proof (parse_literal_int z r) as Hl. pose proof (parse_number_int z r Hr) as Hn.
  cbn [dumps]. destruct (int_repr_head z) as (c & t & Heq & Hc). rewrite Heq in *.
  cbn [app parse_value] in *. rewrite Hl, Hn.
  assert (c ≠ 34 ∧ c ≠ 123 ∧ c ≠ 91) as (H34 & H123 & H91) by lia.
  repeat (case_match; try done).
Qed.

(** Every plain value is read back. *)
Lemma reads_plain v : plain v → reads v.
Proof.
  induction 1 as [|b|z|s Hs|l Hl Hr|fields Hnd Hk Hv Hr] using plain_ind'.
  - intros fuel r Hr Hf. destruct fuel; [cbn in Hf; lia|]. done.
  - intros fuel r Hr Hf. destruct fuel; [destruct b; cbn in Hf; lia|]. by destruct b.
  - apply reads_int.
  - intros fuel r Hr Hf. destruct fuel; [cbn in Hf; lia|]. cbn [dumps] in *. unfold quote in *.
    cbn [length app] in Hf. rewrite length_app in Hf. cbn [length] in Hf.
    pose proof (escape_length s). change ((34 :: ?x) ++ ?y) with (34 :: (x ++ y)).
    rewrite <- app_assoc. cbn [parse_value app]. by rewrite parse_string_quote by (done || lia).
  - by apply reads_list.
  - by apply reads_obj.
Qed.

(** ** The text is ASCII *)

Definition ascii (s : str) : Prop := Forall (λ c, 0 ≤ c < 128) s.

Lemma ascii_digit d : 0 ≤ d < 16 → 0 ≤ hex_digit d < 128.
Proof using. unfold hex_digit. intros. case_match; lia. Qed.

Lemma ascii_escape c : wf_char c → ascii (escape c).
Proof using.
  intros [Hc _]. unfold escape, u_escape.
  assert (∀ x, 0 ≤ hex_digit (x `mod` 16) < 128) as Hh
    by (intros x; apply ascii_digit, Z.mod_pos_bound; lia).
  repeat case_match; unfold ascii; rewrite ?Forall_app;
    rewrite ?Forall_cons, ?Forall_nil; repeat split; try apply Hh; lia.
Qed.

Lemma ascii_quote s : wf_str s → ascii (quote s).
Proof using.
  intros Hs. unfold quote. apply Forall_cons. split; [lia|]. apply Forall_app.
  split; [|repeat constructor; lia].
  induction Hs; [constructor|]. rewrite fmap_cons. apply Forall_app.
  split; [by apply ascii_escape|done].
Qed.

Lemma ascii_int z : ascii (int_repr z).
Proof using.
  assert (∀ y, 0 ≤ y → ascii (digits y)) as Hd.
  { intros y Hy. destruct (digits_spec y Hy) as [Hds _ _]. eapply Forall_impl; [exact Hds|].
    cbn. unfold is_digit. intros. lia. }
  unfold int_repr. case_match; [constructor; [lia|]|]; apply Hd; lia.
Qed.

Lemma ascii_join l : Forall ascii l → ascii (join_comma l).
Proof using.
  destruct 1 as [|p l Hp Hl]; [constructor|]. apply Forall_app. split; [done|].
  induction Hl; [constructor|]. rewrite fmap_cons. cbn [concat app].
  constructor; [lia|]. by apply Forall_app.
Qed.

Lemma ascii_dumps v : plain v → ascii (dumps v).
Proof.
  assert (∀ c, 0 ≤ c < 128 → ∀ s, ascii s → ascii (c :: s)) as Hcons by (intros; by constructor).
  induction 1 as [|b|z|s Hs|l Hl Hr|fields Hnd Hk Hv Hr] using plain_ind'.
  - repeat constructor; lia.
  - destruct b; repeat constructor; lia.
  - apply ascii_int.
  - by apply ascii_quote.
  - cbn [dumps]. apply Hcons; [lia|]. apply Forall_app. split; [|repeat constructor; lia].
    apply ascii_join. by apply Forall_fmap.
  - cbn [dumps]. apply Hcons; [lia|]. apply Forall_app. split; [|repeat constructor; lia].
    apply ascii_join. clear Hnd Hv.
    induction fields as [|[k v] fields IH]; [constructor|]. rewrite fmap_cons in Hk.
    rewrite fmap_cons in Hr. apply Forall_cons in Hk as [? ?]. apply Forall_cons in Hr as [? ?].
    cbn [map]. constructor; [|by apply IH]. apply Forall_app. split; [by apply ascii_quote|].
    apply Hcons; [lia|done].
Qed.

Lemma decode_ascii s : ascii s → decode s = Ok s.
Proof using.
  unfold decode. induction 1 as [|c s Hc _ IH]; [done|]. cbn [length utf8_decode].
  rewrite (proj2 (Z.ltb_lt _ _)) by lia. by rewrite IH.
Qed.

(** ** Key order *)

Lemma canon_plain v : plain v → plain (canon v).
Proof using.
  induction 1 as [|b|z|s Hs|l Hl Hr|fields Hnd Hk Hv Hr] using plain_ind'; try by constructor.
  - constructor. by apply Forall_fmap.
  - cbn [canon].
    assert (merge_sort key_le (map (λ kv, (kv.1, canon kv.2)) fields)
      ≡ₚ (λ kv : str * json, (kv.1, canon kv.2)) <$> fields) as Hp by apply merge_sort_Permutation.
    constructor; rewrite Hp, <- list_fmap_compose; [done|done|].
    change (Forall plain ((canon ∘ snd) <$> fields)). rewrite list_fmap_compose.
    by apply Forall_fmap.
Qed.

Lemma assoc_elem {A} k (a : A) l : NoDup l.*1 → assoc k l = Some a ↔ (k, a) ∈ l.
Proof using.
  induction l as [|[k' a'] l IH]; intros Hnd; cbn.
  - split; [done|]. by intros ?%not_elem_of_nil.
  - rewrite fmap_cons in Hnd. apply NoDup_cons in Hnd as [Hk Hnd]. rewrite elem_of_cons.
    case_bool_decide as Heq.
    + subst k'. split; [intros [= <-]; by left|]. intros [[= ->]|Hin]; [done|].
      destruct Hk. apply list_elem_of_fmap. by exists (k, a).
    + rewrite IH by done. split; [by right|]. by intros [[= ??]|?].
Qed.

(** Looking a key up does not depend on the order. *)
Lemma assoc_perm {A} k (l l' : list (str * A)) : NoDup l.*1 → l ≡ₚ l' → assoc k l = assoc k l'.
Proof using.
  intros Hnd Hp. apply option_eq. intros a. rewrite !assoc_elem; [by rewrite Hp| |done].
  by rewrite <- Hp.
Qed.

Lemma assoc_map {A B} k (f : A → B) l :
  assoc k (map (λ kv, (kv.1, f kv.2)) l) = f <$> assoc k l.
Proof using.
  induction l as [|[k' a] l IH]; [done|]. cbn. by case_bool_decide.
Qed.

Lemma assoc_canon k fields :
  NoDup fields.*1 →
  assoc k (merge_sort key_le (map (λ kv, (kv.1, canon kv.2)) fields)) = canon <$> assoc k fields.
Proof using.
  intros Hnd. rewrite <- assoc_map. symmetry. apply assoc_perm.
  - change (map ?f ?l) with (f <$> l). by rewrite <- list_fmap_compose.
  - symmetry. apply merge_sort_Permutation.
Qed.

Lemma json_decode_encode v : plain v → json_decode (json_encode v) = Ok (canon v).
Proof.
  intros Hv%canon_plain. unfold json_decode, json_encode.
  rewrite decode_ascii by by apply ascii_dumps. cbv [mbind result_bind]. unfold loads.
  pose proof (skip_ws_dumps (canon v) [] Hv) as Hs. rewrite app_nil_r in Hs. rewrite Hs.
  pose proof (reads_plain (canon v) Hv (S (2 * length (dumps (canon v)))) [] I ltac:(lia)) as Hr.
  rewrite app_nil_r in Hr. by rewrite Hr.
Qed.

(** What decoding can raise. *)
Lemma utf8_error n data e : utf8_decode n data = Raise e → e = UnicodeError.
Proof using.
  revert data e. induction n as [|n IH]; intros data e; destruct data as [|a r]; cbn [utf8_decode];
    try (by intros [= <-]).
  repeat (case_match; try (by intros [= <-])); cbv [mbind result_bind];
    match goal with |- context [utf8_decode n ?r] =>
      destruct (utf8_decode n r) eqn:Hd; [done|intros [= <-]; by eapply IH]
    end.
Qed.

Lemma json_decode_error data e :
  json_decode data = Raise e → e = UnicodeError ∨ e = ValueError.
Proof.
  unfold json_decode, decode. destruct (utf8_decode _ data) as [s|e'] eqn:Hd;
    cbv [mbind result_bind].
  - unfold loads. repeat case_match; intros [= <-]; by right.
  - intros [= <-]. left. by eapply utf8_error.
Qed.
End Roundtrip.

(** * The fuel of [loads] is enough *)

Lemma span_length p s : (length (span p s).2 ≤ length s)%nat ∧
  (length (span p s).1 + length (span p s).2 = length s)%nat.
Proof.
  induction s as [|c s IH]; [done|]. cbn [span]. case_match; cbn [fst snd length]; lia.
Qed.

Lemma skip_ws_length s : (length (skip_ws s) ≤ length s)%nat.
Proof. apply span_length. Qed.

Lemma hex4_length s u r : hex4 s = Some (u, r) → (length r < length s)%nat.
Proof.
  unfold hex4. repeat (case_match; try done).
  intros H'. repeat (apply bind_Some in H' as (? & _ & H')). injection H' as <- <-. cbn. lia.
Qed.

Lemma unescape_u_length s u r : unescape_u s = Some (u, r) → (length r < length s)%nat.
Proof.
  unfold unescape_u. intros ([v s1] & Hv%hex4_length & H')%bind_Some.
  repeat (case_match; try (injection H' as <- <-; done)); subst.
  apply bind_Some in H' as ([v' s3] & Hv'%hex4_length & H').
  case_match; injection H' as <- <-; cbn in *; lia.
Qed.

Lemma parse_string_length n s t r : parse_string n s = Some (t, r) → (length r < length s)%nat.
Proof.
  revert s t r. induction n as [|n IH]; intros s t r; [done|]. destruct s as [|c s1]; [done|].
  cbn [parse_string length]. repeat (case_match; try done); subst.
  - intros [= _ <-]. lia.
  - intros ([x s3] & Hx & ([ts r'] & Hr%IH & [= _ <-])%bind_Some)%bind_Some. cbn [snd length] in *.
    apply unescape_u_length in Hx. lia.
  - intros ([x s3] & Hx & ([ts r'] & Hr%IH & [= _ <-])%bind_Some)%bind_Some. cbn [snd length] in *.
    apply bind_Some in Hx as (? & _ & [= _ <-]). lia.
  - intros ([ts r'] & Hr%IH & [= _ <-])%bind_Some. cbn [snd]. lia.
Qed.

Lemma parse_string_S n c s1 :
  parse_string (S n) (c :: s1) =
    (if c =? 34 then Some ([], s1) else if c <? 32 then None else
     if c =? 92 then
       match s1 with
       | [] => None
       | d :: s2 =>
           xs ← (if d =? 117 then unescape_u s2 else (x ← unescape d; Some (x, s2)));
           ts ← parse_string n xs.2; Some (xs.1 :: ts.1, ts.2)
       end
     else (ts ← parse_string n s1; Some (c :: ts.1, ts.2))).
Proof. done. Qed.

Lemma parse_string_fuel n s : (length s < n)%nat → parse_string (S n) s = parse_string n s.
Proof.
  revert s. induction n as [|n IH]; intros s Hn; [lia|].
  destruct s as [|c s1]; [done|]. cbn [length] in Hn.
  rewrite (parse_string_S (S n)), (parse_string_S n).
  repeat (case_match; try done); subst.
  - destruct (unescape_u _) as [[x s3]|] eqn:Hx; [|done]. apply unescape_u_length in Hx.
    cbn [mbind option_bind snd length] in *. by rewrite IH by lia.
  - destruct (unescape _) as [x|] eqn:Hx; [|done].
    cbn [mbind option_bind snd length] in *. by rewrite IH by lia.
  - rewrite IH by lia. done.
Qed.

Section Fuel.
Context `{PyText}.

Lemma after_length p s r : after p s = Some r → (length r + length p = length s)%nat.
Proof using.
  revert s. induction p as [|x p IH]; intros s; cbn.
  - intros [= <-]. lia.
  - destruct s as [|y s]; [done|]. case_match; [|done]. intros Hr%IH. cbn. lia.
Qed.

Lemma parse_literal_length s v r : parse_literal s = Some (v, r) → (length r < length s)%nat.
Proof using.
  unfold parse_literal. repeat case_match; try done; intros [= <- <-];
    match goal with H : after _ _ = Some _ |- _ => apply after_length in H; cbn in H; lia end.
Qed.

Lemma number_rest_length s :
  (length (number_fraction s).2 ≤ length s ∧ length (number_exponent s).2 ≤ length s)%nat.
Proof using.
  split.
  - unfold number_fraction. repeat case_match; subst; cbn [snd length]; try lia.
    match goal with H : span _ ?x = (_, ?b) |- _ =>
      pose proof (span_length is_digit x) as [Hl _]; rewrite H in Hl; cbn in *; lia end.
  - unfold number_exponent. repeat case_match; subst; cbn [snd length]; try lia;
      repeat match goal with
      | H : span _ ?x = (_, ?b) |- _ =>
          pose proof (span_length is_digit x) as [? _]; rewrite H in *; clear H
      | H : (_, _) = (_, _) |- _ => injection H as <- <-
      end; cbn in *; lia.
Qed.

Lemma parse_number_length s v r : parse_number s = Some (v, r) → (length r < length s)%nat.
Proof.
  unfold parse_number.
  assert (length (number_sign s).2 ≤ length s)%nat as Hs
    by (unfold number_sign; repeat case_match; cbn; lia).
  destruct (number_sign s) as [b s1]. cbn [snd] in Hs.
  assert (length (number_integer s1).1 + length (number_integer s1).2 = length s1)%nat as Hi.
  { unfold number_integer. destruct s1; [done|]. case_match; [done|]. apply span_length. }
  destruct (number_integer s1) as [ds s2]. cbn [fst snd] in Hi.
  destruct (Nat.eqb_spec (length ds) 0); [done|].
  pose proof (number_rest_length s2) as [Hf _]. destruct (number_fraction s2) as [fr s3].
  pose proof (number_rest_length s3) as [_ He]. destruct (number_exponent s3) as [ex s4].
  cbn [snd] in *. case_match; intros [= _ <-]; lia.
Qed.

(** The parser's equations, with the characters compared one at a time. *)
Definition at_char (k : Z) (s : str) : option str :=
  match s with
  | c :: r => if c =? k then Some r else None
  | [] => None
  end.

Lemma at_char_length k s r : at_char k s = Some r → (length r < length s)%nat.
Proof using. destruct s; cbn; [done|]. case_match; [|done]. intros [= <-]. lia. Qed.

Lemma parse_value_eq n s :
  parse_value (S n) s =
    match at_char 34 s with
    | Some s1 => ts ← parse_string n s1; Some (JStr ts.1, ts.2)
    | None =>
    match at_char 123 s with
    | Some s1 => match at_char 125 (skip_ws s1) with
                 | Some s2 => Some (JObj [], s2)
                 | None => parse_members n [] (skip_ws s1)
                 end
    | None =>
    match at_char 91 s with
    | Some s1 => match at_char 93 (skip_ws s1) with
                 | Some s2 => Some (JList [], s2)
                 | None => parse_items n [] (skip_ws s1)
                 end
    | None => match parse_literal s with Some r => Some r | None => parse_number s end
    end end end.
Proof.
  destruct s as [|c s1]; [done|]. cbn [at_char].
  destruct (Z.eqb_spec c 34) as [->|]; [done|].
  destruct (Z.eqb_spec c 123) as [->|].
  { cbn [parse_value]. destruct (skip_ws s1) as [|d s2]; [done|]. cbn [at_char].
    destruct (Z.eqb_spec d 125) as [->|]; [done|]. by repeat (case_match; try done). }
  destruct (Z.eqb_spec c 91) as [->|].
  { cbn [parse_value]. destruct (skip_ws s1) as [|d s2]; [done|]. cbn [at_char].
    destruct (Z.eqb_spec d 93) as [->|]; [done|]. by repeat (case_match; try done). }
  cbn [parse_value]. by repeat (case_match; try done).
Qed.

Lemma parse_items_eq n acc s :
  parse_items (S n) acc s =
    (vs ← parse_value n s;
     match at_char 93 (skip_ws vs.2) with
     | Some s2 => Some (JList (acc ++ [vs.1]), s2)
     | None =>
     match at_char 44 (skip_ws vs.2) with
     | Some s2 => parse_items n (acc ++ [vs.1]) (skip_ws s2)
     | None => None
     end end).
Proof.
  cbn [parse_items]. destruct (parse_value n s) as [[v r]|]; [|done].
  cbn [mbind option_bind fst snd]. destruct (skip_ws r) as [|d s2]; [done|]. cbn [at_char].
  destruct (Z.eqb_spec d 93) as [->|]; [done|]. destruct (Z.eqb_spec d 44) as [->|]; [done|].
  by repeat (case_match; try done).
Qed.

Lemma parse_members_eq n acc s :
  parse_members (S n) acc s =
    (s1 ← at_char 34 s;
     ks ← parse_string n s1;
     s2 ← at_char 58 (skip_ws ks.2);
     vs ← parse_value n (skip_ws s2);
     match at_char 125 (skip_ws vs.2) with
     | Some s3 => Some (JObj (dict_set ks.1 vs.1 acc), s3)
     | None =>
     match at_char 44 (skip_ws vs.2) with
     | Some s3 => parse_members n (dict_set ks.1 vs.1 acc) (skip_ws s3)
     | None => None
     end end).
Proof.
  cbn [parse_members]. destruct s as [|c s1]; [done|]. cbn [at_char].
  destruct (Z.eqb_spec c 34) as [->|]; [|by repeat (case_match; try done)].
  cbn [mbind option_bind]. destruct (parse_string n s1) as [[k r]|]; [|done].
  cbn [mbind option_bind fst snd]. destruct (skip_ws r) as [|d s2]; [done|]. cbn [at_char].
  destruct (Z.eqb_spec d 58) as [->|]; [|by repeat (case_match; try done)].
  cbn [mbind option_bind]. destruct (parse_value n (skip_ws s2)) as [[v t]|]; [|done].
  cbn [mbind option_bind fst snd]. destruct (skip_ws t) as [|e s3]; [done|]. cbn [at_char].
  destruct (Z.eqb_spec e 125) as [->|]; [done|]. destruct (Z.eqb_spec e 44) as [->|]; [done|].
  by repeat (case_match; try done).
Qed.

(** Collect what is known of the lengths of rests. *)
Ltac rests :=
  repeat match goal with
  | H : at_char _ ?s = Some _ |- _ => apply at_char_length in H
  | H : parse_string _ _ = Some (_, _) |- _ => apply parse_string_length in H
  | H : parse_literal _ = Some (_, _) |- _ => apply parse_literal_length in H
  | H : parse_number _ = Some (_, _) |- _ => apply parse_number_length in H
  | |- context [skip_ws ?s] => lazymatch goal with
      | _ : (length (skip_ws s) ≤ _)%nat |- _ => fail
      | |- _ => pose proof (skip_ws_length s) end
  | _ : context [skip_ws ?s] |- _ => lazymatch goal with
      | _ : (length (skip_ws s) ≤ _)%nat |- _ => fail
      | |- _ => pose proof (skip_ws_length s) end
  end.

(** A parser leaves a shorter rest. *)
Lemma parse_shrinks n :
  (∀ s v r, parse_value n s = Some (v, r) → (length r < length s)%nat) ∧
  (∀ acc s v r, parse_items n acc s = Some (v, r) → (length r < length s)%nat) ∧
  (∀ acc s v r, parse_members n acc s = Some (v, r) → (length r < length s)%nat).
Proof.
  induction n as [|n (IHv & IHi & IHm)]; [done|]. split_and!.
  - intros s v r. rewrite parse_value_eq. repeat case_match.
    + intros ([t r'] & ? & [= _ <-])%bind_Some. cbn [snd]. rests. lia.
    + intros [= _ <-]. rests. lia.
    + intros ?%IHm. rests. lia.
    + intros [= _ <-]. rests. lia.
    + intros ?%IHi. rests. lia.
    + intros [= ->]. rests. lia.
    + intros ?. rests. lia.
  - intros acc s v r. rewrite parse_items_eq. intros ([v' r'] & ?%IHv & H')%bind_Some.
    cbn [fst snd] in H'. revert H'. repeat case_match; [intros [= _ <-]|intros ?%IHi|done];
      rests; lia.
  - intros acc s v r. rewrite parse_members_eq.
    intros (s1 & ? & ([k s2] & ? & (s3 & ? & ([v' s4] & ?%IHv & H')%bind_Some)%bind_Some)%bind_Some)%bind_Some.
    cbn [fst snd] in *. revert H'. repeat case_match; [intros [= _ <-]|intros ?%IHm|done];
      rests; lia.
Qed.

(** With fuel for its input, more fuel changes nothing. *)
Lemma parse_fuel n :
  (∀ s, (2 * length s < n)%nat → parse_value (S n) s = parse_value n s) ∧
  (∀ acc s, (2 * length s + 1 < n)%nat → parse_items (S n) acc s = parse_items n acc s) ∧
  (∀ acc s, (2 * length s + 1 < n)%nat → parse_members (S n) acc s = parse_members n acc s).
Proof.
  induction n as [|n (IHv & IHi & IHm)]; [split_and!; lia|]. split_and!.
  - intros s Hn. rewrite !parse_value_eq. repeat case_match; try done.
    + rests. by rewrite parse_string_fuel by lia.
    + rests. by rewrite IHm by lia.
    + rests. by rewrite IHi by lia.
  - intros acc s Hn. rewrite !parse_items_eq, IHv by lia.
    destruct (parse_value n s) as [[v r]|] eqn:Hv; [|done]. cbn [mbind option_bind fst snd].
    apply (proj1 (parse_shrinks n)) in Hv.
    repeat case_match; try done. rests. by rewrite IHi by lia.
  - intros acc s Hn. rewrite !parse_members_eq.
    destruct (at_char 34 s) as [s1|] eqn:?; [|done]. cbn [mbind option_bind].
    rests. rewrite parse_string_fuel by lia.
    destruct (parse_string n s1) as [[k r]|] eqn:?; [|done]. cbn [mbind option_bind fst snd].
    destruct (at_char 58 _) as [s2|] eqn:?; [|done]. cbn [mbind option_bind].
    rests. rewrite IHv by lia.
    destruct (parse_value n _) as [[v t]|] eqn:Hv; [|done]. cbn [mbind option_bind fst snd].
    apply (proj1 (parse_shrinks n)) in Hv.
    repeat case_match; try done. rests. by rewrite IHm by lia.
Qed.

(** [loads] is the parse with any fuel above twice the length of its input. *)
Lemma loads_fuel s n :
  (2 * length s < n)%nat → parse_value n s = parse_value (S (2 * length s)) s.
Proof.
  intros Hn. induction Hn as [|n Hn IH]; [done|].
  by rewrite (proj1 (parse_fuel n)) by (unfold lt in *; lia).
Qed.
End Fuel.
