(* ===== verification/Stream.v ===== *)
(** Byte streams: what the socket code of allreduce.py and transport.py relies
    on when it reads from a connection, the loops that read an exact number of
    bytes, and what they return however the network fragments the stream. *)

From S2P Require Import Prelude Bytes.
#[local] Open Scope Z_scope.

(** [sock.recv(n)] (or [recv_into] an [n]-byte view): the bytes it got. *)
Class SockRecv (S W : Type) := sock_recv : S → Z → W → result bytes * W.

(** A connection delivers what its peer wrote, in order, in fragments of any
    size: a read of [n > 0] bytes returns between 1 and [n] of the bytes that
    remain, and none only at the end.  [stream w s] is what remains. *)
Class StreamLaws (S W : Type) `{SockRecv S W} := {
  stream : W → S → bytes;
  recv_some : ∀ s n w, 0 < n → stream w s ≠ [] →
    ∃ k, (0 < k)%nat ∧ Z.of_nat k ≤ n ∧ (k ≤ length (stream w s))%nat ∧
      (sock_recv s n w).1 = Ok (take k (stream w s)) ∧
      stream (sock_recv s n w).2 s = drop k (stream w s);
  recv_eof : ∀ s n w, 0 < n → stream w s = [] →
    (sock_recv s n w).1 = Ok [] ∧ stream (sock_recv s n w).2 s = [];
}.

Section RecvExact.
Context {S W : Type} `{!SockRecv S W}.

(** [while remaining: part = sock.recv(remaining); ...]: [closed] is what the
    caller raises when the peer has closed.  Every round but the last reads at
    least a byte, so [Z.to_nat count] rounds are enough. *)
Fixpoint recv_loop (fuel : nat) (closed : exn) (s : S) (remaining : Z) : M W bytes :=
  match fuel with
  | O => mret []
  | Datatypes.S fuel =>
      if remaining =? 0 then mret [] else
      part ← (λ w, sock_recv s remaining w);
      if (length part =? 0)%nat then raise closed else
      rest ← recv_loop fuel closed s (remaining - Z.of_nat (length part));
      mret (part ++ rest)
  end.

Definition recv_exact (closed : exn) (s : S) (count : Z) : M W bytes :=
  recv_loop (Z.to_nat count) closed s count.

Context `{!StreamLaws S W}.

(** The exact read returns the next bytes, however they are fragmented, or
    raises when the stream ends before. *)
Lemma recv_exact_spec closed s count w :
  0 ≤ count →
  (recv_exact closed s count w).1 =
    (if Z.of_nat (length (stream w s)) <? count then Raise closed
     else Ok (take (Z.to_nat count) (stream w s))) ∧
  stream (recv_exact closed s count w).2 s = drop (Z.to_nat count) (stream w s).
Proof.
  intros Hc. unfold recv_exact. remember (Z.to_nat count) as fuel eqn:Hf.
  assert (count = Z.of_nat fuel) as -> by lia. clear Hc Hf.
  assert (∀ n f w, (n ≤ f)%nat →
    (recv_loop f closed s (Z.of_nat n) w).1 =
      (if Z.of_nat (length (stream w s)) <? Z.of_nat n then Raise closed
       else Ok (take n (stream w s))) ∧
    stream (recv_loop f closed s (Z.of_nat n) w).2 s = drop n (stream w s)) as Hall.
  2: { by apply Hall. }
  clear w fuel. intros n. induction n as [n IH] using lt_wf_ind. intros f w Hn.
  destruct n as [|n].
  { replace (_ <? _) with false by lia. destruct f; cbn; by rewrite drop_0. }
  destruct f as [|f]; [lia|]. cbn [recv_loop].
  rewrite (proj2 (Z.eqb_neq (Z.of_nat (Datatypes.S n)) 0)) by lia.
  unfold mbind, M_bind.
  destruct (decide (stream w s = [])) as [Hnil|Hne].
  - destruct (recv_eof s (Z.of_nat (Datatypes.S n)) w ltac:(lia) Hnil) as [Hr Hs].
    destruct (sock_recv s (Z.of_nat (Datatypes.S n)) w) as [r w']. cbn [fst snd] in *. subst r.
    cbn [length]. rewrite Hnil. cbn. by rewrite Hs.
  - destruct (recv_some s (Z.of_nat (Datatypes.S n)) w ltac:(lia) Hne)
      as (k & Hk & Hkn & Hkl & Hr & Hs).
    destruct (sock_recv s (Z.of_nat (Datatypes.S n)) w) as [r w']. cbn [fst snd] in *. subst r.
    rewrite length_take, Nat.min_l by lia. rewrite (proj2 (Nat.eqb_neq k 0)) by lia.
    replace (Z.of_nat (Datatypes.S n) - Z.of_nat k) with (Z.of_nat (Datatypes.S n - k)) by lia.
    destruct (IH (Datatypes.S n - k)%nat ltac:(lia) f w' ltac:(lia)) as [Hr' Hs'].
    destruct (recv_loop f closed s _ w') as [r w'']. cbn [fst snd] in *. subst r.
    rewrite Hs in *. rewrite length_drop in *.
    destruct (Z.ltb_spec (Z.of_nat (length (stream w s) - k)) (Z.of_nat (Datatypes.S n - k)));
      cbn [fst snd mret M_ret].
    + rewrite (proj2 (Z.ltb_lt _ _)) by lia. split; [done|]. rewrite Hs', drop_drop. f_equal. lia.
    + rewrite (proj2 (Z.ltb_ge _ _)) by lia. split.
      * f_equal. rewrite take_take_drop. f_equal. lia.
      * rewrite Hs', drop_drop. f_equal. lia.
Qed.

(** What an exact read keeps of other sockets' streams. *)
Lemma recv_exact_ok closed s (a b : bytes) w :
  stream w s = a ++ b →
  ∃ w', recv_exact closed s (Z.of_nat (length a)) w = (Ok a, w') ∧ stream w' s = b.
Proof.
  intros Hs. destruct (recv_exact_spec closed s (Z.of_nat (length a)) w ltac:(lia)) as [Hr Hd].
  destruct (recv_exact closed s _ w) as [r w']. cbn [fst snd] in *. exists w'.
  rewrite Hs, Nat2Z.id, length_app, (proj2 (Z.ltb_ge _ _)) in Hr by lia.
  rewrite Hs, Nat2Z.id, drop_app_length in Hd. rewrite take_app_length in Hr. by subst.
Qed.
End RecvExact.

(** A connection of a single peer that delivers three bytes at a time. *)
Module Fragments.
#[local] Instance recv3 : SockRecv unit bytes := λ _ n w,
  (Ok (take (Nat.min 3 (Z.to_nat n)) w), drop (Nat.min 3 (Z.to_nat n)) w).

#[local] Instance recv3_laws : StreamLaws unit bytes.
Proof.
  refine {| stream := λ w _, w |}.
  - intros s n w Hn Hw. exists (Nat.min (Nat.min 3 (Z.to_nat n)) (length w)).
    destruct w as [|x w]; [done|]. unfold sock_recv, recv3.
    remember (x :: w) as l. assert (0 < length l)%nat by (subst; cbn; lia).
    split_and!; [lia|lia|lia| |]; cbn.
    + f_equal. rewrite <- take_take. by rewrite (firstn_all l).
    + destruct (Nat.min_spec (Nat.min 3 (Z.to_nat n)) (length l)) as [[Hlt Heq]|[Hle Heq]];
        cbn in Heq; rewrite Heq; [done|].
      rewrite !drop_ge by (done || lia). done.
  - intros s n w _ ->. unfold sock_recv, recv3. by destruct (Nat.min _ _).
Defined.
End Fragments.
