(* ===== verification/Handles.v ===== *)
(** Membership handles, rendezvous messages and the checks of tensors and
    timeouts: the module-level functions of
    src/experiments/fault_tolerant_allreduce/allreduce.py.

    A handle is a prefix followed by the base64 of a JSON object.  The fields of
    a decoded [_Member] keep the JSON values they were given, of whatever type,
    and the checks raise on them what Python raises. *)

From S2P Require Import Prelude Bytes Helpers Json Stream.
#[local] Open Scope Z_scope.

Definition _HANDLE_PREFIX : str := lit "ibverbs-allreduce-v1:".
Definition _MAX_FRAME : Z := 16 * 1024 * 1024.

(** * base64 and hexadecimal *)

(** The URL-safe alphabet. *)
Definition b64_char (d : Z) : Z :=
  if d <? 26 then 65 + d else if d <? 52 then 71 + d else if d <? 62 then d - 4
  else if d =? 62 then 45 else 95.

(** [urlsafe_b64decode] also takes the standard [+] and [/]. *)
Definition b64_value (c : Z) : option Z :=
  if (65 <=? c) && (c <=? 90) then Some (c - 65)
  else if (97 <=? c) && (c <=? 122) then Some (c - 71)
  else if (48 <=? c) && (c <=? 57) then Some (c + 4)
  else if (c =? 45) || (c =? 43) then Some 62
  else if (c =? 95) || (c =? 47) then Some 63
  else None.

(** [base64.urlsafe_b64encode] *)
Fixpoint urlsafe_b64encode (raw : bytes) : str :=
  match raw with
  | a :: b :: c :: raw =>
      b64_char (a `div` 4) :: b64_char ((a `mod` 4) * 16 + b `div` 16)
      :: b64_char ((b `mod` 16) * 4 + c `div` 64) :: b64_char (c `mod` 64)
      :: urlsafe_b64encode raw
  | [a; b] => [b64_char (a `div` 4); b64_char ((a `mod` 4) * 16 + b `div` 16);
               b64_char ((b `mod` 16) * 4); 61]
  | [a] => [b64_char (a `div` 4); b64_char ((a `mod` 4) * 16); 61; 61]
  | [] => []
  end.

(** [s.rstrip(c)] *)
Definition rstrip (c : Z) (s : str) : str := reverse (span (Z.eqb c) (reverse s)).2.

(** [binascii.a2b_base64] without strict mode: [quad] characters of the current
    group are read, [left] holds their bits that are not written, [pads] counts
    the [=] seen since; other characters are skipped. *)
Fixpoint a2b_base64 (quad : nat) (left : Z) (pads : nat) (s : str) : result bytes :=
  match s with
  | [] => if (quad =? 0)%nat then Ok [] else Raise ValueError
  | c :: s =>
      if c =? 61 then
        if (2 <=? quad)%nat then
          if (4 <=? quad + S pads)%nat then Ok [] else a2b_base64 quad left (S pads) s
        else a2b_base64 quad left pads s
      else match b64_value c with
      | None => a2b_base64 quad left pads s
      | Some d =>
          match quad with
          | 0%nat => a2b_base64 1 d 0 s
          | 1%nat => r ← a2b_base64 2 (d `mod` 16) 0 s; Ok (left * 4 + d `div` 16 :: r)
          | 2%nat => r ← a2b_base64 3 (d `mod` 4) 0 s; Ok (left * 16 + d `div` 4 :: r)
          | _ => r ← a2b_base64 0 0 0 s; Ok (left * 64 + d :: r)
          end
      end
  end.

(** [base64.urlsafe_b64decode] of a string: it must be ASCII. *)
Definition urlsafe_b64decode (s : str) : result bytes :=
  if forallb (λ c, c <? 128) s then a2b_base64 0 0 0 s else Raise ValueError.

(** [data.hex()] *)
Definition hex (data : bytes) : str :=
  concat ((λ b, [hex_digit (b `div` 16); hex_digit (b `mod` 16)]) <$> data).

(** [bytes.fromhex]: pairs of digits, white space between them. *)
Definition is_space (c : Z) : bool := (c =? 32) || ((9 <=? c) && (c <=? 13)).
Fixpoint fromhex_str (s : str) : result bytes :=
  match s with
  | [] => Ok []
  | c :: s =>
      if is_space c then fromhex_str s else
      match s with
      | d :: s =>
          match hex_value c, hex_value d with
          | Some x, Some y => r ← fromhex_str s; Ok (x * 16 + y :: r)
          | _, _ => Raise ValueError
          end
      | [] => Raise ValueError
      end
  end.
Definition fromhex (v : json) : result bytes :=
  match v with JStr s => fromhex_str s | _ => Raise TypeError end.

(** * Handles *)

Record Member := mk_Member {
  m_raw : str;
  m_stable_rank : json;
  m_nonce : json;
  m_host : json;
  m_port : json;
  m_hca : json;
  m_ib_port : json;
  m_gid_index : json;
  m_gid : json;
  m_max_bytes : json;
  m_qps : json;
  m_num_sms : json;
}.

Definition required : list str :=
  lit <$> ["stable_rank"; "nonce"; "host"; "port"; "hca"; "ib_port"; "gid_index";
           "gid"; "max_bytes"; "qps"; "num_sms"]%string.

(** [a or b] on conditions that may raise. *)
Definition por (a b : result bool) : result bool :=
  x ← a; if (x : bool) then Ok true else b.

Section Handles.
Context `{!PyText}.

Definition _b64encode (payload : json) : str := rstrip 61 (urlsafe_b64encode (json_encode payload)).
Definition _encode_handle (payload : json) : str := _HANDLE_PREFIX ++ _b64encode payload.

(** [_Member(raw=handle, **value)]: the fields by name. *)
Definition member_of (raw : str) (value : list (str * json)) : Member :=
  let f k := dict_get value (lit k) in
  mk_Member raw (f "stable_rank") (f "nonce") (f "host") (f "port") (f "hca") (f "ib_port")
    (f "gid_index") (f "gid") (f "max_bytes") (f "qps") (f "num_sms").

(** The body of the first [try]. *)
Definition decode_member (handle : str) : result Member :=
  let encoded := drop (length _HANDLE_PREFIX) handle in
  let padded := encoded ++ replicate (Z.to_nat ((- Z.of_nat (length encoded)) `mod` 4)) 61 in
  raw ← urlsafe_b64decode padded;
  value ← json_decode raw;
  match value with
  | JObj fields =>
      if bool_decide (fields.*1 ≡ₚ required) then Ok (member_of handle fields)
      else Raise ValueError
  | _ => Raise ValueError
  end.

(** [not 0 < port < 65536] and [len(gid) != 32] *)
Definition port_invalid (port : json) : result bool :=
  above ← int_lt 0 port;
  if (above : bool) then (below ← lt_int port 65536; Ok (negb below)) else Ok true.
Definition gid_length_invalid (gid : json) : result bool :=
  n ← py_len gid; Ok (negb (n =? 32)).

(** The long condition: any of these is out of range. *)
Definition member_invalid (m : Member) : result bool :=
  por (lt_int (m_stable_rank m) 0) $
  por (Ok (negb (truthy (m_nonce m)))) $
  por (Ok (negb (truthy (m_host m)))) $
  por (port_invalid (m_port m)) $
  por (le_int (m_ib_port m) 0) $
  por (lt_int (m_gid_index m) 0) $
  por (gid_length_invalid (m_gid m)) $
  por (le_int (m_max_bytes m) 0) $
  por (le_int (m_qps m) 0) $
  le_int (m_num_sms m) 0.

Definition _decode_handle (handle : str) : result Member :=
  if negb (bool_decide (take (length _HANDLE_PREFIX) handle = _HANDLE_PREFIX))
  then Raise ReconfigureError else
  match decode_member handle with
  | Raise e =>
      if bool_decide (e ∈ [TypeError; ValueError; UnicodeError]) then Raise ReconfigureError
      else Raise e
  | Ok m =>
      invalid ← member_invalid m;
      if (invalid : bool) then Raise ReconfigureError else
      match fromhex (m_gid m) with
      | Raise ValueError => Raise ReconfigureError
      | Raise e => Raise e
      | Ok _ => Ok m
      end
  end.

(** * QP information *)

Definition _qp_info_dict (info : QPInfo) : json := JObj
  [(lit "qp_num", JInt (qi_qp_num info)); (lit "psn", JInt (qi_psn info));
   (lit "lid", JInt (qi_lid info)); (lit "gid", JStr (hex (qi_gid info)));
   (lit "port", JInt (qi_port info)); (lit "mtu", JInt (qi_mtu info))].

Definition int_field (value : json) (key : string) : result Z :=
  x ← getitem value (lit key); py_int int_of_str x.

Definition _qp_info_from_dict (value : json) : result QPInfo :=
  match
    qp_num ← int_field value "qp_num";
    psn ← int_field value "psn";
    lid ← int_field value "lid";
    gid ← (x ← getitem value (lit "gid"); fromhex x);
    port ← int_field value "port";
    mtu ← int_field value "mtu";
    QPInfo_init qp_num psn lid gid port mtu
  with
  | Ok i => Ok i
  | Raise e =>
      if bool_decide (e ∈ [KeyError; TypeError; ValueError]) then Raise ReconfigureError
      else Raise e
  end.

(** * Frames *)

(** The bytes of a message. *)
Definition frame_bytes (value : json) : result bytes :=
  let payload := json_encode value in
  if _MAX_FRAME <? Z.of_nat (length payload) then Raise ReconfigureError else
  size ← pack_be fI (Z.of_nat (length payload)); Ok (size ++ payload).

Section Frames.
Context {S W : Type} `{!SockRecv S W}.

(** [_send_frame]: [sendall] is the socket's. *)
Definition _send_frame (sendall : S → bytes → M W unit) (sock : S) (value : json) : M W unit :=
  data ← lift (frame_bytes value); sendall sock data.

Definition _recv_exact (sock : S) (count : Z) : M W bytes :=
  recv_exact ReconfigureError sock count.

Definition _recv_frame (sock : S) : M W (list (str * json)) :=
  head ← _recv_exact sock 4;
  let size := be_val head in
  guard_raise (_MAX_FRAME <? size) ReconfigureError;;
  body ← _recv_exact sock size;
  match json_decode body with
  | Ok (JObj fields) => mret fields
  | Ok _ => raise ReconfigureError
  | Raise e =>
      if bool_decide (e ∈ [UnicodeError; ValueError]) then raise ReconfigureError else raise e
  end.
End Frames.
End Handles.

(** * Timeouts *)

(** Times are integer nanoseconds.  What a caller may pass as a timeout: a
    [timedelta], a finite number of seconds, or an infinite or NaN float. *)
Inductive Duration := Timedelta (ns : Z) | Seconds (ns : Z) | NotFinite.

Definition duration_ns (d : Duration) : option Z :=
  match d with Timedelta ns | Seconds ns => Some ns | NotFinite => None end.

Definition _seconds (value : option Duration) (default_ns : Z) : result Z :=
  match duration_ns (default (Seconds default_ns) value) with
  | Some ns => if ns <=? 0 then Raise ValueError else Ok ns
  | None => Raise ValueError
  end.

Definition _timeout_value (value : option Duration) : option Duration :=
  match value with
  | Some (Timedelta ns) => if ns <=? 0 then None else value
  | _ => None
  end.

(** [floor(log2(per_attempt / 4.096e-6))], clamped: the logarithm of the quotient
    rounded down is that of the exact quotient. *)
Definition _ibv_timeout_exponent (timeout retries : Z) : Z :=
  let unit_ns := 4096 * (retries + 1) in
  Z.max 0 (Z.min 31 (Z.log2 (Z.max 1 (timeout `div` unit_ns)))).

(** * Tensors *)

Inductive DType :=
  | float16 | bfloat16 | float32 | float64 | int8 | uint8 | int32 | uint32 | int64 | uint64
  | float8_e4m3fn | float8_e5m2.

#[global] Instance DType_eq_dec : EqDecision DType.
Proof. solve_decision. Defined.

Definition _GPUNETIO_DTYPE_CODES (d : DType) : Z :=
  match d with
  | float16 => 0 | bfloat16 => 1 | float32 => 2 | float64 => 3 | int8 => 4 | uint8 => 5
  | int32 => 6 | uint32 => 7 | int64 => 8 | uint64 => 9 | float8_e4m3fn => 10
  | float8_e5m2 => 11
  end.

Definition aliases : list (str * DType) := (λ x, (lit x.1, x.2)) <$>
  [("torch.float16", float16); ("float16", float16); ("half", float16);
   ("torch.bfloat16", bfloat16); ("bfloat16", bfloat16);
   ("torch.float32", float32); ("float32", float32); ("float", float32);
   ("torch.float64", float64); ("float64", float64); ("double", float64);
   ("torch.float8_e4m3fn", float8_e4m3fn); ("float8_e4m3fn", float8_e4m3fn);
   ("torch.float8_e5m2", float8_e5m2); ("float8_e5m2", float8_e5m2);
   ("torch.int8", int8); ("int8", int8); ("torch.uint8", uint8); ("uint8", uint8);
   ("torch.int32", int32); ("int32", int32); ("torch.uint32", uint32); ("uint32", uint32);
   ("torch.int64", int64); ("int64", int64); ("torch.uint64", uint64);
   ("uint64", uint64)]%string.

Definition widths (d : DType) : Z :=
  match d with
  | float16 | bfloat16 => 2
  | float32 | int32 | uint32 => 4
  | float64 | int64 | uint64 => 8
  | int8 | uint8 | float8_e4m3fn | float8_e5m2 => 1
  end.

(** A tensor-like object: the attributes it has and what they answer. *)
Record CudaTensor := mk_CudaTensor {
  ct_data_ptr : option Z;
  ct_is_contiguous : option bool;
  ct_is_cuda : option bool;
  ct_numel : option Z;
  ct_element_size : option Z;
  ct_nbytes : option Z;
  ct_dtype : str;
}.

Definition _tensor_nbytes (t : CudaTensor) : result Z :=
  match ct_data_ptr t with
  | None => Raise TypeError
  | Some _ =>
      if negb (default true (ct_is_contiguous t)) then Raise ValueError else
      if negb (default true (ct_is_cuda t)) then Raise ValueError else
      match ct_numel t, ct_element_size t, ct_nbytes t with
      | Some n, Some size, _ => Ok (n * size)
      | _, _, Some nbytes => Ok nbytes
      | _, _, None => Raise TypeError
      end
  end.

(** [str.lower] on ASCII. *)
Definition lower (s : str) : str := (λ c, if (65 <=? c) && (c <=? 90) then c + 32 else c) <$> s.

Definition _dtype_key (t : CudaTensor) : result (DType * Z) :=
  match ct_element_size t with
  | None => Raise AttributeError
  | Some itemsize =>
      match assoc (lower (ct_dtype t)) aliases with
      | None => Raise TypeError
      | Some key => if negb (itemsize =? widths key) then Raise TypeError else Ok (key, itemsize)
      end
  end.

Arguments lit : simpl never.

(** * base64 round trip *)

Lemma b64_value_char d : 0 ≤ d < 64 → b64_value (b64_char d) = Some d.
Proof.
  intros Hd. unfold b64_char, b64_value.
  repeat case_match; f_equal; lia.
Qed.

Lemma b64_char_range d : 0 ≤ d < 64 → b64_char d ≠ 61 ∧ 0 ≤ b64_char d < 128.
Proof. intros Hd. unfold b64_char. repeat case_match; lia. Qed.

(** One character of a group. *)
Lemma a2b_char quad left pads d s :
  0 ≤ d < 64 →
  a2b_base64 quad left pads (b64_char d :: s) =
    match quad with
    | 0%nat => a2b_base64 1 d 0 s
    | 1%nat => r ← a2b_base64 2 (d `mod` 16) 0 s; Ok (left * 4 + d `div` 16 :: r)
    | 2%nat => r ← a2b_base64 3 (d `mod` 4) 0 s; Ok (left * 16 + d `div` 4 :: r)
    | _ => r ← a2b_base64 0 0 0 s; Ok (left * 64 + d :: r)
    end.
Proof.
  intros Hd. cbn [a2b_base64]. rewrite (proj2 (Z.eqb_neq _ _)) by by apply b64_char_range.
  by rewrite b64_value_char.
Qed.

(** Lists by groups of three. *)
Lemma list_ind3 {A} (P : list A → Prop) :
  P [] → (∀ a, P [a]) → (∀ a b, P [a; b]) → (∀ a b c l, P l → P (a :: b :: c :: l)) → ∀ l, P l.
Proof.
  intros H0 H1 H2 H3. enough (∀ n l, (length l < n)%nat → P l) as Hall by (intros l; eauto).
  induction n as [|n IH]; intros l Hn; [lia|]. destruct l as [|a [|b [|c l]]]; auto.
  apply H3, IH. cbn in Hn. lia.
Qed.

Ltac byte_arith := Z.to_euclidean_division_equations; lia.

Lemma a2b_encode raw : wf_bytes raw → ∀ pads, a2b_base64 0 0 pads (urlsafe_b64encode raw) = Ok raw.
Proof.
  unfold wf_bytes. induction raw as [|a|a b|a b c raw IH] using list_ind3;
    rewrite ?Forall_cons, ?Forall_nil; intros Hwf pads; cbn [urlsafe_b64encode]; [done|..].
  - destruct Hwf as [Ha _]. rewrite !a2b_char by byte_arith. cbn. do 2 f_equal. byte_arith.
  - destruct Hwf as (Ha & Hb & _). rewrite !a2b_char by byte_arith. cbn. f_equal.
    f_equal; [|f_equal]; byte_arith.
  - destruct Hwf as (Ha & Hb & Hc & Hwf). rewrite !a2b_char by byte_arith. rewrite IH by done.
    cbn. f_equal. f_equal; [|f_equal; [|f_equal]]; byte_arith.
Qed.

(** The text without its padding, and the padding. *)
Lemma b64encode_split raw :
  wf_bytes raw → ∃ body, urlsafe_b64encode raw
    = body ++ replicate (Z.to_nat ((- Z.of_nat (length body)) `mod` 4)) 61 ∧
    Forall (λ c, c ≠ 61 ∧ 0 ≤ c < 128) body.
Proof.
  unfold wf_bytes. induction raw as [|a|a b|a b c raw IH] using list_ind3;
    rewrite ?Forall_cons, ?Forall_nil; intros Hwf; cbn [urlsafe_b64encode].
  - by exists [].
  - destruct Hwf as [Ha _]. eexists [_; _]. split; [done|].
    repeat (apply Forall_cons; split; [apply b64_char_range; byte_arith|]). constructor.
  - destruct Hwf as (Ha & Hb & _). eexists [_; _; _]. split; [done|].
    repeat (apply Forall_cons; split; [apply b64_char_range; byte_arith|]). constructor.
  - destruct Hwf as (Ha & Hb & Hc & Hwf). destruct (IH Hwf) as (body & -> & Hbody).
    eexists (_ :: _ :: _ :: _ :: body). split.
    + cbn [app length]. do 5 f_equal. f_equal. byte_arith.
    + repeat (apply Forall_cons; split; [apply b64_char_range; byte_arith|]). done.
Qed.

Lemma rstrip_body c body n :
  Forall (λ d, d ≠ c) body → rstrip c (body ++ replicate n c) = body.
Proof.
  intros Hb. unfold rstrip. rewrite reverse_app, reverse_replicate.
  induction n as [|n IH]; cbn [replicate app].
  - destruct (reverse body) as [|d r] eqn:Hr.
    + apply (f_equal reverse) in Hr. by rewrite reverse_involutive in Hr.
    + cbn [span]. rewrite (proj2 (Z.eqb_neq _ _)).
      * cbn [snd]. by rewrite <- Hr, reverse_involutive.
      * assert (d ∈ body) as Hd by (rewrite <- elem_of_reverse, Hr; left).
        rewrite Forall_forall in Hb. by apply not_eq_sym, Hb.
  - cbn [span]. by rewrite Z.eqb_refl.
Qed.

(** Decoding what was encoded and stripped, padded again. *)
Lemma b64_roundtrip raw :
  wf_bytes raw →
  let encoded := rstrip 61 (urlsafe_b64encode raw) in
  urlsafe_b64decode (encoded ++ replicate (Z.to_nat ((- Z.of_nat (length encoded)) `mod` 4)) 61)
  = Ok raw.
Proof.
  intros Hwf. destruct (b64encode_split raw Hwf) as (body & Heq & Hbody). cbv zeta.
  rewrite Heq, rstrip_body, <- Heq by (eapply Forall_impl; [exact Hbody|naive_solver]).
  unfold urlsafe_b64decode. rewrite (proj2 (forallb_forall _ _)); [by apply a2b_encode|].
  intros c Hc. apply list_elem_of_In in Hc. rewrite Heq in Hc. rewrite Forall_forall in Hbody.
  apply elem_of_app in Hc as [Hc|Hc]; [apply Hbody in Hc; lia|].
  apply elem_of_replicate in Hc as [-> _]. done.
Qed.

Lemma fromhex_hex data : wf_bytes data → fromhex_str (hex data) = Ok data.
Proof.
  induction 1 as [|b data Hb _ IH]; [done|].
  unfold hex. rewrite fmap_cons. cbn [concat app]. fold (hex data). cbn [fromhex_str].
  assert (∀ d, 0 ≤ d < 16 → is_space (hex_digit d) = false) as Hsp
    by (intros d Hd; unfold is_space, hex_digit; case_match; lia).
  rewrite Hsp by byte_arith. rewrite !hex_value_digit by byte_arith. rewrite IH. cbn.
  do 2 f_equal. byte_arith.
Qed.

Lemma hex_length data : length (hex data) = (2 * length data)%nat.
Proof.
  unfold hex. induction data as [|b data IH]; [done|]. rewrite fmap_cons. cbn [concat app length].
  lia.
Qed.

(** * What [ProcessGroup.__init__] encodes *)

Record HandleInfo := mk_HandleInfo {
  hi_stable_rank : Z;
  hi_nonce : str;
  hi_host : str;
  hi_port : Z;
  hi_hca : str;
  hi_ib_port : Z;
  hi_gid_index : Z;
  hi_gid : bytes;
  hi_max_bytes : Z;
  hi_qps : Z;
  hi_num_sms : Z;
}.

Definition handle_fields (i : HandleInfo) : list (str * json) :=
  [(lit "stable_rank", JInt (hi_stable_rank i)); (lit "nonce", JStr (hi_nonce i));
   (lit "host", JStr (hi_host i)); (lit "port", JInt (hi_port i));
   (lit "hca", JStr (hi_hca i)); (lit "ib_port", JInt (hi_ib_port i));
   (lit "gid_index", JInt (hi_gid_index i)); (lit "gid", JStr (hex (hi_gid i)));
   (lit "max_bytes", JInt (hi_max_bytes i)); (lit "qps", JInt (hi_qps i));
   (lit "num_sms", JInt (hi_num_sms i))].

(** The member a handle stands for. *)
Definition info_member (raw : str) (i : HandleInfo) : Member :=
  mk_Member raw (JInt (hi_stable_rank i)) (JStr (hi_nonce i)) (JStr (hi_host i))
    (JInt (hi_port i)) (JStr (hi_hca i)) (JInt (hi_ib_port i)) (JInt (hi_gid_index i))
    (JStr (hex (hi_gid i))) (JInt (hi_max_bytes i)) (JInt (hi_qps i)) (JInt (hi_num_sms i)).

(** What a group's own handle satisfies. *)
Record info_ok (i : HandleInfo) : Prop := mk_info_ok {
  ok_stable_rank : 0 ≤ hi_stable_rank i;
  ok_nonce : wf_str (hi_nonce i) ∧ hi_nonce i ≠ [];
  ok_host : wf_str (hi_host i) ∧ hi_host i ≠ [];
  ok_port : 0 < hi_port i < 65536;
  ok_hca : wf_str (hi_hca i);
  ok_ib_port : 0 < hi_ib_port i;
  ok_gid_index : 0 ≤ hi_gid_index i;
  ok_gid : wf_bytes (hi_gid i) ∧ length (hi_gid i) = 16%nat;
  ok_max_bytes : 0 < hi_max_bytes i;
  ok_qps : 0 < hi_qps i;
  ok_num_sms : 0 < hi_num_sms i;
}.

Lemma wf_lit s : wf_str (lit s).
Proof.
  induction s as [|c s IH]; [constructor|]. cbn [lit]. constructor; [|done].
  pose proof (Ascii.nat_ascii_bounded c). unfold wf_char. lia.
Qed.

Lemma wf_hex data : wf_bytes data → wf_str (hex data).
Proof.
  induction 1 as [|b data Hb _ IH]; [constructor|]. unfold hex. rewrite fmap_cons.
  cbn [concat app]. assert (∀ d, 0 ≤ d < 16 → wf_char (hex_digit d)) as Hh
    by (intros d Hd; unfold wf_char, hex_digit; case_match; lia).
  repeat (constructor; [apply Hh; byte_arith|]). exact IH.
Qed.

Lemma ascii_wf s : ascii s → wf_bytes s.
Proof. intros Hs. eapply Forall_impl; [exact Hs|]. cbn. lia. Qed.

Section HandleLemmas.
Context `{!PyText}.

Lemma json_encode_wf v : plain v → wf_bytes (json_encode v).
Proof. intros Hv. by apply ascii_wf, ascii_dumps, canon_plain. Qed.

Lemma handle_keys i : NoDup (handle_fields i).*1 ∧ (handle_fields i).*1 = required.
Proof.
  assert (bool_decide (NoDup (handle_fields i).*1) = true) as Hnd by (vm_compute; reflexivity).
  by apply bool_decide_eq_true in Hnd.
Qed.

Lemma handle_plain i : info_ok i → plain (JObj (handle_fields i)).
Proof.
  destruct 1 as [? [? _] [? _] ? ? ? ? [Hg _] ? ? ?]. constructor.
  - apply handle_keys.
  - unfold handle_fields. cbn [fmap list_fmap fst]. rewrite !Forall_cons, Forall_nil.
    repeat split; apply wf_lit.
  - pose proof (wf_hex _ Hg). unfold handle_fields. cbn [fmap list_fmap snd].
    rewrite !Forall_cons, Forall_nil. repeat split; by constructor.
Qed.

(** Reading a handle back gives the dictionary with its keys sorted. *)
Lemma decode_member_encode i :
  info_ok i →
  decode_member (_encode_handle (JObj (handle_fields i))) =
    Ok (info_member (_encode_handle (JObj (handle_fields i))) i).
Proof.
  intros Hi. pose proof (handle_plain i Hi) as Hp. unfold decode_member.
  set (handle := _encode_handle _). unfold _encode_handle in handle.
  assert (drop (length _HANDLE_PREFIX) handle = _b64encode (JObj (handle_fields i))) as Hd
    by apply drop_app_length.
  rewrite Hd. unfold _b64encode. rewrite b64_roundtrip by by apply json_encode_wf.
  cbv [mbind result_bind]. rewrite json_decode_encode by done. cbn [canon].
  destruct (handle_keys i) as [Hnd Hkeys].
  rewrite bool_decide_eq_true_2.
  - reflexivity.
  - by rewrite merge_sort_Permutation, <- Hkeys.
Qed.

Lemma member_valid raw i : info_ok i → member_invalid (info_member raw i) = Ok false.
Proof.
  intros [? [_ Hn] [_ Hh] ? ? ? ? [_ Hg] ? ? ?]. unfold member_invalid, info_member, por,
    port_invalid, gid_length_invalid, le_int.
  cbn [m_stable_rank m_nonce m_host m_port m_ib_port m_gid_index m_gid m_max_bytes m_qps m_num_sms
       lt_int int_lt truthy py_len mbind result_bind].
  rewrite !bool_decide_eq_false_2 by done. rewrite hex_length, Hg.
  repeat (guards; cbn [negb mbind result_bind]). f_equal. lia.
Qed.
End HandleLemmas.

(** ** What the checks say *)

Lemma por_false a b : por a b = Ok false → a = Ok false ∧ b = Ok false.
Proof. unfold por. destruct a as [[|]|]; cbn; done. Qed.

Lemma por_error a b e : por a b = Raise e → a = Raise e ∨ b = Raise e.
Proof. unfold por. destruct a as [[|]|]; cbn; intros [=]; subst; auto. Qed.

Lemma le_int_pos v z : le_int v 0 = Ok false → v = JInt z → 0 < z.
Proof. intros H ->. cbn in H. injection H as H. lia. Qed.

Lemma lt_int_nonneg v z : lt_int v 0 = Ok false → v = JInt z → 0 ≤ z.
Proof. intros H ->. cbn in H. injection H as H. lia. Qed.

Lemma compare_error v n e :
  lt_int v n = Raise e ∨ int_lt n v = Raise e ∨ le_int v n = Raise e → e = TypeError.
Proof. destruct v; cbn; intros [H|[H|H]]; by inversion H. Qed.

Lemma member_ranges m :
  member_invalid m = Ok false →
  (∀ z, m_stable_rank m = JInt z → 0 ≤ z) ∧ (∀ z, m_port m = JInt z → 0 < z < 65536) ∧
  (∀ z, m_ib_port m = JInt z → 0 < z) ∧ (∀ z, m_gid_index m = JInt z → 0 ≤ z) ∧
  (∀ z, m_max_bytes m = JInt z → 0 < z) ∧ (∀ z, m_qps m = JInt z → 0 < z) ∧
  (∀ z, m_num_sms m = JInt z → 0 < z).
Proof.
  unfold member_invalid.
  intros (Hs & (_ & (_ & (Hp & (Hib & (Hg & (_ & (Hm & (Hq & Hn)%por_false)%por_false)%por_false
    )%por_false)%por_false)%por_false)%por_false)%por_false)%por_false.
  split_and!; intros z Hz; eauto using le_int_pos, lt_int_nonneg.
  unfold port_invalid in Hp. rewrite Hz in Hp. cbn in Hp.
  destruct (Z.ltb_spec 0 z); [|done]. cbn in Hp. injection Hp as Hp. lia.
Qed.

Lemma member_invalid_error m e : member_invalid m = Raise e → e = TypeError.
Proof.
  unfold member_invalid. intros H.
  repeat (apply por_error in H as [H|H]); try done;
    try (eapply compare_error; eauto; fail).
  - unfold port_invalid in H. destruct (int_lt 0 (m_port m)) as [[|]|] eqn:Hp; cbn in H;
      [|done|injection H as <-; eapply compare_error; eauto].
    destruct (lt_int (m_port m) 65536) eqn:Hp'; cbn in H; [done|].
    injection H as <-. eapply compare_error; eauto.
  - unfold gid_length_invalid in H. destruct (m_gid m); cbn in H; by inversion H.
Qed.

Lemma fromhex_str_error s e : fromhex_str s = Raise e → e = ValueError.
Proof.
  enough (∀ n s, (length s < n)%nat → fromhex_str s = Raise e → e = ValueError) as Hall by eauto.
  clear s. induction n as [|n IH]; intros s Hn; [lia|].
  destruct s as [|c s]; [done|]. cbn [fromhex_str length] in *. case_match; [apply IH; lia|].
  destruct s as [|d s]; [by intros [= <-]|]. cbn [length] in Hn.
  repeat (case_match; try (by intros [= <-])).
  destruct (fromhex_str s) eqn:Hs; cbn; [done|]. intros [= <-]. apply (IH s); [lia|done].
Qed.

Lemma fromhex_error v e : fromhex v = Raise e → e = TypeError ∨ e = ValueError.
Proof.
  destruct v; cbn; try (by intros [= <-]; left). intros H%fromhex_str_error. by right.
Qed.

Lemma a2b_error quad left pads s e : a2b_base64 quad left pads s = Raise e → e = ValueError.
Proof.
  revert quad left pads e. induction s as [|c s IH]; intros quad left pads e; cbn [a2b_base64].
  - case_match; [done|]. by intros [= <-].
  - repeat (case_match; try done); try apply IH; subst; cbv [mbind result_bind];
      match goal with |- context [a2b_base64 ?q ?l ?p s] =>
        destruct (a2b_base64 q l p s) eqn:Hs; [done|intros [= <-]; by eapply IH] end.
Qed.

Section DecodeMember.
Context `{!PyText}.

Lemma decode_member_raw handle m : decode_member handle = Ok m → m_raw m = handle.
Proof.
  unfold decode_member. cbv [mbind result_bind].
  repeat (case_match; try done). by intros [= <-].
Qed.

Lemma decode_member_error handle e :
  decode_member handle = Raise e → e = ValueError ∨ e = UnicodeError.
Proof.
  unfold decode_member. cbv zeta. set (padded := _ ++ _). cbv [mbind result_bind].
  destruct (urlsafe_b64decode padded) as [raw|e'] eqn:Hb.
  - destruct (json_decode raw) as [v|e'] eqn:Hj.
    + repeat (case_match; try (by intros [= <-]; left)).
    + intros [= <-]. apply json_decode_error in Hj as [->| ->]; auto.
  - intros [= <-]. left. revert Hb. unfold urlsafe_b64decode. case_match; [apply a2b_error|].
    by intros [= <-].
Qed.
End DecodeMember.

(** ** A handle that a peer decodes *)

Section HandleTheorems.
Context `{!PyText}.

(** What a decoded integer field is known to satisfy. *)
Definition number_in (lo hi : Z) (v : json) : Prop :=
  match v with
  | JInt z => lo ≤ z < hi
  | JBool b => lo ≤ bool_int b < hi
  | JFloat _ => True
  | _ => False
  end.

(** C6: handles survive the exchange.  The handle a group publishes is decoded by
    every peer to the member with exactly the values it was built from. *)
Theorem handle_roundtrip i :
  info_ok i →
  let handle := _encode_handle (JObj (handle_fields i)) in
  _decode_handle handle = Ok (info_member handle i).
Proof.
  intros Hi handle. unfold _decode_handle.
  rewrite bool_decide_eq_true_2 by (unfold handle, _encode_handle; apply take_app_length).
  cbn [negb]. unfold handle. rewrite decode_member_encode by done. fold handle.
  cbv [mbind result_bind]. rewrite member_valid by done.
  unfold info_member. cbn [m_gid fromhex]. destruct Hi as [_ _ _ _ _ _ _ [Hg _] _ _ _].
  by rewrite fromhex_hex.
Qed.

(** C7: what [_decode_handle] lets through is the handle's own text with a port in
    range and positive (or non-negative) integers; what it raises is
    ReconfigureError, or TypeError for a field of a type that does not compare. *)
Theorem decode_handle_spec handle :
  match _decode_handle handle with
  | Ok m =>
      m_raw m = handle ∧ take (length _HANDLE_PREFIX) handle = _HANDLE_PREFIX ∧
      (∀ z, m_stable_rank m = JInt z → 0 ≤ z) ∧ (∀ z, m_port m = JInt z → 0 < z < 65536) ∧
      (∀ z, m_ib_port m = JInt z → 0 < z) ∧ (∀ z, m_gid_index m = JInt z → 0 ≤ z) ∧
      (∀ z, m_max_bytes m = JInt z → 0 < z) ∧ (∀ z, m_qps m = JInt z → 0 < z) ∧
      (∀ z, m_num_sms m = JInt z → 0 < z)
  | Raise e => e = ReconfigureError ∨ e = TypeError
  end.
Proof.
  unfold _decode_handle. case_bool_decide as Hpre; [|by left]. cbn [negb].
  destruct (decode_member handle) as [m|e] eqn:Hm.
  - apply decode_member_raw in Hm. cbv [mbind result_bind].
    destruct (member_invalid m) as [[|]|e] eqn:Hi; [by left| |].
    + destruct (fromhex (m_gid m)) as [g|e] eqn:Hg.
      * split; [done|]. split; [done|]. by apply member_ranges.
      * apply fromhex_error in Hg as [->| ->]; [by right|by left].
    + right. by eapply member_invalid_error.
  - apply decode_member_error in Hm. rewrite bool_decide_eq_true_2; [by left|].
    destruct Hm as [->| ->]; set_solver.
Qed.

(** A handle with a name where a number is expected: TypeError escapes. *)
Definition bad_fields : list (str * json) :=
  [(lit "gid", JStr []); (lit "gid_index", JInt 0); (lit "hca", JStr []);
   (lit "host", JStr []); (lit "ib_port", JInt 1); (lit "max_bytes", JInt 1);
   (lit "nonce", JStr []); (lit "num_sms", JInt 1); (lit "port", JInt 1);
   (lit "qps", JInt 1); (lit "stable_rank", JStr (lit "zero"))].

Theorem decode_handle_type_error :
  _decode_handle (_encode_handle (JObj bad_fields)) = Raise TypeError.
Proof. vm_compute. reflexivity. Qed.
End HandleTheorems.

(** ** Messages *)

Section MessageTheorems.
Context `{!PyText}.

Lemma qp_info_dict_plain i : wf_bytes (qi_gid i) → plain (_qp_info_dict i).
Proof.
  intros Hg. pose proof (wf_hex _ Hg). unfold _qp_info_dict. constructor.
  - assert (bool_decide (NoDup (lit <$> ["qp_num"; "psn"; "lid"; "gid"; "port"; "mtu"]%string)) = true)
      as Hnd by (vm_compute; reflexivity). by apply bool_decide_eq_true in Hnd.
  - cbn [fmap list_fmap fst]. rewrite !Forall_cons, Forall_nil. repeat split; apply wf_lit.
  - cbn [fmap list_fmap snd]. rewrite !Forall_cons, Forall_nil. repeat split; by constructor.
Qed.

(** the endpoint a lane publishes is the endpoint the peer connects to: the
    dictionary of a valid QPInfo, sent as JSON and read back, converts to the same
    QPInfo. *)
Theorem qp_info_dict_roundtrip i :
  qp_info_valid i = true → wf_bytes (qi_gid i) →
  ∃ value, json_decode (json_encode (_qp_info_dict i)) = Ok value ∧
    _qp_info_from_dict value = Ok i.
Proof.
  intros Hv Hg. exists (canon (_qp_info_dict i)).
  split; [by apply json_decode_encode, qp_info_dict_plain|].
  assert (canon (_qp_info_dict i) = JObj
    [(lit "gid", JStr (hex (qi_gid i))); (lit "lid", JInt (qi_lid i));
     (lit "mtu", JInt (qi_mtu i)); (lit "port", JInt (qi_port i));
     (lit "psn", JInt (qi_psn i)); (lit "qp_num", JInt (qi_qp_num i))]) as -> by reflexivity.
  unfold _qp_info_from_dict, int_field.
  change (getitem ?d (lit ?k)) with
    (match assoc (lit k) (match d with JObj f => f | _ => [] end) with
     | Some x => Ok x | None => @Raise json KeyError end).
  cbn [assoc].
  repeat match goal with
  | |- context [bool_decide (lit ?a = lit ?b)] =>
      let v := eval vm_compute in (bool_decide (lit a = lit b)) in
      replace (bool_decide (lit a = lit b)) with v by (vm_compute; reflexivity); cbv iota
  end.
  cbv [mbind result_bind]. cbn [py_int fromhex]. rewrite fromhex_hex by done.
  rewrite QPInfo_init_spec.
  replace (mk_QPInfo _ _ _ _ _ _) with i by by destruct i. by rewrite Hv.
Qed.

Context {S W : Type} `{!SockRecv S W, !StreamLaws S W}.

(** C8: a message arrives as it was sent.  From a connection whose stream begins
    with the frame of a dictionary, [_recv_frame] returns that dictionary and
    leaves the stream after the frame, however the network cuts it up. *)
Theorem frame_roundtrip fields data rest (sock : S) (w : W) :
  plain (JObj fields) → frame_bytes (JObj fields) = Ok data →
  stream w sock = data ++ rest →
  ∃ fields' w', _recv_frame sock w = (Ok fields', w') ∧ stream w' sock = rest ∧
    fields' ≡ₚ (λ kv, (kv.1, canon kv.2)) <$> fields ∧
    (∀ k, dict_get fields' k = canon (dict_get fields k)).
Proof.
  intros Hp Hframe Hs. unfold frame_bytes in Hframe.
  remember (json_encode (JObj fields)) as payload eqn:Hpay.
  destruct (Z.ltb_spec _MAX_FRAME (Z.of_nat (length payload))) as [|Hlen]; [done|].
  unfold _MAX_FRAME in Hlen.
  assert (in_uint fI (Z.of_nat (length payload)) = true) as Hin
    by (unfold in_uint; change (2 ^ (8 * Z.of_nat 4)) with (2 ^ 32); lia).
  rewrite pack_be_ok in Hframe by exact Hin.
  assert (data = be fI (Z.of_nat (length payload)) ++ payload) as -> by by injection Hframe.
  rewrite <- app_assoc in Hs. unfold _recv_frame, _recv_exact.
  destruct (recv_exact_ok ReconfigureError sock _ _ w Hs) as (w1 & Hr1 & Hs1).
  rewrite length_be in Hr1. change (Z.of_nat fI) with 4 in Hr1.
  destruct (recv_exact_ok ReconfigureError sock _ _ w1 Hs1) as (w2 & Hr2 & Hs2).
  unfold mbind, M_bind. rewrite Hr1. rewrite be_val_be by exact Hin.
  unfold _MAX_FRAME. rewrite (proj2 (Z.ltb_ge _ _)) by lia. cbn [guard_raise mret M_ret].
  rewrite Hr2, Hpay. rewrite json_decode_encode by done. cbn [canon].
  eexists _, w2. split; [done|]. split; [done|]. split; [apply merge_sort_Permutation|].
  intros k. unfold dict_get. rewrite assoc_canon by by inversion Hp.
  by destruct (assoc k fields).
Qed.
End MessageTheorems.

(** the local ACK timeout fits the collective's deadline.  The exponent is the
    largest in 0..31 such that all attempts of [4.096 us * 2 ^ exponent] together
    fit in the timeout (0 if none does). *)
Theorem ibv_timeout_exponent_spec timeout retries :
  0 < timeout → 0 ≤ retries →
  let e := _ibv_timeout_exponent timeout retries in
  let attempts x := (retries + 1) * (4096 * 2 ^ x) in
  0 ≤ e ≤ 31 ∧
  (attempts 0 ≤ timeout → attempts e ≤ timeout) ∧
  (e < 31 → timeout < attempts (e + 1)).
Proof.
  intros Ht Hr e attempts. unfold attempts. set (u := 4096 * (retries + 1)).
  assert (∀ x, (retries + 1) * (4096 * 2 ^ x) = u * 2 ^ x) as Hu by (intros; unfold u; ring).
  rewrite !Hu. assert (0 < u) by (unfold u; lia).
  pose proof (Z.div_mod timeout u ltac:(lia)). pose proof (Z.mod_pos_bound timeout u ltac:(lia)).
  unfold e, _ibv_timeout_exponent. fold u. set (q := timeout `div` u) in *.
  pose proof (Z.log2_nonneg (Z.max 1 q)). pose proof (Z.log2_spec (Z.max 1 q) ltac:(lia)) as [Hlo Hhi].
  set (g := Z.log2 (Z.max 1 q)) in *. split; [lia|]. split.
  - rewrite Z.pow_0_r. intros Hfit. assert (1 ≤ q) by nia.
    assert (2 ^ Z.max 0 (Z.min 31 g) ≤ 2 ^ g) by (apply Z.pow_le_mono_r; lia). nia.
  - intros He. replace (Z.max 0 (Z.min 31 g)) with g by lia.
    replace (Z.succ g) with (g + 1) in Hhi by lia. nia.
Qed.

(** * Concrete messages *)

Module Messages.
Import Stream.Fragments.
#[local] Existing Instance recv3.
#[local] Existing Instance recv3_laws.

(** Number conversions for the examples: no string or literal converts. *)
#[local] Instance no_text : PyText :=
  {| float_repr := λ _, lit "nan"; float_of_literal := λ _, FNaN; int_of_str := λ _, None |}.

Definition node0 : HandleInfo :=
  mk_HandleInfo 0 (lit "6f2c") (lit "node0") 5001 (lit "mlx5_0") 1 3 (replicate 16 254)
    (2 ^ 26) 32 32.

Lemma node0_ok : info_ok node0.
Proof.
  split; cbn -[lit]; try lia; try apply wf_lit; try (split; [apply wf_lit|done]).
  split; [|done]. unfold wf_bytes. rewrite !Forall_cons, Forall_nil. lia.
Qed.

Lemma handle_roundtrip_witness :
  ∃ handle, _decode_handle handle = Ok (info_member handle node0).
Proof. eexists. apply (handle_roundtrip node0). exact node0_ok. Defined.

Definition endpoint : QPInfo := mk_QPInfo 0x123456 7 1 (replicate 16 254) 1 5.

Lemma qp_info_dict_roundtrip_witness :
  ∃ value, json_decode (json_encode (_qp_info_dict endpoint)) = Ok value ∧
    _qp_info_from_dict value = Ok endpoint.
Proof.
  apply (qp_info_dict_roundtrip endpoint); [vm_compute; reflexivity|].
  apply Forall_replicate. lia.
Defined.

Definition hello : list (str * json) := [(lit "uuid", JInt 7); (lit "handle", JStr (lit "h"))].
Definition hello_bytes : bytes := default [] (match frame_bytes (JObj hello) with
  | Ok b => Some b | Raise _ => None end).

Lemma hello_plain : plain (JObj hello).
Proof.
  constructor.
  - assert (bool_decide (NoDup hello.*1) = true) as Hnd by (vm_compute; reflexivity).
    by apply bool_decide_eq_true in Hnd.
  - cbn [hello fmap list_fmap fst]. rewrite !Forall_cons, Forall_nil. repeat split; apply wf_lit.
  - cbn [hello fmap list_fmap snd]. rewrite !Forall_cons, Forall_nil.
    repeat split; [constructor|]. constructor. apply wf_lit.
Qed.

Lemma frame_roundtrip_witness :
  ∃ fields w, _recv_frame (S := unit) tt (hello_bytes ++ [1; 2]) = (Ok fields, w) ∧ w = [1; 2] ∧
    dict_get fields (lit "uuid") = JInt 7.
Proof.
  assert (frame_bytes (JObj hello) = Ok hello_bytes) as Hf by (vm_compute; reflexivity).
  destruct (frame_roundtrip (S := unit) (W := bytes) hello hello_bytes [1; 2] tt (hello_bytes ++ [1; 2])
    hello_plain Hf) as (fields & w & Hr & Hs & _ & Hget); [reflexivity|].
  exists fields, w. split; [exact Hr|]. split; [exact Hs|]. rewrite Hget.
  vm_compute. reflexivity.
Defined.
End Messages.

Lemma ibv_timeout_exponent_spec_witness :
  _ibv_timeout_exponent 30000000000 3 = 20 ∧ 4 * (4096 * 2 ^ 20) ≤ 30000000000.
Proof.
  assert (_ibv_timeout_exponent 30000000000 3 = 20) as He by (vm_compute; reflexivity).
  split; [exact He|].
  pose proof (ibv_timeout_exponent_spec 30000000000 3 ltac:(lia) ltac:(lia)) as (_ & H & _).
  rewrite He in H. apply H. lia.
Defined.
