(* ===== verification/ProcessGroup.v ===== *)
(** The fault-tolerant process group: [ProcessGroup] and its helpers in
    src/experiments/fault_tolerant_allreduce/allreduce.py.

    A group is a [Config], fixed by its constructor, and a state [St]: the
    communicator [Comm] (rank, size, uuid, lanes, exported queues) and [Env].  The
    calls out of the module are the operations of [GroupDevice] over a world [W].
    Objects that must be closed (queue pairs, completion queues, exported queues,
    CUDA allocations, memory regions, sockets) are numbered; [e_open] is no field
    of the source: it holds the objects that were created and on which [close] has
    not been called, so that leaks can be stated.  Times are integer nanoseconds. *)

From S2P Require Import Prelude Bytes Verbs Helpers Json Stream Handles.
#[local] Open Scope Z_scope.

(** * Objects *)

Inductive kind := KCq | KQp | KExport | KAlloc | KMr | KSock | KListener | KPd | KContext.

#[global] Instance kind_eq_dec : EqDecision kind.
Proof. solve_decision. Defined.

Record obj := mk_obj { o_kind : kind; o_id : nat }.

#[global] Instance obj_eq_dec : EqDecision obj.
Proof. solve_decision. Defined.

(** [_Lane]: a queue pair and its completion queue. *)
Record Lane := mk_Lane { ln_qp : obj; ln_cq : obj }.

(** [_CudaAllocation] *)
Record Alloc := mk_Alloc { al_obj : obj; al_size : Z; al_ptr : Z }.

(** A registered memory region. *)
Record Mr := mk_Mr { mr_obj : obj; mr_addr : Z; mr_lkey : Z; mr_rkey : Z }.

(** An exported queue pair and the address of its device structure. *)
Record DeviceQP := mk_DeviceQP { dq_obj : obj; dq_device_ptr : Z }.

(** [_GpuNetIOState]; the [signal] buffer is only kept alive. *)
Record GpuNetIOState := mk_GpuNetIOState {
  gs_outgoing : list DeviceQP;
  gs_incoming : list DeviceQP;
  gs_outgoing_pointers : Alloc;
  gs_incoming_pointers : Alloc;
  gs_status : Alloc;
  gs_signal_mr : Mr;
  gs_clock_rate_hz : Z;
}.

(** The next rank's buffers. *)
Record Buffers := mk_Buffers {
  bf_work_addr : Z;
  bf_work_rkey : Z;
  bf_scratch_addr : Z;
  bf_scratch_rkey : Z;
}.

(** The arguments of a launch of the ring kernel. *)
Record KernelArgs := mk_KernelArgs {
  ka_outgoing_qps : Z;
  ka_incoming_qps : Z;
  ka_status : Z;
  ka_work : Z;
  ka_scratch : Z;
  ka_count : Z;
  ka_dtype : DType;
  ka_itemsize : Z;
  ka_rank : Z;
  ka_world : Z;
  ka_remote : Buffers;
  ka_work_lkey : Z;
  ka_signal_addr : Z;
  ka_signal_lkey : Z;
  ka_timeout_cycles : Z;
}.

(** * The calls out of the module *)

(** [dv_port] gives a port's LID and active MTU; CUDA driver calls return a
    status; [dv_copy] and [dv_ring] launch the copy and ring kernels. *)
Class GroupDevice (W : Type) := {
  dv_create_cq : Z → W → result unit * W;
  dv_create_qp : obj → Z → Z → W → result unit * W;
  dv_close : obj → W → result unit * W;
  dv_qp_num : obj → W → Z;
  dv_port : Z → W → result (Z * Z) * W;
  dv_gid_tbl_len : Z → W → result Z * W;
  dv_gid : Z → Z → W → result bytes * W;
  dv_gid_type : Z → Z → W → result str * W;
  dv_export : obj → W → result Z * W;
  dv_mem_alloc : Z → W → (Z * Z) * W;
  dv_mem_free : Z → W → Z * W;
  dv_htod : Z → list Z → W → Z * W;
  dv_dtoh : Z → Z → W → (Z * list Z) * W;
  dv_memset : Z → Z → Z → W → Z * W;
  dv_get_device : W → (Z * Z) * W;
  dv_get_attribute : Z → Z → W → (Z * Z) * W;
  dv_reg_signal : W → result (Z * Z * Z) * W;
  dv_connect : json → json → Z → W → result unit * W;
  dv_set_timeout : obj → Z → W → W;
  dv_sendall : obj → bytes → W → result unit * W;
  dv_select : Z → W → result bool * W;
  dv_accept : W → result unit * W;
  dv_sleep : Z → W → W;
  dv_copy : Z → Z → Z → DType → W → result unit * W;
  dv_ring : KernelArgs → W → result unit * W;
  dv_synchronize : W → result unit * W;
}.

(** * State *)

Record Config := mk_Config {
  cf_handle : str;
  cf_port : Z;
  cf_gid_index : Z;
  cf_qps : Z;
  cf_num_sms : Z;
  cf_queue_depth : Z;
  cf_max_bytes : Z;
  cf_work_ptr : Z;
  cf_scratch_ptr : Z;
  cf_work_mr : Mr;
  cf_scratch_mr : Mr;
  cf_listener : obj;
  cf_pd : obj;
  cf_context : obj;
}.

Record Comm := mk_Comm {
  g_rank : Z;
  g_size : Z;
  g_uuid : option Z;
  g_failed : bool;
  g_closed : bool;
  g_outgoing : list Lane;
  g_incoming : list Lane;
  g_next_buffers : option Buffers;
  g_gpunetio : option GpuNetIOState;
  g_used_uuids : list Z;
  g_timeout : Z;
}.

Record Env (W : Type) := mk_Env { e_open : list obj; e_fresh : nat; e_world : W }.
Arguments mk_Env {W}. Arguments e_open {W}. Arguments e_fresh {W}. Arguments e_world {W}.

Record St (W : Type) := mk_St { s_comm : Comm; s_env : Env W }.
Arguments mk_St {W}. Arguments s_comm {W}. Arguments s_env {W}.

Section Setters.
Implicit Types c : Comm.
Definition set_lanes outgoing incoming buffers gpunetio c := mk_Comm (g_rank c) (g_size c)
  (g_uuid c) (g_failed c) (g_closed c) outgoing incoming buffers gpunetio (g_used_uuids c)
  (g_timeout c).
Definition set_rank rank size uuid failed c := mk_Comm rank size uuid failed (g_closed c)
  (g_outgoing c) (g_incoming c) (g_next_buffers c) (g_gpunetio c) (g_used_uuids c)
  (g_timeout c).
Definition set_failed c := set_rank (g_rank c) (g_size c) (g_uuid c) true c.
Definition set_gpunetio gpunetio c := set_lanes (g_outgoing c) (g_incoming c)
  (g_next_buffers c) gpunetio c.
Definition add_uuid uuid c := mk_Comm (g_rank c) (g_size c) (g_uuid c) (g_failed c)
  (g_closed c) (g_outgoing c) (g_incoming c) (g_next_buffers c) (g_gpunetio c)
  (uuid :: g_used_uuids c) (g_timeout c).
Definition set_closed c := mk_Comm (g_rank c) (g_size c) (g_uuid c) (g_failed c) true
  (g_outgoing c) (g_incoming c) (g_next_buffers c) (g_gpunetio c) (g_used_uuids c)
  (g_timeout c).
Definition set_comm_timeout t c := mk_Comm (g_rank c) (g_size c) (g_uuid c) (g_failed c)
  (g_closed c) (g_outgoing c) (g_incoming c) (g_next_buffers c) (g_gpunetio c)
  (g_used_uuids c) t.
End Setters.

(** * Operations *)

Section Group.
Context `{!PyText} {W : Type} `{!GroupDevice W} `{!Clock W} `{!SockRecv obj W} `{!RcQp obj W}.
Context (cfg : Config).
Abbreviation G := (M (St W)).

(** ** Calls and objects *)

Definition with_world {A} (f : W → A * W) (s : St W) : A * St W :=
  let '(a, w) := f (e_world (s_env s)) in
  (a, mk_St (s_comm s) (mk_Env (e_open (s_env s)) (e_fresh (s_env s)) w)).

(** A call out that may raise, and one that does not. *)
Definition call {A} (f : W → result A * W) : G A := with_world f.
Definition ask {A} (f : W → A * W) : G A := λ s, let '(a, s) := with_world f s in (Ok a, s).

(** A call that creates an object to close. *)
Definition opened (k : kind) {A} (f : W → result A * W) : G (obj * A) :=
  a ← call f;
  s ← get;
  let o := mk_obj k (e_fresh (s_env s)) in
  modify (λ s, mk_St (s_comm s)
            (mk_Env (o :: e_open (s_env s)) (S (e_fresh (s_env s))) (e_world (s_env s))));;
  mret (o, a).

(** Note that [close] is being called on an object. *)
Definition forget (o : obj) : G unit :=
  modify (λ s, mk_St (s_comm s)
            (mk_Env (filter (.≠ o) (e_open (s_env s))) (e_fresh (s_env s)) (e_world (s_env s)))).
Definition close_obj (o : obj) : G unit := forget o;; call (dv_close o).

Definition update (f : Comm → Comm) : G unit := modify (λ s, mk_St (f (s_comm s)) (s_env s)).
Definition comm : G Comm := s ← get; mret (s_comm s).
Definition monotonic : G Z := ask dev_clock.

(** [try: m except Exception: pass] *)
Definition swallow (m : G unit) : G unit :=
  try_except m (λ e, if is_Exception e then mret tt else raise e).

(** [try: m except Exception: cleanup; raise] *)
Definition on_exception {A} (m : G A) (cleanup : G unit) : G A :=
  try_except m (λ e, if is_Exception e then cleanup;; raise e else raise e).

(** [try: m except Exception as exc: error = error or exc] *)
Definition collect (error : option exn) (m : G unit) : G (option exn) :=
  try_except (m;; mret error)
    (λ e, if is_Exception e then mret (Some (default e error)) else raise e).
Fixpoint collect_all (error : option exn) (ms : list (G unit)) : G (option exn) :=
  match ms with
  | [] => mret error
  | m :: ms => error ← collect error m; collect_all error ms
  end.

Definition _check_deadline (deadline : Z) : G unit :=
  t ← monotonic; guard_raise (deadline <=? t) AllReduceTimeoutError.

(** ** [_CudaAllocation] *)

Definition _check (status : Z) : G unit := guard_raise (negb (status =? 0)) RuntimeError.

Definition CudaAllocation_init (size : Z) : G Alloc :=
  guard_raise (size <=? 0) ValueError;;
  oa ← opened KAlloc (λ w, let '((status, ptr), w) := dv_mem_alloc size w in
                           (if status =? 0 then Ok ptr else Raise RuntimeError, w));
  mret (mk_Alloc oa.1 size oa.2).

Definition write_u64 (a : Alloc) (values : list Z) : G unit :=
  guard_raise (al_size a <? 8 * Z.of_nat (length values)) ValueError;;
  status ← ask (dv_htod (al_ptr a) ((λ v, v `mod` 2 ^ 64) <$> values));
  _check status.

Definition zero (a : Alloc) : G unit :=
  status ← ask (dv_memset (al_ptr a) 0 (al_size a)); _check status.

Definition read_i32 (a : Alloc) (count : Z) : G (list Z) :=
  guard_raise (al_size a <? 4 * count) ValueError;;
  sv ← ask (dv_dtoh (al_ptr a) (4 * count));
  _check sv.1;; mret sv.2.

Definition clock_rate_hz : G Z :=
  sd ← ask dv_get_device;
  _check sd.1;;
  sv ← ask (dv_get_attribute 13 sd.2);
  _check sv.1;; mret (sv.2 * 1000).

Definition CudaAllocation_close (a : Alloc) : G unit :=
  if al_ptr a =? 0 then mret tt else
  forget (al_obj a);; status ← ask (dv_mem_free (al_ptr a)); _check status.

(** ** Lanes *)

Definition Lane_close (l : Lane) : G unit := close_obj (ln_qp l);; close_obj (ln_cq l).

Definition create_lane : G Lane :=
  cq ← opened KCq (dv_create_cq (cf_queue_depth cfg + 8));
  qp ← on_exception
    (opened KQp (dv_create_qp cq.1 (cf_queue_depth cfg)
       (Z.max 8 ((cf_num_sms cfg + cf_qps cfg - 1) `div` cf_qps cfg + 2))))
    (close_obj cq.1);
  mret (mk_Lane qp.1 cq.1).

(** The two loops of [_create_lanes]: [true] is the outgoing collection.  The
    cleanup closes lanes in reverse order and stops at the first failure. *)
Fixpoint create_lanes_loop (todo : list bool) (outgoing incoming : list Lane) :
    G (list Lane * list Lane) :=
  match todo with
  | [] => mret (outgoing, incoming)
  | out :: todo =>
      lane ← on_exception create_lane (for_each Lane_close (reverse (outgoing ++ incoming)));
      if (out : bool) then create_lanes_loop todo (outgoing ++ [lane]) incoming
      else create_lanes_loop todo outgoing (incoming ++ [lane])
  end.
Definition _create_lanes : G (list Lane * list Lane) :=
  create_lanes_loop (concat (replicate (Z.to_nat (cf_qps cfg)) [true; false])) [] [].

Fixpoint lane_infos_loop (attr : Z * Z) (gid : bytes) (lanes : list Lane) : G (list json) :=
  match lanes with
  | [] => mret []
  | l :: lanes =>
      num ← ask (λ w, (dv_qp_num (ln_qp l) w, w));
      info ← lift (local_qp_info num attr.1 attr.2 gid (cf_port cfg) 0);
      infos ← lane_infos_loop attr gid lanes;
      mret (_qp_info_dict info :: infos)
  end.
Definition _lane_infos (lanes : list Lane) : G (list json) :=
  attr ← call (dv_port (cf_port cfg));
  gid ← call (dv_gid (cf_port cfg) (cf_gid_index cfg));
  lane_infos_loop attr gid lanes.

Definition _buffer_info : json := JObj
  [(lit "work_addr", JInt (mr_addr (cf_work_mr cfg)));
   (lit "work_rkey", JInt (mr_rkey (cf_work_mr cfg)));
   (lit "scratch_addr", JInt (mr_addr (cf_scratch_mr cfg)));
   (lit "scratch_rkey", JInt (mr_rkey (cf_scratch_mr cfg)))].

(** ** Exporting to the GPU *)

Definition DeviceQP_close (d : DeviceQP) : G unit := close_obj (dq_obj d).
Definition Mr_close (m : Mr) : G unit := close_obj (mr_obj m).

(** [_GpuNetIOState.close]: everything is closed, the first error is raised. *)
Definition GpuNetIOState_close (g : GpuNetIOState) : G unit :=
  error ← collect_all None
    ((DeviceQP_close <$> reverse (gs_outgoing g ++ gs_incoming g))
     ++ (CudaAllocation_close <$>
           [gs_status g; gs_incoming_pointers g; gs_outgoing_pointers g])
     ++ [Mr_close (gs_signal_mr g)]);
  match error with Some e => raise e | None => mret tt end.

(** What [_export_gpunetio] holds when it is interrupted. *)
Record Exporting := mk_Exporting {
  ex_outgoing : list DeviceQP;
  ex_incoming : list DeviceQP;
  ex_allocations : list Alloc;
  ex_signal_mr : option Mr;
}.

Definition export_cleanup (x : Exporting) : G unit :=
  match ex_signal_mr x with Some m => swallow (Mr_close m) | None => mret tt end;;
  for_each (λ a, swallow (CudaAllocation_close a)) (reverse (ex_allocations x));;
  for_each (λ d, swallow (DeviceQP_close d)) (reverse (ex_outgoing x ++ ex_incoming x)).

(** One statement of the [try] with what is held before it. *)
Definition guarded {A} (x : Exporting) (m : G A) : G A := on_exception m (export_cleanup x).

Definition export_one (l : Lane) : G DeviceQP :=
  oa ← opened KExport (dv_export (ln_qp l)); mret (mk_DeviceQP oa.1 oa.2).

Fixpoint export_outgoing (lanes : list Lane) (x : Exporting) : G Exporting :=
  match lanes with
  | [] => mret x
  | l :: lanes =>
      d ← guarded x (export_one l);
      export_outgoing lanes (mk_Exporting (ex_outgoing x ++ [d]) (ex_incoming x)
        (ex_allocations x) (ex_signal_mr x))
  end.
Fixpoint export_incoming (lanes : list Lane) (x : Exporting) : G Exporting :=
  match lanes with
  | [] => mret x
  | l :: lanes =>
      d ← guarded x (export_one l);
      export_incoming lanes (mk_Exporting (ex_outgoing x) (ex_incoming x ++ [d])
        (ex_allocations x) (ex_signal_mr x))
  end.

Definition reg_signal : G Mr :=
  oa ← opened KMr dv_reg_signal;
  let '(addr, lkey, rkey) := oa.2 in mret (mk_Mr oa.1 addr lkey rkey).

Definition with_alloc (x : Exporting) (a : Alloc) : Exporting :=
  mk_Exporting (ex_outgoing x) (ex_incoming x) (ex_allocations x ++ [a]) (ex_signal_mr x).
Definition with_signal (x : Exporting) (m : Mr) : Exporting :=
  mk_Exporting (ex_outgoing x) (ex_incoming x) (ex_allocations x) (Some m).

Definition _export_gpunetio (outgoing incoming : list Lane) : G GpuNetIOState :=
  x ← export_outgoing outgoing (mk_Exporting [] [] [] None);
  x ← export_incoming incoming x;
  out_ptrs ← guarded x (CudaAllocation_init (8 * cf_qps cfg));
  let x := with_alloc x out_ptrs in
  in_ptrs ← guarded x (CudaAllocation_init (8 * cf_qps cfg));
  let x := with_alloc x in_ptrs in
  status ← guarded x (CudaAllocation_init (4 * cf_num_sms cfg));
  let x := with_alloc x status in
  guarded x (write_u64 out_ptrs (dq_device_ptr <$> ex_outgoing x));;
  guarded x (write_u64 in_ptrs (dq_device_ptr <$> ex_incoming x));;
  guarded x (zero status);;
  signal_mr ← guarded x reg_signal;
  let x := with_signal x signal_mr in
  rate ← guarded x clock_rate_hz;
  mret (mk_GpuNetIOState (ex_outgoing x) (ex_incoming x) out_ptrs in_ptrs status signal_mr rate).

Definition close_lane_list (lanes : list Lane) : G unit :=
  for_each (λ l, swallow (Lane_close l)) lanes.

Definition _close_lanes : G unit :=
  c ← comm;
  match g_gpunetio c with
  | Some g => swallow (GpuNetIOState_close g);; update (set_gpunetio None)
  | None => mret tt
  end;;
  close_lane_list (reverse (g_outgoing c ++ g_incoming c));;
  update (set_lanes [] [] None None).

(** ** The rendezvous *)

(** A function of the world alone, such as [connect_rc] or [_recv_frame]. *)
Definition on_world {A} (m : M W A) : G A := call m.

(** One attempt of [_connect_until]: an OSError is remembered and retried. *)
Definition connect_round (host port : json) (deadline : Z) : G (option obj) :=
  t ← monotonic;
  let remaining := deadline - t in
  if remaining <=? 0 then raise AllReduceTimeoutError else
  try_except
    (oa ← opened KSock (dv_connect host port (Z.min remaining 1000000000));
     ask (λ w, (tt, dv_set_timeout oa.1 remaining w));;
     mret (Some oa.1))
    (λ e, if is_OSError e then
            t ← monotonic;
            ask (λ w, (tt, dv_sleep (Z.min 20000000 (Z.max 0 (deadline - t))) w));;
            mret None
          else raise e).
Definition _connect_until (fuel : nat) (host port : json) (deadline : Z) : G (option obj) :=
  while_loop fuel (connect_round host port deadline).

(** [message.get("uuid") == uuid and message.get("handle") == handle] *)
Definition message_matches (uuid : Z) (handle : str) (message : list (str * json)) : bool :=
  eq_int (dict_get message (lit "uuid")) uuid && eq_str (dict_get message (lit "handle")) handle.

(** One round of [_accept_member]. *)
Definition accept_round (expected_handle : str) (uuid deadline : Z) :
    G (option (obj * list (str * json))) :=
  t ← monotonic;
  let remaining := deadline - t in
  if remaining <=? 0 then raise AllReduceTimeoutError else
  ready ← call (dv_select remaining);
  if negb ready then raise AllReduceTimeoutError else
  oa ← opened KSock dv_accept;
  let sock := oa.1 in
  t ← monotonic;
  ask (λ w, (tt, dv_set_timeout sock (Z.max 1000000 (deadline - t)) w));;
  found ← try_except
    (message ← on_world (_recv_frame sock);
     mret (if message_matches uuid expected_handle message then Some message else None))
    (λ e, if is_OSError e || is_AllReduceError e then mret None else raise e);
  match found with
  | Some message => mret (Some (sock, message))
  | None => close_obj sock;; mret None
  end.
Definition _accept_member (fuel : nat) (expected_handle : str) (uuid deadline : Z) :
    G (option (obj * list (str * json))) :=
  while_loop fuel (accept_round expected_handle uuid deadline).

Definition send_message (sock : obj) (value : json) : G unit :=
  on_world (_send_frame (λ s data, dv_sendall s data) sock value).

(** [[_qp_info_from_dict(value) for value in response[key]]] *)
Definition peer_infos (response : list (str * json)) (key : string) : G (list QPInfo) :=
  v ← lift (getitem (JObj response) (lit key));
  l ← lift (py_iter v);
  lift (mapM_result _qp_info_from_dict l).

(** [for lane, remote in zip(lanes, infos): connect_rc(...)]; the access flags are
    LOCAL_WRITE | REMOTE_WRITE. *)
Fixpoint connect_lanes (pairs : list (Lane * QPInfo)) (rts : RtsArgs) : G unit :=
  match pairs with
  | [] => mret tt
  | (lane, remote) :: pairs =>
      on_world (connect_rc (ln_qp lane) remote (cf_port cfg) (cf_gid_index cfg) 3 0 None rts);;
      connect_lanes pairs rts
  end.

Definition peer_buffers (response : list (str * json)) : G Buffers :=
  buffers ← lift (getitem (JObj response) (lit "buffers"));
  work_addr ← lift (int_field buffers "work_addr");
  work_rkey ← lift (int_field buffers "work_rkey");
  scratch_addr ← lift (int_field buffers "scratch_addr");
  scratch_rkey ← lift (int_field buffers "scratch_rkey");
  mret (mk_Buffers work_addr work_rkey scratch_addr scratch_rkey).

(** A part of the [try] of [_reconfigure], with the sockets that are open before
    it: when it raises, the [except] closes the lanes and the [finally] the
    sockets.  (The state to close in the [except] is the last thing the [try]
    creates, so it is always None there.) *)
Definition part {A} (lanes : list Lane) (socks : list obj) (m : G A) : G A :=
  try_except m (λ e,
    try_finally
      (if is_Exception e then close_lane_list (reverse lanes);; raise e else raise e)
      (for_each close_obj socks)).

(** What follows the rendezvous, with both sockets open. *)
Definition connect_ring (uuid : Z) (next_member : Member) (outgoing incoming : list Lane)
    (next_socket prev_socket : obj) (prev_request : list (str * json)) :
    G (Buffers * GpuNetIOState) :=
  infos ← _lane_infos incoming;
  send_message prev_socket (JObj
    [(lit "uuid", JInt uuid); (lit "handle", JStr (cf_handle cfg));
     (lit "incoming", JList infos); (lit "buffers", _buffer_info)]);;
  next_response ← on_world (_recv_frame next_socket);
  guard_raise (negb (message_matches uuid (m_raw next_member) next_response)) ReconfigureError;;
  next_infos ← peer_infos next_response "incoming";
  prev_infos ← peer_infos prev_request "outgoing";
  guard_raise (negb (Z.of_nat (length next_infos) =? cf_qps cfg)
               || negb (Z.of_nat (length prev_infos) =? cf_qps cfg)) ReconfigureError;;
  c ← comm;
  let retry_count := 3 in
  let rts := mk_RtsArgs (Some (_ibv_timeout_exponent (g_timeout c) retry_count))
               (Some retry_count) (Some 7) None in
  connect_lanes (zip outgoing next_infos) rts;;
  connect_lanes (zip incoming prev_infos) rts;;
  next_buffers ← peer_buffers next_response;
  gpunetio ← _export_gpunetio outgoing incoming;
  mret (next_buffers, gpunetio).

(** The [try]/[except]/[finally] of [_reconfigure]; [None] when the fuel of a loop
    ended. *)
Definition rendezvous (fuel : nat) (uuid deadline : Z) (next_member prev_member : Member)
    (request : json) (outgoing incoming : list Lane) : G (option (Buffers * GpuNetIOState)) :=
  let lanes := outgoing ++ incoming in
  o ← part lanes [] (_connect_until fuel (m_host next_member) (m_port next_member) deadline);
  match o with
  | None => mret None
  | Some next_socket =>
      o ← part lanes [next_socket]
        (t ← monotonic;
         ask (λ w, (tt, dv_set_timeout next_socket (Z.max 1000000 (deadline - t)) w));;
         send_message next_socket request;;
         _accept_member fuel (m_raw prev_member) uuid deadline);
      match o with
      | None => mret None
      | Some (prev_socket, prev_request) =>
          r ← part lanes [next_socket; prev_socket]
            (connect_ring uuid next_member outgoing incoming next_socket prev_socket prev_request);
          for_each close_obj [next_socket; prev_socket];;
          mret (Some r)
      end
  end.

(** ** Membership *)

(** Numbers of JSON compare exactly. *)
Inductive num := NFin (m e : Z) | NInf (negative : bool) | NNaN.
Definition json_num (v : json) : num :=
  match v with
  | JInt z => NFin z 0
  | JBool b => NFin (bool_int b) 0
  | JFloat (FFin m e) => NFin m e
  | JFloat (FInf negative) => NInf negative
  | _ => NNaN
  end.
Definition num_compare (a b : num) : option comparison :=
  match a, b with
  | NFin m e, NFin m' e' =>
      let k := Z.min e e' in Some (m * 2 ^ (e - k) ?= m' * 2 ^ (e' - k))
  | NInf x, NInf y => Some (if eqb x y then Eq else if x then Lt else Gt)
  | NInf x, NFin _ _ => Some (if x then Lt else Gt)
  | NFin _ _, NInf y => Some (if y then Gt else Lt)
  | _, _ => None
  end.
Definition num_eq (a b : num) : bool :=
  match num_compare a b with Some Eq => true | _ => false end.
Definition num_lt (a b : num) : bool :=
  match num_compare a b with Some Lt => true | _ => false end.

(** The sort key [(stable_rank, raw)]; equal ranks are told apart by the text. *)
Definition member_lt (x y : Member) : bool :=
  let a := json_num (m_stable_rank x) in
  let b := json_num (m_stable_rank y) in
  if num_eq a b then negb (str_le (m_raw y) (m_raw x)) else num_lt a b.

(** [members.sort(key=...)]: the stable sort, by insertion. *)
Fixpoint insert_member (x : Member) (l : list Member) : list Member :=
  match l with
  | [] => [x]
  | y :: l => if member_lt y x then y :: insert_member x l else x :: y :: l
  end.
Fixpoint sort_members (l : list Member) : list Member :=
  match l with [] => [] | x :: l => insert_member x (sort_members l) end.

(** [len(set(l)) != len(l)] for the ranks. *)
Fixpoint has_equal (l : list num) : bool :=
  match l with
  | [] => false
  | x :: l => existsb (num_eq x) l || has_equal l
  end.

(** The position of the local handle. *)
Fixpoint index_of (handle : str) (members : list Member) : option Z :=
  match members with
  | [] => None
  | m :: members => if bool_decide (m_raw m = handle) then Some 0
                    else Z.succ <$> index_of handle members
  end.

(** The checks of one member against the local group, in the source's order. *)
Fixpoint check_members (members : list Member) : result unit :=
  match members with
  | [] => Ok tt
  | m :: members =>
      if negb (eq_int (m_qps m) (cf_qps cfg)) || negb (eq_int (m_num_sms m) (cf_num_sms cfg))
      then Raise ReconfigureError else
      if negb (eq_int (m_max_bytes m) (cf_max_bytes cfg)) then Raise ReconfigureError
      else check_members members
  end.

(** The members in rank order, or why they do not form a communicator. *)
Definition order_members (ordered_input : bool) (raw_handles : list str) :
    result (list Member) :=
  if (length raw_handles =? 0)%nat then Raise ReconfigureError else
  if negb (bool_decide (NoDup raw_handles)) then Raise ReconfigureError else
  members ← mapM_result _decode_handle raw_handles;
  let members := if ordered_input then members else sort_members members in
  if negb (length (filter (λ m, m_raw m = cf_handle cfg) members) =? 1)%nat
  then Raise ReconfigureError else
  if has_equal (json_num ∘ m_stable_rank <$> members) then Raise ReconfigureError else
  check_members members;;
  Ok members.

(** ** Reconfiguration *)

(** After the checks: [rank] is the local position in [members]. *)
Definition rebuild (fuel : nat) (uuid : Z) (members : list Member) (rank : Z)
    (timeout : option Duration) : G (option Z) :=
  let size := Z.of_nat (length members) in
  t ← monotonic;
  c ← comm;
  seconds ← lift (_seconds timeout (g_timeout c));
  let deadline := t + seconds in
  _close_lanes;;
  update (set_rank (-1) 0 None true);;
  if size =? 1 then
    update (set_rank 0 1 (Some uuid) false);; update (add_uuid uuid);; mret (Some 0)
  else
  lanes ← _create_lanes;
  let '(outgoing, incoming) := lanes in
  match members !! Z.to_nat ((rank + 1) `mod` size), members !! Z.to_nat ((rank - 1) `mod` size) with
  | Some next_member, Some prev_member =>
      infos ← _lane_infos outgoing;
      r ← rendezvous fuel uuid deadline next_member prev_member
        (JObj [(lit "uuid", JInt uuid); (lit "handle", JStr (cf_handle cfg));
               (lit "outgoing", JList infos); (lit "buffers", _buffer_info)])
        outgoing incoming;
      match r with
      | None => mret None
      | Some (next_buffers, gpunetio) =>
          update (set_lanes outgoing incoming (Some next_buffers) (Some gpunetio));;
          update (set_rank rank size (Some uuid) false);;
          update (add_uuid uuid);; mret (Some rank)
      end
  | _, _ => raise IndexError
  end.

(** [_reconfigure]: the result of the [Work] it returns is the rank. *)
Definition _reconfigure (fuel : nat) (uuid : Z) (ordered_input : bool) (handles : list str)
    (timeout : option Duration) : G (option Z) :=
  c ← comm;
  if g_closed c then raise ReconfigureError else
  if bool_decide (uuid ∈ g_used_uuids c) then raise ReconfigureError else
  members ← lift (order_members ordered_input handles);
  match index_of (cf_handle cfg) members with
  | Some rank => rebuild fuel uuid members rank timeout
  | None => raise (OtherError 0)
  end.

Definition reconfigure (fuel : nat) (uuid : Z) (ordered_input : bool) (handles : list str)
    (timeout : option Duration) : G (option unit) :=
  r ← _reconfigure fuel uuid ordered_input handles (_timeout_value timeout);
  mret (match r with Some _ => Some tt | None => None end).

(** ** The collective *)

(** The first non-zero status, or 0. *)
Fixpoint first_failed (statuses : list Z) : Z :=
  match statuses with
  | [] => 0
  | v :: statuses => if v =? 0 then first_failed statuses else v
  end.

(** [self._kernels.copy(...); synchronize(); _check_deadline(deadline)] *)
Definition staged_copy (source destination count : Z) (dtype : DType) (deadline : Z) : G unit :=
  call (dv_copy source destination count dtype);;
  call dv_synchronize;;
  _check_deadline deadline.

(** The checks of [_allreduce_tensor] on the tensor: element count, dtype, width
    and address. *)
Definition tensor_checks (t : CudaTensor) : result (Z * DType * Z * Z) :=
  nbytes ← _tensor_nbytes t;
  if nbytes <=? 0 then Raise ValueError else
  if cf_max_bytes cfg <? nbytes then Raise ValueError else
  key ← _dtype_key t;
  let '(dtype, itemsize) := key in
  if negb (nbytes `mod` itemsize =? 0) then Raise ValueError else
  let count := nbytes `div` itemsize in
  if 0x7FFFFFFF <? count then Raise ValueError else
  match ct_data_ptr t with
  | None => Raise AttributeError
  | Some ptr => if negb (ptr `mod` 16 =? 0) then Raise ValueError
                else Ok (count, dtype, itemsize, ptr)
  end.

(** The ring on the GPU and its statuses. *)
Definition ring_allreduce (c : Comm) (gpunetio : GpuNetIOState) (next_buffers : Buffers)
    (count itemsize : Z) (dtype : DType) (deadline : Z) : G unit :=
  _check_deadline deadline;;
  zero (gs_status gpunetio);;
  t ← monotonic;
  let timeout_cycles :=
    Z.max 1 (Z.quot ((deadline - t) * gs_clock_rate_hz gpunetio) 1000000000) in
  call (dv_ring (mk_KernelArgs
    (al_ptr (gs_outgoing_pointers gpunetio)) (al_ptr (gs_incoming_pointers gpunetio))
    (al_ptr (gs_status gpunetio)) (cf_work_ptr cfg) (cf_scratch_ptr cfg) count dtype itemsize
    (g_rank c) (g_size c) next_buffers (mr_lkey (cf_work_mr cfg))
    (mr_addr (gs_signal_mr gpunetio)) (mr_lkey (gs_signal_mr gpunetio)) timeout_cycles));;
  call dv_synchronize;;
  statuses ← read_i32 (gs_status gpunetio) (cf_num_sms cfg);
  let failed := first_failed statuses in
  guard_raise (failed =? -110) AllReduceTimeoutError;;
  guard_raise (negb (failed =? 0)) AllReduceError;;
  _check_deadline deadline.

(** The [try] of [_allreduce_tensor]. *)
Definition allreduce_body (c : Comm) (count : Z) (dtype : DType) (itemsize tensor_ptr deadline : Z) :
    G unit :=
  let staged := negb (tensor_ptr =? cf_work_ptr cfg) in
  (if staged then staged_copy tensor_ptr (cf_work_ptr cfg) count dtype deadline else mret tt);;
  if g_size c =? 1 then
    (if staged then staged_copy (cf_work_ptr cfg) tensor_ptr count dtype deadline else mret tt)
  else
  match g_gpunetio c, g_next_buffers c with
  | Some gpunetio, Some next_buffers =>
      ring_allreduce c gpunetio next_buffers count itemsize dtype deadline;;
      (if staged then staged_copy (cf_work_ptr cfg) tensor_ptr count dtype deadline else mret tt)
  | _, _ => raise AllReduceError
  end.

Definition _allreduce_tensor (tensor : CudaTensor) (timeout : option Duration) : G unit :=
  c ← comm;
  if g_closed c then raise AllReduceError else
  if bool_decide (g_uuid c = None) || (g_size c <=? 0) then raise AllReduceError else
  if g_failed c then raise AllReduceError else
  checked ← lift (tensor_checks tensor);
  let '(count, dtype, itemsize, tensor_ptr) := checked in
  t ← monotonic;
  seconds ← lift (_seconds timeout (g_timeout c));
  on_exception (allreduce_body c count dtype itemsize tensor_ptr (t + seconds))
    (update set_failed).

(** [allreduce]: [is_sum] is whether the options ask for a sum. *)
Definition allreduce (tensors : list CudaTensor) (is_sum : bool) (timeout : option Duration) :
    G unit :=
  match tensors with
  | [tensor] => if negb is_sum then raise NotImplementedError
                else _allreduce_tensor tensor (_timeout_value timeout)
  | _ => raise ValueError
  end.

(** ** Ending *)

Definition abort : G unit :=
  c ← comm;
  if g_closed c then mret tt else _close_lanes;; update (set_rank (-1) 0 None true).

Definition set_timeout (timeout_ns : Z) : G unit := update (set_comm_timeout timeout_ns).

Definition close : G unit :=
  c ← comm;
  if g_closed c then mret tt else
  _close_lanes;;
  close_obj (cf_listener cfg);;
  Mr_close (cf_scratch_mr cfg);;
  Mr_close (cf_work_mr cfg);;
  close_obj (cf_pd cfg);;
  close_obj (cf_context cfg);;
  update set_closed.

Definition get_reconfigure_handle : G str :=
  c ← comm; if g_closed c then raise ReconfigureError else mret (cf_handle cfg).
End Group.

(** * The communicator's state *)

(** ** Calls that leave it alone *)

Section Kept.
Context {W : Type}.
Implicit Types s : St W.

(** Calls that do not touch the communicator, whatever their outcome. *)
Definition same_comm : relation (St W) := λ s s', s_comm s' = s_comm s.

#[global] Instance same_comm_preorder : PreOrder same_comm.
Proof. split; [done|]. intros s1 s2 s3 H1 H2. unfold same_comm in *. congruence. Qed.

Lemma keeps_comm : along same_comm comm. Proof. done. Qed.

Lemma keeps_call {A} (f : W → result A * W) : along same_comm (call f).
Proof. intros s. unfold call, with_world, same_comm. by destruct (f _). Qed.

Lemma keeps_ask {A} (f : W → A * W) : along same_comm (ask f).
Proof. intros s. unfold ask, with_world, same_comm. by destruct (f _). Qed.

Lemma keeps_modify_env f : along same_comm (modify (λ s, mk_St (s_comm s) (f s))).
Proof. done. Qed.
End Kept.

Abbreviation keeps := (along same_comm).

#[export] Hint Resolve keeps_comm keeps_call keeps_ask keeps_modify_env : along.

Section GroupKeeps.
Context `{!PyText} {W : Type} `{!GroupDevice W} `{!Clock W} `{!SockRecv obj W} `{!RcQp obj W}.
Context (cfg : Config).
Implicit Types s : St W.

Lemma keeps_opened k {A} (f : W → result A * W) : keeps (opened k f).
Proof. unfold opened. along. Qed.
Lemma keeps_close_obj o : along (@same_comm W) (close_obj o).
Proof. unfold close_obj, forget. along. Qed.
#[local] Hint Resolve keeps_opened keeps_close_obj : along.

Lemma keeps_swallow (m : M (St W) unit) : keeps m → keeps (swallow m).
Proof. unfold swallow. along. Qed.
Lemma keeps_on_exception {A} (m : M (St W) A) c : keeps m → keeps c → keeps (on_exception m c).
Proof. unfold on_exception. along. Qed.
Lemma keeps_collect_all error (ms : list (M (St W) unit)) :
  Forall keeps ms → keeps (collect_all error ms).
Proof.
  intros Hms. revert error. induction Hms as [|m ms Hm _ IH]; intros error; [done|].
  cbn [collect_all]. unfold collect. along; auto.
Qed.
#[local] Hint Resolve keeps_swallow keeps_on_exception : along.

Lemma keeps_alloc_close a : along (@same_comm W) (CudaAllocation_close a).
Proof. unfold CudaAllocation_close, _check, forget. along. Qed.
Lemma keeps_lane_close l : along (@same_comm W) (Lane_close l).
Proof. unfold Lane_close. along. Qed.
#[local] Hint Resolve keeps_alloc_close keeps_lane_close : along.

Lemma keeps_state_close g : along (@same_comm W) (GpuNetIOState_close g).
Proof.
  unfold GpuNetIOState_close. apply along_bind; [apply _| |along]. apply keeps_collect_all.
  rewrite !Forall_app, !Forall_fmap, Forall_singleton.
  split_and!; try (apply Forall_forall; intros x _; cbn);
    unfold DeviceQP_close, Mr_close; along.
Qed.

Lemma keeps_close_lane_list lanes : along (@same_comm W) (close_lane_list lanes).
Proof. unfold close_lane_list. along. Qed.

Lemma keeps_create_lanes : along (@same_comm W) (_create_lanes cfg).
Proof.
  unfold _create_lanes. generalize (@nil Lane) at 1 as outgoing. generalize (@nil Lane) as incoming.
  induction (concat _) as [|b todo IH]; intros incoming outgoing; [done|]. cbn [create_lanes_loop].
  unfold create_lane. along.
Qed.

Lemma keeps_lane_infos lanes : along (@same_comm W) (_lane_infos cfg lanes).
Proof.
  unfold _lane_infos. apply along_bind; [apply _|along|]. intros attr. apply along_bind; [apply _|along|].
  intros gid. induction lanes; cbn [lane_infos_loop]; along.
Qed.

Lemma keeps_export outgoing incoming : along (@same_comm W) (_export_gpunetio cfg outgoing incoming).
Proof.
  assert (∀ x {A} (m : M (St W) A), keeps m → keeps (guarded x m)) as Hg.
  { intros x A m Hm. unfold guarded. apply keeps_on_exception; [done|].
    unfold export_cleanup, Mr_close, DeviceQP_close. along. }
  assert (∀ l, along (@same_comm W) (export_one l)) as Ho by (intros; unfold export_one; along).
  unfold _export_gpunetio. apply along_bind; [apply _| |].
  { generalize (mk_Exporting [] [] [] None). induction outgoing; intros x; cbn [export_outgoing];
      along. }
  intros x. apply along_bind; [apply _| |].
  { revert x. induction incoming; intros x; cbn [export_incoming]; along. }
  intros x'. repeat (apply along_bind; [apply _|apply Hg|intros ?]); try done;
    unfold CudaAllocation_init, write_u64, zero, reg_signal, clock_rate_hz, _check; along.
Qed.

Lemma keeps_connect_lanes pairs rts : along (@same_comm W) (connect_lanes cfg pairs rts).
Proof.
  induction pairs as [|[lane remote] pairs IH]; cbn [connect_lanes]; unfold on_world; along.
Qed.

Lemma keeps_rendezvous fuel uuid deadline next_member prev_member request outgoing incoming :
  along (@same_comm W)
    (rendezvous cfg fuel uuid deadline next_member prev_member request outgoing incoming).
Proof.
  assert (∀ lanes socks {A} (m : M (St W) A), keeps m → keeps (part lanes socks m)) as Hp.
  { intros lanes socks A m Hm. unfold part, close_lane_list. along. }
  assert (∀ sock v, along (@same_comm W) (send_message sock v)) as Hs
    by (intros; unfold send_message, on_world; along).
  unfold rendezvous. apply along_bind; [apply _| |].
  { apply Hp. unfold _connect_until, connect_round, monotonic. along. }
  intros [next|]; [|along]. apply along_bind; [apply _| |].
  { apply Hp. unfold _accept_member, accept_round, monotonic, on_world. along. }
  intros [[prev msg]|]; [|along]. apply along_bind; [apply _| |along].
  apply Hp. unfold connect_ring, peer_infos, peer_buffers, on_world.
  pose proof keeps_lane_infos. pose proof keeps_export. pose proof keeps_connect_lanes. along.
Qed.
End GroupKeeps.

(** ** Reconfiguration *)

Section Reconfigure.
Context `{!PyText} {W : Type} `{!GroupDevice W} `{!Clock W} `{!SockRecv obj W} `{!RcQp obj W}.
Context (cfg : Config).
Implicit Types s : St W.

(** A call that leaves the communicator alone, in a weakest precondition. *)
Lemma wp_keeps_comm {A} (m : M (St W) A) s :
  keeps m → wp m (λ _ s', s_comm s' = s_comm s) (λ _ s', s_comm s' = s_comm s) s.
Proof using. intros Hm. unfold wp. specialize (Hm s). by destruct (m s) as [[a|e] s']. Qed.

Lemma wp_update f Q E s : Q tt (mk_St (f (s_comm s)) (s_env s)) → wp (update f) Q E s.
Proof using. done. Qed.

Lemma wp_comm Q E s : Q (s_comm s) s → wp comm Q E s.
Proof using. done. Qed.

(** Exceptions are swallowed, others pass. *)
Lemma wp_swallow (m : M (St W) unit) s :
  wp (swallow m) (λ _ _, True) (λ e _, is_Exception e = false) s.
Proof using.
  unfold swallow. apply wp_try_except. eapply wp_mono; [apply wp_trivial|done|].
  intros e s' _. cbn. by destruct (is_Exception e) eqn:He.
Qed.

Lemma wp_for_each_swallow {A} (f : A → M (St W) unit) l s :
  wp (for_each (λ x, swallow (f x)) l) (λ _ _, True) (λ e _, is_Exception e = false) s.
Proof using.
  apply (wp_for_each _ l (λ _ _, True)); [done|]. intros x l' s' _. apply wp_swallow.
Qed.

(** The communicator without lanes. *)
Definition no_lanes (c : Comm) : Comm := set_lanes [] [] None None c.
(** The communicator after a teardown. *)
Definition torn (c : Comm) : Comm := set_rank (-1) 0 None true (no_lanes c).

Lemma wp_close_lanes s :
  wp _close_lanes (λ _ s', s_comm s' = no_lanes (s_comm s))
    (λ e _, is_Exception e = false) s.
Proof using.
  unfold _close_lanes. apply wp_bind, wp_comm. apply wp_bind.
  eapply wp_mono with (λ _ s', no_lanes (s_comm s') = no_lanes (s_comm s))
    (λ e _, is_Exception e = false); [| |done].
  - destruct (g_gpunetio (s_comm s)) as [g|]; [|done]. apply wp_bind.
    eapply wp_mono; [apply wp_conj; [apply wp_swallow|apply wp_keeps_comm]| |by intros ?? [? _]].
    + apply keeps_swallow, keeps_state_close.
    + intros [] s' [_ Hk]. apply wp_update. cbn. by rewrite Hk.
  - intros [] s1 H1. apply wp_bind.
    eapply wp_mono; [apply wp_conj; [apply wp_for_each_swallow|apply wp_keeps_comm]| |by intros ?? [? _]].
    + apply keeps_close_lane_list.
    + intros [] s2 [_ Hk]. apply wp_update. cbn. rewrite Hk. exact H1.
Qed.

Lemma wp_create_lanes s :
  wp (_create_lanes cfg)
    (λ l _, length l.1 = Z.to_nat (cf_qps cfg) ∧ length l.2 = Z.to_nat (cf_qps cfg))
    (λ _ _, True) s.
Proof using.
  unfold _create_lanes.
  assert (∀ n outgoing incoming s,
    wp (create_lanes_loop cfg (concat (replicate n [true; false])) outgoing incoming)
      (λ l _, length l.1 = (length outgoing + n)%nat ∧ length l.2 = (length incoming + n)%nat)
      (λ _ _, True) s) as Hl.
  2: { by apply Hl. }
  clear s. induction n as [|n IH]; intros outgoing incoming s; [cbn; lia|].
  cbn [replicate concat app create_lanes_loop]. apply wp_bind.
  eapply wp_mono; [apply wp_trivial| |done]. intros lane1 s1 _. apply wp_bind.
  eapply wp_mono; [apply wp_trivial| |done]. intros lane2 s2 _.
  eapply wp_mono; [apply IH| |done]. intros l s3. rewrite !length_app. cbn [length]. lia.
Qed.

(** What a successful reconfiguration leaves. *)
Record Formed (uuid rank size : Z) (c c' : Comm) : Prop := mk_Formed {
  fm_rank : g_rank c' = rank;
  fm_size : g_size c' = size;
  fm_uuid : g_uuid c' = Some uuid;
  fm_failed : g_failed c' = false;
  fm_used : g_used_uuids c' = uuid :: g_used_uuids c;
  fm_closed : g_closed c' = g_closed c;
  fm_timeout : g_timeout c' = g_timeout c;
  fm_single : size = 1 →
    g_outgoing c' = [] ∧ g_incoming c' = [] ∧ g_gpunetio c' = None ∧ g_next_buffers c' = None;
  fm_ring : size ≠ 1 →
    length (g_outgoing c') = Z.to_nat (cf_qps cfg) ∧
    length (g_incoming c') = Z.to_nat (cf_qps cfg) ∧
    is_Some (g_gpunetio c') ∧ is_Some (g_next_buffers c');
}.

Lemma index_of_range handle members rank :
  index_of handle members = Some rank →
  0 ≤ rank < Z.of_nat (length members) ∧
  ∃ m, members !! Z.to_nat rank = Some m ∧ m_raw m = handle.
Proof using.
  revert rank. induction members as [|m members IH]; intros rank; [done|]. cbn [index_of length].
  case_bool_decide as Hm.
  - intros [= <-]. split; [lia|]. by exists m.
  - destruct (index_of handle members) as [r|]; [|done]. intros [= <-].
    destruct (IH r eq_refl) as [Hr (m' & Hm' & Heq)]. split; [lia|]. exists m'.
    by replace (Z.to_nat (Z.succ r)) with (S (Z.to_nat r)) by lia.
Qed.

(** [rebuild]: it raises with the communicator untouched or torn down. *)
Lemma wp_rebuild fuel uuid members rank timeout s :
  0 ≤ rank < Z.of_nat (length members) →
  wp (rebuild cfg fuel uuid members rank timeout)
    (λ o s', match o with
             | Some r => r = rank ∧
                 Formed uuid rank (Z.of_nat (length members)) (s_comm s) (s_comm s')
             | None => s_comm s' = torn (s_comm s)
             end)
    (λ e s', is_Exception e = true → s_comm s' = s_comm s ∨ s_comm s' = torn (s_comm s)) s.
Proof using.
  intros Hrank. unfold rebuild. apply wp_bind.
  eapply wp_mono; [apply wp_keeps_comm; unfold monotonic; along| |intros; by left].
  intros t s1 H1. apply wp_bind, wp_comm, wp_bind, wp_lift. rewrite H1.
  destruct (_seconds timeout _) as [seconds|e]; [|intros _; by left].
  apply wp_bind. eapply wp_mono; [apply wp_close_lanes| |intros e s' He He'; congruence].
  intros [] s2 H2. apply wp_bind, wp_update. rewrite H2, H1. fold (torn (s_comm s)).
  set (s3 := mk_St (torn (s_comm s)) (s_env s2)).
  destruct (Z.eqb_spec (Z.of_nat (length members)) 1) as [Hsize|Hsize].
  { apply wp_bind, wp_update, wp_bind, wp_update, wp_ret.
    split; [lia|]. split; cbn; try done; lia. }
  apply wp_bind. eapply wp_mono.
  { apply wp_conj; [apply wp_create_lanes|apply wp_keeps_comm, keeps_create_lanes]. }
  2: { intros e s4 [_ H4] _. right. exact H4. }
  intros [outgoing incoming] s4 [[Ho Hi] H4]. cbn [fst snd] in Ho, Hi.
  destruct (members !! _) as [next|]; [|intros _; right; exact H4].
  destruct (members !! Z.to_nat ((rank - 1) `mod` _)) as [prev|]; [|intros _; right; exact H4].
  apply wp_bind. eapply wp_mono; [apply wp_keeps_comm, keeps_lane_infos| |].
  2: { intros e s5 H5 _. right. by rewrite H5. }
  intros infos s5 H5. apply wp_bind.
  eapply wp_mono; [apply wp_keeps_comm, keeps_rendezvous| |].
  2: { intros e s6 H6 _. right. by rewrite H6, H5. }
  intros [[buffers gpunetio]|] s6 H6; [|apply wp_ret; by rewrite H6, H5].
  apply wp_bind, wp_update, wp_bind, wp_update, wp_bind, wp_update, wp_ret.
  split; [done|]. cbn [s_comm].
  rewrite H6, H5, H4. split; cbn; try done; lia.
Qed.

Lemma wp_reconfigure fuel uuid ordered handles timeout s :
  wp (_reconfigure cfg fuel uuid ordered handles timeout)
    (λ o s', match o with
       | Some rank => g_closed (s_comm s) = false ∧ (uuid ∉ g_used_uuids (s_comm s)) ∧
           ∃ members, order_members cfg ordered handles = Ok members ∧
             index_of (cf_handle cfg) members = Some rank ∧
             Formed uuid rank (Z.of_nat (length members)) (s_comm s) (s_comm s')
       | None => s_comm s' = torn (s_comm s)
       end)
    (λ e s', is_Exception e = true → s_comm s' = s_comm s ∨ s_comm s' = torn (s_comm s)) s.
Proof using.
  unfold _reconfigure. apply wp_bind, wp_comm.
  destruct (g_closed (s_comm s)) eqn:Hclosed; [intros _; by left|].
  case_bool_decide as Hused; [intros _; by left|]. apply wp_bind, wp_lift.
  destruct (order_members cfg ordered handles) as [members|e] eqn:Hm; [|intros _; by left].
  destruct (index_of (cf_handle cfg) members) as [rank|] eqn:Hr; [|intros _; by left].
  eapply wp_mono; [apply wp_rebuild; apply (index_of_range _ _ _ Hr)| |done].
  intros [r|] s' Hp; [|done]. destruct Hp as [-> Hf]. split; [done|]. split; [done|]. by exists members.
Qed.

(** C2: [_reconfigure] is atomic on the communicator.  When it succeeds, the uuid
    was fresh, the group was open, the rank is the position of the local handle
    among the ordered members, and the communicator is exactly that of the new
    generation: rank, size and uuid set, no failure, [qps] lanes each way with the
    queues exported (none for a single member), the uuid never accepted again.
    When it raises, either nothing of the communicator changed, or the group is
    torn down: no lanes, no rank, failed until the next reconfiguration. *)
Theorem reconfigure_atomic fuel uuid ordered handles timeout s :
  let c := s_comm s in
  match _reconfigure cfg fuel uuid ordered handles timeout s with
  | (Ok (Some rank), s') =>
      g_closed c = false ∧ (uuid ∉ g_used_uuids c) ∧
      ∃ members, order_members cfg ordered handles = Ok members ∧
        index_of (cf_handle cfg) members = Some rank ∧
        Formed uuid rank (Z.of_nat (length members)) c (s_comm s')
  | (Ok None, s') => s_comm s' = torn c
  | (Raise e, s') => is_Exception e = true → s_comm s' = c ∨ s_comm s' = torn c
  end.
Proof using.
  cbv zeta. pose proof (wp_reconfigure fuel uuid ordered handles timeout s) as H'. unfold wp in H'.
  by destruct (_reconfigure _ _ _ _ _ _ s) as [[[r|]|e] s'].
Qed.
End Reconfigure.
