(* ===== verification/GroupTheorems.v ===== *)
(** What the process group promises: the invariant of the communicator over any
    sequence of operations, the outcomes of a collective, the agreement of the
    members on the ring, and the rendezvous that only accepts the expected peer. *)

From S2P Require Import Prelude Bytes Verbs Helpers Json Stream Handles ProcessGroup.
#[local] Open Scope Z_scope.

Section Group.
Context `{!PyText} {W : Type} `{!GroupDevice W} `{!Clock W} `{!SockRecv obj W} `{!RcQp obj W}.
Context (cfg : Config).
Implicit Types s : St W.

(** * The collective *)

(** The guards of [_allreduce_tensor]. *)
Definition usable (c : Comm) : bool :=
  negb (g_closed c) && bool_decide (is_Some (g_uuid c)) && (0 <? g_size c) && negb (g_failed c).

Lemma keeps_allreduce_body c count dtype itemsize ptr deadline :
  along (@same_comm W) (allreduce_body cfg c count dtype itemsize ptr deadline).
Proof.
  unfold allreduce_body, staged_copy, ring_allreduce, read_i32, zero, _check_deadline, _check,
    monotonic. along.
Qed.

(** What the checks establish of a tensor they let through. *)
Lemma tensor_checks_spec t count dtype itemsize ptr :
  tensor_checks cfg t = Ok (count, dtype, itemsize, ptr) →
  _tensor_nbytes t = Ok (count * itemsize) ∧ 0 < count ≤ 0x7FFFFFFF ∧
  itemsize = widths dtype ∧ count * itemsize ≤ cf_max_bytes cfg ∧
  ct_data_ptr t = Some ptr ∧ ptr `mod` 16 = 0.
Proof using.
  unfold tensor_checks. destruct (_tensor_nbytes t) as [nbytes|]; [|done]. cbv [mbind result_bind].
  destruct (Z.leb_spec nbytes 0); [done|].
  destruct (Z.ltb_spec (cf_max_bytes cfg) nbytes); [done|].
  destruct (_dtype_key t) as [[dt size]|] eqn:Hd; [|done].
  assert (size = widths dt) as ->.
  { unfold _dtype_key in Hd. repeat (case_match; try done). injection Hd as <- <-. lia. }
  destruct (Z.eqb_spec (nbytes `mod` widths dt) 0) as [Hmod|]; [|done]. cbn [negb].
  destruct (Z.ltb_spec 0x7FFFFFFF (nbytes `div` widths dt)); [done|].
  destruct (ct_data_ptr t) as [p|]; [|done].
  destruct (Z.eqb_spec (p `mod` 16) 0) as [Hp|]; [|done]. cbn [negb].
  intros [= <- <- <- <-]. assert (0 < widths dt) by (by destruct dt).
  pose proof (Z.div_mod nbytes (widths dt) ltac:(lia)) as Heq. rewrite Hmod in Heq.
  assert (nbytes `div` widths dt * widths dt = nbytes) as -> by lia.
  split; [done|]. split; [nia|]. split; [done|]. split; [lia|]. done.
Qed.

Lemma lift_ok {A B} (a : A) (f : A → M (St W) B) s : (lift (Ok a) ≫= f) s = f a s.
Proof using. done. Qed.

Lemma wp_group_clock Q E s :
  (∀ t s', s_comm s' = s_comm s → Q t s') → wp (monotonic (W := W)) Q E s.
Proof using.
  intros HQ. unfold wp, monotonic, ask, with_world. destruct (dev_clock _). by apply HQ.
Qed.

(** the outcomes of a collective.  On a group that is closed, not configured or
    failed it raises AllReduceError and does nothing; a tensor that fails the
    checks, or a timeout that is not positive, is refused before anything is
    done; a failure after that marks the group failed and changes nothing else of
    the communicator; a collective that returns leaves the communicator as it was. *)
Theorem allreduce_outcome tensor timeout s :
  let c := s_comm s in
  (usable c = false → _allreduce_tensor cfg tensor timeout s = (Raise AllReduceError, s)) ∧
  (usable c = true → ∀ e, tensor_checks cfg tensor = Raise e →
     _allreduce_tensor cfg tensor timeout s = (Raise e, s)) ∧
  (usable c = true → is_Ok (tensor_checks cfg tensor) →
     match _allreduce_tensor cfg tensor timeout s with
     | (Ok _, s') => s_comm s' = c ∧ is_Ok (_seconds timeout (g_timeout c))
     | (Raise e, s') => is_Exception e = true →
         s_comm s' = match _seconds timeout (g_timeout c) with
                     | Ok _ => set_failed c
                     | Raise _ => c
                     end
     end).
Proof.
  cbv zeta. unfold _allreduce_tensor, usable. set (c := s_comm s).
  assert (∀ (f : Comm → M (St W) unit), (comm ≫= f) s = f c s) as Hcomm by done.
  rewrite Hcomm. split_and!.
  - destruct (g_closed c); [done|]. destruct (g_uuid c); [|done].
    rewrite bool_decide_eq_true_2, bool_decide_eq_false_2 by done. cbn [negb andb orb].
    destruct (Z.leb_spec (g_size c) 0); [done|]. rewrite (proj2 (Z.ltb_lt _ _)) by lia.
    by destruct (g_failed c).
  - intros Hu e He. destruct (g_closed c), (g_failed c), (g_uuid c); try (cbn in Hu; lia || done).
    rewrite (bool_decide_eq_false_2 (Some _ = None)) by done.
    rewrite (proj2 (Z.leb_gt _ _)) by lia. cbn [orb]. by rewrite He.
  - intros Hu [[[[count dtype] itemsize] ptr] Hok].
    destruct (g_closed c), (g_failed c), (g_uuid c); try (cbn in Hu; lia || done).
    rewrite (bool_decide_eq_false_2 (Some _ = None)) by done.
    rewrite (proj2 (Z.leb_gt _ _)) by lia. cbn [orb]. rewrite Hok.
    enough (wp (t ← monotonic; seconds ← lift (_seconds timeout (g_timeout c));
       on_exception (allreduce_body cfg c count dtype itemsize ptr (t + seconds))
         (update set_failed))
      (λ _ s', s_comm s' = c ∧ is_Ok (_seconds timeout (g_timeout c)))
      (λ e s', is_Exception e = true →
         s_comm s' = match _seconds timeout (g_timeout c) with
                     | Ok _ => set_failed c | Raise _ => c end) s) as Hwp.
    { unfold wp in Hwp. rewrite lift_ok. cbv beta iota.
      lazymatch type of Hwp with match ?x with _ => _ end => by destruct x as [[a|e] s'] end. }
    apply wp_bind, wp_group_clock. intros t s1 H1. apply wp_bind, wp_lift. destruct (_seconds timeout (g_timeout c)) as [sec|e].
    2: { intros _. exact H1. }
    unfold on_exception. apply wp_try_except.
    eapply wp_mono; [apply wp_keeps_comm, keeps_allreduce_body| |].
    + intros [] s2 H2. rewrite H2. split; [exact H1|by eexists].
    + intros e s2 H2. cbv beta. destruct (is_Exception e) eqn:He.
      * apply wp_bind, wp_update, wp_raise. intros _. cbn. by rewrite H2, H1.
      * apply wp_raise. intros ?. congruence.
Qed.

(** * The invariant over any use of a group *)

Inductive GroupOp :=
| OpReconfigure (fuel : nat) (uuid : Z) (ordered : bool) (handles : list str)
    (timeout : option Duration)
| OpAllreduce (tensors : list CudaTensor) (is_sum : bool) (timeout : option Duration)
| OpAbort
| OpClose
| OpSetTimeout (ns : Z).

Definition run_op (op : GroupOp) : M (St W) unit :=
  match op with
  | OpReconfigure fuel uuid ordered handles timeout =>
      reconfigure cfg fuel uuid ordered handles timeout;; mret tt
  | OpAllreduce tensors is_sum timeout => allreduce cfg tensors is_sum timeout
  | OpAbort => abort
  | OpClose => close cfg
  | OpSetTimeout ns => set_timeout ns
  end.

(** An operation that returns, or raises an Exception. *)
Inductive group_step : St W → St W → Prop :=
| group_step_op s op r s' :
    run_op op s = (r, s') → (∀ e, r = Raise e → is_Exception e = true) → group_step s s'.

(** The communicator of a new group. *)
Definition fresh_comm (timeout : Z) : Comm :=
  mk_Comm (-1) 0 None false false [] [] None None [] timeout.

Record GroupInv (c : Comm) : Prop := mk_GroupInv {
  gi_none : g_uuid c = None → g_rank c = -1 ∧ g_size c = 0;
  gi_some : ∀ u, g_uuid c = Some u → u ∈ g_used_uuids c ∧ 0 ≤ g_rank c < g_size c;
  gi_used : NoDup (g_used_uuids c);
  gi_lanes :
    match g_gpunetio c with
    | None => g_outgoing c = [] ∧ g_incoming c = [] ∧ g_next_buffers c = None
    | Some _ => length (g_outgoing c) = Z.to_nat (cf_qps cfg) ∧
                length (g_incoming c) = Z.to_nat (cf_qps cfg) ∧
                is_Some (g_next_buffers c) ∧ 2 ≤ g_size c ∧ g_closed c = false
    end;
}.

Lemma no_lanes_inv c : GroupInv c → GroupInv (no_lanes c).
Proof using. by intros [? ? ? _]. Qed.
Lemma torn_inv c : GroupInv c → GroupInv (torn c).
Proof using. by intros [? ? ? _]. Qed.
Lemma failed_inv c : GroupInv c → GroupInv (set_failed c).
Proof using. by intros [? ? ? ?]. Qed.
Lemma closed_inv c : GroupInv (no_lanes c) → GroupInv (set_closed (no_lanes c)).
Proof using. by intros [? ? ? _]. Qed.
Lemma timeout_inv t c : GroupInv c → GroupInv (set_comm_timeout t c).
Proof using. by intros [? ? ? ?]. Qed.

Lemma formed_inv uuid rank members c c' :
  GroupInv c → g_closed c = false → uuid ∉ g_used_uuids c →
  index_of (cf_handle cfg) members = Some rank →
  Formed cfg uuid rank (Z.of_nat (length members)) c c' → GroupInv c'.
Proof using.
  intros [_ _ Hnd _] Hc Hu Hr [Hrank Hsize Huuid _ Hused Hclosed _ Hone Hring].
  destruct (index_of_range _ _ _ Hr) as [Hrange _]. split.
  - congruence.
  - intros u Hu'. rewrite Huuid in Hu'. injection Hu' as <-. rewrite Hused, Hrank, Hsize.
    split; [by left|done].
  - rewrite Hused. by constructor.
  - destruct (decide (Z.of_nat (length members) = 1)) as [Hn|Hn].
    + by destruct (Hone Hn) as (-> & -> & -> & ->).
    + destruct (Hring Hn) as (Ho & Hi & [x ->] & Hb). split_and!; try done; [lia|congruence].
Qed.

(** An outcome that may only touch the failure flag. *)
Lemma wp_allreduce_comm tensors is_sum timeout s :
  wp (allreduce cfg tensors is_sum timeout) (λ _ s', s_comm s' = s_comm s)
    (λ e s', is_Exception e = true → s_comm s' = s_comm s ∨ s_comm s' = set_failed (s_comm s)) s.
Proof.
  unfold allreduce. destruct tensors as [|t [|]]; try (intros _; by left).
  destruct is_sum; [cbn [negb]|intros _; by left]. unfold _allreduce_tensor.
  apply wp_bind, wp_comm. repeat (case_match; [intros _; by left|]).
  apply wp_bind, wp_lift. destruct (tensor_checks cfg t) as [[[[? ?] ?] ?]|e]; [|intros _; by left].
  apply wp_bind, wp_group_clock. intros now s1 Hk1. apply wp_bind, wp_lift.
  destruct (_seconds _ _) as [sec|e]; [|intros _; by left].
  unfold on_exception. apply wp_try_except.
  eapply wp_mono; [apply wp_keeps_comm, keeps_allreduce_body|intros [] s2 Hk2; congruence|].
  intros e s2 Hk2. cbv beta. destruct (is_Exception e) eqn:He.
  - apply wp_bind, wp_update, wp_raise. intros _. right. cbn. by rewrite Hk2, Hk1.
  - apply wp_raise. congruence.
Qed.

Lemma wp_group_close s :
  wp (close cfg)
    (λ _ s', s_comm s' = s_comm s ∨ s_comm s' = set_closed (no_lanes (s_comm s)))
    (λ e s', is_Exception e = true → s_comm s' = no_lanes (s_comm s)) s.
Proof.
  unfold close. apply wp_bind, wp_comm. destruct (g_closed (s_comm s)); [by left|].
  apply wp_bind. eapply wp_mono; [apply wp_close_lanes| |intros; congruence].
  intros [] s1 H1.
  assert (∀ o (m : M (St W) unit) s0, s_comm s0 = no_lanes (s_comm s) →
    (∀ s0, s_comm s0 = no_lanes (s_comm s) →
       wp m (λ _ s', s_comm s' = s_comm s ∨ s_comm s' = set_closed (no_lanes (s_comm s)))
         (λ e s', is_Exception e = true → s_comm s' = no_lanes (s_comm s)) s0) →
    wp (close_obj o;; m) (λ _ s', s_comm s' = s_comm s ∨ s_comm s' = set_closed (no_lanes (s_comm s)))
      (λ e s', is_Exception e = true → s_comm s' = no_lanes (s_comm s)) s0) as Hstep.
  { intros o m s0 H0 Hm. apply wp_bind. eapply wp_mono; [apply wp_keeps_comm, keeps_close_obj| |].
    - intros [] s2 H2. apply Hm. by rewrite H2.
    - intros e s2 H2 _. by rewrite H2. }
  unfold Mr_close. repeat (apply Hstep; [done|intros ? ?]).
  apply wp_update. right. cbn. congruence.
Qed.

Lemma wp_abort s :
  wp abort (λ _ s', s_comm s' = s_comm s ∨ s_comm s' = torn (s_comm s))
    (λ e _, is_Exception e = false) s.
Proof.
  unfold abort. apply wp_bind, wp_comm. destruct (g_closed (s_comm s)); [by left|].
  apply wp_bind. eapply wp_mono; [apply wp_close_lanes| |done].
  intros [] s1 H1. apply wp_update. right. cbn. by rewrite H1.
Qed.

Lemma group_step_inv s s' : group_step s s' → GroupInv (s_comm s) → GroupInv (s_comm s').
Proof.
  intros [s0 op r s1 Hrun Hexc] HI.
  enough (wp (run_op op) (λ _ s', GroupInv (s_comm s'))
    (λ e s', is_Exception e = true → GroupInv (s_comm s')) s0) as Hwp.
  { unfold wp in Hwp. rewrite Hrun in Hwp. destruct r as [[]|e]; [done|]. by apply Hwp, Hexc. }
  destruct op as [fuel uuid ordered handles timeout|tensors is_sum timeout| | |ns]; cbn [run_op].
  - unfold reconfigure. apply wp_bind, wp_bind.
    eapply wp_mono; [apply wp_reconfigure| |].
    + intros [rank|] s2 Hp; apply wp_ret, wp_ret; [|rewrite Hp; by apply torn_inv].
      destruct Hp as (Hc & Hu & members & _ & Hr & Hf). by eapply formed_inv.
    + intros e s2 Hp He. destruct (Hp He) as [-> | ->]; [done|by apply torn_inv].
  - eapply wp_mono; [apply wp_allreduce_comm| |].
    + by intros [] s2 ->.
    + intros e s2 Hp He. destruct (Hp He) as [-> | ->]; [done|by apply failed_inv].
  - eapply wp_mono; [apply wp_abort| |].
    + intros [] s2 [-> | ->]; [done|by apply torn_inv].
    + intros; congruence.
  - eapply wp_mono; [apply wp_group_close| |].
    + intros [] s2 [-> | ->]; [done|by apply closed_inv, no_lanes_inv].
    + intros e s2 Hp He. rewrite (Hp He). by apply no_lanes_inv.
  - apply wp_update. cbn. by apply timeout_inv.
Qed.

(** C4: the invariant of a group.  After any sequence of reconfigurations,
    collectives, aborts, timeout changes and closes of a new group, successful or
    not: the rank is in range exactly when a uuid is set; every uuid was used at
    most once; and the lanes are all there, exported, with the next rank's buffers,
    for a ring of two or more, or none is. *)
Theorem group_invariant timeout env s :
  rtc group_step (mk_St (fresh_comm timeout) env) s → GroupInv (s_comm s).
Proof.
  assert (GroupInv (s_comm (mk_St (fresh_comm timeout) env))) as H0.
  { split; cbn; try done. constructor. }
  intros Hsteps. revert H0. induction Hsteps as [|s1 s2 s3 Hstep _ IH]; [done|].
  intros H1. by eapply IH, group_step_inv.
Qed.
End Group.
