(* ===== verification/Agreement.v ===== *)
(** The members of a communicator agree on its ring: what [order_members] computes
    from the handles does not depend on the member that computes it, so each
    rank's next is the rank whose previous it is. *)

From S2P Require Import Prelude Json Handles ProcessGroup.
#[local] Open Scope Z_scope.

(** * The order of strings *)

Lemma str_le_refl a : str_le a a = true.
Proof. induction a as [|x a IH]; [done|]. cbn. rewrite Z.eqb_refl, IH. lia. Qed.

Lemma str_le_trans a b c : str_le a b = true → str_le b c = true → str_le a c = true.
Proof.
  revert b c. induction a as [|x a IH]; [done|]. intros [|y b] [|z c]; cbn; try done.
  intros Hab Hbc. destruct (str_le a b) eqn:Eab, (str_le b c) eqn:Ebc;
    try rewrite (IH b c Eab Ebc); lia.
Qed.

Lemma str_le_total a b : str_le a b = true ∨ str_le b a = true.
Proof.
  revert b. induction a as [|x a IH]; [by left|]. intros [|y b]; [by right|]. cbn.
  destruct (IH b) as [-> | ->]; lia.
Qed.

Lemma str_le_antisym a b : str_le a b = true → str_le b a = true → a = b.
Proof.
  revert b. induction a as [|x a IH]; intros [|y b]; cbn; try done. intros Hab Hba.
  assert (x = y) as -> by lia. f_equal. apply IH; lia.
Qed.

(** * The order of members *)

(** The stable ranks that groups publish are integers. *)
Definition int_rank (m : Member) : Prop := ∃ z, m_stable_rank m = JInt z.

Definition member_le (x y : Member) : Prop := member_lt y x = false.

Lemma member_lt_int x y a b :
  m_stable_rank x = JInt a → m_stable_rank y = JInt b →
  member_lt x y = if a =? b then negb (str_le (m_raw y) (m_raw x)) else a <? b.
Proof.
  intros Hx Hy. unfold member_lt. rewrite Hx, Hy. cbn [json_num].
  unfold num_eq, num_lt, num_compare. rewrite Z.min_id, Z.sub_diag, !Z.mul_1_r.
  destruct (Z.compare_spec a b); destruct (Z.eqb_spec a b), (Z.ltb_spec a b); done || lia.
Qed.

Lemma member_le_trans x y z :
  int_rank x → int_rank y → int_rank z → member_le x y → member_le y z → member_le x z.
Proof.
  unfold member_le. intros [a Ha] [b Hb] [c Hc].
  rewrite (member_lt_int y x b a), (member_lt_int z y c b), (member_lt_int z x c a) by done.
  destruct (str_le (m_raw x) (m_raw y)) eqn:Exy, (str_le (m_raw y) (m_raw z)) eqn:Eyz;
    try rewrite (str_le_trans _ _ _ Exy Eyz); repeat case_match; lia.
Qed.

Lemma member_le_total x y : int_rank x → int_rank y → member_le x y ∨ member_le y x.
Proof.
  unfold member_le. intros [a Ha] [b Hb].
  rewrite (member_lt_int y x b a), (member_lt_int x y a b) by done.
  destruct (str_le_total (m_raw x) (m_raw y)) as [-> | ->]; repeat case_match; lia.
Qed.

Lemma member_le_antisym x y :
  int_rank x → int_rank y → member_le x y → member_le y x → m_raw x = m_raw y.
Proof.
  unfold member_le. intros [a Ha] [b Hb].
  rewrite (member_lt_int y x b a), (member_lt_int x y a b) by done.
  intros H1 H2. apply str_le_antisym; repeat case_match; lia.
Qed.

Lemma insert_member_perm x l : insert_member x l ≡ₚ x :: l.
Proof.
  induction l as [|y l IH]; [done|]. cbn. case_match; [|done]. rewrite IH. constructor.
Qed.

Lemma sort_members_perm l : sort_members l ≡ₚ l.
Proof. induction l as [|x l IH]; [done|]. cbn. by rewrite insert_member_perm, IH. Qed.

Lemma insert_member_sorted x l :
  int_rank x → Forall int_rank l → StronglySorted member_le l →
  StronglySorted member_le (insert_member x l).
Proof.
  intros Hx Hl Hs. induction Hs as [|y l Hs IH Hy]; [by repeat constructor|].
  apply Forall_cons in Hl as [Hyi Hl]. cbn. destruct (member_lt y x) eqn:Hlt.
  - constructor; [by apply IH|]. rewrite insert_member_perm. constructor; [|done].
    destruct (member_le_total x y Hx Hyi) as [Hle|Hle]; [|done].
    unfold member_le in Hle. congruence.
  - constructor; [by constructor|]. constructor; [done|].
    rewrite Forall_forall in Hy, Hl |- *. intros z Hz. eapply (member_le_trans x y z); auto.
Qed.

Lemma sort_members_sorted l : Forall int_rank l → StronglySorted member_le (sort_members l).
Proof.
  induction 1 as [|x l Hx Hl IH]; [constructor|]. cbn. apply insert_member_sorted; [done| |done].
  by rewrite sort_members_perm.
Qed.

(** * Decoding a list of handles *)

Section Order.
Context `{!PyText}.

Lemma mapM_lookup {A B} (f : A → result B) l l' :
  mapM_result f l = Ok l' ↔ Forall2 (λ x y, f x = Ok y) l l'.
Proof.
  revert l'. induction l as [|x l IH]; intros l'; cbn.
  - split; [intros [= <-]; constructor|]. by inversion 1.
  - destruct (f x) as [y|] eqn:Hf; cbn.
    2: { split; [done|]. inversion 1. congruence. }
    destruct (mapM_result f l) as [ys|] eqn:Hm; cbn.
    + split; [intros [= <-]; constructor; [done|by apply IH]|].
      inversion 1 as [|? ? ? ? H1 H2]; subst. apply IH in H2. congruence.
    + split; [done|]. inversion 1 as [|? ? ? ? H1 H2]; subst. apply IH in H2. congruence.
Qed.

Lemma mapM_perm {A B} (f : A → result B) l1 l2 m1 m2 :
  l1 ≡ₚ l2 → mapM_result f l1 = Ok m1 → mapM_result f l2 = Ok m2 → m1 ≡ₚ m2.
Proof.
  intros Hp. rewrite !mapM_lookup. revert m1 m2.
  induction Hp as [|x l1 l2 Hp IH|x y l|l1 l2 l3 Hp1 IH1 Hp2 IH2]; intros m1 m2 H1 H2.
  - inversion H1; inversion H2; done.
  - inversion H1 as [|? ? ? ? Hx Hl]; inversion H2 as [|? ? ? ? Hx' Hl']; subst.
    rewrite Hx in Hx'. injection Hx' as <-. by apply Permutation_skip, IH.
  - inversion H1 as [|? ? ? ? Hy Hl1]; subst. inversion Hl1 as [|? ? ? ? Hx Hl2]; subst.
    inversion H2 as [|? ? ? ? Hx' Hl3]; subst. inversion Hl3 as [|? ? ? ? Hy' Hl4]; subst.
    rewrite Hx in Hx'. rewrite Hy in Hy'. injection Hx' as <-. injection Hy' as <-.
    apply mapM_lookup in Hl2, Hl4. rewrite Hl2 in Hl4. injection Hl4 as <-. constructor.
  - assert (∃ m, Forall2 (λ x y, f x = Ok y) l2 m) as [m Hm].
    { clear -H1 Hp1. revert m1 H1. induction Hp1 as [|x l l' _ IH|x y l|l l' l'' _ IH1 _ IH2];
        intros m1 H1.
      - by exists [].
      - inversion H1 as [|? ? ? ? Hx Hl]; subst. destruct (IH _ Hl) as [m Hm].
        eexists. by constructor.
      - inversion H1 as [|? ? ? ? Hy Hl1]; subst. inversion Hl1; subst. eexists. by repeat constructor.
      - destruct (IH1 _ H1) as [m Hm]. by eapply IH2. }
    transitivity m; [by apply IH1|by apply IH2].
Qed.

Lemma decode_handle_raw handle m : _decode_handle handle = Ok m → m_raw m = handle.
Proof.
  unfold _decode_handle. case_bool_decide; [|done]. cbn [negb].
  destruct (decode_member handle) as [m'|e] eqn:Hm; [|by case_bool_decide].
  apply decode_member_raw in Hm. cbv [mbind result_bind].
  destruct (member_invalid m') as [[|]|]; try done.
  destruct (fromhex _) as [|[]]; try done. by intros [= <-].
Qed.

Lemma mapM_raws handles members :
  mapM_result _decode_handle handles = Ok members → m_raw <$> members = handles.
Proof.
  rewrite mapM_lookup. induction 1 as [|h m hs ms Hm _ IH]; [done|].
  rewrite fmap_cons, IH. f_equal. by apply decode_handle_raw.
Qed.

(** What [order_members] accepts. *)
Lemma order_members_inv cfg ordered handles members :
  order_members cfg ordered handles = Ok members →
  NoDup handles ∧ ∃ decoded, mapM_result _decode_handle handles = Ok decoded ∧
    members = (if ordered then decoded else sort_members decoded) ∧
    check_members cfg members = Ok tt ∧ has_equal (json_num ∘ m_stable_rank <$> members) = false.
Proof.
  unfold order_members. destruct (length handles =? 0)%nat; [done|].
  case_bool_decide as Hnd; [|done]. cbn [negb].
  destruct (mapM_result _decode_handle handles) as [decoded|]; [|done]. cbv [mbind result_bind].
  set (ms := if ordered then _ else _). destruct (_ =? 1)%nat; [|done]. cbn [negb].
  destruct (has_equal _) eqn:Hr; [done|]. destruct (check_members cfg ms) as [[]|] eqn:Hc; [|done].
  intros [= <-]. split; [done|]. by exists decoded.
Qed.

Lemma order_members_raws cfg ordered handles members :
  order_members cfg ordered handles = Ok members → m_raw <$> members ≡ₚ handles.
Proof.
  intros (_ & ds & Hd & -> & _)%order_members_inv. apply mapM_raws in Hd. rewrite <- Hd.
  destruct ordered; [done|]. by rewrite sort_members_perm.
Qed.

(** Members with distinct handles, sorted, are determined by their set. *)
Lemma sorted_unique l1 l2 :
  Forall int_rank l1 → NoDup (m_raw <$> l1) → StronglySorted member_le l1 →
  StronglySorted member_le l2 → l1 ≡ₚ l2 → l1 = l2.
Proof using.
  intros Hint Hnd Hs1 Hs2 Hp.
  apply (StronglySorted_unique_strong member_le); [|done..].
  intros x y Hx Hy Hxy Hyx. rewrite <- Hp in Hy. rewrite Forall_forall in Hint.
  assert (m_raw x = m_raw y) as Hraw by (apply member_le_antisym; auto).
  apply list_elem_of_lookup in Hx as [i Hi]. apply list_elem_of_lookup in Hy as [j Hj].
  assert (i = j) as <-; [|congruence].
  eapply (NoDup_lookup (m_raw <$> l1)); [done|..]; rewrite list_lookup_fmap.
  - by rewrite Hi.
  - by rewrite Hj, Hraw.
Qed.

(** The member at the position of a handle. *)
Lemma index_of_lookup members handle rank :
  NoDup (m_raw <$> members) →
  index_of handle members = Some rank ↔
    0 ≤ rank ∧ ∃ m, members !! Z.to_nat rank = Some m ∧ m_raw m = handle.
Proof using.
  intros Hnd. revert rank. induction members as [|m members IH]; intros rank; cbn [index_of].
  - split; [done|]. by intros (_ & m & Hm & _).
  - rewrite fmap_cons in Hnd. apply NoDup_cons in Hnd as [Hm Hnd]. specialize (IH Hnd).
    case_bool_decide as Heq.
    + split.
      * intros [= <-]. split; [lia|]. by exists m.
      * intros (Hr & m' & Hm' & Hraw). f_equal. destruct (Z.to_nat rank) as [|n] eqn:Hn; [lia|].
        destruct Hm. rewrite Heq, <- Hraw. apply list_elem_of_fmap. exists m'.
        split; [done|]. by eapply list_elem_of_lookup_2.
    + rewrite fmap_Some. split.
      * intros (r & Hr & ->). apply IH in Hr as (Hr & m' & Hm' & Hraw). split; [lia|].
        exists m'. by replace (Z.to_nat (Z.succ r)) with (S (Z.to_nat r)) by lia.
      * intros (Hr & m' & Hm' & Hraw). destruct (Z.to_nat rank) as [|n] eqn:Hn.
        { cbn in Hm'. congruence. }
        exists (rank - 1). split; [|lia]. apply IH. split; [lia|]. exists m'.
        by replace (Z.to_nat (rank - 1)) with n by lia.
Qed.

(** C1: the members agree on the ring.  Two groups that are given the same handles
    (in the same order, or in any order and collection when ranks come from the
    stable ranks) and accept them compute the same list of members; their ranks are
    in range and differ; and the group whose rank follows is the next member of
    the other, which is its previous member. *)
Theorem ring_agreement ordered cfg_a cfg_b handles_a handles_b members_a members_b a b :
  order_members cfg_a ordered handles_a = Ok members_a →
  order_members cfg_b ordered handles_b = Ok members_b →
  (if ordered then handles_a = handles_b else handles_a ≡ₚ handles_b) →
  (ordered = false → Forall int_rank members_a) →
  cf_handle cfg_a ≠ cf_handle cfg_b →
  index_of (cf_handle cfg_a) members_a = Some a →
  index_of (cf_handle cfg_b) members_b = Some b →
  let n := Z.of_nat (length members_a) in
  members_a = members_b ∧ 0 ≤ a < n ∧ 0 ≤ b < n ∧ a ≠ b ∧
  (b = (a + 1) `mod` n →
    m_raw <$> members_a !! Z.to_nat ((a + 1) `mod` n) = Some (cf_handle cfg_b) ∧
    m_raw <$> members_b !! Z.to_nat ((b - 1) `mod` n) = Some (cf_handle cfg_a)).
Proof.
  intros Ha Hb Hsame Hint Hne Hia Hib n.
  assert (NoDup (m_raw <$> members_a)) as Hnd.
  { rewrite (order_members_raws _ _ _ _ Ha). by apply order_members_inv in Ha as [? _]. }
  assert (members_a = members_b) as <-.
  { pose proof (order_members_inv _ _ _ _ Ha) as (_ & da & Hda & Hma & _).
    pose proof (order_members_inv _ _ _ _ Hb) as (_ & db & Hdb & Hmb & _).
    destruct ordered; [congruence|]. specialize (Hint eq_refl).
    assert (Forall int_rank da) as Hint_a
      by (rewrite Hma in Hint; by rewrite <- (sort_members_perm da)).
    pose proof (mapM_perm _ _ _ _ _ Hsame Hda Hdb) as Hp. apply sorted_unique; [done..| | |].
    - rewrite Hma. by apply sort_members_sorted.
    - rewrite Hmb. apply sort_members_sorted. by rewrite <- Hp.
    - by rewrite Hma, Hmb, !sort_members_perm. }
  destruct (index_of_range _ _ _ Hia) as [Hra (ma & Hma & Hrawa)].
  destruct (index_of_range _ _ _ Hib) as [Hrb (mb & Hmb & Hrawb)].
  split; [done|]. split; [done|]. split; [done|]. split; [intros ->; congruence|].
  intros Hnext. rewrite <- Hnext. split; [by rewrite Hmb; cbn; rewrite Hrawb|].
  replace ((b - 1) `mod` n) with a; [by rewrite Hma; cbn; rewrite Hrawa|].
  rewrite Hnext, Zminus_mod_idemp_l. replace (a + 1 - 1) with a by lia.
  symmetry. by apply Z.mod_small.
Qed.
End Order.
