(* ===== verification/GroupResources.v ===== *)
(** The objects of a process group are closed: every queue pair, completion queue,
    exported queue, CUDA allocation, memory region and socket that a
    reconfiguration creates is, when it returns or raises, either owned by the
    communicator or has had [close] called on it. *)

From S2P Require Import Prelude Bytes Verbs Helpers Json Stream Handles ProcessGroup.
#[local] Open Scope Z_scope.

(** Closing succeeds, CUDA addresses are not null, and reading from a socket fails
    with an OSError: the behaviour the cleanups rely on. *)
Class CloseLaws (W : Type) `{!GroupDevice W} `{!SockRecv obj W} := {
  close_ok : ∀ o w, (dv_close o w).1 = Ok tt;
  free_ok : ∀ p w, (dv_mem_free p w).1 = 0;
  alloc_not_null : ∀ n w, (dv_mem_alloc n w).1.1 = 0 → (dv_mem_alloc n w).1.2 ≠ 0;
  recv_os_error : ∀ s n w e, (sock_recv s n w).1 = Raise e → is_Exception e = true →
    is_OSError e = true;
}.

(** The port and the queue pairs answer queries, with values in the ranges of the
    InfiniBand fields. *)
Class PortAnswers (W : Type) `{!GroupDevice W} := {
  port_answers : ∀ p w, ∃ lid mtu, (dv_port p w).1 = Ok (lid, mtu) ∧
    0 ≤ lid ≤ 0xFFFF ∧ 1 ≤ mtu ≤ 5;
  gid_answers : ∀ p i w, ∃ g, (dv_gid p i w).1 = Ok g ∧ length g = 16%nat;
  qp_num_range : ∀ o w, 0 ≤ dv_qp_num o w ≤ 0xFFFFFF;
}.

(** ** What an object's owner holds *)

Definition lane_objs (lanes : list Lane) : list obj := l ← lanes; [ln_qp l; ln_cq l].
Definition export_objs (l : list DeviceQP) : list obj := dq_obj <$> l.
Definition alloc_objs (l : list Alloc) : list obj := al_obj <$> l.

Definition state_objs (g : GpuNetIOState) : list obj :=
  export_objs (gs_outgoing g ++ gs_incoming g)
  ++ alloc_objs [gs_status g; gs_incoming_pointers g; gs_outgoing_pointers g]
  ++ [mr_obj (gs_signal_mr g)].

(** The objects of a communicator. *)
Definition comm_objs (c : Comm) : list obj :=
  match g_gpunetio c with Some g => state_objs g | None => [] end
  ++ lane_objs (g_outgoing c ++ g_incoming c).

(** Allocations the group holds are not null. *)
Definition allocs_ok (l : list Alloc) : Prop := Forall (λ a, al_ptr a ≠ 0) l.
Definition state_ok (g : GpuNetIOState) : Prop :=
  allocs_ok [gs_status g; gs_incoming_pointers g; gs_outgoing_pointers g].
Definition comm_ok (c : Comm) : Prop :=
  match g_gpunetio c with Some g => state_ok g | None => True end.

Section Resources.
Context `{!PyText} {W : Type} `{!GroupDevice W} `{!Clock W} `{!SockRecv obj W} `{!RcQp obj W}.
Context (cfg : Config).
Implicit Types s : St W.
Implicit Types l : list obj.

(** The open objects are [l], and their numbers were given out. *)
Record owns l s : Prop := mk_owns {
  ow_perm : e_open (s_env s) ≡ₚ l;
  ow_nodup : NoDup l;
  ow_fresh : Forall (λ o, (o_id o < e_fresh (s_env s))%nat) l;
}.

(** Only an Exception says what is left open. *)
Definition left_open l : exn → St W → Prop := λ e s, is_Exception e = true → owns l s.

Lemma owns_perm l l' s : owns l s → l ≡ₚ l' → owns l' s.
Proof using. intros [H1 H2 H3] Hp. split; by rewrite <- Hp. Qed.

(** Calls that open and close nothing. *)
Definition same_open : relation (St W) := λ s s',
  e_open (s_env s') = e_open (s_env s) ∧ e_fresh (s_env s') = e_fresh (s_env s).
#[local] Instance same_open_preorder : PreOrder same_open.
Proof using.
  split; [done|]. intros s1 s2 s3 [H1 H2] [H3 H4]. unfold same_open. by rewrite H3, H4.
Qed.

Lemma opens_call {A} (f : W → result A * W) : along same_open (call f).
Proof using. intros s. unfold call, with_world, same_open. by destruct (f _). Qed.
Lemma opens_ask {A} (f : W → A * W) : along same_open (ask f).
Proof using. intros s. unfold ask, with_world, same_open. by destruct (f _). Qed.
Lemma opens_update f : along same_open (update f).
Proof using. done. Qed.
Lemma opens_comm : along same_open comm.
Proof using. done. Qed.
#[local] Hint Resolve opens_call opens_ask opens_update opens_comm : along.

Lemma owns_same l s s' : owns l s → same_open s s' → owns l s'.
Proof using. intros [H1 H2 H3] [Ho Hf]. split; [by rewrite Ho|done|by rewrite Hf]. Qed.

(** A call that opens nothing keeps what is open. *)
Lemma wp_opens {A} (m : M (St W) A) l s :
  along same_open m → owns l s → wp m (λ _, owns l) (left_open l) s.
Proof using.
  intros Hm Hl. eapply wp_mono; [by apply wp_along| |].
  - intros a s'. by apply owns_same.
  - intros e s' Hs _. by eapply owns_same.
Qed.

Lemma wp_ask {A} (f : W → A * W) l s : owns l s → wp (ask f) (λ _, owns l) (λ _ _, False) s.
Proof using. intros []. unfold wp, ask, with_world. by destruct (f _). Qed.

Lemma wp_opened k {A} (f : W → result A * W) l s :
  owns l s → wp (opened k f) (λ oa, owns (oa.1 :: l)) (left_open l) s.
Proof using.
  intros Hl. unfold opened. apply wp_bind.
  eapply wp_mono; [apply wp_opens; [apply opens_call|exact Hl]| |done].
  intros a s1 [Hp Hnd Hfr]. apply wp_bind, wp_get, wp_bind, wp_modify, wp_ret. cbn.
  split; cbn.
  - by rewrite Hp.
  - constructor; [|done]. intros Hin. rewrite Forall_forall in Hfr. apply Hfr in Hin. cbn in Hin. lia.
  - constructor; [cbn; lia|]. eapply Forall_impl; [exact Hfr|]. cbn. lia.
Qed.

Lemma wp_forget o l s E : owns (o :: l) s → wp (forget o) (λ _, owns l) E s.
Proof using.
  intros [Hp Hnd Hfr]. unfold forget. apply wp_modify. cbn.
  apply NoDup_cons in Hnd as [Ho Hnd]. apply Forall_cons in Hfr as [_ Hfr]. split; cbn; try done.
  rewrite Hp. rewrite filter_cons_False by naive_solver.
  assert (filter (.≠ o) l = l) as ->; [|done].
  clear -Ho. induction l as [|x l IH]; [done|].
  rewrite filter_cons_True by set_solver. f_equal. apply IH. set_solver.
Qed.

Context `{!CloseLaws W}.

Definition never : exn → St W → Prop := λ _ _, False.

Lemma wp_close_obj o l s : owns (o :: l) s → wp (close_obj o) (λ _, owns l) never s.
Proof using CloseLaws0.
  intros Hl. unfold close_obj. apply wp_bind. eapply wp_mono; [by apply wp_forget| |done].
  intros [] s1 H1. unfold wp, call, with_world. pose proof (close_ok o (e_world (s_env s1))) as Hok.
  destruct (dv_close _ _) as [r w]. cbn in *. subst r. by destruct H1.
Qed.

Lemma wp_never {A} (m : M (St W) A) Q E s : wp m Q never s → wp m Q E s.
Proof using. intros Hw. by eapply wp_mono. Qed.

(** [m] closes the objects [os], and nothing else. *)
Definition closes (m : M (St W) unit) (os : list obj) : Prop :=
  ∀ l s, owns (os ++ l) s → wp m (λ _, owns l) never s.

Lemma closes_perm m os os' : closes m os → os ≡ₚ os' → closes m os'.
Proof using. intros Hm Hp l s Hl. apply Hm. eapply owns_perm; [exact Hl|]. by rewrite Hp. Qed.

Lemma closes_obj o : closes (close_obj o) [o].
Proof using CloseLaws0. intros l s. apply wp_close_obj. Qed.

Lemma closes_ret : closes (mret tt) [].
Proof using. intros l s Hl. exact Hl. Qed.

Lemma closes_seq m m' os os' : closes m os → closes m' os' → closes (m;; m') (os ++ os').
Proof using.
  intros Hm Hm' l s Hl. rewrite <- app_assoc in Hl. apply wp_bind.
  eapply wp_mono; [by apply Hm|intros []; apply Hm'|done].
Qed.

Lemma closes_swallow m os : closes m os → closes (swallow m) os.
Proof using.
  intros Hm l s Hl. unfold swallow. apply wp_try_except. eapply wp_mono; [by apply Hm|done|].
  intros ?? [].
Qed.

Lemma closes_for_each {A} (f : A → M (St W) unit) (objs : A → list obj) xs :
  (∀ x, x ∈ xs → closes (f x) (objs x)) → closes (for_each f xs) (x ← xs; objs x).
Proof using.
  induction xs as [|x xs IH]; intros Hf; [apply closes_ret|].
  rewrite bind_cons. apply closes_seq; [apply Hf; by left|].
  apply IH. intros y Hy. apply Hf. by right.
Qed.

Lemma closes_sockets socks : closes (for_each close_obj socks) socks.
Proof using CloseLaws0.
  eapply closes_perm; [apply (closes_for_each _ (λ o, [o])); intros; apply closes_obj|].
  induction socks as [|o socks IH]; [done|]. rewrite bind_cons, IH. done.
Qed.

Lemma closes_lane lane : closes (Lane_close lane) [ln_qp lane; ln_cq lane].
Proof using CloseLaws0. apply (closes_seq _ _ [_] [_]); apply closes_obj. Qed.

Lemma lane_objs_app out inc : lane_objs (out ++ inc) = lane_objs out ++ lane_objs inc.
Proof using. apply bind_app. Qed.
Lemma lane_objs_reverse lanes : lane_objs (reverse lanes) ≡ₚ lane_objs lanes.
Proof using. unfold lane_objs. by rewrite reverse_Permutation. Qed.

Lemma closes_lane_list lanes : closes (close_lane_list (reverse lanes)) (lane_objs lanes).
Proof using CloseLaws0.
  eapply closes_perm; [|apply lane_objs_reverse]. unfold close_lane_list, lane_objs.
  apply closes_for_each. intros lane _. apply closes_swallow, closes_lane.
Qed.

Lemma closes_alloc a : al_ptr a ≠ 0 → closes (CudaAllocation_close a) [al_obj a].
Proof using CloseLaws0.
  intros Ha l s Hl. unfold CudaAllocation_close. rewrite (proj2 (Z.eqb_neq _ _)) by done.
  apply wp_bind. eapply wp_mono; [by apply wp_forget| |done].
  intros [] s1 H1. unfold wp, mbind, M_bind, ask, with_world.
  pose proof (free_ok (al_ptr a) (e_world (s_env s1))) as Hok.
  destruct (dv_mem_free _ _) as [r w]. cbn in *. subst r. by destruct H1.
Qed.

(** Closing all, whatever fails. *)
Lemma wp_collect_all ms oss l s :
  Forall2 closes ms oss → owns (concat oss ++ l) s →
  wp (collect_all None ms) (λ e s', e = None ∧ owns l s') never s.
Proof using.
  intros Hms. revert s. induction Hms as [|m os ms oss Hm _ IH]; intros s Hl; [done|].
  cbn [concat] in Hl. rewrite <- app_assoc in Hl. cbn [collect_all]. apply wp_bind.
  unfold collect. apply wp_try_except, wp_bind.
  eapply wp_mono; [by apply Hm| |intros ?? []]. intros [] s1 H1. apply wp_ret. by apply IH.
Qed.

Lemma Forall2_closes {A} (f : A → M (St W) unit) (g : A → obj) xs :
  (∀ x, x ∈ xs → closes (f x) [g x]) → Forall2 closes (f <$> xs) ((λ x, [g x]) <$> xs).
Proof using.
  induction xs as [|x xs IH]; intros Hf; [done|].
  constructor; [apply Hf; by left|]. apply IH. intros y Hy. apply Hf. by right.
Qed.

Lemma concat_singletons {A} (g : A → obj) xs : concat ((λ x, [g x]) <$> xs) = g <$> xs.
Proof using. induction xs as [|x xs IH]; [done|]. cbn. by f_equal. Qed.

Lemma closes_state g : state_ok g → closes (GpuNetIOState_close g) (state_objs g).
Proof using CloseLaws0.
  intros Hg l s Hl. unfold GpuNetIOState_close. apply wp_bind.
  eapply wp_mono; [eapply wp_collect_all with (l := l)| |intros ?? []].
  - apply Forall2_app; [|apply Forall2_app].
    + apply (Forall2_closes _ dq_obj). intros d _. apply closes_obj.
    + apply (Forall2_closes _ al_obj). intros a Ha. apply closes_alloc.
      unfold state_ok, allocs_ok in Hg. rewrite Forall_forall in Hg. by apply Hg.
    + apply (Forall2_closes _ mr_obj [gs_signal_mr g]). intros m _. apply closes_obj.
  - eapply owns_perm; [exact Hl|]. rewrite !concat_app, !concat_singletons. unfold state_objs.
    by rewrite reverse_Permutation.
  - intros e s1 [-> H1]. exact H1.
Qed.

Lemma closes_close_lanes l s :
  comm_ok (s_comm s) → owns (comm_objs (s_comm s) ++ l) s →
  wp _close_lanes (λ _, owns l) never s.
Proof using CloseLaws0.
  unfold comm_ok, comm_objs. intros Hok Hl. rewrite <- app_assoc in Hl. unfold _close_lanes.
  apply wp_bind, wp_comm, wp_bind.
  set (L := lane_objs (g_outgoing (s_comm s) ++ g_incoming (s_comm s)) ++ l) in *.
  eapply wp_mono with (λ _, owns L) never; [| |done].
  - destruct (g_gpunetio (s_comm s)) as [g|]; [|done]. apply wp_bind.
    eapply wp_mono; [apply (closes_swallow _ (state_objs g)); [by apply closes_state|exact Hl]| |done].
      intros [] s1 H1. by destruct H1.
  - intros [] s1 H1. apply wp_bind.
    eapply wp_mono; [by eapply closes_lane_list| |done]. intros [] s2 H2. by destruct H2.
Qed.

(** A statement whose failure is cleaned up. *)
Lemma wp_on_exception {A} (m : M (St W) A) cleanup Q os l s :
  closes cleanup os → wp m Q (left_open (os ++ l)) s →
  wp (on_exception m cleanup) Q (left_open l) s.
Proof using.
  intros Hc Hm. unfold on_exception. apply wp_try_except. eapply wp_mono; [exact Hm|done|].
  intros e s' Hl. cbv beta. destruct (is_Exception e) eqn:He.
  - apply wp_bind. eapply wp_mono; [apply Hc, Hl, He| |by intros ?? []].
    intros [] s2 H2. apply wp_raise. by intros _.
  - apply wp_raise. intros ?. congruence.
Qed.

(** ** What the parts of a reconfiguration open *)

Lemma wp_create_lane l s :
  owns l s →
  wp (create_lane cfg) (λ lane, owns ([ln_qp lane; ln_cq lane] ++ l)) (left_open l) s.
Proof using CloseLaws0.
  intros Hl. unfold create_lane. apply wp_bind.
  eapply wp_mono; [by apply wp_opened| |done]. intros cq s1 H1. apply wp_bind.
  eapply wp_mono with (λ qp, owns (qp.1 :: [cq.1] ++ l)) _;
    [|intros qp s2 H2; apply wp_ret; exact H2|done].
  apply (wp_on_exception _ _ _ [cq.1]); [apply closes_obj|]. by apply wp_opened.
Qed.

Lemma closes_lanes_reverse lanes : closes (for_each Lane_close (reverse lanes)) (lane_objs lanes).
Proof using CloseLaws0.
  eapply closes_perm; [|apply lane_objs_reverse]. apply closes_for_each. intros. apply closes_lane.
Qed.

Lemma wp_create_lanes_own l s :
  owns l s →
  wp (_create_lanes cfg) (λ r, owns (lane_objs (r.1 ++ r.2) ++ l)) (left_open l) s.
Proof using CloseLaws0.
  intros Hl. unfold _create_lanes.
  assert (∀ todo outgoing incoming s, owns (lane_objs (outgoing ++ incoming) ++ l) s →
    wp (create_lanes_loop cfg todo outgoing incoming)
      (λ r, owns (lane_objs (r.1 ++ r.2) ++ l)) (left_open l) s) as Hloop.
  2: by apply (Hloop _ [] []).
  clear s Hl. intros todo. induction todo as [|out todo IH]; intros outgoing incoming s Hl; [done|].
  cbn [create_lanes_loop]. apply wp_bind.
  eapply wp_mono; [apply (wp_on_exception _ _ _ (lane_objs (outgoing ++ incoming)));
    [apply closes_lanes_reverse|by apply wp_create_lane]| |done].
  intros lane s1 H1. destruct out; apply IH; (eapply owns_perm; [exact H1|]);
    rewrite !lane_objs_app; change (lane_objs [lane]) with [ln_qp lane; ln_cq lane];
    solve_Permutation.
Qed.

(** The objects held while exporting. *)
Definition export_held (x : Exporting) : list obj :=
  match ex_signal_mr x with Some m => [mr_obj m] | None => [] end
  ++ alloc_objs (ex_allocations x) ++ export_objs (ex_outgoing x ++ ex_incoming x).

Lemma closes_list {A} (f : A → M (St W) unit) (g : A → obj) xs :
  (∀ x, x ∈ xs → closes (f x) [g x]) →
  closes (for_each (λ x, swallow (f x)) (reverse xs)) (g <$> xs).
Proof using.
  intros Hf. eapply closes_perm.
  - apply (closes_for_each _ (λ x, [g x])). intros x Hx. apply closes_swallow, Hf.
    by rewrite elem_of_reverse in Hx.
  - rewrite reverse_Permutation. clear Hf. induction xs as [|x xs IH]; [done|].
    by rewrite bind_cons, IH.
Qed.

Lemma closes_export x : allocs_ok (ex_allocations x) → closes (export_cleanup x) (export_held x).
Proof using CloseLaws0.
  intros Hok. unfold export_cleanup, export_held.
  apply closes_seq.
  { destruct (ex_signal_mr x); [apply closes_swallow, closes_obj|apply closes_ret]. }
  apply closes_seq; apply closes_list.
  - intros a Ha. apply closes_alloc. unfold allocs_ok in Hok. rewrite Forall_forall in Hok. by apply Hok.
  - intros d _. apply closes_obj.
Qed.

Lemma wp_guarded {A} x (m : M (St W) A) Q l s :
  allocs_ok (ex_allocations x) → wp m Q (left_open (export_held x ++ l)) s →
  wp (guarded x m) Q (left_open l) s.
Proof using CloseLaws0. intros Hx. by apply wp_on_exception, closes_export. Qed.

(** What an opening call returned. *)
Lemma wp_opened_value k {A} (f : W → result A * W) s :
  wp (opened k f) (λ oa _, ∃ w, (f w).1 = Ok oa.2) (λ _ _, True) s.
Proof using.
  unfold opened. apply wp_bind. unfold wp at 1, call, with_world.
  destruct (f (e_world (s_env s))) as [[a|e] w] eqn:Hf; [|done].
  apply wp_bind, wp_get, wp_bind, wp_modify, wp_ret. eexists. cbn. by rewrite Hf.
Qed.

Lemma wp_alloc n l s :
  owns l s →
  wp (CudaAllocation_init n) (λ a s', al_ptr a ≠ 0 ∧ owns (al_obj a :: l) s') (left_open l) s.
Proof using CloseLaws0.
  intros Hl. unfold CudaAllocation_init. apply wp_bind, wp_guard_raise.
  destruct (n <=? 0); [by intros _|]. apply wp_bind.
  eapply wp_mono; [apply wp_conj; [by apply wp_opened|apply wp_opened_value]| |by intros ?? []].
  intros oa s1 [H1 [w Hw]]. apply wp_ret. split; [|exact H1].
  pose proof (alloc_not_null n w) as Hnn. destruct (dv_mem_alloc n w) as [[status ptr] w'].
  cbn in *. destruct (Z.eqb_spec status 0); [|done]. injection Hw as <-. by apply Hnn.
Qed.

Lemma wp_export_lanes lanes x l s :
  allocs_ok (ex_allocations x) → owns (export_held x ++ l) s →
  wp (export_outgoing lanes x)
    (λ x' s', (ex_allocations x' = ex_allocations x ∧ ex_signal_mr x' = ex_signal_mr x)
              ∧ owns (export_held x' ++ l) s') (left_open l) s
  ∧ wp (export_incoming lanes x)
    (λ x' s', (ex_allocations x' = ex_allocations x ∧ ex_signal_mr x' = ex_signal_mr x)
              ∧ owns (export_held x' ++ l) s') (left_open l) s.
Proof using CloseLaws0.
  intros Hx Hl. split; revert x s Hx Hl; induction lanes as [|lane lanes IH]; intros x s Hx Hl;
    try done; cbn [export_outgoing export_incoming]; apply wp_bind;
    (eapply wp_mono with (λ d, owns (dq_obj d :: export_held x ++ l)) _;
     [apply wp_guarded; [done|]; unfold export_one; apply wp_bind;
      eapply wp_mono; [by apply wp_opened|intros oa s1 H1; apply wp_ret, H1|done]| |done]);
    intros d s1 H1; cbv beta in H1; (eapply wp_mono; [apply IH| |done]);
    try done; (eapply owns_perm; [exact H1|]); unfold export_held; cbn [ex_outgoing ex_incoming
      ex_signal_mr ex_allocations]; unfold export_objs; rewrite !fmap_app; cbn [fmap list_fmap];
    solve_Permutation.
Qed.

Lemma wp_reg_signal l s :
  owns l s → wp reg_signal (λ m, owns (mr_obj m :: l)) (left_open l) s.
Proof using.
  intros Hl. unfold reg_signal. apply wp_bind. eapply wp_mono; [by apply wp_opened| |done].
  intros [o [[addr lkey] rkey]] s1 H1. apply wp_ret. exact H1.
Qed.

Lemma opens_check status : along same_open (_check (W := W) status).
Proof using. unfold _check. along. Qed.
#[local] Hint Resolve opens_check : along.

Lemma wp_guarded_opens {A} x (m : M (St W) A) l s :
  allocs_ok (ex_allocations x) → along same_open m → owns (export_held x ++ l) s →
  wp (guarded x m) (λ _, owns (export_held x ++ l)) (left_open l) s.
Proof using CloseLaws0. intros Hx Hm Hl. apply wp_guarded; [done|]. by apply wp_opens. Qed.

Lemma wp_guarded_alloc x n l s :
  allocs_ok (ex_allocations x) → owns (export_held x ++ l) s →
  wp (guarded x (CudaAllocation_init n))
    (λ a s', allocs_ok (ex_allocations (with_alloc x a)) ∧ al_ptr a ≠ 0
             ∧ owns (export_held (with_alloc x a) ++ l) s') (left_open l) s.
Proof using CloseLaws0.
  intros Hx Hl. apply wp_guarded; [done|]. eapply wp_mono; [by apply wp_alloc| |done].
  intros a s1 [Ha H1]. cbn. split; [|split; [done|]].
  - apply Forall_app. split; [done|]. by constructor.
  - eapply owns_perm; [exact H1|]. unfold export_held, alloc_objs. cbn. rewrite fmap_app. cbn.
    solve_Permutation.
Qed.

Lemma wp_export outgoing incoming l s :
  owns l s →
  wp (_export_gpunetio cfg outgoing incoming)
    (λ g s', state_ok g ∧ owns (state_objs g ++ l) s') (left_open l) s.
Proof using CloseLaws0.
  intros Hl. unfold _export_gpunetio. apply wp_bind.
  eapply wp_mono; [apply wp_export_lanes with (l := l); [by constructor|exact Hl]| |done].
  intros x1 s1 [[Ha1 Hs1] H1]. apply wp_bind.
  eapply wp_mono; [apply (wp_export_lanes incoming x1 l s1); [unfold allocs_ok; rewrite Ha1; constructor|exact H1]| |done].
  intros x2 s2 [[Ha2 Hs2] H2]. rewrite Ha1 in Ha2. rewrite Hs1 in Hs2.
  destruct x2 as [douts dins allocs signal]. cbn in Ha2, Hs2. subst allocs signal.
  apply wp_bind. eapply wp_mono; [apply wp_guarded_alloc; [by constructor|exact H2]| |done].
  intros a1 s3 (Ho3 & Hp3 & H3). apply wp_bind.
  eapply wp_mono; [apply wp_guarded_alloc; [exact Ho3|exact H3]| |done].
  intros a2 s4 (Ho4 & Hp4 & H4). apply wp_bind.
  eapply wp_mono; [apply wp_guarded_alloc; [exact Ho4|exact H4]| |done].
  intros a3 s5 (Ho5 & Hp5 & H5).
  do 3 (apply wp_bind; eapply wp_mono;
    [apply (wp_guarded_opens _ _ l); [exact Ho5|unfold write_u64, zero; along|eassumption]| |done];
    cbv beta; intros ???).
  apply wp_bind. eapply wp_mono; [apply wp_guarded; [exact Ho5|by apply wp_reg_signal]| |done].
  intros m s9 H9. apply wp_bind.
  eapply wp_mono; [apply (wp_guarded_opens _ _ l); [exact Ho5|unfold clock_rate_hz; along|exact H9]| |done].
  intros rate s10 H10. apply wp_ret. split; [by repeat constructor|].
  eapply owns_perm; [exact H10|]. unfold export_held, state_objs. cbn. solve_Permutation.
Qed.

(** ** The rendezvous *)

(** A part of the [try]: what it holds is closed when it raises. *)
Lemma wp_part {A} lanes socks (m : M (St W) A) Q l s :
  wp m Q (left_open (lane_objs lanes ++ socks ++ l)) s → wp (part lanes socks m) Q (left_open l) s.
Proof using CloseLaws0.
  intros Hm. unfold part. apply wp_try_except. eapply wp_mono; [exact Hm|done|].
  intros e s1 H1. cbv beta. unfold wp, try_finally. destruct (is_Exception e) eqn:He.
  - pose proof (closes_lane_list lanes _ _ (H1 He)) as Hc. unfold wp, mbind, M_bind in *.
    destruct (close_lane_list _ s1) as [[[]|] s2]; [|done].
    pose proof (closes_sockets socks _ _ Hc) as Hc'. unfold wp, raise in *.
    destruct (for_each _ socks s2) as [[[]|] s3]; [by intros _|done].
  - cbn [raise]. destruct (for_each _ socks s1) as [[[]|e'] s3] eqn:Hs; [intros ?; congruence|].
    exfalso. clear -Hs CloseLaws0. revert s1 s3 e' Hs.
    induction socks as [|o socks IH]; intros s1 s3 e'; [done|]. cbn [for_each].
    unfold mbind, M_bind. destruct (close_obj o s1) as [[[]|e] s2] eqn:Hc; [apply IH|].
    exfalso. revert Hc. unfold close_obj, forget, mbind, M_bind, modify, call, with_world. cbn.
    pose proof (close_ok o (e_world (s_env s1))) as Hok. by destruct (dv_close _ _) as [[[]|] w].
Qed.

(** A message is received, or an error that [_accept_member] handles is raised. *)
Definition peer_error (e : exn) : Prop :=
  is_Exception e = true → is_OSError e || is_AllReduceError e = true.

Lemma wp_recv_exact_error sock n w :
  wp (_recv_exact (S := obj) sock n) (λ _ _, True) (λ e _, peer_error e) w.
Proof using CloseLaws0.
  unfold _recv_exact, recv_exact. generalize (Z.to_nat n) as fuel. intros fuel. revert n w.
  induction fuel as [|fuel IH]; intros n w; [done|]. cbn [recv_loop].
  destruct (n =? 0); [done|]. apply wp_bind. unfold wp at 1.
  destruct (sock_recv sock n w) as [[part|e] w'] eqn:Hr.
  - destruct (length part =? 0)%nat; [by intros _|]. apply wp_bind.
    eapply wp_mono; [apply IH| |done]. done.
  - intros He. rewrite (recv_os_error sock n w e); [done|by rewrite Hr|done].
Qed.

Lemma wp_recv_frame_error sock w :
  wp (_recv_frame (S := obj) sock) (λ _ _, True) (λ e _, peer_error e) w.
Proof using CloseLaws0.
  unfold _recv_frame. apply wp_bind.
  eapply wp_mono; [apply wp_recv_exact_error| |done]. intros head w1 _. apply wp_bind, wp_guard_raise.
  destruct (_ <? _); [by intros _|]. apply wp_bind.
  eapply wp_mono; [apply wp_recv_exact_error| |done]. intros body w2 _.
  destruct (json_decode body) as [[]|e] eqn:Hd; try done; try by intros _.
  rewrite bool_decide_eq_true_2; [by intros _|].
  apply json_decode_error in Hd as [->| ->]; set_solver.
Qed.

Lemma wp_on_world {A} (m : M W A) Q E s :
  wp (on_world m) Q E s ↔
  wp m (λ a w, Q a (mk_St (s_comm s) (mk_Env (e_open (s_env s)) (e_fresh (s_env s)) w)))
    (λ e w, E e (mk_St (s_comm s) (mk_Env (e_open (s_env s)) (e_fresh (s_env s)) w)))
    (e_world (s_env s)).
Proof using. unfold wp, on_world, call, with_world. by destruct (m _) as [[a|e] w]. Qed.

Lemma is_OSError_exn e : is_OSError e = true → is_Exception e = true.
Proof using. by destruct e. Qed.

(** [_connect_until] returns the one socket it leaves open. *)
Lemma wp_connect_until fuel host port deadline l s :
  owns l s →
  wp (_connect_until fuel host port deadline)
    (λ o, match o with Some sock => owns (sock :: l) | None => owns l end) (left_open l) s.
Proof using.
  intros Hl. unfold _connect_until. apply (wp_while_loop _ (owns l)); [|done|done]. clear s Hl.
  intros s Hl. unfold connect_round, monotonic. apply wp_bind.
  eapply wp_mono; [apply (wp_opens _ l); [along|done]| |done]. intros t s1 H1. cbv zeta.
  destruct (_ <=? 0); [by intros _|]. apply wp_try_except, wp_bind.
  eapply wp_mono; [apply (wp_opened _ _ l), H1| |].
  - intros oa s2 H2. apply wp_bind.
    eapply wp_mono; [apply (wp_ask _ (oa.1 :: l)), H2|intros [] s3 H3; exact H3|by intros ?? []].
  - intros e s2 H2. cbv beta. destruct (is_OSError e) eqn:He; [|exact H2].
    apply is_OSError_exn in He. apply wp_bind.
    eapply wp_mono; [apply (wp_opens _ l); [along|by apply H2]| |done]. intros t2 s3 H3.
    apply wp_bind. eapply wp_mono; [apply (wp_opens _ l); [along|done]| |done]. done.
Qed.

Lemma opens_lane_infos lanes : along same_open (_lane_infos (W := W) cfg lanes).
Proof using.
  unfold _lane_infos. apply along_bind; [apply _|apply opens_call|]. intros attr.
  apply along_bind; [apply _|apply opens_call|]. intros gid.
  induction lanes; cbn [lane_infos_loop]; along.
Qed.
Lemma opens_connect_lanes pairs rts : along same_open (connect_lanes (W := W) cfg pairs rts).
Proof using.
  induction pairs as [|[lane remote] pairs IH]; cbn [connect_lanes]; unfold on_world; along.
Qed.
Lemma opens_send sock v : along same_open (send_message (W := W) sock v).
Proof using. unfold send_message, on_world. apply opens_call. Qed.
Lemma opens_on_world {A} (m : M W A) : along same_open (on_world m).
Proof using. apply opens_call. Qed.
#[local] Hint Resolve opens_lane_infos opens_connect_lanes opens_send opens_on_world : along.

(** One member connects: the socket that is returned sent the expected uuid and
    handle; the others are closed. *)
Lemma wp_accept_member fuel handle uuid deadline l s :
  owns l s →
  wp (_accept_member fuel handle uuid deadline)
    (λ o s', match o with
             | Some (sock, message) =>
                 message_matches uuid handle message = true ∧ owns (sock :: l) s'
             | None => owns l s'
             end) (left_open l) s.
Proof using CloseLaws0.
  intros Hl. unfold _accept_member. apply (wp_while_loop _ (owns l)); [|done|done]. clear s Hl.
  intros s Hl. unfold accept_round, monotonic. apply wp_bind.
  eapply wp_mono; [apply (wp_opens _ l); [along|done]| |done]. intros t s1 H1. cbv zeta.
  destruct (_ <=? 0); [by intros _|]. apply wp_bind.
  eapply wp_mono; [apply (wp_opens _ l); [along|exact H1]| |done]. intros ready s2 H2.
  destruct ready; [cbn [negb]|by intros _]. apply wp_bind.
  eapply wp_mono; [apply (wp_opened _ _ l), H2| |done]. intros [sock []] s3 H3. cbn [fst] in *.
  apply wp_bind. eapply wp_mono; [apply (wp_ask _ (sock :: l)), H3| |by intros ?? []].
  intros t2 s4 H4. apply wp_bind.
  eapply wp_mono; [apply (wp_ask _ (sock :: l)), H4| |by intros ?? []]. intros [] s5 H5. apply wp_bind.
  apply wp_try_except, wp_bind, wp_on_world.
  eapply wp_mono; [apply wp_recv_frame_error| |].
  - intros message w _. apply wp_ret. destruct (message_matches uuid handle message) eqn:Hm.
    + apply wp_ret. split; [done|]. by destruct H5.
    + apply wp_bind. eapply wp_mono; [apply (wp_close_obj sock l)|done|intros ?? []].
      by destruct H5.
  - intros e w He. cbv beta. destruct (is_OSError e || is_AllReduceError e) eqn:Hc.
    + apply wp_ret, wp_bind. eapply wp_mono; [apply (wp_close_obj sock l)|done|intros ?? []].
      by destruct H5.
    + intros Hexc. rewrite (He Hexc) in Hc. done.
Qed.

Lemma wp_connect_ring uuid next_member outgoing incoming next_socket prev_socket request l s :
  owns l s →
  wp (connect_ring cfg uuid next_member outgoing incoming next_socket prev_socket request)
    (λ r s', state_ok r.2 ∧ owns (state_objs r.2 ++ l) s') (left_open l) s.
Proof using CloseLaws0.
  intros Hl. unfold connect_ring.
  assert (∀ {A B} (m : M (St W) A) (f : A → M (St W) B) Q,
    along same_open m → (∀ a s, owns l s → wp (f a) Q (left_open l) s) →
    ∀ s, owns l s → wp (m ≫= f) Q (left_open l) s) as Hstep.
  { intros A B m f Q Hm Hf s0 H0. apply wp_bind.
    eapply wp_mono; [by apply (wp_opens _ l)|intros a s1 H1; by apply Hf|done]. }
  revert s Hl.
  repeat (apply Hstep; [solve [unfold peer_infos, peer_buffers; along]|intros ?]).
  intros s Hl. apply wp_bind. eapply wp_mono; [by apply wp_export| |done].
  intros g s1 [Hg H1]. by apply wp_ret.
Qed.

Lemma wp_rendezvous fuel uuid deadline next_member prev_member request outgoing incoming l s :
  owns (lane_objs (outgoing ++ incoming) ++ l) s →
  wp (rendezvous cfg fuel uuid deadline next_member prev_member request outgoing incoming)
    (λ o s', match o with
             | Some r => state_ok r.2 ∧
                 owns (state_objs r.2 ++ lane_objs (outgoing ++ incoming) ++ l) s'
             | None => True
             end) (left_open l) s.
Proof using CloseLaws0.
  intros Hl. unfold rendezvous. cbv zeta. set (lanes := outgoing ++ incoming) in *. apply wp_bind.
  eapply wp_mono; [apply wp_part; by apply wp_connect_until| |done].
  intros [next|] s1 H1; [|done]. apply wp_bind.
  eapply wp_mono with (λ o s', match o with
    | Some ps => owns (ps.1 :: next :: lane_objs lanes ++ l) s' | None => True end) _; [|
    |done].
  - apply wp_part. assert (owns (lane_objs lanes ++ [next] ++ l) s1) as H1'
      by (eapply owns_perm; [exact H1|solve_Permutation]).
    apply wp_bind. eapply wp_mono; [apply (wp_opens _ _ _ (opens_ask dev_clock) H1')| |done].
    intros t s2 H2. apply wp_bind.
    eapply wp_mono; [apply (wp_opens _ _ _ (opens_ask _) H2)| |done]. intros [] s3 H3. apply wp_bind.
    eapply wp_mono; [apply (wp_opens _ _ _ (opens_send _ _) H3)| |done]. intros [] s4 H4.
    eapply wp_mono; [by apply wp_accept_member| |done]. intros [[sock message]|] s5 H5; [|done].
    destruct H5 as [_ H5]. eapply owns_perm; [exact H5|]. cbn. solve_Permutation.
  - intros [[prev message]|] s2 H2; [|done]. apply wp_bind.
    eapply wp_mono; [apply wp_part, wp_connect_ring; eapply owns_perm; [exact H2|]| |done].
    { cbn. solve_Permutation. }
    intros r s3 [Hr H3]. apply wp_bind.
    eapply wp_mono; [apply (closes_sockets [next; prev] (state_objs r.2 ++ lane_objs lanes ++ l))
      | |by intros ?? []].
    { eapply owns_perm; [exact H3|]. solve_Permutation. }
    intros [] s4 H4. by apply wp_ret.
Qed.

Lemma owns_update f l s : owns l s → owns l (mk_St (f (s_comm s)) (s_env s)).
Proof using. intros []. by split. Qed.

Context `{!PortAnswers W}.

Lemma wp_lane_infos_loop lid mtu gid lanes l s :
  1 ≤ cf_port cfg ≤ 0xFF → 0 ≤ lid ≤ 0xFFFF → 1 ≤ mtu ≤ 5 → length gid = 16%nat → owns l s →
  wp (lane_infos_loop cfg (lid, mtu) gid lanes) (λ _, owns l) never s.
Proof using PortAnswers0.
  intros Hport Hlid Hmtu Hgid. revert s. induction lanes as [|lane lanes IH]; intros s Hl; [done|].
  cbn [lane_infos_loop fst snd]. apply wp_bind. unfold wp at 1, ask, with_world.
  pose proof (qp_num_range (ln_qp lane) (e_world (s_env s))) as Hnum.
  generalize dependent (dv_qp_num (ln_qp lane) (e_world (s_env s))). intros num Hnum.
  apply wp_bind, wp_lift. unfold local_qp_info. rewrite QPInfo_init_spec.
  replace (qp_info_valid _) with true
    by (unfold qp_info_valid; cbn -[Z.leb Nat.eqb]; rewrite Hgid; lia).
  apply wp_bind. eapply wp_mono; [apply IH; by destruct Hl| |done]. done.
Qed.

Lemma wp_lane_infos_answers lanes l s :
  1 ≤ cf_port cfg ≤ 0xFF → owns l s → wp (_lane_infos cfg lanes) (λ _, owns l) never s.
Proof using PortAnswers0.
  intros Hport Hl. unfold _lane_infos. apply wp_bind. unfold wp at 1, call, with_world.
  destruct (port_answers (cf_port cfg) (e_world (s_env s))) as (lid & mtu & Hr & Hlid & Hmtu).
  destruct (dv_port _ _) as [r w1]. cbn in Hr. subst r. apply wp_bind.
  unfold wp at 1, call, with_world. cbn [s_env e_world].
  destruct (gid_answers (cf_port cfg) (cf_gid_index cfg) w1) as (gid & Hr & Hgid).
  destruct (dv_gid _ _ _) as [r w2]. cbn in Hr. subst r.
  apply wp_lane_infos_loop; try done. by destruct Hl.
Qed.

(** The objects a group holds, and those of the rest of the process. *)
Definition holds (rest : list obj) s : Prop :=
  comm_ok (s_comm s) ∧ owns (comm_objs (s_comm s) ++ rest) s.

Lemma wp_rebuild_holds fuel uuid members rank timeout rest s :
  1 ≤ cf_port cfg ≤ 0xFF → members ≠ [] → holds rest s →
  wp (rebuild cfg fuel uuid members rank timeout)
    (λ o s', o ≠ None → holds rest s') (λ e s', is_Exception e = true → holds rest s') s.
Proof using CloseLaws0 PortAnswers0.
  intros Hport Hne [Hok Hl]. unfold rebuild. apply wp_bind. unfold monotonic.
  eapply wp_mono; [apply wp_conj; [apply (wp_ask _ _ _ Hl)|apply wp_keeps_comm, keeps_ask]| |
    by intros ?? [[] _]].
  intros t s1 [H1 Hk1]. rewrite <- Hk1 in Hok, H1.
  apply wp_bind, wp_comm, wp_bind, wp_lift. destruct (_seconds _ _); [|intros _; by split].
  apply wp_bind. eapply wp_mono; [by apply wp_conj; [apply closes_close_lanes|apply wp_close_lanes]| |
    by intros ?? [[] _]].
  intros [] s2 [H2 Hk2]. apply wp_bind, wp_update.
  set (s3 := mk_St _ _). assert (owns rest s3) as H3 by by destruct H2.
  assert (no_lanes (s_comm s3) = s_comm s3) as Hn by by (unfold s3; cbn; rewrite Hk2).
  destruct (Z.of_nat (length members) =? 1).
  { apply wp_bind, wp_update, wp_bind, wp_update, wp_ret. intros _.
    unfold holds, comm_ok, comm_objs. cbn. rewrite Hk2. cbn. split; [done|]. by destruct H3. }
  assert (∀ s', owns rest s' → s_comm s' = s_comm s3 → holds rest s') as Hend.
  { intros s' Ho Hc. unfold holds, comm_ok, comm_objs. by rewrite Hc, <- Hn. }
  apply wp_bind. eapply wp_mono; [apply wp_conj;
    [by apply wp_create_lanes_own|apply wp_keeps_comm, keeps_create_lanes]| |].
  2: { intros e s4 [H4 Hk4] He. apply Hend; [by apply H4|done]. }
  intros [outgoing incoming] s4 [H4 Hk4]. cbn [fst snd] in H4.
  assert (∀ k, is_Some (members !! Z.to_nat (k `mod` Z.of_nat (length members)))) as Hsome.
  { intros k. apply lookup_lt_is_Some. assert (length members ≠ 0%nat) by by destruct members.
    pose proof (Z.mod_pos_bound k (Z.of_nat (length members)) ltac:(lia)). lia. }
  destruct (Hsome (rank + 1)) as [next ->]. destruct (Hsome (rank - 1)) as [prev ->].
  apply wp_bind. eapply wp_mono; [apply wp_conj;
    [by apply wp_lane_infos_answers|apply wp_keeps_comm, keeps_lane_infos]| |by intros ?? [[] _]].
  intros infos s5 [H5 Hk5]. apply wp_bind. eapply wp_mono; [apply wp_conj;
    [by apply wp_rendezvous|apply wp_keeps_comm, keeps_rendezvous]| |].
  2: { intros e s6 [H6 Hk6] He. apply Hend; [by apply H6|congruence]. }
  intros [[buffers g]|] s6 [H6 _]; [|by apply wp_ret]. destruct H6 as [Hg H6]. cbn in Hg, H6.
  apply wp_bind, wp_update, wp_bind, wp_update, wp_bind, wp_update, wp_ret. intros _.
  unfold holds, comm_ok, comm_objs. cbn. split; [done|]. rewrite <- app_assoc. by destruct H6.
Qed.

Lemma wp_reconfigure_holds fuel uuid ordered handles timeout rest s :
  1 ≤ cf_port cfg ≤ 0xFF → holds rest s →
  wp (_reconfigure cfg fuel uuid ordered handles timeout) (λ o s', o ≠ None → holds rest s')
    (λ e s', is_Exception e = true → holds rest s') s.
Proof using CloseLaws0 PortAnswers0.
  intros Hport Hs. unfold _reconfigure. apply wp_bind, wp_comm. destruct (g_closed _); [by intros _|].
  case_bool_decide; [by intros _|]. apply wp_bind, wp_lift.
  destruct (order_members _ _ _) as [members|]; [|by intros _].
  destruct (index_of _ _) as [rank|] eqn:Hr; [|by intros _].
  apply wp_rebuild_holds; [done| |done]. intros ->. done.
Qed.

End Resources.
