(* ===== verification/GroupProgress.v ===== *)
(** A reconfiguration returns: its two waiting loops end at the deadline. *)

From S2P Require Import Prelude Bytes Verbs Helpers Json Stream Handles ProcessGroup.
#[local] Open Scope Z_scope.

(** No call takes the clock back. *)
Class GroupClock (W : Type) `{!GroupDevice W} `{!Clock W} `{!ClockLaws W} `{!SockRecv obj W} := {
  tick_create_cq : ∀ n w, now w ≤ now (dv_create_cq n w).2;
  tick_create_qp : ∀ o m n w, now w ≤ now (dv_create_qp o m n w).2;
  tick_close : ∀ o w, now w ≤ now (dv_close o w).2;
  tick_mem_free : ∀ p w, now w ≤ now (dv_mem_free p w).2;
  tick_port : ∀ p w, now w ≤ now (dv_port p w).2;
  tick_gid : ∀ p i w, now w ≤ now (dv_gid p i w).2;
  tick_connect : ∀ h p t w, now w ≤ now (dv_connect h p t w).2;
  tick_set_timeout : ∀ o t w, now w ≤ now (dv_set_timeout o t w);
  tick_sendall : ∀ o b w, now w ≤ now (dv_sendall o b w).2;
  tick_select : ∀ t w, now w ≤ now (dv_select t w).2;
  tick_accept : ∀ w, now w ≤ now (dv_accept w).2;
  tick_sleep : ∀ t w, now w ≤ now (dv_sleep t w);
  tick_recv : ∀ o n w, now w ≤ now (sock_recv o n w).2;
}.

(** A call of the device takes no time back. *)
Ltac tick :=
  intros; cbn [snd];
  first [apply tick_create_cq | apply tick_create_qp | apply tick_close | apply tick_mem_free
        | apply tick_port | apply tick_gid | apply tick_connect | apply tick_set_timeout
        | apply tick_sendall | apply tick_select | apply tick_accept | apply tick_sleep
        | apply tick_recv | apply Z.le_refl | apply Z.lt_le_incl, clock_advances].

Section Progress.
Context `{!PyText} {W : Type} `{!GroupDevice W} `{!Clock W} `{!ClockLaws W} `{!SockRecv obj W}
  `{!RcQp obj W} `{!GroupClock W}.
Context (cfg : Config).
Implicit Types s : St W.

Definition clock s : Z := now (e_world (s_env s)).

(** Time passes. *)
Definition later : relation (St W) := λ s s', clock s ≤ clock s'.
#[local] Instance later_preorder : PreOrder later.
Proof using. split; [intros s; unfold later; lia|intros s1 s2 s3; unfold later; lia]. Qed.

Lemma later_call {A} (f : W → result A * W) :
  (∀ w, now w ≤ now (f w).2) → along later (call f).
Proof using.
  intros Hf s. unfold call, with_world, later, clock. specialize (Hf (e_world (s_env s))).
  by destruct (f _).
Qed.
Lemma later_ask {A} (f : W → A * W) : (∀ w, now w ≤ now (f w).2) → along later (ask f).
Proof using.
  intros Hf s. unfold ask, with_world, later, clock. specialize (Hf (e_world (s_env s))).
  by destruct (f _).
Qed.
Lemma later_opened k {A} (f : W → result A * W) :
  (∀ w, now w ≤ now (f w).2) → along later (opened k f).
Proof using.
  intros Hf. unfold opened. apply along_bind; [apply _|by apply later_call|]. intros a.
  apply along_bind; [apply _|apply along_get; apply _|]. intros s.
  apply along_bind; [apply _| |intros []; apply along_ret; apply _].
  intros s2. apply Z.le_refl.
Qed.
Lemma later_update f : along later (update (W := W) f).
Proof using. intros s. apply Z.le_refl. Qed.
Lemma later_forget o : along later (forget (W := W) o).
Proof using. intros s. apply Z.le_refl. Qed.
Lemma later_comm : along later (comm (W := W)).
Proof using. intros s. apply Z.le_refl. Qed.
#[local] Hint Resolve later_update later_forget later_comm : along.
Ltac later := along; solve [apply later_call; tick | apply later_ask; tick | apply later_opened; tick].

(** A read of the clock. *)
Lemma wp_clock s :
  wp monotonic (λ t s', t = clock s ∧ clock s < clock s' ∧ s_comm s' = s_comm s) (λ _ _, False) s.
Proof using.
  unfold wp, monotonic, ask, with_world. pose proof (clock_now (e_world (s_env s))).
  pose proof (clock_advances (e_world (s_env s))). by destruct (dev_clock _).
Qed.

(** A round that goes on has read the clock before the deadline. *)
Definition passes {A} (deadline : Z) (body : M (St W) (option A)) : Prop :=
  ∀ s, wp body (λ o s', o = None → clock s < clock s' ∧ clock s < deadline) (λ _ _, True) s.

Lemma passes_returns {A} deadline (body : M (St W) (option A)) fuel s :
  passes deadline body → deadline - clock s < Z.of_nat fuel → 0 < Z.of_nat fuel →
  (while_loop fuel body s).1 ≠ Ok None.
Proof using.
  intros Hb Hfuel Hpos. apply (while_loop_terminates _ (λ _, True) (λ s, Z.to_nat (deadline - clock s)));
    [|done|lia].
  intros s1 s2 _ Hs. split; [done|]. specialize (Hb s1). unfold wp in Hb. rewrite Hs in Hb.
  specialize (Hb eq_refl). lia.
Qed.

(** Steps after the read. *)
Lemma wp_passing {A} (m : M (St W) (option A)) deadline s s1 :
  along later m → clock s < clock s1 → clock s < deadline →
  wp m (λ o s', o = None → clock s < clock s' ∧ clock s < deadline) (λ _ _, True) s1.
Proof using.
  intros Hm H1 Hd. eapply wp_mono; [apply wp_along, Hm| |done]. intros o s2 Hl _.
  unfold later in Hl. lia.
Qed.

Lemma connect_round_passes host port deadline : passes deadline (connect_round host port deadline).
Proof using GroupClock0.
  intros s. unfold connect_round. apply wp_bind.
  eapply wp_mono; [apply wp_clock| |done]. intros t s1 (-> & H1 & _). cbv zeta.
  destruct (Z.leb_spec (deadline - clock s) 0); [done|].
  apply wp_passing; [|lia|lia]. unfold monotonic. later.
Qed.

Lemma later_recv_exact sock n : along (λ w w', now w ≤ now w') (_recv_exact (S := obj) sock n).
Proof using GroupClock0.
  assert (PreOrder (λ w w' : W, now w ≤ now w')) by (split; [intros w|intros ???]; lia).
  unfold _recv_exact, recv_exact. generalize (Z.to_nat n) as fuel. intros fuel. revert n.
  induction fuel as [|fuel IH]; intros n; cbn [recv_loop]; along. intros w. apply tick_recv.
Qed.

Lemma later_recv_frame sock : along later (on_world (_recv_frame (S := obj) sock)).
Proof using GroupClock0.
  assert (PreOrder (λ w w' : W, now w ≤ now w')) by (split; [intros w|intros ???]; lia).
  apply later_call. change (along (λ w w', now w ≤ now w') (_recv_frame sock)).
  pose proof later_recv_exact. unfold _recv_frame. along.
Qed.
#[local] Hint Resolve later_recv_frame : along.

Lemma later_close_obj o : along later (close_obj (W := W) o).
Proof using GroupClock0. unfold close_obj. later. Qed.
#[local] Hint Resolve later_close_obj : along.

Lemma accept_round_passes handle uuid deadline : passes deadline (accept_round handle uuid deadline).
Proof using GroupClock0.
  intros s. unfold accept_round. apply wp_bind.
  eapply wp_mono; [apply wp_clock| |done]. intros t s1 (-> & H1 & _). cbv zeta.
  destruct (Z.leb_spec (deadline - clock s) 0); [done|].
  apply wp_passing; [|lia|lia]. unfold monotonic. later.
Qed.

(** ** The whole operation *)

(** [m] does not run out of fuel. *)
Definition returns {A} (m : M (St W) (option A)) s : Prop :=
  wp m (λ o _, o ≠ None) (λ _ _, True) s.

(** There is fuel for every round before the deadline. *)
Definition fueled (fuel : nat) (deadline : Z) s : Prop :=
  deadline - clock s < Z.of_nat fuel ∧ 0 < Z.of_nat fuel.

Lemma fueled_later fuel deadline s s' : fueled fuel deadline s → later s s' → fueled fuel deadline s'.
Proof using. unfold fueled, later. lia. Qed.

Lemma passes_wp {A} deadline (body : M (St W) (option A)) fuel s :
  passes deadline body → fueled fuel deadline s → returns (while_loop fuel body) s.
Proof using.
  intros Hb [Hf Hp]. pose proof (passes_returns deadline body fuel s Hb Hf Hp) as Hr.
  unfold returns, wp. destruct (while_loop fuel body s) as [[o|e] s']; [|done]. cbn in Hr. congruence.
Qed.

(** A step that only takes time, before the rest. *)
Lemma returns_bind {A B} (m : M (St W) A) (f : A → M (St W) (option B)) fuel deadline s :
  along later m → fueled fuel deadline s →
  (∀ a s', fueled fuel deadline s' → returns (f a) s') → returns (m ≫= f) s.
Proof using.
  intros Hm Hs Hf. unfold returns. apply wp_bind.
  eapply wp_mono; [apply wp_along, Hm| |done]. intros a s' Hl. by eapply Hf, fueled_later.
Qed.

Lemma later_close_lane_list lanes : along later (close_lane_list (W := W) lanes).
Proof using GroupClock0. unfold close_lane_list, swallow, Lane_close. along. Qed.
#[local] Hint Resolve later_close_lane_list : along.

Lemma later_part {A} lanes socks (m : M (St W) A) : along later m → along later (part lanes socks m).
Proof using GroupClock0. intros Hm. unfold part. along. Qed.

Lemma part_returns {A} lanes socks (m : M (St W) (option A)) s :
  returns m s → returns (part lanes socks m) s.
Proof using.
  intros Hm. unfold returns, part. apply wp_try_except. eapply wp_mono; [exact Hm|done|].
  intros e s1 _. cbv beta. unfold wp, try_finally.
  destruct (is_Exception e); [unfold mbind, M_bind; destruct (close_lane_list _ s1) as [[[]|e1] s2]|];
    cbn [raise]; by destruct (for_each _ socks _) as [[[]|] ?].
Qed.

Lemma later_connect_until fuel host port deadline :
  along later (_connect_until (W := W) fuel host port deadline).
Proof using GroupClock0. unfold _connect_until, connect_round, monotonic. later. Qed.

Lemma rendezvous_returns fuel uuid deadline next prev request outgoing incoming s :
  fueled fuel deadline s →
  returns (rendezvous cfg fuel uuid deadline next prev request outgoing incoming) s.
Proof using GroupClock0.
  intros Hs. unfold rendezvous, returns. cbv zeta. apply wp_bind.
  eapply wp_mono; [apply wp_conj; [apply part_returns, (passes_wp deadline); [apply connect_round_passes|exact Hs]|
    apply wp_along, later_part, later_connect_until]| |done].
  intros [sock|] s1 [Hn Hl]; [|done]. assert (fueled fuel deadline s1) as H1 by by eapply fueled_later.
  apply wp_bind. eapply wp_mono; [apply part_returns| |done].
  - apply (returns_bind _ _ fuel deadline); [unfold monotonic; later|done|]. intros t s2 H2.
    apply (returns_bind _ _ fuel deadline); [later|done|]. intros [] s3 H3.
    apply (returns_bind _ _ fuel deadline); [unfold send_message, on_world|done|].
    { apply later_call. intros w. unfold _send_frame, mbind, M_bind, lift.
      destruct (frame_bytes request); cbn [snd]; tick. }
    intros [] s4 H4. apply (passes_wp deadline); [apply accept_round_passes|done].
  - intros [[prev_sock prev_request]|] s2 Hn2; [|done]. apply wp_bind.
    eapply wp_mono; [apply wp_trivial| |done]. intros r s3 _. apply wp_bind.
    eapply wp_mono; [apply wp_trivial| |done]. intros [] s4 _. by apply wp_ret.
Qed.

Lemma later_close_lanes : along later (_close_lanes (W := W)).
Proof using GroupClock0.
  assert (∀ ms error, Forall (along later) ms → along later (collect_all (W := W) error ms)) as Hall.
  { intros ms error Hms. revert error. induction Hms as [|m ms Hm _ IH]; intros error; cbn [collect_all];
      [along|]. unfold collect. along; auto. }
  assert (∀ a, along later (CudaAllocation_close (W := W) a)) as Ha
    by (intros a; unfold CudaAllocation_close, _check; later).
  unfold _close_lanes. apply along_bind; [apply _|apply later_comm|]. intros c.
  apply along_bind; [apply _| |intros []; along].
  destruct (g_gpunetio c) as [g|]; [|along]. apply along_bind; [apply _| |intros []; along].
  unfold swallow. apply along_try; [apply _| |along]. unfold GpuNetIOState_close.
  apply along_bind; [apply _| |along]. apply Hall.
  rewrite !Forall_app, !Forall_fmap, Forall_singleton.
  split_and!; try (apply Forall_forall; intros x _; cbn);
    unfold DeviceQP_close, Mr_close; along.
Qed.

Lemma later_create_lanes : along later (_create_lanes (W := W) cfg).
Proof using GroupClock0.
  unfold _create_lanes. generalize (@nil Lane) at 1 as outgoing. generalize (@nil Lane) as incoming.
  induction (concat _) as [|b todo IH]; intros incoming outgoing; cbn [create_lanes_loop]; [along|].
  unfold create_lane, on_exception, Lane_close. later.
Qed.

Lemma later_lane_infos lanes : along later (_lane_infos (W := W) cfg lanes).
Proof using GroupClock0.
  unfold _lane_infos. apply along_bind; [apply _|apply later_call; tick|]. intros attr.
  apply along_bind; [apply _|apply later_call; tick|]. intros gid.
  induction lanes; cbn [lane_infos_loop]; [along|]. later.
Qed.

Lemma rebuild_returns fuel uuid members rank timeout s :
  0 < Z.of_nat fuel →
  (∀ seconds, _seconds timeout (g_timeout (s_comm s)) = Ok seconds → seconds ≤ Z.of_nat fuel) →
  returns (rebuild cfg fuel uuid members rank timeout) s.
Proof using GroupClock0.
  intros Hpos Hfuel. unfold rebuild, returns. apply wp_bind.
  eapply wp_mono; [apply wp_clock| |done]. intros t s1 (-> & H1 & Hc1). apply wp_bind, wp_comm.
  rewrite Hc1. apply wp_bind, wp_lift. destruct (_seconds timeout _) as [seconds|] eqn:Hsec; [|done].
  cbv zeta. set (deadline := clock s + seconds).
  assert (fueled fuel deadline s1) as Hs1.
  { specialize (Hfuel _ eq_refl). unfold fueled, deadline. lia. }
  apply (returns_bind _ _ fuel deadline); [apply later_close_lanes|done|]. intros [] s2 H2.
  apply (returns_bind _ _ fuel deadline); [apply later_update|done|]. intros [] s3 H3.
  destruct (_ =? 1).
  { apply wp_bind, wp_update, wp_bind, wp_update. by apply wp_ret. }
  apply (returns_bind _ _ fuel deadline); [apply later_create_lanes|done|].
  intros [outgoing incoming] s4 H4.
  destruct (members !! _); [|done]. destruct (members !! _); [|done].
  apply (returns_bind _ _ fuel deadline); [apply later_lane_infos|done|]. intros infos s5 H5.
  unfold returns. apply wp_bind. eapply wp_mono; [by apply rendezvous_returns| |done].
  intros [[buffers g]|] s6 Hn; [|done].
  apply wp_bind, wp_update, wp_bind, wp_update, wp_bind, wp_update. by apply wp_ret.
Qed.

(** C5: [_reconfigure] returns.  Its waits, for the next rank to listen and for the
    previous one to connect, read the clock once per round and stop at the
    deadline: with as many rounds of fuel as the timeout has clock ticks, it ends in
    a rank or an exception, whatever the peers do. *)
Theorem reconfigure_returns fuel uuid ordered handles timeout s :
  0 < Z.of_nat fuel →
  (∀ seconds, _seconds timeout (g_timeout (s_comm s)) = Ok seconds → seconds ≤ Z.of_nat fuel) →
  (_reconfigure cfg fuel uuid ordered handles timeout s).1 ≠ Ok None.
Proof using GroupClock0.
  intros Hpos Hfuel. enough (returns (_reconfigure cfg fuel uuid ordered handles timeout) s) as Hr.
  { unfold returns, wp in Hr. destruct (_reconfigure _ _ _ _ _ _ s) as [[[r|]|e] s']; cbn; congruence. }
  unfold _reconfigure, returns. apply wp_bind, wp_comm. destruct (g_closed _); [done|].
  case_bool_decide; [done|]. apply wp_bind, wp_lift. destruct (order_members _ _ _); [|done].
  destruct (index_of _ _); [|done]. by apply rebuild_returns.
Qed.
End Progress.
