(* ===== verification/GroupSetup.v ===== *)
(** Building a process group: [ProcessGroup.__init__], [create], [_initialize],
    [ProcessGroupOptions], [_find_device], [_find_gid_index] and [_create_backend] of
    src/experiments/fault_tolerant_allreduce/allreduce.py.

    The calls of torch, of the sockets and of the device that only construction makes
    are the operations of [SetupDevice]; [e_open] counts the objects that construction
    opens as it does those of a reconfiguration.  [create_spec] says who owns them
    when [create] returns and that none is left when it raises, provided that the calls
    the source does not protect answer; [setup_leak] in GroupExamples is what
    happens when one does not. *)

From S2P Require Import Prelude Bytes Verbs Helpers Json Stream Handles ProcessGroup.
From S2P Require Import GroupTheorems GroupResources.
#[local] Open Scope Z_scope.

(** [su_nightly]: torch's c10d has ReconfigureOptions; [su_super] is the constructor of
    [dist.ProcessGroup]; [su_register] gives the address and the keys of a memory
    region; [su_empty] is [torch.empty] of bytes on a device. *)
Class SetupDevice (W : Type) := {
  su_nightly : W → bool;
  su_super : Z → Z → W → result unit * W;
  su_register : CudaTensor → W → result (Z * Z * Z) * W;
  su_socket : W → result unit * W;
  su_setsockopt : obj → W → result unit * W;
  su_bind : obj → str → Z → W → result unit * W;
  su_listen : obj → Z → W → result unit * W;
  su_getsockname : obj → W → result Z * W;
  su_getfqdn : W → str * W;
  su_uuid4 : W → str * W;
  su_context_name : obj → W → str;
  su_current_device : W → result Z * W;
  su_set_device : Z → W → result unit * W;
  su_device_names : W → result (list str) * W;
  su_open_device : nat → W → result unit * W;
  su_alloc_pd : obj → W → result unit * W;
  su_empty : Z → Z → W → result CudaTensor * W;
  su_store_set : str → str → W → result unit * W;
  su_store_get : str → W → result bytes * W;
}.

(** * Options *)

Record ProcessGroupOptions := mk_Options {
  op_hca : str;
  op_max_bytes : Z;
  op_gpu : option Z;
  op_gid_index : option Z;
  op_port : Z;
  op_num_sms : Z;
  op_qps : option Z;
  op_queue_depth : Z;
  op_advertise_host : option str;
  op_bind_host : str;
  op_rendezvous_port : Z;
  op_nic_handler : str;
  op_stable_rank : option Z;
}.

(** [__post_init__] *)
Definition Options_init (o : ProcessGroupOptions) : result ProcessGroupOptions :=
  raise_if (bool_decide (op_hca o = [])) ValueError;;
  raise_if (op_max_bytes o <=? 0) ValueError;;
  Ok o.

(** The arguments of [ProcessGroup.__init__]. *)
Record InitArgs := mk_InitArgs {
  ia_rank : Z;
  ia_size : Z;
  ia_context : obj;
  ia_pd : obj;
  ia_work : CudaTensor;
  ia_scratch : CudaTensor;
  ia_stable_rank : option Z;
  ia_gid_index : Z;
  ia_port : Z;
  ia_advertise_host : option str;
  ia_bind_host : str;
  ia_rendezvous_port : Z;
  ia_qps : option Z;
  ia_num_sms : Z;
  ia_timeout : option Duration;
  ia_queue_depth : Z;
  ia_nic_handler : str;
}.

(** * GIDs *)

Fixpoint contains (sub s : str) : bool :=
  bool_decide (take (length sub) s = sub) ||
  match s with [] => false | _ :: s => contains sub s end.
Definition strip (s : str) : str := reverse (span is_space (reverse (span is_space s).2)).2.
(** [gid.raw[0] == 0xFE and (gid.raw[1] & 0xC0) == 0x80] *)
Definition link_local (gid : bytes) : bool :=
  (default 0 (gid !! 0%nat) =? 0xFE) && (Z.land (default 0 (gid !! 1%nat)) 0xC0 =? 0x80).
Definition gid_score (gid : bytes) (gid_type : str) : Z :=
  (if contains (lit "v2") (lower (strip gid_type)) then 4 else 0)
  + (if link_local gid then 0 else 2).

Section Setup.
Context `{!PyText} {W : Type} `{!GroupDevice W} `{!Clock W} `{!SockRecv obj W} `{!RcQp obj W}
  `{!SetupDevice W}.
Abbreviation G := (M (St W)).

Definition _require_torch_nightly : G unit :=
  nightly ← ask (λ w, (su_nightly w, w)); guard_raise (negb nightly) RuntimeError.

Fixpoint find_name (name : str) (names : list str) (index : nat) : G nat :=
  match names with
  | [] => raise RuntimeError
  | n :: names => if bool_decide (n = name) then mret index else find_name name names (S index)
  end.
Definition _find_device (name : str) : G nat :=
  names ← call su_device_names; find_name name names 0.

(** The loop of [_find_gid_index]; [best] is a score and an index. *)
Fixpoint scan_gids (port : Z) (indices : list Z) (best : option (Z * Z)) : G (option (Z * Z)) :=
  match indices with
  | [] => mret best
  | index :: indices =>
      gid ← call (dv_gid port index);
      if bool_decide (gid = replicate 16 0) then scan_gids port indices best
      else
        gid_type ← try_except (call (dv_gid_type port index))
          (λ e, if is_OSError e then mret [] else raise e);
        let score := gid_score gid gid_type in
        scan_gids port indices
          (match best with
           | Some (s, _) => if s <? score then Some (score, index) else best
           | None => Some (score, index)
           end)
  end.
Definition _find_gid_index (port : Z) : G Z :=
  len ← call (dv_gid_tbl_len port);
  best ← scan_gids port (seqZ 0 len) None;
  match best with Some (_, index) => mret index | None => raise RuntimeError end.

(** * ProcessGroup.__init__ *)

Definition register_tensor (t : CudaTensor) : G Mr :=
  om ← opened KMr (su_register t);
  let '(addr, lkey, rkey) := om.2 in mret (mk_Mr om.1 addr lkey rkey).

(** The checks of the arguments: the stable rank, qps, bytes and timeout. *)
Definition init_checks (a : InitArgs) : result (Z * Z * Z * Z) :=
  let stable_rank := default (ia_rank a) (ia_stable_rank a) in
  let qps := default (ia_num_sms a) (ia_qps a) in
  raise_if (stable_rank <? 0) ValueError;;
  raise_if ((qps <=? 0) || (ia_num_sms a <=? 0) || (ia_queue_depth a <=? 0)) ValueError;;
  raise_if (qps <? ia_num_sms a) ValueError;;
  raise_if (negb (bool_decide (ia_nic_handler a ∈ [lit "gpu"; lit "auto"; lit "cpu"]))) ValueError;;
  work_bytes ← _tensor_nbytes (ia_work a);
  scratch_bytes ← _tensor_nbytes (ia_scratch a);
  raise_if ((work_bytes <=? 0) || (scratch_bytes <? work_bytes)) ValueError;;
  let ptr t := default 0 (ct_data_ptr t) in
  raise_if (negb (ptr (ia_work a) `mod` 16 =? 0) || negb (ptr (ia_scratch a) `mod` 16 =? 0))
    ValueError;;
  timeout ← _seconds (ia_timeout a) 30000000000;
  Ok (stable_rank, qps, work_bytes, timeout).

(** The memory regions, the listener and the handle. *)
Definition init_resources (a : InitArgs) (stable_rank qps work_bytes : Z) : G Config :=
  work_mr ← register_tensor (ia_work a);
  scratch_mr ← on_exception (register_tensor (ia_scratch a)) (Mr_close work_mr);
  listener ← opened KListener su_socket;
  let sock := listener.1 in
  call (su_setsockopt sock);;
  on_exception
    (call (su_bind sock (ia_bind_host a) (ia_rendezvous_port a));; call (su_listen sock 16))
    (Mr_close scratch_mr;; Mr_close work_mr;; close_obj sock);;
  bound_port ← call (su_getsockname sock);
  host ← match ia_advertise_host a with
         | Some (_ :: _ as host) => mret host
         | _ => ask su_getfqdn
         end;
  gid ← call (dv_gid (ia_port a) (ia_gid_index a));
  nonce ← ask su_uuid4;
  name ← ask (λ w, (su_context_name (ia_context a) w, w));
  let info := mk_HandleInfo stable_rank nonce host bound_port name (ia_port a) (ia_gid_index a)
                gid work_bytes qps (ia_num_sms a) in
  mret (mk_Config (_encode_handle (JObj (handle_fields info))) (ia_port a) (ia_gid_index a)
    qps (ia_num_sms a) (ia_queue_depth a) work_bytes
    (default 0 (ct_data_ptr (ia_work a))) (default 0 (ct_data_ptr (ia_scratch a)))
    work_mr scratch_mr sock (ia_pd a) (ia_context a)).

Definition init (a : InitArgs) : G Config :=
  _require_torch_nightly;;
  call (su_super (ia_rank a) (ia_size a));;
  '(stable_rank, qps, work_bytes, timeout) ← lift (init_checks a);
  update (λ _, fresh_comm timeout);;
  init_resources a stable_rank qps work_bytes.

(** * ProcessGroup.create *)

Definition store_key (group_id : str) (rank : Z) : str :=
  lit "ibverbs-initial-" ++ (if bool_decide (group_id = []) then lit "default" else group_id)
  ++ [47] ++ int_repr rank.
Fixpoint store_handles (group_id : str) (ranks : list Z) : G (list str) :=
  match ranks with
  | [] => mret []
  | rank :: ranks =>
      raw ← call (su_store_get (store_key group_id rank));
      handle ← lift (decode raw);
      handles ← store_handles group_id ranks;
      mret (handle :: handles)
  end.
Definition _initialize (fuel : nat) (cfg : Config) (rank size : Z) (group_id : str)
    (timeout : Duration) : G (option unit) :=
  handle ← get_reconfigure_handle cfg;
  call (su_store_set (store_key group_id rank) handle);;
  handles ← store_handles group_id (seqZ 0 size);
  r ← _reconfigure cfg fuel 0 true handles (Some timeout);
  mret (match r with Some _ => Some tt | None => None end).

(** The first [try] of [create]. *)
Definition create_group (rank size : Z) (o : ProcessGroupOptions) (timeout : Duration)
    (gpu : Z) (context pd : obj) : G Config :=
  gid_index ← match op_gid_index o with
              | Some g => mret g
              | None => _find_gid_index (op_port o)
              end;
  work ← call (su_empty (op_max_bytes o) gpu);
  scratch ← call (su_empty (op_max_bytes o) gpu);
  init (mk_InitArgs rank size context pd work scratch (op_stable_rank o) gid_index (op_port o)
          (op_advertise_host o) (op_bind_host o) (op_rendezvous_port o) (op_qps o)
          (op_num_sms o) (Some timeout) (op_queue_depth o) (op_nic_handler o)).

(** [None] is a reconfiguration that was still waiting when the fuel ended. *)
Definition create (fuel : nat) (rank size : Z) (o : ProcessGroupOptions) (timeout : Duration)
    (initialize : bool) (group_id : str) : G (option Config) :=
  _require_torch_nightly;;
  gpu ← match op_gpu o with Some gpu => mret gpu | None => call su_current_device end;
  call (su_set_device gpu);;
  device ← _find_device (op_hca o);
  context ← opened KContext (su_open_device device);
  pd ← opened KPd (su_alloc_pd context.1);
  cfg ← on_exception (create_group rank size o timeout gpu context.1 pd.1)
          (close_obj pd.1;; close_obj context.1);
  r ← on_exception
        (if initialize then _initialize fuel cfg rank size group_id timeout else mret (Some tt))
        (close cfg);
  mret (match r with Some _ => Some cfg | None => None end).

(** * The backend *)

Record DistOptions := mk_DistOptions {
  do_global_ranks : list Z;
  do_group_rank : Z;
  do_group_size : Z;
  do_timeout : Z;
  do_enable_reconfigure : bool;
  do_group_id : str;
}.

(** [l[i]] of a Python list *)
Definition py_index {A} (l : list A) (i : Z) : result A :=
  let k := if i <? 0 then i + Z.of_nat (length l) else i in
  match (if k <? 0 then None else l !! Z.to_nat k) with
  | Some a => Ok a
  | None => Raise IndexError
  end.
Definition with_stable_rank (o : ProcessGroupOptions) (rank : Z) : ProcessGroupOptions :=
  mk_Options (op_hca o) (op_max_bytes o) (op_gpu o) (op_gid_index o) (op_port o) (op_num_sms o)
    (op_qps o) (op_queue_depth o) (op_advertise_host o) (op_bind_host o)
    (op_rendezvous_port o) (op_nic_handler o) (Some rank).
(** The options with the stable rank that the job's global ranks give. *)
Definition backend_options (d : DistOptions) (o : ProcessGroupOptions) :
    result ProcessGroupOptions :=
  match op_stable_rank o, do_global_ranks d with
  | None, _ :: _ =>
      r ← py_index (do_global_ranks d) (do_group_rank d);
      Options_init (with_stable_rank o r)
  | _, _ => Ok o
  end.
(** [None]: the options are no ProcessGroupOptions. *)
Definition _create_backend (fuel : nat) (d : DistOptions) (o : option ProcessGroupOptions) :
    G (option Config) :=
  match o with
  | None => raise TypeError
  | Some o =>
      o ← lift (backend_options d o);
      create fuel (do_group_rank d) (do_group_size d) o (Timedelta (do_timeout d))
        (negb (do_enable_reconfigure d)) (do_group_id d)
  end.
End Setup.

(** * Theorems *)

(** ** The checks *)

Lemma raise_if_ok {A} b e (r : result A) a : (raise_if b e;; r) = Ok a ↔ b = false ∧ r = Ok a.
Proof. destruct b; cbn; split; [done|by intros []|done|by intros []]. Qed.

(** What a constructor that gets past its checks knows of its arguments. *)
Lemma init_checks_ok a stable_rank qps work_bytes timeout :
  init_checks a = Ok (stable_rank, qps, work_bytes, timeout) →
  0 ≤ stable_rank ∧ 0 < ia_num_sms a ≤ qps ∧ 0 < ia_queue_depth a ∧ 0 < work_bytes ∧ 0 < timeout ∧
  _tensor_nbytes (ia_work a) = Ok work_bytes ∧
  (∃ scratch_bytes, _tensor_nbytes (ia_scratch a) = Ok scratch_bytes ∧ work_bytes ≤ scratch_bytes) ∧
  (default 0 (ct_data_ptr (ia_work a)) `mod` 16 = 0 ∧
   default 0 (ct_data_ptr (ia_scratch a)) `mod` 16 = 0).
Proof.
  unfold init_checks. cbv zeta. rewrite !raise_if_ok. intros (H1 & H2 & H3 & H4 & H).
  destruct (_tensor_nbytes (ia_work a)) as [wb|]; [|done]. cbn [mbind result_bind] in H.
  destruct (_tensor_nbytes (ia_scratch a)) as [sb|]; [|done]. cbn [mbind result_bind] in H.
  apply raise_if_ok in H as [H5 H]. apply raise_if_ok in H as [H6 H].
  unfold _seconds in H. destruct (duration_ns _) as [ns|]; [|done].
  destruct (ns <=? 0) eqn:E; [done|]. injection H as <- <- <- <-.
  split_and!; try lia; [done|]. exists sb. split; [done|lia].
Qed.

(** ** What construction opens *)

(** The calls between the listener and the handle, which the source does not
    protect, and the allocation of the protection domain answer. *)
Class SetupAnswers (W : Type) `{!SetupDevice W} := {
  socket_ok : ∀ w, is_Ok (su_socket w).1;
  setsockopt_ok : ∀ o w, is_Ok (su_setsockopt o w).1;
  getsockname_ok : ∀ o w, is_Ok (su_getsockname o w).1;
  alloc_pd_ok : ∀ o w, is_Ok (su_alloc_pd o w).1;
}.

Section SetupTheorems.
Context `{!PyText} {W : Type} `{!GroupDevice W} `{!Clock W} `{!SockRecv obj W} `{!RcQp obj W}
  `{!SetupDevice W}.
Context `{!CloseLaws W} `{!PortAnswers W} `{!SetupAnswers W}.
Implicit Types s : St W.
Implicit Types l rest : list obj.

#[local] Instance setup_open_preorder : PreOrder (@same_open W).
Proof using.
  split; [done|]. intros s1 s2 s3 [H1 H2] [H3 H4]. unfold same_open. by rewrite H3, H4.
Qed.
#[local] Hint Resolve opens_call opens_ask opens_update opens_comm : along.

(** The group's own objects. *)
Definition group_objs (cfg : Config) : list obj :=
  [cf_listener cfg; mr_obj (cf_scratch_mr cfg); mr_obj (cf_work_mr cfg); cf_pd cfg; cf_context cfg].

Lemma wp_call_ok {A} (f : W → result A * W) l s :
  (∀ w, is_Ok (f w).1) → owns l s → wp (call f) (λ _, owns l) never s.
Proof using.
  intros Hf Hl. unfold wp, call, with_world. destruct (Hf (e_world (s_env s))) as [a Ha].
  destruct (f (e_world (s_env s))) as [r w]. cbn in Ha. subst r. by destruct Hl.
Qed.
Lemma wp_opened_ok k {A} (f : W → result A * W) l s :
  (∀ w, is_Ok (f w).1) → owns l s → wp (opened k f) (λ oa, owns (oa.1 :: l)) never s.
Proof using.
  intros Hf Hl. apply (wp_and_exn _ _ (λ _ _, True) (left_open l)); [by apply wp_opened|].
  unfold opened. apply wp_bind. eapply wp_mono; [by apply (wp_call_ok f l)| |done]. done.
Qed.

Lemma wp_register t l s :
  owns l s → wp (register_tensor t) (λ m, owns (mr_obj m :: l)) (left_open l) s.
Proof using.
  intros Hl. unfold register_tensor. apply wp_bind.
  eapply wp_mono; [by apply wp_opened| |done]. by intros [o [[addr lkey] rkey]] s1 H1.
Qed.

(** A step that opens nothing, and one that cannot fail. *)
Lemma wp_step {A B} (m : M (St W) A) (f : A → M (St W) B) Q l s :
  along same_open m → owns l s → (∀ a s', owns l s' → wp (f a) Q (left_open l) s') →
  wp (m ≫= f) Q (left_open l) s.
Proof using. intros Hm Hl Hf. apply wp_bind. eapply wp_mono; [by apply (wp_opens m l)|auto|done]. Qed.
Lemma wp_safe {A B} (m : M (St W) A) (f : A → M (St W) B) Q E l s :
  wp m (λ _, owns l) never s → (∀ a s', owns l s' → wp (f a) Q E s') → wp (m ≫= f) Q E s.
Proof using. intros Hm Hf. apply wp_bind. eapply wp_mono; [exact Hm|auto|intros ?? []]. Qed.

Lemma wp_init_resources a stable_rank qps work_bytes l s :
  owns l s →
  wp (init_resources a stable_rank qps work_bytes)
    (λ cfg, owns ([cf_listener cfg; mr_obj (cf_scratch_mr cfg); mr_obj (cf_work_mr cfg)] ++ l))
    (left_open l) s.
Proof using CloseLaws0 PortAnswers0 SetupAnswers0.
  intros Hl. unfold init_resources. apply wp_bind.
  eapply wp_mono; [by apply wp_register| |done]. intros work_mr s1 H1. apply wp_bind.
  eapply wp_mono; [apply (wp_on_exception _ _ _ [mr_obj work_mr]);
    [apply closes_obj|apply (wp_register _ (mr_obj work_mr :: l)); exact H1]| |done].
  intros scratch_mr s2 H2. apply wp_bind.
  eapply wp_mono; [apply wp_opened_ok; [apply socket_ok|exact H2]| |intros ?? []].
  intros listener s3 H3. cbv zeta.
  eapply wp_safe; [apply wp_call_ok; [apply setsockopt_ok|exact H3]|]. intros [] s4 H4.
  apply wp_bind.
  set (L := listener.1 :: mr_obj scratch_mr :: [mr_obj work_mr] ++ l) in *.
  eapply wp_mono with (λ _, owns L) _; [| |done].
  { apply (wp_on_exception _ _ _ [mr_obj scratch_mr; mr_obj work_mr; listener.1]).
    - apply (closes_seq _ _ [_] [_; _]); [apply closes_obj|].
      apply (closes_seq _ _ [_] [_]); apply closes_obj.
    - eapply wp_mono with (λ _, owns L) (left_open L); [| |].
      + apply wp_step; [apply opens_call|exact H4|]. intros [] s5 H5.
        apply wp_opens; [apply opens_call|exact H5].
      + done.
      + intros e s5 H5 He. eapply owns_perm; [apply H5, He|]. unfold L. cbn. solve_Permutation. }
  intros [] s5 H5.
  eapply wp_safe; [apply wp_call_ok; [apply getsockname_ok|exact H5]|]. intros port s6 H6.
  eapply wp_safe.
  { destruct (ia_advertise_host a) as [[|c host]|]; [|exact H6|]; apply wp_ask, H6. }
  intros host s7 H7.
  eapply wp_safe; [apply wp_call_ok; [|exact H7]|].
  { intros w. destruct (gid_answers (ia_port a) (ia_gid_index a) w) as (g & Hg & _). by exists g. }
  intros gid s8 H8. eapply wp_safe; [apply wp_ask, H8|]. intros nonce s9 H9.
  eapply wp_safe; [apply wp_ask, H9|]. intros name s10 H10. by apply wp_ret.
Qed.

#[local] Hint Resolve keeps_opened keeps_close_obj keeps_on_exception : along.
Lemma keeps_init_resources a stable_rank qps work_bytes :
  along (@same_comm W) (init_resources a stable_rank qps work_bytes).
Proof using.
  unfold init_resources, register_tensor, Mr_close. along.
Qed.

(** What is known of a configuration that [init] gives. *)
Record ConfigOk (port : Z) (pd context : obj) (cfg : Config) : Prop := mk_ConfigOk {
  co_port : cf_port cfg = port;
  co_pd : cf_pd cfg = pd;
  co_context : cf_context cfg = context;
  co_qps : 0 < cf_num_sms cfg ≤ cf_qps cfg;
  co_depth : 0 < cf_queue_depth cfg;
  co_bytes : 0 < cf_max_bytes cfg;
  co_aligned : cf_work_ptr cfg `mod` 16 = 0 ∧ cf_scratch_ptr cfg `mod` 16 = 0;
  co_handle : ∃ i, cf_handle cfg = _encode_handle (JObj (handle_fields i)) ∧
    0 ≤ hi_stable_rank i ∧ hi_ib_port i = port ∧ hi_gid_index i = cf_gid_index cfg ∧
    hi_max_bytes i = cf_max_bytes cfg ∧ hi_qps i = cf_qps cfg ∧ hi_num_sms i = cf_num_sms cfg;
}.

Ltac any := apply wp_bind; eapply wp_mono; [apply wp_trivial| |done]; intros ? ? _.

Lemma init_config a s :
  wp (init a) (λ cfg _, ConfigOk (ia_port a) (ia_pd a) (ia_context a) cfg) (λ _ _, True) s.
Proof using.
  unfold init. do 2 any. apply wp_bind, wp_lift.
  destruct (init_checks a) as [[[[stable_rank qps] work_bytes] timeout]|e] eqn:E; [|done].
  apply init_checks_ok in E as (H1 & H2 & H3 & H4 & H5 & H6 & H7 & H8). any.
  unfold init_resources. do 10 any. apply wp_ret. split; cbn; try done.
  eexists. split; [reflexivity|]. by cbn.
Qed.

(** The constructor: the communicator is fresh, and the group owns its two memory
    regions and its listener; or it raises, and nothing it opened is left. *)
Lemma wp_init a l s :
  owns l s →
  wp (init a)
    (λ cfg s', owns ([cf_listener cfg; mr_obj (cf_scratch_mr cfg); mr_obj (cf_work_mr cfg)] ++ l) s' ∧
       (∃ timeout, s_comm s' = fresh_comm timeout) ∧
       ConfigOk (ia_port a) (ia_pd a) (ia_context a) cfg)
    (left_open l) s.
Proof using CloseLaws0 PortAnswers0 SetupAnswers0.
  intros Hl.
  enough (wp (init a) (λ cfg s',
    owns ([cf_listener cfg; mr_obj (cf_scratch_mr cfg); mr_obj (cf_work_mr cfg)] ++ l) s' ∧
    ∃ timeout, s_comm s' = fresh_comm timeout) (left_open l) s) as Hwp.
  { eapply wp_mono; [apply wp_conj; [exact Hwp|apply init_config]| |].
    - intros cfg s' [[H1 H2] H3]. by split_and!.
    - by intros e s' [H1 _]. }
  unfold init. apply wp_step; [unfold _require_torch_nightly; along|exact Hl|].
  intros _ s1 H1. apply wp_step; [apply opens_call|exact H1|]. intros _ s2 H2.
  apply wp_bind, wp_lift.
  destruct (init_checks a) as [[[[stable_rank qps] work_bytes] timeout]|e]; [|by intros _].
  apply wp_bind, wp_update.
  eapply wp_mono; [apply wp_conj; [apply (wp_init_resources _ _ _ _ l)|
    apply wp_keeps_comm, keeps_init_resources]| |].
  - by apply (owns_update (λ _, fresh_comm timeout)).
  - intros cfg s' [H3 Hk]. split; [exact H3|]. by exists timeout.
  - by intros e s' [H3 _].
Qed.

(** Closing a group closes what it owns. *)
Lemma wp_close_group cfg rest s :
  g_closed (s_comm s) = false → holds (group_objs cfg ++ rest) s →
  wp (close cfg) (λ _, owns rest) never s.
Proof using CloseLaws0.
  intros Hc [Hok Hl]. unfold close. apply wp_bind, wp_comm. rewrite Hc. apply wp_bind.
  eapply wp_mono; [by apply closes_close_lanes| |done]. intros [] s1 H1.
  assert (closes (close_obj (cf_listener cfg);; Mr_close (cf_scratch_mr cfg);;
    Mr_close (cf_work_mr cfg);; close_obj (cf_pd cfg);; close_obj (cf_context cfg))
    (group_objs cfg)) as Hcl.
  { repeat (apply (closes_seq _ _ [_]); [apply closes_obj|]). apply closes_obj. }
  specialize (Hcl rest s1 H1).
  do 4 (apply wp_bind; apply wp_bind in Hcl; eapply wp_mono; [exact Hcl| |done];
          clear Hcl; intros [] ? Hcl).
  apply wp_bind. eapply wp_mono; [exact Hcl| |done]. intros [] s2 H2. apply wp_update.
  by apply (owns_update set_closed).
Qed.

Lemma opens_scan_gids port indices best : along same_open (scan_gids port indices best).
Proof using. revert best. induction indices; intros best; cbn [scan_gids]; along. Qed.
Lemma opens_find_gid_index port : along same_open (_find_gid_index port).
Proof using. pose proof opens_scan_gids. unfold _find_gid_index. along. Qed.
Lemma opens_find_device name : along same_open (_find_device name).
Proof using.
  unfold _find_device. apply along_bind; [apply _|along|]. intros names.
  generalize 0%nat as index. induction names; intros index; cbn [find_name]; along.
Qed.
Lemma keeps_store_handles group_id ranks : along (@same_comm W) (store_handles group_id ranks).
Proof using. induction ranks; cbn [store_handles]; along. Qed.
Lemma opens_store_handles group_id ranks : along same_open (store_handles group_id ranks).
Proof using. induction ranks; cbn [store_handles]; along. Qed.

Lemma wp_create_group rank size o timeout gpu context pd l s :
  owns l s →
  wp (create_group rank size o timeout gpu context pd)
    (λ cfg s', owns ([cf_listener cfg; mr_obj (cf_scratch_mr cfg); mr_obj (cf_work_mr cfg)] ++ l) s' ∧
       (∃ timeout, s_comm s' = fresh_comm timeout) ∧ ConfigOk (op_port o) pd context cfg)
    (left_open l) s.
Proof using CloseLaws0 PortAnswers0 SetupAnswers0.
  intros Hl. unfold create_group. apply wp_step; [|exact Hl|].
  { destruct (op_gid_index o); [along|apply opens_find_gid_index]. }
  intros gid_index s1 H1. apply wp_step; [along|exact H1|]. intros work s2 H2.
  apply wp_step; [along|exact H2|]. intros scratch s3 H3.
  eapply wp_mono; [by apply (wp_init _ l)| |done]. done.
Qed.

(** Forming the first ring: the group holds its lanes, or raises with nothing more than
    its own objects to close. *)
Lemma wp_initialize fuel cfg rank size group_id timeout t rest s :
  1 ≤ cf_port cfg ≤ 0xFF → s_comm s = fresh_comm t → owns rest s →
  wp (_initialize fuel cfg rank size group_id timeout)
    (λ r s', r = Some tt → holds rest s' ∧ g_closed (s_comm s') = false ∧
       g_uuid (s_comm s') = Some 0)
    (λ e s', is_Exception e = true → holds rest s' ∧ g_closed (s_comm s') = false) s.
Proof using CloseLaws0 PortAnswers0.
  intros Hport Hs Hl. unfold _initialize.
  assert (Hfresh : ∀ s', s_comm s' = s_comm s → owns rest s' →
    holds rest s' ∧ g_closed (s_comm s') = false).
  { intros s' Hk Hl'. unfold holds, comm_ok, comm_objs. by rewrite Hk, Hs. }
  assert (Hstep : ∀ {A B} (m : M (St W) A) (f : A → M (St W) B) Q s0,
    along same_open m → along same_comm m → owns rest s0 → s_comm s0 = s_comm s →
    (∀ a s', owns rest s' → s_comm s' = s_comm s →
       wp (f a) Q (λ e s', is_Exception e = true → holds rest s' ∧ g_closed (s_comm s') = false) s') →
    wp (m ≫= f) Q
      (λ e s', is_Exception e = true → holds rest s' ∧ g_closed (s_comm s') = false) s0).
  { intros A B m f Q s0 Ho Hk H0 Hc Hf. apply wp_bind.
    eapply wp_mono; [apply wp_conj; [apply (wp_opens m rest); done|by apply wp_keeps_comm]| |].
    - intros a s' [H1 H2]. apply Hf; [exact H1|congruence].
    - intros e s' [H1 H2] He. apply Hfresh; [congruence|by apply H1]. }
  apply Hstep; [unfold get_reconfigure_handle; along..|exact Hl|done|]. intros handle s1 H1 K1.
  apply Hstep; [along..|exact H1|done|]. intros _ s2 H2 K2.
  apply Hstep; [apply opens_store_handles|apply keeps_store_handles|exact H2|done|].
  intros handles s3 H3 K3. apply wp_bind.
  eapply wp_mono; [apply wp_conj; [apply (wp_reconfigure_holds cfg fuel 0 true handles (Some timeout) rest)|
    apply wp_reconfigure]| |].
  - done.
  - by apply Hfresh.
  - intros [r|] s4 [H4 K4]; apply wp_ret; [|done]. intros _.
    destruct K4 as (_ & _ & members & _ & _ & Hf). split; [by apply H4|].
    rewrite (fm_closed _ _ _ _ _ _ Hf), (fm_uuid _ _ _ _ _ _ Hf), K3, Hs. done.
  - intros e s4 [H4 K4] He. split; [by apply H4|]. rewrite K3, Hs in K4.
    by destruct (K4 He) as [->| ->].
Qed.

End SetupTheorems.

(** ** The choice of a GID *)

Section Gids.
Context `{!PyText} {W : Type} `{!GroupDevice W} `{!Clock W} `{!SockRecv obj W} `{!RcQp obj W}.
Context (port n : Z) (gid_at : Z → bytes) (type_at : Z → str).
Implicit Types s : St W.

(** The port's table of [n] entries does not change; a type that cannot be read is
    empty. *)
Record GidTable : Prop := mk_GidTable {
  gt_len : ∀ w, (dv_gid_tbl_len port w).1 = Ok n;
  gt_gid : ∀ i w, (dv_gid port i w).1 = Ok (gid_at i);
  gt_type : ∀ i w, (dv_gid_type port i w).1 = Ok (type_at i) ∨
    type_at i = [] ∧ ∃ e, (dv_gid_type port i w).1 = Raise e ∧ is_OSError e = true;
}.

Definition gid_usable (i : Z) : Prop := gid_at i ≠ replicate 16 0.
Definition score_at (i : Z) : Z := gid_score (gid_at i) (type_at i).

(** The best entry below [k]: the first of those with the highest score. *)
Definition best_below (k : Z) (best : option (Z * Z)) : Prop :=
  match best with
  | None => ∀ j, 0 ≤ j < k → ¬ gid_usable j
  | Some (score, i) =>
      0 ≤ i < k ∧ gid_usable i ∧ score = score_at i ∧
      ∀ j, 0 ≤ j < k → gid_usable j → score_at j ≤ score ∧ (score_at j = score → i ≤ j)
  end.

Lemma wp_answer {A} (f : W → result A * W) a Q E s :
  (∀ w, (f w).1 = Ok a) → (∀ s', Q a s') → wp (call f) Q E s.
Proof using.
  intros Hf HQ. unfold wp, call, with_world. specialize (Hf (e_world (s_env s))).
  destruct (f (e_world (s_env s))) as [r w]. cbn in Hf. by subst r.
Qed.

Lemma best_below_step k best :
  0 ≤ k → best_below k best →
  (¬ gid_usable k → best_below (k + 1) best) ∧
  (gid_usable k → best_below (k + 1)
     (match best with
      | Some (s, _) => if s <? score_at k then Some (score_at k, k) else best
      | None => Some (score_at k, k)
      end)).
Proof using.
  intros Hk Hb. assert (∀ j, 0 ≤ j < k + 1 ↔ 0 ≤ j < k ∨ j = k) as Hj by lia.
  destruct best as [[sc i]|]; cbn in *.
  - destruct Hb as (Hi & Hu & -> & Hbest). split; intros Hk'.
    + split_and!; [lia|lia|done|done|]. intros j [?| ->]%Hj Hu'; [auto|done].
    + destruct (score_at i <? score_at k) eqn:E; cbn; split_and!; try done; try lia.
      * intros j [Hlt| ->]%Hj Hu'; [|lia]. destruct (Hbest j Hlt Hu'). lia.
      * intros j [Hlt| ->]%Hj Hu'; [auto|lia].
  - split; intros Hk'.
    + intros j [?| ->]%Hj; [auto|done].
    + split_and!; [lia|lia|done|done|]. intros j [Hlt| ->]%Hj Hu'; [by apply Hb in Hu'|lia].
Qed.

Lemma wp_scan_gids m k best s :
  GidTable → 0 ≤ k → best_below k best →
  wp (scan_gids port (seqZ k (Z.of_nat m)) best)
    (λ r _, best_below (k + Z.of_nat m) r) (λ _ _, False) s.
Proof using.
  intros Ht. revert k best s. induction m as [|m IH]; intros k best s Hk Hb.
  { apply wp_ret. by rewrite Z.add_0_r. }
  rewrite seqZ_cons by lia. replace (Z.pred (Z.of_nat (S m))) with (Z.of_nat m) by lia.
  replace (k + Z.of_nat (S m)) with (Z.succ k + Z.of_nat m) by lia.
  destruct (best_below_step k best Hk Hb) as [Hno Hyes]. rewrite <- Z.add_1_r.
  cbn [scan_gids]. apply wp_bind. eapply wp_answer; [apply (gt_gid Ht)|]. intros s1.
  case_bool_decide as Hz; [apply IH; [lia|by apply Hno; intros Hu]|].
  apply wp_bind. assert (Htype : ∀ Q : str → St W → Prop, (∀ s', Q (type_at k) s') →
    wp (try_except (call (dv_gid_type port k)) (λ e, if is_OSError e then mret [] else raise e))
      Q (λ _ _, False) s1).
  { intros Q HQ. apply wp_try_except. unfold wp at 1, call, with_world.
    pose proof (gt_type Ht k (e_world (s_env s1))) as Hty.
    destruct (dv_gid_type port k _) as [r w]. cbn in Hty.
    destruct Hty as [-> |(He & e & -> & Hos)]; [apply HQ|]. cbv beta. rewrite Hos.
    apply wp_ret. rewrite <- He. apply HQ. }
  apply Htype. intros s2. apply IH; [lia|]. by apply Hyes.
Qed.

(** The GID chosen is a usable one of the highest score, the first of these; there is
    none only when no entry of the table is usable. *)
Theorem find_gid_index_spec s :
  GidTable → 0 ≤ n →
  match (_find_gid_index port s).1 with
  | Ok i => 0 ≤ i < n ∧ gid_usable i ∧
      ∀ j, 0 ≤ j < n → gid_usable j → score_at j ≤ score_at i ∧ (score_at j = score_at i → i ≤ j)
  | Raise e => e = RuntimeError ∧ ∀ j, 0 ≤ j < n → ¬ gid_usable j
  end.
Proof using.
  intros Ht Hn.
  assert (wp (_find_gid_index port)
    (λ i _, 0 ≤ i < n ∧ gid_usable i ∧
      ∀ j, 0 ≤ j < n → gid_usable j → score_at j ≤ score_at i ∧ (score_at j = score_at i → i ≤ j))
    (λ e _, e = RuntimeError ∧ ∀ j, 0 ≤ j < n → ¬ gid_usable j) s) as Hwp.
  2: { unfold wp in Hwp. by destruct (_find_gid_index port s) as [[i|e] s']. }
  unfold _find_gid_index. apply wp_bind. eapply wp_answer; [apply (gt_len Ht)|]. intros s1.
  apply wp_bind. rewrite <- (Z2Nat.id n) by done.
  eapply wp_mono; [apply (wp_scan_gids _ 0 None); [done|lia|intros j ?; lia]| |intros ?? []].
  intros [[sc i]|] s2 Hb; cbn in Hb; [|by apply wp_raise].
  apply wp_ret. by destruct Hb as (Hi & Hu & -> & Hbest).
Qed.
End Gids.
