(* ===== verification/GroupExamples.v ===== *)
(** A process group run on a scripted device: the hypotheses of the theorems on
    groups hold, and what a failing port or GID query leaves open. *)

From S2P Require Import Prelude Bytes Verbs Helpers Json Stream Handles ProcessGroup.
From S2P Require Import GroupSetup GroupTheorems Agreement GroupResources GroupProgress.
#[local] Open Scope Z_scope.

Lemma wp_returned {S A} (m : M S A) Q E s a s' : wp m Q E s → m s = (Ok a, s') → Q a s'.
Proof. unfold wp. intros Hw Hm. by rewrite Hm in Hw. Qed.

Module Simulated.
#[local] Existing Instance Messages.no_text.

(** What the peers will send, in the order it is read, and the clock. *)
Record world := mk_world { w_stream : bytes; w_clock : Z }.

#[local] Instance recv : SockRecv obj world := λ _ n w,
  (Ok (take (Z.to_nat n) (w_stream w)), mk_world (drop (Z.to_nat n) (w_stream w)) (w_clock w)).

#[local] Instance clock : Clock world := λ w, (w_clock w, mk_world (w_stream w) (w_clock w + 1)).
#[local] Instance clock_laws : ClockLaws world.
Proof. refine {| now := w_clock |}; [done|]. intros w. cbn. lia. Defined.

#[local] Instance qps : RcQp obj world := {|
  qp_active_mtu := λ _ _ w, (Ok 5, w);
  qp_to_init := λ _ _ _ w, (Ok tt, w);
  qp_to_rtr := λ _ _ _ _ _ w, (Ok tt, w);
  qp_to_rts := λ _ _ _ w, (Ok tt, w);
|}.

(** A device of one port, whose port and GID queries fail unless [port_up] and [gid_up]. *)
Definition device (port_up gid_up : bool) : GroupDevice world := {|
  dv_create_cq := λ _ w, (Ok tt, w);
  dv_create_qp := λ _ _ _ w, (Ok tt, w);
  dv_close := λ _ w, (Ok tt, w);
  dv_qp_num := λ _ _, 17;
  dv_port := λ _ w, (if port_up then Ok (1, 5) else Raise (VerbsError 5), w);
  dv_gid_tbl_len := λ _ w, (Ok 1, w);
  dv_gid := λ _ _ w, (if gid_up then Ok (replicate 16 254) else Raise (VerbsError 22), w);
  dv_gid_type := λ _ _ w, (Ok (lit "RoCE v2"), w);
  dv_export := λ o w, (Ok (4096 * Z.of_nat (o_id o)), w);
  dv_mem_alloc := λ _ w, ((0, 65536), w);
  dv_mem_free := λ _ w, (0, w);
  dv_htod := λ _ _ w, (0, w);
  dv_dtoh := λ _ n w, ((0, replicate (Z.to_nat (n / 4)) 0), w);
  dv_memset := λ _ _ _ w, (0, w);
  dv_get_device := λ w, ((0, 0), w);
  dv_get_attribute := λ _ _ w, ((0, 1000000), w);
  dv_reg_signal := λ w, (Ok (8192, 3, 4), w);
  dv_connect := λ _ _ _ w, (Ok tt, w);
  dv_set_timeout := λ _ _ w, w;
  dv_sendall := λ _ _ w, (Ok tt, w);
  dv_select := λ _ w, (Ok true, w);
  dv_accept := λ w, (Ok tt, w);
  dv_sleep := λ _ w, w;
  dv_copy := λ _ _ _ _ w, (Ok tt, w);
  dv_ring := λ _ w, (Ok tt, w);
  dv_synchronize := λ w, (Ok tt, w);
|}.

#[local] Instance up : GroupDevice world := device true true.

#[local] Instance close_laws : CloseLaws world.
Proof. by split. Defined.
#[local] Instance port_laws : PortAnswers world.
Proof.
  split; [|intros p i w; by exists (replicate 16 254)|intros o w; cbn; lia].
  intros p w. exists 1, 5. split; [done|lia].
Defined.
#[local] Instance group_clock : GroupClock world.
Proof. split; intros; cbn; lia. Defined.

(** Two members with two lanes each way. *)
Definition info (rank : Z) : HandleInfo :=
  mk_HandleInfo rank (lit "6f2c") (lit "node") (5000 + rank) (lit "mlx5_0") 1 3
    (replicate 16 254) 4096 2 2.
Definition handle (rank : Z) : str := _encode_handle (JObj (handle_fields (info rank))).

Definition mr (n : nat) : Mr := mk_Mr (mk_obj KMr n) 4096 1 2.
Definition config (rank : Z) : Config :=
  mk_Config (handle rank) 1 3 2 2 64 4096 65536 131072 (mr 3) (mr 4) (mk_obj KListener 2)
    (mk_obj KPd 1) (mk_obj KContext 0).
Definition owned : list obj :=
  [mk_obj KContext 0; mk_obj KPd 1; mk_obj KListener 2; mk_obj KMr 3; mk_obj KMr 4].

Definition endpoints : json := JList (replicate 2
  (_qp_info_dict (mk_QPInfo 99 0 1 (replicate 16 254) 1 5))).
Definition peer_message (key : string) : bytes :=
  match frame_bytes (JObj [(lit "uuid", JInt 7); (lit "handle", JStr (handle 1));
    (lit key, endpoints); (lit "buffers", _buffer_info (config 1))]) with
  | Ok b => b | Raise _ => [] end.

(** A new group of rank 0, with both messages of rank 1 on their way. *)
Definition start : St world :=
  mk_St (fresh_comm 1000000000)
    (mk_Env owned 5 (mk_world (peer_message "outgoing" ++ peer_message "incoming") 0)).

Definition formed : result (option Z) * St world :=
  _reconfigure (config 0) 4 7 true [handle 0; handle 1] None start.

Lemma formed_run :
  formed = _reconfigure (config 0) 4 7 true [handle 0; handle 1] None start.
Proof. unfold formed. reflexivity. Qed.

Lemma formed_ok : formed.1 = Ok (Some 0).
Proof. vm_compute. reflexivity. Qed.

Lemma start_holds : holds owned start.
Proof.
  split; [done|]. split; cbn; [done| |].
  - assert (bool_decide (NoDup owned) = true) as Hnd by (vm_compute; reflexivity).
    by apply bool_decide_eq_true in Hnd.
  - unfold owned. rewrite !Forall_cons, Forall_nil. cbn. lia.
Qed.


(** With four rounds of fuel for a timeout of four ticks, it returns. *)
Lemma reconfigure_returns_witness :
  (_reconfigure (config 0) 4 7 true [handle 0; handle 1] (Some (Seconds 4)) start).1 ≠ Ok None.
Proof.
  apply (reconfigure_returns (config 0)); [lia|]. intros seconds Hs.
  injection Hs as <-. lia.
Defined.

(** After the ring has formed, the group is in its invariant. *)
Lemma group_invariant_witness : GroupInv (config 0) (s_comm formed.2).
Proof.
  apply (group_invariant (config 0) 1000000000 (s_env start)).
  apply rtc_once. apply (group_step_op (config 0) _
    (OpReconfigure 4 7 true [handle 0; handle 1] None) (Ok tt)); [|done].
  cbn [run_op]. unfold reconfigure, mbind, M_bind. cbn [_timeout_value].
  change (mk_St _ _) with start. rewrite <- formed_run. pose proof formed_ok as Hok. destruct formed as [r s']. cbn in Hok. by subst r.
Defined.

(** Ranks 0 and 1 agree on the ring, by position and by stable rank. *)
Lemma ring_agreement_witness :
  ∃ members, order_members (config 0) false [handle 1; handle 0] = Ok members ∧
    order_members (config 1) false [handle 0; handle 1] = Ok members ∧
    0 ≤ 1 < Z.of_nat (length members).
Proof.
  assert (∃ m, order_members (config 0) false [handle 1; handle 0] = Ok m ∧
    Forall int_rank m ∧ index_of (handle 0) m = Some 0 ∧
    order_members (config 1) false [handle 0; handle 1] = Ok m ∧
    index_of (handle 1) m = Some 1) as (m & Ha & Hint & Hia & Hb & Hib).
  { eexists. split; [vm_compute; reflexivity|].
    split; [rewrite !Forall_cons, Forall_nil; split_and!; try done; by eexists|].
    split_and!; vm_compute; reflexivity. }
  assert (handle 0 ≠ handle 1) as Hne.
  { assert (bool_decide (handle 0 = handle 1) = false) as Hb' by (vm_compute; reflexivity).
    by apply bool_decide_eq_false in Hb'. }
  destruct (ring_agreement false (config 0) (config 1) [handle 1; handle 0] [handle 0; handle 1]
    m m 0 1 Ha Hb (Permutation_swap _ _ _) (λ _, Hint) Hne Hia Hib)
    as (_ & _ & Hrange & _).
  exists m. split; [exact Ha|]. split; [exact Hb|exact Hrange].
Defined.

(** The port query of [_lane_infos(outgoing)] is made before the [try] that closes
    the lanes: when it fails, every queue pair and completion queue of the new
    lanes stays open and no object owns it. *)
Definition port_down : result (option Z) * St world :=
  @_reconfigure _ world (device false true) _ _ _ (config 0) 4 7 true [handle 0; handle 1] None start.

Theorem reconfigure_lane_leak :
  port_down.1 = Raise (VerbsError 5) ∧
  g_outgoing (s_comm port_down.2) = [] ∧ g_incoming (s_comm port_down.2) = [] ∧
  length (filter (λ o, o_kind o = KQp) (e_open (s_env port_down.2))) = 4%nat ∧
  length (filter (λ o, o_kind o = KCq) (e_open (s_env port_down.2))) = 4%nat.
Proof. vm_compute. repeat split. Qed.

(** ** Construction *)

Definition staging (ptr : Z) : CudaTensor :=
  mk_CudaTensor (Some ptr) (Some true) (Some true) (Some 4096) (Some 1) (Some 4096) (lit "uint8").

(** The store answers with the handle of rank 0. *)
#[local] Instance setup : SetupDevice world := {|
  su_nightly := λ _, true;
  su_super := λ _ _ w, (Ok tt, w);
  su_register := λ _ w, (Ok (65536, 1, 2), w);
  su_socket := λ w, (Ok tt, w);
  su_setsockopt := λ _ w, (Ok tt, w);
  su_bind := λ _ _ _ w, (Ok tt, w);
  su_listen := λ _ _ w, (Ok tt, w);
  su_getsockname := λ _ w, (Ok 5000, w);
  su_getfqdn := λ w, (lit "node", w);
  su_uuid4 := λ w, (lit "6f2c", w);
  su_context_name := λ _ _, lit "mlx5_0";
  su_current_device := λ w, (Ok 0, w);
  su_set_device := λ _ w, (Ok tt, w);
  su_device_names := λ w, (Ok [lit "mlx5_1"; lit "mlx5_0"], w);
  su_open_device := λ _ w, (Ok tt, w);
  su_alloc_pd := λ _ w, (Ok tt, w);
  su_empty := λ _ _ w, (Ok (staging 65536), w);
  su_store_set := λ _ _ w, (Ok tt, w);
  su_store_get := λ _ w, (Ok (handle 0), w);
|}.
#[local] Instance setup_answers : SetupAnswers world.
Proof. split; intros; by eexists. Defined.

Definition options (gid_index : option Z) : ProcessGroupOptions :=
  mk_Options (lit "mlx5_0") 4096 None gid_index 1 2 None 64 None (lit "0.0.0.0") 0 (lit "gpu") None.
Definition empty : St world := mk_St (fresh_comm 1) (mk_Env [] 0 (mk_world [] 0)).

Definition created : result (option Config) * St world :=
  create 4 0 1 (options (Some 3)) (Timedelta 1000000000) true [] empty.
Lemma created_run :
  ∃ cfg, create 4 0 1 (options (Some 3)) (Timedelta 1000000000) true [] empty
         = (Ok (Some cfg), created.2).
Proof.
  assert (∃ cfg, created.1 = Ok (Some cfg)) as [cfg Hc] by (eexists; vm_compute; reflexivity).
  exists cfg. rewrite <- Hc. unfold created. apply surjective_pairing.
Qed.

Lemma empty_owns : owns [] empty.
Proof. by split; constructor. Qed.


(** The port has one GID, of RoCE v2. *)
Lemma find_gid_index_spec_witness :
  (_find_gid_index 1 start).1 = Ok 0 ∧ gid_usable (λ _, replicate 16 254) 0.
Proof.
  assert (Hrun : (_find_gid_index 1 start).1 = Ok 0) by (vm_compute; reflexivity).
  split; [exact Hrun|].
  assert (Ht : GidTable 1 1 (λ _, replicate 16 254) (λ _, lit "RoCE v2")).
  { split; intros; [done|done|by left]. }
  pose proof (find_gid_index_spec 1 1 _ _ start Ht ltac:(lia)) as H. rewrite Hrun in H.
  apply H.
Defined.

(** A GID index that the device does not have: the query comes after the last [try] of
    [__init__], so the listener and both memory regions stay open, and [create] closes
    the protection domain under them. *)
Definition gid_down : result (option Config) * St world :=
  @create _ world (device true false) _ _ _ _ 4 0 1 (options (Some 99)) (Timedelta 1000000000)
    false [] empty.
Theorem setup_leak :
  gid_down.1 = Raise (VerbsError 22) ∧
  o_kind <$> e_open (s_env gid_down.2) = [KListener; KMr; KMr].
Proof. vm_compute. done. Qed.
End Simulated.
