(* ===== verification/Kernels.v ===== *)
(** The kernels that a process group compiles: [_CuteCopyKernels] and the compilation of
    [_CuteGpuNetIOKernels] of src/experiments/fault_tolerant_allreduce/allreduce.py.

    The copy kernel is a grid of threads, each of which walks the elements with the stride
    of the grid.  A thread loads an element and stores it in two steps, and the threads of
    the grid interleave in any order.  [copy_kernel_correct] is what a launch leaves in
    memory, [copy_moves_bytes] is [copy] with its cache of compiled kernels on top.
    The loop of [cutlass.range] counts exactly, like [range]. *)

From S2P Require Import Prelude Bytes Json Handles Ring.
#[local] Open Scope Z_scope.

(** * The copy kernel *)

(** The block size of the launch. *)
Definition block : Z := 256.

(** A launch of [copy_kernel]; [ck_count] is its [cutlass.Int32]. *)
Record Copy := mk_Copy {
  ck_sms : Z;
  ck_itemsize : Z;
  ck_source : Z;
  ck_destination : Z;
  ck_count : Z;
}.

(** A thread: the element it is at, and the bytes that it has loaded. *)
Record Thread := mk_Thread { th_next : Z; th_loaded : option bytes }.

(** Memory maps an address to its byte. *)
Record Grid := mk_Grid { gr_mem : Z → Z; gr_threads : list Thread }.

Definition load (mem : Z → Z) (a n : Z) : bytes := (λ x, mem (a + x)) <$> seqZ 0 n.
Definition store (mem : Z → Z) (a : Z) (b : bytes) : Z → Z := λ x,
  if (a <=? x) && (x <? a + Z.of_nat (length b)) then default 0 (b !! Z.to_nat (x - a)) else mem x.

Section Kernel.
Context (k : Copy).

(** [cutlass.Int32(sms * 256)] and [cutlass.Int32(bid * 256 + tid)] *)
Definition stride : Z := wrap32 (ck_sms k * block).
Definition first_index (bid tid : Z) : Z := wrap32 (bid * block + tid).

Definition element (p i : Z) : Z := p + i * ck_itemsize k.

(** The next step of thread [t]: [None] when its loop has ended. *)
Definition thread_step (g : Grid) (t : nat) : option Grid :=
  th ← gr_threads g !! t;
  match th_loaded th with
  | Some b =>
      Some (mk_Grid (store (gr_mem g) (element (ck_destination k) (th_next th)) b)
              (<[t := mk_Thread (th_next th + stride) None]> (gr_threads g)))
  | None =>
      if th_next th <? ck_count k then
        Some (mk_Grid (gr_mem g)
                (<[t := mk_Thread (th_next th)
                          (Some (load (gr_mem g) (element (ck_source k) (th_next th)) (ck_itemsize k)))]>
                   (gr_threads g)))
      else None
  end.

Inductive grid_step : Grid → Grid → Prop :=
| grid_step_thread t g g' : thread_step g t = Some g' → grid_step g g'.

(** The launch: thread [tid] of block [bid] is number [bid * 256 + tid]. *)
Definition start (mem : Z → Z) : Grid :=
  mk_Grid mem ((λ t, mk_Thread (first_index (t / block) (t mod block)) None)
                 <$> seqZ 0 (ck_sms k * block)).

Definition ended (g : Grid) : bool :=
  forallb (λ th, bool_decide (th_loaded th = None) && (ck_count k <=? th_next th)) (gr_threads g).

(** The steps in a given order. *)
Fixpoint run_threads (order : list nat) (g : Grid) : Grid :=
  match order with
  | [] => g
  | t :: order => run_threads order (default g (thread_step g t))
  end.
End Kernel.

(** * The cache of compiled kernels *)

(** A compiled host function: the data type and the number of CTAs that its closure
    captured, and its code. *)
Record Compiled := mk_Compiled { cp_dtype : DType; cp_sms : Z; cp_code : nat }.

(** [cu_import] are the imports of cutlass, [cu_compile] is [cute.compile], and [cu_copy]
    runs a compiled [copy_host].  [cu_bind] is [ibverbs.gpunetio.cutedsl.bind] for a
    bitcode file or without one, where [Ok None] is FileNotFoundError; [cu_build] is
    [build_bitcode]; [cu_compile_ring] compiles the ring kernel with what [bind] gave. *)
Class CuteDevice (W : Type) := {
  cu_import : W → bool * W;
  cu_compile : DType → Z → Z → W → result nat * W;
  cu_copy : Compiled → Z → Z → Z → W → result unit * W;
  cu_import_ring : W → bool * W;
  cu_bind : option str → str → W → result (option nat) * W;
  cu_build : str → W → result str * W;
  cu_compile_ring : nat → DType → Z → Z → W → result nat * W;
}.

(** [DType]s as the keys of a dict. *)
Definition dtypes : list DType :=
  [float16; bfloat16; float32; float64; int8; uint8; int32; uint32; int64; uint64;
   float8_e4m3fn; float8_e5m2].
#[global] Instance DType_countable : Countable DType.
Proof.
  refine (inj_countable _GPUNETIO_DTYPE_CODES (λ code, dtypes !! Z.to_nat code) _).
  abstract (by intros []).
Defined.

(** The attribute [_compiled] of either class, next to the device. *)
Record Cache (C W : Type) := mk_Cache { ca_compiled : gmap DType C; ca_world : W }.
Arguments mk_Cache {C W}. Arguments ca_compiled {C W}. Arguments ca_world {C W}.

Section Kernels.
Context {W : Type} `{!CuteDevice W}.

Definition on_device {C A} (m : M W A) : M (Cache C W) A := λ s,
  let '(r, w) := m (ca_world s) in (r, mk_Cache (ca_compiled s) w).
Definition found (f : W → bool * W) : M W bool := λ w, let '(b, w) := f w in (Ok b, w).

(** [_get] of both classes: compiled once for each data type, after the imports. *)
Definition cached_get {C} (dtype : DType) (imports : W → bool * W) (compile : M W C) : M (Cache C W) C :=
  s ← get;
  match ca_compiled s !! dtype with
  | Some c => mret c
  | None =>
      ok ← on_device (found imports);
      guard_raise (negb ok) RuntimeError;;
      c ← on_device compile;
      modify (λ s, mk_Cache (<[dtype := c]> (ca_compiled s)) (ca_world s));;
      mret c
  end.

(** [_CuteCopyKernels._get] *)
Definition copy_get (num_sms : Z) (dtype : DType) (pointer : Z) : M (Cache Compiled W) Compiled :=
  cached_get dtype cu_import
    (code ← cu_compile dtype num_sms pointer; mret (mk_Compiled dtype num_sms code)).

Definition copy (num_sms source destination count : Z) (dtype : DType) : M (Cache Compiled W) unit :=
  c ← copy_get num_sms dtype source;
  on_device (cu_copy c source destination (wrap32 count)).

(** The bitcode of [_CuteGpuNetIOKernels._get]: the file given, the one that [bind] finds,
    or one that is built. *)
Definition bind_bitcode (bitcode : option str) (arch : str) : M W nat :=
  bound ← cu_bind bitcode arch;
  match bound, bitcode with
  | Some gda, _ => mret gda
  | None, Some _ => raise OSError
  | None, None =>
      built ← cu_build arch;
      bound ← cu_bind (Some built) arch;
      match bound with Some gda => mret gda | None => raise OSError end
  end.
Definition ring_get (num_sms qps : Z) (bitcode : option str) (arch : str) (dtype : DType) :
    M (Cache nat W) nat :=
  cached_get dtype cu_import_ring
    (gda ← bind_bitcode bitcode arch; cu_compile_ring gda dtype num_sms qps).
End Kernels.

(** * Theorems *)

(** ** The grid *)

(** A launch whose thread indices fit 32 bits, on ranges that do not overlap. *)
Record CopyOk (k : Copy) : Prop := mk_CopyOk {
  co_sms : 0 < ck_sms k;
  co_grid : ck_sms k * block < 2 ^ 31;
  co_itemsize : 0 < ck_itemsize k;
  co_apart : ck_destination k + ck_count k * ck_itemsize k ≤ ck_source k ∨
             ck_source k + ck_count k * ck_itemsize k ≤ ck_destination k;
}.

Lemma store_load mem mem' a a' n x :
  store mem a (load mem' a' n) x =
    if (a <=? x) && (x <? a + n) then mem' (a' + (x - a)) else mem x.
Proof.
  unfold store, load. rewrite length_fmap, length_seqZ.
  replace ((a <=? x) && (x <? a + Z.of_nat (Z.to_nat n))) with ((a <=? x) && (x <? a + n)) by lia.
  destruct (_ && _) eqn:E; [|done]. rewrite list_lookup_fmap, lookup_seqZ_lt by lia.
  cbn. f_equal. lia.
Qed.

Section GridTheorems.
Context (k : Copy) (Hk : CopyOk k) (mem : Z → Z).

Lemma stride_exact : stride k = ck_sms k * block.
Proof using Hk. unfold stride, wrap32. destruct Hk. rewrite Z.mod_small; [|unfold block in *]; lia. Qed.
Lemma stride_pos : 0 < stride k.
Proof using Hk. rewrite stride_exact. unfold block. destruct Hk. lia. Qed.

(** How far thread [t] is. *)
Definition next_of (g : Grid) (t : Z) : Z :=
  match gr_threads g !! Z.to_nat t with Some th => th_next th | None => 0 end.

(** The number of the element at an address of the destination. *)
Definition index_of (x : Z) : Z := (x - ck_destination k) `div` ck_itemsize k.
Definition inside (x : Z) : bool :=
  (ck_destination k <=? x) && (x <? ck_destination k + ck_count k * ck_itemsize k).

(** Memory while threads run: an element is copied once its thread is past it. *)
Definition copied_so_far (g : Grid) (x : Z) : Z :=
  if inside x && (index_of x <? next_of g (index_of x mod stride k))
  then mem (ck_source k + (x - ck_destination k)) else mem x.

Record ThreadOk (t : nat) (th : Thread) : Prop := mk_ThreadOk {
  to_next : 0 ≤ th_next th;
  to_mod : th_next th mod stride k = Z.of_nat t;
  to_loaded b : th_loaded th = Some b →
    th_next th < ck_count k ∧
    b = load mem (element k (ck_source k) (th_next th)) (ck_itemsize k);
}.
Record GridOk (g : Grid) : Prop := mk_GridOk {
  go_threads : length (gr_threads g) = Z.to_nat (stride k);
  go_thread t th : gr_threads g !! t = Some th → ThreadOk t th;
  go_mem x : gr_mem g x = copied_so_far g x;
}.

Lemma start_ok : GridOk (start k mem).
Proof using Hk.
  pose proof stride_pos as Hs. assert (Hth : ∀ t, 0 ≤ t < stride k →
    gr_threads (start k mem) !! Z.to_nat t = Some (mk_Thread t None)).
  { intros t Ht. cbn. rewrite list_lookup_fmap, lookup_seqZ_lt by (rewrite <- stride_exact; lia).
    cbn. do 2 f_equal. unfold first_index, wrap32. rewrite Z.add_0_l, (Z.mul_comm _ block).
    rewrite <- Z.div_mod by done. rewrite stride_exact in Ht. destruct Hk.
    rewrite Z.mod_small; lia. }
  split.
  - cbn. by rewrite length_fmap, length_seqZ, stride_exact.
  - intros t th Ht. assert (Z.of_nat t < stride k) as Hlt.
    { apply lookup_lt_Some in Ht. cbn in Ht. rewrite length_fmap, length_seqZ, <- stride_exact in Ht. lia. }
    rewrite <- (Nat2Z.id t), Hth in Ht by lia. injection Ht as <-. split; cbn; [lia| |done].
    apply Z.mod_small. lia.
  - intros x. cbn. unfold copied_so_far. destruct (inside x) eqn:Hx; [|done]. cbn [andb].
    set (i := index_of x). unfold next_of. rewrite Hth by (apply Z.mod_pos_bound; lia). cbn.
    assert (0 ≤ i) as Hi. { unfold i, index_of, inside in *. destruct Hk. apply Z.div_pos; lia. }
    pose proof (Z.mod_le i (stride k) Hi Hs). by rewrite (proj2 (Z.ltb_ge _ _)) by lia.
Qed.

Lemma next_of_insert g m t th x t' :
  gr_threads g !! t = Some th → 0 ≤ t' →
  next_of (mk_Grid m (<[t := x]> (gr_threads g))) t' =
    if t' =? Z.of_nat t then th_next x else next_of g t'.
Proof using.
  intros Ht Ht'. unfold next_of. cbn. destruct (Z.eqb_spec t' (Z.of_nat t)) as [-> |Hne].
  - rewrite Nat2Z.id, list_lookup_insert_eq; [done|by apply lookup_lt_Some in Ht].
  - rewrite list_lookup_insert_ne by lia. done.
Qed.

Lemma thread_ok_insert g t x :
  GridOk g → ThreadOk t x → ∀ t' th, <[t := x]> (gr_threads g) !! t' = Some th → ThreadOk t' th.
Proof using.
  intros Hg Hx t' th. intros [(-> & -> & _)|[_ H]]%list_lookup_insert_Some; [done|].
  by apply (go_thread g Hg).
Qed.

(** What a thread loads is the source as it was. *)
Lemma load_source g i :
  GridOk g → 0 ≤ i < ck_count k →
  load (gr_mem g) (element k (ck_source k) i) (ck_itemsize k) =
  load mem (element k (ck_source k) i) (ck_itemsize k).
Proof using Hk.
  intros Hg Hi. apply list_fmap_ext. intros n x Hx. apply lookup_seqZ in Hx as [-> Hn].
  rewrite (go_mem g Hg). unfold copied_so_far. destruct (inside _) eqn:Hin; [|done].
  unfold inside, element in Hin. destruct Hk. nia.
Qed.

Lemma copied_store g i m x :
  0 ≤ i < ck_count k →
  (∀ j, 0 ≤ j < ck_count k →
     (j <? next_of m (j mod stride k)) = (j <? next_of g (j mod stride k)) || (j =? i)) →
  (if (element k (ck_destination k) i <=? x) && (x <? element k (ck_destination k) i + ck_itemsize k)
   then mem (element k (ck_source k) i + (x - element k (ck_destination k) i))
   else copied_so_far g x) = copied_so_far m x.
Proof using Hk.
  intros Hi Hnext. unfold copied_so_far. destruct Hk.
  destruct (inside x) eqn:Hin; cbn [andb].
  - assert (0 ≤ index_of x < ck_count k) as Hj.
    { unfold inside, index_of in *. split; [apply Z.div_pos|apply Z.div_lt_upper_bound]; nia. }
    rewrite Hnext by done. pose proof (Z.div_mod (x - ck_destination k) (ck_itemsize k)).
    pose proof (Z.mod_pos_bound (x - ck_destination k) (ck_itemsize k)).
    fold (index_of x) in *. unfold element.
    destruct (Z.eqb_spec (index_of x) i) as [<-|Hne].
    + rewrite orb_true_r, (proj2 (andb_true_iff _ _)) by (split; nia). f_equal. lia.
    + rewrite orb_false_r. destruct ((_ <=? _) && (x <? _)) eqn:E; [nia|done].
  - destruct (_ && _) eqn:E; [|done]. unfold inside, element in *. nia.
Qed.

Lemma step_ok g g' : GridOk g → grid_step k g g' → GridOk g'.
Proof using Hk.
  intros Hg Hst. revert Hg. destruct Hst as [t g g' Hstep]. intros Hg. unfold thread_step in Hstep.
  destruct (gr_threads g !! t) as [th|] eqn:Ht; [|done]. cbn in Hstep.
  pose proof (go_thread g Hg t th Ht) as [Hn Hm Hb]. pose proof stride_pos as Hs.
  destruct (th_loaded th) as [b|].
  - destruct (Hb b eq_refl) as [Hlt ->]. injection Hstep as <-. split.
    + cbn. rewrite length_insert. apply Hg.
    + cbn. apply (thread_ok_insert g t _ Hg). split; cbn; [lia| |done].
      rewrite <- Hm. rewrite Z.add_mod, Z.mod_same, Z.add_0_r, Z.mod_mod by lia. done.
    + intros x. cbn. rewrite store_load, (go_mem g Hg). apply copied_store; [lia|].
      intros j Hj. rewrite (next_of_insert g _ t th) by (done || apply Z.mod_pos_bound; lia). cbn.
      destruct (Z.eqb_spec (j mod stride k) (Z.of_nat t)) as [E|E].
      * rewrite E. unfold next_of. rewrite Nat2Z.id, Ht.
        pose proof (Z.div_mod j (stride k)). pose proof (Z.div_mod (th_next th) (stride k)).
        destruct (Z.ltb_spec j (th_next th)); [by rewrite (proj2 (Z.ltb_lt _ _)) by lia|]. cbn.
        destruct (Z.eqb_spec j (th_next th)) as [-> |]; [apply Z.ltb_lt; lia|]. apply Z.ltb_ge.
        assert (th_next th `div` stride k < j `div` stride k) by nia. nia.
      * destruct (Z.eqb_spec j (th_next th)) as [-> |]; [congruence|by rewrite orb_false_r].
  - destruct (th_next th <? ck_count k) eqn:Hlt; [|done]. injection Hstep as <-. split.
    + cbn. rewrite length_insert. apply Hg.
    + cbn. apply (thread_ok_insert g t _ Hg). split; cbn; [done|done|].
      intros b [= <-]. split; [lia|]. apply load_source; [done|lia].
    + intros x. cbn. rewrite (go_mem g Hg). unfold copied_so_far.
      destruct (inside x); [|done]. cbn [andb].
      rewrite (next_of_insert g _ t th) by (done || apply Z.mod_pos_bound; lia). cbn.
      destruct (Z.eqb_spec (index_of x mod stride k) (Z.of_nat t)) as [E|E]; [|done].
      rewrite E. unfold next_of. by rewrite Nat2Z.id, Ht.
Qed.

Lemma steps_ok g g' : GridOk g → rtc (grid_step k) g g' → GridOk g'.
Proof using Hk. intros Hg H. induction H; [done|]. eauto using step_ok. Qed.

(** ** The end *)

(** What a thread still has to do. *)
Definition work_left (th : Thread) : Z :=
  2 * Z.max 0 (ck_count k - th_next th) + match th_loaded th with None => 1 | Some _ => 0 end.

Lemma sumZ_insert {A} (f : A → Z) l i a b :
  l !! i = Some a → sumZ (f <$> <[i := b]> l) = sumZ (f <$> l) - f a + f b.
Proof using.
  intros Hi. rewrite insert_take_drop by (by apply lookup_lt_Some in Hi).
  rewrite <- (take_drop_middle l i a Hi) at 3. rewrite !fmap_app, !sumZ_app. cbn. lia.
Qed.

Lemma step_decreases g g' :
  GridOk g → grid_step k g g' →
  sumZ (work_left <$> gr_threads g') < sumZ (work_left <$> gr_threads g).
Proof using Hk.
  intros Hg Hst. revert Hg. destruct Hst as [t g g' Hstep]. intros Hg. unfold thread_step in Hstep.
  destruct (gr_threads g !! t) as [th|] eqn:Ht; [|done]. cbn in Hstep.
  pose proof (go_thread g Hg t th Ht) as [_ _ Hb]. pose proof stride_pos as Hs.
  destruct (th_loaded th) as [b|] eqn:Hl.
  - destruct (Hb b eq_refl) as [Hlt _]. injection Hstep as <-. cbn.
    rewrite (sumZ_insert _ _ _ _ _ Ht). unfold work_left at 2 3. rewrite Hl. cbn. lia.
  - destruct (th_next th <? ck_count k) eqn:Hlt; [|done]. injection Hstep as <-. cbn.
    rewrite (sumZ_insert _ _ _ _ _ Ht). unfold work_left at 2 3. rewrite Hl. cbn. lia.
Qed.

Lemma steps_decrease n g g' :
  GridOk g → nsteps (grid_step k) n g g' →
  Z.of_nat n + sumZ (work_left <$> gr_threads g') ≤ sumZ (work_left <$> gr_threads g).
Proof using Hk.
  intros Hg H. induction H as [|n g g1 g2 H1 _ IH]; [lia|].
  pose proof (step_decreases _ _ Hg H1). specialize (IH (step_ok _ _ Hg H1)). lia.
Qed.

Lemma work_left_nonneg l : 0 ≤ sumZ (work_left <$> l).
Proof using.
  apply sumZ_nonneg, Forall_fmap, Forall_forall. intros th _. cbn. unfold work_left.
  destruct (th_loaded _); lia.
Qed.

Lemma start_work : sumZ (work_left <$> gr_threads (start k mem)) ≤
  stride k * (2 * Z.max 0 (ck_count k) + 1).
Proof using Hk.
  pose proof start_ok as Hg. pose proof stride_pos.
  etransitivity; [apply (sumZ_fmap_le _ (λ _, 2 * Z.max 0 (ck_count k) + 1))|].
  - intros th [t Ht]%list_elem_of_lookup.
    pose proof (to_next _ _ (go_thread _ Hg _ _ Ht)). unfold work_left. destruct (th_loaded _); lia.
  - rewrite (sumZ_fmap_const _ (2 * Z.max 0 (ck_count k) + 1)) by done. rewrite (go_threads _ Hg). lia.
Qed.

(** A thread that has not ended can step. *)
Lemma ended_or_steps g : ended k g = false → ∃ g', grid_step k g g'.
Proof using.
  intros He. apply not_true_iff_false in He.
  destruct (decide (Forall (λ th, th_loaded th = None ∧ ck_count k ≤ th_next th) (gr_threads g)))
    as [H|H].
  { destruct He. apply forallb_forall. intros th Hth. apply list_elem_of_In in Hth.
    rewrite Forall_forall in H. destruct (H th Hth) as [-> ?]. cbn. lia. }
  apply not_Forall_Exists, Exists_exists in H as (th & [t Ht]%list_elem_of_lookup & Hth); [|apply _].
  destruct (thread_step k g t) as [g'|] eqn:Hstep; [by exists g'; econstructor|].
  exfalso. apply Hth. unfold thread_step in Hstep. rewrite Ht in Hstep. cbn in Hstep.
  destruct (th_loaded th); [done|]. destruct (Z.ltb_spec (th_next th) (ck_count k)); [done|].
  split; [done|lia].
Qed.

(** Memory when all threads have ended. *)
Lemma ended_mem g x :
  GridOk g → ended k g = true →
  gr_mem g x = if inside x then mem (ck_source k + (x - ck_destination k)) else mem x.
Proof using Hk.
  intros Hg He. rewrite (go_mem g Hg). unfold copied_so_far.
  destruct (inside x) eqn:Hin; [|done]. cbn [andb]. pose proof stride_pos as Hs.
  set (i := index_of x). assert (i < ck_count k) as Hi.
  { unfold i, index_of, inside in *. destruct Hk. apply Z.div_lt_upper_bound; nia. }
  pose proof (Z.mod_pos_bound i (stride k) Hs) as Ht.
  destruct (lookup_lt_is_Some_2 (gr_threads g) (Z.to_nat (i mod stride k))) as [th Hth].
  { rewrite (go_threads g Hg). lia. }
  unfold next_of. rewrite Hth. unfold ended in He. rewrite forallb_forall in He.
  specialize (He th). rewrite <- list_elem_of_In in He.
  specialize (He (list_elem_of_lookup_2 _ _ _ Hth)). rewrite (proj2 (Z.ltb_lt _ _)) by lia. done.
Qed.
End GridTheorems.

(** Memory after a launch whose threads have ended. *)
Lemma copied_mem k mem g x :
  CopyOk k → rtc (grid_step k) (start k mem) g → ended k g = true →
  gr_mem g x =
    if (ck_destination k <=? x) && (x <? ck_destination k + ck_count k * ck_itemsize k)
    then mem (ck_source k + (x - ck_destination k)) else mem x.
Proof.
  intros Hk H He. apply ended_mem; [done| |done].
  by apply (steps_ok k Hk mem (start k mem)); [apply start_ok|].
Qed.

(** C40: A launch of the copy kernel on ranges that do not overlap: in every interleaving of its
    threads the number of steps is bounded and some thread can step until all have ended,
    and then the destination holds the source and nothing else has changed. *)
Theorem copy_kernel_correct k mem :
  CopyOk k →
  (∀ n g, nsteps (grid_step k) n (start k mem) g →
     Z.of_nat n ≤ stride k * (2 * Z.max 0 (ck_count k) + 1)) ∧
  (∀ g, ended k g = false → ∃ g', grid_step k g g') ∧
  (∀ g x, rtc (grid_step k) (start k mem) g → ended k g = true →
     gr_mem g x =
       if (ck_destination k <=? x) && (x <? ck_destination k + ck_count k * ck_itemsize k)
       then mem (ck_source k + (x - ck_destination k)) else mem x).
Proof.
  intros Hk. split_and!.
  - intros n g H. pose proof (steps_decrease k Hk mem n _ _ (start_ok k Hk mem) H).
    pose proof (work_left_nonneg k (gr_threads g)). pose proof (start_work k Hk mem). lia.
  - apply ended_or_steps.
  - intros g x. by apply copied_mem.
Qed.

(** ** The cache *)

Section CacheTheorems.
Context {W : Type} `{!CuteDevice W} {C : Type}.
Implicit Types s : Cache C W.

Lemma wp_on_device {A} (m : M W A) (Q : A → Cache C W → Prop) E s :
  wp (on_device m) Q E s ↔
  wp m (λ a w, Q a (mk_Cache (ca_compiled s) w)) (λ e w, E e (mk_Cache (ca_compiled s) w)) (ca_world s).
Proof. unfold wp, on_device. by destruct (m (ca_world s)) as [[a|e] w]. Qed.

(** [_get] returns what is cached, or what it compiles and then caches; a failure leaves
    the cache as it was. *)
Lemma wp_cached_get dtype imports (compile : M W C) Q E s :
  match ca_compiled s !! dtype with
  | Some c => Q c s
  | None =>
      let '(ok, w) := imports (ca_world s) in
      if (ok : bool) then
        wp compile (λ c w, Q c (mk_Cache (<[dtype := c]> (ca_compiled s)) w))
          (λ e w, E e (mk_Cache (ca_compiled s) w)) w
      else E RuntimeError (mk_Cache (ca_compiled s) w)
  end → wp (cached_get dtype imports compile) Q E s.
Proof.
  intros H. unfold cached_get. apply wp_bind, wp_get.
  destruct (ca_compiled s !! dtype) as [c|]; [by apply wp_ret|].
  apply wp_bind, wp_on_device. unfold wp at 1, found.
  destruct (imports (ca_world s)) as [[] w]; apply wp_bind, wp_guard_raise; [|done].
  apply wp_bind, wp_on_device. eapply wp_mono; [exact H| |done]. intros c w' HQ.
  apply wp_bind, wp_modify. by apply wp_ret.
Qed.

(** A kernel is compiled at most once for each data type. *)
Lemma compiled_once dtype imports imports' (compile compile' : M W C) s :
  wp (cached_get dtype imports compile)
    (λ c s', cached_get dtype imports' compile' s' = (Ok c, s')) (λ _ s', ca_compiled s' = ca_compiled s) s.
Proof.
  assert (∀ c s', ca_compiled s' !! dtype = Some c →
    cached_get dtype imports' compile' s' = (Ok c, s')) as Hhit.
  { intros c s' H. unfold cached_get, get, mbind, M_bind. by rewrite H. }
  apply wp_cached_get. destruct (ca_compiled s !! dtype) as [c|] eqn:Hc; [by apply Hhit|].
  destruct (imports (ca_world s)) as [[] w]; [|done].
  eapply wp_mono; [apply wp_trivial| |done]. intros c w' _. apply Hhit. apply lookup_insert_eq.
Qed.
End CacheTheorems.

(** What a compiled [copy_host] launches. *)
Definition launch_of (c : Compiled) (source destination count : Z) : Copy :=
  mk_Copy (cp_sms c) (widths (cp_dtype c)) source destination count.

(** A device runs the copy kernel to its end, in some interleaving. *)
Class CopyLaws (W : Type) `{!CuteDevice W} := {
  cu_mem : W → Z → Z;
  import_keeps w : cu_mem (cu_import w).2 = cu_mem w;
  compile_keeps dtype sms pointer w : cu_mem (cu_compile dtype sms pointer w).2 = cu_mem w;
  copy_runs c source destination count w w' :
    cu_copy c source destination count w = (Ok tt, w') →
    let k := launch_of c source destination count in
    ∃ g, rtc (grid_step k) (start k (cu_mem w)) g ∧ ended k g = true ∧ cu_mem w' = gr_mem g;
}.

Section CopyTheorems.
Context {W : Type} `{!CuteDevice W, !CopyLaws W} (num_sms : Z).

(** Cached kernels are for their data type and the grid of the object. *)
Definition CacheOk (s : Cache Compiled W) : Prop :=
  ∀ dtype c, ca_compiled s !! dtype = Some c → cp_dtype c = dtype ∧ cp_sms c = num_sms.

Lemma wp_copy_get dtype pointer s :
  CacheOk s →
  wp (copy_get num_sms dtype pointer)
    (λ c s', CacheOk s' ∧ cp_dtype c = dtype ∧ cp_sms c = num_sms ∧
       cu_mem (ca_world s') = cu_mem (ca_world s))
    (λ _ s', CacheOk s') s.
Proof using Type*.
  intros Hs. apply wp_cached_get.
  destruct (ca_compiled s !! dtype) as [c|] eqn:Hc; [by destruct (Hs _ _ Hc) as [-> ->]|].
  pose proof (import_keeps (ca_world s)) as Hi. destruct (cu_import (ca_world s)) as [[] w]; [|done].
  cbn in Hi. apply wp_bind. unfold wp at 1. pose proof (compile_keeps dtype num_sms pointer w) as Hm.
  destruct (cu_compile dtype num_sms pointer w) as [[code|e] w']; [|done]. cbn in Hm.
  apply wp_ret. split_and!; [|done|done|cbn; congruence].
  intros d c. cbn. rewrite lookup_insert. destruct (decide (dtype = d)) as [<-|]; [by intros [= <-]|apply Hs].
Qed.

(** [copy] moves the bytes of [count] elements, whatever has been compiled before. *)
Theorem copy_moves_bytes source destination count dtype s :
  let nbytes := count * widths dtype in
  CacheOk s → 0 < num_sms → num_sms * block < 2 ^ 31 → 0 ≤ count < 2 ^ 31 →
  destination + nbytes ≤ source ∨ source + nbytes ≤ destination →
  wp (copy num_sms source destination count dtype)
    (λ _ s', CacheOk s' ∧ ∀ x, cu_mem (ca_world s') x =
       if (destination <=? x) && (x <? destination + nbytes)
       then cu_mem (ca_world s) (source + (x - destination)) else cu_mem (ca_world s) x)
    (λ _ s', CacheOk s') s.
Proof using Type*.
  intros nbytes Hs Hsms Hgrid Hcount Hapart. unfold copy. apply wp_bind.
  eapply wp_mono; [by apply wp_copy_get| |done]. intros c s1 (H1 & Hd & Hn & Hmem).
  apply wp_on_device. unfold wp. pose proof (copy_runs c source destination (wrap32 count) (ca_world s1)) as Hrun.
  destruct (cu_copy c source destination (wrap32 count) (ca_world s1)) as [[[]|e] w]; [|done].
  destruct (Hrun w eq_refl) as (g & Hsteps & Hend & Hw). split; [done|]. intros x. cbn.
  assert (wrap32 count = count) as Hwrap by (unfold wrap32; rewrite Z.mod_small; lia).
  rewrite Hw. unfold launch_of in *. rewrite Hwrap, Hd, Hn, Hmem in *.
  pose proof (λ H, copied_mem _ _ g x H Hsteps Hend) as Hcopy. apply Hcopy.
  split; cbn; [done|done|by destruct dtype|done].
Qed.
End CopyTheorems.

(** ** A run *)

Lemma run_threads_steps k order g : rtc (grid_step k) g (run_threads k order g).
Proof.
  revert g. induction order as [|t order IH]; intros g; [constructor|]. cbn.
  destruct (thread_step k g t) as [g'|] eqn:H; cbn; [|apply IH].
  eapply rtc_l; [by econstructor|apply IH].
Qed.

(** 300 elements of two bytes on one block: some threads copy two elements.  All threads
    load before any of them stores. *)
Definition pair_copy : Copy := mk_Copy 1 2 0 1000 300.
Definition pair_order : list nat := seq 0 256 ++ rev (seq 0 256) ++ seq 0 44 ++ rev (seq 0 44).
Definition ramp (x : Z) : Z := x mod 251.

Lemma copy_kernel_correct_witness :
  CopyOk pair_copy ∧
  let g := run_threads pair_copy pair_order (start pair_copy ramp) in
  ended pair_copy g = true ∧ gr_mem g 1599 = ramp 599 ∧ gr_mem g 1600 = ramp 1600.
Proof.
  assert (CopyOk pair_copy) as Hk by (split; [done|done|done|right; cbn; lia]).
  split; [exact Hk|]. cbv zeta. assert (ended pair_copy (run_threads pair_copy pair_order (start pair_copy ramp)) = true)
    as He by (vm_compute; reflexivity).
  pose proof (proj2 (proj2 (copy_kernel_correct pair_copy ramp Hk))) as H.
  split; [exact He|]. split; rewrite H by (apply run_threads_steps || exact He); reflexivity.
Defined.

(** A device that runs the threads of a launch one after the other. *)
Module Serial.
Definition order (k : Copy) : list nat :=
  mjoin ((λ t, replicate (Z.to_nat (2 * (ck_count k `div` stride k + 1))) t) <$>
           seq 0 (Z.to_nat (ck_sms k * block))).

#[export] Instance serial : CuteDevice (Z → Z) := {
  cu_import := λ w, (true, w);
  cu_compile := λ _ _ _ w, (Ok 0%nat, w);
  cu_copy := λ c source destination count w,
    let k := launch_of c source destination count in
    let g := run_threads k (order k) (start k w) in
    if ended k g then (Ok tt, gr_mem g) else (Raise RuntimeError, w);
  cu_import_ring := λ w, (true, w);
  cu_bind := λ bitcode _ w, (Ok (match bitcode with Some _ => Some 1%nat | None => None end), w);
  cu_build := λ _ w, (Ok (lit "ring.bc"), w);
  cu_compile_ring := λ gda _ _ _ w, (Ok gda, w);
}.
#[export] Instance serial_laws : CopyLaws (Z → Z).
Proof.
  refine {| cu_mem := λ w, w |}; [done..|].
  intros c source destination count w w'. cbn. destruct (ended _ _) eqn:He; [|done].
  intros [= <-]. eexists. split; [apply run_threads_steps|]. split; [exact He|done].
Defined.

(** Two copies of different types: each is compiled once. *)
Example copies :
  let s := (copy 1 0 1000 5 float16;; copy 1 1000 2000 5 float16;; copy 1 0 3000 2 float64)
             (mk_Cache ∅ ramp) in
  s.1 = Ok tt ∧ size (ca_compiled s.2) = 2%nat ∧
  (ca_world s.2) <$> [2009; 2010; 3015; 3016] = [9; ramp 2010; 15; ramp 3016].
Proof. by vm_compute. Qed.

(** Without a bitcode file one is built. *)
Example ring_built :
  (ring_get 2 2 None (lit "sm_90") float32 (mk_Cache ∅ ramp)).1 = Ok 1%nat.
Proof. by vm_compute. Qed.
End Serial.
