(* ===== verification/Backend.v ===== *)
(** The registration of the process group with torch: [register_backend] and [Work] of
    src/experiments/fault_tolerant_allreduce/allreduce.py.  The creation function that it
    registers is [_create_backend] of GroupSetup. *)

From S2P Require Import Prelude Bytes Verbs Helpers Json Stream Handles ProcessGroup GroupTheorems.
From S2P Require Import GroupSetup.
#[local] Open Scope Z_scope.

(** * Completed work

    [Work] holds a result, and a future in which it is set. *)

Record Work (A : Type) := mk_Work { wk_result : A; wk_future : A }.
Arguments mk_Work {A}. Arguments wk_result {A}. Arguments wk_future {A}.

Definition Work_init {A} (result : A) : Work A := mk_Work result result.
Definition is_completed {A} (w : Work A) : bool := true.
Definition is_success {A} (w : Work A) : bool := true.
Definition exception {A} (w : Work A) : option exn := None.
Definition wait {A} (w : Work A) (timeout : option Duration) : bool := true.
Definition get_future {A} (w : Work A) : A := wk_future w.
Definition result_of {A} (w : Work A) : A := wk_result w.

(** * The table of backends *)

(** A creation function: [_create_backend] itself, or another. *)
Inductive Creator := CreateBackend | ForeignCreator (tag : Z).

#[global] Instance Creator_eq_dec : EqDecision Creator.
Proof. solve_decision. Defined.

(** [tb_plugin] is the creation function in [dist.Backend._plugins], [tb_register] is
    [dist.Backend.register_backend] with [_create_backend]. *)
Class TorchBackends (W : Type) := {
  tb_plugin : str → W → option Creator;
  tb_register : str → W → result unit * W;
}.

(** [str.upper] on ASCII. *)
Definition upper (s : str) : str := (λ c, if (97 <=? c) && (c <=? 122) then c - 32 else c) <$> s.

Section Backend.
Context {W : Type} `{!SetupDevice W} `{!TorchBackends W}.
Abbreviation G := (M (St W)).

Definition register_backend (name : str) : G str :=
  _require_torch_nightly;;
  let normalized := lower name in
  plugin ← ask (λ w, (tb_plugin (upper normalized) w, w));
  match plugin with
  | None => call (tb_register normalized);; mret normalized
  | Some creator =>
      guard_raise (negb (bool_decide (creator = CreateBackend))) RuntimeError;; mret normalized
  end.

(** torch keys its backends by the upper-case name, and a registration concerns no
    other. *)
Class BackendLaws : Prop := {
  register_adds name w w' : tb_register name w = (Ok tt, w') → tb_plugin (upper name) w' = Some CreateBackend;
  register_keeps name other w : other ≠ upper name → tb_plugin other (tb_register name w).2 = tb_plugin other w;
  register_nightly name w : su_nightly (tb_register name w).2 = su_nightly w;
}.
Context `{HB : BackendLaws}.

Definition plugin_at (s : St W) (name : str) : option Creator := tb_plugin name (e_world (s_env s)).

Lemma wp_asked {A} (f : W → A) Q E s :
  Q (f (e_world (s_env s))) s → wp (ask (λ w, (f w, w))) Q E s.
Proof using. by destruct s as [c [l n w]]. Qed.

Lemma register_again name s :
  su_nightly (e_world (s_env s)) = true → plugin_at s (upper (lower name)) = Some CreateBackend →
  register_backend name s = (Ok (lower name), s).
Proof using.
  intros Hn Hp. unfold plugin_at in Hp. destruct s as [c [l n w]]. cbn -[upper lower] in *.
  unfold register_backend, _require_torch_nightly, ask, with_world, guard_raise, lift, mbind, M_bind.
  cbn -[upper lower]. rewrite Hn. cbn -[upper lower]. by rewrite Hp.
Qed.

(** A registration that returns has put the creation function under the name, whatever its
    case, and doing it again changes nothing.  A backend of somebody else is never
    replaced. *)
Theorem register_backend_spec name s :
  let key := upper (lower name) in
  wp (register_backend name)
    (λ n s', n = lower name ∧ plugin_at s' key = Some CreateBackend ∧
       (∀ tag, plugin_at s key ≠ Some (ForeignCreator tag)) ∧
       (∀ other, other ≠ key → plugin_at s' other = plugin_at s other) ∧
       (∀ again, lower again = n → register_backend again s' = (Ok n, s')))
    (λ _ s', ∀ other, other ≠ key ∨ is_Some (plugin_at s other) → plugin_at s' other = plugin_at s other) s.
Proof using HB.
  intros key. unfold register_backend at 1. apply wp_bind.
  unfold _require_torch_nightly. apply wp_bind, wp_asked, wp_guard_raise.
  destruct (su_nightly (e_world (s_env s))) eqn:Hn; [|done]. cbn [negb]. apply wp_bind, wp_asked.
  fold (plugin_at s (upper (lower name))). fold key.
  destruct (plugin_at s key) as [[|tag]|] eqn:Hp.
  - apply wp_bind, wp_guard_raise. rewrite bool_decide_eq_true_2 by done. cbn [negb]. apply wp_ret.
    split_and!; [done..|].
    intros again Hagain. rewrite <- Hagain. apply register_again; [done|]. by rewrite Hagain.
  - apply wp_bind, wp_guard_raise. by rewrite bool_decide_eq_false_2.
  - apply wp_bind. unfold wp at 1, call, with_world.
    pose proof (register_adds (lower name) (e_world (s_env s))) as Hadd.
    pose proof (λ other, register_keeps (lower name) other (e_world (s_env s))) as Hkeep.
    pose proof (register_nightly (lower name) (e_world (s_env s))) as Hnight.
    destruct (tb_register (lower name) (e_world (s_env s))) as [[[]|e] w]; cbn in Hkeep, Hnight.
    + specialize (Hadd w eq_refl). apply wp_ret. split_and!; [done..|].
      intros again Hagain. rewrite <- Hagain. apply register_again; [cbn; congruence|].
      rewrite Hagain. exact Hadd.
    + intros other [Hne|[c Hc]]; [by apply Hkeep|]. apply Hkeep. intros ->. fold key in Hc. congruence.
Qed.
End Backend.

(** * A table *)

Module Table.
Definition table := gmap str Creator.
Definition absent {A} (w : table) : result A * table := (Raise RuntimeError, w).

#[export] Instance setup : SetupDevice table := {
  su_nightly := λ _, true; su_super := λ _ _, absent; su_register := λ _, absent;
  su_socket := absent; su_setsockopt := λ _, absent; su_bind := λ _ _ _, absent;
  su_listen := λ _ _, absent; su_getsockname := λ _, absent; su_getfqdn := λ w, ([], w);
  su_uuid4 := λ w, ([], w); su_context_name := λ _ _, []; su_current_device := absent;
  su_set_device := λ _, absent; su_device_names := absent; su_open_device := λ _, absent;
  su_alloc_pd := λ _, absent; su_empty := λ _ _, absent; su_store_set := λ _ _, absent;
  su_store_get := λ _, absent;
}.
#[export] Instance backends : TorchBackends table := {
  tb_plugin := λ name w, w !! name;
  tb_register := λ name w, (Ok tt, <[upper name := CreateBackend]> w);
}.
#[export] Instance backend_laws : @BackendLaws table _ _.
Proof.
  split; [|intros name other w Hne; apply (lookup_insert_ne w); congruence|done].
  intros name w w' [= <-]. apply (lookup_insert_eq w).
Qed.

Definition initial (w : table) : St table := mk_St (fresh_comm 1) (mk_Env [] 0 w).

(** Registered twice, in any case; a name of somebody else is refused. *)
Example registered :
  let s := (register_backend (lit "ibverbs");; register_backend (lit "IbVerbs"))
             (initial {[ lit "NCCL" := ForeignCreator 0 ]}) in
  s.1 = Ok (lit "ibverbs") ∧ plugin_at s.2 (lit "IBVERBS") = Some CreateBackend ∧
  (register_backend (lit "nccl") s.2).1 = Raise RuntimeError.
Proof. by vm_compute. Qed.
End Table.
