(* ===== verification/Transport.v ===== *)
(** The striped multi-flow TCP transport:
    src/experiments/tcp_multiflow/transport.py.

    A tensor is sent over several TCP connections ("flows").  With threads, each
    flow carries one contiguous partition; with processes, flows take stripes
    from a shared counter and the receivers place each stripe once.  Sockets,
    clocks and barriers are operations of [FlowDevice] over a world [W]; what a
    receiver writes into the destination is recorded as a list of writes, so that
    the writes of concurrent flows can be interleaved.  Times are integer
    nanoseconds; the throughput properties (floats) are not modelled. *)

From S2P Require Import Prelude Bytes Verbs Stream.
#[local] Open Scope Z_scope.

(** * Frames *)

Definition _MAGIC : bytes := [84; 69; 78; 83; 79; 82; 48; 49].
Definition _DONE : bytes := [84; 69; 78; 68; 48; 48; 48; 49].

(** [struct.Struct("!8s16sIQQQ")] *)
Definition HEADER_size : Z := 52.

Record Header := mk_Header {
  h_magic : bytes;
  h_transfer_id : bytes;
  h_flow : Z;
  h_total : Z;
  h_offset : Z;
  h_nbytes : Z;
}.

(** ["8s"]: cut or padded with zeros to the width. *)
Definition pack_s (n : nat) (b : bytes) : bytes := take n b ++ replicate (n - length b) 0.

Definition HEADER_pack (h : Header) : result bytes :=
  flow ← pack_be fI (h_flow h);
  total ← pack_be fQ (h_total h);
  offset ← pack_be fQ (h_offset h);
  nbytes ← pack_be fQ (h_nbytes h);
  Ok (pack_s 8 (h_magic h) ++ pack_s 16 (h_transfer_id h) ++ flow ++ total ++ offset ++ nbytes).

Definition HEADER_unpack (data : bytes) : result Header :=
  if negb (Z.of_nat (length data) =? HEADER_size) then Raise StructError else
  Ok (mk_Header (slice 0 8 data) (slice 8 16 data) (be_val (slice 24 4 data))
        (be_val (slice 28 8 data)) (be_val (slice 36 8 data)) (be_val (slice 44 8 data))).

(** * Partitions *)

Definition _partitions (nbytes flows : Z) : result (list (Z * Z)) :=
  if flows <=? 0 then Raise ValueError else
  if nbytes <? flows then Raise ValueError else
  Ok ((λ flow, ((nbytes * flow) `div` flows, (nbytes * (flow + 1)) `div` flows)) <$> seqZ 0 flows).

(** * Endpoints *)

(** What [ipaddress.ip_address] reads: an address of version 4 or 6, or text that
    it rejects. *)
Inductive Ip := IPv4 (a : Z) | IPv6 (a : Z) | NotAnIp.

Definition ip_version (a : Ip) : result Z :=
  match a with IPv4 _ => Ok 4 | IPv6 _ => Ok 6 | NotAnIp => Raise ValueError end.

Record NetworkEndpoint := mk_NetworkEndpoint { ne_interface : bytes; ne_address : Ip }.

Inductive Family := AF_INET | AF_INET6.
Definition _family (address : Ip) : result Family :=
  v ← ip_version address; Ok (if v =? 6 then AF_INET6 else AF_INET).

(** A socket address: of four parts for version 6. *)
Inductive SockAddr := Inet (a : Ip) (port : Z) | Inet6 (a : Ip) (port flowinfo scope : Z).
Definition _address (address : Ip) (port : Z) : result SockAddr :=
  v ← ip_version address; Ok (if v =? 6 then Inet6 address port 0 0 else Inet address port).

(** * The network and the clock *)

(** A socket, by its number. *)
Record Sock := mk_Sock { sk_fd : nat }.
#[global] Instance Sock_eq_dec : EqDecision Sock.
Proof. solve_decision. Defined.

Inductive SockOption := TCP_NODELAY | SO_REUSEADDR | SO_BINDTODEVICE.

(** [fd_tcp_info]: None where the platform has no TCP_INFO.  [fd_barrier] is
    [ready.wait] (and [prepared.wait]), [fd_go] is [go.wait]. *)
Class FlowDevice (W : Type) := {
  fd_set_affinity : Z → W → result unit * W;
  fd_socket : Family → W → result Sock * W;
  fd_close : Sock → W → W;
  fd_setsockopt : Sock → SockOption → bytes → W → result unit * W;
  fd_settimeout : Sock → option Z → W → W;
  fd_bind : Sock → SockAddr → W → result unit * W;
  fd_connect : Sock → SockAddr → W → result unit * W;
  fd_listen : Sock → Z → W → result unit * W;
  fd_accept : Sock → W → result Sock * W;
  fd_sendall : Sock → bytes → W → result unit * W;
  fd_tcp_info : Sock → W → option (result bytes * W);
  fd_barrier : Z → W → result unit * W;
  fd_go : W → W;
  fd_ready : W → W;
  fd_perf_counter_ns : W → Z * W;
}.

(** * Endpoints of a transfer *)

Inductive Mode := MThread | MProcess | MOther.
#[global] Instance Mode_eq_dec : EqDecision Mode.
Proof. solve_decision. Defined.

Record FlowTransfer := mk_FlowTransfer {
  ft_flow : Z;
  ft_port : Z;
  ft_offset : Z;
  ft_nbytes : Z;
  ft_ns : Z;
  ft_retransmits : Z;
}.

Record SendResult := mk_SendResult { sr_nbytes : Z; sr_ns : Z; sr_flows : list FlowTransfer }.
Definition SendResult_retransmits (r : SendResult) : Z := sumZ (ft_retransmits <$> sr_flows r).

Record ReceiveResult := mk_ReceiveResult { rr_nbytes : Z; rr_ns : Z; rr_completion_ns : Z }.

(** What a receiving flow reports: transfer, bytes, start, last byte, completion. *)
Record FlowReport := mk_FlowReport {
  fr_transfer_id : option bytes;
  fr_nbytes : Z;
  fr_start : Z;
  fr_end : Z;
  fr_completion : Z;
}.

Record TensorSender := mk_TensorSender {
  ts_local : NetworkEndpoint;
  ts_remote_address : Ip;
  ts_flows : Z;
  ts_base_port : Z;
  ts_chunk_bytes : Z;
  ts_stripe_bytes : Z;
  ts_cpus : list (option Z);
  ts_timeout : Z;
  ts_worker_mode : Mode;
}.

Definition cpu_list (flows : Z) (cpus : option (list Z)) : list (option Z) :=
  match cpus with
  | Some cpus => Some <$> cpus
  | None => replicate (Z.to_nat flows) None
  end.

Definition flow_config_invalid (flows base_port chunk_bytes stripe_bytes : Z) : bool :=
  ((flows <=? 0) || (base_port <=? 0) || (65535 <? base_port + flows - 1))
  || (chunk_bytes <=? 0) || (stripe_bytes <=? 0).

Definition cpus_invalid (flows : Z) (cpus : option (list Z)) : bool :=
  match cpus with Some cpus => negb (Z.of_nat (length cpus) =? flows) | None => false end.

Definition TensorSender_init (local : NetworkEndpoint) (remote_address : Ip)
    (flows base_port chunk_bytes stripe_bytes : Z) (cpus : option (list Z)) (timeout : Z)
    (worker_mode : Mode) : result TensorSender :=
  if flow_config_invalid flows base_port chunk_bytes stripe_bytes then Raise ValueError else
  v ← ip_version (ne_address local);
  v' ← ip_version remote_address;
  if negb (v =? v') then Raise ValueError else
  if cpus_invalid flows cpus then Raise ValueError else
  if bool_decide (worker_mode = MOther) then Raise ValueError else
  Ok (mk_TensorSender local remote_address flows base_port chunk_bytes stripe_bytes
        (cpu_list flows cpus) timeout worker_mode).

Record TensorReceiver := mk_TensorReceiver {
  tr_local : NetworkEndpoint;
  tr_flows : Z;
  tr_base_port : Z;
  tr_chunk_bytes : Z;
  tr_stripe_bytes : Z;
  tr_cpus : list (option Z);
  tr_timeout : Z;
  tr_worker_mode : Mode;
  tr_assume_shared : bool;
}.

Definition TensorReceiver_init (local : NetworkEndpoint)
    (flows base_port chunk_bytes stripe_bytes : Z) (cpus : option (list Z)) (timeout : Z)
    (worker_mode : Mode) (assume_shared : bool) : result TensorReceiver :=
  if flow_config_invalid flows base_port chunk_bytes stripe_bytes then Raise ValueError else
  if cpus_invalid flows cpus then Raise ValueError else
  if bool_decide (worker_mode = MOther) then Raise ValueError else
  Ok (mk_TensorReceiver local flows base_port chunk_bytes stripe_bytes
        (cpu_list flows cpus) timeout worker_mode assume_shared).

(** * Sending *)

Section Sending.
Context {W : Type} `{!FlowDevice W}.
Implicit Types (t : TensorSender) (view : bytes).

Definition _set_affinity (cpu : option Z) : M W unit :=
  match cpu with Some cpu => fd_set_affinity cpu | None => mret tt end.

(** [self.cpus[flow]] *)
Definition cpu_of (cpus : list (option Z)) (flow : Z) : result (option Z) :=
  match cpus !! Z.to_nat flow with Some cpu => Ok cpu | None => Raise IndexError end.

Definition _bind_device (sock : Sock) (interface : bytes) : M W unit :=
  fd_setsockopt sock SO_BINDTODEVICE (interface ++ [0]).

Definition tell (f : W → W) : M W unit := modify f.
Definition perf_counter_ns : M W Z := λ w, let '(n, w) := fd_perf_counter_ns w in (Ok n, w).

Definition _total_retransmits (sock : Sock) : M W Z := λ w,
  match fd_tcp_info sock w with
  | None => (Ok 0, w)
  | Some (Raise e, w) => (Raise e, w)
  | Some (Ok info, w) =>
      if Z.of_nat (length info) <? 104 then (Ok 0, w) else (unpack_le fI 100 info, w)
  end.

(** [while position < end: sock.sendall(view[position:next_position])] *)
Fixpoint send_span (fuel : nat) (sock : Sock) (view : bytes) (chunk position stop : Z) : M W unit :=
  match fuel with
  | O => mret tt
  | S fuel =>
      if stop <=? position then mret tt else
      let next_position := Z.min (position + chunk) stop in
      fd_sendall sock (slice (Z.to_nat position) (Z.to_nat (next_position - position)) view);;
      send_span fuel sock view chunk next_position stop
  end.
Definition send_range (t : TensorSender) (sock : Sock) (view : bytes) (offset stop : Z) : M W unit :=
  send_span (Z.to_nat (stop - offset)) sock view (ts_chunk_bytes t) offset stop.

Definition send_header (sock : Sock) (h : Header) : M W unit :=
  data ← lift (HEADER_pack h); fd_sendall sock data.

(** A connection of a flow, up to the start signal. *)
Definition start_flow (t : TensorSender) (sock : Sock) (port : Z) : M W Z :=
  _bind_device sock (ne_interface (ts_local t));;
  fd_setsockopt sock TCP_NODELAY [1];;
  tell (fd_settimeout sock (Some (ts_timeout t)));;
  local ← lift (_address (ne_address (ts_local t)) 0);
  fd_bind sock local;;
  remote ← lift (_address (ts_remote_address t) port);
  fd_connect sock remote;;
  fd_barrier (ts_timeout t);;
  tell fd_go;;
  tell (fd_settimeout sock None);;
  perf_counter_ns.

(** [with socket.socket(family, SOCK_STREAM) as sock: body] *)
Definition with_socket {A} (family : Family) (body : Sock → M W A) : M W A :=
  sock ← fd_socket family;
  try_finally (body sock) (tell (fd_close sock)).

Definition _send_flow t view (transfer_id : bytes) (flow offset stop iterations : Z) :
    M W FlowTransfer :=
  cpu ← lift (cpu_of (ts_cpus t) flow);
  _set_affinity cpu;;
  family ← lift (_family (ne_address (ts_local t)));
  let port := ts_base_port t + flow in
  r ← with_socket family (λ sock,
    start_ns ← start_flow t sock port;
    send_header sock (mk_Header _MAGIC transfer_id flow (Z.of_nat (length view)) offset
                        (stop - offset));;
    for_each (λ _, send_range t sock view offset stop) (seqZ 0 iterations);;
    retransmits ← _total_retransmits sock;
    end_ns ← perf_counter_ns;
    mret (retransmits, end_ns - start_ns));
  mret (mk_FlowTransfer flow port offset ((stop - offset) * iterations) r.2 r.1).

(** ** Stripes from a shared counter *)

Definition stripes_of (stripe_bytes nbytes : Z) : Z := (nbytes + stripe_bytes - 1) `div` stripe_bytes.

(** The range of the stripe that a task sends. *)
Definition task_range (stripe_bytes nbytes task : Z) : Z * Z :=
  let stripe := task `mod` stripes_of stripe_bytes nbytes in
  let offset := stripe * stripe_bytes in
  (offset, Z.min (offset + stripe_bytes) nbytes).

(** What one task puts on a flow's connection. *)
Definition send_task t (sock : Sock) view (transfer_id : bytes) (flow task : Z) : M W Z :=
  let '(offset, stop) := task_range (ts_stripe_bytes t) (Z.of_nat (length view)) task in
  send_header sock (mk_Header _MAGIC transfer_id flow (Z.of_nat (length view)) offset
                      (stop - offset));;
  send_range t sock view offset stop;;
  mret (stop - offset).
End Sending.

(** The senders' shared memory: the world and [next_task]. *)
Record Tasks (W : Type) := mk_Tasks { tk_world : W; tk_next : Z }.
Arguments mk_Tasks {W}. Arguments tk_world {W}. Arguments tk_next {W}.

Section DynamicSending.
Context {W : Type} `{!FlowDevice W}.
Implicit Types (t : TensorSender) (view : bytes).

Definition on_tasks {A} (m : M W A) : M (Tasks W) A := λ s,
  let '(r, w) := m (tk_world s) in (r, mk_Tasks w (tk_next s)).

(** [with next_task.get_lock(): task = next_task.value; next_task.value += 1] *)
Definition take_task : M (Tasks W) Z := λ s,
  (Ok (tk_next s), mk_Tasks (tk_world s) (tk_next s + 1)).

(** One round of the loop: the bytes sent, or None when the tasks are used up. *)
Definition dynamic_round t (sock : Sock) view (transfer_id : bytes) (flow task_count : Z) :
    M (Tasks W) (option Z) :=
  task ← take_task;
  if task_count <=? task then mret None else
  sent ← on_tasks (send_task t sock view transfer_id flow task);
  mret (Some sent).

(** Every round takes a task: [task_count - next_task + 1] rounds are enough. *)
Fixpoint dynamic_loop (fuel : nat) t (sock : Sock) view (transfer_id : bytes)
    (flow task_count sent_bytes : Z) : M (Tasks W) (option Z) :=
  match fuel with
  | O => mret None
  | S fuel =>
      o ← dynamic_round t sock view transfer_id flow task_count;
      match o with
      | None => mret (Some sent_bytes)
      | Some sent => dynamic_loop fuel t sock view transfer_id flow task_count (sent_bytes + sent)
      end
  end.

Definition _send_dynamic_flow (fuel : nat) t view (transfer_id : bytes) (flow task_count : Z) :
    M (Tasks W) (option FlowTransfer) :=
  cpu ← lift (cpu_of (ts_cpus t) flow);
  on_tasks (_set_affinity cpu);;
  family ← lift (_family (ne_address (ts_local t)));
  let port := ts_base_port t + flow in
  sock ← on_tasks (fd_socket family);
  r ← try_finally
    (start_ns ← on_tasks (start_flow t sock port);
     o ← dynamic_loop fuel t sock view transfer_id flow task_count 0;
     match o with
     | None => mret None
     | Some sent_bytes =>
         on_tasks (send_header sock (mk_Header _DONE transfer_id flow (Z.of_nat (length view)) 0 0));;
         retransmits ← on_tasks (_total_retransmits sock);
         end_ns ← on_tasks perf_counter_ns;
         mret (Some (sent_bytes, retransmits, Z.max (end_ns - start_ns) 1))
     end)
    (on_tasks (tell (fd_close sock)));
  mret (match r with
        | None => None
        | Some (sent_bytes, retransmits, ns) =>
            Some (mk_FlowTransfer flow port 0 sent_bytes ns retransmits)
        end).

(** [_send_processes] once the workers have reported: a report is a transfer or
    the text of an error. *)
Definition send_summary view (iterations ns : Z) (messages : list (option FlowTransfer)) :
    result SendResult :=
  if negb (forallb (λ m, bool_decide (is_Some m)) messages) then Raise RuntimeError else
  let flow_results := omap id messages in
  if negb (sumZ (ft_nbytes <$> flow_results) =? Z.of_nat (length view) * iterations)
  then Raise RuntimeError else
  Ok (mk_SendResult (Z.of_nat (length view) * iterations) ns flow_results).
End DynamicSending.

(** * Receiving *)

(** [_recv_exact]: [recv_into] reads into the rest of the buffer. *)
Definition _recv_exact {W} `{!SockRecv Sock W} (sock : Sock) (nbytes : Z) : M W bytes :=
  recv_exact RuntimeError sock nbytes.

Definition recv_header {W} `{!SockRecv Sock W} (sock : Sock) : M W Header :=
  data ← _recv_exact sock HEADER_size; lift (HEADER_unpack data).

(** The receivers' state: the world, what was written into the destination (the
    last write first), and the shared [placed] array. *)
Record Rx (W : Type) := mk_Rx {
  rx_world : W;
  rx_writes : list (Z * bytes);
  rx_placed : list bool;
}.
Arguments mk_Rx {W}. Arguments rx_world {W}. Arguments rx_writes {W}. Arguments rx_placed {W}.

Section Receiving.
Context {W : Type} `{!FlowDevice W} `{!SockRecv Sock W}.
Implicit Types (r : TensorReceiver).

Definition on_rx {A} (m : M W A) : M (Rx W) A := λ s,
  let '(a, w) := m (rx_world s) in (a, mk_Rx w (rx_writes s) (rx_placed s)).

Definition write (position : Z) (data : bytes) : M (Rx W) unit :=
  modify (λ s, mk_Rx (rx_world s) ((position, data) :: rx_writes s) (rx_placed s)).

(** [while position < end: received = connection.recv_into(...)]: the bytes
    received; [place] is what each [recv_into] does to memory outside the flow.
    Every round receives a byte at least. *)
Fixpoint receive_span (fuel : nat) (conn : Sock) (place : Z → bytes → M (Rx W) unit)
    (chunk position stop : Z) : M (Rx W) bytes :=
  match fuel with
  | O => mret []
  | S fuel =>
      if stop <=? position then mret [] else
      let next_position := Z.min (position + chunk) stop in
      part ← on_rx (λ w, sock_recv conn (next_position - position) w);
      if (length part =? 0)%nat then raise RuntimeError else
      place position part;;
      rest ← receive_span fuel conn place chunk (position + Z.of_nat (length part)) stop;
      mret (part ++ rest)
  end.
Definition receive_range (r : TensorReceiver) (conn : Sock) (place : Z → bytes → M (Rx W) unit)
    (position stop : Z) : M (Rx W) bytes :=
  receive_span (Z.to_nat (stop - position)) conn place (tr_chunk_bytes r) position stop.

(** [connection, _ = listener.accept(); with connection: body] *)
Definition with_connection {A} (listener : Sock) (body : Sock → M (Rx W) A) : M (Rx W) A :=
  conn ← on_rx (fd_accept listener);
  try_finally (on_rx (tell (fd_settimeout conn None));; body conn) (on_rx (tell (fd_close conn))).

Definition _receive_flow r (listener : Sock) (view_len expected_flow expected_offset expected_end
    iterations : Z) : M (Rx W) FlowReport :=
  cpu ← lift (cpu_of (tr_cpus r) expected_flow);
  on_rx (_set_affinity cpu);;
  with_connection listener (λ conn,
    h ← on_rx (recv_header conn);
    if negb (bool_decide (h_magic h = _MAGIC) && (h_flow h =? expected_flow)
             && (h_total h =? view_len) && (h_offset h =? expected_offset)
             && (h_nbytes h =? expected_end - expected_offset))
    then raise RuntimeError else
    guard_raise (iterations <=? 0) (OtherError 0);;
    start_ns ← on_rx perf_counter_ns;
    for_each (λ _, receive_range r conn write expected_offset expected_end;; mret tt)
      (seqZ 0 iterations);;
    end_ns ← on_rx perf_counter_ns;
    mret (mk_FlowReport (Some (h_transfer_id h)) ((expected_end - expected_offset) * iterations)
            start_ns end_ns end_ns)).

(** ** Stripes, placed once *)

(** The locals of a dynamic flow. *)
Record Dynamic := mk_Dynamic {
  dy_seen : list Z;
  dy_transfer_id : option bytes;
  dy_received : Z;
  dy_start : option Z;
}.
Definition dynamic0 : Dynamic := mk_Dynamic [] None 0 None.

(** [placed[stripe] = 1] where it was not set: should the stripe be copied? *)
Definition test_and_place (stripe : Z) : M (Rx W) bool := λ s,
  match rx_placed s !! Z.to_nat stripe with
  | None => (Raise IndexError, s)
  | Some true => (Ok false, s)
  | Some false =>
      (Ok true, mk_Rx (rx_world s) (rx_writes s) (<[Z.to_nat stripe := true]> (rx_placed s)))
  end.

Definition header_mismatch (view_len expected_flow : Z) (d : Dynamic) (h : Header) : bool :=
  negb (h_flow h =? expected_flow) || negb (h_total h =? view_len)
  || match dy_transfer_id d with
     | Some id => bool_decide (h_transfer_id h ≠ id)
     | None => false
     end.

Definition stripe_invalid r (h : Header) : bool :=
  let expected_nbytes := Z.min (tr_stripe_bytes r) (h_total h - h_offset h) in
  bool_decide (h_magic h ≠ _MAGIC) || negb (h_offset h `mod` tr_stripe_bytes r =? 0)
  || negb (h_nbytes h =? expected_nbytes) || (h_nbytes h <=? 0).

(** One frame: [inl] the locals after a stripe, [inr] those at the terminator. *)
Definition receive_round r (conn : Sock) (view_len expected_flow : Z) (d : Dynamic) :
    M (Rx W) (Dynamic + Dynamic) :=
  h ← on_rx (recv_header conn);
  if header_mismatch view_len expected_flow d h then raise RuntimeError else
  let d := mk_Dynamic (dy_seen d) (Some (h_transfer_id h)) (dy_received d) (dy_start d) in
  if bool_decide (h_magic h = _DONE) then
    if negb (h_offset h =? 0) || negb (h_nbytes h =? 0) then raise RuntimeError
    else mret (inr d)
  else
  if stripe_invalid r h then raise RuntimeError else
  start ← match dy_start d with
          | Some start => mret start
          | None => on_rx perf_counter_ns
          end;
  staging ← receive_range r conn (λ _ _, mret tt) 0 (h_nbytes h);
  let stripe := h_offset h `div` tr_stripe_bytes r in
  let received := dy_received d + h_nbytes h in
  if bool_decide (stripe ∈ dy_seen d)
  then mret (inl (mk_Dynamic (dy_seen d) (dy_transfer_id d) received (Some start)))
  else
    should_place ← test_and_place stripe;
    (if (should_place : bool) then write (h_offset h) staging else mret tt);;
    mret (inl (mk_Dynamic (stripe :: dy_seen d) (dy_transfer_id d) received (Some start))).

(** A peer can send stripes without end: the fuel is the number of frames. *)
Fixpoint receive_dynamic_loop (fuel : nat) r (conn : Sock) (view_len expected_flow : Z)
    (d : Dynamic) : M (Rx W) (option Dynamic) :=
  match fuel with
  | O => mret None
  | S fuel =>
      o ← receive_round r conn view_len expected_flow d;
      match o with
      | inl d => receive_dynamic_loop fuel r conn view_len expected_flow d
      | inr d => mret (Some d)
      end
  end.

Definition _receive_dynamic_flow (fuel : nat) r (listener : Sock) (view_len expected_flow : Z) :
    M (Rx W) (option FlowReport) :=
  cpu ← lift (cpu_of (tr_cpus r) expected_flow);
  on_rx (_set_affinity cpu);;
  with_connection listener (λ conn,
    o ← receive_dynamic_loop fuel r conn view_len expected_flow dynamic0;
    end_ns ← on_rx perf_counter_ns;
    mret (match o with
          | None => None
          | Some d => Some (mk_FlowReport (dy_transfer_id d) (dy_received d)
                              (default end_ns (dy_start d)) end_ns end_ns)
          end)).

(** ** Collecting the flows *)

(** [_receive_processes] once the workers have reported. *)
Definition receive_summary (placed : list bool) (messages : list (option FlowReport)) :
    result (list FlowReport) :=
  if negb (forallb (λ m, bool_decide (is_Some m)) messages) then Raise RuntimeError else
  if negb (forallb id placed) then Raise RuntimeError else
  Ok (omap id messages).

(** [max] and [min] of a non-empty list. *)
Definition list_max (l : list Z) : result Z :=
  match l with [] => Raise ValueError | x :: l => Ok (foldl Z.max x l) end.
Definition list_min (l : list Z) : result Z :=
  match l with [] => Raise ValueError | x :: l => Ok (foldl Z.min x l) end.

(** [len(transfer_ids) == 1] *)
Definition one_transfer (results : list FlowReport) : bool :=
  (length (remove_dups (fr_transfer_id <$> results)) =? 1)%nat.

(** The end of [receive_into]. *)
Definition collect_results (view_len iterations : Z) (results : list FlowReport) :
    result ReceiveResult :=
  let received_bytes := sumZ (fr_nbytes <$> results) in
  if negb (one_transfer results) || negb (received_bytes =? view_len * iterations)
  then Raise RuntimeError else
  let active_results := filter (λ f, 0 < fr_nbytes f) results in
  last ← list_max (fr_end <$> active_results);
  first ← list_min (fr_start <$> active_results);
  completion ← list_max (fr_completion <$> active_results);
  first' ← list_min (fr_start <$> active_results);
  Ok (mk_ReceiveResult received_bytes (last - first) (completion - first')).

(** A listener that is set up; it belongs to the list once it listens. *)
Definition prepare_listener r (flow : Z) (listener : Sock) : M (Rx W) unit :=
  on_rx (fd_setsockopt listener SO_REUSEADDR [1]);;
  on_rx (_bind_device listener (ne_interface (tr_local r)));;
  on_rx (tell (fd_settimeout listener (Some (tr_timeout r))));;
  address ← lift (_address (ne_address (tr_local r)) (tr_base_port r + flow));
  on_rx (fd_bind listener address);;
  on_rx (fd_listen listener 1).

Definition close_all (listeners : list Sock) : M (Rx W) unit :=
  for_each (λ l, on_rx (tell (fd_close l))) listeners.

(** The [try] of [receive_into], with the listeners so far. *)
Fixpoint with_listeners {A} r (family : Family) (flows : list Z) (listeners : list Sock)
    (body : list Sock → M (Rx W) A) : M (Rx W) A :=
  match flows with
  | [] => try_finally (body listeners) (close_all listeners)
  | flow :: flows =>
      listener ← try_except
        (listener ← on_rx (fd_socket family); prepare_listener r flow listener;; mret listener)
        (λ e, close_all listeners;; raise e);
      with_listeners r family flows (listeners ++ [listener]) body
  end.

(** The receiving flows of the thread mode, one after the other; their writes may
    be interleaved. *)
Fixpoint receive_flows r (listeners : list Sock) (view_len iterations flow : Z)
    (partitions : list (Z * Z)) : M (Rx W) (list FlowReport) :=
  match partitions with
  | [] => mret []
  | (offset, stop) :: partitions =>
      listener ← lift (match listeners !! Z.to_nat flow with
                       | Some l => Ok l | None => Raise IndexError end);
      report ← _receive_flow r listener view_len flow offset stop iterations;
      reports ← receive_flows r listeners view_len iterations (flow + 1) partitions;
      mret (report :: reports)
  end.

(** The workers of the process mode, one after the other: an error is a message. *)
Definition receive_worker (fuel : nat) r (listeners : list Sock) (view_len flow : Z) :
    M (Rx W) (option FlowReport) :=
  try_except
    (listener ← lift (match listeners !! Z.to_nat flow with
                      | Some l => Ok l | None => Raise IndexError end);
     cpu ← lift (cpu_of (tr_cpus r) flow);
     on_rx (_set_affinity cpu);;
     on_rx (fd_barrier (tr_timeout r));;
     _receive_dynamic_flow fuel r listener view_len flow)
    (λ _, mret None).
Fixpoint receive_workers (fuel : nat) r (listeners : list Sock) (view_len : Z) (flows : list Z) :
    M (Rx W) (list (option FlowReport)) :=
  match flows with
  | [] => mret []
  | flow :: flows =>
      m ← receive_worker fuel r listeners view_len flow;
      ms ← receive_workers fuel r listeners view_len flows;
      mret (m :: ms)
  end.

Definition _receive_processes (fuel : nat) r (listeners : list Sock) (view_len : Z) :
    M (Rx W) (list FlowReport) :=
  modify (λ s, mk_Rx (rx_world s) (rx_writes s)
            (replicate (Z.to_nat (stripes_of (tr_stripe_bytes r) view_len)) false));;
  on_rx (fd_barrier (tr_timeout r));;
  on_rx (tell fd_ready);;
  messages ← receive_workers fuel r listeners view_len (seqZ 0 (tr_flows r));
  s ← get;
  lift (receive_summary (rx_placed s) messages).
End Receiving.

(** * Tensors *)

(** What [memoryview] shows of an object's buffer. *)
Record View := mk_View {
  vw_bytes : bytes;
  vw_c_contiguous : bool;
  vw_readonly : bool;
  vw_castable : bool;
}.

(** [SharedTensor]: [st_mapping] is None once closed. *)
Record SharedTensor := mk_SharedTensor { st_nbytes : Z; st_mapping : option bytes }.

Definition SharedTensor_init (nbytes : Z) : result SharedTensor :=
  if nbytes <=? 0 then Raise ValueError else
  Ok (mk_SharedTensor nbytes (Some (replicate (Z.to_nat nbytes) 0))).
Definition SharedTensor_buffer (t : SharedTensor) : result bytes :=
  match st_mapping t with None => Raise RuntimeError | Some m => Ok m end.
(** [numpy]: [nbytes] is the size of the shape and dtype; numpy raises TypeError for
    an array larger than its buffer. *)
Definition SharedTensor_numpy (t : SharedTensor) (nbytes : Z) : result bytes :=
  match st_mapping t with
  | None => Raise RuntimeError
  | Some m =>
      if st_nbytes t <? nbytes then Raise TypeError else
      if negb (nbytes =? st_nbytes t) then Raise ValueError else Ok m
  end.
Definition SharedTensor_close (t : SharedTensor) : SharedTensor :=
  mk_SharedTensor (st_nbytes t) None.

(** A Python object as [_is_process_shared] sees it: in [_SHARED_TENSOR_IDS], an
    instance of [SharedTensor] or [mmap], the answer of [is_shared()], and the
    objects of [base] and [_base], by their ids. *)
Record PyObj := mk_PyObj {
  po_registered : bool;
  po_storage : bool;
  po_is_shared : option bool;
  po_base : option nat;
  po__base : option nat;
}.

(** The walk from an object to what it is a view of; None without fuel. *)
Fixpoint shared_walk (fuel : nat) (heap : list PyObj) (visited : list nat)
    (candidate : option nat) : option bool :=
  match fuel with
  | O => None
  | S fuel =>
      match candidate with
      | None => Some false
      | Some id =>
          if bool_decide (id ∈ visited) then Some false else
          match heap !! id with
          | None => Some false
          | Some o =>
              if po_storage o then Some true else
              if default false (po_is_shared o) then Some true else
              shared_walk fuel heap (id :: visited)
                (match po_base o with Some b => Some b | None => po__base o end)
          end
      end
  end.
Definition _is_process_shared (heap : list PyObj) (tensor : nat) : option bool :=
  match heap !! tensor with
  | Some o => if po_registered o then Some true
              else shared_walk (S (length heap)) heap [] (Some tensor)
  | None => Some false
  end.

(** The object after [detach()], when it has one: the type of its device, its
    contiguity, sharing and [numpy()] view, where it has them. *)
Record Detached := mk_Detached {
  dt_on_cpu : option bool;
  dt_is_contiguous : option bool;
  dt_is_shared : option bool;
  dt_numpy : option (option View);
}.

Inductive Tensor :=
| TShared (t : SharedTensor)
| TObject (view : option View) (shared : bool) (detached : Detached).

Record TensorBuffer := mk_TensorBuffer { tb_bytes : bytes; tb_shared : bool }.

(** The checks on the view, whatever it is of. *)
Definition view_buffer (v : View) (shared writable : bool) : result TensorBuffer :=
  if negb (vw_c_contiguous v) then Raise ValueError else
  if writable && vw_readonly v then Raise ValueError else
  if negb (vw_castable v) then Raise ValueError else
  Ok (mk_TensorBuffer (vw_bytes v) shared).

Definition _tensor_buffer (tensor : Tensor) (writable : bool) : result TensorBuffer :=
  match tensor with
  | TShared t => b ← SharedTensor_buffer t; Ok (mk_TensorBuffer b true)
  | TObject (Some view) shared _ => view_buffer view shared writable
  | TObject None shared d =>
      if bool_decide (dt_on_cpu d = Some false) then Raise ValueError else
      if bool_decide (dt_is_contiguous d = Some false) then Raise ValueError else
      let shared := default shared (dt_is_shared d) in
      match dt_numpy d with
      | None => Raise TypeError
      | Some None => Raise TypeError
      | Some (Some view) => view_buffer view shared writable
      end
  end.

(** * Entry points *)

Section Entry.
Context {W : Type} `{!FlowDevice W} `{!SockRecv Sock W}.
Implicit Types (t : TensorSender) (r : TensorReceiver).

(** The sending flows of the thread mode, one after the other: they share nothing. *)
Fixpoint send_flows t (view transfer_id : bytes) (iterations flow : Z)
    (partitions : list (Z * Z)) : M W (list FlowTransfer) :=
  match partitions with
  | [] => mret []
  | (offset, stop) :: partitions =>
      f ← _send_flow t view transfer_id flow offset stop iterations;
      fs ← send_flows t view transfer_id iterations (flow + 1) partitions;
      mret (f :: fs)
  end.

(** The workers of the process mode, one after the other. *)
Fixpoint send_workers (fuel : nat) t (view transfer_id : bytes) (task_count : Z)
    (flows : list Z) : M (Tasks W) (list (option FlowTransfer)) :=
  match flows with
  | [] => mret []
  | flow :: flows =>
      m ← try_except (_send_dynamic_flow fuel t view transfer_id flow task_count)
            (λ _, mret None);
      ms ← send_workers fuel t view transfer_id task_count flows;
      mret (m :: ms)
  end.

Definition _send_processes t (view transfer_id : bytes) (iterations : Z) : M W SendResult :=
  let task_count := stripes_of (ts_stripe_bytes t) (Z.of_nat (length view)) * iterations in
  start_ns ← perf_counter_ns;
  messages ← (λ w, let '(o, s) := send_workers (S (Z.to_nat task_count)) t view transfer_id
                     task_count (seqZ 0 (ts_flows t)) (mk_Tasks w 0) in (o, tk_world s));
  end_ns ← perf_counter_ns;
  lift (send_summary view iterations (end_ns - start_ns) messages).

(** [send]: [transfer_id] is [secrets.token_bytes(16)]. *)
Definition send t (tensor : Tensor) (transfer_id : bytes) (iterations : Z) : M W SendResult :=
  buffer ← lift (_tensor_buffer tensor false);
  guard_raise (iterations <=? 0) ValueError;;
  let view := tb_bytes buffer in
  if bool_decide (ts_worker_mode t = MProcess)
  then _send_processes t view transfer_id iterations
  else
    partitions ← lift (_partitions (Z.of_nat (length view)) (ts_flows t));
    fd_barrier (ts_timeout t);;
    start_ns ← perf_counter_ns;
    flow_results ← send_flows t view transfer_id iterations 0 partitions;
    end_ns ← perf_counter_ns;
    mret (mk_SendResult (Z.of_nat (length view) * iterations) (end_ns - start_ns) flow_results).

(** [receive_into]: the destination is written through [rx_writes]. *)
Definition receive_into (fuel : nat) r (tensor : Tensor) (iterations : Z) :
    M (Rx W) ReceiveResult :=
  buffer ← lift (_tensor_buffer tensor true);
  guard_raise (iterations <=? 0) ValueError;;
  let process := bool_decide (tr_worker_mode r = MProcess) in
  guard_raise (process && negb (tb_shared buffer) && negb (tr_assume_shared r)) ValueError;;
  let view_len := Z.of_nat (length (tb_bytes buffer)) in
  partitions ← (if process then mret [] else lift (_partitions view_len (tr_flows r)));
  family ← lift (_family (ne_address (tr_local r)));
  results ← with_listeners r family (seqZ 0 (tr_flows r)) [] (λ listeners,
    if process then _receive_processes fuel r listeners view_len
    else on_rx (tell fd_ready);;
         receive_flows r listeners view_len iterations 0 partitions);
  lift (collect_results view_len iterations results).
End Entry.

(** The memory after some writes, the first write last in the list. *)
Definition apply_write (w : Z * bytes) (view : bytes) : bytes := splice (Z.to_nat w.1) w.2 view.
Definition apply_writes (ws : list (Z * bytes)) (view : bytes) : bytes := foldr apply_write view ws.

(** ** Local transfers *)

Inductive ModeArg := AAuto | AMode (m : Mode).
#[global] Instance ModeArg_eq_dec : EqDecision ModeArg.
Proof. solve_decision. Defined.

Definition selected_mode (worker_mode : ModeArg) (destination_shared : bool) : Mode :=
  match worker_mode with
  | AAuto => if destination_shared then MProcess else MThread
  | AMode m => m
  end.

(** The checks of [transfer_tensor_local]; [endpoints] is the number of endpoints
    that [benchmark._endpoints] finds. *)
Definition transfer_checks (source destination : Tensor) (iterations : Z) (worker_mode : ModeArg)
    (endpoints : Z) : result Mode :=
  source_buffer ← _tensor_buffer source false;
  destination_buffer ← _tensor_buffer destination true;
  if negb (length (tb_bytes source_buffer) =? length (tb_bytes destination_buffer))%nat
  then Raise ValueError else
  if iterations <=? 0 then Raise ValueError else
  if bool_decide (worker_mode = AMode MOther) then Raise ValueError else
  let mode := selected_mode worker_mode (tb_shared destination_buffer) in
  if bool_decide (mode = MProcess) && negb (tb_shared destination_buffer)
  then Raise ValueError else
  if negb (endpoints =? 2) then Raise ValueError else
  Ok mode.
