(* ===== verification/TransportTheorems.v ===== *)
(** The transport delivers the tensor: partitions tile it, a flow's bytes arrive
    however they are fragmented, and the writes of concurrent flows give the source
    in every interleaving. *)

From S2P Require Import Prelude Bytes Verbs Stream Transport.
#[local] Open Scope Z_scope.

(** * Partitions *)

Lemma partitions_lookup nbytes flows parts i part :
  _partitions nbytes flows = Ok parts → parts !! i = Some part →
  0 < flows ≤ nbytes ∧ Z.of_nat i < flows ∧
  part = ((nbytes * Z.of_nat i) `div` flows, (nbytes * (Z.of_nat i + 1)) `div` flows).
Proof.
  unfold _partitions. destruct (Z.leb_spec flows 0); [done|].
  destruct (Z.ltb_spec nbytes flows); [done|]. intros [= <-] Hi.
  rewrite list_lookup_fmap in Hi. apply fmap_Some in Hi as (x & Hx & ->).
  apply lookup_seqZ in Hx as [-> Hlt]. rewrite Z.add_0_l. done.
Qed.

Lemma partitions_length nbytes flows parts :
  _partitions nbytes flows = Ok parts → Z.of_nat (length parts) = flows ∧ 0 < flows ≤ nbytes.
Proof.
  unfold _partitions. destruct (Z.leb_spec flows 0); [done|].
  destruct (Z.ltb_spec nbytes flows); [done|]. intros [= <-].
  rewrite length_fmap, length_seqZ. lia.
Qed.

(** The quotients of consecutive multiples. *)
Lemma div_step n d k : 0 < d ≤ n → 0 ≤ k →
  let a := (n * k) `div` d in let b := (n * (k + 1)) `div` d in
  0 ≤ a < b ∧ n `div` d ≤ b - a ≤ n `div` d + 1 ∧ (k < d → b ≤ n).
Proof.
  intros Hd Hk. cbv zeta. replace (n * (k + 1)) with (n * k + n) by ring.
  pose proof (Z.div_mod (n * k) d ltac:(lia)). pose proof (Z.mod_pos_bound (n * k) d ltac:(lia)).
  pose proof (Z.div_mod (n * k + n) d ltac:(lia)).
  pose proof (Z.mod_pos_bound (n * k + n) d ltac:(lia)).
  pose proof (Z.div_mod n d ltac:(lia)). pose proof (Z.mod_pos_bound n d ltac:(lia)).
  set (q := (n * k) `div` d) in *. set (q' := (n * k + n) `div` d) in *. set (m := n `div` d) in *.
  assert (1 ≤ m) by nia. assert (m ≤ q' - q ≤ m + 1) by nia.
  assert (0 ≤ q) by (apply Z.div_pos; nia). split; [lia|]. split; [lia|]. intros. nia.
Qed.

Lemma partitions_bounds nbytes flows parts :
  _partitions nbytes flows = Ok parts →
  Z.of_nat (length parts) = flows ∧
  ∀ i part, parts !! i = Some part → 0 ≤ part.1 < part.2 ∧ part.2 ≤ nbytes.
Proof.
  intros Hp. split; [by apply (partitions_length nbytes)|]. intros i part Hi.
  destruct (partitions_lookup _ _ _ _ _ Hp Hi) as (Hd & Hlt & ->).
  destruct (div_step nbytes flows (Z.of_nat i) Hd ltac:(lia)) as (? & _ & Hle). cbn.
  specialize (Hle Hlt). lia.
Qed.

(** the partitions tile the tensor.  There is one per flow; they begin at 0,
    each begins where the one before it ends, the last ends at the end of the
    tensor; none is empty; and their sizes differ by at most one byte. *)
Theorem partitions_tile nbytes flows parts :
  _partitions nbytes flows = Ok parts →
  Z.of_nat (length parts) = flows ∧
  (∀ i a b, parts !! i = Some (a, b) →
     0 ≤ a < b ∧ b ≤ nbytes ∧ nbytes `div` flows ≤ b - a ≤ nbytes `div` flows + 1 ∧
     (i = 0%nat → a = 0) ∧
     (S i = length parts → b = nbytes) ∧
     (∀ c d, parts !! S i = Some (c, d) → c = b)).
Proof.
  intros Hp. destruct (partitions_length _ _ _ Hp) as [Hlen Hd]. split; [done|].
  intros i a b Hi. destruct (partitions_lookup _ _ _ _ _ Hp Hi) as (_ & Hlt & [= -> ->]).
  destruct (div_step nbytes flows (Z.of_nat i) Hd ltac:(lia)) as (Hab & Hsize & Hle).
  split_and!; try done; try lia.
  - intros ->. by rewrite Z.mul_0_r.
  - intros Hlast. replace (Z.of_nat i + 1) with flows by lia. apply Z.div_mul. lia.
  - intros c e Hc. destruct (partitions_lookup _ _ _ _ _ Hp Hc) as (_ & _ & [= -> _]).
    by replace (Z.of_nat i + 1) with (Z.of_nat (S i)) by lia.
Qed.

(** * Frames *)

(** A header that [struct] can pack. *)
Record header_ok (h : Header) : Prop := mk_header_ok {
  ho_magic : length (h_magic h) = 8%nat;
  ho_transfer_id : length (h_transfer_id h) = 16%nat;
  ho_flow : in_uint fI (h_flow h) = true;
  ho_total : in_uint fQ (h_total h) = true;
  ho_offset : in_uint fQ (h_offset h) = true;
  ho_nbytes : in_uint fQ (h_nbytes h) = true;
}.

Definition header_bytes (h : Header) : bytes :=
  h_magic h ++ h_transfer_id h ++ be 4 (h_flow h) ++ be 8 (h_total h) ++ be 8 (h_offset h)
  ++ be 8 (h_nbytes h).

Lemma pack_s_full n b : length b = n → pack_s n b = b.
Proof. intros <-. unfold pack_s. by rewrite firstn_all, Nat.sub_diag, app_nil_r. Qed.

Lemma HEADER_pack_ok h : header_ok h → HEADER_pack h = Ok (header_bytes h).
Proof.
  intros []. unfold HEADER_pack. rewrite !pack_be_ok by done. cbv [mbind result_bind].
  by rewrite !pack_s_full by done.
Qed.

Lemma header_bytes_length h : header_ok h → length (header_bytes h) = 52%nat.
Proof.
  intros [Hm Hi _ _ _ _]. unfold header_bytes. rewrite !length_app, !length_be, Hm, Hi. done.
Qed.

Lemma HEADER_unpack_bytes h : header_ok h → HEADER_unpack (header_bytes h) = Ok h.
Proof.
  intros Hok. unfold HEADER_unpack. rewrite header_bytes_length by done. cbn [negb Z.eqb].
  destruct Hok as [Hm Hi Hf Ht Ho Hn]. unfold header_bytes.
  rewrite (slice_app_l 0 8), slice_full by lia.
  rewrite (slice_app_r 8 16), Hm, (slice_app_l 0 16), (slice_full 16) by lia.
  rewrite (slice_app_r 24 4), Hm, (slice_app_r (24 - 8) 4), Hi by lia.
  rewrite (slice_app_l 0 4), slice_full by (rewrite length_be; lia).
  rewrite (slice_app_r 28 8), Hm, (slice_app_r (28 - 8) 8), Hi by lia.
  rewrite (slice_app_r 4 8), length_be, (slice_app_l 0 8), slice_full by (rewrite length_be; lia).
  rewrite (slice_app_r 36 8), Hm, (slice_app_r (36 - 8) 8), Hi by lia.
  rewrite (slice_app_r 12 8), length_be, (slice_app_r (12 - 4) 8), length_be by (rewrite length_be; lia).
  rewrite (slice_app_l 0 8), slice_full by (rewrite length_be; lia).
  rewrite (slice_app_r 44 8), Hm, (slice_app_r (44 - 8) 8), Hi by lia.
  rewrite (slice_app_r 20 8), length_be, (slice_app_r (20 - 4) 8), length_be by (rewrite length_be; lia).
  rewrite (slice_app_r 8 8), length_be, slice_full by (rewrite length_be; lia).
  rewrite !be_val_be by done. by destruct h.
Qed.

(** * Writes *)

(** A write that stores what [src] has there. *)
Definition agrees (src : bytes) (w : Z * bytes) : Prop :=
  0 ≤ w.1 ∧ (Z.to_nat w.1 + length w.2 ≤ length src)%nat ∧
  slice (Z.to_nat w.1) (length w.2) src = w.2.

(** The byte at [i] is written. *)
Definition covers (w : Z * bytes) (i : nat) : Prop := (Z.to_nat w.1 ≤ i < Z.to_nat w.1 + length w.2)%nat.

Lemma apply_writes_length src ws view :
  Forall (agrees src) ws → length view = length src → length (apply_writes ws view) = length src.
Proof.
  intros Hws Hlen. induction Hws as [|w ws (? & ? & _) _ IH]; [done|]. cbn [apply_writes foldr].
  fold (apply_writes ws view). unfold apply_write. by rewrite length_splice by lia.
Qed.

(** Writes of the source's bytes, in any order: where one covers, the source's byte;
    elsewhere, the old one. *)
Lemma apply_writes_lookup src ws view i :
  Forall (agrees src) ws → length view = length src →
  (Exists (λ w, covers w i) ws → apply_writes ws view !! i = src !! i) ∧
  (¬ Exists (λ w, covers w i) ws → apply_writes ws view !! i = view !! i).
Proof.
  intros Hws Hlen. induction Hws as [|w ws Hw Hws IH].
  { split; [by intros ?%Exists_nil|done]. }
  pose proof (apply_writes_length _ _ _ Hws Hlen) as Hl. destruct Hw as (H0 & Hb & Hs).
  cbn [apply_writes foldr]. fold (apply_writes ws view). unfold apply_write.
  rewrite lookup_splice by lia. rewrite Exists_cons. unfold covers at 1 3.
  case_decide as Hc.
  - split; [|tauto]. intros _. rewrite <- Hs, lookup_slice. rewrite decide_True by lia. f_equal. lia.
  - split; [intros [?|?]; [done|by apply IH]|]. intros Hn. apply IH. tauto.
Qed.

Lemma apply_writes_full src ws view :
  Forall (agrees src) ws → length view = length src →
  (∀ i, (i < length src)%nat → Exists (λ w, covers w i) ws) → apply_writes ws view = src.
Proof.
  intros Hws Hlen Hcov. apply list_eq. intros i.
  destruct (decide (i < length src)%nat) as [Hi|Hi].
  - by apply apply_writes_lookup; [| |apply Hcov].
  - rewrite !lookup_ge_None_2; [done|lia|]. rewrite (apply_writes_length src); [lia|done|done].
Qed.

(** * The network *)

(** Calls that read nothing from a connection. *)
Definition same_streams {W} `{StreamLaws Sock W} (w w' : W) : Prop :=
  ∀ s : Sock, stream w' s = stream w s.

(** Reading from a connection leaves the others, the other calls of a receiving
    flow leave all, and every listener has its peer's connection. *)
Class FlowLaws (W : Type) `{!FlowDevice W} `{!SockRecv Sock W} `{!StreamLaws Sock W} := {
  recv_others : ∀ s s' n w, s' ≠ s → stream (sock_recv s n w).2 s' = stream w s';
  affinity_ok : ∀ c w, (fd_set_affinity c w).1 = Ok tt ∧ same_streams w (fd_set_affinity c w).2;
  perf_streams : ∀ w, same_streams w (fd_perf_counter_ns w).2;
  settimeout_streams : ∀ s t w, same_streams w (fd_settimeout s t w);
  close_streams : ∀ s w, same_streams w (fd_close s w);
  accepted : Sock → Sock;
  accept_ok : ∀ l w, (fd_accept l w).1 = Ok (accepted l) ∧ same_streams w (fd_accept l w).2;
}.

Section Network.
Context {W : Type} `{!FlowDevice W} `{!SockRecv Sock W} `{!StreamLaws Sock W} `{!FlowLaws W}.
Implicit Types (r : TensorReceiver) (s : Rx W).

Definition rx_stream s : Sock → bytes := stream (rx_world s).

(** [m] returns [a], reads what is between [stream s] and [out] from [conn] alone,
    adds the writes [ws] and leaves [placed]. *)
Definition reads {A} (m : M (Rx W) A) s (a : A) (conn : Sock) (out : bytes) (ws : list (Z * bytes)) : Prop :=
  ∃ s', m s = (Ok a, s') ∧ rx_stream s' conn = out ∧
    (∀ c, c ≠ conn → rx_stream s' c = rx_stream s c) ∧
    rx_writes s' = ws ++ rx_writes s ∧ rx_placed s' = rx_placed s.

Lemma reads_bind {A B} (m : M (Rx W) A) (f : A → M (Rx W) B) s a conn out ws b out' ws' :
  reads m s a conn out ws →
  (∀ s', rx_stream s' conn = out → rx_placed s' = rx_placed s → reads (f a) s' b conn out' ws') →
  reads (m ≫= f) s b conn out' (ws' ++ ws).
Proof using.
  intros (s1 & Hm & Ho & Hc & Hw & Hp) Hf. destruct (Hf s1 Ho Hp) as (s2 & Hf2 & Ho2 & Hc2 & Hw2 & Hp2).
  exists s2. unfold mbind, M_bind. rewrite Hm. split; [exact Hf2|]. split; [done|].
  split; [intros c Hne; rewrite Hc2 by done; by apply Hc|]. split; [|congruence].
  rewrite Hw2, Hw. by rewrite app_assoc.
Qed.

(** A call that reads nothing. *)
Lemma reads_quiet {A} (m : M W A) s a conn :
  (∀ w, (m w).1 = Ok a) → (∀ w, same_streams w (m w).2) →
  reads (on_rx m) s a conn (rx_stream s conn) [].
Proof using.
  intros Hv Hs. unfold reads, on_rx. specialize (Hv (rx_world s)). specialize (Hs (rx_world s)).
  destruct (m (rx_world s)) as [v w]. cbn in *. subst v. eexists. split; [done|].
  split; [apply Hs|]. split; [intros c _; apply Hs|]. done.
Qed.

Lemma reads_ret {A} (a : A) s conn : reads (mret a) s a conn (rx_stream s conn) [].
Proof using. exists s. done. Qed.

(** An exact read of the next bytes. *)
Lemma recv_exact_others conn n (w : W) c :
  c ≠ conn → stream (recv_exact RuntimeError conn n w).2 c = stream w c.
Proof using FlowLaws0.
  intros Hne. unfold recv_exact. generalize (Z.to_nat n) as fuel. intros fuel. revert n w.
  induction fuel as [|fuel IH]; intros n w; [done|]. cbn [recv_loop].
  destruct (n =? 0); [done|]. unfold mbind, M_bind.
  pose proof (recv_others conn c n w Hne) as Hr. destruct (sock_recv conn n w) as [[part|e] w'];
    cbn in Hr; [|done]. destruct (length part =? 0)%nat; [done|].
  specialize (IH (n - Z.of_nat (length part)) w').
  destruct (recv_loop fuel RuntimeError conn _ w') as [[rest|e] w'']; cbn in *; congruence.
Qed.

Lemma reads_header h s conn out :
  header_ok h → rx_stream s conn = header_bytes h ++ out →
  reads (on_rx (recv_header conn)) s h conn out [].
Proof using FlowLaws0.
  intros Hok Hs. unfold recv_header, _recv_exact, reads, on_rx.
  destruct (recv_exact_ok RuntimeError conn (header_bytes h) out (rx_world s) Hs) as (w' & Hr & Ho).
  rewrite header_bytes_length in Hr by done. change (Z.of_nat 52) with HEADER_size in Hr.
  unfold mbind, M_bind. pose proof (λ c, recv_exact_others conn HEADER_size (rx_world s) c) as Hc.
  rewrite Hr in *. cbn [snd] in Hc. unfold lift. rewrite HEADER_unpack_bytes by done.
  eexists. split; [done|]. cbn. done.
Qed.

(** The writes of [place] for consecutive parts, the last first. *)
Fixpoint part_writes (f : Z → bytes → list (Z * bytes)) (position : Z) (parts : list bytes) :
    list (Z * bytes) :=
  match parts with
  | [] => []
  | d :: parts => part_writes f (position + Z.of_nat (length d)) parts ++ f position d
  end.

(** A span is received whole, however it is fragmented. *)
Lemma reads_span f conn place chunk a out :
  (∀ p d s, place p d s = (Ok tt, mk_Rx (rx_world s) (f p d ++ rx_writes s) (rx_placed s))) →
  0 < chunk →
  ∀ fuel position stop s, stop - position = Z.of_nat (length a) → (length a ≤ fuel)%nat →
  rx_stream s conn = a ++ out →
  ∃ parts, concat parts = a ∧
    reads (receive_span fuel conn place chunk position stop) s a conn out (part_writes f position parts).
Proof using FlowLaws0.
  intros Hplace Hchunk. remember (length a) as n eqn:Hn. revert a Hn.
  induction n as [n IH] using lt_wf_ind. intros a Hn fuel position stop s Hstop Hfuel Hs.
  destruct fuel as [|fuel].
  { assert (a = []) as -> by (destruct a; cbn in *; [done|lia]). exists []. split; [done|].
    exists s. split; [done|]. done. }
  cbn [receive_span]. destruct (Z.leb_spec stop position).
  { assert (a = []) as -> by (destruct a; cbn in *; [done|lia]). exists []. split; [done|].
    exists s. split; [done|]. done. }
  set (want := Z.min (position + chunk) stop - position).
  assert (stream (rx_world s) conn ≠ []) as Hne.
  { unfold rx_stream in Hs. rewrite Hs. destruct a; cbn in *; [lia|done]. }
  destruct (recv_some conn want (rx_world s) ltac:(lia) Hne) as (k & Hk & Hkn & Hkl & Hr & Hsd).
  pose proof (λ c, recv_others conn c want (rx_world s)) as Hoth.
  destruct (sock_recv conn want (rx_world s)) as [v w'] eqn:Hrecv. cbn [fst snd] in *. subst v.
  unfold rx_stream in Hs. rewrite Hs in *. set (part := take k (a ++ out)) in *.
  assert (length part = k) as Hpl by (unfold part; rewrite length_take; lia).
  assert (k ≤ length a)%nat as Hka by lia.
  assert (part = take k a) as Hpa by (unfold part; by rewrite take_app_le).
  destruct (IH (length a - k)%nat ltac:(lia) (drop k a) ltac:(by rewrite length_drop) fuel
    (position + Z.of_nat k) stop
    (mk_Rx w' (f position part ++ rx_writes s) (rx_placed s)) ltac:(lia) ltac:(lia))
    as (parts & Hcat & s2 & Hrun & Ho2 & Hc2 & Hw2 & Hp2).
  { unfold rx_stream. cbn. rewrite Hsd, drop_app_le by done. done. }
  cbn [rx_world rx_writes rx_placed] in *. rewrite <- Hpl in Hrun.
  exists (part :: parts). split; [change (part ++ concat parts = a); rewrite Hcat, Hpa; apply take_drop|].
  exists s2. split.
  - unfold mbind, M_bind, on_rx. rewrite Hrecv.
    rewrite (proj2 (Nat.eqb_neq (length part) 0)) by lia. rewrite Hplace. cbn [rx_world rx_writes rx_placed].
    rewrite Hrun. cbn [mret M_ret]. by rewrite Hpl, Hpa, take_drop.
  - split; [done|]. split.
    + intros c Hcne. rewrite Hc2 by done. unfold rx_stream. cbn. by apply Hoth.
    + split; [|done]. rewrite Hw2. cbn [part_writes]. by rewrite Hpl, app_assoc.
Qed.

Lemma reads_finally {A} (m : M (Rx W) A) (f : M W unit) s a conn out ws :
  reads m s a conn out ws → (∀ w, (f w).1 = Ok tt) → (∀ w, same_streams w (f w).2) →
  reads (try_finally m (on_rx f)) s a conn out ws.
Proof using.
  intros (s1 & Hm & Ho & Hc & Hw & Hp) Hv Hs. unfold reads, try_finally. rewrite Hm. unfold on_rx.
  specialize (Hv (rx_world s1)). specialize (Hs (rx_world s1)). destruct (f (rx_world s1)) as [v w].
  cbn in *. subst v. eexists. split; [done|]. unfold rx_stream in *. cbn.
  split; [rewrite (Hs conn); done|]. split; [|done]. intros c Hne. rewrite (Hs c). by apply Hc.
Qed.

(** The same with a property of the result and the writes, which depend on how the
    stream is fragmented. *)
Definition gets {A} (m : M (Rx W) A) s conn out (P : A → list (Z * bytes) → Prop) : Prop :=
  ∃ a ws, P a ws ∧ reads m s a conn out ws.

Lemma gets_skip {A B} (m : M W A) (f : A → M (Rx W) B) s a conn out P :
  (∀ w, (m w).1 = Ok a) → (∀ w, same_streams w (m w).2) →
  (∀ s', rx_stream s' conn = rx_stream s conn → rx_placed s' = rx_placed s →
     gets (f a) s' conn out P) →
  gets (on_rx m ≫= f) s conn out P.
Proof using.
  intros Hv Hs Hf. destruct (reads_quiet m s a conn Hv Hs) as (s1 & Hm & Ho & Hc & Hw & Hp).
  destruct (Hf s1 Ho Hp) as (b & ws & HP & s2 & Hrun & Ho2 & Hc2 & Hw2 & Hp2).
  exists b, ws. split; [done|]. exists s2. unfold mbind, M_bind. rewrite Hm.
  split; [exact Hrun|]. split; [done|]. split; [|split; [by rewrite Hw2, Hw|congruence]].
  intros c Hne. rewrite Hc2 by done. by apply Hc.
Qed.

Lemma gets_lift {A B} (x : result A) (f : A → M (Rx W) B) s a conn out P :
  x = Ok a → gets (f a) s conn out P → gets (lift x ≫= f) s conn out P.
Proof using. by intros ->. Qed.

(** A step that reads, then the rest. *)
Lemma gets_bind {A B} (m : M (Rx W) A) (f : A → M (Rx W) B) s a conn mid out ws P :
  reads m s a conn mid ws →
  (∀ s', rx_stream s' conn = mid → rx_placed s' = rx_placed s →
     gets (f a) s' conn out (λ b ws', P b (ws' ++ ws))) →
  gets (m ≫= f) s conn out P.
Proof using.
  intros (s1 & Hm & Ho & Hc & Hw & Hp) Hf.
  destruct (Hf s1 Ho Hp) as (b & ws' & HP & s2 & Hrun & Ho2 & Hc2 & Hw2 & Hp2).
  exists b, (ws' ++ ws). split; [done|]. exists s2. unfold mbind, M_bind. rewrite Hm.
  split; [exact Hrun|]. split; [done|].
  split; [intros c Hne; rewrite Hc2 by done; by apply Hc|]. split; [|congruence].
  rewrite Hw2, Hw. by rewrite app_assoc.
Qed.

Lemma gets_ret {A} (a : A) s conn out (P : A → list (Z * bytes) → Prop) :
  rx_stream s conn = out → P a [] → gets (mret a) s conn out P.
Proof using. intros <- HP. exists a, []. split; [done|]. apply reads_ret. Qed.

(** A read of the clock, at whatever time. *)
Lemma gets_time {B} (f : Z → M (Rx W) B) s conn out P :
  (∀ t s', rx_stream s' conn = rx_stream s conn → rx_placed s' = rx_placed s →
     gets (f t) s' conn out P) →
  gets (on_rx perf_counter_ns ≫= f) s conn out P.
Proof using FlowLaws0.
  intros Hf. pose proof (perf_streams (rx_world s)) as Hs.
  destruct (fd_perf_counter_ns (rx_world s)) as [t w] eqn:Ht. cbn in Hs.
  destruct (Hf t (mk_Rx w (rx_writes s) (rx_placed s))) as (b & ws & Hb & s' & Hrun & Ho & Hc & Hw & Hp).
  - apply Hs.
  - done.
  - exists b, ws. split; [done|]. exists s'. unfold mbind, M_bind, on_rx, perf_counter_ns. rewrite Ht.
    split; [exact Hrun|]. split; [done|]. split; [|done]. intros c Hne. rewrite Hc by done. apply Hs.
Qed.

Lemma affinity_quiet cpu :
  (∀ w, (_set_affinity (W := W) cpu w).1 = Ok tt) ∧ (∀ w, same_streams w (_set_affinity (W := W) cpu w).2).
Proof using FlowLaws0. destruct cpu; split; intros w; try done; apply affinity_ok. Qed.

Lemma tell_quiet (f : W → W) :
  (∀ w, same_streams w (f w)) → (∀ w, (tell f w).1 = Ok tt) ∧ (∀ w, same_streams w (tell f w).2).
Proof using. intros Hf. split; [done|]. intros w. apply Hf. Qed.

(** The peer's connection, with what is read from it. *)
Lemma gets_connection {A} listener (body : Sock → M (Rx W) A) s out P :
  (∀ s', rx_stream s' (accepted listener) = rx_stream s (accepted listener) →
     rx_placed s' = rx_placed s →
     gets (body (accepted listener)) s' (accepted listener) out P) →
  gets (with_connection listener body) s (accepted listener) out P.
Proof using FlowLaws0.
  intros Hb. set (conn := accepted listener) in *.
  destruct (accept_ok listener (rx_world s)) as [Hv Hs].
  destruct (fd_accept listener (rx_world s)) as [v w] eqn:Ha. cbn in Hv, Hs. subst v.
  set (s1 := mk_Rx w (rx_writes s) (rx_placed s)).
  set (s2 := mk_Rx (fd_settimeout conn None w) (rx_writes s) (rx_placed s)).
  assert (∀ c, rx_stream s2 c = rx_stream s c) as Hs2.
  { intros c. unfold rx_stream, s2. cbn. rewrite (settimeout_streams conn None w c). apply Hs. }
  destruct (Hb s2 (Hs2 conn) eq_refl) as (a & ws & Pa & Hr). exists a, ws. split; [done|].
  destruct (reads_finally (body conn) (tell (fd_close conn)) s2 a conn out ws Hr)
    as (s' & Hrun & Ho & Hc & Hw & Hp).
  { done. }
  { intros w'. apply close_streams. }
  exists s'. split.
  - unfold with_connection, mbind, M_bind. unfold on_rx at 1. rewrite Ha. exact Hrun.
  - split; [done|]. split; [|done]. intros c Hne. rewrite Hc by done. apply Hs2.
Qed.
End Network.

(** ** The writes of a partition *)

Abbreviation one_write := (λ (p : Z) (d : bytes), [(p, d)]).

Lemma part_writes_spec src parts position :
  0 ≤ position → (Z.to_nat position + length (concat parts) ≤ length src)%nat →
  slice (Z.to_nat position) (length (concat parts)) src = concat parts →
  Forall (agrees src) (part_writes one_write position parts) ∧
  (∀ i, (Z.to_nat position ≤ i < Z.to_nat position + length (concat parts))%nat →
     Exists (λ w, covers w i) (part_writes one_write position parts)).
Proof.
  revert position. induction parts as [|d parts IH]; intros position Hpos Hlen Hs; cbn [concat part_writes] in *.
  { split; [done|]. cbn. lia. }
  rewrite length_app in *. rewrite slice_split in Hs.
  apply app_inj_1 in Hs as [Hd Hs]; [|rewrite length_slice; lia].
  destruct (IH (position + Z.of_nat (length d))) as [IH1 IH2]; [lia|lia| |].
  { replace (Z.to_nat (position + Z.of_nat (length d))) with (Z.to_nat position + length d)%nat by lia.
    done. }
  split.
  - apply Forall_app. split; [done|]. apply Forall_singleton. split; [done|]. cbn. split; [lia|done].
  - intros i Hi. apply Exists_app. destruct (decide (i < Z.to_nat position + length d)%nat).
    + right. apply Exists_cons_hd. unfold covers. cbn. lia.
    + left. apply IH2. lia.
Qed.

(** What a flow sends: its header, then its partition, [iterations] times. *)
Definition flow_header (id : bytes) (flow total offset nbytes : Z) : Header :=
  mk_Header _MAGIC id flow total offset nbytes.
Definition range_bytes (src : bytes) (offset stop : Z) : bytes :=
  slice (Z.to_nat offset) (Z.to_nat (stop - offset)) src.
Definition flow_bytes (id : bytes) (flow offset stop iterations : Z) (src : bytes) : bytes :=
  header_bytes (flow_header id flow (Z.of_nat (length src)) offset (stop - offset))
  ++ concat (replicate (Z.to_nat iterations) (range_bytes src offset stop)).

Section StaticFlow.
Context {W : Type} `{!FlowDevice W} `{!SockRecv Sock W} `{!StreamLaws Sock W} `{!FlowLaws W}.
Implicit Types (r : TensorReceiver) (s : Rx W).

Lemma reads_range r conn src offset stop s out :
  0 < tr_chunk_bytes r → 0 ≤ offset ≤ stop → stop ≤ Z.of_nat (length src) →
  rx_stream s conn = range_bytes src offset stop ++ out →
  ∃ ws, reads (receive_range r conn write offset stop;; mret tt) s tt conn out ws ∧
    Forall (agrees src) ws ∧
    (∀ i, (Z.to_nat offset ≤ i < Z.to_nat stop)%nat → Exists (λ w, covers w i) ws).
Proof using FlowLaws0.
  intros Hchunk Ho Hstop Hs.
  assert (length (range_bytes src offset stop) = Z.to_nat (stop - offset)) as Hlen
    by (unfold range_bytes; rewrite length_slice; lia).
  destruct (reads_span one_write conn write (tr_chunk_bytes r) (range_bytes src offset stop) out
    ltac:(done) Hchunk (Z.to_nat (stop - offset)) offset stop s ltac:(lia) ltac:(lia) Hs)
    as (parts & Hcat & Hr).
  destruct (part_writes_spec src parts offset) as [Ha Hc]; [lia|rewrite Hcat; lia| |].
  { rewrite Hcat, Hlen. done. }
  exists (part_writes one_write offset parts). split; [|split; [done|]].
  - apply (reads_bind _ _ s _ conn out _ tt out [] Hr). intros s' Hs' _. rewrite <- Hs'.
    apply reads_ret.
  - intros i Hi. apply Hc. rewrite Hcat, Hlen. lia.
Qed.

Lemma reads_iterations r conn src offset stop l s out :
  0 < tr_chunk_bytes r → 0 ≤ offset ≤ stop → stop ≤ Z.of_nat (length src) →
  rx_stream s conn = concat (replicate (length l) (range_bytes src offset stop)) ++ out →
  ∃ ws, reads (for_each (λ _ : Z, receive_range r conn write offset stop;; mret tt) l) s tt conn out ws ∧
    Forall (agrees src) ws ∧
    (l ≠ [] → ∀ i, (Z.to_nat offset ≤ i < Z.to_nat stop)%nat → Exists (λ w, covers w i) ws).
Proof using FlowLaws0.
  intros Hchunk Ho Hstop. revert s. induction l as [|x l IH]; intros s Hs.
  { exists []. split; [|done]. cbn in Hs. rewrite <- Hs. apply reads_ret. }
  cbn [length replicate concat] in Hs. rewrite <- app_assoc in Hs.
  destruct (reads_range r conn src offset stop s _ Hchunk Ho Hstop Hs) as (ws & Hr & Ha & Hc).
  pose proof Hr as (s1 & Hrun & Hs1 & _).
  destruct (IH s1 Hs1) as (ws' & Hr' & Ha' & _).
  exists (ws' ++ ws). split; [|split].
  - cbn [for_each]. destruct Hr as (s1' & Hrun' & Hr). destruct Hr' as (s2 & Hrun2 & Ho2 & Hc2 & Hw2 & Hp2).
    assert (s1' = s1) as -> by congruence. destruct Hr as (_ & Hc1 & Hw1 & Hp1).
    exists s2. unfold mbind at 1, M_bind at 1. rewrite Hrun. split; [exact Hrun2|]. split; [done|].
    split; [intros c Hne; rewrite Hc2 by done; by apply Hc1|]. split; [|congruence].
    rewrite Hw2, Hw1. by rewrite app_assoc.
  - by apply Forall_app.
  - intros _ i Hi. apply Exists_app. right. by apply Hc.
Qed.

(** A flow receives its partition. *)
Lemma reads_receive_flow r listener id flow offset stop iterations src s out :
  0 < tr_chunk_bytes r → is_Some (tr_cpus r !! Z.to_nat flow) → 0 < iterations →
  0 ≤ offset ≤ stop → stop ≤ Z.of_nat (length src) →
  header_ok (flow_header id flow (Z.of_nat (length src)) offset (stop - offset)) →
  rx_stream s (accepted listener) = flow_bytes id flow offset stop iterations src ++ out →
  gets (_receive_flow r listener (Z.of_nat (length src)) flow offset stop iterations) s
    (accepted listener) out
    (λ report ws, fr_transfer_id report = Some id ∧ fr_nbytes report = (stop - offset) * iterations ∧
       Forall (agrees src) ws ∧
       (∀ i, (Z.to_nat offset ≤ i < Z.to_nat stop)%nat → Exists (λ w, covers w i) ws)).
Proof using FlowLaws0.
  intros Hchunk [cpu Hcpu] Hit Ho Hstop Hh Hs. unfold flow_bytes in Hs. rewrite <- app_assoc in Hs.
  unfold _receive_flow. apply gets_lift with (a := cpu); [unfold cpu_of; by rewrite Hcpu|].
  destruct (affinity_quiet cpu). apply gets_skip with (a := tt); [done..|]. intros s1 Hs1 _.
  apply gets_connection. intros s2 Hs2 _. rewrite <- Hs1, <- Hs2 in Hs.
  eapply gets_bind; [by apply reads_header|]. intros s3 Hs3 _.
  cbn [flow_header h_magic h_flow h_total h_offset h_nbytes h_transfer_id].
  rewrite bool_decide_eq_true_2, !Z.eqb_refl by done. cbn [andb negb].
  rewrite (proj2 (Z.leb_gt _ _)) by lia. cbn [guard_raise]. apply (gets_lift (Ok tt) _ _ tt); [done|].
  apply gets_time. intros t s4 Hs4 _. rewrite <- Hs4 in Hs3.
  assert (length (seqZ 0 iterations) = Z.to_nat iterations) as Hlen by apply length_seqZ.
  rewrite <- Hlen in Hs3.
  destruct (reads_iterations r _ src offset stop _ s4 out Hchunk Ho Hstop Hs3) as (ws & Hr & Ha & Hc).
  eapply gets_bind; [exact Hr|]. intros s5 Hs5 _. apply gets_time. intros t' s6 Hs6 _.
  apply gets_ret; [congruence|]. cbn. rewrite app_nil_r. split_and!; try done.
  apply Hc. intros Hnil. rewrite Hnil in Hlen. cbn in Hlen. lia.
Qed.

(** What the connection of each flow holds. *)
Definition flow_ready r (listeners : list Sock) id iterations src s (flow : nat) (part : Z * Z) : Prop :=
  is_Some (tr_cpus r !! flow) ∧ 0 ≤ part.1 < part.2 ∧ part.2 ≤ Z.of_nat (length src) ∧
  header_ok (flow_header id (Z.of_nat flow) (Z.of_nat (length src)) part.1 (part.2 - part.1)) ∧
  ∃ l, listeners !! flow = Some l ∧
    rx_stream s (accepted l) = flow_bytes id (Z.of_nat flow) part.1 part.2 iterations src.

(** The reports and the writes of the flows from [flow] on. *)
Lemma receive_flows_ok r listeners id iterations src partitions flow s :
  0 < tr_chunk_bytes r → 0 < iterations → NoDup (accepted <$> listeners) →
  (∀ j part, partitions !! j = Some part →
     flow_ready r listeners id iterations src s (flow + j)%nat part) →
  ∃ reports s' ws,
    receive_flows r listeners (Z.of_nat (length src)) iterations (Z.of_nat flow) partitions s
      = (Ok reports, s') ∧
    fr_transfer_id <$> reports = replicate (length partitions) (Some id) ∧
    fr_nbytes <$> reports = (λ part, (part.2 - part.1) * iterations) <$> partitions ∧
    rx_writes s' = ws ++ rx_writes s ∧ Forall (agrees src) ws ∧
    (∀ j part i, partitions !! j = Some part → (Z.to_nat part.1 ≤ i < Z.to_nat part.2)%nat →
       Exists (λ w, covers w i) ws).
Proof using FlowLaws0.
  intros Hchunk Hit Hnd. revert flow s. induction partitions as [|[offset stop] partitions IH];
    intros flow s Hready.
  { exists [], s, []. split_and!; try done. }
  destruct (Hready 0%nat _ eq_refl) as (Hcpu & Ho & Hstop & Hh & l & Hl & Hs).
  rewrite Nat.add_0_r in *. cbn [fst snd] in *.
  assert (rx_stream s (accepted l) = flow_bytes id (Z.of_nat flow) offset stop iterations src ++ [])
    as Hs' by by rewrite app_nil_r.
  rewrite <- (Nat2Z.id flow) in Hcpu.
  destruct (reads_receive_flow r l id (Z.of_nat flow) offset stop iterations src s [] Hchunk Hcpu Hit
    ltac:(lia) Hstop Hh Hs') as (report & ws & (Hid & Hn & Ha & Hc) & s1 & Hrun & _ & Hoth & Hw & _).
  destruct (IH (S flow) s1) as (reports & s2 & ws' & Hrun2 & Hids & Hns & Hw2 & Ha2 & Hc2).
  { intros j part Hj. destruct (Hready (S j) part Hj) as (? & ? & ? & ? & l' & Hl' & Hsl).
    rewrite Nat.add_succ_r in *. split_and!; try done; try lia. exists l'. split; [done|].
    rewrite Hoth; [done|]. intros Heq.
    assert (S (flow + j) = flow) as Hc'; [|lia].
    apply (NoDup_lookup (accepted <$> listeners) _ _ (accepted l) Hnd).
    - rewrite list_lookup_fmap. cbn. rewrite Hl'. cbn. by rewrite Heq.
    - rewrite list_lookup_fmap, Hl. done. }
  exists (report :: reports), s2, (ws' ++ ws). split_and!.
  - cbn [receive_flows]. rewrite Nat2Z.id, Hl. unfold mbind, M_bind, lift. rewrite Hrun.
    replace (Z.of_nat flow + 1) with (Z.of_nat (S flow)) by lia. by rewrite Hrun2.
  - cbn. by rewrite Hid, Hids.
  - cbn. by rewrite Hn, Hns.
  - rewrite Hw2, Hw. by rewrite app_assoc.
  - by apply Forall_app.
  - intros [|j] part i Hj Hi; apply Exists_app.
    + right. injection Hj as <-. by apply Hc.
    + left. by apply (Hc2 j part).
Qed.
End StaticFlow.

(** ** The whole tensor *)

Lemma sumZ_telescope (g : Z → Z) m :
  sumZ ((λ k, g (k + 1) - g k) <$> seqZ 0 (Z.of_nat m)) = g (Z.of_nat m) - g 0.
Proof.
  induction m as [|m IH]; [rewrite seqZ_nil by lia; symmetry; apply Z.sub_diag|].
  rewrite Nat2Z.inj_succ, <- Z.add_1_r, seqZ_app by lia. rewrite fmap_app, sumZ_app, IH.
  rewrite Z.add_0_l. change (seqZ (Z.of_nat m) 1) with [0 + Z.of_nat m]. cbn [fmap list_fmap sumZ].
  rewrite !Z.add_0_l. lia.
Qed.

Lemma partitions_sum nbytes flows parts iterations :
  _partitions nbytes flows = Ok parts →
  sumZ ((λ part : Z * Z, (part.2 - part.1) * iterations) <$> parts) = nbytes * iterations.
Proof.
  unfold _partitions. destruct (Z.leb_spec flows 0); [done|].
  destruct (Z.ltb_spec nbytes flows); [done|]. intros [= <-].
  rewrite <- list_fmap_compose.
  rewrite (sumZ_fmap_ext _ (λ k, iterations *
    ((nbytes * (k + 1)) `div` flows - (nbytes * k) `div` flows))) by (intros; cbn; ring).
  rewrite sumZ_fmap_mul.
  pose proof (sumZ_telescope (λ k, (nbytes * k) `div` flows) (Z.to_nat flows)) as Ht.
  rewrite Z2Nat.id in Ht by lia. rewrite Ht, Z.mul_0_r, Z.div_mul, Zdiv_0_l by lia. lia.
Qed.

(** Some partition holds each byte. *)
Lemma partitions_cover nbytes flows parts i :
  _partitions nbytes flows = Ok parts → 0 ≤ i < nbytes →
  ∃ j part, parts !! j = Some part ∧ part.1 ≤ i < part.2.
Proof.
  unfold _partitions. destruct (Z.leb_spec flows 0); [done|].
  destruct (Z.ltb_spec nbytes flows); [done|]. intros [= <-] Hi.
  set (g := λ k, (nbytes * k) `div` flows).
  assert (∀ m : nat, i < g (Z.of_nat m) → ∃ j, (j < m)%nat ∧ g (Z.of_nat j) ≤ i < g (Z.of_nat j + 1)) as Hg.
  { induction m as [|m IH]; intros Hm.
    - unfold g in Hm. cbn in Hm. rewrite Z.mul_0_r, Zdiv_0_l in Hm. lia.
    - destruct (Z.lt_ge_cases i (g (Z.of_nat m))) as [Hlt|Hge].
      + destruct (IH Hlt) as (j & Hj & Hr). exists j. split; [lia|done].
      + exists m. split; [lia|]. split; [done|].
        by replace (Z.of_nat m + 1) with (Z.of_nat (S m)) by lia. }
  destruct (Hg (Z.to_nat flows)) as (j & Hj & Hr).
  { unfold g. rewrite Z2Nat.id by lia. rewrite Z.div_mul by lia. lia. }
  exists j, (g (Z.of_nat j), g (Z.of_nat j + 1)). split; [|exact Hr].
  rewrite list_lookup_fmap, lookup_seqZ_lt by lia. cbn. done.
Qed.

Lemma remove_dups_replicate {A} `{EqDecision A} n (x : A) :
  (0 < n)%nat → remove_dups (replicate n x) = [x].
Proof.
  induction n as [|n IH]; [lia|]. intros _. destruct n as [|n]; [done|].
  change (replicate (S (S n)) x) with (x :: replicate (S n) x). cbn [remove_dups].
  case_decide as Hin; [apply IH; lia|]. destruct Hin. by left.
Qed.

Lemma list_max_some l : l ≠ [] → ∃ m, list_max l = Ok m.
Proof. destruct l; [done|]. intros _. by eexists. Qed.
Lemma list_min_some l : l ≠ [] → ∃ m, list_min l = Ok m.
Proof. destruct l; [done|]. intros _. by eexists. Qed.

(** Reports of one transfer that received something. *)
Lemma collect_results_ok view_len iterations id (n : nat) reports :
  (0 < n)%nat → fr_transfer_id <$> reports = replicate n (Some id) →
  sumZ (fr_nbytes <$> reports) = view_len * iterations → 0 < view_len * iterations →
  ∃ result, collect_results view_len iterations reports = Ok result ∧
    rr_nbytes result = view_len * iterations.
Proof.
  intros Hn Hids Hsum Hpos. unfold collect_results, one_transfer.
  rewrite Hids, remove_dups_replicate by done. rewrite Hsum, Z.eqb_refl. cbn [negb orb Nat.eqb length].
  assert (filter (λ f, 0 < fr_nbytes f) reports ≠ []) as Hne.
  { intros Hnil. assert (∀ f, f ∈ reports → fr_nbytes f ≤ 0) as Hle.
    { intros f Hf. destruct (Z.lt_ge_cases 0 (fr_nbytes f)); [|done]. exfalso.
      assert (f ∈ filter (λ f, 0 < fr_nbytes f) reports) as Hin by by apply list_elem_of_filter.
      rewrite Hnil in Hin. by apply not_elem_of_nil in Hin. }
    pose proof (sumZ_fmap_le fr_nbytes (λ _, 0) reports Hle) as Hs.
    rewrite (sumZ_fmap_const (λ _, 0) 0) in Hs by done. lia. }
  destruct (list_max_some (fr_end <$> filter (λ f, 0 < fr_nbytes f) reports)) as [a ->];
    [by intros ?%fmap_nil_inv|].
  destruct (list_min_some (fr_start <$> filter (λ f, 0 < fr_nbytes f) reports)) as [b ->];
    [by intros ?%fmap_nil_inv|].
  destruct (list_max_some (fr_completion <$> filter (λ f, 0 < fr_nbytes f) reports)) as [c ->];
    [by intros ?%fmap_nil_inv|].
  cbv [mbind result_bind]. by eexists.
Qed.

Section ThreadTransfer.
Context {W : Type} `{!FlowDevice W} `{!SockRecv Sock W} `{!StreamLaws Sock W} `{!FlowLaws W}.

(** C24: the tensor arrives, in every interleaving.  When the connection of each flow
    holds what the sender of its partition sends, however the network fragments it,
    the receiving flows all return; [receive_into] accepts their reports and counts
    [iterations] times the tensor; and the bytes they write, in any order (the flows
    run concurrently), turn a destination of the same size into the source. *)
Theorem thread_transfer r (listeners : list Sock) id flows iterations src partitions (s : Rx W) :
  _partitions (Z.of_nat (length src)) flows = Ok partitions →
  0 < tr_chunk_bytes r → Z.of_nat (length (tr_cpus r)) = flows →
  flows ≤ 65535 → Z.of_nat (length src) < 2 ^ 64 → 0 < iterations → length id = 16%nat →
  NoDup (accepted <$> listeners) →
  (∀ flow part, partitions !! flow = Some part → ∃ l, listeners !! flow = Some l ∧
     rx_stream s (accepted l) = flow_bytes id (Z.of_nat flow) part.1 part.2 iterations src) →
  ∃ reports s' ws,
    receive_flows r listeners (Z.of_nat (length src)) iterations 0 partitions s = (Ok reports, s') ∧
    (∃ result, collect_results (Z.of_nat (length src)) iterations reports = Ok result ∧
       rr_nbytes result = Z.of_nat (length src) * iterations) ∧
    rx_writes s' = ws ++ rx_writes s ∧
    (∀ view ws', length view = length src → ws' ≡ₚ ws → apply_writes ws' view = src).
Proof.
  intros Hparts Hchunk Hcpus Hflows Hlen Hit Hid Hnd Hready.
  pose proof (partitions_bounds _ _ _ Hparts) as [Hn Hb].
  destruct (receive_flows_ok r listeners id iterations src partitions 0 s) as
    (reports & s' & ws & Hrun & Hids & Hns & Hw & Ha & Hc); try done.
  { intros j part Hj. destruct (Hready j part Hj) as (l & Hl & Hs). destruct (Hb j part Hj) as [Hp Hp'].
    apply lookup_lt_Some in Hj. cbn [Nat.add]. split.
    { apply lookup_lt_is_Some. lia. }
    split; [lia|]. split; [lia|]. split; [|by exists l].
    split; cbn; try done; unfold in_uint; cbn -[Z.pow]; change (8 * Z.of_nat 4) with 32;
      change (8 * Z.of_nat 8) with 64; lia. }
  exists reports, s', ws. split; [exact Hrun|].
  assert (0 < Z.of_nat (length src)) as Hpos.
  { destruct partitions as [|part partitions]; [cbn in Hn; unfold _partitions in Hparts;
      repeat case_match; try done; lia|]. destruct (Hb 0%nat part eq_refl). lia. }
  split; [|split; [done|]].
  - apply (collect_results_ok _ _ id (length partitions)); [|done| |nia].
    + destruct partitions; [|cbn; lia]. cbn in Hn. unfold _partitions in Hparts.
      repeat case_match; try done; lia.
    + rewrite Hns. by eapply partitions_sum.
  - intros view ws' Hview Hperm. apply apply_writes_full; [by rewrite Hperm|done|].
    intros i Hi. destruct (partitions_cover _ _ _ (Z.of_nat i) Hparts ltac:(lia))
      as (j & part & Hj & Hr).
    rewrite Hperm. apply (Hc j part); [done|lia].
Qed.
End ThreadTransfer.

(** * What a sending flow sends *)

(** The bytes sent on each socket: none on a new one, [sendall] adds its bytes, and
    no other call of a sending flow changes them. *)
Class SentLaws (W : Type) `{!FlowDevice W} := {
  sent : W → Sock → bytes;
  sent_socket : ∀ f w s, (fd_socket f w).1 = Ok s → sent (fd_socket f w).2 s = [];
  sent_sendall : ∀ s b w, (fd_sendall s b w).1 = Ok tt →
    sent (fd_sendall s b w).2 s = sent w s ++ b;
  sent_others : ∀ s b w s', s' ≠ s → sent (fd_sendall s b w).2 s' = sent w s';
  sent_setsockopt : ∀ s o v w, sent (fd_setsockopt s o v w).2 = sent w;
  sent_settimeout : ∀ s t w, sent (fd_settimeout s t w) = sent w;
  sent_bind : ∀ s a w, sent (fd_bind s a w).2 = sent w;
  sent_connect : ∀ s a w, sent (fd_connect s a w).2 = sent w;
  sent_barrier : ∀ t w, sent (fd_barrier t w).2 = sent w;
  sent_go : ∀ w, sent (fd_go w) = sent w;
  sent_perf : ∀ w, sent (fd_perf_counter_ns w).2 = sent w;
  sent_tcp_info : ∀ s w r w', fd_tcp_info s w = Some (r, w') → sent w' = sent w;
  sent_close : ∀ s w, sent (fd_close s w) = sent w;
}.

Section SendFlow.
Context {W : Type} `{!FlowDevice W} `{!SentLaws W}.
Implicit Types (t : TensorSender) (w : W).

Definition same_sent : relation W := λ w w', sent w' = sent w.
#[local] Instance same_sent_preorder : PreOrder same_sent.
Proof using. split; [done|]. intros w1 w2 w3 H1 H2. unfold same_sent in *. congruence. Qed.

(** A call that sends [b] on [sock], when it returns. *)
Lemma wp_sendall sock b base w :
  sent w sock = base → wp (fd_sendall sock b) (λ _ w', sent w' sock = base ++ b) (λ _ _, True) w.
Proof using.
  intros Hb. unfold wp. pose proof (sent_sendall sock b w) as Hs.
  destruct (fd_sendall sock b w) as [[[]|e] w']; [|done]. cbn in Hs. by rewrite Hs, Hb.
Qed.

(** A call that sends nothing. *)
Lemma wp_silent {A} (m : M W A) sock base w :
  along same_sent m → sent w sock = base → wp m (λ _ w', sent w' sock = base) (λ _ _, True) w.
Proof using.
  intros Hm Hb. eapply wp_mono; [by apply wp_along| |done]. intros a w' Hs. unfold same_sent in Hs.
  by rewrite Hs.
Qed.

Lemma wp_send_range t sock view offset stop base w :
  0 < ts_chunk_bytes t → 0 ≤ offset ≤ stop → stop ≤ Z.of_nat (length view) → sent w sock = base →
  wp (send_range t sock view offset stop) (λ _ w', sent w' sock = base ++ range_bytes view offset stop)
    (λ _ _, True) w.
Proof using.
  intros Hchunk Ho Hstop Hb. unfold send_range, range_bytes.
  remember (Z.to_nat (stop - offset)) as n eqn:Hn.
  assert (∀ fuel m offset base w, m = Z.to_nat (stop - offset) → (m ≤ fuel)%nat → 0 ≤ offset ≤ stop →
    sent w sock = base →
    wp (send_span fuel sock view (ts_chunk_bytes t) offset stop)
      (λ _ w', sent w' sock = base ++ slice (Z.to_nat offset) m view) (λ _ _, True) w) as Hall.
  2: { by apply Hall. }
  clear dependent w base offset n. intros fuel.
  induction fuel as [|fuel IH]; intros m offset base w Hm Hfuel Ho Hb; cbn [send_span].
  { assert (m = 0%nat) as -> by lia. cbn. by rewrite app_nil_r. }
  destruct (Z.leb_spec stop offset).
  { assert (m = 0%nat) as -> by lia. cbn. by rewrite app_nil_r. }
  set (next := Z.min (offset + ts_chunk_bytes t) stop). apply wp_bind.
  eapply wp_mono; [apply wp_sendall, Hb| |done]. intros [] w' Hw'.
  eapply wp_mono; [apply (IH (Z.to_nat (stop - next))); [done|lia|lia|exact Hw']| |done].
  intros [] w'' ->. rewrite <- app_assoc. f_equal.
  replace m with (Z.to_nat (next - offset) + Z.to_nat (stop - next))%nat by lia.
  rewrite slice_split. do 2 f_equal. lia.
Qed.

Lemma wp_send_iterations t sock view offset stop (l : list Z) base w :
  0 < ts_chunk_bytes t → 0 ≤ offset ≤ stop → stop ≤ Z.of_nat (length view) → sent w sock = base →
  wp (for_each (λ _, send_range t sock view offset stop) l)
    (λ _ w', sent w' sock = base ++ concat (replicate (length l) (range_bytes view offset stop)))
    (λ _ _, True) w.
Proof using.
  intros Hchunk Ho Hstop. revert base w. induction l as [|x l IH]; intros base w Hb.
  { cbn. by rewrite app_nil_r. }
  cbn [for_each length replicate concat]. apply wp_bind.
  eapply wp_mono; [by apply wp_send_range| |done]. intros [] w' Hw'.
  eapply wp_mono; [by apply IH| |done]. intros [] w'' ->. by rewrite app_assoc.
Qed.

Lemma wp_send_header sock h base w :
  header_ok h → sent w sock = base →
  wp (send_header sock h) (λ _ w', sent w' sock = base ++ header_bytes h) (λ _ _, True) w.
Proof using.
  intros Hh Hb. unfold send_header. apply wp_bind, wp_lift. rewrite HEADER_pack_ok by done.
  by apply wp_sendall.
Qed.

Lemma silent_start t sock port : along same_sent (start_flow t sock port).
Proof using.
  unfold start_flow, _bind_device, tell, perf_counter_ns.
  repeat (apply along_bind; [apply _| |intros ?]); try apply along_lift; try apply _; intros w;
    unfold same_sent, modify; cbn [snd].
  - apply sent_setsockopt.
  - apply sent_setsockopt.
  - apply sent_settimeout.
  - apply sent_bind.
  - apply sent_connect.
  - apply sent_barrier.
  - apply sent_go.
  - apply sent_settimeout.
  - pose proof (sent_perf w) as Hp. by destruct (fd_perf_counter_ns w).
Qed.

Lemma silent_perf : along same_sent (perf_counter_ns (W := W)).
Proof using.
  intros w. unfold same_sent, perf_counter_ns. pose proof (sent_perf w) as Hp.
  by destruct (fd_perf_counter_ns w).
Qed.

Lemma silent_retransmits sock : along same_sent (_total_retransmits (W := W) sock).
Proof using.
  intros w. unfold same_sent, _total_retransmits. destruct (fd_tcp_info sock w) as [[r w']|] eqn:Ht; [|done].
  apply sent_tcp_info in Ht. by destruct r; [case_match|].
Qed.

(** a sending flow sends its header and then its partition, [iterations] times,
    on one new connection, in chunks of any size. *)
Theorem send_flow_bytes t view id flow offset stop iterations w :
  0 < ts_chunk_bytes t → 0 ≤ offset ≤ stop → stop ≤ Z.of_nat (length view) →
  Z.of_nat (length view) < 2 ^ 64 → 0 ≤ flow < 2 ^ 32 → length id = 16%nat →
  match _send_flow t view id flow offset stop iterations w with
  | (Ok f, w') => ft_nbytes f = (stop - offset) * iterations ∧
      ∃ sock, sent w' sock = flow_bytes id flow offset stop iterations view
  | (Raise _, _) => True
  end.
Proof using.
  intros Hchunk Ho Hstop Hlen Hflow Hid.
  enough (wp (_send_flow t view id flow offset stop iterations)
    (λ f w', ft_nbytes f = (stop - offset) * iterations ∧
       ∃ sock, sent w' sock = flow_bytes id flow offset stop iterations view) (λ _ _, True) w) as Hwp.
  { unfold wp in Hwp. by destruct (_send_flow _ _ _ _ _ _ _ w) as [[f|e] w']. }
  assert (header_ok (flow_header id flow (Z.of_nat (length view)) offset (stop - offset))) as Hh.
  { split; cbn; try done; unfold in_uint; cbn -[Z.pow]; change (8 * Z.of_nat 4) with 32;
      change (8 * Z.of_nat 8) with 64; lia. }
  unfold _send_flow. apply wp_bind, wp_lift. destruct (cpu_of _ _) as [cpu|]; [|done].
  apply wp_bind. eapply wp_mono; [apply wp_trivial| |done]. intros [] w1 _.
  apply wp_bind, wp_lift. destruct (_family _) as [family|]; [|done]. apply wp_bind.
  unfold with_socket. apply wp_bind. unfold wp at 1. pose proof (sent_socket family w1) as Hs1.
  destruct (fd_socket family w1) as [[sock|e] w2]; [|done]. cbn in Hs1. specialize (Hs1 sock eq_refl).
  apply wp_try_finally.
  eapply wp_mono with (λ _ w', sent w' sock = flow_bytes id flow offset stop iterations view) (λ _ _, True).
  - apply wp_bind. eapply wp_mono; [apply wp_silent; [apply silent_start|exact Hs1]| |done].
    intros start w3 H3. apply wp_bind. eapply wp_mono; [apply wp_send_header; [exact Hh|exact H3]| |done].
    intros [] w4 H4. apply wp_bind.
    eapply wp_mono; [apply wp_send_iterations; [done|done|done|exact H4]| |done].
    intros [] w5 H5. apply wp_bind.
    eapply wp_mono; [apply wp_silent; [apply silent_retransmits|exact H5]| |done].
    intros n w6 H6. apply wp_bind.
    eapply wp_mono; [apply wp_silent; [apply silent_perf|exact H6]| |done].
    intros t7 w7 H7. apply wp_ret. rewrite H7. unfold flow_bytes. by rewrite length_seqZ.
  - intros a w3 H3. split; [done|]. exists sock. cbn. by rewrite sent_close.
  - done.
Qed.
End SendFlow.

(** * A loopback network *)

Module Loopback.

(** The bytes waiting on each socket; each read gives three at most. *)
Record world := mk_world { lo_streams : list bytes; lo_sent : list bytes; lo_time : Z }.

#[local] Instance recv3 : SockRecv Sock world := λ s n w,
  let data := default [] (lo_streams w !! sk_fd s) in
  let k := Nat.min 3 (Z.to_nat n) in
  (Ok (take k data), mk_world (<[sk_fd s := drop k data]> (lo_streams w)) (lo_sent w) (lo_time w)).

#[local] Instance laws : StreamLaws Sock world.
Proof.
  refine {| stream := λ w s, default [] (lo_streams w !! sk_fd s) |}.
  - intros s n w Hn. unfold sock_recv, recv3. destruct (lo_streams w !! sk_fd s) as [data|] eqn:Hd; cbn; [|done].
    intros Hne. exists (Nat.min (Nat.min 3 (Z.to_nat n)) (length data)).
    destruct data as [|x data]; [done|]. remember (x :: data) as l.
    assert (0 < length l)%nat by (subst; cbn; lia).
    split_and!; [lia|lia|lia| |].
    + f_equal. rewrite <- take_take. by rewrite (firstn_all l).
    + rewrite list_lookup_insert_eq by (by eapply lookup_lt_Some). cbn.
      destruct (Nat.min_spec (Nat.min 3 (Z.to_nat n)) (length l)) as [[Hlt Heq]|[Hle Heq]];
        cbn in Heq; rewrite Heq; [done|]. by rewrite !drop_ge by (done || lia).
  - intros s n w _ Hs. unfold sock_recv, recv3. cbn. rewrite Hs, take_nil, drop_nil. split; [done|].
    destruct (decide (sk_fd s < length (lo_streams w))%nat).
    + by rewrite list_lookup_insert_eq.
    + by rewrite list_insert_ge, Hs by lia.
Defined.

#[local] Instance device : FlowDevice world := {|
  fd_set_affinity := λ _ w, (Ok tt, w);
  fd_socket := λ _ w,
    (Ok (mk_Sock (length (lo_sent w))), mk_world (lo_streams w) (lo_sent w ++ [[]]) (lo_time w));
  fd_close := λ _ w, w;
  fd_setsockopt := λ _ _ _ w, (Ok tt, w);
  fd_settimeout := λ _ _ w, w;
  fd_bind := λ _ _ w, (Ok tt, w);
  fd_connect := λ _ _ w, (Ok tt, w);
  fd_listen := λ _ _ w, (Ok tt, w);
  fd_accept := λ l w, (Ok l, w);
  fd_sendall := λ s b w,
    match lo_sent w !! sk_fd s with
    | Some d => (Ok tt, mk_world (lo_streams w) (<[sk_fd s := d ++ b]> (lo_sent w)) (lo_time w))
    | None => (Raise OSError, w)
    end;
  fd_tcp_info := λ _ _, None;
  fd_barrier := λ _ w, (Ok tt, w);
  fd_go := λ w, w;
  fd_ready := λ w, w;
  fd_perf_counter_ns := λ w, (lo_time w, mk_world (lo_streams w) (lo_sent w) (lo_time w + 1));
|}.

#[local] Instance flow_laws : FlowLaws world.
Proof.
  refine {| accepted := λ l, l |}; try done.
  intros s s' n w Hne. unfold sock_recv, recv3. cbn. rewrite list_lookup_insert_ne; [done|].
  intros Heq. apply Hne. destruct s, s'. cbn in Heq. by subst.
Defined.

#[local] Instance sent_laws : SentLaws world.
Proof.
  refine {| sent := λ w s, default [] (lo_sent w !! sk_fd s) |}; try done.
  - intros f w s [= <-]. cbn. rewrite lookup_app_r by lia. by rewrite Nat.sub_diag.
  - intros s b w. cbn. destruct (lo_sent w !! sk_fd s) as [d|] eqn:Hd; [|done]. intros _. cbn.
    rewrite list_lookup_insert_eq by (by eapply lookup_lt_Some). done.
  - intros s b w s' Hne. cbn. destruct (lo_sent w !! sk_fd s); [|done]. cbn.
    rewrite list_lookup_insert_ne; [done|]. intros Heq. apply Hne. destruct s, s'. cbn in Heq. by subst.
Defined.

(** Ten bytes over three flows, twice, in chunks of two. *)
Definition src : bytes := [10; 11; 12; 13; 14; 15; 16; 17; 18; 19].
Definition id16 : bytes := replicate 16 7.
Definition ends : NetworkEndpoint := mk_NetworkEndpoint [101; 116; 104; 49] (IPv4 1).
Definition sender : TensorSender :=
  mk_TensorSender ends (IPv4 2) 3 6201 2 4 [None; None; None] 120 MThread.
Definition receiver : TensorReceiver :=
  mk_TensorReceiver ends 3 6201 2 4 [None; None; None] 120 MThread false.
Definition parts : list (Z * Z) := [(0, 3); (3, 6); (6, 10)].
Definition waiting : world :=
  mk_world (imap (λ i part, flow_bytes id16 (Z.of_nat i) part.1 part.2 2 src) parts) [] 0.

Lemma partitions_tile_witness : ∃ b, _partitions 10 3 = Ok parts ∧ parts !! 2%nat = Some (6, b) ∧ b = 10.
Proof.
  assert (_partitions 10 3 = Ok parts) as Hp by (vm_compute; reflexivity).
  destruct (partitions_tile _ _ _ Hp) as [_ Ht].
  destruct (Ht 2%nat 6 10 eq_refl) as (_ & _ & _ & _ & Hlast & _).
  exists 10. split; [exact Hp|]. split; [reflexivity|]. apply Hlast. reflexivity.
Defined.

Lemma send_flow_bytes_witness :
  ∃ f w, _send_flow sender src id16 1 3 6 2 (mk_world [] [] 0) = (Ok f, w) ∧ ft_nbytes f = 6.
Proof.
  pose proof (send_flow_bytes sender src id16 1 3 6 2 (mk_world [] [] 0) ltac:(cbn; lia) ltac:(lia)
    ltac:(cbn; lia) ltac:(cbn; lia) ltac:(lia) eq_refl) as Hs.
  destruct (_send_flow sender src id16 1 3 6 2 (mk_world [] [] 0)) as [[f|e] w] eqn:Hrun.
  - exists f, w. split; [reflexivity|]. destruct Hs as [Hn _]. exact Hn.
  - exfalso. vm_compute in Hrun. discriminate.
Defined.

Lemma thread_transfer_witness :
  ∃ reports s' ws,
    receive_flows receiver [mk_Sock 0; mk_Sock 1; mk_Sock 2] 10 2 0 parts (mk_Rx waiting [] []) = (Ok reports, s')
    ∧ rx_writes s' = ws ∧ apply_writes (reverse ws) (replicate 10 0) = src.
Proof.
  assert (_partitions 10 3 = Ok parts) as Hp by (vm_compute; reflexivity).
  assert (NoDup (accepted <$> [mk_Sock 0; mk_Sock 1; mk_Sock 2])) as Hnd.
  { assert (bool_decide (NoDup (accepted <$> [mk_Sock 0; mk_Sock 1; mk_Sock 2])) = true) as Hb
      by (vm_compute; reflexivity). by apply bool_decide_eq_true in Hb. }
  destruct (thread_transfer receiver [mk_Sock 0; mk_Sock 1; mk_Sock 2] id16 3 2 src parts
    (mk_Rx waiting [] []) Hp ltac:(cbn; lia) eq_refl ltac:(lia) ltac:(cbn; lia) ltac:(lia) eq_refl Hnd)
    as (reports & s' & ws & Hrun & _ & Hw & Hall).
  { intros [|[|[|j]]] part Hj; try discriminate; injection Hj as <-; eexists; (split; [reflexivity|]);
      vm_compute; reflexivity. }
  exists reports, s', ws. split; [exact Hrun|]. split; [rewrite Hw; apply app_nil_r|].
  apply Hall; [reflexivity|apply reverse_Permutation].
Defined.
End Loopback.
