(* ===== verification/Stripes.v ===== *)
(** Dynamic stripes: the process mode of the transport.  Senders take tasks from a
    shared counter, receivers place each stripe once; both as step relations in
    which the rounds of the flows interleave in any order. *)

From S2P Require Import Prelude Bytes Verbs Stream Transport TransportTheorems.
#[local] Open Scope Z_scope.

(** * Stripes *)

Section Stripes.
Context (stripe_bytes nbytes : Z).
Context (Hstripe : 0 < stripe_bytes) (Hnbytes : 0 < nbytes).

Definition count : Z := stripes_of stripe_bytes nbytes.
Definition stripe_size (k : Z) : Z := Z.min (k * stripe_bytes + stripe_bytes) nbytes - k * stripe_bytes.

Lemma count_spec : 0 < count ∧ (count - 1) * stripe_bytes < nbytes ≤ count * stripe_bytes.
Proof using Hstripe Hnbytes.
  unfold count, stripes_of.
  pose proof (Z.div_mod (nbytes + stripe_bytes - 1) stripe_bytes ltac:(lia)).
  pose proof (Z.mod_pos_bound (nbytes + stripe_bytes - 1) stripe_bytes ltac:(lia)).
  split; nia.
Qed.

Lemma stripe_size_pos k : 0 ≤ k < count →
  0 < stripe_size k ∧ k * stripe_bytes + stripe_size k ≤ nbytes ∧ stripe_size k ≤ stripe_bytes.
Proof using Hstripe Hnbytes. intros Hk. pose proof count_spec. unfold stripe_size. nia. Qed.

Lemma task_stripe t : 0 ≤ t → 0 ≤ t `mod` count < count.
Proof using Hstripe Hnbytes. intros. apply Z.mod_pos_bound. apply count_spec. Qed.

(** The stripes cover the tensor. *)
Lemma stripe_of i : 0 ≤ i < nbytes → ∃ k, 0 ≤ k < count ∧ k * stripe_bytes ≤ i < k * stripe_bytes + stripe_size k.
Proof using Hstripe Hnbytes.
  intros Hi. pose proof count_spec. exists (i `div` stripe_bytes).
  pose proof (Z.div_mod i stripe_bytes ltac:(lia)). pose proof (Z.mod_pos_bound i stripe_bytes ltac:(lia)).
  set (k := i `div` stripe_bytes) in *. assert (0 ≤ k) by (apply Z.div_pos; lia).
  unfold stripe_size. split; nia.
Qed.

Lemma sum_stripes (n : nat) :
  Z.of_nat n ≤ count →
  sumZ (stripe_size <$> seqZ 0 (Z.of_nat n)) = Z.min (Z.of_nat n * stripe_bytes) nbytes.
Proof using Hstripe Hnbytes.
  intros Hn. pose proof count_spec.
  rewrite (sumZ_fmap_ext _ (λ k, Z.min ((k + 1) * stripe_bytes) nbytes - Z.min (k * stripe_bytes) nbytes)).
  - pose proof (sumZ_telescope (λ k, Z.min (k * stripe_bytes) nbytes) n) as Ht. cbv beta in Ht.
    rewrite Ht. lia.
  - intros k Hk. apply elem_of_seqZ in Hk. unfold stripe_size. nia.
Qed.

(** All tasks together send the tensor [iterations] times. *)
Lemma sum_tasks (iterations : nat) :
  sumZ ((λ t, stripe_size (t `mod` count)) <$> seqZ 0 (count * Z.of_nat iterations))
  = nbytes * Z.of_nat iterations.
Proof using Hstripe Hnbytes.
  pose proof count_spec as [Hc [_ Hle]].
  induction iterations as [|m IH].
  { rewrite Z.mul_0_r, seqZ_nil by lia. cbn. lia. }
  replace (count * Z.of_nat (S m)) with (count * Z.of_nat m + count) by lia.
  rewrite seqZ_app by lia. rewrite fmap_app, sumZ_app, IH, Z.add_0_l.
  replace (seqZ (count * Z.of_nat m) count) with (Z.add (count * Z.of_nat m) <$> seqZ 0 count)
    by (rewrite fmap_add_seqZ; f_equal; lia).
  rewrite <- list_fmap_compose.
  rewrite (sumZ_fmap_ext _ stripe_size).
  - pose proof (sum_stripes (Z.to_nat count) ltac:(lia)) as Hs. rewrite Z2Nat.id in Hs by lia.
    rewrite Hs. lia.
  - intros k Hk. apply elem_of_seqZ in Hk. cbn. f_equal.
    rewrite Z.add_comm, Z.mul_comm, Z.mod_add by lia. apply Z.mod_small. lia.
Qed.
End Stripes.

(** * Frames *)

Section Frames.
Context (r : TensorReceiver) (src id : bytes).

Abbreviation total := (Z.of_nat (length src)).
Abbreviation sb := (tr_stripe_bytes r).
Abbreviation stripes := (count sb total).

Context (Hsb : 0 < sb) (Hsrc : 0 < total < 2 ^ 64) (Hid : length id = 16%nat).

(** A task on a connection: the header and the stripe; and the terminator. *)
Definition stripe_header (flow k : Z) : Header :=
  mk_Header _MAGIC id flow total (k * sb) (stripe_size sb total k).
Definition stripe_bytes (k : Z) : bytes := range_bytes src (k * sb) (k * sb + stripe_size sb total k).
Definition task_frame (flow t : Z) : bytes :=
  header_bytes (stripe_header flow (t `mod` stripes)) ++ stripe_bytes (t `mod` stripes).
Definition done_frame (flow : Z) : bytes := header_bytes (mk_Header _DONE id flow total 0 0).
Definition frames (flow : Z) (ts : list Z) : bytes := concat (task_frame flow <$> ts) ++ done_frame flow.

Lemma stripe_bytes_length k : 0 ≤ k < stripes → Z.of_nat (length (stripe_bytes k)) = stripe_size sb total k.
Proof using All.
  intros Hk. destruct (stripe_size_pos sb total Hsb ltac:(lia) k Hk) as (H1 & H2 & _).
  unfold stripe_bytes, range_bytes. rewrite length_slice; lia.
Qed.

Lemma stripe_header_ok flow k : 0 ≤ flow < 2 ^ 32 → 0 ≤ k < stripes → header_ok (stripe_header flow k).
Proof using All.
  intros Hf Hk. destruct (stripe_size_pos sb total Hsb ltac:(lia) k Hk) as (H1 & H2 & _).
  split; cbn -[stripe_size]; try done; unfold in_uint; change (8 * Z.of_nat 4) with 32;
    change (8 * Z.of_nat 8) with 64; nia.
Qed.

Lemma done_header_ok flow : 0 ≤ flow < 2 ^ 32 → header_ok (mk_Header _DONE id flow total 0 0).
Proof using Hsrc Hid.
  intros Hf. split; cbn; try done; unfold in_uint; cbn -[Z.pow]; change (8 * Z.of_nat 4) with 32;
    change (8 * Z.of_nat 8) with 64; lia.
Qed.
End Frames.

(** * A receiving round *)

Section Round.
Context {W : Type} `{!FlowDevice W} `{!SockRecv Sock W} `{!StreamLaws Sock W} `{!FlowLaws W}.
Context (r : TensorReceiver) (src id : bytes).
Implicit Types (s : Rx W) (d : Dynamic).

Abbreviation total := (Z.of_nat (length src)).
Abbreviation sb := (tr_stripe_bytes r).
Abbreviation stripes := (count sb total).

Context (Hsb : 0 < sb) (Hchunk : 0 < tr_chunk_bytes r) (Hsrc : 0 < total < 2 ^ 64)
  (Hid : length id = 16%nat).

(** The locals of a flow of this transfer. *)
Definition ours d : Prop := dy_transfer_id d = None ∨ dy_transfer_id d = Some id.

Lemma header_matches d h flow :
  ours d → h_flow h = flow → h_total h = total → h_transfer_id h = id →
  header_mismatch total flow d h = false.
Proof using.
  intros Hd Hf Ht Hi. unfold header_mismatch. rewrite Hf, Ht, Hi, !Z.eqb_refl.
  destruct Hd as [-> | ->]; [done|]. by rewrite bool_decide_eq_false_2 by (intros Hne; by apply Hne).
Qed.

Lemma stripe_accepted flow k : 0 ≤ k < stripes → stripe_invalid r (stripe_header r src id flow k) = false.
Proof using All.
  intros Hk. destruct (stripe_size_pos sb total Hsb ltac:(lia) k Hk) as (H1 & H2 & _).
  unfold stripe_invalid, stripe_header. cbn -[stripe_size].
  rewrite bool_decide_eq_false_2 by (intros Hne; by apply Hne). rewrite Z.mod_mul by lia.
  unfold stripe_size in *. lia.
Qed.

Lemma part_writes_none position parts : part_writes (λ _ _, []) position parts = [].
Proof using.
  revert position. induction parts as [|d parts IH]; intros position; [done|]. cbn. by rewrite IH.
Qed.

(** A [recv_into] the staging buffer writes nothing shared. *)
Definition no_place : Z → bytes → M (Rx W) unit := λ _ _, mret tt.
Lemma no_place_spec p (d : bytes) s :
  no_place p d s = (Ok tt, mk_Rx (rx_world s) ([] ++ rx_writes s) (rx_placed s)).
Proof using. by destruct s. Qed.

(** What a round leaves, apart from the connection. *)
Definition placed_by s (k : Z) (seen : list Z) s' : Prop :=
  if bool_decide (k ∈ seen) then rx_writes s' = rx_writes s ∧ rx_placed s' = rx_placed s
  else match rx_placed s !! Z.to_nat k with
       | Some false => rx_writes s' = (k * sb, stripe_bytes r src k) :: rx_writes s ∧
           rx_placed s' = <[Z.to_nat k := true]> (rx_placed s)
       | Some true => rx_writes s' = rx_writes s ∧ rx_placed s' = rx_placed s
       | None => False
       end.

Lemma round_stripe conn flow k d s out :
  0 ≤ flow < 2 ^ 32 → 0 ≤ k < stripes → ours d → Z.of_nat (length (rx_placed s)) = stripes →
  rx_stream s conn = header_bytes (stripe_header r src id flow k) ++ stripe_bytes r src k ++ out →
  ∃ d' s', receive_round r conn total flow d s = (Ok (inl d'), s') ∧
    rx_stream s' conn = out ∧ (∀ c, c ≠ conn → rx_stream s' c = rx_stream s c) ∧
    dy_transfer_id d' = Some id ∧ dy_received d' = dy_received d + stripe_size sb total k ∧
    (∀ x, x ∈ dy_seen d' ↔ x = k ∨ x ∈ dy_seen d) ∧
    placed_by s k (dy_seen d) s'.
Proof using All.
  intros Hflow Hk Hd Hlen Hs. destruct (stripe_size_pos sb total Hsb ltac:(lia) k Hk) as (Hn & _ & _).
  destruct (reads_header (stripe_header r src id flow k) s conn _ (stripe_header_ok r src id Hsb Hsrc Hid flow k Hflow Hk) Hs)
    as (s1 & Hh & Hs1 & Hc1 & Hw1 & Hp1).
  unfold receive_round, mbind, M_bind. rewrite Hh, header_matches by done.
  rewrite bool_decide_eq_false_2 by done. rewrite stripe_accepted by done.
  cbn [dy_seen dy_transfer_id dy_received dy_start stripe_header h_transfer_id h_nbytes h_offset].
  assert (∃ start s2, (match dy_start d with
      | Some start => mret start
      | None => on_rx perf_counter_ns
      end : M (Rx W) Z) s1 = (Ok start, s2) ∧
      (∀ c, rx_stream s2 c = rx_stream s1 c) ∧ rx_writes s2 = rx_writes s1 ∧ rx_placed s2 = rx_placed s1)
    as (start & s2 & -> & Hc2 & Hw2 & Hp2).
  { destruct (dy_start d) as [start|]; [by exists start, s1|]. unfold on_rx, perf_counter_ns.
    pose proof (perf_streams (rx_world s1)) as Hps. destruct (fd_perf_counter_ns _) as [t w].
    exists t. eexists. split; [done|]. split; [apply Hps|done]. }
  assert (rx_stream s2 conn = stripe_bytes r src k ++ out) as Hs2 by by rewrite Hc2.
  pose proof (stripe_bytes_length r src id Hsb Hsrc Hid k Hk) as Hlenk.
  destruct (reads_span (λ _ _, []) conn no_place (tr_chunk_bytes r) (stripe_bytes r src k) out
    no_place_spec Hchunk (Z.to_nat (stripe_size sb total k - 0)) 0
    (stripe_size sb total k) s2 ltac:(lia) ltac:(lia) Hs2) as (parts & _ & s3 & Hr & Hs3 & Hc3 & Hw3 & Hp3).
  unfold receive_range. change (λ _ _, mret tt) with no_place. rewrite Hr. rewrite part_writes_none in Hw3. cbn [app] in Hw3, Hw1.
  rewrite Z.div_mul by lia.
  assert (rx_placed s3 = rx_placed s ∧ rx_writes s3 = rx_writes s) as [Hp Hw] by (split; congruence).
  assert (∀ c, c ≠ conn → rx_stream s3 c = rx_stream s c) as Hc.
  { intros c Hne. rewrite Hc3, Hc2, Hc1 by done. done. }
  unfold placed_by. case_bool_decide as Hseen.
  { eexists _, s3. split; [done|]. split_and!; try done. cbn. set_solver. }
  unfold test_and_place. rewrite Hp.
  destruct (rx_placed s !! Z.to_nat k) as [[]|] eqn:Hpk.
  - eexists _, s3. split; [done|]. split_and!; try done. cbn. set_solver.
  - eexists _, _. split; [done|]. cbn. rewrite Hw. split_and!; try done. set_solver.
  - apply lookup_ge_None in Hpk. lia.
Qed.

Lemma round_done conn flow d s :
  0 ≤ flow < 2 ^ 32 → ours d → rx_stream s conn = done_frame src id flow →
  ∃ d' s', receive_round r conn total flow d s = (Ok (inr d'), s') ∧
    (∀ c, c ≠ conn → rx_stream s' c = rx_stream s c) ∧
    dy_transfer_id d' = Some id ∧ dy_received d' = dy_received d ∧
    rx_writes s' = rx_writes s ∧ rx_placed s' = rx_placed s.
Proof using All.
  intros Hflow Hd Hs. rewrite <- (app_nil_r (done_frame src id flow)) in Hs.
  destruct (reads_header _ s conn _ (done_header_ok src id Hsrc Hid flow Hflow) Hs) as (s1 & Hh & _ & Hc1 & Hw1 & Hp1).
  unfold receive_round, mbind, M_bind. rewrite Hh, header_matches by done.
  eexists _, s1. split; [done|]. split; [done|]. done.
Qed.
End Round.

(** * Receiving flows, interleaved *)

Record RxSys (W : Type) := mk_RxSys { ys_state : Rx W; ys_flows : list (Dynamic + Dynamic) }.
Arguments mk_RxSys {W}. Arguments ys_state {W}. Arguments ys_flows {W}.

Section Receivers.
Context {W : Type} `{!FlowDevice W} `{!SockRecv Sock W} `{!StreamLaws Sock W} `{!FlowLaws W}.
Context (r : TensorReceiver) (src id : bytes) (conns : list Sock).
Implicit Types (s : Rx W) (d : Dynamic) (y : RxSys W).

Abbreviation total := (Z.of_nat (length src)).
Abbreviation sb := (tr_stripe_bytes r).
Abbreviation stripes := (count sb total).
Abbreviation size := (stripe_size sb total).

(** A round of one flow that has not seen its terminator. *)
Inductive rx_step : RxSys W → RxSys W → Prop :=
| rx_step_round s flows (flow : nat) d conn res s' :
    flows !! flow = Some (inl d) → conns !! flow = Some conn →
    receive_round r conn total (Z.of_nat flow) d s = (Ok res, s') →
    rx_step (mk_RxSys s flows) (mk_RxSys s' (<[flow := res]> flows)).

Definition placed s (k : Z) : Prop := rx_placed s !! Z.to_nat k = Some true.

(** The bytes of some tasks. *)
Definition task_bytes (ts : list Z) : Z := sumZ ((λ t, size (t `mod` stripes)) <$> ts).

(** Where a flow is, between its tasks. *)
Definition flow_inv s (flow : nat) (conn : Sock) (tasks : list Z) (x : Dynamic + Dynamic) : Prop :=
  match x with
  | inl d => ∃ pre ts, tasks = pre ++ ts ∧ rx_stream s conn = frames r src id (Z.of_nat flow) ts ∧
      ours id d ∧ dy_received d = task_bytes pre ∧
      (∀ t, t ∈ pre → placed s (t `mod` stripes)) ∧ (∀ k, k ∈ dy_seen d → placed s k)
  | inr d => dy_transfer_id d = Some id ∧ dy_received d = task_bytes tasks ∧
      (∀ t, t ∈ tasks → placed s (t `mod` stripes))
  end.

Record sys_inv (tasks : list (list Z)) y : Prop := mk_sys_inv {
  si_flows : length (ys_flows y) = length tasks;
  si_placed : Z.of_nat (length (rx_placed (ys_state y))) = stripes;
  si_agree : Forall (agrees src) (rx_writes (ys_state y));
  si_cover : ∀ k, 0 ≤ k < stripes → placed (ys_state y) k →
    ∀ i, k * sb ≤ Z.of_nat i < k * sb + size k → Exists (λ w, covers w i) (rx_writes (ys_state y));
  si_flow : ∀ flow x conn ts, ys_flows y !! flow = Some x → conns !! flow = Some conn →
    tasks !! flow = Some ts → flow_inv (ys_state y) flow conn ts x;
}.

Context (Hsb : 0 < sb) (Hchunk : 0 < tr_chunk_bytes r) (Hsrc : 0 < total < 2 ^ 64)
  (Hid : length id = 16%nat) (Hconns : NoDup conns) (Hflows : Z.of_nat (length conns) ≤ 2 ^ 32).

(** Stripes only get placed, and other connections are not read. *)
Lemma flow_inv_mono s s' flow conn ts x :
  (∀ k, placed s k → placed s' k) → rx_stream s' conn = rx_stream s conn →
  flow_inv s flow conn ts x → flow_inv s' flow conn ts x.
Proof using.
  intros Hp Hs. unfold flow_inv. destruct x as [d|d].
  - intros (pre & rest & ? & ? & ? & ? & ? & ?). exists pre, rest. rewrite Hs. split_and!; eauto.
  - intros (? & ? & ?). split_and!; eauto.
Qed.

(** The new write of a round. *)
Lemma placed_by_spec s k seen s' :
  0 ≤ k < stripes → placed_by r src s k seen s' → (k ∈ seen → placed s k) →
  placed s' k ∧ (∀ x, placed s x → placed s' x) ∧ length (rx_placed s') = length (rx_placed s) ∧
  ((rx_writes s' = rx_writes s ∧ rx_placed s' = rx_placed s) ∨
   (rx_writes s' = (k * sb, stripe_bytes r src k) :: rx_writes s ∧
    ∀ x, 0 ≤ x → placed s' x → placed s x ∨ x = k)).
Proof using All.
  intros Hk Hp Hseen. unfold placed_by in Hp. unfold placed in *.
  case_bool_decide as Hin.
  { destruct Hp as [Hw Hp]. rewrite Hp. split_and!; try done; [by apply Hseen|by left]. }
  destruct (rx_placed s !! Z.to_nat k) as [[]|] eqn:Hpk; [| |done]; destruct Hp as [Hw Hp]; rewrite Hp.
  { split_and!; try done. by left. }
  pose proof (lookup_lt_Some _ _ _ Hpk) as Hlt.
  assert (∀ x, <[Z.to_nat k:=true]> (rx_placed s) !! x =
    if decide (x = Z.to_nat k) then Some true else rx_placed s !! x) as Hlk.
  { intros x. case_decide; [subst; by rewrite list_lookup_insert_eq|by rewrite list_lookup_insert_ne]. }
  rewrite length_insert. split_and!; try done.
  - rewrite Hlk. by rewrite decide_True.
  - intros x Hx. rewrite Hlk. by case_decide.
  - right. split; [done|]. intros x Hx0. rewrite Hlk. case_decide; [right; lia|by left].
Qed.

Lemma stripe_agrees k : 0 ≤ k < stripes → agrees src (k * sb, stripe_bytes r src k).
Proof using All.
  intros Hk. destruct (stripe_size_pos sb total Hsb ltac:(lia) k Hk) as (H1 & H2 & _).
  pose proof (stripe_bytes_length r src id Hsb Hsrc Hid k Hk) as Hlen.
  split; [cbn; nia|]. split; [cbn; nia|]. cbn. unfold stripe_bytes, range_bytes in *. f_equal.
  rewrite length_slice; [done|]. nia.
Qed.

(** A round preserves the invariant, and every flow can take one. *)
Lemma round_inv tasks y flow d conn ts :
  sys_inv tasks y → Forall (Forall (λ t, 0 ≤ t)) tasks →
  ys_flows y !! flow = Some (inl d) → conns !! flow = Some conn → tasks !! flow = Some ts →
  ∃ res s', receive_round r conn total (Z.of_nat flow) d (ys_state y) = (Ok res, s') ∧
    sys_inv tasks (mk_RxSys s' (<[flow := res]> (ys_flows y))).
Proof using All.
  intros [Hf Hpl Ha Hc Hfl] Htasks Hd Hconn Hts. destruct y as [s flows]. cbn [ys_state ys_flows] in *.
  pose proof (Hfl _ _ _ _ Hd Hconn Hts) as (pre & rest & Hsplit & Hs & Hours & Hrec & Hpre & Hseen).
  pose proof (lookup_lt_Some _ _ _ Hconn) as Hlt.
  assert (∀ f' c', f' ≠ flow → conns !! f' = Some c' → c' ≠ conn) as Hne.
  { intros f' c' Hf' Hc' ->. apply Hf'. by eapply NoDup_lookup. }
  destruct rest as [|t rest].
  - destruct (round_done r src id Hsb Hchunk Hsrc Hid conn (Z.of_nat flow) d s ltac:(lia) Hours Hs)
      as (d' & s' & Hrun & Hoth & Hid' & Hrec' & Hw & Hp).
    exists (inr d'), s'. split; [exact Hrun|].
    assert (∀ k, placed s k → placed s' k) as Hmono by (unfold placed; by rewrite Hp).
    split; cbn [ys_state ys_flows]; rewrite ?length_insert, ?Hp, ?Hw; try done.
    + intros k Hk Hpk. unfold placed in Hpk. rewrite Hp in Hpk. by apply Hc.
    + intros f' x c' ts' Hx Hc' Hts'. destruct (decide (f' = flow)) as [->|Hf'].
      * rewrite list_lookup_insert_eq in Hx by (by eapply lookup_lt_Some). injection Hx as <-.
        simplify_eq. rewrite app_nil_r in *. split; [done|]. split; [congruence|]. eauto.
      * rewrite list_lookup_insert_ne in Hx by done.
        eapply flow_inv_mono; [exact Hmono|apply Hoth; by eapply Hne|by eapply Hfl].
  - assert (0 ≤ t) as Ht.
    { assert (ts ∈ tasks) as Hin by by eapply list_elem_of_lookup_2. rewrite Forall_forall in Htasks.
      specialize (Htasks ts Hin). rewrite Forall_forall in Htasks. apply Htasks. subst. set_solver. }
    pose proof (task_stripe sb total Hsb ltac:(lia) t Ht) as Hk. set (k := t `mod` stripes) in *.
    unfold frames in Hs. rewrite fmap_cons in Hs. cbn [concat] in Hs. unfold task_frame at 1 in Hs.
    fold k in Hs. rewrite <- !app_assoc in Hs.
    destruct (round_stripe r src id Hsb Hchunk Hsrc Hid conn (Z.of_nat flow) k d s _ ltac:(lia) Hk Hours Hpl Hs)
      as (d' & s' & Hrun & Hs' & Hoth & Hid' & Hrec' & Hseen' & Hby).
    destruct (placed_by_spec s k (dy_seen d) s' Hk Hby ltac:(auto)) as (Hpk & Hmono & Hlen & Hwrites).
    exists (inl d'), s'. split; [exact Hrun|].
    split; cbn [ys_state ys_flows]; rewrite ?length_insert, ?Hlen; try done.
    + destruct Hwrites as [[-> _]|[-> _]]; [done|]. constructor; [by apply stripe_agrees|done].
    + intros x Hx Hpx i Hi. destruct Hwrites as [[-> Hp]|[-> Hnew]].
      * unfold placed in Hpx. rewrite Hp in Hpx. by apply (Hc x).
      * destruct (Hnew x ltac:(lia) Hpx) as [Hold| ->]; [right; by apply (Hc x)|]. left.
        pose proof (stripe_bytes_length r src id Hsb Hsrc Hid k Hk) as Hlk.
        unfold covers. cbn. lia.
    + intros f' x c' ts' Hx Hc' Hts'. destruct (decide (f' = flow)) as [->|Hf'].
      * rewrite list_lookup_insert_eq in Hx by (by eapply lookup_lt_Some). injection Hx as <-.
        simplify_eq. exists (pre ++ [t]), rest. split; [by rewrite <- app_assoc|].
        split; [exact Hs'|]. split; [by right|]. split.
        { unfold task_bytes in *. rewrite fmap_app, sumZ_app. cbn. fold k. lia. }
        split; [|intros z [->|Hz]%Hseen'; eauto].
        intros t' [Hin| ->%list_elem_of_singleton]%elem_of_app; eauto.
      * rewrite list_lookup_insert_ne in Hx by done.
        eapply flow_inv_mono; [exact Hmono|apply Hoth; by eapply Hne|by eapply Hfl].
Qed.

(** The transfer before the first round. *)
Definition rx_start (w : W) : RxSys W :=
  mk_RxSys (mk_Rx w [] (replicate (Z.to_nat stripes) false)) (replicate (length conns) (inl dynamic0)).

Lemma start_inv tasks w :
  length tasks = length conns →
  (∀ flow conn ts, conns !! flow = Some conn → tasks !! flow = Some ts →
     stream w conn = frames r src id (Z.of_nat flow) ts) →
  sys_inv tasks (rx_start w).
Proof using All.
  intros Hlen Hs. pose proof (count_spec sb total Hsb ltac:(lia)) as [Hc _].
  split; cbn [rx_start ys_state ys_flows rx_placed rx_writes].
  - rewrite length_replicate. lia.
  - rewrite length_replicate. lia.
  - constructor.
  - intros k _ Hk. unfold placed in Hk. cbn in Hk. by apply lookup_replicate in Hk as [? _].
  - intros flow x conn ts Hx Hconn Hts. apply lookup_replicate in Hx as [-> _].
    exists [], ts. split; [done|]. split; [by apply Hs|]. split; [by left|].
    split; [done|]. split; intros ? ?%not_elem_of_nil; done.
Qed.

Lemma step_inv tasks y y' :
  sys_inv tasks y → Forall (Forall (λ t, 0 ≤ t)) tasks → length tasks = length conns →
  rx_step y y' → sys_inv tasks y'.
Proof using All.
  intros Hy Ht Hlen Hstep. destruct Hstep as [s flows flow d conn res s' Hd Hconn Hrun].
  destruct (lookup_lt_is_Some_2 tasks flow) as [ts Hts].
  { rewrite Hlen. by eapply lookup_lt_Some. }
  destruct (round_inv tasks _ flow d conn ts Hy Ht Hd Hconn Hts) as (res' & s'' & Hrun' & Hinv).
  cbn in Hrun'. rewrite Hrun in Hrun'. by injection Hrun' as <- <-.
Qed.

Lemma receivers_inv tasks w y :
  length tasks = length conns → Forall (Forall (λ t, 0 ≤ t)) tasks →
  (∀ flow conn ts, conns !! flow = Some conn → tasks !! flow = Some ts →
     stream w conn = frames r src id (Z.of_nat flow) ts) →
  rtc rx_step (rx_start w) y → sys_inv tasks y.
Proof using All.
  intros Hlen Ht Hs Hsteps. pose proof (start_inv tasks w Hlen Hs) as Hinv.
  induction Hsteps as [|y1 y2 y3 Hstep _ IH]; [done|]. by eapply IH, step_inv.
Qed.

Lemma task_bytes_concat tasks : sumZ (task_bytes <$> tasks) = task_bytes (concat tasks).
Proof using.
  induction tasks as [|ts tasks IH]; [done|]. rewrite fmap_cons. cbn [concat sumZ]. rewrite IH.
  unfold task_bytes. by rewrite fmap_app, sumZ_app.
Qed.

(** All flows at their terminators. *)
Lemma finished_flows tasks s ds :
  sys_inv tasks (mk_RxSys s (inr <$> ds)) → length tasks = length conns →
  dy_transfer_id <$> ds = replicate (length conns) (Some id) ∧
  dy_received <$> ds = task_bytes <$> tasks ∧
  (∀ t, t ∈ concat tasks → placed s (t `mod` stripes)).
Proof using All.
  intros [Hf _ _ _ Hfl] Hlen. cbn [ys_state ys_flows] in *. rewrite length_fmap in Hf.
  assert (∀ i d ts, ds !! i = Some d → tasks !! i = Some ts →
    dy_transfer_id d = Some id ∧ dy_received d = task_bytes ts ∧
    (∀ t, t ∈ ts → placed s (t `mod` stripes))) as Hall.
  { intros i d ts Hd Hts. destruct (lookup_lt_is_Some_2 conns i) as [conn Hc].
    { rewrite <- Hlen. by eapply lookup_lt_Some. }
    apply (Hfl i (inr d) conn ts); [by rewrite list_lookup_fmap, Hd|done|done]. }
  clear Hfl. split_and!.
  - apply list_eq. intros i. rewrite list_lookup_fmap.
    destruct (ds !! i) as [d|] eqn:Hd; cbn.
    + pose proof (lookup_lt_Some _ _ _ Hd) as Hi.
      destruct (lookup_lt_is_Some_2 tasks i ltac:(lia)) as [ts Hts].
      destruct (Hall i d ts Hd Hts) as (-> & _). symmetry. apply lookup_replicate. split; [done|lia].
    + apply lookup_ge_None in Hd. symmetry. apply lookup_ge_None. rewrite length_replicate. lia.
  - apply list_eq. intros i. rewrite !list_lookup_fmap.
    destruct (ds !! i) as [d|] eqn:Hd; cbn.
    + pose proof (lookup_lt_Some _ _ _ Hd) as Hi.
      destruct (lookup_lt_is_Some_2 tasks i ltac:(lia)) as [ts Hts].
      destruct (Hall i d ts Hd Hts) as (_ & -> & _). by rewrite Hts.
    + apply lookup_ge_None in Hd. rewrite lookup_ge_None_2 by lia. done.
  - intros t (ts & Hin & Hts)%elem_of_concat. apply list_elem_of_lookup in Hts as [i Hts].
    pose proof (lookup_lt_Some _ _ _ Hts) as Hi.
    destruct (lookup_lt_is_Some_2 ds i ltac:(lia)) as [d Hd]. by apply (Hall i d ts).
Qed.

End Receivers.

(** * Sending flows, interleaved *)

Lemma concat_insert_app (ll : list (list Z)) i l x :
  ll !! i = Some l → concat (<[i := l ++ [x]]> ll) ≡ₚ concat ll ++ [x].
Proof.
  revert i. induction ll as [|l' ll IH]; intros [|i] Hi; try done; cbn in Hi.
  - injection Hi as ->. cbn. rewrite <- !app_assoc. f_equiv. apply Permutation_app_comm.
  - cbn. rewrite IH by done. by rewrite <- app_assoc.
Qed.

Record TxSys (W : Type) := mk_TxSys { xs_tasks : Tasks W; xs_done : list bool }.
Arguments mk_TxSys {W}. Arguments xs_tasks {W}. Arguments xs_done {W}.

Section Senders.
Context {W : Type} `{!FlowDevice W} `{!SentLaws W}.
Context (t : TensorSender) (src id : bytes) (socks : list Sock) (task_count : Z).

(** A round of one flow, or its last one with the terminator. *)
Inductive tx_step : TxSys W → TxSys W → Prop :=
| tx_step_task s dones (flow : nat) sock n s' :
    dones !! flow = Some false → socks !! flow = Some sock →
    dynamic_round t sock src id (Z.of_nat flow) task_count s = (Ok (Some n), s') →
    tx_step (mk_TxSys s dones) (mk_TxSys s' dones)
| tx_step_done s dones (flow : nat) sock s' s'' :
    dones !! flow = Some false → socks !! flow = Some sock →
    dynamic_round t sock src id (Z.of_nat flow) task_count s = (Ok None, s') →
    on_tasks (send_header sock (mk_Header _DONE id (Z.of_nat flow) (Z.of_nat (length src)) 0 0)) s'
      = (Ok tt, s'') →
    tx_step (mk_TxSys s dones) (mk_TxSys s'' (<[flow := true]> dones)).

Context (r : TensorReceiver) (Hsame : ts_stripe_bytes t = tr_stripe_bytes r)
  (Hsb : 0 < tr_stripe_bytes r) (Hchunk : 0 < ts_chunk_bytes t)
  (Hrchunk : 0 < tr_chunk_bytes r)
  (Hsrc : 0 < Z.of_nat (length src) < 2 ^ 64) (Hid : length id = 16%nat)
  (Hsocks : NoDup socks) (Hflows : Z.of_nat (length socks) ≤ 2 ^ 32) (Hcount : 0 ≤ task_count).

(** Calls on one socket. *)
Definition others (sock : Sock) : relation W := λ w w', ∀ s, s ≠ sock → sent w' s = sent w s.
#[local] Instance others_preorder sock : PreOrder (others sock).
Proof using.
  split; [done|]. intros w1 w2 w3 H1 H2 s Hs. unfold others in *. rewrite H2 by done. by apply H1.
Qed.

Lemma others_sendall sock b : along (others sock) (fd_sendall sock b).
Proof using. intros w s Hs. by apply sent_others. Qed.
Lemma others_header sock h : along (others sock) (send_header sock h).
Proof using.
  unfold send_header. apply along_bind; [apply _|apply along_lift; apply _|intros; apply others_sendall].
Qed.
Lemma others_task sock flow task : along (others sock) (send_task t sock src id flow task).
Proof using.
  unfold send_task. destruct (task_range _ _ _) as [offset stop].
  apply along_bind; [apply _|apply others_header|]. intros _.
  apply along_bind; [apply _| |intros; apply along_ret; apply _]. unfold send_range.
  generalize (Z.to_nat (stop - offset)) as fuel. intros fuel. revert offset.
  induction fuel as [|fuel IH]; intros offset; cbn [send_span]; [apply along_ret; apply _|].
  case_match; [apply along_ret; apply _|].
  apply along_bind; [apply _|apply others_sendall|intros; apply IH].
Qed.

(** A task puts its frame on the connection. *)
Lemma wp_send_task sock flow task base w :
  0 ≤ flow < 2 ^ 32 → 0 ≤ task → sent w sock = base →
  wp (send_task t sock src id flow task)
    (λ _ w', sent w' sock = base ++ task_frame r src id flow task ∧ others sock w w') (λ _ _, True) w.
Proof using All.
  intros Hflow Htask Hb.
  pose proof (task_stripe _ _ Hsb (proj1 Hsrc) task Htask) as Hk.
  destruct (stripe_size_pos _ _ Hsb (proj1 Hsrc) _ Hk) as (H1 & H2 & _).
  eapply wp_mono; [apply wp_conj; [|apply wp_along, others_task]| |done].
  2: { intros n w' [Hs Ho]. split; [exact Hs|exact Ho]. }
  unfold send_task, task_range. rewrite Hsame. fold (count (tr_stripe_bytes r) (Z.of_nat (length src))).
  set (k := task `mod` _) in *. change (Z.min (k * tr_stripe_bytes r + tr_stripe_bytes r) (Z.of_nat (length src))
    - k * tr_stripe_bytes r) with (stripe_size (tr_stripe_bytes r) (Z.of_nat (length src)) k).
  apply wp_bind. eapply wp_mono; [apply wp_send_header; [|exact Hb]| |done].
  { apply (stripe_header_ok r src id Hsb Hsrc Hid); done. }
  intros [] w1 Hw1. apply wp_bind.
  eapply wp_mono; [apply wp_send_range; [done| | |exact Hw1]| |done].
  - unfold stripe_size in *. nia.
  - unfold stripe_size in *. nia.
  - intros [] w2 Hw2. apply wp_ret. rewrite Hw2. unfold task_frame. fold k. rewrite <- app_assoc.
    do 2 f_equal. unfold stripe_bytes. f_equal. unfold stripe_size. lia.
Qed.

(** The tasks taken so far, by flow, and what each flow has sent. *)
Definition tx_inv (tasks : list (list Z)) (x : TxSys W) : Prop :=
  let s := xs_tasks x in
  0 ≤ tk_next s ∧ length tasks = length socks ∧ length (xs_done x) = length socks ∧
  concat tasks ≡ₚ seqZ 0 (Z.min (tk_next s) task_count) ∧
  ∀ (flow : nat) sock (done : bool) ts, socks !! flow = Some sock → xs_done x !! flow = Some done →
    tasks !! flow = Some ts →
    sent (tk_world s) sock =
      concat (task_frame r src id (Z.of_nat flow) <$> ts)
      ++ (if done then done_frame src id (Z.of_nat flow) else []) ∧
    (done = true → task_count ≤ tk_next s).

Lemma tx_step_inv tasks x x' : tx_inv tasks x → tx_step x x' → ∃ tasks', tx_inv tasks' x'.
Proof using All.
  intros (Hnext & Hlt & Hld & Hperm & Hs) Hstep.
  assert (∀ (flow flow' : nat) sock sock', socks !! flow = Some sock → socks !! flow' = Some sock' →
    flow' ≠ flow → sock' ≠ sock) as Hne.
  { intros f f' k k' Hk Hk' Hff ->. apply Hff. by eapply NoDup_lookup. }
  destruct Hstep as [s dones flow sock n s' Hd Hsock Hrun|s dones flow sock s' s'' Hd Hsock Hrun Hsend];
    cbn [xs_tasks xs_done] in *; destruct s as [w next]; cbn [tk_world tk_next] in *;
    destruct (lookup_lt_is_Some_2 tasks flow) as [ts Hts];
    try (rewrite Hlt; by eapply lookup_lt_Some);
    destruct (Hs flow sock false ts Hsock Hd Hts) as [Hsent _]; rewrite app_nil_r in Hsent;
    pose proof (lookup_lt_Some _ _ _ Hsock) as Hflow;
    unfold dynamic_round, take_task, mbind, M_bind in Hrun; cbn [tk_world tk_next] in Hrun;
    destruct (Z.leb_spec task_count next); try done.
  - unfold on_tasks in Hrun. cbn [tk_world tk_next] in Hrun.
    pose proof (wp_send_task sock (Z.of_nat flow) next _ w ltac:(lia) Hnext Hsent) as Hwp.
    unfold wp in Hwp. destruct (send_task t sock src id (Z.of_nat flow) next w) as [[n'|e] w'];
      [|done]. injection Hrun as <- <-. destruct Hwp as [Hw' Hoth].
    exists (<[flow := ts ++ [next]]> tasks). split; [cbn; lia|]. cbn [xs_tasks xs_done tk_world tk_next].
    split; [by rewrite length_insert|]. split; [done|]. split.
    + rewrite (concat_insert_app tasks flow ts next Hts), Hperm, !Z.min_l by lia.
      rewrite (seqZ_app 0 next 1) by lia. by rewrite Z.add_0_l.
    + intros f k b l Hk Hb Hl. destruct (decide (f = flow)) as [->|Hf].
      * rewrite list_lookup_insert_eq in Hl by lia. injection Hl as <-. simplify_eq.
        rewrite fmap_app, concat_app. cbn [fmap list_fmap concat]. rewrite !app_nil_r. split; [done|done].
      * rewrite list_lookup_insert_ne in Hl by done. rewrite (Hoth k) by by eapply Hne.
        destruct (Hs f k b l Hk Hb Hl) as [Hsk Hdone]. split; [done|]. intros Hb'.
        specialize (Hdone Hb'). lia.
  - cbn [mret M_ret] in Hrun. injection Hrun as <-. unfold on_tasks in Hsend. cbn [tk_world tk_next] in Hsend.
    pose proof (wp_send_header sock _ _ w (done_header_ok src id Hsrc Hid (Z.of_nat flow) ltac:(lia)) Hsent) as Hwp.
    pose proof (others_header sock (mk_Header _DONE id (Z.of_nat flow) (Z.of_nat (length src)) 0 0) w) as Hoth.
    unfold wp in Hwp. destruct (send_header sock _ w) as [[[]|e] w']; [|done]. injection Hsend as <-.
    cbn [snd] in Hoth. exists tasks. split; [cbn; lia|]. cbn [xs_tasks xs_done tk_world tk_next].
    split; [done|]. split; [by rewrite length_insert|]. split.
    + rewrite Hperm. by rewrite !Z.min_r by lia.
    + intros f k b l Hk Hb Hl. destruct (decide (f = flow)) as [->|Hf].
      * rewrite list_lookup_insert_eq in Hb by lia. injection Hb as <-. simplify_eq.
        split; [done|]. intros _. lia.
      * rewrite list_lookup_insert_ne in Hb by done. rewrite (Hoth k) by by eapply Hne.
        destruct (Hs f k b l Hk Hb Hl) as [Hsk Hdone]. split; [done|]. intros Hb'. specialize (Hdone Hb'). lia.
  - exfalso. unfold on_tasks in Hrun. cbn [tk_world tk_next] in Hrun.
    by destruct (send_task t sock src id (Z.of_nat flow) next w) as [[n'|e] w'].
Qed.

(** The senders before the first round. *)
Definition tx_start (w : W) : TxSys W := mk_TxSys (mk_Tasks w 0) (replicate (length socks) false).

(** every task is sent once.  Whatever the interleaving of the flows on the
    shared counter, when all of them have sent their terminators the tasks are
    distributed over the flows, none lost and none sent twice, and each connection
    holds the frames of its flow's tasks in the order they were taken. *)
Theorem stripes_sent w x :
  (∀ sock, sock ∈ socks → sent w sock = []) → socks ≠ [] →
  rtc tx_step (tx_start w) x → Forall (λ b, b = true) (xs_done x) →
  ∃ tasks, length tasks = length socks ∧ concat tasks ≡ₚ seqZ 0 task_count ∧
    ∀ (flow : nat) sock ts, socks !! flow = Some sock → tasks !! flow = Some ts →
      sent (tk_world (xs_tasks x)) sock = frames r src id (Z.of_nat flow) ts.
Proof using All.
  intros Hw Hne Hsteps Hdone.
  assert (∃ tasks, tx_inv tasks x) as [tasks (Hnext & Hlt & Hld & Hperm & Hs)].
  { assert (∃ tasks, tx_inv tasks (tx_start w)) as Hstart.
    { exists (replicate (length socks) []). split; [done|]. cbn [tx_start xs_tasks xs_done tk_next tk_world].
      rewrite !length_replicate. split; [done|]. split; [done|]. split.
      - rewrite Z.min_l by lia. rewrite seqZ_nil by lia. clear. by induction (length socks).
      - intros flow sock done ts Hsock Hd Hts. apply lookup_replicate in Hd as [-> _].
        apply lookup_replicate in Hts as [-> _]. split; [|done].
        rewrite Hw by by eapply list_elem_of_lookup_2. done. }
    clear Hdone. induction Hsteps as [|x1 x2 x3 Hstep _ IH]; [done|]. destruct Hstart as [tasks Hinv].
    apply IH. by eapply tx_step_inv. }
  assert (∀ (flow : nat) sock, socks !! flow = Some sock → xs_done x !! flow = Some true) as Hall.
  { intros flow sock Hsock. pose proof (lookup_lt_Some _ _ _ Hsock) as Hlt'.
    destruct (lookup_lt_is_Some_2 (xs_done x) flow ltac:(lia)) as [b Hb]. rewrite Hb. f_equal.
    by eapply Forall_lookup_1 in Hdone. }
  exists tasks. split; [done|]. split.
  - rewrite Hperm. destruct socks as [|sock0 socks']; [done|].
    destruct (lookup_lt_is_Some_2 tasks 0 ltac:(cbn in *; lia)) as [ts0 Hts0].
    destruct (Hs 0%nat sock0 true ts0 eq_refl (Hall 0%nat sock0 eq_refl) Hts0) as [_ Hle].
    by rewrite Z.min_r by by apply Hle.
  - intros flow sock ts Hsock Hts.
    by destruct (Hs flow sock true ts Hsock (Hall flow sock Hsock) Hts) as [-> _].
Qed.
End Senders.

(** * Two flows, six tasks *)

Module TwoFlows.
Import TransportTheorems.Loopback.
#[local] Existing Instances recv3 laws device flow_laws sent_laws.

Definition pair : TensorReceiver := mk_TensorReceiver ends 2 6201 2 4 [None; None] 120 MProcess true.
Definition pair_sender : TensorSender :=
  mk_TensorSender ends (IPv4 2) 2 6201 2 4 [None; None] 120 MProcess.
Definition conns : list Sock := [mk_Sock 0; mk_Sock 1].
Definition tasks : list (list Z) := [[0; 3; 4]; [1; 2; 5]].
Definition incoming : world :=
  mk_world (imap (λ i ts, frames pair src id16 (Z.of_nat i) ts) tasks) [] 0.

Lemma conns_nodup : NoDup conns.
Proof.
  assert (bool_decide (NoDup conns) = true) as Hnd by (vm_compute; reflexivity).
  by apply bool_decide_eq_true in Hnd.
Qed.

(** The rounds of some flows in a given order. *)
Fixpoint run (schedule : list nat) (y : RxSys world) : option (RxSys world) :=
  match schedule with
  | [] => Some y
  | flow :: schedule =>
      match ys_flows y !! flow, conns !! flow with
      | Some (inl d), Some conn =>
          match receive_round pair conn 10 (Z.of_nat flow) d (ys_state y) with
          | (Ok res, s) => run schedule (mk_RxSys s (<[flow := res]> (ys_flows y)))
          | (Raise _, _) => None
          end
      | _, _ => None
      end
  end.

Lemma run_steps schedule y y' : run schedule y = Some y' → rtc (rx_step pair src conns) y y'.
Proof.
  revert y. induction schedule as [|flow schedule IH]; intros y; cbn [run]; [by intros [= ->]|].
  destruct (ys_flows y !! flow) as [[d|]|] eqn:Hd; try done.
  destruct (conns !! flow) as [conn|] eqn:Hc; [|done].
  destruct (receive_round _ _ _ _ _ _) as [[res|] s] eqn:Hr; [|done]. intros Hrun.
  eapply rtc_l; [|by apply IH]. destruct y as [s0 flows]. by eapply rx_step_round.
Qed.

Definition finished (x : Dynamic + Dynamic) : bool := match x with inl _ => false | inr _ => true end.
Lemma all_finished l : forallb finished l = true → ∃ ds, l = inr <$> ds.
Proof.
  induction l as [|[d|d] l IH]; [by exists []|done|]. intros Hl. destruct (IH Hl) as [ds ->].
  by exists (d :: ds).
Qed.

Definition schedule : list nat := [0; 1; 1; 0; 1; 0; 0; 1]%nat.
Definition received : option (RxSys world) := run schedule (rx_start pair src conns incoming).
Lemma received_run : received = run schedule (rx_start pair src conns incoming).
Proof. unfold received. reflexivity. Qed.

Lemma incoming_frames (flow : nat) conn ts :
  conns !! flow = Some conn → tasks !! flow = Some ts →
  stream incoming conn = frames pair src id16 (Z.of_nat flow) ts.
Proof.
  destruct flow as [|[|flow]]; intros Hc Ht; [| |done].
  - assert (conn = mk_Sock 0) as -> by by injection Hc. assert (ts = [0; 3; 4]) as -> by by injection Ht.
    vm_compute. reflexivity.
  - assert (conn = mk_Sock 1) as -> by by injection Hc. assert (ts = [1; 2; 5]) as -> by by injection Ht.
    vm_compute. reflexivity.
Qed.


(** Two new connections. *)
Definition idle : world := mk_world [] [[]; []] 0.

Fixpoint send_run (schedule : list nat) (x : TxSys world) : option (TxSys world) :=
  match schedule with
  | [] => Some x
  | flow :: schedule =>
      match xs_done x !! flow, conns !! flow with
      | Some false, Some sock =>
          match dynamic_round pair_sender sock src id16 (Z.of_nat flow) 6 (xs_tasks x) with
          | (Ok (Some _), s) => send_run schedule (mk_TxSys s (xs_done x))
          | (Ok None, s) =>
              match on_tasks (send_header sock (mk_Header _DONE id16 (Z.of_nat flow)
                (Z.of_nat (length src)) 0 0)) s with
              | (Ok tt, s) => send_run schedule (mk_TxSys s (<[flow := true]> (xs_done x)))
              | (Raise _, _) => None
              end
          | (Raise _, _) => None
          end
      | _, _ => None
      end
  end.

Lemma send_run_steps schedule x x' :
  send_run schedule x = Some x' → rtc (tx_step pair_sender src id16 conns 6) x x'.
Proof.
  revert x. induction schedule as [|flow schedule IH]; intros x; cbn [send_run]; [by intros [= ->]|].
  destruct (xs_done x !! flow) as [[]|] eqn:Hd; try done.
  destruct (conns !! flow) as [sock|] eqn:Hc; [|done].
  destruct (dynamic_round _ _ _ _ _ _ _) as [[[n|]|] s] eqn:Hr; [| |done].
  - intros Hrun. eapply rtc_l; [|by apply IH]. destruct x as [s0 dones]. by eapply tx_step_task.
  - destruct (on_tasks _ s) as [[[]|] s'] eqn:Hs; [|done].
    intros Hrun. eapply rtc_l; [|by apply IH]. destruct x as [s0 dones]. by eapply tx_step_done.
Qed.

Definition send_schedule : list nat := [0; 1; 1; 0; 0; 1; 1; 0]%nat.
Definition sent_all : option (TxSys world) := send_run send_schedule (tx_start conns idle).
Lemma sent_all_run : sent_all = send_run send_schedule (tx_start conns idle).
Proof. unfold sent_all. reflexivity. Qed.

Lemma all_true l : forallb Datatypes.id l = true → Forall (λ b, b = true) l.
Proof.
  induction l as [|[] l IH]; [by constructor| |done]. intros Hl. constructor; [done|by apply IH].
Qed.

Lemma idle_sockets sock : sock ∈ conns → sent idle sock = [].
Proof.
  unfold conns. rewrite !elem_of_cons. intros [->|[->|Hin]]; [done|done|].
  by apply not_elem_of_nil in Hin.
Qed.

Lemma stripes_sent_witness :
  ∃ x tasks, sent_all = Some x ∧ concat tasks ≡ₚ [0; 1; 2; 3; 4; 5].
Proof.
  assert (∃ x, sent_all = Some x) as [x Hrun] by (eexists; vm_compute; reflexivity).
  destruct (stripes_sent pair_sender src id16 conns 6 pair eq_refl ltac:(cbn; lia) ltac:(cbn; lia)
    ltac:(cbn; lia) ltac:(cbn; lia) eq_refl conns_nodup ltac:(cbn; lia) ltac:(lia) idle x)
    as (ts & _ & Hperm & _).
  - exact idle_sockets.
  - discriminate.
  - apply (send_run_steps send_schedule). rewrite <- sent_all_run. exact Hrun.
  - apply all_true. assert (match sent_all with
      | Some x => forallb Datatypes.id (xs_done x) | None => false end = true) as Hb
      by (vm_compute; reflexivity). rewrite Hrun in Hb. exact Hb.
  - exists x, ts. split; [exact Hrun|exact Hperm].
Defined.
End TwoFlows.
