(* ===== verification/BenchText.v ===== *)
(** What the TCP benchmarks make of text and numbers: the methods of [str] that they
    use, doubles, JSON values, and the parsers of their arguments
    (src/experiments/tcp_multiflow/benchmark.py, python_benchmark.py, latency.py and
    sweep.py).

    A [str] is its list of code points, as in Json.  A double of the source is
    [spec_float], the executable specification of IEEE 754 of the Standard Library. *)

From Stdlib Require Import SpecFloat.
From S2P Require Import Prelude Bytes Json.
From S2P Require Import Verbs Stream Transport.
#[local] Open Scope Z_scope.

(** * Text *)

(** [str.isspace] of a character. *)
Definition is_space (c : Z) : bool :=
  ((9 <=? c) && (c <=? 13)) || ((28 <=? c) && (c <=? 32)) || (c =? 133) || (c =? 160) ||
  (c =? 5760) || ((8192 <=? c) && (c <=? 8202)) || (c =? 8232) || (c =? 8233) ||
  (c =? 8239) || (c =? 8287) || (c =? 12288).

Definition lstrip (s : str) : str := (span is_space s).2.
Definition strip (s : str) : str := rev (lstrip (rev (lstrip s))).

(** [s.split(sep)] for a character [sep]. *)
Fixpoint split_on (sep : Z) (s : str) : list str :=
  match s with
  | [] => [[]]
  | c :: s =>
      if c =? sep then [] :: split_on sep s else
      match split_on sep s with x :: xs => (c :: x) :: xs | [] => [[c]] end
  end.

(** [s.split(sep, 1)]: the second part is [None] without a separator. *)
Fixpoint split_once (sep : Z) (s : str) : str * option str :=
  match s with
  | [] => ([], None)
  | c :: s => if c =? sep then ([], Some s) else let '(x, r) := split_once sep s in (c :: x, r)
  end.

(** [s.splitlines()]: a carriage return and the line feed after it end one line. *)
Definition is_newline (c : Z) : bool :=
  ((10 <=? c) && (c <=? 13)) || ((28 <=? c) && (c <=? 30)) || (c =? 133) || (c =? 8232) || (c =? 8233).
Fixpoint lines_from (line : str) (after_cr : bool) (s : str) : list str :=
  match s with
  | [] => if bool_decide (line = []) then [] else [line]
  | c :: s =>
      if after_cr && (c =? 10) then lines_from line false s else
      if is_newline c then line :: lines_from [] (c =? 13) s
      else lines_from (line ++ [c]) false s
  end.
Definition splitlines (s : str) : list str := lines_from [] false s.

(** The text from the first [c] on, as [s[s.find(c):]] when it is found. *)
Fixpoint from_char (c : Z) (s : str) : option str :=
  match s with [] => None | x :: s' => if x =? c then Some s else from_char c s' end.

(** ["%02d"] *)
Definition pad2 (z : Z) : str := (if (0 <=? z) && (z <? 10) then [48] else []) ++ int_repr z.

(** * What the interpreter makes of text

    [float_of_str] is [float] of a string, [ip_address] is [ipaddress.ip_address] of a
    value and [ip_text] its canonical text, [lower] is [str.lower]. *)
Class BenchText := {
  bt_text :: PyText;
  float_of_str : str → option pyfloat;
  ip_address : json → Ip;
  ip_text : Ip → str;
  lower : str → str;
  py_sum : list spec_float → spec_float;
}.

(** * Doubles *)

Abbreviation fl := spec_float.

Definition fl_exact (z : Z) : fl :=
  match z with
  | Z0 => S754_zero false
  | Zpos p => S754_finite false p 0
  | Zneg p => S754_finite true p 0
  end.

(** [float(z)]: OverflowError beyond the range. *)
Definition in_range (f : fl) : result fl :=
  match f with S754_infinity _ => Raise OverflowError | _ => Ok f end.
Definition fl_of_Z (z : Z) : result fl := in_range (binary_normalize 53 1024 z 0 false).

(** [a / b] of integers, rounded once, and of doubles; [b] is not zero. *)
Definition fl_ratio (a b : Z) : result fl := in_range (SFdiv 53 1024 (fl_exact a) (fl_exact b)).
Definition fl_div (a b : fl) : fl := SFdiv 53 1024 a b.
Definition fl_sub (a b : fl) : fl := SFsub 53 1024 a b.
Definition fl_mul (a b : fl) : fl := SFmul 53 1024 a b.
Definition fl_one : fl := binary_normalize 53 1024 1 0 false.
Definition fl_1e9 : fl := binary_normalize 53 1024 1000000000 0 false.
(** The literal 0.02. *)
Definition fl_002 : fl := SFdiv 53 1024 (fl_exact 2) (fl_exact 100).

(** [min(a, b)] and [max(a, b)] keep the first of two that compare equal. *)
Definition fl_min (a b : fl) : fl := if SFltb b a then b else a.
Definition fl_max (a b : fl) : fl := if SFltb a b then b else a.

(** The truth value of a double. *)
Definition fl_nonzero (f : fl) : bool := match f with S754_zero _ => false | _ => true end.

(** A double of the JSON model. *)
Definition fl_of_py (f : pyfloat) : fl :=
  match f with
  | FFin m e => binary_normalize 53 1024 m e false
  | FInf negative => S754_infinity negative
  | FNaN => S754_nan
  end.

(** * JSON values *)

Section Text.
Context `{!BenchText}.

(** [v.get(key, d)] *)
Definition json_get (v : json) (key : str) (d : json) : result json :=
  match v with JObj fields => Ok (default d (assoc key fields)) | _ => Raise AttributeError end.

(** [key in v] for a string [key]. *)
Fixpoint is_prefix (p s : str) : bool :=
  match p, s with
  | [], _ => true
  | x :: p, y :: s => (x =? y) && is_prefix p s
  | _, [] => false
  end.
Fixpoint is_substring (p s : str) : bool :=
  is_prefix p s || match s with [] => false | _ :: s => is_substring p s end.
Definition json_contains (key : str) (v : json) : result bool :=
  match v with
  | JObj fields => Ok (bool_decide (is_Some (assoc key fields)))
  | JList l => Ok (existsb (λ x, eq_str x key) l)
  | JStr s => Ok (is_substring key s)
  | _ => Raise TypeError
  end.

(** [v in {a, b}] for strings [a] and [b]: an unhashable [v] raises TypeError. *)
Definition json_among (v : json) (names : list str) : result bool :=
  match v with
  | JList _ | JObj _ => Raise TypeError
  | _ => Ok (existsb (eq_str v) names)
  end.

(** [int(v)] and [float(v)] *)
Definition json_int (v : json) : result Z := py_int int_of_str v.
Definition json_float (v : json) : result fl :=
  match v with
  | JInt z => fl_of_Z z
  | JBool b => fl_of_Z (bool_int b)
  | JFloat f => Ok (fl_of_py f)
  | JStr s => match float_of_str s with Some f => Ok (fl_of_py f) | None => Raise ValueError end
  | JNull | JList _ | JObj _ => Raise TypeError
  end.

(** [int(s)] of a string. *)
Definition str_int (s : str) : result Z :=
  match int_of_str s with Some z => Ok z | None => Raise ValueError end.

(** * Arguments *)

Definition ArgumentTypeError : exn := OtherError 1.

(** The stripped items of a comma-separated list that are not blank. *)
Definition items (value : str) : list str :=
  filter (λ s, s ≠ []) (strip <$> split_on 44 value).

Definition _csv (value : str) : result (list str) :=
  let values := items value in
  raise_if (bool_decide (values = [])) ArgumentTypeError;;
  raise_if (negb (bool_decide (NoDup values))) ArgumentTypeError;;
  Ok values.

Definition ip_of_str (s : str) : result Ip :=
  match ip_address (JStr s) with NotAnIp => Raise ArgumentTypeError | a => Ok a end.

#[global] Instance Ip_eq_dec : EqDecision Ip.
Proof. solve_decision. Defined.

Definition _addresses (value : str) : result (list Ip) :=
  values ← _csv value;
  values ← mapM_result ip_of_str values;
  raise_if (negb (bool_decide (NoDup values))) ArgumentTypeError;;
  Ok values.

Definition _positive_int (value : str) : result Z :=
  result ← str_int value; raise_if (result <=? 0) ArgumentTypeError;; Ok result.
Definition _nonnegative_int (value : str) : result Z :=
  result ← str_int value; raise_if (result <? 0) ArgumentTypeError;; Ok result.
Definition _nonnegative_float (value : str) : result fl :=
  match float_of_str value with
  | None => Raise ValueError
  | Some f => raise_if (SFltb (fl_of_py f) (S754_zero false)) ArgumentTypeError;; Ok (fl_of_py f)
  end.

(** The multiplier that [suffixes.get] gives for the last character: 1 without one. *)
Definition multiplier (giga : bool) (c : Z) : Z :=
  if c =? 107 then 2 ^ 10 else if c =? 109 then 2 ^ 20 else
  if giga && (c =? 103) then 2 ^ 30 else 1.

(** The common part of the two [_size]: [normalized] is not empty. *)
Definition size_of (giga : bool) (normalized : str) : result Z :=
  let m := multiplier giga (List.last normalized 0) in
  let normalized := if m =? 1 then normalized else removelast normalized in
  match int_of_str normalized with
  | None => Raise ArgumentTypeError
  | Some z => raise_if (z * m <=? 0) ArgumentTypeError;; Ok (z * m)
  end.

(** [_size] of python_benchmark.py. *)
Definition _size (value : str) : result Z :=
  let normalized := lower (strip value) in
  if bool_decide (normalized = []) then Raise ArgumentTypeError else size_of true normalized.

(** [_size] of latency.py: an empty text has no last character. *)
Definition latency_size (value : str) : result Z :=
  let normalized := lower (strip value) in
  if bool_decide (normalized = []) then Raise IndexError else size_of false normalized.

Definition latency_sizes (value : str) : result (list Z) :=
  values ← mapM_result latency_size (filter (λ s, strip s ≠ []) (split_on 44 value));
  raise_if (bool_decide (values = [])) ArgumentTypeError;;
  raise_if (negb (bool_decide (NoDup values))) ArgumentTypeError;;
  Ok values.

Definition _label (size : Z) : str :=
  if (2 ^ 20 <=? size) && (size mod 2 ^ 20 =? 0) then int_repr (Z.shiftr size 20) ++ lit " MiB" else
  if (2 ^ 10 <=? size) && (size mod 2 ^ 10 =? 0) then int_repr (Z.shiftr size 10) ++ lit " KiB"
  else int_repr size ++ lit " B".

(** [_flow_counts] of sweep.py: [int] of each item that is not blank. *)
Definition arg_int (s : str) : result Z :=
  match int_of_str s with Some z => Ok z | None => Raise ArgumentTypeError end.
Definition _flow_counts (value : str) : result (list Z) :=
  values ← mapM_result arg_int (filter (λ s, strip s ≠ []) (split_on 44 value));
  raise_if (bool_decide (values = []) || existsb (λ z, z <=? 0) values) ArgumentTypeError;;
  raise_if (negb (bool_decide (NoDup values))) ArgumentTypeError;;
  Ok values.

(** [re.fullmatch("[1-9][0-9]*[KMG]?", item, re.IGNORECASE)].  With IGNORECASE the Kelvin
    sign, 8490, matches [K] as well. *)
Definition is_suffix_char (c : Z) : bool :=
  bool_decide (c ∈ [75; 77; 71; 107; 109; 103; 8490]).
Definition is_length (item : str) : bool :=
  match item with
  | [] => false
  | c :: s =>
      (49 <=? c) && (c <=? 57) &&
      match (span is_digit s).2 with [] => true | [x] => is_suffix_char x | _ => false end
  end.
Definition _lengths (value : str) : result (list str) :=
  let values := items value in
  raise_if (bool_decide (values = [])) ArgumentTypeError;;
  raise_if (negb (bool_decide (NoDup (lower <$> values)))) ArgumentTypeError;;
  raise_if (existsb (λ s, negb (is_length s)) values) ArgumentTypeError;;
  Ok values.
Definition _path_component (length : str) : str := lit "length-" ++ lower length.

(** A range of [cpulist]: [bounds[0]] and [bounds[-1]]. *)
Definition cpu_range (item : str) : result (list Z) :=
  let '(a, b) := split_once 45 item in
  first ← str_int a;
  last ← str_int (default a b);
  raise_if (last <? first) ValueError;;
  Ok (seqZ first (last + 1 - first)).
Definition _parse_cpu_list (value : str) : result (list Z) :=
  cpus ← mapM_result cpu_range (split_on 44 value); Ok (concat cpus).
End Text.
