(* ===== verification/Bench.v ===== *)
(** The drivers of the TCP benchmark with iperf3:
    src/experiments/tcp_multiflow/benchmark.py.

    The host is the class [BenchHost]: commands that are run to completion, files, CPU
    affinity, the processes that a benchmark starts and stops, and the clock.  Paths are
    lists of components.  Printed text is not modelled, and a metadata or summary file is
    its being written. *)

From Stdlib Require Import SpecFloat.
From S2P Require Import Prelude Bytes Json.
From S2P Require Import Verbs Stream Transport BenchText.
#[local] Open Scope Z_scope.

(** * The host *)

Abbreviation path := (list str).

(** [subprocess.run]: the program is missing, or it exits. *)
Inductive ran := RanNotFound | Ran (returncode : Z) (stdout stderr : str).

(** [bh_popen] opens the output file and starts a command, pinned to a CPU or not;
    [bh_poll] and [bh_wait] are the methods of the process, [bh_wait_for] is
    [wait(timeout)] and gives [None] when it expires; [bh_write_json] is the writing of a
    report. *)
Class BenchHost (W : Type) := {
  bh_run : list str → W → result ran * W;
  bh_read_text : path → W → result str * W;
  bh_write_json : path → W → result unit * W;
  bh_mkdir : path → W → result unit * W;
  bh_which : str → W → bool * W;
  bh_getaffinity : W → list Z * W;
  bh_setaffinity : list Z → W → result unit * W;
  bh_popen : list str → option Z → path → W → result nat * W;
  bh_poll : nat → W → option Z * W;
  bh_terminate : nat → W → W;
  bh_wait : nat → W → result Z * W;
  bh_wait_for : nat → Z → W → option Z * W;
  bh_kill : nat → W → W;
  bh_sleep : Z → W → result unit * W;
  bh_ns : W → Z * W;
  bh_stamp : W → str * W;
}.

(** * Data *)

Record Endpoint := mk_Endpoint {
  ep_interface : str;
  ep_address : Ip;
  ep_speed_gbps : option fl;
  ep_numa_node : option Z;
}.

Record ProcessSpec := mk_ProcessSpec {
  ps_interface : str;
  ps_flow : Z;
  ps_port : Z;
  ps_cpu : option Z;
  ps_command : list str;
}.

Record FlowResult := mk_FlowResult {
  fw_interface : str;
  fw_flow : Z;
  fw_port : Z;
  fw_cpu : option Z;
  fw_gbps : fl;
  fw_retransmits : Z;
  fw_bytes_received : Z;
}.

Record LinkCounters := mk_LinkCounters { lc_bytes : Z; lc_packets : Z }.

(** The arguments of the three roles; the addresses are those of the role. *)
Record Args := mk_Args {
  a_interfaces : list str;
  a_addresses : option (list Ip);
  a_server_addresses : list Ip;
  a_flows_per_nic : Z;
  a_base_port : Z;
  a_iperf3 : str;
  a_output_dir : option path;
  a_no_affinity : bool;
  a_dry_run : bool;
  a_duration : Z;
  a_omit : Z;
  a_counter_delay : Z;
  a_sample_seconds : Z;
  a_length : str;
  a_target_gbps : fl;
  a_minimum_nic_gbps : fl;
  a_reverse : bool;
  a_skip_route_check : bool;
}.

(** [dict]s keyed by interface. *)
Abbreviation CpuMap := (gmap str (list (option Z))).

Definition dict_at {A} (d : gmap str A) (k : str) : result A :=
  match d !! k with Some a => Ok a | None => Raise KeyError end.
Definition list_at {A} (l : list A) (i : Z) : result A :=
  match l !! Z.to_nat i with Some a => Ok a | None => Raise IndexError end.

(** * CPUs *)

(** [sorted] of a set. *)
Definition sorted_set (l : list Z) : list Z := merge_sort (≤)%Z (remove_dups l).

(** The CPUs of one NIC: those of its pool that no NIC before it uses come first. *)
Definition candidates (pool : list Z) (used : gset Z) : list Z :=
  filter (λ c, c ∉ used) pool ++ filter (λ c, c ∈ used) pool.
Definition assign (pool : list Z) (used : gset Z) (flows : Z) : result (list Z) :=
  let l := candidates pool used in
  raise_if (bool_decide (l = [])) RuntimeError;;
  Ok ((λ index, nth (Z.to_nat (index mod Z.of_nat (length l))) l 0) <$> seqZ 0 flows).

Fixpoint assign_all (endpoints : list Endpoint) (pools : gmap str (list Z)) (flows : Z)
    (used : gset Z) (cpus : CpuMap) : result CpuMap :=
  match endpoints with
  | [] => Ok cpus
  | e :: endpoints =>
      pool ← dict_at pools (ep_interface e);
      assigned ← assign pool used flows;
      assign_all endpoints pools flows (used ∪ list_to_set assigned)
        (<[ep_interface e := Some <$> assigned]> cpus)
  end.

(** * Physical counters *)

(** The statistics that [ethtool -S] prints. *)
Definition stat_line `{!BenchText} (stats : gmap str Z) (line : str) : gmap str Z :=
  match split_once 58 (strip line) with
  | (name, Some value) =>
      match int_of_str (strip value) with Some z => <[name := z]> stats | None => stats end
  | (_, None) => stats
  end.
Definition stats_of `{!BenchText} (out : str) : gmap str Z :=
  foldl stat_line ∅ (splitlines out).

Definition _wire_gbps (before after : LinkCounters) (seconds : fl) : result fl :=
  let byte_delta := lc_bytes after - lc_bytes before in
  let packet_delta := lc_packets after - lc_packets before in
  raise_if (SFleb seconds (S754_zero false) || (byte_delta <? 0) || (packet_delta <? 0)) RuntimeError;;
  let wire_bytes := byte_delta + 20 * packet_delta in
  bits ← fl_of_Z (wire_bytes * 8);
  Ok (fl_div (fl_div bits seconds) fl_1e9).

(** * Commands *)

Section Specs.
Context `{!BenchText}.

Definition version_flag (version : Z) : str :=
  if version =? 6 then lit "--version6" else lit "--version4".

Definition server_spec (a : Args) (cpus : CpuMap) (e : Endpoint) (version flow : Z) : result ProcessSpec :=
  let port := a_base_port a + flow in
  l ← dict_at cpus (ep_interface e);
  cpu ← list_at l flow;
  Ok (mk_ProcessSpec (ep_interface e) flow port cpu
        [a_iperf3 a; version_flag version; lit "--server"; lit "--one-off"; lit "--bind";
         ip_text (ep_address e); lit "--bind-dev"; ep_interface e; lit "--port"; int_repr port;
         lit "--json"]).
Definition server_flows (a : Args) (cpus : CpuMap) (e : Endpoint) : result (list ProcessSpec) :=
  version ← ip_version (ep_address e);
  mapM_result (server_spec a cpus e version) (seqZ 0 (a_flows_per_nic a)).
Definition _server_specs (endpoints : list Endpoint) (a : Args) (cpus : CpuMap) :
    result (list ProcessSpec) :=
  specs ← mapM_result (server_flows a cpus) endpoints; Ok (concat specs).

Definition client_spec (a : Args) (cpus : CpuMap) (e : Endpoint) (server : Ip) (version flow : Z) :
    result ProcessSpec :=
  let port := a_base_port a + flow in
  l ← dict_at cpus (ep_interface e);
  cpu ← list_at l flow;
  Ok (mk_ProcessSpec (ep_interface e) flow port cpu
        ([a_iperf3 a; version_flag version; lit "--client"; ip_text server; lit "--bind";
          ip_text (ep_address e); lit "--bind-dev"; ep_interface e; lit "--port"; int_repr port;
          lit "--time"; int_repr (a_duration a); lit "--omit"; int_repr (a_omit a);
          lit "--length"; a_length a; lit "--zerocopy"; lit "--json"] ++
         (if a_reverse a then [lit "--reverse"] else []))).
Definition client_flows (a : Args) (cpus : CpuMap) (pair : Endpoint * Ip) : result (list ProcessSpec) :=
  version ← ip_version pair.2;
  own ← ip_version (ep_address pair.1);
  raise_if (negb (own =? version)) RuntimeError;;
  mapM_result (client_spec a cpus pair.1 pair.2 version) (seqZ 0 (a_flows_per_nic a)).
Definition _client_specs (endpoints : list Endpoint) (a : Args) (cpus : CpuMap) :
    result (list ProcessSpec) :=
  specs ← mapM_result (client_flows a cpus) (zip endpoints (a_server_addresses a));
  Ok (concat specs).

(** * Results *)

Definition _flow_result (spec : ProcessSpec) (document : json) : result FlowResult :=
  stop ← json_get document (lit "end") (JObj []);
  received ← json_get stop (lit "sum_received") JNull;
  received ← (if truthy received then Ok received else json_get stop (lit "sum_sent") JNull);
  sent ← json_get stop (lit "sum_sent") (JObj []);
  has ← (if truthy received then json_contains (lit "bits_per_second") received else Ok false);
  raise_if (negb has) RuntimeError;;
  bps ← getitem received (lit "bits_per_second");
  bps ← json_float bps;
  retransmits ← json_get sent (lit "retransmits") (JInt 0);
  retransmits ← json_int retransmits;
  nbytes ← json_get received (lit "bytes") (JInt 0);
  nbytes ← json_int nbytes;
  Ok (mk_FlowResult (ps_interface spec) (ps_flow spec) (ps_port spec) (ps_cpu spec)
        (fl_div bps fl_1e9) retransmits nbytes).

(** The entry of one NIC in a summary. *)
Record NicSummary := mk_NicSummary {
  ns_flows : Z; ns_gbps : fl; ns_retransmits : Z; ns_bytes_received : Z;
}.
Definition nic_summary (results : list FlowResult) (e : Endpoint) : NicSummary :=
  let selected := filter (λ r, fw_interface r = ep_interface e) results in
  mk_NicSummary (Z.of_nat (length selected)) (py_sum (fw_gbps <$> selected))
    (sumZ (fw_retransmits <$> selected)) (sumZ (fw_bytes_received <$> selected)).
Definition _summarize (endpoints : list Endpoint) (results : list FlowResult) :
    gmap str NicSummary * fl * Z :=
  (foldl (λ nics e, <[ep_interface e := nic_summary results e]> nics) ∅ endpoints,
   py_sum (fw_gbps <$> results), sumZ (fw_retransmits <$> results)).

(** [nic["gbps"] >= minimum] for every NIC, and the total. *)
Definition client_passed (a : Args) (summary : gmap str NicSummary * fl * Z) : bool :=
  let '((nics, total), _) := summary in
  SFleb (a_target_gbps a) total &&
  forallb (λ n, SFleb (a_minimum_nic_gbps a) (ns_gbps n.2)) (map_to_list nics).

Definition _check_link_capacity (endpoints : list Endpoint) (a : Args) : result unit :=
  let known := filter (λ s, fl_nonzero s = true) (omap ep_speed_gbps endpoints) in
  raise_if ((length known =? length endpoints)%nat && SFltb (py_sum known) (a_target_gbps a)) RuntimeError;;
  raise_if (existsb (λ e, match ep_speed_gbps e with
                          | Some s => SFltb s (a_minimum_nic_gbps a) | None => false end) endpoints)
    RuntimeError.
End Specs.

(** * Drivers *)

Section Bench.
Context `{!BenchText} {W : Type} `{!BenchHost W}.

Definition host {A} (f : W → A * W) : M W A := λ w, let '(a, w) := f w in (Ok a, w).
Definition tell_host (f : W → W) : M W unit := modify f.

(** ** Interfaces *)

Definition _run_json (command : list str) : M W json :=
  completed ← bh_run command;
  match completed with
  | RanNotFound => raise RuntimeError
  | Ran code out _ =>
      guard_raise (negb (code =? 0)) RuntimeError;;
      match loads out with Ok v => mret v | Raise _ => raise RuntimeError end
  end.

(** The global addresses of one record of [ip -json address]. *)
Definition global_address (info : json) : result (option Ip) :=
  family ← json_get info (lit "family") JNull;
  inet ← json_among family [lit "inet"; lit "inet6"];
  if negb inet then Ok None else
  scope ← json_get info (lit "scope") JNull;
  if negb (eq_str scope (lit "global")) then Ok None else
  local ← getitem info (lit "local");
  match ip_address local with NotAnIp => Raise ValueError | a => Ok (Some a) end.
Definition record_addresses (record : json) : result (list Ip) :=
  infos ← json_get record (lit "addr_info") (JList []);
  infos ← py_iter infos;
  found ← mapM_result global_address infos;
  Ok (omap (M := list) (λ o : option Ip, o) found).

Definition _interface_ip_addresses (interface : str) : M W (list Ip) :=
  records ← _run_json [lit "ip"; lit "-json"; lit "address"; lit "show"; lit "dev"; interface];
  guard_raise (negb (truthy records)) RuntimeError;;
  records ← lift (py_iter records);
  addresses ← lift (mapM_result record_addresses records);
  guard_raise (bool_decide (concat addresses = [])) RuntimeError;;
  mret (concat addresses).

(** [None] for a file that cannot be read. *)
Definition _read_optional (p : path) : M W (option str) :=
  try_except (text ← bh_read_text p; mret (Some (strip text)))
    (λ e, if is_OSError e then mret None else raise e).

(** An integer file of a device: -1 when it has none. *)
Definition int_or_minus_one (value : option str) : Z :=
  match value with
  | None => -1
  | Some s => match int_of_str s with Some z => z | None => -1 end
  end.
Definition sys_net (interface : str) : path :=
  [lit "/"; lit "sys"; lit "class"; lit "net"; interface].

Definition _interface_speed (interface : str) : M W (option fl) :=
  value ← _read_optional (sys_net interface ++ [lit "speed"]);
  let speed_mbps := int_or_minus_one value in
  if speed_mbps <=? 0 then mret None else
  gbps ← lift (fl_ratio speed_mbps 1000); mret (Some gbps).
Definition _interface_numa_node (interface : str) : M W (option Z) :=
  value ← _read_optional (sys_net interface ++ [lit "device"; lit "numa_node"]);
  let node := int_or_minus_one value in
  mret (if 0 <=? node then Some node else None).

Definition _check_carrier (interface : str) : M W unit :=
  carrier ← _read_optional (sys_net interface ++ [lit "carrier"]);
  state ← _read_optional (sys_net interface ++ [lit "operstate"]);
  guard_raise (bool_decide (carrier = Some (lit "0")) || bool_decide (state = Some (lit "down")))
    RuntimeError.

Definition endpoint_of (interface : str) (requested : option Ip) : M W Endpoint :=
  available ← _interface_ip_addresses interface;
  let address := default (List.hd NotAnIp available) requested in
  guard_raise (negb (bool_decide (address ∈ available))) RuntimeError;;
  _check_carrier interface;;
  speed ← _interface_speed interface;
  numa ← _interface_numa_node interface;
  mret (mk_Endpoint interface address speed numa).
Fixpoint endpoints_of (l : list (str * option Ip)) : M W (list Endpoint) :=
  match l with
  | [] => mret []
  | (interface, requested) :: l =>
      e ← endpoint_of interface requested; es ← endpoints_of l; mret (e :: es)
  end.
Definition _endpoints (interfaces : list str) (requested : option (list Ip)) : M W (list Endpoint) :=
  match requested with
  | None => endpoints_of ((λ i, (i, None)) <$> interfaces)
  | Some l =>
      guard_raise (negb (length l =? length interfaces)%nat) RuntimeError;;
      endpoints_of (zip interfaces (Some <$> l))
  end.

Definition _check_route (pair : Endpoint * Ip) : M W unit :=
  version ← lift (ip_version pair.2);
  records ← _run_json [lit "ip"; lit "-json"; (if version =? 6 then lit "-6" else lit "-4");
                       lit "route"; lit "get"; ip_text pair.2; lit "from";
                       ip_text (ep_address pair.1)];
  route ← lift (if truthy records
                then match records with
                     | JList (x :: _) => Ok x
                     | JStr (c :: _) => Ok (JStr [c])
                     | JObj _ => Raise KeyError
                     | _ => Raise TypeError
                     end
                else Ok (JObj []));
  dev ← lift (json_get route (lit "dev") JNull);
  guard_raise (negb (eq_str dev (ep_interface pair.1))) RuntimeError.
Definition _check_routes (endpoints : list Endpoint) (servers : list Ip) : M W unit :=
  for_each _check_route (zip endpoints servers).

(** ** CPUs *)

Definition _cpu_pool (e : Endpoint) : M W (list Z) :=
  allowed ← host bh_getaffinity;
  local ← match ep_numa_node e with
          | None => mret []
          | Some node =>
              cpulist ← _read_optional [lit "/"; lit "sys"; lit "devices"; lit "system"; lit "node";
                                        lit "node" ++ int_repr node; lit "cpulist"];
              match cpulist with
              | None | Some [] => mret []
              | Some text =>
                  cpus ← lift (_parse_cpu_list text);
                  mret (sorted_set (filter (λ c, c ∈ cpus) allowed))
              end
          end;
  mret (if bool_decide (local = []) then sorted_set allowed else local).

Fixpoint cpu_pools (endpoints : list Endpoint) (pools : gmap str (list Z)) : M W (gmap str (list Z)) :=
  match endpoints with
  | [] => mret pools
  | e :: endpoints =>
      pool ← _cpu_pool e; cpu_pools endpoints (<[ep_interface e := pool]> pools)
  end.
Definition _allocate_cpus (endpoints : list Endpoint) (flows : Z) (affinity : bool) : M W CpuMap :=
  if negb affinity
  then mret (foldl (λ m e, <[ep_interface e := replicate (Z.to_nat flows) None]> m) ∅ endpoints)
  else
    pools ← cpu_pools endpoints ∅;
    lift (assign_all endpoints pools flows ∅ ∅).

(** ** Processes *)

(** Ask those that still run to stop, then kill those that do not within 2 s. *)
Definition terminate_one (p : nat) : M W unit :=
  status ← host (bh_poll p);
  match status with None => tell_host (bh_terminate p) | Some _ => mret tt end.
Definition reap_one (p : nat) : M W unit :=
  status ← host (bh_poll p);
  match status with
  | Some _ => mret tt
  | None =>
      ended ← host (bh_wait_for p 2);
      match ended with None => tell_host (bh_kill p) | Some _ => mret tt end
  end.
Definition _stop_processes (processes : list nat) : M W unit :=
  for_each terminate_one processes;; for_each reap_one processes.

Definition _process_paths (specs : list ProcessSpec) (output_dir : path) : M W (list path) :=
  bh_mkdir output_dir;;
  mret ((λ s, output_dir ++ [ps_interface s ++ lit "-flow-" ++ pad2 (ps_flow s) ++ lit ".json"]) <$> specs).

(** The loop of [_launch_processes]: an exception stops what was started. *)
Fixpoint launch_loop (pairs : list (ProcessSpec * path)) (processes : list nat) : M W (list nat) :=
  match pairs with
  | [] => mret processes
  | (s, p) :: pairs =>
      process ← try_except (bh_popen (ps_command s) (ps_cpu s) p)
                  (λ e, _stop_processes processes;; raise e);
      launch_loop pairs (processes ++ [process])
  end.
Definition _launch_processes (specs : list ProcessSpec) (paths : list path) : M W (list nat) :=
  launch_loop (zip specs paths) [].

(** Wait for all; one that failed is reported at the end. *)
Fixpoint wait_loop (processes : list nat) (failures : bool) : M W bool :=
  match processes with
  | [] => mret failures
  | p :: processes =>
      returncode ← bh_wait p; wait_loop processes (failures || negb (returncode =? 0))
  end.
Definition _wait_processes (specs : list ProcessSpec) (processes : list nat) (paths : list path) :
    M W unit :=
  failures ← wait_loop (take (length specs `min` length paths)%nat processes) false;
  guard_raise failures RuntimeError.

Definition stop_and_raise {A} (processes : list nat) (e : exn) : M W A :=
  _stop_processes processes;; raise e.

Definition _run_processes (specs : list ProcessSpec) (output_dir : path) (dry_run : bool) :
    M W (list path) :=
  paths ← _process_paths specs output_dir;
  if dry_run then mret paths else
  processes ← _launch_processes specs paths;
  try_except (_wait_processes specs processes paths) (stop_and_raise processes);;
  mret paths.

(** ** Results *)

Definition _load_document (p : path) : M W json :=
  text ← bh_read_text p;
  match from_char 123 text with
  | None => raise RuntimeError
  | Some s =>
      match parse_value (S (2 * length s)) s with
      | None => raise RuntimeError
      | Some (document, _) =>
          error ← lift (json_get document (lit "error") JNull);
          guard_raise (truthy error) RuntimeError;;
          mret document
      end
  end.

(** [direction] is [rx] or [tx]; anything else raises ValueError. *)
Definition _link_counters (interface direction : str) : M W LinkCounters :=
  guard_raise (negb (bool_decide (direction ∈ [lit "rx"; lit "tx"]))) ValueError;;
  completed ← bh_run [lit "ethtool"; lit "-S"; interface];
  match completed with
  | RanNotFound => raise RuntimeError
  | Ran code out _ =>
      guard_raise (negb (code =? 0)) RuntimeError;;
      let stats := stats_of out in
      match stats !! (direction ++ lit "_bytes_phy"), stats !! (direction ++ lit "_packets_phy") with
      | Some b, Some p => mret (mk_LinkCounters b p)
      | _, _ => raise RuntimeError
      end
  end.

Fixpoint flow_results (pairs : list (ProcessSpec * path)) : M W (list FlowResult) :=
  match pairs with
  | [] => mret []
  | (s, p) :: pairs =>
      document ← _load_document p;
      r ← lift (_flow_result s document);
      rs ← flow_results pairs; mret (r :: rs)
  end.

(** ** Roles *)

Definition _check_iperf3 (executable : str) : M W unit :=
  found ← host (bh_which executable); guard_raise (negb found) RuntimeError.
Definition _validate_common (a : Args) : M W unit :=
  guard_raise (negb (length (a_interfaces a) =? 2)%nat) RuntimeError;;
  guard_raise (65535 <? a_base_port a + a_flows_per_nic a - 1) RuntimeError;;
  if a_dry_run a then mret tt else _check_iperf3 (a_iperf3 a).

Definition _default_output_dir (role : str) : M W path :=
  stamp ← host bh_stamp; mret [lit "tcp_line_rate_results"; role ++ lit "-" ++ stamp].
Definition output_dir_of (a : Args) (role : str) : M W path :=
  match a_output_dir a with Some p => mret p | None => _default_output_dir role end.
Definition _write_metadata (output_dir : path) : M W unit :=
  bh_write_json (output_dir ++ [lit "metadata.json"]).

Definition run_server (a : Args) : M W Z :=
  _validate_common a;;
  endpoints ← _endpoints (a_interfaces a) (a_addresses a);
  cpus ← _allocate_cpus endpoints (a_flows_per_nic a) (negb (a_no_affinity a));
  specs ← lift (_server_specs endpoints a cpus);
  output_dir ← output_dir_of a (lit "server");
  bh_mkdir output_dir;;
  _write_metadata output_dir;;
  _run_processes specs output_dir (a_dry_run a);;
  mret 0.

Definition run_client (a : Args) : M W Z :=
  _validate_common a;;
  guard_raise (negb (length (a_server_addresses a) =? length (a_interfaces a))%nat) RuntimeError;;
  endpoints ← _endpoints (a_interfaces a) (a_addresses a);
  lift (_check_link_capacity endpoints a);;
  (if a_skip_route_check a then mret tt else _check_routes endpoints (a_server_addresses a));;
  cpus ← _allocate_cpus endpoints (a_flows_per_nic a) (negb (a_no_affinity a));
  specs ← lift (_client_specs endpoints a cpus);
  output_dir ← output_dir_of a (lit "client");
  bh_mkdir output_dir;;
  _write_metadata output_dir;;
  paths ← _run_processes specs output_dir (a_dry_run a);
  if a_dry_run a then mret 0 else
  results ← flow_results (zip specs paths);
  let passed := client_passed a (_summarize endpoints results) in
  bh_write_json (output_dir ++ [lit "summary.json"]);;
  mret (if passed then 0 else 2).

(** ** One host

    [run_local] here and in python_benchmark.py start the servers, then the clients, and
    sample the counters of both interfaces while they run. *)

Definition alive_all (processes : list nat) : M W unit :=
  for_each (λ p, status ← host (bh_poll p);
                 match status with None => mret tt | Some _ => raise RuntimeError end) processes.

Record Samples := mk_Samples {
  sm_tx_before : LinkCounters; sm_rx_before : LinkCounters;
  sm_tx_after : LinkCounters; sm_rx_after : LinkCounters; sm_ns : Z;
}.

Definition sample (tx rx : str) (seconds : Z) : M W Samples :=
  tx_before ← _link_counters tx (lit "tx");
  rx_before ← _link_counters rx (lit "rx");
  start ← host bh_ns;
  bh_sleep (seconds * 1000);;
  stop ← host bh_ns;
  tx_after ← _link_counters tx (lit "tx");
  rx_after ← _link_counters rx (lit "rx");
  mret (mk_Samples tx_before rx_before tx_after rx_after (stop - start)).

(** A run: the flows of each side, the seconds before the sample and of the sample, and
    the interfaces that send and receive data. *)
Record Run := mk_Run {
  rn_servers : list ProcessSpec; rn_server_paths : list path;
  rn_clients : list ProcessSpec; rn_client_paths : list path;
  rn_settle : Z; rn_sample : Z; rn_tx : str; rn_rx : str;
}.

Definition start_clients (r : Run) (servers : list nat) : M W (list nat) :=
  bh_sleep 500;;
  alive_all (take (length (rn_servers r) `min` length (rn_server_paths r))%nat servers);;
  _launch_processes (rn_clients r) (rn_client_paths r).
Definition observe (r : Run) (servers clients : list nat) : M W Samples :=
  bh_sleep (rn_settle r * 1000);;
  alive_all (take (length (rn_clients r) `min` length (rn_client_paths r))%nat clients);;
  samples ← sample (rn_tx r) (rn_rx r) (rn_sample r);
  _wait_processes (rn_clients r) clients (rn_client_paths r);;
  _wait_processes (rn_servers r) servers (rn_server_paths r);;
  mret samples.
Definition measured_run (r : Run) : M W Samples :=
  servers ← _launch_processes (rn_servers r) (rn_server_paths r);
  clients ← try_except (start_clients r servers) (stop_and_raise servers);
  try_except (observe r servers clients)
    (λ e, _stop_processes clients;; stop_and_raise servers e).

(** The wire rate, and whether those of the two sides agree within 2 %. *)
Definition wire_path (s : Samples) (seconds : fl) : result (fl * bool) :=
  tx ← _wire_gbps (sm_tx_before s) (sm_tx_after s) seconds;
  rx ← _wire_gbps (sm_rx_before s) (sm_rx_after s) seconds;
  let wire := fl_min tx rx in
  let difference := fl_div (SFabs (fl_sub tx rx)) (fl_max (fl_max tx rx) fl_one) in
  Ok (wire, SFltb (S754_zero false) wire && SFleb difference fl_002).
Definition seconds_of (ns : Z) : result fl := ns ← fl_of_Z ns; Ok (fl_div ns fl_1e9).
Definition wire_verdict (s : Samples) (target : fl) : result bool :=
  seconds ← seconds_of (sm_ns s);
  '(wire, path_verified) ← wire_path s seconds;
  Ok (path_verified && SFleb target wire).

Definition same_version (a b : Ip) : result unit :=
  v ← ip_version a; w ← ip_version b; raise_if (negb (v =? w)) RuntimeError.
Definition below (target : fl) (e : Endpoint) : bool :=
  match ep_speed_gbps e with Some s => SFltb s target | None => false end.

(** [sender, receiver = endpoints] *)
Definition two {A} (l : list A) : result (A * A) :=
  match l with [x; y] => Ok (x, y) | _ => Raise ValueError end.

Definition with_servers (a : Args) (servers : list Ip) : Args :=
  mk_Args (a_interfaces a) (a_addresses a) servers (a_flows_per_nic a) (a_base_port a) (a_iperf3 a)
    (a_output_dir a) (a_no_affinity a) (a_dry_run a) (a_duration a) (a_omit a) (a_counter_delay a)
    (a_sample_seconds a) (a_length a) (a_target_gbps a) (a_minimum_nic_gbps a) (a_reverse a)
    (a_skip_route_check a).

Definition run_local (a : Args) : M W Z :=
  _validate_common a;;
  guard_raise (a_duration a <=? a_counter_delay a + a_sample_seconds a) RuntimeError;;
  endpoints ← _endpoints (a_interfaces a) (a_addresses a);
  '(sender, receiver) ← lift (two endpoints);
  lift (same_version (ep_address sender) (ep_address receiver));;
  guard_raise (existsb (below (a_target_gbps a)) endpoints) RuntimeError;;
  cpus ← _allocate_cpus endpoints (a_flows_per_nic a) (negb (a_no_affinity a));
  let local_args := with_servers a [ep_address receiver] in
  servers ← lift (_server_specs [receiver] local_args cpus);
  clients ← lift (_client_specs [sender] local_args cpus);
  output_dir ← output_dir_of a (lit "local");
  server_paths ← _process_paths servers (output_dir ++ [lit "server"]);
  client_paths ← _process_paths clients (output_dir ++ [lit "client"]);
  _write_metadata output_dir;;
  if a_dry_run a then mret 0 else
  let '(data_sender, data_receiver) :=
    if a_reverse a then (receiver, sender) else (sender, receiver) in
  samples ← measured_run (mk_Run servers server_paths clients client_paths
                            (a_omit a + a_counter_delay a) (a_sample_seconds a)
                            (ep_interface data_sender) (ep_interface data_receiver));
  results ← flow_results (zip clients client_paths);
  passed ← lift (wire_verdict samples (a_target_gbps a));
  bh_write_json (output_dir ++ [lit "summary.json"]);;
  mret (if passed : bool then 0 else 2).

(** What [subprocess] raises when a wait expires. *)
Definition TimeoutExpired : exn := OtherError 2.

(** [main] with a role: the exceptions it reports, and its exit code. *)
Definition main (role : M W Z) : M W Z :=
  try_except role (λ e, if is_OSError e || bool_decide (e ∈ [RuntimeError; NotImplementedError; ValueError; UnicodeError; TimeoutExpired])
                        then mret 1 else raise e).
End Bench.
