(* ===== verification/BenchWorkers.v ===== *)
(** The benchmark with Python workers and the latency benchmark:
    src/experiments/tcp_multiflow/python_benchmark.py and latency.py.

    A worker process is one socket loop; its driver starts workers as Bench starts
    iperf3.  Sockets and the workers' clock are those of Transport.  Loops that end with a
    connection take a fuel, and [None] is a loop still running when it ends.  Of the
    samples of a latency run the percentiles are modelled, not mean and median.  Names of
    interfaces are ASCII, and [int(seconds * 1e9)] is exact, as it is below 2^53. *)

From Stdlib Require Import SpecFloat.
From S2P Require Import Prelude Bytes Json.
From S2P Require Import Verbs Stream Transport BenchText Bench.
#[local] Open Scope Z_scope.

(** * Workers *)

Section Workers.
Context {W : Type} `{!FlowDevice W} `{!SockRecv Sock W}.

(** The arguments of a worker that receives: its interface, address and port. *)
Record Listen := mk_Listen { ln_interface : str; ln_address : Ip; ln_port : Z }.

(** The listener of a worker and its one connection. *)
Definition accept_one {A} (a : Listen) (body : Sock → M W A) : M W A :=
  family ← lift (_family (ln_address a));
  with_socket family (λ listener,
    fd_setsockopt listener SO_REUSEADDR [1];;
    _bind_device listener (ln_interface a);;
    address ← lift (_address (ln_address a) (ln_port a));
    fd_bind listener address;;
    fd_listen listener 1;;
    connection ← fd_accept listener;
    try_finally (body connection) (tell (fd_close connection))).

Definition _RECEIVE_BYTES : Z := 2 ^ 20.

(** [while True: received = connection.recv_into(view)]: the bytes received. *)
Fixpoint drain (fuel : nat) (connection : Sock) (total : Z) : M W (option Z) :=
  match fuel with
  | O => mret None
  | S fuel =>
      received ← sock_recv connection _RECEIVE_BYTES;
      if (length received =? 0)%nat then mret (Some total)
      else drain fuel connection (total + Z.of_nat (length received))
  end.

(** [run_server] of python_benchmark.py: the bytes and nanoseconds that it prints. *)
Definition worker_server (fuel : nat) (a : Listen) : M W (option (Z * Z)) :=
  accept_one a (λ connection,
    start_ns ← perf_counter_ns;
    total ← drain fuel connection 0;
    match total with
    | None => mret None
    | Some total => stop_ns ← perf_counter_ns; mret (Some (total, stop_ns - start_ns))
    end).

(** [while True: client.sendall(payload)]: the bytes sent after the warm-up, and the time
    of the last. *)
Fixpoint send_until (fuel : nat) (client : Sock) (payload : bytes) (measured_start deadline measured : Z) :
    M W (option (Z * Z)) :=
  match fuel with
  | O => mret None
  | S fuel =>
      fd_sendall client payload;;
      now_ns ← perf_counter_ns;
      let measured := if measured_start <=? now_ns
                      then measured + Z.of_nat (length payload) else measured in
      if deadline <=? now_ns then mret (Some (measured, now_ns))
      else send_until fuel client payload measured_start deadline measured
  end.

Record Worker := mk_Worker {
  wk_interface : str; wk_local_address : Ip; wk_server_address : Ip; wk_port : Z;
  wk_length : Z; wk_duration : Z; wk_omit : Z;
}.

(** A connected client socket. *)
Definition open_client {A} (interface : str) (local server : Ip) (port : Z) (body : Sock → M W A) : M W A :=
  family ← lift (_family local);
  with_socket family (λ client,
    _bind_device client interface;;
    fd_setsockopt client TCP_NODELAY [1];;
    local ← lift (_address local 0);
    fd_bind client local;;
    remote ← lift (_address server port);
    fd_connect client remote;;
    body client).

(** [run_client] of python_benchmark.py: the bytes, nanoseconds and retransmits that it
    prints. *)
Definition worker_client (fuel : nat) (a : Worker) : M W (option (Z * Z * Z)) :=
  let payload := replicate (Z.to_nat (wk_length a)) 0 in
  open_client (wk_interface a) (wk_local_address a) (wk_server_address a) (wk_port a) (λ client,
    start_ns ← perf_counter_ns;
    let measured_start_ns := start_ns + wk_omit a * 1000000000 in
    let deadline_ns := measured_start_ns + wk_duration a * 1000000000 in
    sent ← send_until fuel client payload measured_start_ns deadline_ns 0;
    match sent with
    | None => mret None
    | Some (measured_bytes, now_ns) =>
        retransmits ← _total_retransmits client;
        mret (Some (measured_bytes, now_ns - measured_start_ns, retransmits))
    end).

(** ** Latency *)

(** [_receive]: [None] at the end of the stream, between messages. *)
Fixpoint receive_message (fuel : nat) (sock : Sock) (size : Z) (allow_eof : bool) (result : bytes) :
    M W (option bytes) :=
  match fuel with
  | O => mret (Some result)
  | S fuel =>
      if size <=? Z.of_nat (length result) then mret (Some result) else
      chunk ← sock_recv sock (size - Z.of_nat (length result));
      if (length chunk =? 0)%nat then
        if allow_eof && (length result =? 0)%nat then mret None else raise RuntimeError
      else receive_message fuel sock size allow_eof (result ++ chunk)
  end.
Definition _receive (sock : Sock) (size : Z) (allow_eof : bool) : M W (option bytes) :=
  receive_message (S (Z.to_nat size)) sock size allow_eof [].

(** The loop of the echo server. *)
Fixpoint echo (fuel : nat) (connection : Sock) (size : Z) : M W (option Z) :=
  match fuel with
  | O => mret None
  | S fuel =>
      payload ← _receive connection size true;
      match payload with
      | None => mret (Some 0)
      | Some payload => fd_sendall connection payload;; echo fuel connection size
      end
  end.
Definition latency_server (fuel : nat) (a : Listen) (size : Z) : M W (option Z) :=
  accept_one a (λ connection, fd_setsockopt connection TCP_NODELAY [1];; echo fuel connection size).

Definition _round_trip (sock : Sock) (payload : bytes) : M W unit :=
  fd_sendall sock payload;;
  response ← _receive sock (Z.of_nat (length payload)) false;
  guard_raise (negb (bool_decide (response = Some payload))) RuntimeError.
End Workers.

(** * Drivers *)

Section Drivers.
Context `{!BenchText} {W : Type} `{!BenchHost W} `{!FlowDevice W} `{!SockRecv Sock W}.

(** [sys.executable] and the module names. *)
Definition worker_command (executable module role : str) (args : list str) : list str :=
  [executable; lit "-m"; module; role] ++ args.
Definition python_module : str := lit "experiments.tcp_multiflow.python_benchmark".
Definition latency_module : str := lit "experiments.tcp_multiflow.latency".

Record PyArgs := mk_PyArgs {
  p_executable : str;
  p_interfaces : list str;
  p_addresses : option (list Ip);
  p_flows_per_nic : Z;
  p_base_port : Z;
  p_duration : Z;
  p_omit : Z;
  p_counter_delay : Z;
  p_sample_seconds : Z;
  p_length : Z;
  p_target_gbps : fl;
  p_output_dir : option path;
  p_reverse : bool;
  p_no_affinity : bool;
  p_dry_run : bool;
}.

Definition worker_server_spec (a : PyArgs) (cpus : CpuMap) (receiver : Endpoint) (flow : Z) :
    result ProcessSpec :=
  let port := p_base_port a + flow in
  l ← dict_at cpus (ep_interface receiver);
  cpu ← list_at l flow;
  Ok (mk_ProcessSpec (ep_interface receiver) flow port cpu
        (worker_command (p_executable a) python_module (lit "server")
           [lit "--interface"; ep_interface receiver; lit "--address"; ip_text (ep_address receiver);
            lit "--port"; int_repr port])).
Definition worker_client_spec (a : PyArgs) (cpus : CpuMap) (sender receiver : Endpoint) (flow : Z) :
    result ProcessSpec :=
  let port := p_base_port a + flow in
  l ← dict_at cpus (ep_interface sender);
  cpu ← list_at l flow;
  Ok (mk_ProcessSpec (ep_interface sender) flow port cpu
        (worker_command (p_executable a) python_module (lit "client")
           [lit "--interface"; ep_interface sender; lit "--local-address"; ip_text (ep_address sender);
            lit "--server-address"; ip_text (ep_address receiver); lit "--port"; int_repr port;
            lit "--length"; int_repr (p_length a); lit "--duration"; int_repr (p_duration a);
            lit "--omit"; int_repr (p_omit a)])).
Definition worker_pair (a : PyArgs) (cpus : CpuMap) (sender receiver : Endpoint) (flow : Z) :
    result (ProcessSpec * ProcessSpec) :=
  s ← worker_server_spec a cpus receiver flow;
  c ← worker_client_spec a cpus sender receiver flow;
  Ok (s, c).
Definition _worker_specs (sender receiver : Endpoint) (a : PyArgs) (cpus : CpuMap) :
    result (list ProcessSpec * list ProcessSpec) :=
  pairs ← mapM_result (worker_pair a cpus sender receiver) (seqZ 0 (p_flows_per_nic a));
  Ok (pairs.*1, pairs.*2).

(** [_load_result]: invalid JSON and missing keys raise RuntimeError. *)
Definition _load_result (p : path) : M W json :=
  text ← bh_read_text p;
  match loads text with
  | Raise _ => raise RuntimeError
  | Ok v =>
      sent ← lift (json_contains (lit "bytes_sent") v);
      has ← (if sent : bool then lift (json_contains (lit "elapsed_seconds") v) else mret false);
      guard_raise (negb has) RuntimeError;;
      mret v
  end.

Record WorkerResult := mk_WorkerResult {
  wr_gbps : fl; wr_retransmits : Z; wr_bytes_sent : Z; wr_seconds : fl;
}.
Definition worker_result (document : json) : result WorkerResult :=
  v ← getitem document (lit "elapsed_seconds");
  seconds ← json_float v;
  raise_if (SFleb seconds (S754_zero false)) RuntimeError;;
  v ← getitem document (lit "bytes_sent");
  nbytes ← json_int v;
  bits ← fl_of_Z (nbytes * 8);
  v ← json_get document (lit "retransmits") (JInt 0);
  retransmits ← json_int v;
  Ok (mk_WorkerResult (fl_div (fl_div bits seconds) fl_1e9) retransmits nbytes seconds).
Fixpoint _flow_results (paths : list path) : M W (list WorkerResult) :=
  match paths with
  | [] => mret []
  | p :: paths =>
      document ← _load_result p;
      r ← lift (worker_result document);
      rs ← _flow_results paths; mret (r :: rs)
  end.

(** [run_local] of python_benchmark.py. *)
Definition python_run_local (a : PyArgs) : M W Z :=
  guard_raise (negb (length (p_interfaces a) =? 2)%nat) RuntimeError;;
  guard_raise (65535 <? p_base_port a + p_flows_per_nic a - 1) RuntimeError;;
  guard_raise (p_duration a <=? p_counter_delay a + p_sample_seconds a) RuntimeError;;
  endpoints ← _endpoints (p_interfaces a) (p_addresses a);
  '(first, second) ← lift (two endpoints);
  let '(sender, receiver) := if p_reverse a then (second, first) else (first, second) in
  lift (same_version (ep_address sender) (ep_address receiver));;
  guard_raise (below (p_target_gbps a) sender) RuntimeError;;
  cpus ← _allocate_cpus endpoints (p_flows_per_nic a) (negb (p_no_affinity a));
  '(servers, clients) ← lift (_worker_specs sender receiver a cpus);
  output_dir ← match p_output_dir a with
               | Some p => mret p | None => _default_output_dir (lit "python-local") end;
  server_paths ← _process_paths servers (output_dir ++ [lit "server"]);
  client_paths ← _process_paths clients (output_dir ++ [lit "client"]);
  _write_metadata output_dir;;
  if p_dry_run a then mret 0 else
  samples ← measured_run (mk_Run servers server_paths clients client_paths
                            (p_omit a + p_counter_delay a) (p_sample_seconds a)
                            (ep_interface sender) (ep_interface receiver));
  _flow_results client_paths;;
  passed ← lift (wire_verdict samples (p_target_gbps a));
  bh_write_json (output_dir ++ [lit "summary.json"]);;
  mret (if passed : bool then 0 else 2).

(** ** Latency *)

Record LatArgs := mk_LatArgs {
  l_executable : str;
  l_interfaces : list str;
  l_addresses : option (list Ip);
  l_sizes : list Z;
  l_iterations : Z;
  l_warmups : Z;
  l_base_port : Z;
  l_output_dir : option path;
  l_reverse : bool;
  l_no_affinity : bool;
  l_dry_run : bool;
}.

Definition _counter_delta (before after : LinkCounters) : LinkCounters :=
  mk_LinkCounters (lc_bytes after - lc_bytes before) (lc_packets after - lc_packets before).

(** Counters of both directions of both interfaces. *)
Record Four := mk_Four { f_stx : LinkCounters; f_srx : LinkCounters; f_rtx : LinkCounters; f_rrx : LinkCounters }.
Definition four (sender receiver : str) : M W Four :=
  a ← _link_counters sender (lit "tx");
  b ← _link_counters sender (lit "rx");
  c ← _link_counters receiver (lit "tx");
  d ← _link_counters receiver (lit "rx");
  mret (mk_Four a b c d).

(** [client.perf_counter_ns] around each round trip. *)
Fixpoint time_trips (n : nat) (client : Sock) (payload : bytes) : M W (list Z) :=
  match n with
  | O => mret []
  | S n =>
      start ← perf_counter_ns;
      _round_trip client payload;;
      stop ← perf_counter_ns;
      rest ← time_trips n client payload;
      mret (stop - start :: rest)
  end.

Definition trip_payload (size : Z) : bytes := (λ index, Z.land index 255) <$> seqZ 0 size.

(** What is measured of one size. *)
Record Measure := mk_Measure { ms_size : Z; ms_samples : list Z; ms_before : Four; ms_after : Four }.

Definition measure_connection (a : LatArgs) (sender receiver : Endpoint) (size : Z) (client : Sock) :
    M W Measure :=
  let payload := trip_payload size in
  for_each (λ _, _round_trip client payload) (seqZ 0 (l_warmups a));;
  before ← four (ep_interface sender) (ep_interface receiver);
  samples ← time_trips (Z.to_nat (l_iterations a)) client payload;
  stop ← four (ep_interface sender) (ep_interface receiver);
  mret (mk_Measure size samples before stop).

Definition measure_server (a : LatArgs) (sender receiver : Endpoint) (size port : Z) (server : nat) :
    M W Measure :=
  bh_sleep 250;;
  status ← host (bh_poll server);
  match status with
  | Some _ => raise RuntimeError
  | None =>
      m ← open_client (ep_interface sender) (ep_address sender) (ep_address receiver) port
            (measure_connection a sender receiver size);
      returncode ← host (bh_wait_for server 5);
      match returncode with
      | None => raise TimeoutExpired
      | Some code => guard_raise (negb (code =? 0)) RuntimeError;; mret m
      end
  end.

(** Both counters saw every request and every response. *)
Definition path_verified (iterations : Z) (before after : Four) : bool :=
  let packets f := lc_packets (f after) - lc_packets (f before) in
  (iterations <=? Z.min (packets f_stx) (packets f_rrx)) &&
  (iterations <=? Z.min (packets f_rtx) (packets f_srx)).

Definition _measure_size (a : LatArgs) (sender receiver : Endpoint) (size port : Z) (cpus : CpuMap)
    (root : path) : M W (option Measure) :=
  let command := worker_command (l_executable a) latency_module (lit "server")
    [lit "--interface"; ep_interface receiver; lit "--address"; ip_text (ep_address receiver);
     lit "--port"; int_repr port; lit "--size"; int_repr size] in
  l ← lift (dict_at cpus (ep_interface receiver));
  cpu ← lift (list_at l 0);
  if l_dry_run a then mret None else
  server ← bh_popen command cpu (root ++ [lit "server-" ++ int_repr size ++ lit ".log"]);
  m ← try_except (measure_server a sender receiver size port server) (stop_and_raise [server]);
  guard_raise (negb (path_verified (l_iterations a) (ms_before m) (ms_after m))) RuntimeError;;
  mret (Some m).

(** [_percentile]: the index in the sorted samples. *)
Definition fl_ceil (f : fl) : Z :=
  match f with
  | S754_finite s m e =>
      let v := if s then Zneg m else Zpos m in
      if 0 <=? e then v * 2 ^ e else - ((- v) / 2 ^ (- e))
  | _ => 0
  end.
Definition _percentile (samples : list Z) (percentile : fl) : result fl :=
  let ordered := merge_sort (≤)%Z samples in
  n ← fl_of_Z (Z.of_nat (length ordered));
  let index := Z.max 0 (fl_ceil (fl_mul percentile n) - 1) in
  v ← list_at ordered index; fl_ratio v 1000.

Fixpoint measure_sizes (a : LatArgs) (sender receiver : Endpoint) (sizes : list Z) (port : Z)
    (cpus : CpuMap) (root : path) : M W (list Measure) :=
  match sizes with
  | [] => mret []
  | size :: sizes =>
      m ← _measure_size a sender receiver size port cpus root;
      rest ← measure_sizes a sender receiver sizes (port + 1) cpus root;
      mret (match m with Some m => m :: rest | None => rest end)
  end.

(** Run pinned to a CPU, and restore the affinity whatever happens. *)
Definition pinned {A} (cpu : option Z) (body : M W A) : M W A :=
  match cpu with
  | None => body
  | Some cpu =>
      original ← host bh_getaffinity;
      bh_setaffinity [cpu];;
      try_finally body (bh_setaffinity original)
  end.

(** [run] of latency.py: the exit code and the measurements it reports. *)
Definition latency_run (a : LatArgs) : M W (Z * list Measure) :=
  guard_raise (negb (length (l_interfaces a) =? 2)%nat) RuntimeError;;
  endpoints ← _endpoints (l_interfaces a) (l_addresses a);
  '(first, second) ← lift (two endpoints);
  let '(sender, receiver) := if l_reverse a then (second, first) else (first, second) in
  lift (same_version (ep_address sender) (ep_address receiver));;
  guard_raise (65535 <? l_base_port a + Z.of_nat (length (l_sizes a)) - 1) RuntimeError;;
  cpus ← _allocate_cpus endpoints 1 (negb (l_no_affinity a));
  root ← match l_output_dir a with
         | Some p => mret p | None => _default_output_dir (lit "latency") end;
  bh_mkdir root;;
  own ← (if l_no_affinity a || l_dry_run a then mret None else
         l ← lift (dict_at cpus (ep_interface sender)); lift (list_at l 0));
  results ← pinned own (measure_sizes a sender receiver (l_sizes a) (l_base_port a) cpus root);
  if l_dry_run a then mret (0, []) else
  bh_write_json (root ++ [lit "latency.json"]);;
  mret (0, results).
End Drivers.
