(* ===== verification/LocalTransfer.v ===== *)
(** [transfer_tensor_local] of src/experiments/tcp_multiflow/transport.py: a sender in the
    calling process and a receiver in a thread or a process of its own, and the check of
    the physical counters around the transfer.

    The receiving worker runs beside the caller, as Transport models it; here it is an
    object of the class [TransferHost], of which the caller sees that it is ready, alive,
    and what it reports.  Rates (doubles) are modelled only where they decide
    [path_verified]. *)

From Stdlib Require Import SpecFloat.
From S2P Require Import Prelude Bytes Json.
From S2P Require Import Verbs Stream Transport BenchText Bench.
#[local] Open Scope Z_scope.

(** What a worker reports: its result, or the exception that it raised (of a process, only
    that there was one).  A process that ends without a word makes [recv] raise EOFError. *)
Inductive report := Reported (r : ReceiveResult) | Failed (e : exn) | Silent.

Definition EOFError : exn := OtherError 3.

(** [th_ready] is [ready.wait(timeout)], [th_join] the [join] of a worker, with a timeout or
    without, [th_report] what it has reported so far. *)
Class TransferHost (W : Type) := {
  th_start : Mode → TensorReceiver → Tensor → Z → W → nat * W;
  th_ready : Z → W → bool * W;
  th_report : nat → W → report * W;
  th_join : nat → option Z → W → W;
  th_alive : nat → W → bool * W;
  th_terminate : nat → W → W;
}.

Record LocalTransferResult := mk_LocalTransferResult {
  lt_nbytes : Z;
  lt_ns : Z;
  lt_completion_ns : Z;
  lt_total_ns : Z;
  lt_retransmits : Z;
  lt_path_verified : bool;
  lt_flows : list FlowTransfer;
}.

Record TransferArgs := mk_TransferArgs {
  t_interfaces : list str;
  t_addresses : option (list Ip);
  t_flows : Z;
  t_base_port : Z;
  t_chunk_bytes : Z;
  t_stripe_bytes : Z;
  t_affinity : bool;
  t_verify_physical_path : bool;
  t_worker_mode : ModeArg;
  t_iterations : Z;
  t_timeout : Z;
}.

(** The CPUs of an interface: all of them, or none. *)
Definition cpus_arg (l : list (option Z)) : option (list Z) := mapM id l.

Section LocalTransfer.
Context `{!BenchText} {W : Type} `{!BenchHost W} `{!FlowDevice W} `{!TransferHost W}.

(** The counters of both interfaces, when they are to be verified. *)
Definition counters (verify : bool) (sender receiver : Endpoint) : M W (option (LinkCounters * LinkCounters)) :=
  if negb verify then mret None else
  tx ← _link_counters (ep_interface sender) (lit "tx");
  rx ← _link_counters (ep_interface receiver) (lit "rx");
  mret (Some (tx, rx)).

(** Both ends of a transfer, configured. *)
Definition transfer_ends (a : TransferArgs) (mode : Mode) (cpus : CpuMap) (sender receiver : Endpoint) :
    result (TensorSender * TensorReceiver) :=
  scpus ← dict_at cpus (ep_interface sender);
  s ← TensorSender_init (mk_NetworkEndpoint (ep_interface sender) (ep_address sender))
        (ep_address receiver) (t_flows a) (t_base_port a) (t_chunk_bytes a) (t_stripe_bytes a)
        (cpus_arg scpus) (t_timeout a) mode;
  rcpus ← dict_at cpus (ep_interface receiver);
  r ← TensorReceiver_init (mk_NetworkEndpoint (ep_interface receiver) (ep_address receiver))
        (t_flows a) (t_base_port a) (t_chunk_bytes a) (t_stripe_bytes a)
        (cpus_arg rcpus) (t_timeout a) mode false;
  Ok (s, r).

(** What the caller makes of the report of a worker that has ended. *)
Definition outcome (mode : Mode) (o : report) : result (option ReceiveResult) :=
  match o, mode with
  | Reported r, _ => Ok (Some r)
  | Failed e, MProcess => Raise RuntimeError
  | Failed e, _ => Raise e
  | Silent, MProcess => Raise EOFError
  | Silent, _ => Ok None
  end.

(** Send while the worker receives, and wait for it. *)
Definition send_and_join (a : TransferArgs) (mode : Mode) (worker : nat) (sender : TensorSender)
    (source : Tensor) (transfer_id : bytes) : M W (SendResult * ReceiveResult) :=
  send_result ← try_finally (send sender source transfer_id (t_iterations a))
                  (tell_host (th_join worker (Some (t_timeout a))));
  alive ← host (th_alive worker);
  if (alive : bool) then
    (if bool_decide (mode = MProcess)
     then tell_host (th_terminate worker);; tell_host (th_join worker None) else mret tt);;
    raise RuntimeError
  else
    o ← host (th_report worker);
    received ← lift (outcome mode o);
    match received with
    | None => raise RuntimeError
    | Some received =>
        guard_raise (negb (rr_nbytes received =? sr_nbytes send_result)) RuntimeError;;
        mret (send_result, received)
    end.

Definition path_verdict (before after : option (LinkCounters * LinkCounters)) (ns : Z) : result bool :=
  match before, after with
  | Some (tx, rx), Some (tx', rx') =>
      seconds ← seconds_of ns;
      '(_, verified) ← wire_path (mk_Samples tx rx tx' rx' ns) seconds;
      Ok verified
  | _, _ => Ok false
  end.

(** [transfer_id] is what [send] draws. *)
Definition transfer_tensor_local (a : TransferArgs) (source destination : Tensor)
    (transfer_id : bytes) : M W LocalTransferResult :=
  mode ← lift (transfer_checks source destination (t_iterations a) (t_worker_mode a) 2);
  endpoints ← _endpoints (t_interfaces a) (t_addresses a);
  '(sender, receiver) ← lift (two endpoints);
  cpus ← _allocate_cpus endpoints (t_flows a) (t_affinity a);
  '(s, r) ← lift (transfer_ends a mode cpus sender receiver);
  worker ← host (th_start mode r destination (t_iterations a));
  ready ← host (th_ready (t_timeout a));
  guard_raise (negb ready) RuntimeError;;
  o ← host (th_report worker);
  (match o with Failed e => if bool_decide (mode = MThread) then raise e else mret tt | _ => mret tt end);;
  before ← counters (t_verify_physical_path a) sender receiver;
  start_ns ← host bh_ns;
  '(send_result, received) ← send_and_join a mode worker s source transfer_id;
  stop_ns ← host bh_ns;
  after ← counters (t_verify_physical_path a) sender receiver;
  path_verified ← lift (path_verdict before after (rr_ns received));
  mret (mk_LocalTransferResult (sr_nbytes send_result) (rr_ns received) (rr_completion_ns received)
          (stop_ns - start_ns) (SendResult_retransmits send_result) path_verified (sr_flows send_result)).
End LocalTransfer.
