(* ===== verification/Sweep.v ===== *)
(** The sweep over write sizes and flow counts, and the pattern of the tensor benchmark:
    src/experiments/tcp_multiflow/sweep.py and tensor_benchmark.py.

    A result is the JSON document of a summary, read back from its file: a Python dict with
    whatever the file holds, so that comparisons of its values follow Python's rules.  The
    table that is printed at the end is not modelled. *)

From Stdlib Require Import SpecFloat.
From S2P Require Import Prelude Bytes Json.
From S2P Require Import Verbs Stream Transport BenchText Bench BenchWorkers.
#[local] Open Scope Z_scope.

(** * The order of JSON values *)

(** Numbers compare exactly, integers with doubles as well. *)
Definition num_lt (a b : pyfloat) : bool :=
  match a, b with
  | FFin m e, FFin m' e' => let k := Z.min e e' in m * 2 ^ (e - k) <? m' * 2 ^ (e' - k)
  | FInf n, FInf n' => n && negb n'
  | FInf n, FFin _ _ => n
  | FFin _ _, FInf n => negb n
  | FNaN, _ | _, FNaN => false
  end.
Definition num_eq (a b : pyfloat) : bool :=
  match a, b with
  | FFin m e, FFin m' e' => let k := Z.min e e' in m * 2 ^ (e - k) =? m' * 2 ^ (e' - k)
  | FInf n, FInf n' => Bool.eqb n n'
  | _, _ => false
  end.
Definition json_num (v : json) : option pyfloat :=
  match v with
  | JInt z => Some (FFin z 0)
  | JBool b => Some (FFin (bool_int b) 0)
  | JFloat f => Some f
  | _ => None
  end.
Definition py_of_fl (f : fl) : pyfloat :=
  match f with
  | S754_zero _ => FFin 0 0
  | S754_infinity n => FInf n
  | S754_nan => FNaN
  | S754_finite s m e => FFin (if s then Zneg m else Zpos m) e
  end.

(** [a == b] *)
Fixpoint py_eq (a b : json) {struct a} : bool :=
  match a, b with
  | JNull, JNull => true
  | JStr s, JStr t => bool_decide (s = t)
  | JList l, JList l' =>
      (fix go (l l' : list json) : bool :=
         match l, l' with
         | [], [] => true
         | x :: l, y :: l' => py_eq x y && go l l'
         | _, _ => false
         end) l l'
  | JObj f, JObj f' =>
      (length f =? length f')%nat &&
      (fix go (f : list (str * json)) : bool :=
         match f with
         | [] => true
         | (k, x) :: f => match assoc k f' with Some y => py_eq x y && go f | None => false end
         end) f
  | _, _ =>
      match json_num a, json_num b with Some x, Some y => num_eq x y | _, _ => false end
  end.

Fixpoint str_lt (s t : str) : bool :=
  match s, t with
  | _, [] => false
  | [], _ :: _ => true
  | c :: s, d :: t => (c <? d) || ((c =? d) && str_lt s t)
  end.

(** [a < b]: TypeError but for two numbers, two strings or two lists. *)
Fixpoint py_lt (a b : json) {struct a} : result bool :=
  match a, b with
  | JStr s, JStr t => Ok (str_lt s t)
  | JList l, JList l' =>
      (fix go (l l' : list json) : result bool :=
         match l, l' with
         | _, [] => Ok false
         | [], _ :: _ => Ok true
         | x :: l, y :: l' => if py_eq x y then go l l' else py_lt x y
         end) l l'
  | _, _ =>
      match json_num a, json_num b with Some x, Some y => Ok (num_lt x y) | _, _ => Raise TypeError end
  end.

(** [v >= f] for a double [f]. *)
Definition json_ge_fl (v : json) (f : fl) : result bool :=
  match json_num v with
  | Some x => Ok (num_lt (py_of_fl f) x || num_eq (py_of_fl f) x)
  | None => Raise TypeError
  end.

(** * The best flow count *)

(** [[x for x in l if p(x)]] *)
Fixpoint filter_result {A} (p : A → result bool) (l : list A) : result (list A) :=
  match l with
  | [] => Ok []
  | x :: l => b ← p x; rest ← filter_result p l; Ok (if b : bool then x :: rest else rest)
  end.

(** [min(l, key)] and [max(l, key)]: the first of several that are best. *)
Fixpoint best_by (better : json → json → result bool) (key : json → result json)
    (best best_key : json) (l : list json) : result json :=
  match l with
  | [] => Ok best
  | x :: l =>
      k ← key x;
      b ← better k best_key;
      if (b : bool) then best_by better key x k l else best_by better key best best_key l
  end.
Definition min_by (key : json → result json) (x : json) (l : list json) : result json :=
  k ← key x; best_by py_lt key x k l.
Definition max_by (key : json → result json) (x : json) (l : list json) : result json :=
  k ← key x; best_by (λ a b, py_lt b a) key x k l.

Definition is_verified (r : json) : result bool := v ← getitem r (lit "path_verified"); Ok (truthy v).
Definition at_target (target : fl) (r : json) : result bool :=
  v ← getitem r (lit "wire_gbps"); json_ge_fl v target.

Definition _tuned_result (results : list json) (target : fl) : result (option json) :=
  verified ← filter_result is_verified results;
  match verified with
  | [] => Ok None
  | first :: others =>
      reached ← filter_result (at_target target) verified;
      match reached with
      | x :: l => r ← min_by (λ r, getitem r (lit "flow_count")) x l; Ok (Some r)
      | [] => r ← max_by (λ r, getitem r (lit "wire_gbps")) first others; Ok (Some r)
      end
  end.

(** * The sweep *)

(** [sh_is_file] is [Path.is_file], [sh_write_csv] is [_write_csv]. *)
Class SweepHost (W : Type) := {
  sh_is_file : path → W → bool * W;
  sh_write_csv : path → list json → W → result unit * W;
}.

Record SweepArgs := mk_SweepArgs {
  s_executable : str;
  s_interfaces : list str;
  s_addresses : option (list Ip);
  s_lengths : list str;
  s_flows : list Z;
  s_duration : Z;
  s_omit : Z;
  s_counter_delay : Z;
  s_sample_seconds : Z;
  s_target_gbps : fl;
  s_python : bool;
  s_base_port : Z;
  s_iperf3 : str;
  s_output_dir : option path;
  s_reverse : bool;
  s_no_affinity : bool;
  s_dry_run : bool;
  s_resume : bool;
}.

(** [d[k] = v]: a key keeps its place. *)
Fixpoint set_field (k : str) (v : json) (d : list (str * json)) : list (str * json) :=
  match d with
  | [] => [(k, v)]
  | (k', v') :: d => if bool_decide (k' = k) then (k', v) :: d else (k', v') :: set_field k v d
  end.

(** [str(path)] *)
Definition path_text (p : path) : str :=
  let join := foldr (λ c rest, match rest with [] => c | _ => c ++ [47] ++ rest end) [] in
  match p with c :: p => if bool_decide (c = [47]) then [47] ++ join p else join (c :: p) | [] => [] end.

Section Sweep.
Context `{!BenchText} {W : Type} `{!BenchHost W} `{!SweepHost W}.

Definition read_json (p : path) : M W json := text ← bh_read_text p; lift (loads text).

Definition engine_name (a : SweepArgs) : str := if s_python a then lit "python" else lit "iperf3".

(** [runner(run_args)]; the server addresses, the NIC minimum and the route check are the
    client role's alone. *)
Definition run_point (a : SweepArgs) (write_size : str) (size flows : Z) (output_dir : path) : M W Z :=
  if s_python a then
    python_run_local (mk_PyArgs (s_executable a) (s_interfaces a) (s_addresses a) flows (s_base_port a)
      (s_duration a) (s_omit a) (s_counter_delay a) (s_sample_seconds a) size (s_target_gbps a)
      (Some output_dir) (s_reverse a) (s_no_affinity a) (s_dry_run a))
  else
    run_local (mk_Args (s_interfaces a) (s_addresses a) [] flows (s_base_port a) (s_iperf3 a)
      (Some output_dir) (s_no_affinity a) (s_dry_run a) (s_duration a) (s_omit a) (s_counter_delay a)
      (s_sample_seconds a) write_size (s_target_gbps a) (S754_zero false) (s_reverse a) false).

(** The result of an earlier sweep, when there is one to resume. *)
Definition cached_result (a : SweepArgs) (summary : path) : M W (option json) :=
  if negb (s_resume a) || s_dry_run a then mret None else
  exists_ ← host (sh_is_file summary);
  if negb exists_ then mret None else
  v ← read_json summary;
  engine ← lift (json_get v (lit "engine") (JStr (lit "iperf3")));
  guard_raise (negb (py_eq engine (JStr (engine_name a)))) RuntimeError;;
  mret (Some v).

(** A point of the matrix: its result, but for a dry run. *)
Definition sweep_point (a : SweepArgs) (root : path) (point : str * Z) : M W (option json) :=
  let '(write_size, flows) := point in
  let output_dir := root ++ [_path_component write_size; lit "flows-" ++ pad2 flows] in
  size ← (if s_python a then lift (_size write_size) else mret 0);
  let summary := output_dir ++ [lit "summary.json"] in
  cached ← cached_result a summary;
  (match cached with Some _ => mret 0 | None => run_point a write_size size flows output_dir end);;
  if s_dry_run a then mret None else
  v ← match cached with
      | Some v => if truthy v then mret v else read_json summary
      | None => read_json summary
      end;
  match v with
  | JObj fields =>
      mret (Some (JObj (set_field (lit "output_dir") (JStr (path_text output_dir))
        (set_field (lit "write_size") (JStr write_size)
          (set_field (lit "engine") (JStr (engine_name a)) fields)))))
  | _ => raise TypeError
  end.

Fixpoint sweep_points (a : SweepArgs) (root : path) (points : list (str * Z)) : M W (list json) :=
  match points with
  | [] => mret []
  | p :: points =>
      r ← sweep_point a root p;
      rest ← sweep_points a root points;
      mret (match r with Some r => r :: rest | None => rest end)
  end.

Definition of_size (write_size : str) (r : json) : result bool :=
  v ← getitem r (lit "write_size"); Ok (py_eq v (JStr write_size)).
Definition tuned_for (results : list json) (target : fl) (write_size : str) : result (option json) :=
  l ← filter_result (of_size write_size) results; _tuned_result l target.

(** [all(...)] *)
Fixpoint all_verified (results : list json) : result bool :=
  match results with
  | [] => Ok true
  | r :: results => b ← is_verified r; if (b : bool) then all_verified results else Ok false
  end.

(** [run]: the exit code, and the choice for each write size. *)
Definition sweep_run (a : SweepArgs) : M W (Z * list (option json)) :=
  guard_raise (s_duration a <=? s_counter_delay a + s_sample_seconds a) RuntimeError;;
  root ← match s_output_dir a with
         | Some p => mret p | None => _default_output_dir (lit "sweep") end;
  bh_mkdir root;;
  results ← sweep_points a root (l ← s_lengths a; n ← s_flows a; [(l, n)]);
  if s_dry_run a then mret (0, []) else
  tuned ← lift (mapM_result (tuned_for results (s_target_gbps a)) (s_lengths a));
  bh_write_json (root ++ [lit "sweep.json"]);;
  sh_write_csv (root ++ [lit "sweep.csv"]) results;;
  verified ← lift (all_verified results);
  mret (if verified : bool then 0 else 1, tuned).
End Sweep.

(** * The tensor benchmark *)

(** [bytes(range(251)) * ((1 << 20) // 251)] *)
Definition pattern_block : bytes := mjoin (replicate (Z.to_nat (2 ^ 20 `div` 251)) (seqZ 0 251)).

(** [_fill_pattern] with a block: [None] is a loop still running. *)
Fixpoint fill_loop (fuel : nat) (block : bytes) (position : nat) (view : bytes) : option bytes :=
  match fuel with
  | O => None
  | S fuel =>
      if (position <? length view)%nat then
        let stop := (position + length block) `min` length view in
        fill_loop fuel block stop (splice position (take (stop - position)%nat block) view)
      else Some view
  end%nat.
Definition _fill_pattern (fuel : nat) (view : bytes) : option bytes := fill_loop fuel pattern_block 0 view.

(** [_equal], chunk by chunk. *)
Definition chunk_bytes : nat := Z.to_nat (16 * 2 ^ 20).
Definition _equal (chunk : nat) (left right : bytes) : bool :=
  forallb (λ i, bool_decide (slice (i * chunk) chunk left = slice (i * chunk) chunk right))
    (seq 0 ((length left + chunk - 1) / chunk)).
