(* ===== verification/AllreduceBench.v ===== *)
(** What the all-reduce benchmark computes on its own:
    src/experiments/fault_tolerant_allreduce/benchmark.py.  The parsers of its arguments, the
    edge values of its inputs, and the plan of its reconfigurations: which rank asks for
    which generation with which members.  The reductions themselves are torch's, NCCL's and
    the group's. *)

From S2P Require Import Prelude Bytes Json.
From S2P Require Import Verbs Stream Transport BenchText Handles.
#[local] Open Scope Z_scope.

(** * Arguments *)

Section Arguments.
Context `{!BenchText}.

(** An item of [_parse_sizes]: an empty one has no last character. *)
Definition parse_size (item : str) : result Z :=
  let item := BenchText.lower (strip item) in
  match item with
  | [] => Raise IndexError
  | _ =>
      let m := multiplier true (List.last item 0) in
      n ← str_int (if m =? 1 then item else removelast item);
      Ok (n * m)
  end.
Definition _parse_sizes (value : str) : result (list Z) :=
  sizes ← mapM_result parse_size (split_on 44 value);
  raise_if (bool_decide (sizes = []) || existsb (λ n, n <=? 0) sizes) ArgumentTypeError;;
  Ok sizes.

Definition _DTYPES : list (str * DType) := (λ x, (lit x.1, x.2)) <$>
  [("float16", float16); ("bfloat16", bfloat16); ("float32", float32); ("float64", float64);
   ("float8_e4m3fn", float8_e4m3fn); ("float8_e5m2", float8_e5m2); ("int8", int8);
   ("uint8", uint8); ("int32", int32); ("uint32", uint32); ("int64", int64);
   ("uint64", uint64)]%string.
Definition _parse_dtypes (value : str) : result (list str) :=
  let names := BenchText.lower <$> items value in
  let unknown := filter (λ n, assoc n _DTYPES = None) names in
  raise_if (bool_decide (names = []) || negb (bool_decide (unknown = []))) ArgumentTypeError;;
  Ok names.
End Arguments.

(** * Inputs *)

(** Zeros, infinities, NaNs and subnormals of the floating-point types, as bits. *)
Definition _FLOAT_BITS (d : DType) : option (list Z) :=
  match d with
  | float8_e4m3fn => Some [0x00; 0x80; 0x7E; 0xFE; 0x7F; 0xFF; 0x01; 0x07]
  | float8_e5m2 => Some [0x00; 0x80; 0x7C; 0xFC; 0x7D; 0xFF; 0x01; 0x03]
  | float16 => Some [0x0000; 0x8000; 0x7C00; 0xFC00; 0x7E01; 0x7FFF; 0x0001; 0x03FF]
  | bfloat16 => Some [0x0000; 0x8000; 0x7F80; 0xFF80; 0x7FC1; 0x7FFF; 0x0001; 0x007F]
  | float32 => Some [0x00000000; 0x80000000; 0x7F800000; 0xFF800000; 0x7FC00001; 0x7FFFFFFF;
                     0x00000001; 0x007FFFFF]
  | float64 => Some [0x0000000000000000; 0x8000000000000000; 0x7FF0000000000000;
                     0xFFF0000000000000; 0x7FF8000000000001; 0x7FFFFFFFFFFFFFFF;
                     0x0000000000000001; 0x000FFFFFFFFFFFFF]
  | _ => None
  end.

(** [torch.iinfo] *)
Definition iinfo (d : DType) : Z * Z :=
  let bits := 8 * widths d in
  match d with
  | uint8 | uint32 | uint64 => (0, 2 ^ bits - 1)
  | _ => (- 2 ^ (bits - 1), 2 ^ (bits - 1) - 1)
  end.

(** [l[-shift:] + l[:-shift] if shift else l] with [shift = rank % len(l)] *)
Definition rotate (rank : Z) (l : list Z) : list Z :=
  let shift := Z.to_nat (rank mod Z.of_nat (length l)) in
  drop (length l - shift) l ++ take (length l - shift) l.

(** The edge values in the order of a rank: bits of a floating-point type, or values of an
    integer type. *)
Definition edge_values (d : DType) (rank : Z) : list Z :=
  match _FLOAT_BITS d with
  | Some bits => rotate rank bits
  | None =>
      let '(low, high) := iinfo d in
      rotate rank ([low; high; 0; 1] ++ (if low <? 0 then [-1] else []))
  end.
(** [result[:length] = edge[:length]] *)
Definition with_edges (random edge : list Z) : list Z :=
  let length := (length random `min` length edge)%nat in take length edge ++ drop length random.

(** * The plan of reconfigurations *)

Record AllreduceArgs := mk_AllreduceArgs {
  r_uuid : Z;
  r_reconfigure_count : Z;
  r_timeout_smoke_test : bool;
  r_shrink_smoke_test : bool;
}.

(** A reconfiguration: its uuid, and the ranks whose handles it is given. *)
Record Generation := mk_Generation { gn_uuid : Z; gn_members : list Z }.

Section Plan.
Context (a : AllreduceArgs) (world : Z).

Definition all_ranks : list Z := seqZ 0 world.
Definition survivors : list Z := seqZ 0 (world - 1).
Definition excluded_rank : Z := world `div` 2.
Definition middle_survivors : list Z := filter (λ r, r ≠ excluded_rank) all_ranks.

Definition initial_plan : list Generation :=
  (λ g, mk_Generation (r_uuid a + g) all_ranks) <$> seqZ 0 (r_reconfigure_count a).
Definition timeout_plan : list Generation :=
  if r_timeout_smoke_test a then [mk_Generation (r_uuid a + r_reconfigure_count a) all_ranks] else [].

(** Shrink by the last rank, merge, recover from an abort, drop the middle rank, merge,
    split into rings of one rank, and merge. *)
Definition generation : Z :=
  r_uuid a + r_reconfigure_count a + bool_int (r_timeout_smoke_test a) + 1.
Definition shrink_plan (rank : Z) : list Generation :=
  (if rank <? world - 1 then [mk_Generation (generation - 1) survivors] else []) ++
  [mk_Generation generation all_ranks; mk_Generation (generation + 1) all_ranks] ++
  (if negb (rank =? excluded_rank) then [mk_Generation (generation + 2) middle_survivors] else []) ++
  [mk_Generation (generation + 3) all_ranks; mk_Generation (generation + 4 + rank) [rank];
   mk_Generation (generation + 4 + world) all_ranks].

(** The reconfigurations of a rank, in order: ValueError for a shrink test of two ranks. *)
Definition plan (rank : Z) : result (list Generation) :=
  if r_shrink_smoke_test a then
    raise_if (world <? 3) ValueError;;
    Ok (initial_plan ++ timeout_plan ++ shrink_plan rank)
  else Ok (initial_plan ++ timeout_plan).
End Plan.

(** The check of [main]. *)
Definition args_ok (qps : option Z) (sms queue_depth reconfigure_count precondition_iterations : Z)
    (timeout_smoke_positive : bool) : bool :=
  negb (match qps with Some q => q <=? 0 | None => false end || (sms <=? 0) || (queue_depth <=? 0) ||
        (reconfigure_count <=? 0) || (precondition_iterations <? 0) || negb timeout_smoke_positive).

(** * Theorems *)

(** An increasing function along a range. *)
Lemma seqZ_fmap_sorted (f : Z → Z) m n :
  (∀ x y, x < y → f x < f y) → StronglySorted Z.lt (f <$> seqZ m n).
Proof.
  intros Hf. unfold seqZ. rewrite <-list_fmap_compose. generalize 0%nat as j.
  induction (Z.to_nat n) as [|k IH]; intros j; cbn; [constructor|]. constructor; [apply IH|].
  apply Forall_fmap, Forall_seq. intros i Hi. apply Hf. unfold compose. lia.
Qed.

Section PlanTheorems.
Context (a : AllreduceArgs) (world : Z).

Context (Hcount : 0 < r_reconfigure_count a).

(** The first generations are all of one kind. *)
Lemma early_plan : initial_plan a world ++ timeout_plan a world =
  (λ k, mk_Generation (r_uuid a + k) (all_ranks world)) <$> seqZ 0 (generation a - 1 - r_uuid a).
Proof using Hcount.
  unfold initial_plan, timeout_plan, generation. destruct (r_timeout_smoke_test a); cbn [bool_int].
  - replace (_ - 1 - r_uuid a) with (r_reconfigure_count a + 1) by lia.
    rewrite (seqZ_app 0 (r_reconfigure_count a) 1), fmap_app by lia. done.
  - rewrite app_nil_r. do 2 f_equal. lia.
Qed.

(** Which generations a rank asks for. *)
Definition early (g : Generation) : Prop :=
  gn_members g = all_ranks world ∧ r_uuid a ≤ gn_uuid g < generation a - 1.
Definition late (rank : Z) (g : Generation) : Prop :=
  rank < world - 1 ∧ g = mk_Generation (generation a - 1) (survivors world) ∨
  g = mk_Generation (generation a) (all_ranks world) ∨
  g = mk_Generation (generation a + 1) (all_ranks world) ∨
  rank ≠ excluded_rank world ∧ g = mk_Generation (generation a + 2) (middle_survivors world) ∨
  g = mk_Generation (generation a + 3) (all_ranks world) ∨
  g = mk_Generation (generation a + 4 + rank) [rank] ∨
  g = mk_Generation (generation a + 4 + world) (all_ranks world).

Lemma in_early g : g ∈ initial_plan a world ++ timeout_plan a world ↔ early g.
Proof using Hcount.
  rewrite early_plan, list_elem_of_fmap. unfold early. split.
  - intros (k & -> & Hk%elem_of_seqZ). cbn. split; [done|lia].
  - intros [Hm Hu]. exists (gn_uuid g - r_uuid a). split; [|apply elem_of_seqZ; lia].
    destruct g as [u m]. cbn in *. f_equal; [lia|done].
Qed.

Lemma in_late rank g : g ∈ shrink_plan a world rank ↔ late rank g.
Proof using.
  unfold shrink_plan, late. rewrite !elem_of_app, !elem_of_cons, elem_of_nil.
  destruct (Z.ltb_spec rank (world - 1)), (Z.eqb_spec rank (excluded_rank world)); cbn [negb];
    rewrite ?list_elem_of_singleton, ?elem_of_nil; intuition lia.
Qed.

Lemma plan_cases rank l :
  plan a world rank = Ok l →
  (∀ g, g ∈ l ↔ early g ∨ r_shrink_smoke_test a = true ∧ late rank g) ∧
  (r_shrink_smoke_test a = true → 3 ≤ world).
Proof using Hcount.
  unfold plan. destruct (r_shrink_smoke_test a).
  - destruct (Z.ltb_spec world 3); [done|]. intros [= <-]. split; [|done]. intros g.
    rewrite (app_assoc (initial_plan a world)), elem_of_app, in_early, in_late. tauto.
  - intros [= <-]. split; [|done]. intros g. rewrite in_early. intuition done.
Qed.

(** Every rank has a plan when one has. *)
Lemma plan_total rank rank' l : plan a world rank = Ok l → ∃ l', plan a world rank' = Ok l'.
Proof using.
  unfold plan. destruct (r_shrink_smoke_test a); [|by eauto].
  destruct (world <? 3); [done|]. by eauto.
Qed.

(** A generation names the ranks that take part, and each of them asks for it. *)
Theorem plan_complete rank l g :
  0 ≤ rank < world → plan a world rank = Ok l → g ∈ l →
  rank ∈ gn_members g ∧
  ∀ member, member ∈ gn_members g → 0 ≤ member < world ∧
    ∃ l', plan a world member = Ok l' ∧ g ∈ l'.
Proof using Hcount.
  intros Hr Hl Hg. pose proof (plan_cases _ _ Hl) as [Hin Hw]. apply Hin in Hg.
  assert (rank ∈ gn_members g ∧ ∀ member, member ∈ gn_members g → 0 ≤ member < world ∧
    (early g ∨ r_shrink_smoke_test a = true ∧ late member g)) as [H1 H2].
  { unfold survivors, middle_survivors, all_ranks in *. destruct Hg as [Hg|[Hs Hg]].
    - pose proof Hg as [Hm _]. rewrite Hm. unfold all_ranks. setoid_rewrite elem_of_seqZ. eauto with lia.
    - destruct Hg as [[Hlt ->]|[->|[->|[[Hx ->]|[->|[->| ->]]]]]]; cbn [gn_members];
        unfold survivors, middle_survivors, all_ranks, late;
        setoid_rewrite list_elem_of_filter || setoid_rewrite list_elem_of_singleton || idtac;
        try setoid_rewrite elem_of_seqZ;
        (split; [first [lia|done|split; [done|lia]]|]); intros m Hm;
        (split; [lia|]); right; (split; [done|]); intuition (try subst; auto; try lia). }
  split; [done|]. intros m Hm. destruct (H2 m Hm) as [Hm' Hg']. split; [done|].
  destruct (plan_total rank m l Hl) as [l' Hl']. exists l'. split; [done|].
  by apply (plan_cases _ _ Hl').
Qed.

(** Two generations with one uuid are one: no rank meets another ring. *)
Theorem plan_agrees rank rank' l l' g g' :
  0 ≤ rank < world → 0 ≤ rank' < world →
  plan a world rank = Ok l → plan a world rank' = Ok l' → g ∈ l → g' ∈ l' →
  gn_uuid g = gn_uuid g' → g = g'.
Proof using Hcount.
  intros Hr Hr' Hl Hl' Hg Hg' Hu. apply (plan_cases _ _ Hl) in Hg. apply (plan_cases _ _ Hl') in Hg'.
  unfold early, late in *. destruct g as [u m], g' as [u' m']. cbn in *. subst u'.
  destruct Hg as [[-> Hb]|[_ Hg]], Hg' as [[-> Hb']|[_ Hg']]; [done|..];
    repeat match goal with H : _ ∨ _ |- _ => destruct H | H : _ ∧ _ |- _ => destruct H end;
    repeat match goal with H : mk_Generation _ _ = mk_Generation _ _ |- _ => injection H as ? ? end;
    first [exfalso; lia | subst; f_equal; f_equal; lia | congruence].
Qed.

Lemma shrink_sorted rank :
  0 ≤ rank < world → StronglySorted Z.lt (gn_uuid <$> shrink_plan a world rank).
Proof using.
  intros Hr. unfold shrink_plan. destruct (rank <? world - 1), (rank =? excluded_rank world); cbn;
    repeat constructor; lia.
Qed.

(** The uuids of a rank increase: none is used twice. *)
Theorem plan_increases rank l :
  0 ≤ rank < world → plan a world rank = Ok l → StronglySorted Z.lt (gn_uuid <$> l).
Proof using Hcount.
  intros Hr Hl.
  assert (StronglySorted Z.lt (gn_uuid <$> (initial_plan a world ++ timeout_plan a world))) as Hearly.
  { rewrite early_plan, <-list_fmap_compose. apply seqZ_fmap_sorted. cbn. lia. }
  unfold plan in Hl. destruct (r_shrink_smoke_test a); [|by injection Hl as <-].
  destruct (world <? 3); [done|]. injection Hl as <-. rewrite app_assoc, fmap_app.
  apply StronglySorted_app_2; [|done|by apply shrink_sorted].
  intros x y (g & -> & Hg%in_early)%list_elem_of_fmap (g' & -> & Hg'%in_late)%list_elem_of_fmap.
  unfold early, late in *.
  repeat match goal with H : _ ∨ _ |- _ => destruct H | H : _ ∧ _ |- _ => destruct H end; subst g'; cbn; lia.
Qed.
End PlanTheorems.

(** * Inputs *)

(** Element [i] of the values of rank [r] is value [i - r]: over as many ranks as there are
    values, every position has every value. *)
Theorem rotate_lookup rank l i :
  0 ≤ i < Z.of_nat (length l) →
  rotate rank l !! Z.to_nat i = l !! Z.to_nat ((i - rank) mod Z.of_nat (length l)).
Proof.
  intros Hi. set (n := Z.of_nat (length l)) in *. unfold rotate. fold n.
  pose proof (Z.mod_pos_bound rank n ltac:(lia)) as Hr. set (shift := rank mod n) in *.
  replace ((i - rank) mod n) with (if i <? shift then n - shift + i else i - shift).
  2: { unfold shift. rewrite <-Zminus_mod_idemp_r. fold shift. destruct (Z.ltb_spec i shift).
       - rewrite <-(Z.mod_add _ 1) by lia. rewrite Z.mod_small; lia.
       - rewrite Z.mod_small; lia. }
  destruct (Z.ltb_spec i shift).
  - rewrite lookup_app_l by (rewrite length_drop; lia). rewrite lookup_drop. f_equal. lia.
  - rewrite lookup_app_r by (rewrite length_drop; lia). rewrite length_drop, lookup_take_lt by lia. f_equal. lia.
Qed.
