(* ===== verification/BenchTheorems.v ===== *)
(** What the TCP benchmarks promise: whatever fails, they leave no process behind and
    restore the CPU affinity; flows share no CPU while there are enough; the lists of CPUs
    that the kernel prints are read back; the echo server returns what it was sent. *)

From Stdlib Require Import SpecFloat.
From S2P Require Import Prelude Bytes Json.
From S2P Require Import Verbs Stream Transport TransportTheorems.
From S2P Require Import BenchText Bench BenchWorkers.
#[local] Open Scope Z_scope.

(** * Processes *)

(** [running] are the processes that a benchmark started and that neither ended nor were
    killed.  Only [bh_popen] adds one; a process whose status was seen has ended. *)
Class ProcLaws (W : Type) `{!BenchHost W} := {
  running : W → gset nat;
  law_popen c cpu p w :
    running (bh_popen c cpu p w).2 ⊆
      match (bh_popen c cpu p w).1 with Ok q => {[q]} ∪ running w | Raise _ => running w end;
  law_poll p w : running (bh_poll p w).2 ⊆
    match (bh_poll p w).1 with Some _ => running w ∖ {[p]} | None => running w end;
  law_wait p w : running (bh_wait p w).2 ⊆
    match (bh_wait p w).1 with Ok _ => running w ∖ {[p]} | Raise _ => running w end;
  law_wait_for p n w : running (bh_wait_for p n w).2 ⊆
    match (bh_wait_for p n w).1 with Some _ => running w ∖ {[p]} | None => running w end;
  law_kill p w : running (bh_kill p w) ⊆ running w ∖ {[p]};
  law_terminate p w : running (bh_terminate p w) ⊆ running w;
  law_run c w : running (bh_run c w).2 ⊆ running w;
  law_read_text p w : running (bh_read_text p w).2 ⊆ running w;
  law_write_json p w : running (bh_write_json p w).2 ⊆ running w;
  law_mkdir p w : running (bh_mkdir p w).2 ⊆ running w;
  law_which p w : running (bh_which p w).2 ⊆ running w;
  law_getaffinity w : running (bh_getaffinity w).2 ⊆ running w;
  law_setaffinity l w : running (bh_setaffinity l w).2 ⊆ running w;
  law_sleep n w : running (bh_sleep n w).2 ⊆ running w;
  law_ns w : running (bh_ns w).2 ⊆ running w;
  law_stamp w : running (bh_stamp w).2 ⊆ running w;
}.

Section Processes.
Context `{!BenchText} {W : Type} `{!BenchHost W} `{!ProcLaws W}.
Implicit Types (w : W) (R : gset nat).

(** No process more than before. *)
Definition fewer : relation W := λ w w', running w' ⊆ running w.
#[export] Instance fewer_preorder : PreOrder fewer.
Proof using. split; [intros w; unfold fewer; done|]. intros w1 w2 w3 H1 H2. unfold fewer in *. set_solver. Qed.

Lemma along_host {A} (f : W → A * W) : (∀ w, running (f w).2 ⊆ running w) → along fewer (host f).
Proof using. intros Hf w. unfold host. specialize (Hf w). by destruct (f w). Qed.
Lemma along_op {A} (m : M W A) : (∀ w, running (m w).2 ⊆ running w) → along fewer m.
Proof using. done. Qed.

(** The states that run at most [R]. *)
Definition at_most R w : Prop := running w ⊆ R.

Lemma wp_fewer {A} (m : M W A) R w :
  along fewer m → at_most R w → wp m (λ _, at_most R) (λ _, at_most R) w.
Proof using. intros Hm Hw. eapply wp_mono; [by apply wp_along|..]; intros ? ? Hr; unfold at_most, fewer in *; set_solver. Qed.

(** ** Stopping *)

Lemma wp_terminate_one p R w E :
  at_most R w → wp (terminate_one p) (λ _, at_most R) E w.
Proof using.
  intros Hw. unfold terminate_one, wp, mbind, M_bind, host. pose proof (law_poll p w) as Hp.
  destruct (bh_poll p w) as [[c|] w1]; cbn in *; unfold at_most in *; [set_solver|].
  pose proof (law_terminate p w1). set_solver.
Qed.

Lemma wp_reap_one p R w E :
  at_most R w → wp (reap_one p) (λ _, at_most (R ∖ {[p]})) E w.
Proof using.
  intros Hw. unfold reap_one, wp, mbind, M_bind, host. pose proof (law_poll p w) as Hp.
  destruct (bh_poll p w) as [[c|] w1]; cbn in *; unfold at_most in *; [set_solver|].
  pose proof (law_wait_for p 2 w1) as Hf.
  destruct (bh_wait_for p 2 w1) as [[c|] w2]; cbn in *; [set_solver|].
  pose proof (law_kill p w2). set_solver.
Qed.

(** Stopping raises nothing and leaves none of the processes running. *)
Lemma wp_stop l R w E :
  at_most (list_to_set l ∪ R) w → wp (_stop_processes l) (λ _, at_most R) E w.
Proof using.
  intros Hw. unfold _stop_processes. apply wp_bind.
  eapply wp_mono; [apply (wp_for_each _ _ (λ _, at_most (list_to_set l ∪ R)) E); [done|]| |done].
  { intros x l' s Hs. by apply wp_terminate_one. }
  cbn. intros _ w' Hw'.
  eapply wp_mono; [apply (wp_for_each _ l (λ l', at_most (list_to_set l' ∪ R)) E); [done|]| |done].
  - intros x l' s Hs. eapply wp_mono; [by apply wp_reap_one| |done]. cbn.
    unfold at_most. set_solver.
  - unfold at_most. set_solver.
Qed.

Lemma wp_stop_and_raise {A} l R w e (Q : A → W → Prop) :
  at_most (list_to_set l ∪ R) w → wp (stop_and_raise l e) Q (λ _, at_most R) w.
Proof using.
  intros Hw. apply wp_bind. eapply wp_mono; [by apply (wp_stop l R _ (λ _, at_most R))| |done].
  intros ? w' Hw'. by apply wp_raise.
Qed.

(** ** Starting and waiting *)

Lemma wp_launch_loop pairs l R w :
  at_most (list_to_set l ∪ R) w →
  wp (launch_loop pairs l)
    (λ l', λ w', at_most (list_to_set l' ∪ R) w' ∧ length l' = (length l + length pairs)%nat)
    (λ _, at_most R) w.
Proof using.
  revert l w. induction pairs as [|[s p] pairs IH]; intros l w Hw.
  { apply wp_ret. split; [done|]. cbn. lia. }
  cbn [launch_loop]. apply wp_bind, wp_try_except. unfold wp at 1.
  pose proof (law_popen (ps_command s) (ps_cpu s) p w) as Hp.
  destruct (bh_popen (ps_command s) (ps_cpu s) p w) as [[q|e] w']; cbn in Hp.
  - eapply wp_mono; [apply IH|..]; [|cbn|done].
    + unfold at_most in *. rewrite list_to_set_app. set_solver.
    + intros l' w'' [Hr ->]. split; [done|]. rewrite length_app. cbn. lia.
  - apply wp_stop_and_raise. unfold at_most in *. set_solver.
Qed.

Lemma wp_launch specs paths R w :
  at_most R w →
  wp (_launch_processes specs paths)
    (λ l, λ w', at_most (list_to_set l ∪ R) w' ∧ length l = (length specs `min` length paths)%nat)
    (λ _, at_most R) w.
Proof using.
  intros Hw. eapply wp_mono; [apply (wp_launch_loop _ [] R)|..]; [|cbn|done].
  - unfold at_most in *. set_solver.
  - intros l w' [Hr ->]. split; [done|]. by rewrite length_zip_with.
Qed.

Lemma wp_wait_loop l R f w :
  at_most (list_to_set l ∪ R) w →
  wp (wait_loop l f) (λ _, at_most R) (λ _, at_most (list_to_set l ∪ R)) w.
Proof using.
  revert f w. induction l as [|p l IH]; intros f w Hw.
  { apply wp_ret. unfold at_most in *. set_solver. }
  cbn [wait_loop]. apply wp_bind. unfold wp at 1. pose proof (law_wait p w) as Hp.
  destruct (bh_wait p w) as [[c|e] w']; cbn in Hp; [|unfold at_most in *; set_solver].
  eapply wp_mono; [apply IH|by intros|]; [unfold at_most in *; set_solver|].
  intros e w'' Hr. unfold at_most in *. set_solver.
Qed.

Lemma wp_wait_processes specs paths l R w :
  length l = (length specs `min` length paths)%nat → at_most (list_to_set l ∪ R) w →
  wp (_wait_processes specs l paths) (λ _, at_most R) (λ _, at_most (list_to_set l ∪ R)) w.
Proof using.
  intros Hl Hw. unfold _wait_processes. rewrite <-Hl, firstn_all. apply wp_bind.
  eapply wp_mono; [by apply wp_wait_loop| |done]. intros f w' Hw'. apply wp_guard_raise.
  destruct f; [|done]. unfold at_most in *. set_solver.
Qed.

(** A state relation from what is at most running. *)
Lemma fewer_wp {A} (m : M W A) :
  (∀ R w, at_most R w → wp m (λ _, at_most R) (λ _, at_most R) w) → along fewer m.
Proof using.
  intros Hm w. specialize (Hm (running w) w (reflexivity _)). unfold wp in Hm. unfold fewer.
  by destruct (m w) as [[a|e] w'].
Qed.
End Processes.

(** * What runs after a driver

    Every driver leaves at most the processes that ran before it, whether it returns or
    raises. *)

(** The socket calls of the latency client start no process. *)
Class SocketsApart (W : Type) `{!BenchHost W} `{!ProcLaws W} `{!FlowDevice W} `{!SockRecv Sock W} := {
  apart_socket f w : running (fd_socket f w).2 ⊆ running w;
  apart_close s w : running (fd_close s w) ⊆ running w;
  apart_setsockopt s o v w : running (fd_setsockopt s o v w).2 ⊆ running w;
  apart_bind s a w : running (fd_bind s a w).2 ⊆ running w;
  apart_connect s a w : running (fd_connect s a w).2 ⊆ running w;
  apart_sendall s b w : running (fd_sendall s b w).2 ⊆ running w;
  apart_recv s n w : running (sock_recv s n w).2 ⊆ running w;
  apart_perf w : running (fd_perf_counter_ns w).2 ⊆ running w;
}.

(** A relation that every call keeps which starts and stops no process. *)
Class HostRel {W} `{!BenchHost W} (R : relation W) := {
  ho_preorder :: PreOrder R;
  ho_run c : along R (bh_run c);
  ho_read_text p : along R (bh_read_text p);
  ho_write_json p : along R (bh_write_json p);
  ho_mkdir p : along R (bh_mkdir p);
  ho_which s : along R (host (bh_which s));
  ho_getaffinity : along R (host bh_getaffinity);
  ho_setaffinity l : along R (bh_setaffinity l);
  ho_sleep n : along R (bh_sleep n);
  ho_ns : along R (host bh_ns);
  ho_stamp : along R (host bh_stamp);
  ho_poll p : along R (host (bh_poll p));
  ho_wait_for p n : along R (host (bh_wait_for p n));
}.

#[export] Instance fewer_host {W} `{!BenchHost W} `{!ProcLaws W} : HostRel fewer.
Proof.
  constructor; try apply _; intros;
    try (apply along_op; first [apply law_run | apply law_read_text | apply law_write_json
      | apply law_mkdir | apply law_setaffinity | apply law_sleep]);
    apply along_host; try first [apply law_which | apply law_getaffinity | apply law_ns | apply law_stamp].
  - intros w. pose proof (law_poll p w) as Hp. destruct (bh_poll p w) as [[c|] w']; cbn in *; set_solver.
  - intros w. pose proof (law_wait_for p n w) as Hp.
    destruct (bh_wait_for p n w) as [[c|] w']; cbn in *; set_solver.
Qed.

Create HintDb hosted discriminated.
#[export] Hint Resolve ho_run ho_read_text ho_write_json ho_mkdir ho_which ho_getaffinity
  ho_setaffinity ho_sleep ho_ns ho_stamp ho_poll ho_wait_for : hosted.

(** Break a driver into its calls. *)
Ltac host_step :=
  match goal with
  | |- along _ (let '(_, _) := ?p in _) => destruct p
  | |- along _ (_ ≫= _) => apply along_bind; [apply _|..]
  | |- along _ (try_except _ _) => apply along_try; [apply _|..]
  | |- along _ (try_finally _ _) => apply along_finally; [apply _|..]
  | |- along _ (for_each _ _) => apply along_for_each; [apply _|..]
  | |- along _ (mret _) => apply along_ret, _
  | |- along _ (raise _) => apply along_raise, _
  | |- along _ (lift _) => apply along_lift, _
  | |- along _ (guard_raise _ _) => apply along_guard, _
  | |- _ => solve [auto 3 with hosted nocore typeclass_instances]
  | |- along _ _ => case_match
  end.
Ltac hosted := repeat (intros; host_step).

Section Drivers.
Context `{!BenchText} {W : Type} `{!BenchHost W} (R : relation W) `{!HostRel R}.

Lemma run_json_along c : along R (_run_json c).
Proof using HostRel0. unfold _run_json. hosted. Qed.
Lemma read_optional_along p : along R (_read_optional p).
Proof using HostRel0. unfold _read_optional. hosted. Qed.
#[local] Hint Resolve run_json_along read_optional_along : hosted.

Lemma endpoint_of_along i r : along R (endpoint_of i r).
Proof using HostRel0.
  unfold endpoint_of, _interface_ip_addresses, _check_carrier, _interface_speed, _interface_numa_node.
  hosted.
Qed.
#[local] Hint Resolve endpoint_of_along : hosted.
Lemma endpoints_of_along l : along R (endpoints_of l).
Proof using HostRel0. induction l as [|[i r] l IH]; cbn [endpoints_of]; hosted; done. Qed.
#[local] Hint Resolve endpoints_of_along : hosted.
Lemma endpoints_along i r : along R (_endpoints i r).
Proof using HostRel0. unfold _endpoints. hosted. Qed.

Lemma cpu_pool_along e : along R (_cpu_pool e).
Proof using HostRel0. unfold _cpu_pool. hosted. Qed.
#[local] Hint Resolve cpu_pool_along : hosted.
Lemma cpu_pools_along l m : along R (cpu_pools l m).
Proof using HostRel0. revert m. induction l as [|e l IH]; intros m; cbn [cpu_pools]; hosted; done. Qed.
#[local] Hint Resolve cpu_pools_along : hosted.
Lemma allocate_cpus_along l n b : along R (_allocate_cpus l n b).
Proof using HostRel0. unfold _allocate_cpus. hosted. Qed.

Lemma process_paths_along l p : along R (_process_paths l p).
Proof using HostRel0. unfold _process_paths. hosted. Qed.
Lemma validate_common_along a : along R (_validate_common a).
Proof using HostRel0. unfold _validate_common, _check_iperf3. hosted. Qed.
Lemma output_dir_along a r : along R (output_dir_of a r).
Proof using HostRel0. unfold output_dir_of, _default_output_dir. hosted. Qed.
Lemma check_routes_along l s : along R (_check_routes l s).
Proof using HostRel0. unfold _check_routes, _check_route. hosted. Qed.
Lemma link_counters_along i d : along R (_link_counters i d).
Proof using HostRel0. unfold _link_counters. hosted. Qed.
#[local] Hint Resolve link_counters_along : hosted.
Lemma sample_along t r n : along R (sample t r n).
Proof using HostRel0. unfold sample. hosted. Qed.
Lemma alive_all_along l : along R (alive_all l).
Proof using HostRel0. unfold alive_all. hosted. Qed.
Lemma flow_results_along l : along R (flow_results l).
Proof using HostRel0.
  induction l as [|[s p] l IH]; cbn [flow_results]; unfold _load_document; hosted; done.
Qed.
Lemma write_metadata_along p : along R (_write_metadata p).
Proof using HostRel0. unfold _write_metadata. hosted. Qed.
End Drivers.

#[export] Hint Resolve run_json_along read_optional_along endpoints_along allocate_cpus_along
  process_paths_along validate_common_along output_dir_along check_routes_along
  link_counters_along sample_along alive_all_along flow_results_along write_metadata_along : hosted.

Section Runs.
Context `{!BenchText} {W : Type} `{!BenchHost W} `{!ProcLaws W}.
Implicit Types (w : W) (R : gset nat).

(** A part of a run: what it leaves of its own processes when it returns and raises. *)
Lemma wp_few {A} (m : M W A) (Q : A → W → Prop) (E : exn → W → Prop) R w :
  along fewer m → at_most R w → (∀ a w', at_most R w' → Q a w') → (∀ e w', at_most R w' → E e w') →
  wp m Q E w.
Proof using. intros Hm Hw HQ HE. eapply wp_mono; [by apply (wp_fewer m R)|..]; intros; eauto. Qed.

Lemma at_most_more R R' w : at_most R w → at_most (R' ∪ R) w.
Proof using. unfold at_most. set_solver. Qed.

Lemma run_processes_fewer specs dir dry : along fewer (_run_processes specs dir dry).
Proof using.
  apply fewer_wp. intros R w Hw. unfold _run_processes. apply wp_bind.
  eapply (wp_few _ _ _ R); [hosted|done| |done]. intros paths w1 H1. destruct dry; [by apply wp_ret|].
  apply wp_bind. eapply wp_mono; [by apply (wp_launch _ _ R)| |done]. cbn.
  intros l w2 [H2 Hl]. apply wp_bind, wp_try_except.
  eapply wp_mono; [by apply (wp_wait_processes _ _ _ R)|by intros|]. cbn.
  intros e w3 H3. by apply wp_stop_and_raise.
Qed.

Lemma wp_start_clients r servers R w :
  at_most (list_to_set servers ∪ R) w →
  wp (start_clients r servers)
    (λ l w', at_most (list_to_set l ∪ (list_to_set servers ∪ R)) w' ∧
       length l = (length (rn_clients r) `min` length (rn_client_paths r))%nat)
    (λ _, at_most (list_to_set servers ∪ R)) w.
Proof using.
  intros Hw. unfold start_clients. set (S := list_to_set servers ∪ R) in *. apply wp_bind.
  eapply (wp_few _ _ _ S); [hosted|done| |done]. intros _ w1 H1. apply wp_bind.
  eapply (wp_few _ _ _ S); [hosted|done| |done]. intros _ w2 H2. by apply wp_launch.
Qed.

Lemma wp_observe r servers clients R w :
  length servers = (length (rn_servers r) `min` length (rn_server_paths r))%nat →
  length clients = (length (rn_clients r) `min` length (rn_client_paths r))%nat →
  at_most (list_to_set clients ∪ (list_to_set servers ∪ R)) w →
  wp (observe r servers clients) (λ _, at_most R)
    (λ _, at_most (list_to_set clients ∪ (list_to_set servers ∪ R))) w.
Proof using.
  intros Hs Hc Hw. unfold observe. set (S := _ ∪ _) in *. apply wp_bind.
  eapply (wp_few _ _ _ S); [hosted|done| |done]. intros _ w1 H1. apply wp_bind.
  eapply (wp_few _ _ _ S); [hosted|done| |done]. intros _ w2 H2. apply wp_bind.
  eapply (wp_few _ _ _ S); [hosted|done| |done]. intros samples w3 H3. apply wp_bind.
  eapply wp_mono; [by apply wp_wait_processes| |done]. cbn. intros _ w4 H4. apply wp_bind.
  eapply wp_mono; [by apply wp_wait_processes|by intros|]. cbn. intros e w5 H5.
  by apply at_most_more.
Qed.

Lemma measured_run_fewer r : along fewer (measured_run r).
Proof using.
  apply fewer_wp. intros R w Hw. unfold measured_run. apply wp_bind.
  eapply wp_mono; [by apply (wp_launch _ _ R)| |done]. cbn. intros servers w1 [H1 Hs].
  apply wp_bind, wp_try_except. eapply wp_mono; [by apply wp_start_clients|..]; cbn.
  - intros clients w2 [H2 Hc]. apply wp_try_except. eapply wp_mono; [by apply wp_observe|by intros|].
    cbn. intros e w3 H3. apply wp_bind.
    eapply wp_mono; [by apply (wp_stop clients (list_to_set servers ∪ R) w3 (λ _, at_most R))| |done].
    intros ? w4 H4.
    by apply wp_stop_and_raise.
  - intros e w2 H2. by apply wp_stop_and_raise.
Qed.
End Runs.

#[export] Hint Resolve run_processes_fewer measured_run_fewer : hosted.

Section Workers.
Context `{!BenchText} {W : Type} `{!BenchHost W} `{!ProcLaws W} `{!FlowDevice W} `{!SockRecv Sock W}
  `{!SocketsApart W}.

Ltac socket_step :=
  match goal with
  | |- along fewer (fd_socket _) => apply along_op, apart_socket
  | |- along fewer (fd_setsockopt _ _ _) => apply along_op, apart_setsockopt
  | |- along fewer (fd_bind _ _) => apply along_op, apart_bind
  | |- along fewer (fd_connect _ _) => apply along_op, apart_connect
  | |- along fewer (fd_sendall _ _) => apply along_op, apart_sendall
  | |- along fewer (sock_recv _ _) => apply along_op, apart_recv
  | |- along fewer (tell (fd_close _)) => intros ?; apply apart_close
  | |- along fewer perf_counter_ns =>
      intros ?w; unfold perf_counter_ns; pose proof (apart_perf w);
      by destruct (fd_perf_counter_ns w)
  end.
Ltac sockets_few := repeat (intros; first [socket_step | host_step]).

Lemma receive_message_fewer f s n b r : along fewer (receive_message f s n b r).
Proof using SocketsApart0. revert r. induction f as [|f IH]; intros r; cbn [receive_message]; sockets_few; done. Qed.
#[local] Hint Resolve receive_message_fewer : hosted.
Lemma round_trip_fewer s p : along fewer (_round_trip s p).
Proof using SocketsApart0. unfold _round_trip, _receive. sockets_few. Qed.
#[local] Hint Resolve round_trip_fewer : hosted.
Lemma time_trips_fewer n s p : along fewer (time_trips n s p).
Proof using SocketsApart0. induction n as [|n IH]; cbn [time_trips]; sockets_few; done. Qed.
#[local] Hint Resolve time_trips_fewer : hosted.
Lemma measure_connection_fewer a s r n c : along fewer (measure_connection a s r n c).
Proof using SocketsApart0. unfold measure_connection, four. sockets_few. Qed.
#[local] Hint Resolve measure_connection_fewer : hosted.
Lemma open_client_fewer {A} i l s p (body : Sock → M W A) :
  (∀ c, along fewer (body c)) → along fewer (open_client i l s p body).
Proof using SocketsApart0. intros Hb. unfold open_client, with_socket, _bind_device. sockets_few. Qed.

(** The server of one size ends with its measurement, or is stopped. *)
Lemma wp_measure_server a s r n p server R w :
  at_most ({[server]} ∪ R) w →
  wp (measure_server a s r n p server) (λ _, at_most R) (λ _, at_most ({[server]} ∪ R)) w.
Proof using SocketsApart0.
  intros Hw. unfold measure_server. apply wp_bind.
  eapply (wp_few _ _ _ ({[server]} ∪ R)); [hosted|done| |done]. intros _ w1 H1. apply wp_bind.
  eapply (wp_few _ _ _ ({[server]} ∪ R)); [hosted|done| |done]. intros [c|] w2 H2; [by apply wp_raise|].
  apply wp_bind. eapply (wp_few _ _ _ ({[server]} ∪ R)); [apply open_client_fewer; intros; hosted|done| |done].
  intros m w3 H3. apply wp_bind. unfold wp, host. pose proof (law_wait_for server 5 w3) as Hf.
  destruct (bh_wait_for server 5 w3) as [[code|] w4]; cbn in Hf |- *; [|unfold at_most in *; set_solver].
  unfold mbind, M_bind. destruct (negb (code =? 0)); cbn; unfold at_most in *; set_solver.
Qed.

Lemma measure_size_fewer a s r n p c root : along fewer (_measure_size a s r n p c root).
Proof using SocketsApart0.
  apply fewer_wp. intros R w Hw. unfold _measure_size. apply wp_bind, wp_lift.
  destruct (dict_at _ _) as [l|]; [|done]. apply wp_bind, wp_lift. destruct (list_at _ _) as [cpu|]; [|done].
  destruct (l_dry_run a); [by apply wp_ret|]. apply wp_bind.
  match goal with |- wp (bh_popen ?cmd _ ?log) _ _ _ => pose proof (law_popen cmd cpu log w) as Hp;
    unfold wp at 1; destruct (bh_popen cmd cpu log w) as [[server|e] w1] end; cbn in Hp;
    [|unfold at_most in *; set_solver].
  apply wp_bind, wp_try_except. eapply wp_mono; [apply (wp_measure_server _ _ _ _ _ _ R)|..].
  - unfold at_most in *. set_solver.
  - intros m w2 H2. apply wp_bind, wp_guard_raise. by destruct (negb _).
  - intros e w2 H2. apply wp_stop_and_raise. unfold at_most in *. set_solver.
Qed.
#[local] Hint Resolve measure_size_fewer : hosted.

Lemma measure_sizes_fewer a s r l p c root : along fewer (measure_sizes a s r l p c root).
Proof using SocketsApart0.
  revert p. induction l as [|n l IH]; intros p; cbn [measure_sizes]; hosted; done.
Qed.
#[local] Hint Resolve measure_sizes_fewer : hosted.

Lemma python_flow_results_fewer l : along fewer (_flow_results l).
Proof using. induction l as [|p l IH]; cbn [_flow_results]; unfold _load_result; hosted; done. Qed.
#[local] Hint Resolve python_flow_results_fewer : hosted.

Lemma run_local_fewer a : along fewer (run_local a).
Proof using. unfold run_local. hosted. Qed.
Lemma python_run_local_fewer p : along fewer (python_run_local p).
Proof using. unfold python_run_local, _default_output_dir. hosted. Qed.

(** C38: Whatever fails, and wherever: a driver of the TCP benchmarks leaves no process running
    that it started, whether it returns or raises. *)
Theorem drivers_leave_no_process (a : Args) (p : PyArgs) (l : LatArgs) :
  along fewer (run_server a) ∧ along fewer (run_client a) ∧ along fewer (run_local a) ∧
  along fewer (python_run_local p) ∧ along fewer (latency_run l).
Proof using SocketsApart0.
  split_and!.
  - unfold run_server. hosted.
  - unfold run_client. hosted.
  - apply run_local_fewer.
  - apply python_run_local_fewer.
  - unfold latency_run, _default_output_dir, pinned. hosted.
Qed.
End Workers.

(** * CPUs *)

Section Cpus.
Implicit Types (pool : list Z) (used : gset Z).

Lemma candidates_perm pool used : candidates pool used ≡ₚ pool.
Proof.
  unfold candidates. rewrite Permutation_app_comm.
  exact (filter_app_complement (λ c, c ∈ used) pool).
Qed.

Definition round_robin (l : list Z) (flows : Z) : list Z :=
  (λ index, nth (Z.to_nat (index mod Z.of_nat (length l))) l 0) <$> seqZ 0 flows.

Lemma round_robin_length l flows : 0 ≤ flows → Z.of_nat (length (round_robin l flows)) = flows.
Proof. intros Hf. unfold round_robin. rewrite length_fmap, length_seqZ. lia. Qed.

Lemma round_robin_in l flows c : l ≠ [] → c ∈ round_robin l flows → c ∈ l.
Proof.
  intros Hl. unfold round_robin. intros (i & -> & Hi)%list_elem_of_fmap.
  assert (0 < Z.of_nat (length l)) as Hn by (destruct l; [done|cbn; lia]).
  pose proof (Z.mod_pos_bound i _ Hn). apply list_elem_of_In, nth_In. lia.
Qed.

(** While there are CPUs enough, each flow has the next. *)
Lemma round_robin_take l flows :
  0 ≤ flows ≤ Z.of_nat (length l) → round_robin l flows = take (Z.to_nat flows) l.
Proof.
  intros Hf. apply list_eq. intros i. unfold round_robin. rewrite list_lookup_fmap.
  destruct (decide (Z.of_nat i < flows)) as [Hi|Hi].
  - rewrite lookup_seqZ_lt, lookup_take_lt by lia.
    destruct (lookup_lt_is_Some_2 l i ltac:(lia)) as [x Hx]. rewrite Hx. cbn [fmap option_fmap option_map]. f_equal.
    rewrite Z.mod_small, Z.add_0_l, Nat2Z.id by lia. by apply nth_lookup_Some.
  - rewrite lookup_seqZ_ge, lookup_take_ge by lia. done.
Qed.

Lemma unused_many pool used :
  NoDup pool → (length pool ≤ size used + length (filter (λ c, c ∉ used) pool))%nat.
Proof.
  intros Hp. rewrite <-(candidates_perm pool used) at 1. unfold candidates. rewrite length_app.
  assert (length (filter (λ c, c ∈ used) pool) ≤ size used)%nat; [|lia].
  rewrite <-(size_list_to_set (C := gset Z) (filter _ pool)) by by apply NoDup_filter.
  apply subseteq_size. intros c. rewrite elem_of_list_to_set, list_elem_of_filter. tauto.
Qed.

Lemma assign_ok pool used flows :
  pool ≠ [] → assign pool used flows = Ok (round_robin (candidates pool used) flows).
Proof.
  intros Hp. unfold assign. rewrite bool_decide_eq_false_2; [done|]. intros E.
  apply Hp. apply Permutation_nil. rewrite <-E. apply candidates_perm.
Qed.

Lemma candidates_nonempty pool used : pool ≠ [] → candidates pool used ≠ [].
Proof. intros Hp E. apply Hp, Permutation_nil. rewrite <-E. apply candidates_perm. Qed.

(** Unused CPUs are taken first, so that enough of them are all new. *)
Lemma round_robin_fresh pool used flows :
  NoDup pool → 0 ≤ flows → Z.of_nat (size used) + flows ≤ Z.of_nat (length pool) →
  NoDup (round_robin (candidates pool used) flows) ∧
  ∀ c, c ∈ round_robin (candidates pool used) flows → c ∉ used.
Proof.
  intros Hp Hf Hn. pose proof (unused_many pool used Hp) as Hu.
  assert (Hlen : length (candidates pool used) = length pool) by by rewrite candidates_perm.
  rewrite round_robin_take by lia. unfold candidates. rewrite take_app_le by lia. split.
  - eapply sublist_NoDup; [|apply sublist_take]. by apply NoDup_filter.
  - intros c Hc. assert (c ∈ filter (λ c, c ∉ used) pool) as Hc'.
    { rewrite <-(take_drop (Z.to_nat flows)). apply elem_of_app. by left. }
    by apply list_elem_of_filter in Hc' as [? _].
Qed.

(** The CPUs [cs] that the flows of [e] are pinned to. *)
Definition pinned_to (pools : gmap str (list Z)) (flows : Z) (cpus : CpuMap) (e : Endpoint) (cs : list Z) : Prop :=
  cpus !! ep_interface e = Some (Some <$> cs) ∧ Z.of_nat (length cs) = flows ∧
  ∃ pool, pools !! ep_interface e = Some pool ∧ ∀ c, c ∈ cs → c ∈ pool.

(** The pool of each NIC has [n] CPUs. *)
Definition roomy (pools : gmap str (list Z)) (endpoints : list Endpoint) (n : Z) : Prop :=
  ∀ e pool, e ∈ endpoints → pools !! ep_interface e = Some pool →
    NoDup pool ∧ n ≤ Z.of_nat (length pool).

Lemma pinned_to_later pools flows cpus cpus' e cs :
  cpus' !! ep_interface e = cpus !! ep_interface e →
  pinned_to pools flows cpus e cs → pinned_to pools flows cpus' e cs.
Proof. unfold pinned_to. by intros ->. Qed.

Lemma assign_all_spec pools flows endpoints used cpus0 :
  0 ≤ flows → NoDup (ep_interface <$> endpoints) →
  (∀ e, e ∈ endpoints → ∃ pool, pools !! ep_interface e = Some pool ∧ pool ≠ []) →
  ∃ cpus css,
    assign_all endpoints pools flows used cpus0 = Ok cpus ∧
    (∀ i, i ∉ ep_interface <$> endpoints → cpus !! i = cpus0 !! i) ∧
    Forall2 (pinned_to pools flows cpus) endpoints css ∧
    (roomy pools endpoints (Z.of_nat (size used) + flows * Z.of_nat (length endpoints)) →
     NoDup (concat css) ∧ ∀ c, c ∈ concat css → c ∉ used).
Proof.
  intros Hf. revert used cpus0. induction endpoints as [|e es IH]; intros used cpus0 Hnd Hpool.
  { exists cpus0, []. split_and!; [done|done|constructor|]. intros _. split; [constructor|].
    intros c Hc. by apply not_elem_of_nil in Hc. }
  apply NoDup_cons in Hnd as [Hn Hnd].
  destruct (Hpool e ltac:(left)) as (pool & He & Hne).
  set (cs := round_robin (candidates pool used) flows).
  destruct (IH (used ∪ list_to_set cs) (<[ep_interface e := Some <$> cs]> cpus0) Hnd)
    as (cpus & css & Ha & Hother & Hpin & Hroom); [intros e' He'; apply Hpool; by right|].
  exists cpus, (cs :: css). split_and!.
  - cbn. unfold dict_at. rewrite He. cbn. rewrite (assign_ok _ _ _ Hne). exact Ha.
  - intros i Hi. cbn in Hi. apply not_elem_of_cons in Hi as [Hi1 Hi2].
    rewrite (Hother i Hi2). by rewrite lookup_insert_ne.
  - constructor; [|done]. split_and!.
    + rewrite (Hother _ Hn). apply lookup_insert_eq.
    + by apply round_robin_length.
    + exists pool. split; [done|]. intros c Hc. rewrite <-(candidates_perm pool used).
      eapply round_robin_in; [|exact Hc]. by apply candidates_nonempty.
  - intros Hr. cbn [length] in Hr.
    destruct (Hr e pool ltac:(left) He) as [Hnp Hlen].
    destruct (round_robin_fresh pool used flows Hnp Hf ltac:(nia)) as [Hcs Hfresh].
    assert (Hsize : Z.of_nat (size (list_to_set cs : gset Z)) = flows).
    { rewrite size_list_to_set by done. by apply round_robin_length. }
    destruct Hroom as [Hc1 Hc2].
    { intros e' pool' He' Hp'. destruct (Hr e' pool' ltac:(by right) Hp') as [? ?].
      split; [done|]. rewrite size_union; [nia|]. intros c. rewrite elem_of_list_to_set.
      intros Hu Hc. by apply (Hfresh c Hc). }
    cbn [concat]. split.
    + apply NoDup_app. split_and!; [done| |done]. intros c Hc Hc'. apply (Hc2 c Hc').
      apply elem_of_union. right. by apply elem_of_list_to_set.
    + intros c [Hc|Hc]%elem_of_app; [by apply Hfresh|]. intros Hu. apply (Hc2 c Hc). set_solver.
Qed.

(** C39: Every flow gets a CPU of its NIC's pool; and when each pool has a CPU for every flow of
    every NIC, no two flows share one, within a NIC or across NICs. *)
Theorem flows_share_no_cpu pools flows endpoints :
  0 ≤ flows → NoDup (ep_interface <$> endpoints) →
  (∀ e, e ∈ endpoints → ∃ pool, pools !! ep_interface e = Some pool ∧ pool ≠ []) →
  ∃ cpus css,
    assign_all endpoints pools flows ∅ ∅ = Ok cpus ∧
    Forall2 (pinned_to pools flows cpus) endpoints css ∧
    (roomy pools endpoints (flows * Z.of_nat (length endpoints)) → NoDup (concat css)).
Proof.
  intros Hf Hnd Hpool. destruct (assign_all_spec pools flows endpoints ∅ ∅ Hf Hnd Hpool)
    as (cpus & css & Ha & _ & Hpin & Hroom).
  exists cpus, css. split_and!; [done|done|]. intros Hr. apply Hroom. by rewrite size_empty.
Qed.
End Cpus.

(** * The echo server *)

(** Sending on a connected socket succeeds, and what is sent does not depend on what is
    received. *)
Class EchoLaws (W : Type) `{!FlowDevice W} `{!SockRecv Sock W} `{!StreamLaws Sock W} `{!SentLaws W} := {
  connected : W → Sock → Prop;
  sendall_ok s b w :
    connected w s → (fd_sendall s b w).1 = Ok tt ∧ connected (fd_sendall s b w).2 s;
  recv_connected s n w c : connected w c → connected (sock_recv s n w).2 c;
  sendall_stream s b w c : stream (fd_sendall s b w).2 c = stream w c;
  recv_sent s n w : sent (sock_recv s n w).2 = sent w;
}.

Section Echo.
Context {W : Type} `{!FlowDevice W} `{!SockRecv Sock W} `{!StreamLaws Sock W} `{!SentLaws W} `{!EchoLaws W}.
Implicit Types (w : W) (s : Sock).

(** What [_receive] makes of a stream that begins with [input]. *)
Definition received (n : nat) (allow_eof : bool) (got input : bytes) : result (option bytes) :=
  if (n <=? length input)%nat then Ok (Some (got ++ take n input)) else
  if allow_eof && bool_decide (got = []) && bool_decide (input = []) then Ok None
  else Raise RuntimeError.

Lemma receive_message_spec fuel s n allow_eof got w :
  (n < fuel)%nat →
  ∃ w', receive_message fuel s (Z.of_nat (length got) + Z.of_nat n) allow_eof got w =
          (received n allow_eof got (stream w s), w') ∧
    stream w' s = drop n (stream w s) ∧ sent w' = sent w ∧ (connected w s → connected w' s).
Proof using EchoLaws0.
  revert n got w. induction fuel as [|fuel IH]; intros n got w Hn; [lia|]. cbn [receive_message].
  destruct n as [|n].
  { rewrite (proj2 (Z.leb_le _ _)) by lia. exists w. unfold received. cbn. by rewrite app_nil_r, drop_0. }
  rewrite (proj2 (Z.leb_gt _ _)) by lia.
  replace (Z.of_nat (length got) + Z.of_nat (S n) - Z.of_nat (length got)) with (Z.of_nat (S n)) by lia.
  unfold mbind, M_bind. pose proof (recv_sent s (Z.of_nat (S n)) w) as Hsent.
  pose proof (recv_connected s (Z.of_nat (S n)) w s) as Hcon.
  destruct (decide (stream w s = [])) as [He|Hne].
  - destruct (recv_eof s (Z.of_nat (S n)) w ltac:(lia) He) as [Hr Hs].
    destruct (sock_recv s (Z.of_nat (S n)) w) as [r w1]. cbn in Hr, Hs, Hsent, Hcon. subst r. cbn [length Nat.eqb].
    exists w1. rewrite He, drop_nil. split_and!; [|done|done|done].
    unfold received. cbn [length Nat.leb]. destruct got as [|x got]; [|by destruct allow_eof].
    by destruct allow_eof.
  - destruct (recv_some s (Z.of_nat (S n)) w ltac:(lia) Hne) as (k & Hk & Hkn & Hkl & Hr & Hs).
    destruct (sock_recv s (Z.of_nat (S n)) w) as [r w1]. cbn in Hr, Hs, Hsent, Hcon. subst r.
    rewrite length_take_le, (proj2 (Nat.eqb_neq _ _)) by lia.
    destruct (IH (S n - k)%nat (got ++ take k (stream w s)) w1 ltac:(lia)) as (w2 & Hw2 & Hs2 & Hsent2 & Hcon2).
    exists w2. rewrite length_app, length_take_le in Hw2 by lia.
    replace (Z.of_nat (length got) + Z.of_nat (S n))
      with (Z.of_nat (length got + k) + Z.of_nat (S n - k)) by lia.
    rewrite Hw2, Hs2, Hs, drop_drop. split_and!; [|f_equal; lia|by rewrite Hsent2|by auto]. f_equal.
    unfold received. rewrite length_drop.
    destruct (S n <=? length (stream w s))%nat eqn:E.
    + rewrite (proj2 (Nat.leb_le _ _)) by lia. do 2 f_equal. rewrite <-(app_assoc got). f_equal.
      rewrite take_take_drop. f_equal. lia.
    + rewrite (proj2 (Nat.leb_gt _ _)) by lia. rewrite (bool_decide_eq_false_2 (stream w s = [])) by done.
      rewrite andb_false_r. rewrite (bool_decide_eq_false_2 (_ ++ _ = [])), andb_false_r; [done|].
      intros [_ Ht]%app_eq_nil. apply (f_equal length) in Ht. rewrite length_take_le in Ht by lia. cbn in Ht. lia.
Qed.

Lemma receive_spec s n allow_eof w :
  ∃ w', _receive s (Z.of_nat n) allow_eof w = (received n allow_eof [] (stream w s), w') ∧
    stream w' s = drop n (stream w s) ∧ sent w' = sent w ∧ (connected w s → connected w' s).
Proof using EchoLaws0.
  unfold _receive. rewrite Nat2Z.id. apply (receive_message_spec (S n) s n allow_eof [] w). lia.
Qed.

(** However the network fragments what it is sent, the echo server of latency.py returns
    exactly the whole messages, and ends at the end of the stream; a message cut short raises
    RuntimeError after those before it were returned. *)
Theorem echo_returns_messages fuel s n w messages rest :
  (0 < n)%nat → Forall (λ m, length m = n) messages → (length rest < n)%nat →
  (length messages < fuel)%nat → connected w s → stream w s = concat messages ++ rest →
  ∃ w', echo fuel s (Z.of_nat n) w =
          ((if bool_decide (rest = []) then Ok (Some 0) else Raise RuntimeError), w') ∧
    sent w' s = sent w s ++ concat messages.
Proof using EchoLaws0.
  intros Hn Hm Hrest. revert fuel w. induction Hm as [|m ms Hl Hm IH]; intros fuel w Hf Hc Hs.
  - destruct fuel as [|fuel]; [cbn in Hf; lia|]. cbn [echo concat app] in *. unfold mbind, M_bind.
    destruct (receive_spec s n true w) as (w1 & -> & _ & Hsent & _). exists w1. rewrite Hs, Hsent, app_nil_r.
    unfold received. rewrite (proj2 (Nat.leb_gt _ _)) by lia. cbn. by destruct (bool_decide _).
  - destruct fuel as [|fuel]; [cbn in Hf; lia|]. cbn [echo concat] in *. unfold mbind, M_bind.
    rewrite <-app_assoc in Hs.
    destruct (receive_spec s n true w) as (w1 & -> & Hs1 & Hsent & Hc1). unfold received.
    rewrite Hs, length_app, (proj2 (Nat.leb_le _ _)) by lia. cbn [app].
    rewrite <-Hl, take_app_length.
    destruct (sendall_ok s m w1 (Hc1 Hc)) as [Hok Hc2]. pose proof (sendall_stream s m w1 s) as Hst.
    pose proof (sent_sendall s m w1 Hok) as Hse.
    destruct (fd_sendall s m w1) as [r w2]. cbn in Hok, Hst, Hse, Hc2. subst r.
    destruct (IH fuel w2) as (w3 & Hw3 & Hsent3); [cbn in Hf; lia|done| |].
    + by rewrite Hst, Hs1, Hs, <-Hl, drop_app_length.
    + exists w3. rewrite Hl. split; [exact Hw3|]. by rewrite Hsent3, Hse, Hsent, <-app_assoc.
Qed.
End Echo.

(** * Lists of CPUs *)

Section CpuLists.
Context `{!BenchText}.

(** A range as the kernel prints it in a [cpulist] file. *)
Definition show_range (r : Z * Z) : str :=
  if r.1 =? r.2 then digits r.1 else digits r.1 ++ 45 :: digits r.2.

Lemma digits_not z c : 0 ≤ z → is_digit c = false → c ∉ digits z.
Proof using.
  intros Hz Hc Hin. destruct (digits_spec z Hz) as [Hd _ _].
  rewrite Forall_forall in Hd. apply Hd in Hin. congruence.
Qed.

Lemma split_on_none sep s : sep ∉ s → split_on sep s = [s].
Proof using.
  induction s as [|c s IH]; intros Hs; [done|]. cbn. apply not_elem_of_cons in Hs as [Hc Hs].
  rewrite (proj2 (Z.eqb_neq _ _)) by done. by rewrite IH.
Qed.
Lemma split_on_app sep s t : sep ∉ s → split_on sep (s ++ sep :: t) = s :: split_on sep t.
Proof using.
  induction s as [|c s IH]; intros Hs; cbn; [by rewrite Z.eqb_refl|].
  apply not_elem_of_cons in Hs as [Hc Hs]. rewrite (proj2 (Z.eqb_neq _ _)) by done. by rewrite IH.
Qed.
Lemma split_on_join sep p ps :
  Forall (λ s, sep ∉ s) (p :: ps) → split_on sep (p ++ concat ((λ q, sep :: q) <$> ps)) = p :: ps.
Proof using.
  revert p. induction ps as [|q ps IH]; intros p Hs; apply Forall_cons in Hs as [Hp Hps]; cbn.
  { rewrite app_nil_r. by apply split_on_none. }
  rewrite split_on_app by done. f_equal. by apply IH.
Qed.

Lemma split_once_none sep s : sep ∉ s → split_once sep s = (s, None).
Proof using.
  induction s as [|c s IH]; intros Hs; [done|]. cbn. apply not_elem_of_cons in Hs as [Hc Hs].
  rewrite (proj2 (Z.eqb_neq _ _)) by done. by rewrite IH.
Qed.
Lemma split_once_app sep s t : sep ∉ s → split_once sep (s ++ sep :: t) = (s, Some t).
Proof using.
  induction s as [|c s IH]; intros Hs; cbn; [by rewrite Z.eqb_refl|].
  apply not_elem_of_cons in Hs as [Hc Hs]. rewrite (proj2 (Z.eqb_neq _ _)) by done. by rewrite IH.
Qed.

Definition is_range (r : Z * Z) : Prop := 0 ≤ r.1 ≤ r.2.

Lemma show_range_plain r : is_range r → 44 ∉ show_range r.
Proof using.
  intros Hr. unfold is_range in Hr. unfold show_range. destruct (_ =? _); [by apply digits_not; [lia|]|].
  rewrite elem_of_app, elem_of_cons. intros [H1|[H1|H1]]; [|done|]; revert H1; apply digits_not; done || lia.
Qed.

Lemma cpu_range_show r :
  (∀ z, 0 ≤ z → int_of_str (digits z) = Some z) → is_range r →
  cpu_range (show_range r) = Ok (seqZ r.1 (r.2 + 1 - r.1)).
Proof using.
  intros Hint Hr. destruct r as [a b]. unfold is_range in Hr. cbn [fst snd] in *.
  unfold cpu_range, show_range, str_int. cbn [fst snd].
  assert (Hd : 45 ∉ digits a) by by apply digits_not; [lia|].
  destruct (a =? b) eqn:E.
  - rewrite split_once_none by done. cbn [default]. rewrite Hint by lia. cbn.
    unfold raise_if. rewrite Z.ltb_irrefl. cbn. by rewrite <-(proj1 (Z.eqb_eq _ _) E).
  - rewrite split_once_app by done. change (default (digits a) (Some (digits b))) with (digits b). rewrite (Hint a), (Hint b) by lia. cbn [mbind result_bind].
    unfold raise_if. rewrite (proj2 (Z.ltb_ge _ _)) by lia. done.
Qed.

Lemma mapM_result_ok {A B} (f : A → result B) (g : A → B) l :
  Forall (λ x, f x = Ok (g x)) l → mapM_result f l = Ok (g <$> l).
Proof using. induction 1 as [|x l Hx Hl IH]; [done|]. cbn [mapM_result]. rewrite Hx. cbn. by rewrite IH. Qed.

(** The list of CPUs that the kernel prints for a NUMA node is read back, whatever its
    ranges. *)
Theorem cpu_list_roundtrip ranges :
  (∀ z, 0 ≤ z → int_of_str (digits z) = Some z) → ranges ≠ [] → Forall is_range ranges →
  _parse_cpu_list (join_comma (show_range <$> ranges)) =
    Ok (concat ((λ r, seqZ r.1 (r.2 + 1 - r.1)) <$> ranges)).
Proof using.
  intros Hint Hne Hr. destruct ranges as [|r rs]; [done|]. unfold _parse_cpu_list. cbn [join_comma fmap list_fmap].
  rewrite split_on_join.
  - change (show_range r :: (show_range <$> rs)) with (show_range <$> r :: rs).
    erewrite (mapM_result_ok _ (λ s, default [] (match cpu_range s with Ok l => Some l | Raise _ => None end))).
    + cbn [mbind result_bind]. f_equal. f_equal. rewrite <-list_fmap_compose.
      change (seqZ r.1 (r.2 + 1 - r.1) :: ((λ r, seqZ r.1 (r.2 + 1 - r.1)) <$> rs))
        with ((λ r, seqZ r.1 (r.2 + 1 - r.1)) <$> r :: rs). apply list_fmap_ext.
      intros i x Hx. cbn. rewrite cpu_range_show; [done|done|]. by eapply Forall_lookup_1.
    + apply Forall_fmap. eapply Forall_impl; [exact Hr|]. intros x Hx. cbn. by rewrite cpu_range_show.
  - change (show_range r :: (show_range <$> rs)) with (show_range <$> r :: rs).
    apply Forall_fmap. eapply Forall_impl; [exact Hr|]. intros x Hx. by apply show_range_plain.
Qed.
End CpuLists.

(** * Workers of python_benchmark.py *)

Section PythonWorkers.
Context {W : Type} `{!FlowDevice W} `{!SockRecv Sock W} `{!StreamLaws Sock W}.

(** The receiving worker counts every byte of its connection. *)
Lemma drain_counts fuel s total w :
  (length (stream w s) < fuel)%nat →
  ∃ w', drain fuel s total w = (Ok (Some (total + Z.of_nat (length (stream w s)))), w').
Proof using StreamLaws0.
  revert total w. induction fuel as [|fuel IH]; intros total w Hf; [lia|]. cbn [drain].
  unfold mbind, M_bind. destruct (decide (stream w s = [])) as [He|Hne].
  - destruct (recv_eof s _RECEIVE_BYTES w ltac:(done) He) as [Hr _].
    destruct (sock_recv s _RECEIVE_BYTES w) as [r w1]. cbn in Hr. subst r. rewrite He. cbn.
    exists w1. by rewrite Z.add_0_r.
  - destruct (recv_some s _RECEIVE_BYTES w ltac:(done) Hne) as (k & Hk & _ & Hkl & Hr & Hs).
    destruct (sock_recv s _RECEIVE_BYTES w) as [r w1]. cbn in Hr, Hs. subst r.
    rewrite length_take_le, (proj2 (Nat.eqb_neq _ _)) by lia.
    destruct (IH (total + Z.of_nat k) w1) as [w2 Hw2]; [rewrite Hs, length_drop; lia|].
    exists w2. rewrite Hw2, Hs, length_drop. do 3 f_equal. lia.
Qed.
End PythonWorkers.
