(* ===== verification/SweepTheorems.v ===== *)
(** What the sweep chooses, that it leaves no process behind, and that the tensor benchmark
    fills and compares whole tensors. *)

From Stdlib Require Import SpecFloat.
From S2P Require Import Prelude Bytes Json.
From S2P Require Import Verbs Stream Transport.
From S2P Require Import BenchText Bench BenchWorkers Sweep BenchTheorems.
#[local] Open Scope Z_scope.

(** * The order of finite numbers *)

Definition finite (f : pyfloat) : Prop := match f with FFin _ _ => True | _ => False end.

(** A number scaled by [2 ^ -k]. *)
Definition scaled (k : Z) (f : pyfloat) : Z := match f with FFin m e => m * 2 ^ (e - k) | _ => 0 end.
Definition exponent (f : pyfloat) : Z := match f with FFin _ e => e | _ => 0 end.

Lemma scaled_shift k n f : 0 ≤ n → k ≤ exponent f → scaled (k - n) f = scaled k f * 2 ^ n.
Proof.
  destruct f as [m e| |]; cbn; [|lia..]. intros. rewrite <-Z.mul_assoc, <-Z.pow_add_r by lia.
  do 2 f_equal. lia.
Qed.

Lemma num_scaled k a b :
  finite a → finite b → k ≤ exponent a → k ≤ exponent b →
  (num_lt a b = true ↔ scaled k a < scaled k b) ∧ (num_eq a b = true ↔ scaled k a = scaled k b).
Proof.
  intros Ha Hb Hka Hkb. set (k' := Z.min (exponent a) (exponent b)).
  replace k with (k' - (k' - k)) by lia. rewrite !(scaled_shift k') by lia.
  assert (0 < 2 ^ (k' - k)) by (apply Z.pow_pos_nonneg; lia).
  destruct a as [m e| |], b as [m' e'| |]; try done. cbn [num_lt num_eq exponent] in *.
  fold k'. unfold scaled at 1 2 3 4. split; [rewrite Z.ltb_lt|rewrite Z.eqb_eq]; nia.
Qed.

Lemma num_lt_irrefl a : finite a → num_lt a a = false.
Proof. destruct a; try done. intros _. cbn. apply Z.ltb_irrefl. Qed.
Lemma num_lt_asym a b : finite a → finite b → num_lt a b = true → num_lt b a = false.
Proof.
  intros Ha Hb H. apply not_true_iff_false. set (k := Z.min (exponent a) (exponent b)).
  rewrite (proj1 (num_scaled k b a Hb Ha ltac:(lia) ltac:(lia))).
  rewrite (proj1 (num_scaled k a b Ha Hb ltac:(lia) ltac:(lia))) in H. lia.
Qed.
Lemma num_lt_negtrans a b c :
  finite a → finite b → finite c → num_lt b a = false → num_lt c b = false → num_lt c a = false.
Proof.
  intros Ha Hb Hc. rewrite <-!not_true_iff_false.
  set (k := Z.min (exponent a) (Z.min (exponent b) (exponent c))).
  rewrite (proj1 (num_scaled k b a Hb Ha ltac:(lia) ltac:(lia))).
  rewrite (proj1 (num_scaled k c b Hc Hb ltac:(lia) ltac:(lia))).
  rewrite (proj1 (num_scaled k c a Hc Ha ltac:(lia) ltac:(lia))). lia.
Qed.

(** * The best flow count *)

(** [best_by] with an order on the elements: whatever its key and comparison compute. *)
Section Best.
Context (better : json → json → result bool) (key : json → result json).
Context (P : json → Prop) (key_of : json → json) (lt : json → json → bool).
Context (Hkey : ∀ r, P r → key r = Ok (key_of r)).
Context (Hbetter : ∀ r r', P r → P r' → better (key_of r) (key_of r') = Ok (lt r r')).
Context (Hirrefl : ∀ a, P a → lt a a = false).
Context (Hasym : ∀ a b, P a → P b → lt a b = true → lt b a = false).
Context (Htrans : ∀ a b c, P a → P b → P c → lt b a = false → lt c b = false → lt c a = false).

Lemma best_by_spec best l :
  P best → Forall P l →
  ∃ r, best_by better key best (key_of best) l = Ok r ∧ P r ∧ r ∈ best :: l ∧
       ∀ r', r' ∈ best :: l → lt r' r = false.
Proof using Hkey Hbetter Hirrefl Hasym Htrans.
  intros Hb Hl. revert best Hb. induction Hl as [|x l Hx Hl IH]; intros best Hb.
  { exists best. split_and!; [done|done|set_solver|]. intros r' ->%list_elem_of_singleton. auto. }
  cbn [best_by]. rewrite (Hkey x Hx). cbn. rewrite (Hbetter x best Hx Hb). cbn.
  destruct (lt x best) eqn:E.
  - destruct (IH x Hx) as (r & -> & HP & Hr & Hmin). exists r. split_and!; [done|done|set_solver|].
    intros r' [->|Hr']%elem_of_cons; [|by apply Hmin].
    apply (Htrans r x best); [done..|apply Hmin; set_solver|auto].
  - destruct (IH best Hb) as (r & -> & HP & Hr & Hmin). exists r. split_and!; [done|done|set_solver|].
    intros r' [->|[->|Hr']%elem_of_cons]%elem_of_cons; [apply Hmin; set_solver| |apply Hmin; set_solver].
    apply (Htrans r best x); [done..|apply Hmin; set_solver|done].
Qed.
End Best.

(** The fields of a result that the choice reads. *)
Definition verified_of (r : json) : bool :=
  match getitem r (lit "path_verified") with Ok v => truthy v | Raise _ => false end.
Definition wire_of (r : json) : pyfloat :=
  match getitem r (lit "wire_gbps") with Ok v => default FNaN (json_num v) | Raise _ => FNaN end.
Definition flows_of (r : json) : Z :=
  match getitem r (lit "flow_count") with Ok (JInt n) => n | _ => 0 end.
Definition reaches (target : fl) (r : json) : bool :=
  num_lt (py_of_fl target) (wire_of r) || num_eq (py_of_fl target) (wire_of r).

(** A result as a run writes it. *)
Record ResultOk (r : json) : Prop := mk_ResultOk {
  ro_verified : ∃ v, getitem r (lit "path_verified") = Ok v;
  ro_wire : ∃ v f, getitem r (lit "wire_gbps") = Ok v ∧ json_num v = Some f ∧ finite f;
  ro_flows : getitem r (lit "flow_count") = Ok (JInt (flows_of r));
}.

Lemma filter_result_ok {A} (p : A → result bool) (f : A → bool) l :
  (∀ x, x ∈ l → p x = Ok (f x)) → filter_result p l = Ok (filter (λ x, f x = true) l).
Proof.
  induction l as [|x l IH]; intros Hp; [done|]. cbn [filter_result]. rewrite Hp by set_solver.
  unfold mbind, result_bind. rewrite IH by set_solver. rewrite filter_cons. by destruct (f x).
Qed.

Lemma result_verified r : ResultOk r → is_verified r = Ok (verified_of r).
Proof. intros [[v Hv] _ _]. unfold is_verified, verified_of. by rewrite Hv. Qed.
Lemma result_reaches target r : ResultOk r → at_target target r = Ok (reaches target r).
Proof.
  intros [_ (v & f & Hv & Hf & _) _]. unfold at_target, reaches, wire_of, json_ge_fl. rewrite Hv. cbn.
  by rewrite Hf.
Qed.
Lemma result_wire r : ResultOk r → finite (wire_of r) ∧
  ∃ v, getitem r (lit "wire_gbps") = Ok v ∧ json_num v = Some (wire_of r).
Proof.
  intros [_ (v & f & Hv & Hf & Hfin) _]. unfold wire_of. rewrite Hv, Hf. cbn. split; [done|].
  exists v. by rewrite Hf.
Qed.

Lemma py_lt_num v w f g : json_num v = Some f → json_num w = Some g → py_lt v w = Ok (num_lt f g).
Proof. intros Hv Hw. destruct v, w; try done; cbn in *; by injection Hv as <-; injection Hw as <-. Qed.

(** The result with the highest rate, and that with the fewest flows. *)
Lemma best_wire x l :
  Forall ResultOk (x :: l) →
  ∃ r, max_by (λ r, getitem r (lit "wire_gbps")) x l = Ok r ∧ r ∈ x :: l ∧
       ∀ r', r' ∈ x :: l → num_lt (wire_of r) (wire_of r') = false.
Proof.
  intros [Hx Hl]%Forall_cons. set (key r := match getitem r (lit "wire_gbps") with Ok v => v | _ => JNull end).
  assert (∀ r, ResultOk r → getitem r (lit "wire_gbps") = Ok (key r) ∧
    json_num (key r) = Some (wire_of r) ∧ finite (wire_of r)) as Hkey.
  { intros r Hr. destruct (result_wire r Hr) as (Hfin & v & Hv & Hn). unfold key. by rewrite Hv. }
  unfold max_by. destruct (Hkey x Hx) as [-> _]. unfold mbind, result_bind.
  destruct (best_by_spec (λ a b, py_lt b a) (λ r, getitem r (lit "wire_gbps")) ResultOk key
    (λ a b, num_lt (wire_of b) (wire_of a))) with x l as (r & Hr & _ & Hin & Hbest);
    [intros r Hr; by apply Hkey|intros; by apply py_lt_num; apply Hkey| | | |done|done|by eauto].
  - intros a Ha. by apply num_lt_irrefl, Hkey.
  - intros a b Ha Hb. by apply num_lt_asym; apply Hkey.
  - intros a b c Ha Hb Hc H1 H2. eapply (num_lt_negtrans _ (wire_of b)); try done; by apply Hkey.
Qed.
Lemma best_flows x l :
  Forall ResultOk (x :: l) →
  ∃ r, min_by (λ r, getitem r (lit "flow_count")) x l = Ok r ∧ r ∈ x :: l ∧
       ∀ r', r' ∈ x :: l → flows_of r ≤ flows_of r'.
Proof.
  intros [Hx Hl]%Forall_cons. unfold min_by. rewrite (ro_flows x Hx). unfold mbind, result_bind.
  destruct (best_by_spec py_lt (λ r, getitem r (lit "flow_count")) ResultOk (λ r, JInt (flows_of r))
    (λ a b, flows_of a <? flows_of b)) with x l as (r & Hr & _ & Hin & Hbest); try done; try lia.
  - intros. by apply ro_flows.
  - intros a b _ _. cbn. by rewrite !Z.mul_1_r.
  - exists r. split_and!; [done|done|]. intros r' Hr'. specialize (Hbest r' Hr'). lia.
Qed.

(** The choice: the fewest flows that reach the target on a verified path, or else the
    highest rate of a verified path; [None] when no path was verified. *)
Theorem tuned_result_spec results target :
  Forall ResultOk results →
  ∃ choice, _tuned_result results target = Ok choice ∧
    match choice with
    | None => ∀ r, r ∈ results → verified_of r = false
    | Some r =>
        r ∈ results ∧ verified_of r = true ∧
        (∀ r', r' ∈ results → verified_of r' = true → reaches target r' = true →
           reaches target r = true ∧ flows_of r ≤ flows_of r') ∧
        (reaches target r = false → ∀ r', r' ∈ results → verified_of r' = true →
           num_lt (wire_of r) (wire_of r') = false)
    end.
Proof.
  intros Hall. rewrite Forall_forall in Hall. unfold _tuned_result.
  rewrite (filter_result_ok _ verified_of) by (intros; by apply result_verified, Hall).
  unfold mbind, result_bind.
  destruct (filter _ results) as [|first others] eqn:Hv.
  { exists None. split; [done|]. intros r Hr. apply not_true_iff_false. intros Hr'.
    apply (not_elem_of_nil r). by rewrite <-Hv, list_elem_of_filter. }
  assert (∀ r, r ∈ first :: others ↔ verified_of r = true ∧ r ∈ results) as Hin
    by (intros r; by rewrite <-Hv, list_elem_of_filter).
  rewrite (filter_result_ok _ (reaches target)) by (intros r [_ Hr]%Hin; by apply result_reaches, Hall).
  destruct (filter _ (first :: others)) as [|x l] eqn:Ht.
  - assert (∀ r, r ∈ first :: others → reaches target r = false) as Hno.
    { intros r Hr. apply not_true_iff_false. intros Hr'. apply (not_elem_of_nil r).
      by rewrite <-Ht, list_elem_of_filter. }
    destruct (best_wire first others) as (r & Hr & Hrin & Hbest).
    { apply Forall_forall. intros r [_ Hr]%Hin. by apply Hall. }
    rewrite Hr. exists (Some r). split; [done|]. apply Hin in Hrin as [Hrv Hrr]. split_and!; [done|done| |].
    + intros r' H1 H2. rewrite Hno by (by apply Hin). done.
    + intros _ r' H1 H2. apply Hbest. by apply Hin.
  - assert (∀ r, r ∈ x :: l ↔ reaches target r = true ∧ r ∈ first :: others) as Hin'
      by (intros r; by rewrite <-Ht, list_elem_of_filter).
    destruct (best_flows x l) as (r & Hr & Hrin & Hbest).
    { apply Forall_forall. intros r [_ [_ Hr]%Hin]%Hin'. by apply Hall. }
    rewrite Hr. exists (Some r). split; [done|]. apply Hin' in Hrin as [Hrt [Hrv Hrr]%Hin].
    split_and!; [done|done| |congruence].
    intros r' H1 H2 H3. split; [done|]. apply Hbest. by rewrite Hin', Hin.
Qed.

(** * Processes *)

Class SweepLaws (W : Type) `{!BenchHost W, !ProcLaws W, !SweepHost W} := {
  law_is_file p w : running (sh_is_file p w).2 ⊆ running w;
  law_write_csv p l w : running (sh_write_csv p l w).2 ⊆ running w;
}.

Section Sweeping.
Context `{!BenchText} {W : Type} `{!BenchHost W, !ProcLaws W, !SweepHost W, !SweepLaws W}.

Lemma is_file_fewer p : along fewer (host (sh_is_file p)).
Proof using SweepLaws0. apply along_host. intros w. apply law_is_file. Qed.
Lemma write_csv_fewer p l : along fewer (sh_write_csv p l).
Proof using SweepLaws0. apply along_op. intros w. apply law_write_csv. Qed.
#[local] Hint Resolve is_file_fewer write_csv_fewer run_local_fewer python_run_local_fewer : hosted.

Lemma cached_result_fewer a p : along fewer (cached_result a p).
Proof using SweepLaws0. unfold cached_result, read_json. hosted. Qed.
#[local] Hint Resolve cached_result_fewer : hosted.
Lemma sweep_point_fewer a root point : along fewer (sweep_point a root point).
Proof using SweepLaws0. unfold sweep_point, run_point, read_json. destruct point. hosted. Qed.
#[local] Hint Resolve sweep_point_fewer : hosted.
Lemma sweep_points_fewer a root points : along fewer (sweep_points a root points).
Proof using SweepLaws0. induction points as [|p l IH]; cbn [sweep_points]; hosted; done. Qed.
#[local] Hint Resolve sweep_points_fewer : hosted.

(** A sweep leaves no process running that it started, whatever fails. *)
Theorem sweep_leaves_no_process a : along fewer (sweep_run a).
Proof using SweepLaws0. unfold sweep_run, _default_output_dir. hosted. Qed.
End Sweeping.

(** * The tensor benchmark *)

(** Byte [i] of the pattern is [i] modulo 251. *)
Definition pattern (n : nat) : bytes := (λ i, Z.of_nat i mod 251) <$> seq 0 n.

Lemma pattern_lookup n i : (i < n)%nat → pattern n !! i = Some (Z.of_nat i mod 251).
Proof. intros Hi. unfold pattern. by rewrite list_lookup_fmap, lookup_seq_lt. Qed.
Lemma pattern_length n : length (pattern n) = n.
Proof. unfold pattern. by rewrite length_fmap, length_seq. Qed.

Lemma pattern_app k n : pattern (251 * k + n) = pattern (251 * k) ++ pattern n.
Proof.
  unfold pattern. rewrite seq_app, fmap_app. f_equal.
  replace (seq (0 + 251 * k) n) with (Nat.add (251 * k) <$> seq 0 n)
    by (rewrite fmap_add_seq; f_equal; lia). rewrite <-list_fmap_compose.
  apply list_fmap_ext. intros i x _. unfold compose. rewrite Nat2Z.inj_add, Nat2Z.inj_mul.
  by rewrite Z.add_comm, Z.mul_comm, Z.mod_add.
Qed.

Lemma pattern_block_eq : pattern_block = pattern (251 * Z.to_nat (2 ^ 20 `div` 251)).
Proof.
  unfold pattern_block. generalize (Z.to_nat (2 ^ 20 `div` 251)) as n.
  induction n as [|n IH]; [done|]. change (mjoin (replicate (S n) (seqZ 0 251))) with (seqZ 0 251 ++ mjoin (replicate n (seqZ 0 251))).
  rewrite IH. replace (251 * S n)%nat with (251 * 1 + 251 * n)%nat by lia. rewrite pattern_app. f_equal.
Qed.

Lemma fill_loop_spec k fuel position view :
  (0 < k)%nat → (position mod 251 = 0 ∨ position = length view)%nat → (position ≤ length view)%nat →
  take position view = pattern position → (length view - position < fuel)%nat →
  fill_loop fuel (pattern (251 * k)) position view = Some (pattern (length view)).
Proof.
  intros Hk. revert position view. induction fuel as [|fuel IH]; intros position view Hm Hle Hpre Hf; [lia|].
  cbn [fill_loop]. rewrite pattern_length. destruct (Nat.ltb_spec position (length view)) as [Hlt|Hge].
  2: { assert (position = length view) as -> by lia. rewrite take_ge in Hpre by lia. by f_equal. }
  destruct Hm as [Hm|]; [|lia]. cbv zeta. set (stop := ((position + 251 * k) `min` length view)%nat).
  set (new := take (stop - position)%nat (pattern (251 * k))).
  assert (length new = (stop - position)%nat) as Hnew
    by (unfold new; rewrite length_take, pattern_length; unfold stop; lia).
  assert (length (splice position new view) = length view) as Hlen
    by (apply length_splice; unfold stop in *; lia).
  rewrite IH; rewrite ?Hlen; [done|..]; [|unfold stop; lia| |unfold stop; lia].
  - unfold stop. destruct (Nat.min_dec (position + 251 * k)%nat (length view)) as [-> | ->]; [left|by right].
    rewrite Nat.add_comm, Nat.mul_comm. by rewrite Nat.Div0.add_mod, Nat.Div0.mod_mul, Hm.
  - apply list_eq. intros i. destruct (decide (i < stop)%nat) as [Hi|Hi].
    2: { by rewrite !lookup_ge_None_2 by (rewrite ?pattern_length, ?length_take; lia). }
    rewrite lookup_take_lt, pattern_lookup by done. rewrite lookup_splice by (unfold stop in *; lia).
    case_decide as Hd.
    + unfold new. rewrite lookup_take_lt, pattern_lookup by (unfold stop in *; lia). f_equal.
      apply Nat.Div0.mod_divides in Hm as [q ->]. rewrite Nat2Z.inj_sub by lia.
      replace (Z.of_nat i) with (Z.of_nat i - Z.of_nat (251 * q) + Z.of_nat q * 251) at 2 by lia.
      by rewrite Z.mod_add.
    + rewrite <-(lookup_take_lt _ position) by lia. rewrite Hpre, pattern_lookup by lia. done.
Qed.

(** The whole view is filled. *)
Theorem fill_pattern_correct view :
  _fill_pattern (S (length view)) view = Some (pattern (length view)).
Proof.
  unfold _fill_pattern. rewrite pattern_block_eq.
  apply fill_loop_spec; [apply (Z2Nat.inj_lt 0); [lia|by vm_compute|reflexivity]|by left|lia|done|lia].
Qed.

(** Comparing chunks compares the whole, a last chunk that is not full included. *)
Theorem equal_correct chunk left right :
  (0 < chunk)%nat → length left = length right → _equal chunk left right = true ↔ left = right.
Proof.
  intros Hc Hlen. unfold _equal. rewrite forallb_forall. split; [|intros -> i _; by apply bool_decide_eq_true_2].
  intros H. apply list_eq. intros i. destruct (decide (i < length left)%nat) as [Hi|Hi].
  2: { rewrite !lookup_ge_None_2 by lia. done. }
  pose proof (Nat.div_mod i chunk ltac:(lia)) as Hdm.
  pose proof (Nat.mod_upper_bound i chunk ltac:(lia)) as Hm.
  specialize (H (i / chunk)%nat). rewrite bool_decide_eq_true in H.
  assert (slice (i / chunk * chunk) chunk left = slice (i / chunk * chunk) chunk right) as E.
  { apply H, in_seq. split; [lia|]. apply Nat.div_lt_upper_bound; [lia|].
    pose proof (Nat.div_mod (length left + chunk - 1) chunk ltac:(lia)).
    pose proof (Nat.mod_upper_bound (length left + chunk - 1) chunk ltac:(lia)). nia. }
  apply (f_equal (.!! (i mod chunk)%nat)) in E. rewrite !lookup_slice, !decide_True in E by lia.
  by replace (i / chunk * chunk + i mod chunk)%nat with i in E by lia.
Qed.

(** * A choice *)

Definition point_result (verified : bool) (wire : Z) (flows : Z) : json :=
  JObj [(lit "path_verified", JBool verified); (lit "wire_gbps", JFloat (FFin wire 0));
        (lit "flow_count", JInt flows)].

(** 8 flows reach the target; without them the highest verified rate is chosen, and the
    unverified result never. *)
Example tuned :
  let low := [point_result true 100 1; point_result true 180 4; point_result false 300 2] in
  let high := [point_result true 196 24; point_result true 195 8] in
  _tuned_result (low ++ high) (fl_exact 195) = Ok (Some (point_result true 195 8)) ∧
  _tuned_result low (fl_exact 195) = Ok (Some (point_result true 180 4)) ∧
  _tuned_result [point_result false 300 2] (fl_exact 195) = Ok None ∧
  _tuned_result [JObj []] (fl_exact 195) = Raise KeyError.
Proof. by vm_compute. Qed.
