(* ===== verification/LocalTransferTheorems.v ===== *)
(** What [transfer_tensor_local] promises when it returns: no worker is left, and the
    receiver took as many bytes as were to be sent.  And what it does not: when the receiver
    is not ready in time, or the counters cannot be read, its process is left running. *)

From Stdlib Require Import SpecFloat.
From S2P Require Import Prelude Bytes Json.
From S2P Require Import Verbs Stream Transport.
From S2P Require Import BenchText Bench BenchWorkers BenchTheorems LocalTransfer.
#[local] Open Scope Z_scope.

(** * Relations kept by the sending side *)

(** A relation that every socket call of the sending side keeps. *)
Class DeviceRel {W} `{!FlowDevice W} (R : relation W) := {
  dr_preorder :: PreOrder R;
  dr_affinity c : along R (fd_set_affinity c);
  dr_socket f : along R (fd_socket f);
  dr_close s : along R (tell (fd_close s));
  dr_setsockopt s o v : along R (fd_setsockopt s o v);
  dr_settimeout s t : along R (tell (fd_settimeout s t));
  dr_bind s a : along R (fd_bind s a);
  dr_connect s a : along R (fd_connect s a);
  dr_sendall s b : along R (fd_sendall s b);
  dr_tcp_info s w r w' : fd_tcp_info s w = Some (r, w') → R w w';
  dr_barrier t : along R (fd_barrier t);
  dr_go : along R (tell fd_go);
  dr_perf w : R w (fd_perf_counter_ns w).2;
}.

Create HintDb sending discriminated.
#[export] Hint Resolve dr_affinity dr_socket dr_close dr_setsockopt dr_settimeout dr_bind dr_connect
  dr_sendall dr_barrier dr_go : sending.

Ltac send_step :=
  match goal with
  | |- along _ (let '(_, _) := ?p in _) => destruct p
  | |- along _ (_ ≫= _) => apply along_bind; [apply _|..]
  | |- along _ (try_except _ _) => apply along_try; [apply _|..]
  | |- along _ (try_finally _ _) => apply along_finally; [apply _|..]
  | |- along _ (for_each _ _) => apply along_for_each; [apply _|..]
  | |- along _ (mret _) => apply along_ret, _
  | |- along _ (raise _) => apply along_raise, _
  | |- along _ (lift _) => apply along_lift, _
  | |- along _ (guard_raise _ _) => apply along_guard, _
  | |- _ => solve [auto 3 with sending nocore typeclass_instances]
  | |- along _ _ => case_match
  end.
Ltac sends := repeat (intros; send_step).

Section Sending.
Context {W : Type} `{!FlowDevice W} (R : relation W) `{!DeviceRel R}.

Lemma perf_along : along R perf_counter_ns.
Proof using DeviceRel0.
  intros w. unfold perf_counter_ns. pose proof (dr_perf w). by destruct (fd_perf_counter_ns w).
Qed.
Lemma retransmits_along s : along R (_total_retransmits s).
Proof using DeviceRel0.
  intros w. unfold _total_retransmits. destruct (fd_tcp_info s w) as [[[info|e] w']|] eqn:E; cbn.
  - apply dr_tcp_info in E. by destruct (_ <? _).
  - by apply dr_tcp_info in E.
  - reflexivity.
Qed.
#[local] Hint Resolve perf_along retransmits_along : sending.

Lemma set_affinity_along c : along R (_set_affinity c).
Proof using DeviceRel0. unfold _set_affinity. sends. Qed.
#[local] Hint Resolve set_affinity_along : sending.
Lemma send_span_along f s v c p e : along R (send_span f s v c p e).
Proof using DeviceRel0. revert p. induction f as [|f IH]; intros p; cbn [send_span]; sends; done. Qed.
#[local] Hint Resolve send_span_along : sending.
Lemma send_range_along t s v o e : along R (send_range t s v o e).
Proof using DeviceRel0. apply send_span_along. Qed.
Lemma start_flow_along t s p : along R (start_flow t s p).
Proof using DeviceRel0. unfold start_flow, _bind_device. sends. Qed.
Lemma send_header_along s h : along R (send_header s h).
Proof using DeviceRel0. unfold send_header. sends. Qed.
#[local] Hint Resolve send_range_along start_flow_along send_header_along : sending.
Lemma send_flow_along t v i f o e n : along R (_send_flow t v i f o e n).
Proof using DeviceRel0. unfold _send_flow, with_socket. sends. Qed.
#[local] Hint Resolve send_flow_along : sending.
Lemma send_flows_along t v i n f l : along R (send_flows t v i n f l).
Proof using DeviceRel0. revert f. induction l as [|[o e] l IH]; intros f; cbn [send_flows]; sends; done. Qed.
#[local] Hint Resolve send_flows_along : sending.

(** The same of the senders that share a counter. *)
Definition tasks_rel : relation (Tasks W) := λ s s', R (tk_world s) (tk_world s').
#[local] Instance tasks_rel_preorder : PreOrder tasks_rel.
Proof using DeviceRel0.
  split; [intros s; unfold tasks_rel; reflexivity|].
  intros a b c H1 H2. unfold tasks_rel in *. by etransitivity.
Qed.
Lemma on_tasks_along {A} (m : M W A) : along R m → along tasks_rel (on_tasks m).
Proof using. intros Hm s. unfold on_tasks, tasks_rel. specialize (Hm (tk_world s)). by destruct (m (tk_world s)). Qed.
Lemma take_task_along : along tasks_rel take_task.
Proof using DeviceRel0. intros s. unfold tasks_rel. cbn. reflexivity. Qed.
#[local] Hint Resolve on_tasks_along take_task_along : sending.

Lemma send_task_along t s v i f k : along R (send_task t s v i f k).
Proof using DeviceRel0. unfold send_task. sends. Qed.
#[local] Hint Resolve send_task_along : sending.
Lemma dynamic_loop_along n t s v i f c b : along tasks_rel (dynamic_loop n t s v i f c b).
Proof using DeviceRel0.
  revert b. induction n as [|n IH]; intros b; cbn [dynamic_loop]; unfold dynamic_round; sends; done.
Qed.
#[local] Hint Resolve dynamic_loop_along : sending.
Lemma send_dynamic_along n t v i f c : along tasks_rel (_send_dynamic_flow n t v i f c).
Proof using DeviceRel0. unfold _send_dynamic_flow. sends. Qed.
#[local] Hint Resolve send_dynamic_along : sending.
Lemma send_workers_along n t v i c l : along tasks_rel (send_workers n t v i c l).
Proof using DeviceRel0. induction l as [|f l IH]; cbn [send_workers]; sends; done. Qed.

Lemma send_along t x i n : along R (send t x i n).
Proof using DeviceRel0.
  unfold send, _send_processes. apply along_bind; [apply _|sends|]. intros b. apply along_bind; [apply _|sends|].
  intros _. case_match; [|sends]. apply along_bind; [apply _|sends|]. intros t0.
  apply along_bind; [apply _| |intros; sends]. intros w.
  match goal with |- context [send_workers ?n ?t ?v ?i ?c ?l ?s] =>
    pose proof (send_workers_along n t v i c l s) as Hs; by destruct (send_workers n t v i c l s) end.
Qed.
End Sending.

(** * Workers *)

(** [receiving] are the receivers that were started and have not ended.  A worker that
    was joined without a timeout, or is seen not to be alive, has ended. *)
Class TransferLaws (W : Type) `{!TransferHost W} := {
  receiving : W → gset nat;
  law_start m r d n w :
    (th_start m r d n w).1 ∉ receiving w ∧
    receiving (th_start m r d n w).2 ⊆ {[(th_start m r d n w).1]} ∪ receiving w;
  law_ready t w : receiving (th_ready t w).2 ⊆ receiving w;
  law_report p w : receiving (th_report p w).2 ⊆ receiving w;
  law_join p t w : receiving (th_join p t w) ⊆ receiving w;
  law_alive p w : receiving (th_alive p w).2 ⊆
    if (th_alive p w).1 then receiving w else receiving w ∖ {[p]};
}.

Definition no_more {W} `{!TransferHost W} `{!TransferLaws W} : relation W :=
  λ w w', receiving w' ⊆ receiving w.
#[export] Instance no_more_preorder {W} `{!TransferHost W} `{!TransferLaws W} : PreOrder (no_more (W := W)).
Proof. split; [intros w; by unfold no_more|]. intros a b c H1 H2. unfold no_more in *. set_solver. Qed.

Section Local.
Context `{!BenchText} {W : Type} `{!BenchHost W} `{!FlowDevice W} `{!TransferHost W} `{!TransferLaws W}
  `{!HostRel (no_more (W := W))} `{!DeviceRel (no_more (W := W))}.
Implicit Types (w : W).

(** The workers are at most [R]. *)
Definition left_over (R : gset nat) w : Prop := receiving w ⊆ R.

Lemma wp_left {A} (m : M W A) (Q : A → W → Prop) (E : exn → W → Prop) R w :
  along no_more m → left_over R w →
  (∀ a w', left_over R w' → Q a w') → (∀ e w', E e w') → wp m Q E w.
Proof using HostRel0 DeviceRel0.
  intros Hm Hw HQ HE. eapply wp_mono; [by apply (wp_along no_more)|..].
  - intros a w' Hr. apply HQ. unfold left_over, no_more in *. set_solver.
  - intros e w' _. apply HE.
Qed.

Lemma wp_host {A} (f : W → A * W) (Q : A → W → Prop) E w :
  (∀ a w', f w = (a, w') → Q a w') → wp (host f) Q E w.
Proof using. intros HQ. unfold wp, host. destruct (f w) as [a w'] eqn:Hf. by apply HQ. Qed.

Lemma counters_along v s r : along no_more (counters v s r).
Proof using HostRel0. unfold counters. hosted. Qed.

(** What [send] returns is the size of all rounds. *)
Lemma wp_send_nbytes t x i n b w :
  _tensor_buffer x false = Ok b →
  wp (send t x i n) (λ r _, sr_nbytes r = Z.of_nat (length (tb_bytes b)) * n) (λ _ _, True) w.
Proof using.
  intros Hb. unfold send. rewrite Hb. apply wp_bind, wp_lift, wp_bind, wp_guard_raise.
  destruct (n <=? 0); [done|]. case_match.
  - unfold _send_processes. apply wp_bind. eapply wp_mono; [apply wp_trivial| |done]. intros t0 w1 _.
    apply wp_bind. eapply wp_mono; [apply wp_trivial| |done]. intros ms w2 _. apply wp_bind.
    eapply wp_mono; [apply wp_trivial| |done]. intros t1 w3 _. apply wp_lift. unfold send_summary.
    repeat (case_match; try done). by simplify_eq.
  - apply wp_bind, wp_lift. destruct (_partitions _ _); [|done]. apply wp_bind.
    eapply wp_mono; [apply wp_trivial| |done]. intros ? w1 _. apply wp_bind.
    eapply wp_mono; [apply wp_trivial| |done]. intros t1 w2 _. apply wp_bind.
    eapply wp_mono; [apply wp_trivial| |done]. intros fs w3 _. apply wp_bind.
    eapply wp_mono; [apply wp_trivial| |done]. intros t2 w4 _. by apply wp_ret.
Qed.

Lemma wp_send_and_join a mode p s x i b R w :
  _tensor_buffer x false = Ok b → left_over ({[p]} ∪ R) w →
  wp (send_and_join a mode p s x i)
    (λ r w', left_over R w' ∧ sr_nbytes r.1 = Z.of_nat (length (tb_bytes b)) * t_iterations a ∧
       rr_nbytes r.2 = sr_nbytes r.1) (λ _ _, True) w.
Proof using HostRel0 DeviceRel0.
  intros Hb Hw. unfold send_and_join. apply wp_bind, wp_try_finally.
  eapply wp_mono; [apply wp_conj; [apply (wp_along no_more), send_along; exact _|by apply wp_send_nbytes]|..]; cbv beta.
  2: { done. }
  intros r w1 [H1 Hn]. unfold tell_host. apply wp_modify. cbv beta.
  assert (H2 : left_over ({[p]} ∪ R) (th_join p (Some (t_timeout a)) w1)).
  { pose proof (law_join p (Some (t_timeout a)) w1). unfold left_over, no_more in *. set_solver. }
  set (w2 := th_join p _ w1) in *. clearbody w2. apply wp_bind. unfold wp at 1, host.
  pose proof (law_alive p w2) as Ha. destruct (th_alive p w2) as [alive w3]. cbn in Ha. destruct alive.
  { apply wp_bind. eapply wp_mono; [apply wp_trivial|..]; done. }
  apply wp_bind. unfold wp at 1, host. pose proof (law_report p w3) as Hr.
  destruct (th_report p w3) as [o w4]. cbn in Hr. apply wp_bind, wp_lift.
  destruct (outcome mode o) as [[received|]|e]; [|done|done]. apply wp_bind, wp_guard_raise.
  destruct (rr_nbytes received =? sr_nbytes r) eqn:E; cbn; [|done].
  split_and!; [|exact Hn|lia]. unfold left_over in *. set_solver.
Qed.

Lemma transfer_checks_buffer source destination n m e mode :
  transfer_checks source destination n m e = Ok mode →
  ∃ b, _tensor_buffer source false = Ok b.
Proof using. unfold transfer_checks. destruct (_tensor_buffer source false) as [b|]; [eauto|done]. Qed.

(** When it returns, no worker is left that it started, and the receiver reported every
    byte of every round. *)
Theorem local_transfer_returns a source destination i w :
  wp (transfer_tensor_local a source destination i)
    (λ r w', receiving w' ⊆ receiving w ∧
       ∃ b, _tensor_buffer source false = Ok b ∧
         lt_nbytes r = Z.of_nat (length (tb_bytes b)) * t_iterations a)
    (λ _ _, True) w.
Proof using HostRel0 DeviceRel0.
  unfold transfer_tensor_local. set (R := receiving w). assert (Hw : left_over R w) by (unfold left_over; done).
  apply wp_bind, wp_lift. destruct (transfer_checks _ _ _ _ _) as [mode|] eqn:Hm; [|done].
  destruct (transfer_checks_buffer _ _ _ _ _ _ Hm) as [b Hb].
  apply wp_bind. eapply (wp_left _ _ _ R); [hosted|done| |done]. intros es w1 H1.
  apply wp_bind, wp_lift. destruct (two es) as [[se re]|]; [|done].
  apply wp_bind. eapply (wp_left _ _ _ R); [hosted|done| |done]. intros cpus w2 H2.
  apply wp_bind, wp_lift. destruct (transfer_ends _ _ _ _ _) as [[s r]|]; [|done].
  apply wp_bind, wp_host. intros p w3 Hs.
  destruct (law_start mode r destination (t_iterations a) w2) as [_ H3]. rewrite Hs in H3. cbn in H3.
  apply wp_bind, wp_host. intros ready w4 Hr. pose proof (law_ready (t_timeout a) w3) as H4.
  rewrite Hr in H4. cbn in H4. apply wp_bind, wp_guard_raise. destruct (negb ready); [done|].
  apply wp_bind, wp_host. intros o w5 Ho. pose proof (law_report p w4) as H5'. rewrite Ho in H5'.
  cbn in H5'. assert (H5 : left_over ({[p]} ∪ R) w5) by (unfold left_over in *; set_solver).
  clear H3 H4 H5'.
  apply wp_bind. eapply (wp_left _ _ _ ({[p]} ∪ R)); [destruct o; hosted|done| |done]. intros _ w6 H6.
  apply wp_bind. eapply (wp_left _ _ _ ({[p]} ∪ R)); [apply counters_along|done| |done]. intros before w7 H7.
  apply wp_bind. eapply (wp_left _ _ _ ({[p]} ∪ R)); [hosted|done| |done]. intros t0 w8 H8.
  apply wp_bind. eapply wp_mono; [by apply (wp_send_and_join _ _ _ _ _ _ b R)| |done].
  intros [sr rr] w9 (H9 & Hn & Hrr). cbn [fst snd] in Hn, Hrr.
  apply wp_bind. eapply (wp_left _ _ _ R); [hosted|done| |done]. intros t1 w10 H10.
  apply wp_bind. eapply (wp_left _ _ _ R); [apply counters_along|done| |done]. intros after w11 H11.
  apply wp_bind, wp_lift. destruct (path_verdict _ _ _) as [v|] eqn:Hv; [|done]. apply wp_ret. cbn.
  split; [done|]. by exists b.
Qed.
End Local.
