(* ===== verification/BenchExamples.v ===== *)
(** The TCP benchmarks on a concrete host: a driver that fails half way, CPUs of two NICs,
    a list of CPUs read back, an echo over the loopback network of TransportTheorems, a
    local transfer whose receiver is left running, and the plan of the all-reduce benchmark. *)

From Stdlib Require Import SpecFloat.
From S2P Require Import Prelude Bytes Json.
From S2P Require Import Verbs Stream Transport TransportTheorems.
From S2P Require Import BenchText Bench BenchWorkers BenchTheorems.
From S2P Require Import LocalTransfer LocalTransferTheorems.
From S2P Require Import AllreduceBench.
#[local] Open Scope Z_scope.

(** * A host *)

#[local] Instance ascii_text : PyText := {|
  float_repr := λ _, lit "nan";
  float_of_literal := λ _, FNaN;
  int_of_str s := if bool_decide (s = []) || negb (forallb is_digit s) then None else Some (digits_value s);
|}.

Definition ips : list (str * Ip) := [(lit "10.0.0.1", IPv4 167772161); (lit "10.0.0.2", IPv4 167772162)].

#[local] Instance text : BenchText := {|
  float_of_str := λ _, None;
  ip_address v := match v with JStr s => default NotAnIp (assoc s ips) | _ => NotAnIp end;
  ip_text a := match a with IPv4 a => digits a | IPv6 a => digits a | NotAnIp => [] end;
  lower s := (λ c, if (65 <=? c) && (c <=? 90) then c + 32 else c) <$> s;
  py_sum := foldl (SFadd 53 1024) (S754_zero false);
|}.

(** How many processes were started, those that run, and the time.  The processes with an
    odd number ignore SIGTERM. *)
Record box := mk_box { bx_started : nat; bx_alive : list nat; bx_time : Z }.
Definition without (p : nat) (b : box) : box :=
  mk_box (bx_started b) (filter (λ q, q ≠ p) (bx_alive b)) (bx_time b).

(** What [ip -json address] prints. *)
Definition addresses_of (interface : str) : json :=
  JList [JObj [(lit "addr_info", JList [JObj
    [(lit "family", JStr (lit "inet")); (lit "scope", JStr (lit "global"));
     (lit "local", JStr (if bool_decide (interface = lit "eth1") then lit "10.0.0.1" else lit "10.0.0.2"))]])]].

#[local] Instance box_host : BenchHost box := {|
  bh_run c b :=
    match c with
    | program :: _ =>
        if bool_decide (program = lit "ip")
        then (Ok (Ran 0 (dumps (addresses_of (List.last c []))) []), b) else (Ok RanNotFound, b)
    | [] => (Ok RanNotFound, b)
    end;
  bh_read_text _ b := (Raise OSError, b);
  bh_write_json _ b := (Ok tt, b);
  bh_mkdir _ b := (Ok tt, b);
  bh_which _ b := (true, b);
  bh_getaffinity b := ([0; 1; 2; 3; 4; 5; 6; 7], b);
  bh_setaffinity _ b := (Ok tt, b);
  bh_popen _ _ _ b := (Ok (bx_started b), mk_box (S (bx_started b)) (bx_started b :: bx_alive b) (bx_time b));
  bh_poll p b := (if bool_decide (p ∈ bx_alive b) then None else Some 0, b);
  bh_terminate p b := if Nat.odd p then b else without p b;
  bh_wait p b := (Ok 0, without p b);
  bh_wait_for p _ b := (if bool_decide (p ∈ bx_alive b) then None else Some 0, b);
  bh_kill p b := without p b;
  bh_sleep _ b := (Ok tt, b);
  bh_ns b := (bx_time b, mk_box (bx_started b) (bx_alive b) (bx_time b + 1));
  bh_stamp b := (lit "now", b);
|}.

Lemma without_alive p b : (list_to_set (bx_alive (without p b)) : gset nat) ⊆ list_to_set (bx_alive b) ∖ {[p]}.
Proof.
  intros q. cbn. rewrite elem_of_difference, !elem_of_list_to_set, list_elem_of_filter, elem_of_singleton. tauto.
Qed.

#[local] Instance box_laws : ProcLaws box.
Proof.
  refine {| running b := list_to_set (bx_alive b) |}; intros; cbn; try set_solver.
  - case_bool_decide as Hin; [done|]. intros q Hq. rewrite elem_of_difference, elem_of_singleton.
    split; [done|]. intros ->. by rewrite elem_of_list_to_set in Hq.
  - apply without_alive.
  - case_bool_decide as Hin; [done|]. intros q Hq. rewrite elem_of_difference, elem_of_singleton.
    split; [done|]. intros ->. by rewrite elem_of_list_to_set in Hq.
  - apply without_alive.
  - destruct (Nat.odd p); [done|]. pose proof (without_alive p w). set_solver.
  - destruct c as [|program c]; [done|]. by case_bool_decide.
Defined.

(** No network. *)
#[local] Instance box_recv : SockRecv Sock box := λ _ _ b, (Raise OSError, b).
#[local] Instance box_device : FlowDevice box := {|
  fd_set_affinity _ b := (Ok tt, b);
  fd_socket _ b := (Raise OSError, b);
  fd_close _ b := b;
  fd_setsockopt _ _ _ b := (Raise OSError, b);
  fd_settimeout _ _ b := b;
  fd_bind _ _ b := (Raise OSError, b);
  fd_connect _ _ b := (Raise OSError, b);
  fd_listen _ _ b := (Raise OSError, b);
  fd_accept _ b := (Raise OSError, b);
  fd_sendall _ _ b := (Raise OSError, b);
  fd_tcp_info _ _ := None;
  fd_barrier _ b := (Ok tt, b);
  fd_go b := b;
  fd_ready b := b;
  fd_perf_counter_ns b := (bx_time b, b);
|}.
#[local] Instance box_apart : SocketsApart box.
Proof. by split. Qed.

(** * A driver that fails half way

    Two flows are started on each side; then [ethtool] is missing. *)
Definition two_flows : Args :=
  mk_Args [lit "eth1"; lit "eth2"] None [] 2 5201 (lit "iperf3") (Some [lit "out"]) false false
    15 2 7 5 (lit "1M") (S754_zero false) (S754_zero false) false false.
Definition idle_box : box := mk_box 0 [] 0.
Definition ended : result Z * box := run_local two_flows idle_box.

Lemma nothing_alive (b b' : box) : fewer b b' → bx_alive b = [] → bx_alive b' = [].
Proof.
  unfold fewer. cbn. intros H E. rewrite E in H. destruct (bx_alive b') as [|p l]; [done|]. set_solver.
Qed.

Lemma drivers_leave_no_process_witness :
  ended.1 = Raise RuntimeError ∧ bx_started ended.2 = 4%nat ∧ bx_alive ended.2 = [].
Proof.
  split; [by vm_compute|]. split; [by vm_compute|].
  destruct (drivers_leave_no_process two_flows
    (mk_PyArgs [] [] None 1 1 1 1 1 1 1 (S754_zero false) None false false false)
    (mk_LatArgs [] [] None [] 1 1 1 None false false false)) as (_ & _ & H & _).
  by apply (nothing_alive idle_box); [exact (H idle_box)|].
Defined.

(** * CPUs of two NICs *)

Definition nic (name : string) : Endpoint := mk_Endpoint (lit name) (IPv4 1) None None.
Definition nics : list Endpoint := [nic "eth1"; nic "eth2"].
Definition pools : gmap str (list Z) :=
  <[lit "eth1" := [0; 1; 2; 3]]> (<[lit "eth2" := [2; 3; 4; 5]]> ∅).

Lemma flows_share_no_cpu_witness :
  ∃ cpus css, assign_all nics pools 2 ∅ ∅ = Ok cpus ∧
    cpus !! lit "eth2" = Some [Some 2; Some 3] ∧ css = [[0; 1]; [2; 3]] ∧ NoDup (concat css).
Proof.
  destruct (flows_share_no_cpu pools 2 nics ltac:(done)) as (cpus & css & Ha & Hp & Hn).
  - by apply (bool_decide_unpack _); vm_compute.
  - intros e He. apply elem_of_cons in He as [->|He]; [by exists [0; 1; 2; 3]|].
    apply list_elem_of_singleton in He as ->. by exists [2; 3; 4; 5].
  - assert (Hc : assign_all nics pools 2 ∅ ∅ =
      Ok (<[lit "eth2" := [Some 2; Some 3]]> (<[lit "eth1" := [Some 0; Some 1]]> ∅))) by by vm_compute.
    rewrite Ha in Hc. injection Hc as Hc. exists cpus, css. split; [exact Ha|]. subst cpus.
    split; [by vm_compute|]. inversion Hp as [|e1 c1 es1 l1 H1 H2]; subst.
    inversion H2 as [|e2 c2 es2 l2 H3 H4]; subst. inversion H4; subst.
    destruct H1 as (H1 & _ & _), H3 as (H3 & _ & _). vm_compute in H1, H3.
    destruct c1 as [|? [|? []]]; try done. destruct c2 as [|? [|? []]]; try done.
    simplify_eq. split; [done|]. apply Hn. intros e pool He Hpool.
    apply elem_of_cons in He as [->|He]; [|apply list_elem_of_singleton in He as ->];
      vm_compute in Hpool; simplify_eq; (split; [by apply (bool_decide_unpack _); vm_compute|done]).
Defined.

(** * A receiver left running

    Receivers are processes of the box, ready at once. *)
#[local] Instance box_transfers : TransferHost box := {|
  th_start _ _ _ _ b := (bx_started b, mk_box (S (bx_started b)) (bx_started b :: bx_alive b) (bx_time b));
  th_ready _ b := (true, b);
  th_report _ b := (Silent, b);
  th_join p t b := match t with None => without p b | Some _ => b end;
  th_alive p b := (bool_decide (p ∈ bx_alive b), b);
  th_terminate p b := without p b;
|}.

Definition shared_tensor : Tensor := TShared (mk_SharedTensor 4 (Some [1; 2; 3; 4])).
Definition verified_transfer : TransferArgs :=
  mk_TransferArgs [lit "eth1"; lit "eth2"] None 2 6201 2 2 true true AAuto 1 120.

(** The receiver is a process; [ethtool] is missing, so that reading the counters raises, and
    the process is neither joined nor terminated. *)
Example receiver_left_running :
  let '(r, b) := transfer_tensor_local verified_transfer shared_tensor shared_tensor (replicate 16 7) idle_box in
  r = Raise RuntimeError ∧ bx_alive b = [0%nat].
Proof. by vm_compute. Qed.

(** * An echo *)

#[local] Existing Instances Loopback.recv3 Loopback.laws Loopback.device Loopback.flow_laws Loopback.sent_laws.

#[local] Instance loopback_echo : EchoLaws Loopback.world.
Proof.
  refine {| connected w s := is_Some (Loopback.lo_sent w !! sk_fd s) |}.
  - intros s b w [d Hd]. cbn. rewrite Hd. cbn. split; [done|].
    rewrite list_lookup_insert_eq by (by eapply lookup_lt_Some). done.
  - done.
  - intros s b w c. cbn. by destruct (Loopback.lo_sent w !! sk_fd s).
  - done.
Defined.

(** Two messages of four bytes, read three bytes at a time. *)
Definition two_messages : Loopback.world := Loopback.mk_world [[1; 2; 3; 4; 5; 6; 7; 8]] [[]] 0.

Lemma echo_returns_messages_witness :
  ∃ w', echo 3 (mk_Sock 0) 4 two_messages = (Ok (Some 0), w') ∧
    Loopback.lo_sent w' !! 0%nat = Some [1; 2; 3; 4; 5; 6; 7; 8].
Proof.
  destruct (echo_returns_messages 3 (mk_Sock 0) 4 two_messages [[1; 2; 3; 4]; [5; 6; 7; 8]] [])
    as (w' & Hw & Hs); [lia|by repeat constructor|cbn; lia|cbn; lia|by exists []|done|].
  exists w'. split; [exact Hw|]. cbn in Hs. by destruct (Loopback.lo_sent w' !! 0%nat) as [l|]; cbn in Hs; subst.
Defined.

(** * The all-reduce benchmark *)

(** A trailing comma is an IndexError, which the argument parser does not report. *)
Example sizes_trailing_comma :
  _parse_sizes (lit "1k, 16M,64") = Ok [1024; 16777216; 64] ∧
  _parse_sizes (lit "1k,0") = Raise ArgumentTypeError ∧
  _parse_sizes (lit "1k,") = Raise IndexError.
Proof. by vm_compute. Qed.

Example dtypes_checked :
  _parse_dtypes (lit "Float32,, uint8") = Ok [lit "float32"; lit "uint8"] ∧
  _parse_dtypes (lit "float32,float") = Raise ArgumentTypeError.
Proof. by vm_compute. Qed.

(** Four ranks with every test: the uuids of the first and of the last rank. *)
Example plan_of_four :
  let a := mk_AllreduceArgs 1 2 true true in
  (l ← plan a 4 0; Ok (List.map gn_uuid l)) = Ok [1; 2; 3; 4; 5; 6; 7; 8; 9; 13] ∧
  (l ← plan a 4 3; Ok (List.map gn_uuid l)) = Ok [1; 2; 3; 5; 6; 7; 8; 12; 13] ∧
  plan a 2 0 = Raise ValueError.
Proof. by vm_compute. Qed.
