(* ===== verification/GpuNetIO.v ===== *)
(** Exporting queue pairs to GPUNetIO: src/ibverbs/src/ibverbs/gpunetio/_runtime.py.

    The module keeps, for the process, how many exports use each page of host
    memory; the pages are registered with CUDA once.  The counts are changed under a lock,
    so each call here is one step of the process.  [h_registered], [h_gpus] and
    [h_exports] are no variables of the source: they are the pages that CUDA has
    registered and the DOCA handles that were created and not destroyed, so that
    the reference counts and the cleanups can be stated.  The CUDA and DOCA
    libraries, [ctypes.CDLL] and the queue pair's methods are the operations of
    [GpuLib]; the declarations of C signatures are not modelled.  [close_pages_counts],
    [register_queue_memory_spec] and [export_spec] say that whatever fails, the
    reference counts are those of the mappings alive. *)

From stdpp Require Import gmultiset.
From S2P Require Import Prelude Bytes Json.
#[local] Open Scope Z_scope.

(** What [_mlx5dv_bridge_info] tells of a queue pair and its completion queues. *)
Record QueueInfo := mk_QueueInfo {
  sq_qpn : Z; sq_wqe_addr : Z; sq_wqe_num : Z; sq_wqe_stride : Z; sq_dbrec : Z; sq_db : Z;
  uar_size : Z;
  sq_cqn : Z; sq_cqe_addr : Z; sq_cqe_num : Z; sq_cqe_size : Z; sq_cq_dbrec : Z;
  rq_qpn : Z; rq_wqe_addr : Z; rq_wqe_num : Z; rcv_wqe_size : Z; rq_dbrec : Z;
  rq_cqn : Z; rq_cqe_addr : Z; rq_cqe_num : Z; rq_cqe_size : Z; rq_cq_dbrec : Z;
}.

(** The eight addresses of queue memory. *)
Definition queue_addresses (i : QueueInfo) : list Z :=
  [sq_wqe_addr i; rq_wqe_addr i; sq_dbrec i; rq_dbrec i; sq_cqe_addr i; sq_cq_dbrec i;
   rq_cqe_addr i; rq_cq_dbrec i].
Definition set_addresses (l : list Z) (i : QueueInfo) : QueueInfo :=
  match l with
  | [a; b; c; d; e; f; g; h] =>
      mk_QueueInfo (sq_qpn i) a (sq_wqe_num i) (sq_wqe_stride i) c (sq_db i) (uar_size i)
        (sq_cqn i) e (sq_cqe_num i) (sq_cqe_size i) f
        (rq_qpn i) b (rq_wqe_num i) (rcv_wqe_size i) d
        (rq_cqn i) g (rq_cqe_num i) (rq_cqe_size i) h
  | _ => i
  end.

(** * The libraries *)

(** Calls return a status, 0 for success.  [gl_find] is [ctypes.util.find_library];
    [gl_open] is [ctypes.CDLL] with the signatures set, [gl_init] is [cuInit];
    [gl_current] is [cuCtxGetDevice],
    [gl_bus_id] is [cuDeviceGetPCIBusId]; [gl_export] has the GPU handle, the queues
    and the doorbell handler; [gl_acquire] and [gl_release] are the queue pair's
    [_acquire_external_datapath] and [_release_external_datapath]. *)
Class GpuLib (W : Type) := {
  gl_page_size : Z;
  gl_find : str → W → option str * W;
  gl_open : str → W → result unit * W;
  gl_init : W → Z * W;
  gl_current : W → (Z * Z) * W;
  gl_bus_id : Z → W → (Z * str) * W;
  gl_register : Z → Z → W → Z * W;
  gl_unregister : Z → W → Z * W;
  gl_device_pointer : Z → W → (Z * Z) * W;
  gl_create : str → W → (Z * Z) * W;
  gl_destroy : Z → W → Z * W;
  gl_export : Z → QueueInfo → Z → W → (Z * Z) * W;
  gl_unexport : Z → Z → W → Z * W;
  gl_get_dev : Z → W → (Z * Z) * W;
  gl_proxy : Z → W → (Z * Z) * W;
  gl_progress : Z → W → Z * W;
  gl_bridge_info : nat → W → result QueueInfo * W;
  gl_acquire : nat → W → result unit * W;
  gl_release : nat → W → result unit * W;
}.

(** * State *)

(** [h_refs] is [_host_memory_refs], [h_lib] the name [_lib] was loaded by; [h_mem]
    the bytes of host memory. *)
Record Host (W : Type) := mk_Host {
  h_refs : gmap Z Z;
  h_registered : gset Z;
  h_mem : Z → Z;
  h_lib : option str;
  h_gpus : gmultiset Z;
  h_exports : gmultiset Z;
  h_world : W;
}.
Arguments mk_Host {W}. Arguments h_refs {W}. Arguments h_registered {W}. Arguments h_mem {W}. Arguments h_lib {W}.
Arguments h_gpus {W}. Arguments h_exports {W}. Arguments h_world {W}.

Inductive Handler := HAuto | HCpu | HGpu.
#[global] Instance Handler_eq_dec : EqDecision Handler.
Proof. solve_decision. Defined.

Definition _HANDLERS (h : Handler) : Z := match h with HAuto => 0 | HCpu => 1 | HGpu => 2 end.
(** [nic_handler in _HANDLERS] *)
Definition handler_of (s : str) : option Handler :=
  if bool_decide (s = lit "auto") then Some HAuto
  else if bool_decide (s = lit "cpu") then Some HCpu
  else if bool_decide (s = lit "gpu") then Some HGpu else None.

Definition _MLX5_CQE_INVALID : Z := 0xF.

Section Runtime.
Context {W : Type} `{!GpuLib W}.
Abbreviation G := (M (Host W)).

Definition with_host {A} (f : W → A * W) (s : Host W) : A * Host W :=
  let '(a, w) := f (h_world s) in
  (a, mk_Host (h_refs s) (h_registered s) (h_mem s) (h_lib s) (h_gpus s) (h_exports s) w).
Definition hcall {A} (f : W → result A * W) : G A := with_host f.
Definition hask {A} (f : W → A * W) : G A := λ s, let '(a, s) := with_host f s in (Ok a, s).

Definition set_refs (f : gmap Z Z → gmap Z Z) : G unit := modify (λ s,
  mk_Host (f (h_refs s)) (h_registered s) (h_mem s) (h_lib s) (h_gpus s) (h_exports s) (h_world s)).
Definition set_mem (f : (Z → Z) → Z → Z) : G unit := modify (λ s,
  mk_Host (h_refs s) (h_registered s) (f (h_mem s)) (h_lib s) (h_gpus s) (h_exports s) (h_world s)).
Definition set_lib (l : str) : G unit := modify (λ s,
  mk_Host (h_refs s) (h_registered s) (h_mem s) (Some l) (h_gpus s) (h_exports s) (h_world s)).
Definition note_registered (f : gset Z → gset Z) : G unit := modify (λ s,
  mk_Host (h_refs s) (f (h_registered s)) (h_mem s) (h_lib s) (h_gpus s) (h_exports s) (h_world s)).
Definition note_gpus (f : gmultiset Z → gmultiset Z) : G unit := modify (λ s,
  mk_Host (h_refs s) (h_registered s) (h_mem s) (h_lib s) (f (h_gpus s)) (h_exports s) (h_world s)).
Definition note_exports (f : gmultiset Z → gmultiset Z) : G unit := modify (λ s,
  mk_Host (h_refs s) (h_registered s) (h_mem s) (h_lib s) (h_gpus s) (f (h_exports s)) (h_world s)).
Definition refs : G (gmap Z Z) := s ← get; mret (h_refs s).
Definition mem : G (Z → Z) := s ← get; mret (h_mem s).

(** ** The libraries *)

Definition _load_cuda_driver : G unit :=
  try_except (hcall (gl_open (lit "libcuda.so.1")))
    (λ e, if is_OSError e then raise RuntimeError else raise e);;
  status ← hask gl_init;
  guard_raise (negb (status =? 0)) RuntimeError.

Fixpoint load_first (names : list (option str)) : G unit :=
  match names with
  | [] => raise RuntimeError
  | None :: names | Some [] :: names => load_first names
  | Some name :: names =>
      try_except (hcall (gl_open name);; set_lib name)
        (λ e, if is_OSError e then load_first names else raise e)
  end.
Definition _load_library : G unit :=
  s ← get;
  match h_lib s with
  | Some _ => mret tt
  | None =>
      found ← hask (gl_find (lit "doca_gpunetio"));
      load_first [found; Some (lit "libdoca_gpunetio.so.2"); Some (lit "libdoca_gpunetio.so")]
  end.

(** ** Pages *)

Definition host_register (base : Z) : G Z :=
  status ← hask (gl_register base gl_page_size);
  (if status =? 0 then note_registered (λ l, {[base]} ∪ l) else mret tt);;
  mret status.
Definition host_unregister (base : Z) : G Z :=
  status ← hask (gl_unregister base);
  (if status =? 0 then note_registered (λ l, l ∖ {[base]}) else mret tt);;
  mret status.

(** The loop of [_CudaHostMappings.close]: the pages that remain, and the first
    error status (0 is none). *)
Fixpoint close_pages (pages : list Z) : G (list Z * Z) :=
  match pages with
  | [] => mret ([], 0)
  | base :: pages =>
      m ← refs;
      match m !! base with
      | None => raise KeyError
      | Some references =>
          if 1 <? references then
            set_refs (<[base := references - 1]>);; close_pages pages
          else
            status ← host_unregister base;
            if status =? 0 then set_refs (delete base);; close_pages pages
            else r ← close_pages pages; mret (base :: r.1, status)
      end
  end.
(** [_CudaHostMappings.close]: the pages that are still to close, and what it raises. *)
Definition mappings_close (pages : list Z) : G (list Z * option exn) :=
  r ← close_pages pages;
  mret (r.1, if r.2 =? 0 then None else Some RuntimeError).

(** The pages of the eight ranges, ascending. *)
Definition queue_ranges (i : QueueInfo) : list (Z * Z) :=
  zip (queue_addresses i)
    [sq_wqe_num i * sq_wqe_stride i; rq_wqe_num i * rcv_wqe_size i; 4; 4;
     sq_cqe_num i * sq_cqe_size i; 4; rq_cqe_num i * rq_cqe_size i; 4].
(** [x & ~(page_size - 1)] *)
Definition page_floor (page_size x : Z) : Z := Z.land x (Z.lnot (page_size - 1)).
(** [range(base, end, page_size)] *)
Definition range_pages (page_size address size : Z) : list Z :=
  let base := page_floor page_size address in
  let stop := page_floor page_size (address + size + page_size - 1) in
  (λ k, base + k * page_size) <$> seqZ 0 ((stop - base + page_size - 1) `div` page_size).
Definition pages_of (page_size : Z) (i : QueueInfo) : list Z :=
  merge_sort (≤) (remove_dups (r ← queue_ranges i; range_pages page_size r.1 r.2)).

(** Take a reference to each page; the pages taken so far are given back when one
    cannot be registered. *)
Fixpoint acquire_pages (pages acquired : list Z) : G (list Z) :=
  match pages with
  | [] => mret acquired
  | base :: pages =>
      m ← refs;
      let references := default 0 (m !! base) in
      status ← (if references =? 0 then host_register base else mret 0);
      if negb (status =? 0) then
        (* the [except] of _register_queue_memory *)
        match acquired with
        | [] => raise RuntimeError
        | _ :: _ =>
            r ← mappings_close acquired;
            raise (default RuntimeError r.2)
        end
      else
        set_refs (<[base := references + 1]>);;
        acquire_pages pages (acquired ++ [base])
  end.

Fixpoint device_pointers (addresses : list Z) : G (list Z) :=
  match addresses with
  | [] => mret []
  | a :: addresses =>
      sv ← hask (gl_device_pointer a);
      guard_raise (negb (sv.1 =? 0)) RuntimeError;;
      l ← device_pointers addresses;
      mret (sv.2 :: l)
  end.

Definition _register_queue_memory (i : QueueInfo) : G (QueueInfo * list Z) :=
  _load_cuda_driver;;
  acquired ← acquire_pages (pages_of gl_page_size i) [];
  try_except
    (l ← device_pointers (queue_addresses i); mret (set_addresses l i, acquired))
    (λ e, if is_Exception e
          then r ← mappings_close acquired; raise (default e r.2)
          else raise e).

(** ** Queue layout *)

Definition _validate_queue_layout (i : QueueInfo) : G unit :=
  guard_raise (negb (sq_wqe_stride i =? 64)) ValueError;;
  guard_raise (negb (rcv_wqe_size i =? 16)) ValueError;;
  guard_raise (negb (sq_cqe_size i =? 64) || negb (rq_cqe_size i =? 64)) ValueError.

(** A completion queue: address, entries, entry size, and its doorbell record. *)
Definition Cq : Type := (Z * Z * Z) * Z.
Definition cqs_of (i : QueueInfo) : list Cq :=
  [((sq_cqe_addr i, sq_cqe_num i, sq_cqe_size i), sq_cq_dbrec i);
   ((rq_cqe_addr i, rq_cqe_num i, rq_cqe_size i), rq_cq_dbrec i)].
(** [ctypes.c_uint8.from_address(address + index * size + size - 1)] for all entries *)
Definition owner_bytes (c : Cq) : list Z :=
  let '(address, count, size) := c.1 in
  (λ index, address + index * size + size - 1) <$> seqZ 0 count.

Definition check_owner (a : Z) : G unit :=
  m ← mem; guard_raise (negb (Z.shiftr (m a) 4 =? _MLX5_CQE_INVALID)) ValueError.
(** The first loop: the queues not seen before, each checked to be fresh. *)
Fixpoint fresh_cqs (seen : list (Z * Z * Z)) (l : list Cq) : G (list Cq) :=
  match l with
  | [] => mret []
  | c :: l =>
      if bool_decide (c.1 ∈ seen) then fresh_cqs seen l
      else
        for_each check_owner (owner_bytes c);;
        cqs ← fresh_cqs (c.1 :: seen) l;
        mret (c :: cqs)
  end.
Definition poke (a v : Z) : G unit :=
  set_mem (λ m b, if b =? a then v else m b).
Definition own_entry (a : Z) : G unit := m ← mem; poke a (Z.lor (m a) 1).
Definition clear_u32 (a : Z) : G unit := for_each (λ k, poke (a + k) 0) [0; 1; 2; 3].
Definition _initialize_cqs (i : QueueInfo) : G unit :=
  cqs ← fresh_cqs [] (cqs_of i);
  for_each (λ c, for_each own_entry (owner_bytes c);; clear_u32 c.2) cqs.

(** ** PCI addresses *)

(** [gpu]: None, a device index or a PCI address. *)
Inductive GpuArg := GpuCurrent | GpuIndex (index : Z) | GpuAddress (value : str).

Definition _cuda_bus_id (index : option Z) : G str :=
  _load_cuda_driver;;
  index ← match index with
          | Some index => mret index
          | None =>
              sv ← hask gl_current;
              guard_raise (negb (sv.1 =? 0)) RuntimeError;; mret sv.2
          end;
  sv ← hask (gl_bus_id index);
  guard_raise (negb (sv.1 =? 0)) RuntimeError;;
  mret sv.2.

Definition is_hex (c : Z) : bool :=
  ((48 <=? c) && (c <=? 57)) || ((97 <=? c) && (c <=? 102)) || ((65 <=? c) && (c <=? 70)).
(** [str.lower], on hexadecimal digits *)
Definition lower_hex (c : Z) : Z := if (65 <=? c) && (c <=? 90) then c + 32 else c.

(** [re.fullmatch]: what follows the optional domain is always seven characters. *)
Definition match_domain (s : str) : option str :=
  match reverse s with
  | [] => Some (lit "0000")
  | c :: r =>
      if (c =? 58) && forallb is_hex r && bool_decide (4 ≤ length r ≤ 8)%nat
      then Some (reverse r) else None
  end.
Definition match_address (s : str) : option (str * str * str * str) :=
  let head := take (length s - 7) s in
  match drop (length s - 7) s with
  | [b1; b2; c1; d1; d2; c2; f] =>
      if forallb is_hex [b1; b2; d1; d2] && (c1 =? 58) && (c2 =? 46)
         && (48 <=? f) && (f <=? 55)
      then domain ← match_domain head; Some (domain, [b1; b2], [d1; d2], [f])
      else None
  | _ => None
  end.
(** The last four characters of the domain, and all in lower case. *)
Definition canonical_address (s : str) : option str :=
  '(domain, bus, device, function) ← match_address s;
  Some ((lower_hex <$> drop (length domain - 4) domain) ++ [58] ++ (lower_hex <$> bus)
        ++ [58] ++ (lower_hex <$> device) ++ [46] ++ function).
Definition _normalize_bus_id (gpu : GpuArg) : G str :=
  value ← match gpu with
          | GpuCurrent => _cuda_bus_id None
          | GpuIndex index => _cuda_bus_id (Some index)
          | GpuAddress value => mret value
          end;
  match canonical_address value with Some s => mret s | None => raise ValueError end.

(** ** DeviceQP *)

(** 0 is the null handle; [dq_mappings] are the pages of [_mappings]. *)
Record DeviceQP := mk_DeviceQP {
  dq_gpu : Z; dq_exported : Z; dq_device : Z;
  dq_qp : option nat;
  dq_mappings : option (list Z);
  gpu_bus_id : str;
  nic_handler : Handler;
  cpu_proxy : bool;
}.

Definition _check (status : Z) : G unit :=
  guard_raise (negb (status =? 0)) (GPUNetIOError status).

(** [doca_gpu_create] and the rest, which write the handle they are given. *)
Definition gpu_create (bus : str) : G (Z * Z) :=
  sv ← hask (gl_create bus);
  (if sv.1 =? 0 then note_gpus (λ l, {[+ sv.2 +]} ⊎ l) else mret tt);; mret sv.
Definition gpu_destroy (g : Z) : G Z :=
  status ← hask (gl_destroy g);
  (if status =? 0 then note_gpus (λ l, l ∖ {[+ g +]}) else mret tt);; mret status.
Definition export_qp (g : Z) (i : QueueInfo) (h : Handler) : G (Z * Z) :=
  sv ← hask (gl_export g i (_HANDLERS h));
  (if sv.1 =? 0 then note_exports (λ l, {[+ sv.2 +]} ⊎ l) else mret tt);; mret sv.
Definition unexport_qp (g x : Z) : G Z :=
  status ← hask (gl_unexport g x);
  (if status =? 0 then note_exports (λ l, l ∖ {[+ x +]}) else mret tt);; mret status.

(** The [except] of [DeviceQP.export]. *)
Definition export_cleanup (g x : Z) (pages : list Z) (e : exn) : G DeviceQP :=
  if negb (is_Exception e) then raise e
  else
    (if negb (x =? 0) then unexport_qp g x;; mret tt else mret tt);;
    (if negb (g =? 0) then gpu_destroy g;; mret tt else mret tt);;
    try_except (mappings_close pages;; mret tt)
      (λ e', if is_Exception e' then mret tt else raise e');;
    raise e.

(** The body of its [try], from the creation of the GPU handle on; the handles
    known when it fails are those the cleanup releases. *)
Definition export_device (qp : nat) (bus : str) (h : Handler) (i : QueueInfo)
    (pages : list Z) : G DeviceQP :=
  gv ← gpu_create bus;
  let g := gv.2 in
  try_except (_check gv.1) (λ e, export_cleanup g 0 pages e;; mret tt);;
  xv ← export_qp g i h;
  let x := xv.2 in
  try_except
    (_check xv.1;;
     dv ← hask (gl_get_dev x);
     _check dv.1;;
     pv ← hask (gl_proxy x);
     _check pv.1;;
     guard_raise (bool_decide (h = HGpu) && negb (pv.2 =? 0)) RuntimeError;;
     hcall (gl_acquire qp);;
     mret (mk_DeviceQP g x dv.2 (Some qp) (Some pages) bus h (negb (pv.2 =? 0))))
    (export_cleanup g x pages).

(** [qp] is [None] for an object that is no ibverbs.QP. *)
Definition export (qp : option nat) (gpu : GpuArg) (handler : str) : G DeviceQP :=
  match handler_of handler, qp with
  | None, _ => raise ValueError
  | _, None => raise TypeError
  | Some h, Some qp =>
      _load_library;;
      bus ← _normalize_bus_id gpu;
      current ← _cuda_bus_id None;
      current ← _normalize_bus_id (GpuAddress current);
      guard_raise (negb (bool_decide (bus = current))) RuntimeError;;
      i ← hcall (gl_bridge_info qp);
      _validate_queue_layout i;;
      _initialize_cqs i;;
      '(i, pages) ← _register_queue_memory i;
      export_device qp bus h i pages
  end.

(** ** The methods of an exported queue pair *)

Definition closed (d : DeviceQP) : bool := dq_device d =? 0.
Definition device_ptr (d : DeviceQP) : result Z :=
  if closed d then Raise RuntimeError else Ok (dq_device d).

Abbreviation D := (M (DeviceQP * Host W)).
Definition on_host {A} (m : G A) : D A := λ s,
  let '(r, h) := m s.2 in (r, (s.1, h)).
Definition self : D DeviceQP := s ← get; mret s.1.
Definition set_self (f : DeviceQP → DeviceQP) : D unit := modify (λ s, (f s.1, s.2)).

Definition progress : D unit :=
  d ← self;
  guard_raise (closed d) RuntimeError;;
  guard_raise (negb (cpu_proxy d)) RuntimeError;;
  status ← on_host (hask (gl_progress (dq_exported d)));
  on_host (_check status).

Definition set_pages (pages : list Z) (d : DeviceQP) : DeviceQP :=
  mk_DeviceQP (dq_gpu d) (dq_exported d) (dq_device d) (dq_qp d) (Some pages)
    (gpu_bus_id d) (nic_handler d) (cpu_proxy d).
Definition clear (d : DeviceQP) : DeviceQP :=
  mk_DeviceQP 0 0 0 None None (gpu_bus_id d) (nic_handler d) (cpu_proxy d).

Definition close : D unit :=
  d ← self;
  if closed d then mret tt
  else
    match dq_mappings d, dq_qp d with
    | Some pages, Some qp =>
        r ← on_host (mappings_close pages);
        set_self (set_pages r.1);;
        match r.2 with Some e => raise e | None => mret tt end;;
        rc ← on_host (unexport_qp (dq_gpu d) (dq_exported d));
        guard_raise (negb (rc =? 0)) (GPUNetIOError rc);;
        on_host (hcall (gl_release qp));;
        rc ← on_host (gpu_destroy (dq_gpu d));
        set_self clear;;
        guard_raise (negb (rc =? 0)) (GPUNetIOError rc)
    | _, _ => raise AttributeError
    end.
(** [__exit__]: it lets the exception of the block go on. *)
Definition exit_device : D bool := close;; mret false.
End Runtime.

(** * Reference counts *)

Definition count (p : Z) (l : list Z) : Z := sumZ ((λ q, if decide (p = q) then 1 else 0) <$> l).

Lemma count_app p l k : count p (l ++ k) = count p l + count p k.
Proof. unfold count. by rewrite fmap_app, sumZ_app. Qed.
Lemma count_cons p q l : count p (q :: l) = (if decide (p = q) then 1 else 0) + count p l.
Proof. done. Qed.
Lemma count_nonneg p l : 0 ≤ count p l.
Proof. induction l as [|q l IH]; [done|]. rewrite count_cons. case_decide; lia. Qed.
Lemma count_pos p l : 0 < count p l ↔ p ∈ l.
Proof.
  induction l as [|q l IH]; [split; [done|by intros ?%not_elem_of_nil]|].
  rewrite count_cons, elem_of_cons, <- IH. pose proof (count_nonneg p l).
  case_decide; split; [by left|lia|right; lia|intros [?|?]; [done|lia]].
Qed.
#[global] Instance count_proper p : Proper ((≡ₚ) ==> eq) (count p).
Proof. intros l k H. unfold count. by rewrite H. Qed.

(** The page counts are those of the pages held, one entry for each mapping that
    holds the page; CUDA has registered just those pages. *)
Definition counted {W} (holds : list Z) (s : Host W) : Prop :=
  (∀ p, h_refs s !! p = if count p holds =? 0 then None else Some (count p holds)) ∧
  h_registered s = dom (h_refs s).

#[global] Instance counted_proper {W} : Proper ((≡ₚ) ==> eq ==> iff) (@counted W).
Proof.
  intros l k H s s' <-. unfold counted.
  split; intros [Hr Hd]; split; try done; intros p; rewrite Hr;
    by rewrite (count_proper p _ _ H).
Qed.

Section Counts.
Context {W : Type} `{!GpuLib W}.
Implicit Types (s : Host W) (holds rest pages : list Z).

(** What the ghost state needs to know of a state: the operations that leave it. *)
Definition same_counts s s' : Prop := h_refs s' = h_refs s ∧ h_registered s' = h_registered s.
Lemma counted_same holds s s' : same_counts s s' → counted holds s → counted holds s'.
Proof. intros [Hr Hg]. unfold counted. by rewrite Hr, Hg. Qed.

Lemma count_lookup holds s p n :
  counted holds s → h_refs s !! p = Some n → n = count p holds ∧ 0 < n.
Proof.
  intros [Hr _]. rewrite Hr. pose proof (count_nonneg p holds).
  destruct (_ =? _) eqn:E; [done|]. intros [= <-]. lia.
Qed.

(** One reference more, one less. *)
Lemma counted_push holds s s' p :
  counted holds s →
  h_refs s' = <[p := count p holds + 1]> (h_refs s) →
  h_registered s' = {[p]} ∪ h_registered s →
  counted (p :: holds) s'.
Proof.
  intros [Hr Hg] Hr' Hg'. split; [|rewrite Hg', Hr', dom_insert_L; congruence].
  intros q. rewrite Hr', count_cons. pose proof (count_nonneg p holds).
  destruct (decide (q = p)) as [->|Hne].
  - rewrite lookup_insert_eq. replace (_ =? 0) with false by lia. f_equal. lia.
  - rewrite lookup_insert_ne by done. rewrite Hr. by rewrite Z.add_0_l.
Qed.

Lemma counted_pop holds s s' p :
  counted (p :: holds) s →
  h_refs s' = (if count p holds =? 0 then delete p else <[p := count p holds]>) (h_refs s) →
  h_registered s' = (if count p holds =? 0 then h_registered s ∖ {[p]} else h_registered s) →
  counted holds s'.
Proof.
  intros [Hr Hg] Hr' Hg'.
  assert (Hp : is_Some (h_refs s !! p)).
  { rewrite Hr, count_cons, decide_True by done. pose proof (count_nonneg p holds).
    replace (_ =? 0) with false by lia. by eexists. }
  pose proof (count_nonneg p holds). destruct (count p holds =? 0) eqn:E; split.
  2: { by rewrite Hg', Hr', dom_delete_L, Hg. }
  3: { rewrite Hg', Hr', dom_insert_lookup_L by done. done. }
  all: intros q; rewrite Hr'; destruct (decide (q = p)) as [->|Hne].
  - by rewrite lookup_delete_eq, E.
  - rewrite lookup_delete_ne, Hr, count_cons, decide_False by done. by rewrite Z.add_0_l.
  - by rewrite lookup_insert_eq, E.
  - rewrite lookup_insert_ne, Hr, count_cons, decide_False by done. by rewrite Z.add_0_l.
Qed.

(** The calls on pages leave the rest of the state. *)
Definition pages_only : relation (Host W) := λ s s',
  h_mem s' = h_mem s ∧ h_gpus s' = h_gpus s ∧ h_exports s' = h_exports s.
#[local] Instance pages_only_preorder : PreOrder pages_only.
Proof. split; [done|]. intros x y z (?&?&?) (?&?&?). repeat split; congruence. Qed.

Lemma along_with_host {A} (f : W → result A * W) : along pages_only (hcall f).
Proof. intros s. unfold hcall, with_host. by destruct (f (h_world s)). Qed.
Lemma along_hask {A} (f : W → A * W) : along pages_only (hask f).
Proof. intros s. unfold hask, with_host. by destruct (f (h_world s)). Qed.
Lemma along_set_refs f : along pages_only (set_refs f).
Proof. done. Qed.
Lemma along_note_registered f : along pages_only (note_registered f).
Proof. done. Qed.
Lemma along_set_lib l : along pages_only (set_lib l).
Proof. done. Qed.
#[local] Hint Resolve along_with_host along_hask along_set_refs along_note_registered
  along_set_lib : along.

Lemma close_pages_only pages : along pages_only (close_pages pages).
Proof. induction pages as [|p pages IH]; cbn [close_pages]; along. Qed.
Lemma acquire_pages_only pages acquired : along pages_only (acquire_pages pages acquired).
Proof.
  pose proof close_pages_only. revert acquired.
  induction pages as [|p pages IH]; intros acquired; cbn [acquire_pages]; along.
Qed.
#[local] Hint Resolve close_pages_only acquire_pages_only : along.
Lemma device_pointers_only l : along pages_only (device_pointers l).
Proof. induction l as [|a l IH]; cbn [device_pointers]; along. Qed.
Lemma register_pages_only i : along pages_only (_register_queue_memory i).
Proof.
  pose proof close_pages_only. pose proof device_pointers_only.
  unfold _register_queue_memory, _load_cuda_driver. along.
Qed.

Lemma wp_hask {A} (f : W → A * W) Q E s :
  wp (hask f) Q E s ↔ Q (f (h_world s)).1 (with_host f s).2.
Proof. unfold wp, hask, with_host. by destruct (f (h_world s)). Qed.

(** A call of CUDA on a page either succeeds and changes what is registered, or fails
    and changes nothing. *)
Lemma wp_host_unregister p Q E s :
  (∀ st s', st = (gl_unregister p (h_world s)).1 → h_refs s' = h_refs s →
     h_registered s' = (if st =? 0 then h_registered s ∖ {[p]} else h_registered s) → Q st s') →
  wp (host_unregister p) Q E s.
Proof.
  intros HQ. unfold host_unregister, hask, with_host, wp, mbind, M_bind.
  destruct (gl_unregister p (h_world s)) as [st w] eqn:Ew.
  destruct (st =? 0) eqn:E1; apply HQ; cbn; by rewrite ?E1.
Qed.
Lemma wp_host_register p Q E s :
  (∀ st s', h_refs s' = h_refs s →
     h_registered s' = (if st =? 0 then {[p]} ∪ h_registered s else h_registered s) → Q st s') →
  wp (host_register p) Q E s.
Proof.
  intros HQ. unfold host_register, hask, with_host, wp, mbind, M_bind.
  destruct (gl_register p _ (h_world s)) as [st w] eqn:Ew.
  destruct (st =? 0) eqn:E1; apply HQ; cbn; by rewrite ?E1.
Qed.

(** Giving pages back: a page that others hold loses one reference, a page of which
    this was the last is unregistered, and one that CUDA does not unregister is kept
    with its reference. *)
Lemma close_pages_counts pages rest s :
  counted (pages ++ rest) s →
  wp (close_pages pages)
    (λ r s', counted (r.1 ++ rest) s' ∧ r.1 ⊆+ pages ∧ (r.2 = 0 ↔ r.1 = []) ∧
             ((∀ p w, (gl_unregister p w).1 = 0) → r.1 = []))
    (λ _ _, False) s.
Proof.
  revert rest s. induction pages as [|p pages IH]; intros rest s Hs; cbn [close_pages].
  { by apply wp_ret. }
  unfold refs. rewrite !wp_bind, wp_get, wp_ret.
  pose proof (count_nonneg p (pages ++ rest)) as Hnn.
  assert (Hp : h_refs s !! p = Some (1 + count p (pages ++ rest))).
  { destruct Hs as [Hr _]. rewrite Hr. cbn [app]. rewrite count_cons, decide_True by done.
    by replace (_ =? 0) with false by lia. }
  rewrite Hp. destruct (1 <? _) eqn:E1; rewrite wp_bind.
  - unfold set_refs. rewrite wp_modify.
    eapply wp_mono; [apply (IH rest)| |done]; [eapply counted_pop; [exact Hs|..]; cbn|].
    + replace (_ =? 0) with false by lia. f_equal. lia.
    + by replace (_ =? 0) with false by lia.
    + intros [k st] s' (H1 & H2 & H3). split; [done|]. split; [by apply submseteq_cons|done].
  - apply wp_host_unregister. intros st s' Hst Hr Hg. destruct (st =? 0) eqn:E2.
    + unfold set_refs. rewrite wp_bind, wp_modify.
      eapply wp_mono; [apply (IH rest)| |done]; [eapply counted_pop; [exact Hs|..]; cbn|].
      * replace (_ =? 0) with true by lia. by rewrite Hr.
      * by replace (_ =? 0) with true by lia.
      * intros [k st'] s'' (H1 & H2 & H3). split; [done|]. split; [by apply submseteq_cons|done].
    + rewrite wp_bind. eapply wp_mono; [apply (IH (p :: rest))| |done].
      * eapply counted_same; [|by rewrite <- Permutation_middle]. done.
      * intros [k st'] s'' (H1 & H2 & H3). apply wp_ret. cbn.
        rewrite (Permutation_middle k rest p). split; [done|].
        split; [by apply submseteq_skip|]. split; [split; [lia|done]|].
        intros Hu. rewrite Hu in Hst. lia.
Qed.

Lemma mappings_close_counts pages rest s :
  counted (pages ++ rest) s →
  wp (mappings_close pages)
    (λ r s', counted (r.1 ++ rest) s' ∧ r.1 ⊆+ pages ∧
             r.2 = (if bool_decide (r.1 = []) then None else Some RuntimeError) ∧
             ((∀ p w, (gl_unregister p w).1 = 0) → r.1 = []))
    (λ _ _, False) s.
Proof.
  intros Hs. unfold mappings_close. rewrite wp_bind.
  eapply wp_mono; [by apply (close_pages_counts _ rest)| |done].
  intros [k st] s' (H1 & H2 & H3 & H4). apply wp_ret. cbn in *. split_and!; try done.
  case_bool_decide as Hk; destruct (st =? 0) eqn:E; try done;
    exfalso; [apply Z.eqb_neq in E|apply Z.eqb_eq in E]; tauto.
Qed.

(** Taking pages: those not taken yet by anyone are registered; when one cannot be,
    the ones taken before it are given back. *)
Lemma acquire_pages_counts pages acquired rest s :
  counted (acquired ++ rest) s →
  wp (acquire_pages pages acquired)
    (λ l s', l = acquired ++ pages ∧ counted (l ++ rest) s')
    (λ _ s', ∃ left, counted (left ++ rest) s' ∧ left ⊆+ acquired ++ pages ∧
             ((∀ p w, (gl_unregister p w).1 = 0) → left = [])) s.
Proof.
  revert acquired s. induction pages as [|p pages IH]; intros acquired s Hs; cbn [acquire_pages].
  { apply wp_ret. by rewrite app_nil_r. }
  unfold refs. rewrite !wp_bind, wp_get, wp_ret.
  set (c := default 0 (h_refs s !! p)).
  assert (Hc : c = count p (acquired ++ rest)).
  { unfold c. destruct Hs as [Hr _]. rewrite Hr. destruct (_ =? 0) eqn:E; cbn; lia. }
  assert (Hpush : ∀ s', h_refs s' = h_refs s → h_registered s' = {[p]} ∪ h_registered s →
    wp (set_refs (<[p := c + 1]>) ≫= λ _, acquire_pages pages (acquired ++ [p]))
    (λ l s', l = acquired ++ p :: pages ∧ counted (l ++ rest) s')
    (λ _ s', ∃ left, counted (left ++ rest) s' ∧ left ⊆+ acquired ++ p :: pages ∧
             ((∀ p w, (gl_unregister p w).1 = 0) → left = [])) s').
  { intros s' Hr Hg. unfold set_refs. rewrite wp_bind, wp_modify.
    eapply wp_mono; [apply IH|..].
    - rewrite <- app_assoc. cbn [app]. rewrite <- Permutation_middle.
      eapply (counted_push _ s); cbn; [done| |done]. by rewrite Hr, <- Hc.
    - intros l s''. by rewrite <- app_assoc.
    - intros e s''. by rewrite <- app_assoc. }
  rewrite wp_bind. destruct (c =? 0) eqn:E0.
  - apply wp_host_register. intros st s' Hr Hg. destruct (st =? 0) eqn:E1; cbn [negb].
    { by apply Hpush. }
    assert (Hs' : counted (acquired ++ rest) s') by by eapply counted_same.
    destruct acquired as [|q acquired]; [apply wp_raise; exists []; split_and!; [done|apply submseteq_nil_l|done]|].
    rewrite wp_bind. eapply wp_mono; [by apply (mappings_close_counts _ rest)| |done].
    intros [k o] s'' (H1 & H2 & _ & H4). apply wp_raise. exists k. split_and!; [done| |done].
    rewrite H2. by apply submseteq_inserts_r.
  - rewrite wp_ret. cbn [Z.eqb negb]. apply Hpush; [done|].
    destruct Hs as [Hr Hg]. rewrite Hg. apply set_eq. intros q. rewrite elem_of_union, elem_of_singleton.
    split; [by right|]. intros [->|?]; [|done]. apply elem_of_dom. rewrite Hr, <- Hc, E0. by eexists.
Qed.

(** ** The pages of a queue *)

Lemma page_floor_eq k x : 0 ≤ k → page_floor (2 ^ k) x = x - x `mod` 2 ^ k.
Proof.
  intros Hk. unfold page_floor. rewrite Z.sub_1_r, <- Z.ones_equiv, <- Z.ldiff_land.
  rewrite Z.ldiff_ones_r, Z.shiftl_mul_pow2, Z.shiftr_div_pow2 by done.
  pose proof (Z.div_mod x (2 ^ k) ltac:(lia)). lia.
Qed.

(** Every byte of a range is on one of its pages. *)
Lemma range_pages_cover k address size b :
  0 ≤ k → address ≤ b < address + size →
  page_floor (2 ^ k) b ∈ range_pages (2 ^ k) address size.
Proof.
  intros Hk Hb. unfold range_pages. rewrite !page_floor_eq by done.
  set (ps := 2 ^ k). assert (0 < ps) by (unfold ps; lia).
  pose proof (Z.div_mod address ps ltac:(lia)). pose proof (Z.mod_pos_bound address ps ltac:(lia)).
  pose proof (Z.div_mod b ps ltac:(lia)). pose proof (Z.mod_pos_bound b ps ltac:(lia)).
  set (e := address + size + ps - 1).
  pose proof (Z.div_mod e ps ltac:(lia)). pose proof (Z.mod_pos_bound e ps ltac:(lia)).
  apply list_elem_of_fmap. exists (b `div` ps - address `div` ps). split; [nia|].
  apply elem_of_seqZ. split; [pose proof (Z.div_le_mono address b ps); lia|].
  rewrite Z.add_0_l. replace (e - _ - _ + ps - 1) with ((e `div` ps - address `div` ps) * ps + (ps - 1)) by nia.
  rewrite Z.div_add_l, (Z.div_small (ps - 1)) by lia. subst e. nia.
Qed.

Lemma pages_of_cover k i r b :
  0 ≤ k → r ∈ queue_ranges i → r.1 ≤ b < r.1 + r.2 →
  page_floor (2 ^ k) b ∈ pages_of (2 ^ k) i.
Proof.
  intros Hk Hr Hb. unfold pages_of. rewrite merge_sort_Permutation, elem_of_remove_dups.
  apply list_elem_of_bind. exists r. split; [by apply range_pages_cover|done].
Qed.

(** ** Registering the memory of a queue *)

#[local] Instance same_counts_preorder : PreOrder same_counts.
Proof. split; [done|]. intros x y z [??] [??]. split; congruence. Qed.
Lemma same_hcall {A} (f : W → result A * W) : along same_counts (hcall f).
Proof. intros s. unfold hcall, with_host. by destruct (f (h_world s)). Qed.
Lemma same_hask {A} (f : W → A * W) : along same_counts (hask f).
Proof. intros s. unfold hask, with_host. by destruct (f (h_world s)). Qed.
Lemma same_set_lib l : along same_counts (set_lib l).
Proof. done. Qed.
Lemma same_set_mem f : along same_counts (set_mem f).
Proof. done. Qed.
Lemma same_note_gpus f : along same_counts (note_gpus f).
Proof. done. Qed.
Lemma same_note_exports f : along same_counts (note_exports f).
Proof. done. Qed.
#[local] Hint Resolve same_hcall same_hask same_set_lib same_set_mem same_note_gpus
  same_note_exports : along.

Lemma same_load_cuda : along same_counts _load_cuda_driver.
Proof. unfold _load_cuda_driver. along. Qed.
Lemma same_device_pointers l : along same_counts (device_pointers l).
Proof. induction l as [|a l IH]; cbn [device_pointers]; along. Qed.
#[local] Hint Resolve same_load_cuda same_device_pointers : along.

Lemma device_pointers_raises l s :
  wp (device_pointers l) (λ l' _, length l' = length l) (λ e _, e = RuntimeError) s.
Proof.
  revert s. induction l as [|a l IH]; intros s; cbn [device_pointers]; [done|].
  rewrite wp_bind, wp_hask, wp_bind, wp_guard_raise. case_match; [done|].
  rewrite wp_bind. eapply wp_mono; [apply IH| |done]. intros l' s' Hl. apply wp_ret. cbn in *. congruence.
Qed.

(** What a failed call may leave of [pages]: nothing, if CUDA unregisters what it is told. *)
Definition leftover pages rest s : Prop := ∃ left,
  counted (left ++ rest) s ∧ left ⊆+ pages ∧
  ((∀ p w, (gl_unregister p w).1 = 0) → left = []).
Lemma no_leftover pages rest s : counted rest s → leftover pages rest s.
Proof. intros Hs. exists []. split_and!; [done|apply submseteq_nil_l|done]. Qed.

Lemma register_counts i rest s :
  counted rest s →
  wp (_register_queue_memory i)
    (λ r s', r.2 = pages_of gl_page_size i ∧ counted (r.2 ++ rest) s' ∧
       ∃ l, length l = 8%nat ∧ r.1 = set_addresses l i)
    (λ _ s', leftover (pages_of gl_page_size i) rest s') s.
Proof.
  intros Hs. unfold _register_queue_memory. set (pages := pages_of _ i). rewrite wp_bind.
  eapply wp_mono; [apply (wp_along same_counts), same_load_cuda| |].
  2: { intros e s' Hsame. apply no_leftover. eapply counted_same; [exact Hsame|done]. }
  intros [] s1 Hsame. apply (counted_same rest) in Hsame; [|done].
  rewrite wp_bind. eapply wp_mono; [by apply (acquire_pages_counts pages [] rest)|..].
  2: { intros e s' (left & ?). by exists left. }
  intros l s2 [-> Hs2]. cbn [app] in *. apply wp_try_except. rewrite wp_bind.
  eapply wp_mono; [apply wp_conj|..];
    [apply (wp_along same_counts), same_device_pointers|apply device_pointers_raises|..].
  - intros l s3 [H3 Hl]. apply (counted_same (pages ++ rest)) in H3; [|done]. apply wp_ret. cbn.
    split_and!; [done|done|by exists l].
  - intros e s3 [H3 ->]. apply (counted_same (pages ++ rest)) in H3; [|done]. cbn.
    rewrite wp_bind. eapply wp_mono; [by apply (mappings_close_counts _ rest)| |done].
    intros r s4 (H4 & H5 & _ & H6). apply wp_raise. by exists r.1.
Qed.

(** C10: Registering queue memory counts one reference to each page of the eight ranges,
    and every byte of them is then on a page registered with CUDA; when CUDA refuses a
    page or an address, the references taken are given back. *)
Theorem register_queue_memory_spec (k : Z) i rest s :
  0 ≤ k → gl_page_size = 2 ^ k → counted rest s →
  wp (_register_queue_memory i)
    (λ r s', r.2 = pages_of gl_page_size i ∧ counted (r.2 ++ rest) s' ∧
       (∀ range b, range ∈ queue_ranges i → range.1 ≤ b < range.1 + range.2 →
          page_floor gl_page_size b ∈ h_registered s') ∧
       ∃ l, length l = 8%nat ∧ r.1 = set_addresses l i)
    (λ _ s', leftover (pages_of gl_page_size i) rest s') s.
Proof.
  intros Hk Hps Hs. eapply wp_mono; [by apply register_counts| |done].
  intros r s' (Hr & Hs' & Hl). split_and!; [done|done| |done].
  intros range b Hin Hb. destruct Hs' as [Href ->]. apply elem_of_dom. rewrite Href.
  assert (page_floor gl_page_size b ∈ r.2 ++ rest) as Hp.
  { apply elem_of_app. left. rewrite Hr, Hps. by eapply pages_of_cover. }
  apply count_pos in Hp. replace (_ =? 0) with false by lia. by eexists.
Qed.

(** ** Fresh completion queues *)

(** The queues that differ in address, entries or entry size. *)
Fixpoint distinct (seen : list (Z * Z * Z)) (l : list Cq) : list Cq :=
  match l with
  | [] => []
  | c :: l => if bool_decide (c.1 ∈ seen) then distinct seen l else c :: distinct (c.1 :: seen) l
  end.
Definition owners (l : list Cq) : list Z := c ← l; owner_bytes c.
Definition in_record (l : list Cq) (a : Z) : Prop := ∃ c, c ∈ l ∧ c.2 ≤ a < c.2 + 4.
Definition fresh s (a : Z) : Prop := Z.shiftr (h_mem s a) 4 = _MLX5_CQE_INVALID.

Lemma owners_cons c l : owners (c :: l) = owner_bytes c ++ owners l.
Proof. done. Qed.

Lemma wp_check_owner a Q E s :
  (if Z.shiftr (h_mem s a) 4 =? _MLX5_CQE_INVALID then Q tt s else E ValueError s) →
  wp (check_owner a) Q E s.
Proof.
  intros H. unfold check_owner. rewrite wp_bind. unfold mem. rewrite wp_bind, wp_get, wp_ret.
  rewrite wp_guard_raise. by destruct (_ =? _).
Qed.
Lemma wp_check_owners l s :
  wp (for_each check_owner l) (λ _ s', s' = s ∧ Forall (fresh s) l)
    (λ e s', e = ValueError ∧ s' = s ∧ ∃ a, a ∈ l ∧ ¬ fresh s a) s.
Proof.
  induction l as [|a l IH]; cbn [for_each]; [by apply wp_ret|]. 
  rewrite wp_bind. apply wp_check_owner. destruct (_ =? _) eqn:E.
  - eapply wp_mono; [apply IH| |].
    + intros _ s' [-> Hl]. split; [done|]. constructor; [by apply Z.eqb_eq in E|done].
    + intros e s' (-> & -> & b & Hb & Hn). split_and!; [done..|]. exists b. split; [by right|done].
  - split_and!; [done..|]. exists a. split; [by left|]. by apply Z.eqb_neq in E.
Qed.

Lemma wp_fresh_cqs seen l s :
  wp (fresh_cqs seen l)
    (λ r s', s' = s ∧ r = distinct seen l ∧ Forall (fresh s) (owners r))
    (λ e s', e = ValueError ∧ s' = s ∧ ∃ a, a ∈ owners (distinct seen l) ∧ ¬ fresh s a) s.
Proof.
  revert seen. induction l as [|c l IH]; intros seen; cbn [fresh_cqs distinct].
  { apply wp_ret. split_and!; [done..|constructor]. }
  case_bool_decide; [apply IH|]. rewrite wp_bind.
  eapply wp_mono; [apply wp_check_owners|..].
  - intros _ s' [-> Hc]. rewrite wp_bind. eapply wp_mono; [apply IH|..].
    + intros r s' (-> & -> & Hr). apply wp_ret. split_and!; [done..|].
      rewrite owners_cons. by apply Forall_app.
    + intros e s' (-> & -> & a & Ha & Hn). split_and!; [done..|]. exists a.
      rewrite owners_cons, elem_of_app. by split; [right|].
  - intros e s' (-> & -> & a & Ha & Hn). split_and!; [done..|]. exists a.
    rewrite owners_cons, elem_of_app. by split; [left|].
Qed.

Lemma wp_own_entries l Q E s :
  (∀ s', (∀ a, h_mem s' a = if bool_decide (a ∈ l) then Z.lor (h_mem s a) 1 else h_mem s a) →
     Q tt s') →
  wp (for_each own_entry l) Q E s.
Proof.
  revert s. induction l as [|b l IH]; intros s HQ; cbn [for_each]; [by apply wp_ret, HQ|].
  rewrite wp_bind. unfold wp at 1. cbn. apply IH. intros s' Hs'. apply HQ. intros a. rewrite Hs'. cbn.
  destruct (decide (a = b)) as [->|Hne].
  - rewrite Z.eqb_refl. rewrite (bool_decide_true (b ∈ b :: l)) by by left.
    case_bool_decide; [|done]. by rewrite <- Z.lor_assoc.
  - replace (a =? b) with false by lia. by rewrite (bool_decide_ext (a ∈ b :: l) (a ∈ l)) by set_solver.
Qed.

Lemma wp_clear_u32 b Q E s :
  (∀ s', (∀ a, h_mem s' a = if (b <=? a) && (a <? b + 4) then 0 else h_mem s a) → Q tt s') →
  wp (clear_u32 b) Q E s.
Proof.
  intros HQ. apply HQ. intros a. cbn. repeat case_match; try done; lia.
Qed.

Lemma wp_init_cqs l s :
  wp (for_each (λ c, for_each own_entry (owner_bytes c);; clear_u32 c.2) l)
    (λ _ s', ∀ a,
       (a ∉ owners l → ¬ in_record l a → h_mem s' a = h_mem s a) ∧
       (a ∈ owners l → ¬ in_record l a → h_mem s' a = Z.lor (h_mem s a) 1) ∧
       (a ∉ owners l → in_record l a → h_mem s' a = 0)) (λ _ _, False) s.
Proof.
  revert s. induction l as [|c l IH]; intros s; cbn [for_each].
  { apply wp_ret. intros a. split_and!; [done|by intros ?%not_elem_of_nil|].
    intros _ (c & ?%not_elem_of_nil & _). done. }
  rewrite !wp_bind. apply wp_own_entries. intros s1 H1. apply wp_clear_u32. intros s2 H2.
  eapply wp_mono; [apply IH| |done]. intros [] s' Hs' a. destruct (Hs' a) as (Ha & Hb & Hc). clear Hs'.
  assert (Hrec : in_record (c :: l) a ↔ c.2 ≤ a < c.2 + 4 ∨ in_record l a).
  { unfold in_record. setoid_rewrite elem_of_cons. naive_solver. }
  rewrite owners_cons, elem_of_app, Hrec. specialize (H2 a). specialize (H1 a).
  assert (Hdec : a ∈ owners l ∨ a ∉ owners l) by (destruct (decide (a ∈ owners l)); tauto).
  split_and!.
  - intros [Hn1 Hn2]%Decidable.not_or [Hn3 Hn4]%Decidable.not_or. rewrite (Ha Hn2 Hn4), H2, H1.
    rewrite bool_decide_false by done. by destruct (_ && _) eqn:E; [exfalso; lia|].
  - intros Ho [Hn3 Hn4]%Decidable.not_or. rewrite H1 in H2.
    replace (_ && _) with false in H2 by lia.
    destruct Hdec as [Hin|Hn].
    + rewrite (Hb Hin Hn4), H2. case_bool_decide; [|done]. by rewrite <- Z.lor_assoc.
    + rewrite (Ha Hn Hn4), H2. rewrite bool_decide_true by tauto. done.
  - intros [Hn1 Hn2]%Decidable.not_or Hin.
    destruct (decide (Exists (λ c, c.2 ≤ a < c.2 + 4) l)) as [Hl|Hl]; rewrite Exists_exists in Hl.
    + by apply Hc.
    + rewrite (Ha Hn2 Hl), H2. destruct Hin; [|done]. by replace (_ && _) with true by lia.
Qed.

(** Preparing completion queues either finds an entry that is not fresh and leaves
    memory as it was, or marks the owner byte of every entry and clears the doorbell
    records, and writes nothing else. *)
Theorem initialize_cqs_spec i s :
  wp (_initialize_cqs i)
    (λ _ s', let cqs := distinct [] (cqs_of i) in
       Forall (fresh s) (owners cqs) ∧ ∀ a,
       (a ∉ owners cqs → ¬ in_record cqs a → h_mem s' a = h_mem s a) ∧
       (a ∈ owners cqs → ¬ in_record cqs a → h_mem s' a = Z.lor (h_mem s a) 1) ∧
       (a ∉ owners cqs → in_record cqs a → h_mem s' a = 0))
    (λ e s', e = ValueError ∧ s' = s ∧ ∃ a, a ∈ owners (cqs_of i) ∧ ¬ fresh s a) s.
Proof.
  unfold _initialize_cqs. rewrite wp_bind. eapply wp_mono; [apply wp_fresh_cqs|..].
  - intros r s' (-> & -> & Hf). eapply wp_mono; [apply wp_init_cqs| |done]. by intros [] s'.
  - intros e s' (-> & -> & a & Ha & Hn). split_and!; [done..|]. exists a. split; [|done].
    revert Ha. unfold cqs_of. cbn [distinct]. rewrite bool_decide_false by by intros ?%not_elem_of_nil.
    case_bool_decide; rewrite !owners_cons, !elem_of_app; [|done]. intros [?|?]; auto.
Qed.

(** ** DeviceQP: what an export holds *)

(** Calls of DOCA that fail give no handle; what was created can be released. *)
Class DocaLaws := {
  create_null b w : (gl_create b w).1.1 = 0 ↔ (gl_create b w).1.2 ≠ 0;
  export_null g i h w : (gl_export g i h w).1.1 = 0 ↔ (gl_export g i h w).1.2 ≠ 0;
  destroy_ok g w : (gl_destroy g w).1 = 0;
  unexport_ok g x w : (gl_unexport g x w).1 = 0;
}.
(** CUDA unregisters the pages it registered. *)
Class CudaLaws := { unregister_ok p w : (gl_unregister p w).1 = 0 }.

Definition holding holds (gpus exports : gmultiset Z) s : Prop :=
  counted holds s ∧ h_gpus s = gpus ∧ h_exports s = exports.

(** Calls that neither take nor give back anything. *)
Definition quiet : relation (Host W) := λ s s',
  same_counts s s' ∧ h_gpus s' = h_gpus s ∧ h_exports s' = h_exports s.
#[local] Instance quiet_preorder : PreOrder quiet.
Proof.
  split; [done|]. intros x y z (?&?&?) (?&?&?).
  split_and!; [by etransitivity|congruence|congruence].
Qed.
Lemma holding_quiet holds gpus exports s s' :
  quiet s s' → holding holds gpus exports s → holding holds gpus exports s'.
Proof.
  intros (Hs & Hg & Hx) (Hc & <- & <-). split; [|done]. by eapply counted_same; [exact Hs|].
Qed.
Lemma wp_quiet {A} (m : M (Host W) A) holds gpus exports s :
  along quiet m → holding holds gpus exports s →
  wp m (λ _, holding holds gpus exports) (λ _, holding holds gpus exports) s.
Proof.
  intros Hm Hs. eapply wp_mono; [by apply (wp_along quiet)|..];
    intros a s' H; (eapply holding_quiet; [exact H|done]).
Qed.

Lemma quiet_hcall {A} (f : W → result A * W) : along quiet (hcall f).
Proof. intros s. unfold hcall, with_host. by destruct (f (h_world s)). Qed.
Lemma quiet_hask {A} (f : W → A * W) : along quiet (hask f).
Proof. intros s. unfold hask, with_host. by destruct (f (h_world s)). Qed.
Lemma quiet_set_lib l : along quiet (set_lib l).
Proof. done. Qed.
Lemma quiet_set_mem f : along quiet (set_mem f).
Proof. done. Qed.
#[local] Hint Resolve quiet_hcall quiet_hask quiet_set_lib quiet_set_mem : along.
Lemma quiet_load_cuda : along quiet _load_cuda_driver.
Proof. unfold _load_cuda_driver. along. Qed.
#[local] Hint Resolve quiet_load_cuda : along.
Lemma quiet_load_first l : along quiet (load_first l).
Proof. induction l as [|[[|c name]|] l IH]; cbn [load_first]; along. Qed.
#[local] Hint Resolve quiet_load_first : along.
Lemma quiet_load_library : along quiet _load_library.
Proof. unfold _load_library. along. Qed.
Lemma quiet_cuda_bus_id o : along quiet (_cuda_bus_id o).
Proof. unfold _cuda_bus_id. along. Qed.
#[local] Hint Resolve quiet_cuda_bus_id : along.
Lemma quiet_normalize_bus_id g : along quiet (_normalize_bus_id g).
Proof. unfold _normalize_bus_id. along. Qed.
Lemma quiet_fresh_cqs seen l : along quiet (fresh_cqs seen l).
Proof. revert seen. induction l as [|c l IH]; intros seen; cbn [fresh_cqs]; unfold check_owner, mem; along. Qed.
#[local] Hint Resolve quiet_fresh_cqs : along.
Lemma quiet_initialize_cqs i : along quiet (_initialize_cqs i).
Proof. unfold _initialize_cqs, own_entry, clear_u32, poke, mem. along. Qed.

Lemma give_back (g : Z) (l : gmultiset Z) : ({[+ g +]} ⊎ l) ∖ {[+ g +]} = l.
Proof. multiset_solver. Qed.

Section Handles.
Context `{!DocaLaws}.

Lemma wp_gpu_create bus holds gpus exports Q E s :
  holding holds gpus exports s →
  (∀ st g s', (st = 0 ↔ g ≠ 0) →
     holding holds (if g =? 0 then gpus else {[+ g +]} ⊎ gpus) exports s' → Q (st, g) s') →
  wp (gpu_create bus) Q E s.
Proof.
  intros (Hs & <- & <-) HQ. unfold gpu_create, hask, with_host, wp, mbind, M_bind.
  pose proof (create_null bus (h_world s)) as Hn.
  destruct (gl_create bus (h_world s)) as [[st g] w]. cbn in *.
  destruct (st =? 0) eqn:E1; apply HQ; try done; split; try done; cbn;
    destruct (g =? 0) eqn:E2; try done; exfalso; lia.
Qed.
Lemma wp_export_qp g i h holds gpus exports Q E s :
  holding holds gpus exports s →
  (∀ st x s', (st = 0 ↔ x ≠ 0) →
     holding holds gpus (if x =? 0 then exports else {[+ x +]} ⊎ exports) s' → Q (st, x) s') →
  wp (export_qp g i h) Q E s.
Proof.
  intros (Hs & <- & <-) HQ. unfold export_qp, hask, with_host, wp, mbind, M_bind.
  pose proof (export_null g i (_HANDLERS h) (h_world s)) as Hn.
  destruct (gl_export g i _ (h_world s)) as [[st x] w]. cbn in *.
  destruct (st =? 0) eqn:E1; apply HQ; try done; split; try done; cbn;
    destruct (x =? 0) eqn:E2; try done; exfalso; lia.
Qed.
Lemma wp_gpu_destroy g holds gpus exports Q E s :
  holding holds ({[+ g +]} ⊎ gpus) exports s →
  (∀ s', holding holds gpus exports s' → Q 0 s') → wp (gpu_destroy g) Q E s.
Proof.
  intros (Hs & Hg & <-) HQ. unfold gpu_destroy, hask, with_host, wp, mbind, M_bind.
  pose proof (destroy_ok g (h_world s)) as Hn. destruct (gl_destroy g (h_world s)) as [st w].
  simpl in Hn. subst st. apply HQ. split_and!; [done| |done]. by rewrite <- (give_back g gpus), <- Hg.
Qed.
Lemma wp_unexport_qp g x holds gpus exports Q E s :
  holding holds gpus ({[+ x +]} ⊎ exports) s →
  (∀ s', holding holds gpus exports s' → Q 0 s') → wp (unexport_qp g x) Q E s.
Proof.
  intros (Hs & <- & Hg) HQ. unfold unexport_qp, hask, with_host, wp, mbind, M_bind.
  pose proof (unexport_ok g x (h_world s)) as Hn. destruct (gl_unexport g x (h_world s)) as [st w].
  simpl in Hn. subst st. apply HQ. split_and!; [done|done|]. by rewrite <- (give_back x exports), <- Hg.
Qed.
Lemma wp_mappings_close `{!CudaLaws} pages rest gpus exports Q E s :
  holding (pages ++ rest) gpus exports s →
  (∀ s', holding rest gpus exports s' → Q ([], None) s') → wp (mappings_close pages) Q E s.
Proof.
  intros (Hs & <- & <-) HQ.
  eapply wp_mono; [apply wp_conj; [by apply (mappings_close_counts _ rest)|
                                   apply (wp_along pages_only)]| |].
  - unfold mappings_close. along.
  - intros [l o] s' [(H1 & _ & H3 & H4) (_ & Hg & Hx)]. cbn in *.
    rewrite (H4 unregister_ok) in *. subst o. by apply HQ.
  - by intros e s' [? _].
Qed.

(** The cleanup gives back what the export took, and raises what stopped it. *)
Lemma export_cleanup_spec `{!CudaLaws} g x pages e rest gpus exports s :
  is_Exception e = true →
  holding (pages ++ rest) (if g =? 0 then gpus else {[+ g +]} ⊎ gpus)
    (if x =? 0 then exports else {[+ x +]} ⊎ exports) s →
  wp (export_cleanup g x pages e) (λ _ _, False)
    (λ e' s', e' = e ∧ holding rest gpus exports s') s.
Proof.
  intros He Hs. unfold export_cleanup. rewrite He. cbn [negb].
  assert (Hend : ∀ s, holding (pages ++ rest) gpus exports s →
    wp (try_except (mappings_close pages;; mret tt)
          (λ e', if is_Exception e' then mret tt else raise e');; raise (A := DeviceQP) e)
      (λ _ _, False) (λ e' s', e' = e ∧ holding rest gpus exports s') s).
  { intros s1 H1. rewrite wp_bind. apply wp_try_except. rewrite wp_bind.
    eapply wp_mappings_close; [done|]. intros s2 H2. by apply wp_ret, wp_raise. }
  assert (Hgpu : ∀ s, holding (pages ++ rest) (if g =? 0 then gpus else {[+ g +]} ⊎ gpus) exports s →
    wp ((if negb (g =? 0) then gpu_destroy g;; mret tt else mret tt);;
        try_except (mappings_close pages;; mret tt)
          (λ e', if is_Exception e' then mret tt else raise e');; raise (A := DeviceQP) e)
      (λ _ _, False) (λ e' s', e' = e ∧ holding rest gpus exports s') s).
  { intros s1 H1. rewrite wp_bind. destruct (g =? 0); cbn [negb]; [by apply wp_ret, Hend|].
    rewrite wp_bind. eapply wp_gpu_destroy; [done|]. intros s2 H2. by apply wp_ret, Hend. }
  rewrite wp_bind. destruct (x =? 0); cbn [negb]; [by apply wp_ret, Hgpu|].
  rewrite wp_bind. eapply wp_unexport_qp; [done|]. intros s2 H2. by apply wp_ret, Hgpu.
Qed.

Local Ltac on_guard := match goal with |- if ?b then _ else _ => destruct b end.

(** What an exported queue pair holds: its pages, a GPU handle and an export. *)
Definition exported (qp : nat) h pages rest gpus exports (d : DeviceQP) s : Prop :=
  dq_mappings d = Some pages ∧ dq_qp d = Some qp ∧ dq_gpu d ≠ 0 ∧ dq_exported d ≠ 0 ∧
  (h = HGpu → cpu_proxy d = false) ∧
  holding (pages ++ rest) ({[+ dq_gpu d +]} ⊎ gpus) ({[+ dq_exported d +]} ⊎ exports) s.

Lemma export_device_spec `{!CudaLaws} qp bus h i pages rest gpus exports s :
  holding (pages ++ rest) gpus exports s →
  wp (export_device qp bus h i pages)
    (exported qp h pages rest gpus exports)
    (λ e s', is_Exception e = true → holding rest gpus exports s') s.
Proof.
  intros Hs. unfold export_device. rewrite wp_bind. eapply wp_gpu_create; [done|].
  intros st g s1 Hg H1. cbn [fst snd]. rewrite wp_bind. apply wp_try_except.
  unfold _check at 1. rewrite wp_guard_raise. destruct (st =? 0) eqn:E1; cbn [negb].
  2: { rewrite wp_bind.
       eapply wp_mono; [apply (export_cleanup_spec g 0 pages _ rest gpus exports); done|done|].
       by intros e s' [-> ?] _. }
  replace (g =? 0) with false in H1 by lia.
  rewrite wp_bind. eapply wp_export_qp; [done|]. intros st' x s2 Hx H2. cbn [fst snd].
  apply wp_try_except.
  (* whatever fails from here on is given back *)
  assert (Hfail : ∀ e s', holding (pages ++ rest) ({[+ g +]} ⊎ gpus)
      (if x =? 0 then exports else {[+ x +]} ⊎ exports) s' →
    wp (export_cleanup g x pages e)
      (exported qp h pages rest gpus exports)
      (λ e s', is_Exception e = true → holding rest gpus exports s') s').
  { intros e s' Hs'. destruct (is_Exception e) eqn:He.
    - eapply wp_mono; [apply (export_cleanup_spec g x pages e rest gpus exports); [done|]|done|].
      + by replace (g =? 0) with false by lia.
      + by intros e' s'' [-> ?] _.
    - unfold export_cleanup. rewrite He. apply wp_raise. by rewrite He. }
  assert (Hask : ∀ {A} (f : W → A * W) s',
    holding (pages ++ rest) ({[+ g +]} ⊎ gpus) (if x =? 0 then exports else {[+ x +]} ⊎ exports) s' →
    holding (pages ++ rest) ({[+ g +]} ⊎ gpus) (if x =? 0 then exports else {[+ x +]} ⊎ exports)
      (with_host f s').2).
  { intros A f s' Hs'. eapply holding_quiet; [|exact Hs'].
    pose proof (quiet_hask f s') as Hq. unfold hask in Hq. by destruct (with_host f s'). }
  unfold _check. rewrite wp_bind, wp_guard_raise. destruct (st' =? 0) eqn:E2; cbn [negb]; [|by apply Hfail].
  rewrite wp_bind, wp_hask, wp_bind, wp_guard_raise. on_guard; [by apply Hfail; apply Hask|].
  rewrite wp_bind, wp_hask, wp_bind, wp_guard_raise. on_guard; [by apply Hfail; do 2 apply Hask|].
  rewrite wp_bind, wp_guard_raise.
  destruct (bool_decide _ && _) eqn:Ep; [by apply Hfail; do 2 apply Hask|].
  rewrite wp_bind. eapply wp_mono; [apply wp_quiet; [apply quiet_hcall|by do 2 apply Hask]|..].
  - intros [] s' Hs'. apply wp_ret. cbn. replace (x =? 0) with false in Hs' by lia.
    split_and!; [done|done|cbn; lia|cbn; lia| |done]. intros ->. cbn. by rewrite bool_decide_true in Ep by done.
  - intros e s' Hs'. by apply Hfail.
Qed.

(** One call of an export that takes nothing yet. *)
Lemma wp_quiet_step {A B} (m : M (Host W) A) (f : A → M (Host W) B) Q rest gpus exports s :
  along quiet m → holding rest gpus exports s →
  (∀ a s', holding rest gpus exports s' →
     wp (f a) Q (λ e s', is_Exception e = true → holding rest gpus exports s') s') →
  wp (m ≫= f) Q (λ e s', is_Exception e = true → holding rest gpus exports s') s.
Proof. intros Hm Hs Hf. rewrite wp_bind. eapply wp_mono; [by apply wp_quiet|..]; auto. Qed.


(** ** Closing *)

Lemma wp_on_host {A} (m : M (Host W) A) d Q E s :
  wp (on_host m) Q E (d, s) ↔ wp m (λ a s', Q a (d, s')) (λ e s', E e (d, s')) s.
Proof. unfold wp, on_host. cbn. by destruct (m s) as [[a|e] s']. Qed.

(** Closing gives back the pages, the export and the GPU handle.  When CUDA keeps
    some pages the queue pair stays open and still holds just these, and all else; when
    only the queue pair refuses its release, the GPU handle is what is left. *)
Theorem close_spec qp h pages rest gpus exports d s :
  exported qp h pages rest gpus exports d s → dq_device d ≠ 0 →
  wp close
    (λ _ t, closed t.1 = true ∧ holding rest gpus exports t.2)
    (λ _ t,
       (∃ left, left ≠ [] ∧ left ⊆+ pages ∧ dq_device t.1 = dq_device d ∧
          exported qp h left rest gpus exports t.1 t.2) ∨
       (∃ e w, (gl_release qp w).1 = Raise e) ∧ holding rest ({[+ dq_gpu d +]} ⊎ gpus) exports t.2)
    (d, s).
Proof.
  intros (Hm & Hq & Hg0 & Hx0 & Hp & Hs & Hg & Hx) Hd. unfold close.
  rewrite wp_bind. unfold self. rewrite wp_bind, wp_get, wp_ret. cbn [fst].
  replace (closed d) with false by (unfold closed; lia). rewrite Hm, Hq.
  rewrite wp_bind, wp_on_host. eapply wp_mono; [apply wp_conj;
    [by apply (mappings_close_counts _ rest)|apply (wp_along pages_only)]| |].
  { unfold mappings_close. along. }
  2: { by intros e s' [? _]. }
  intros [left o] s1 [(H1 & Hsub & Ho & _) (_ & Hg1 & Hx1)]. cbn [fst snd] in *.
  rewrite Hg in Hg1. rewrite Hx in Hx1.
  rewrite wp_bind. unfold set_self at 1. rewrite wp_modify, wp_bind. cbn [fst snd].
  case_bool_decide as Hl; subst o; [subst left; apply wp_ret|apply wp_raise].
  2: { left. exists left. split_and!; [done..|]. split_and!; done. }
  rewrite wp_bind, wp_on_host. eapply wp_unexport_qp; [by split|].
  intros s2 H2. rewrite wp_bind, wp_guard_raise. cbn [Z.eqb negb].
  rewrite wp_bind, wp_on_host. unfold wp at 1, hcall, with_host.
  destruct (gl_release qp (h_world s2)) as [[[]|e] w] eqn:Er.
  2: { right. split; [exists e, (h_world s2); by rewrite Er|exact H2]. }
  rewrite wp_bind, wp_on_host. eapply wp_gpu_destroy; [exact H2|]. intros s3 H3.
  rewrite wp_bind. unfold set_self. rewrite wp_modify, wp_guard_raise. by split.
Qed.
End Handles.
End Counts.

(** * PCI addresses *)

Lemma is_hex_lower c : is_hex c = true → is_hex (lower_hex c) = true.
Proof. unfold is_hex, lower_hex. intros H. case_match; lia. Qed.
Lemma lower_hex_low c : c < 65 → lower_hex c = c.
Proof. unfold lower_hex. intros H. case_match; lia. Qed.
Lemma lower_hex_idem c : lower_hex (lower_hex c) = lower_hex c.
Proof. unfold lower_hex. repeat case_match; lia. Qed.

Lemma forallb_Forall {A} (p : A → bool) l : forallb p l = true ↔ Forall (λ x, p x = true) l.
Proof. rewrite List.forallb_forall, Forall_forall. by setoid_rewrite list_elem_of_In. Qed.

Lemma match_domain_hex s d :
  match_domain s = Some d → forallb is_hex d = true ∧ (4 ≤ length d)%nat.
Proof.
  unfold match_domain. destruct (reverse s) as [|c r]; [by intros [= <-]; vm_compute; split; [|lia]|].
  destruct (_ && _) eqn:E; [|done]. intros [= <-].
  apply andb_prop in E as [[_ E1]%andb_prop E2]. apply bool_decide_eq_true in E2.
  rewrite length_reverse. split; [|lia].
  apply forallb_Forall, Forall_reverse. by apply forallb_Forall.
Qed.

(** The digits of a canonical address: what [canonical_address] gives, whatever the
    case and the length of the domain it reads. *)
Lemma canonical_address_form s t :
  canonical_address s = Some t →
  ∃ x1 x2 x3 x4 b1 b2 d1 d2 f,
    t = lower_hex <$> [x1; x2; x3; x4; 58; b1; b2; 58; d1; d2; 46; f] ∧
    forallb is_hex [x1; x2; x3; x4; b1; b2; d1; d2] = true ∧ 48 ≤ f ≤ 55.
Proof.
  unfold canonical_address, match_address.
  destruct (drop _ s) as [|b1 [|b2 [|c1 [|d1 [|d2 [|c2 [|f [|??]]]]]]]]; try done.
  destruct (_ && _) eqn:E; [|done]. destruct (match_domain _) as [d|] eqn:Ed; [|done].
  cbn [mbind option_bind]. intros [= <-]. apply match_domain_hex in Ed as [Hd Hl].
  assert (Hlen : length (drop (length d - 4) d) = 4%nat) by (rewrite length_drop; lia).
  assert (Hhex : forallb is_hex (drop (length d - 4) d) = true).
  { apply forallb_Forall, Forall_drop. by apply forallb_Forall. }
  destruct (drop (length d - 4) d) as [|x1 [|x2 [|x3 [|x4 [|??]]]]]; try done.
  exists x1, x2, x3, x4, b1, b2, d1, d2, f. cbn in *. split; [|lia].
  by rewrite (lower_hex_low f) by lia.
Qed.

(** A normalised PCI address has a four-digit domain and lower-case digits, and
    normalising it again gives it back, so that comparing normalised addresses does
    not depend on how they were written. *)
Theorem canonical_address_idempotent s t :
  canonical_address s = Some t →
  canonical_address t = Some t ∧ length t = 12%nat ∧ lower_hex <$> t = t.
Proof.
  intros (x1 & x2 & x3 & x4 & b1 & b2 & d1 & d2 & f & -> & Hx & Hf)%canonical_address_form.
  rewrite !fmap_cons, fmap_nil, (lower_hex_low f), (lower_hex_low 58), (lower_hex_low 46) by lia.
  cbn [forallb] in Hx.
  repeat apply andb_prop in Hx as [? Hx].
  split; [|split; [done|]].
  2: { rewrite !lower_hex_idem. by rewrite (lower_hex_low f), (lower_hex_low 58), (lower_hex_low 46) by lia. }
  unfold canonical_address, match_address, match_domain. cbn -[is_hex lower_hex Z.leb].
  rewrite !is_hex_lower by done. cbn -[is_hex lower_hex Z.leb].
  replace (48 <=? f) with true by lia. replace (f <=? 55) with true by lia.
  cbn -[is_hex lower_hex Z.leb]. rewrite bool_decide_true by lia.
  cbn -[is_hex lower_hex Z.leb]. by rewrite !lower_hex_idem.
Qed.

(** * A board on which all of it happens *)

Module Board.
Definition queues : QueueInfo :=
  mk_QueueInfo 11 0x10000 64 64 0x20000 0x30000 4096 12 0x11000 64 64 0x20008
    11 0x12000 64 16 0x20004 13 0x13000 64 64 0x2000c.

(** The world is the number of pages that CUDA will still register. *)
#[local] Instance lib : GpuLib Z := {|
  gl_page_size := 4096;
  gl_find := λ _ w, (None, w);
  gl_open := λ _ w, (Ok tt, w);
  gl_init := λ w, (0, w);
  gl_current := λ w, ((0, 0), w);
  gl_bus_id := λ _ w, ((0, lit "0000:AB:0c.0"), w);
  gl_register := λ _ _ w, (if 0 <? w then 0 else 2, w - 1);
  gl_unregister := λ _ w, (0, w);
  gl_device_pointer := λ a w, ((0, a + 2 ^ 40), w);
  gl_create := λ _ w, ((0, 7), w);
  gl_destroy := λ _ w, (0, w);
  gl_export := λ _ _ _ w, ((0, 9), w);
  gl_unexport := λ _ _ w, (0, w);
  gl_get_dev := λ _ w, ((0, 5), w);
  gl_proxy := λ _ w, ((0, 0), w);
  gl_progress := λ _ w, (0, w);
  gl_bridge_info := λ _ w, (Ok queues, w);
  gl_acquire := λ _ w, (Ok tt, w);
  gl_release := λ _ w, (Ok tt, w);
|}.
#[local] Instance doca : DocaLaws.
Proof. by split. Defined.
#[local] Instance cuda : CudaLaws.
Proof. by split. Defined.

(** Fresh completion queues, no page in use. *)
Definition host (pages : Z) : Host Z := mk_Host ∅ ∅ (λ _, 0xF0) None ∅ ∅ pages.

Lemma host_counted pages : counted [] (host pages).
Proof. split; [done|symmetry; apply dom_empty_L]. Qed.
Lemma host_holding pages : holding [] ∅ ∅ (host pages).
Proof. split; [apply host_counted|done]. Qed.

(** The rings are one page each, and the doorbell records share one. *)
Example queue_pages : pages_of 4096 queues = [0x10000; 0x11000; 0x12000; 0x13000; 0x20000].
Proof. vm_compute. reflexivity. Qed.

(** With room for three pages the export fails, and nothing is left of it. *)
Example short_of_pages :
  let '(r, s) := export (Some 0%nat) (GpuAddress (lit "ab:0C.0")) (lit "gpu") (host 3) in
  r = Raise RuntimeError ∧ map_to_list (h_refs s) = [] ∧ elements (h_registered s) = [].
Proof. vm_compute. done. Qed.

(** Two exports share their pages; closing one keeps them for the other. *)
Definition second_export : result (Z * list (Z * Z) * list (Z * Z)) :=
  match export (Some 0%nat) GpuCurrent (lit "gpu") (host 5) with
  | (Ok d, s) =>
      match export (Some 1%nat) (GpuIndex 0) (lit "auto") (set_mem (λ _ _, 0xF0) s).2 with
      | (Ok d', s') =>
          let '(_, (_, s'')) := close (d, s') in
          Ok (dq_device d', map_to_list (h_refs s'), map_to_list (h_refs s''))
      | (Raise e, _) => Raise e
      end
  | (Raise e, _) => Raise e
  end.
Example shared_pages :
  match second_export with
  | Ok (device, shared, kept) =>
      device = 5 ∧ shared.*2 = [2; 2; 2; 2; 2] ∧ kept.*2 = [1; 1; 1; 1; 1]
  | Raise _ => False
  end.
Proof. vm_compute. done. Qed.

Lemma register_queue_memory_spec_witness :
  0 ≤ 12 ∧ gl_page_size = 2 ^ 12 ∧ counted [] (host 5) ∧
  wp (_register_queue_memory queues)
    (λ r s', r.2 = pages_of gl_page_size queues ∧ counted (r.2 ++ []) s' ∧
       (∀ range b, range ∈ queue_ranges queues → range.1 ≤ b < range.1 + range.2 →
          page_floor gl_page_size b ∈ h_registered s') ∧
       ∃ l, length l = 8%nat ∧ r.1 = set_addresses l queues)
    (λ _ s', leftover (pages_of gl_page_size queues) [] s') (host 5).
Proof.
  split; [lia|]. split; [done|]. split; [apply host_counted|].
  apply (register_queue_memory_spec 12); [lia|done|apply host_counted].
Defined.


(** A queue pair that holds two pages. *)
Definition device : DeviceQP :=
  mk_DeviceQP 7 9 5 (Some 0%nat) (Some [0x10000; 0x20000]) (lit "0000:ab:0c.0") HGpu false.
Definition holder : Host Z :=
  mk_Host {[0x10000 := 1; 0x20000 := 1]} {[0x10000; 0x20000]} (λ _, 0xF1) None {[+ 7 +]} {[+ 9 +]} 0.
Lemma device_exported : exported 0 HGpu [0x10000; 0x20000] [] ∅ ∅ device holder.
Proof.
  unfold exported. split_and!; [done..|]. split; [|split; [multiset_solver|multiset_solver]].
  eapply (counted_push [0x20000] (mk_Host {[0x20000 := 1]} {[0x20000]} (λ _, 0) None ∅ ∅ 0));
    [|done|done].
  eapply (counted_push [] (host 0)); [apply host_counted|done|set_solver].
Qed.
Lemma close_spec_witness :
  exported 0 HGpu [0x10000; 0x20000] [] ∅ ∅ device holder ∧ dq_device device ≠ 0 ∧
  wp close
    (λ _ t, closed t.1 = true ∧ holding [] ∅ ∅ t.2)
    (λ _ t,
       (∃ left, left ≠ [] ∧ left ⊆+ [0x10000; 0x20000] ∧ dq_device t.1 = dq_device device ∧
          exported 0 HGpu left [] ∅ ∅ t.1 t.2) ∨
       (∃ e w, (gl_release 0%nat w).1 = Raise e) ∧ holding [] ({[+ dq_gpu device +]} ⊎ ∅) ∅ t.2)
    (device, holder).
Proof.
  split; [apply device_exported|]. split; [done|].
  apply (close_spec _ _ _ _ _ _ _ _ device_exported). done.
Defined.

Lemma canonical_address_idempotent_witness :
  canonical_address (lit "0001F:AB:0c.1") = Some (lit "001f:ab:0c.1") ∧
  canonical_address (lit "001f:ab:0c.1") = Some (lit "001f:ab:0c.1").
Proof.
  assert (H : canonical_address (lit "0001F:AB:0c.1") = Some (lit "001f:ab:0c.1")) by reflexivity.
  split; [exact H|]. apply (canonical_address_idempotent _ _ H).
Defined.
End Board.
