(* ===== verification/VerbsLib.v ===== *)
(** The native side of the verbs binding, src/ibverbs/src/ibverbs/_ibverbs.pyx: the C
    integers and structures it fills, the functions of libibverbs, librdmacm and the
    mlx5 bridge that it calls (the class [Libibverbs]), and what their manual pages
    promise (the class [LibibverbsLaws]).

    A native object is known by its address, 0 being NULL.  The laws speak of the
    objects alive in the library ([live]) with the objects each was created from
    ([n_deps]), and of the library's memory being [intact]: a call promises to keep
    it intact only when its arguments are alive, so a program that keeps it intact
    for every library has passed no dead handle. *)

From S2P Require Import Prelude Bytes.
#[local] Open Scope Z_scope.

(** * C integers *)

Definition u8 (v : Z) : Z := v mod 2 ^ 8.
Definition u16 (v : Z) : Z := v mod 2 ^ 16.
Definition u32 (v : Z) : Z := v mod 2 ^ 32.
Definition u64 (v : Z) : Z := v mod 2 ^ 64.
(** [<int>v]: the 32-bit two's complement of [v]. *)
Definition i32 (v : Z) : Z := (v + 2 ^ 31) mod 2 ^ 32 - 2 ^ 31.

(** The conversion of a Python integer to a C type raises outside its range. *)
Definition to_uint (bits v : Z) : result Z :=
  if (0 <=? v) && (v <? 2 ^ bits) then Ok v else Raise OverflowError.
Definition to_int (v : Z) : result Z :=
  if (- 2 ^ 31 <=? v) && (v <? 2 ^ 31) then Ok v else Raise OverflowError.

(** [htonl] and [ntohl] on a little-endian host: the bytes of a 32-bit word in the
    other order. *)
Definition htonl (v : Z) : Z := be_val (le 4 v).
Definition ntohl (v : Z) : Z := be_val (le 4 v).

(** * Error codes *)

Definition EBADF : Z := 9.
Definition EBUSY : Z := 16.
Definition EIO : Z := 5.

(** A verb returns 0, a positive errno, a negated errno, or -1 with [errno] set. *)
Definition _error_from_rc (errno rc : Z) : Z :=
  if 0 <? rc then rc
  else if negb (errno =? 0) then errno
  else if rc <? -1 then - rc
  else EIO.

(** * C structures *)

Record ibv_device := mk_ibv_device { dev_ptr : Z; dev_name : bytes; dev_guid : Z }.

Record DeviceAttr := mk_DeviceAttr {
  fw_ver : bytes; node_guid : Z; sys_image_guid : Z; max_mr_size : Z; vendor_id : Z;
  vendor_part_id : Z; hw_ver : Z; da_max_qp : Z; da_max_qp_wr : Z; da_max_sge : Z;
  da_max_cq : Z; da_max_cqe : Z; da_max_mr : Z; da_max_pd : Z; da_max_qp_rd_atom : Z;
  da_max_ah : Z; da_max_srq : Z; da_max_srq_wr : Z; da_max_srq_sge : Z; da_max_pkeys : Z;
  phys_port_cnt : Z;
}.

Record PortAttr := mk_PortAttr {
  pa_state : Z; max_mtu : Z; active_mtu : Z; gid_tbl_len : Z; port_cap_flags : Z;
  max_msg_sz : Z; pkey_tbl_len : Z; pa_lid : Z; sm_lid : Z; pa_lmc : Z; active_width : Z;
  active_speed : Z; link_layer : Z;
}.

Record ibv_wc := mk_ibv_wc {
  iwc_wr_id : Z; iwc_status : Z; iwc_opcode : Z; iwc_vendor_err : Z; iwc_byte_len : Z;
  iwc_imm_data : Z; iwc_qp_num : Z; iwc_src_qp : Z; iwc_wc_flags : Z;
}.

Record ibv_sge := mk_ibv_sge { isge_addr : Z; isge_length : Z; isge_lkey : Z }.

(** The union [wr] of a send request: the member that was written. *)
Inductive wr_union :=
| WrNone
| WrRdma (remote_addr rkey : Z)
| WrAtomic (remote_addr compare_add swap rkey : Z)
| WrUd (ah remote_qpn remote_qkey : Z).

(** [next] and [sg_list] point into the arrays of requests and of scatter entries:
    the index pointed at, [None] for NULL. *)
Record ibv_send_wr := mk_ibv_send_wr {
  swr_wr_id : Z; swr_next : option nat; swr_sg_list : option nat; swr_num_sge : nat;
  swr_opcode : Z; swr_send_flags : Z; swr_imm_data : Z; swr_wr : wr_union;
}.
Record ibv_recv_wr := mk_ibv_recv_wr {
  rwr_wr_id : Z; rwr_next : option nat; rwr_sg_list : option nat; rwr_num_sge : nat;
}.

Record ibv_qp_cap := mk_ibv_qp_cap {
  max_send_wr : Z; max_recv_wr : Z; max_send_sge : Z; max_recv_sge : Z; max_inline_data : Z;
}.
(** Handles of queues; [ia_srq] is 0 without a shared receive queue. *)
Record ibv_qp_init_attr := mk_ibv_qp_init_attr {
  ia_send_cq : Z; ia_recv_cq : Z; ia_srq : Z; ia_cap : ibv_qp_cap; ia_qp_type : Z;
  ia_sq_sig_all : Z;
}.

Record ibv_ah_attr := mk_ibv_ah_attr {
  grh_dgid : bytes; grh_flow_label : Z; grh_sgid_index : Z; grh_hop_limit : Z;
  grh_traffic_class : Z; av_dlid : Z; av_sl : Z; av_src_path_bits : Z; av_static_rate : Z;
  av_is_global : Z; av_port_num : Z;
}.
Definition ah_attr_zero : ibv_ah_attr :=
  mk_ibv_ah_attr (replicate 16 0) 0 0 0 0 0 0 0 0 0 0.

Record ibv_qp_attr := mk_ibv_qp_attr {
  qp_state : Z; cur_qp_state : Z; path_mtu : Z; qkey : Z; rq_psn : Z; sq_psn : Z;
  dest_qp_num : Z; qp_access_flags : Z; ah_attr : ibv_ah_attr; pkey_index : Z;
  max_rd_atomic : Z; max_dest_rd_atomic : Z; min_rnr_timer : Z; port_num : Z; timeout : Z;
  retry_cnt : Z; rnr_retry : Z;
}.
(** [memset(&a, 0, sizeof(a))] *)
Definition qp_attr_zero : ibv_qp_attr :=
  mk_ibv_qp_attr 0 0 0 0 0 0 0 0 ah_attr_zero 0 0 0 0 0 0 0 0.

Record ibv_srq_attr := mk_ibv_srq_attr { srq_max_wr : Z; srq_max_sge : Z; srq_limit : Z }.

(** Addresses of mapped queue memory, 0 for NULL. *)
Record mlx5_qp_info := mk_mlx5_qp_info {
  q_sq_buf : Z; q_sq_wqe_cnt : Z; q_sq_stride : Z; q_rq_buf : Z; q_rq_wqe_cnt : Z;
  q_rq_stride : Z; q_sq_dbrec : Z; q_rq_dbrec : Z; q_uar : Z; q_uar_size : Z;
}.
Record mlx5_cq_info := mk_mlx5_cq_info {
  c_buf : Z; c_dbrec : Z; c_cqe_cnt : Z; c_cqe_size : Z; c_cqn : Z;
}.

(** The fields of [rdma_addrinfo] that are written as hints or read from an answer. *)
Record rdma_hints := mk_rdma_hints {
  ai_flags : Z; ai_family : Z; ai_qp_type : Z; ai_port_space : Z; ai_src_len : Z;
  ai_src_addr : Z;
}.
Record rdma_answer := mk_rdma_answer { an_family : Z; an_dst_len : Z; an_dst_addr : Z }.

Record rdma_conn_param := mk_rdma_conn_param {
  private_data : bytes; responder_resources : Z; initiator_depth : Z; flow_control : Z;
  retry_count : Z; rnr_retry_count : Z;
}.

(** * The functions of the libraries

    Each takes handles and arguments and the state of the library; a creation
    returns the address of the new object or 0, other calls a return code. *)
Class Libibverbs (W : Type) := {
  c_errno : W → Z;
  (* the dynamic loader: a handle or symbol, 0 for NULL *)
  dl_open : string → W → Z * W;
  dl_sym : W → Z → string → Z;
  (* devices *)
  v_get_device_list : W → option (list ibv_device) * W;
  v_free_device_list : W → W;
  v_open_device : Z → W → Z * W;
  v_close_device : Z → W → Z * W;
  v_device_name : W → Z → bytes;
  (* contexts *)
  v_num_comp_vectors : W → Z → Z;
  v_async_fd : W → Z → Z;
  v_query_device : Z → W → (Z * DeviceAttr) * W;
  v_query_port : Z → Z → W → (Z * PortAttr) * W;
  v_query_gid : Z → Z → Z → W → (Z * bytes) * W;
  v_get_async_event : Z → W → (Z * Z) * W;
  v_ack_async_event : Z → W → W;
  (* protection domains and memory regions *)
  v_alloc_pd : Z → W → Z * W;
  v_dealloc_pd : Z → W → Z * W;
  v_reg_mr_iova2 : Z → Z → Z → Z → Z → W → Z * W;
  v_reg_dmabuf_mr : Z → Z → Z → Z → Z → Z → W → Z * W;
  v_dereg_mr : Z → W → Z * W;
  v_mr_addr : W → Z → Z;
  v_mr_length : W → Z → Z;
  v_mr_lkey : W → Z → Z;
  v_mr_rkey : W → Z → Z;
  v_mr_handle : W → Z → Z;
  (* completion channels and queues *)
  v_create_comp_channel : Z → W → Z * W;
  v_destroy_comp_channel : Z → W → Z * W;
  v_chan_fd : W → Z → Z;
  v_create_cq : Z → Z → nat → Z → Z → W → Z * W;
  v_destroy_cq : Z → W → Z * W;
  v_cqe : W → Z → Z;
  v_get_cq_event : Z → W → (Z * nat) * W;
  v_ack_cq_events : Z → Z → W → W;
  v_poll_cq : Z → Z → W → (Z * list ibv_wc) * W;
  v_req_notify_cq : Z → Z → W → Z * W;
  (* queue pairs *)
  v_create_qp : Z → ibv_qp_init_attr → W → Z * W;
  v_destroy_qp : Z → W → Z * W;
  v_qp_num : W → Z → Z;
  v_qp_type : W → Z → Z;
  v_modify_qp : Z → ibv_qp_attr → Z → W → Z * W;
  v_query_qp : Z → Z → W → (Z * (ibv_qp_attr * ibv_qp_cap)) * W;
  v_post_send : Z → list ibv_send_wr → list ibv_sge → W → Z * W;
  v_post_recv : Z → list ibv_recv_wr → list ibv_sge → W → Z * W;
  (* address handles and shared receive queues *)
  v_create_ah : Z → ibv_ah_attr → W → Z * W;
  v_destroy_ah : Z → W → Z * W;
  v_create_srq : Z → ibv_srq_attr → W → Z * W;
  v_destroy_srq : Z → W → Z * W;
  v_query_srq : Z → W → (Z * ibv_srq_attr) * W;
  v_modify_srq : Z → ibv_srq_attr → Z → W → Z * W;
  v_post_srq_recv : Z → list ibv_recv_wr → list ibv_sge → W → Z * W;
  (* libmlx5, loaded on demand *)
  mlx5_qp_info_of : Z → W → (Z * mlx5_qp_info) * W;
  mlx5_cq_info_of : Z → W → (Z * mlx5_cq_info) * W;
  (* librdmacm, loaded on demand, and the codec of its host names *)
  idna : list Z → result bytes;
  cm_getaddrinfo : bytes → bytes → rdma_hints → W → (Z * Z) * W;
  cm_answer : W → Z → rdma_answer;
  cm_freeaddrinfo : Z → W → W;
  cm_create_ep : Z → W → (Z * Z) * W;
  cm_destroy_ep : Z → W → W;
  cm_id_verbs : W → Z → Z;
  cm_id_qp : W → Z → Z;
  cm_create_qp : Z → Z → ibv_qp_init_attr → W → Z * W;
  cm_destroy_qp : Z → W → W;
  cm_connect : Z → rdma_conn_param → W → Z * W;
  cm_event_data : W → Z → option bytes;
  cm_disconnect : Z → W → Z * W;
}.

(** * What the libraries promise *)

(** Native objects by kind.  A completion queue carries the Python object it was
    created for (its [cq_context]) and the events taken from its channel and not yet
    acknowledged; a queue pair made by an RDMA-CM endpoint carries the endpoint's
    address, another 0.  [KCmContext] is a device opened by librdmacm. *)
Inductive NKind :=
| KContext
| KCmContext
| KPD
| KMR
| KChannel
| KCQ (user : nat) (events : Z)
| KQP (cm : Z)
| KAH
| KSRQ
| KCmId
| KAddrInfo.

#[global] Instance NKind_eq_dec : EqDecision NKind.
Proof. solve_decision. Defined.

Record NObj := mkN { n_kind : NKind; n_deps : list Z }.

#[global] Instance NObj_eq_dec : EqDecision NObj.
Proof. solve_decision. Defined.

Definition is_context (k : NKind) : bool :=
  match k with KContext | KCmContext => true | _ => false end.
Definition is_cq (k : NKind) : bool := match k with KCQ _ _ => true | _ => false end.
Definition is_qp (k : NKind) : bool := match k with KQP _ => true | _ => false end.

(** Some object alive was created from [h]. *)
Definition used (m : gmap Z NObj) (h : Z) : Prop :=
  ∃ k n, m !! k = Some n ∧ h ∈ n_deps n.
(** [h] is alive and of a kind in [P]. *)
Definition alive (m : gmap Z NObj) (P : NKind → bool) (h : Z) : Prop :=
  ∃ n, m !! h = Some n ∧ P (n_kind n) = true.
Definition only (k : NKind) : NKind → bool := λ k', bool_decide (k' = k).

(** What a queue pair or a created object depends on. *)
Definition qp_deps (pd : Z) (a : ibv_qp_init_attr) (cm : Z) : list Z :=
  [pd; ia_send_cq a; ia_recv_cq a] ++ (if ia_srq a =? 0 then [] else [ia_srq a]) ++
  (if cm =? 0 then [] else [cm]).
Definition cq_deps (ctx chan : Z) : list Z := ctx :: (if chan =? 0 then [] else [chan]).

Section Promises.
Context {W : Type} (live : W → gmap Z NObj) (intact : W → Prop).

(** A call that changes no object. *)
Definition keeps (w w' : W) : Prop := intact w' ∧ live w' = live w.

(** A creation returns NULL, or a new object. *)
Definition creates (k : NKind) (deps : list Z) (w : W) (r : Z * W) : Prop :=
  intact r.2 ∧
  ((r.1 = 0 ∧ live r.2 = live w) ∨
   (r.1 ≠ 0 ∧ live w !! r.1 = None ∧ live r.2 = <[r.1 := mkN k deps]> (live w))).

(** A destruction succeeds when no object depends on this one, and otherwise
    reports an error and changes nothing. *)
Definition destroys (h : Z) (w : W) (r : Z * W) : Prop :=
  intact r.2 ∧
  ((r.1 = 0 ∧ ¬ used (live w) h ∧ live r.2 = delete h (live w)) ∨
   (r.1 ≠ 0 ∧ used (live w) h ∧ live r.2 = live w)).

(** The queue pair made by the endpoint [id], 0 if it has none. *)
Definition endpoint_qp (w : W) (id q : Z) : Prop :=
  (∀ h n, live w !! h = Some n → n_kind n = KQP id → h = q) ∧
  (q ≠ 0 → ∃ n, live w !! q = Some n ∧ n_kind n = KQP id).
End Promises.

(** The manual pages of libibverbs and librdmacm: what a call may be given, and
    what it does to the objects.  [ibv_close_device] does not look for open
    children; [ibv_destroy_cq] needs the events of the queue acknowledged. *)
Class LibibverbsLaws (W : Type) `{!Libibverbs W} := {
  live : W → gmap Z NObj;
  intact : W → Prop;
  null_dead w : intact w → live w !! 0 = None;
  live_bounded w : intact w → Z.of_nat (size (live w)) < 2 ^ 32;
  events_bounded w h u ev d :
    intact w → live w !! h = Some (mkN (KCQ u ev) d) → 0 ≤ ev < 2 ^ 31;
  law_dl_open f w : intact w → keeps live intact w (dl_open f w).2;
  law_get_device_list w : intact w → keeps live intact w (v_get_device_list w).2;
  law_free_device_list w : intact w → keeps live intact w (v_free_device_list w);
  law_open_device d w : intact w → creates live intact KContext [] w (v_open_device d w);
  law_close_device h w :
    intact w → alive (live w) (only KContext) h → ¬ used (live w) h →
    intact (v_close_device h w).2 ∧
    live (v_close_device h w).2 =
      if (v_close_device h w).1 =? 0 then delete h (live w) else live w;
  law_query_device h w :
    intact w → alive (live w) is_context h → keeps live intact w (v_query_device h w).2;
  law_query_port h p w :
    intact w → alive (live w) is_context h → keeps live intact w (v_query_port h p w).2;
  law_query_gid h p i w :
    intact w → alive (live w) is_context h → keeps live intact w (v_query_gid h p i w).2;
  law_get_async_event h w :
    intact w → alive (live w) is_context h → keeps live intact w (v_get_async_event h w).2;
  law_ack_async_event e w : intact w → keeps live intact w (v_ack_async_event e w);
  law_alloc_pd h w :
    intact w → alive (live w) is_context h → creates live intact KPD [h] w (v_alloc_pd h w);
  law_dealloc_pd h w :
    intact w → alive (live w) (only KPD) h → destroys live intact h w (v_dealloc_pd h w);
  law_reg_mr h a l i f w :
    intact w → alive (live w) (only KPD) h →
    creates live intact KMR [h] w (v_reg_mr_iova2 h a l i f w);
  law_reg_dmabuf_mr h o l i fd f w :
    intact w → alive (live w) (only KPD) h →
    creates live intact KMR [h] w (v_reg_dmabuf_mr h o l i fd f w);
  law_dereg_mr h w :
    intact w → alive (live w) (only KMR) h → destroys live intact h w (v_dereg_mr h w);
  law_create_comp_channel h w :
    intact w → alive (live w) is_context h →
    creates live intact KChannel [h] w (v_create_comp_channel h w);
  law_destroy_comp_channel h w :
    intact w → alive (live w) (only KChannel) h →
    destroys live intact h w (v_destroy_comp_channel h w);
  law_create_cq h n u c v w :
    intact w → alive (live w) is_context h → (c = 0 ∨ alive (live w) (only KChannel) c) →
    creates live intact (KCQ u 0) (cq_deps h c) w (v_create_cq h n u c v w);
  law_destroy_cq h u d w :
    intact w → live w !! h = Some (mkN (KCQ u 0) d) →
    destroys live intact h w (v_destroy_cq h w);
  law_get_cq_event c w :
    intact w → alive (live w) (only KChannel) c →
    let '((rc, u), w') := v_get_cq_event c w in
    intact w' ∧
    ((rc ≠ 0 ∧ live w' = live w) ∨
     (rc = 0 ∧ ∃ h ev d, live w !! h = Some (mkN (KCQ u ev) d) ∧ c ∈ d ∧
        live w' = <[h := mkN (KCQ u (ev + 1)) d]> (live w)));
  law_ack_cq_events h n u ev d w :
    intact w → live w !! h = Some (mkN (KCQ u ev) d) → 0 ≤ n ≤ ev →
    intact (v_ack_cq_events h n w) ∧
    live (v_ack_cq_events h n w) = <[h := mkN (KCQ u (ev - n)) d]> (live w);
  law_poll_cq h n w :
    intact w → alive (live w) is_cq h → keeps live intact w (v_poll_cq h n w).2;
  law_req_notify_cq h n w :
    intact w → alive (live w) is_cq h → keeps live intact w (v_req_notify_cq h n w).2;
  law_create_qp h a w :
    intact w → alive (live w) (only KPD) h → alive (live w) is_cq (ia_send_cq a) →
    alive (live w) is_cq (ia_recv_cq a) →
    (ia_srq a = 0 ∨ alive (live w) (only KSRQ) (ia_srq a)) →
    creates live intact (KQP 0) (qp_deps h a 0) w (v_create_qp h a w);
  law_destroy_qp h w :
    intact w → alive (live w) (only (KQP 0)) h → destroys live intact h w (v_destroy_qp h w);
  law_modify_qp h a m w :
    intact w → alive (live w) is_qp h → keeps live intact w (v_modify_qp h a m w).2;
  law_query_qp h m w :
    intact w → alive (live w) is_qp h → keeps live intact w (v_query_qp h m w).2;
  law_post_send h rs gs w :
    intact w → alive (live w) is_qp h →
    Forall (λ r, match swr_wr r with WrUd ah _ _ => alive (live w) (only KAH) ah | _ => True end) rs →
    keeps live intact w (v_post_send h rs gs w).2;
  law_post_recv h rs gs w :
    intact w → alive (live w) is_qp h → keeps live intact w (v_post_recv h rs gs w).2;
  law_create_ah h a w :
    intact w → alive (live w) (only KPD) h → creates live intact KAH [h] w (v_create_ah h a w);
  law_destroy_ah h w :
    intact w → alive (live w) (only KAH) h → destroys live intact h w (v_destroy_ah h w);
  law_create_srq h a w :
    intact w → alive (live w) (only KPD) h → creates live intact KSRQ [h] w (v_create_srq h a w);
  law_destroy_srq h w :
    intact w → alive (live w) (only KSRQ) h → destroys live intact h w (v_destroy_srq h w);
  law_query_srq h w :
    intact w → alive (live w) (only KSRQ) h → keeps live intact w (v_query_srq h w).2;
  law_modify_srq h a m w :
    intact w → alive (live w) (only KSRQ) h → keeps live intact w (v_modify_srq h a m w).2;
  law_post_srq_recv h rs gs w :
    intact w → alive (live w) (only KSRQ) h → keeps live intact w (v_post_srq_recv h rs gs w).2;
  law_mlx5_qp_info h w :
    intact w → alive (live w) is_qp h → keeps live intact w (mlx5_qp_info_of h w).2;
  law_mlx5_cq_info h w :
    intact w → alive (live w) is_cq h → keeps live intact w (mlx5_cq_info_of h w).2;
  law_getaddrinfo node service hints w :
    intact w →
    (ai_src_addr hints = 0 ∨
     ∃ p, alive (live w) (only KAddrInfo) p ∧ an_dst_addr (cm_answer w p) = ai_src_addr hints) →
    let '((rc, p), w') := cm_getaddrinfo node service hints w in
    if rc =? 0 then creates live intact KAddrInfo [] w (p, w') ∧ p ≠ 0 else keeps live intact w w';
  law_freeaddrinfo p w :
    intact w → alive (live w) (only KAddrInfo) p →
    intact (cm_freeaddrinfo p w) ∧ live (cm_freeaddrinfo p w) = delete p (live w) ∧
    ∀ id, cm_id_verbs (cm_freeaddrinfo p w) id = cm_id_verbs w id;
  law_create_ep p w :
    intact w → alive (live w) (only KAddrInfo) p →
    let '((rc, id), w') := cm_create_ep p w in
    let v := cm_id_verbs w' id in
    if (rc =? 0) && negb (id =? 0) then
      intact w' ∧ live w !! id = None ∧
      (if v =? 0 then live w' = <[id := mkN KCmId []]> (live w)
       else id ≠ v ∧ live w' = <[id := mkN KCmId [v]]> (<[v := mkN KCmContext []]> (live w)) ∧
            (live w !! v = None ∨ live w !! v = Some (mkN KCmContext [])))
    else keeps live intact w w';
  law_destroy_ep id d w :
    intact w → live w !! id = Some (mkN KCmId d) → ¬ used (live w) id →
    (∀ v, v ∈ d → (∃ h n, live w !! h = Some n ∧ v ∈ n_deps n ∧ n_kind n ≠ KCmId) →
       ∃ i n, i ≠ id ∧ live w !! i = Some n ∧ n_kind n = KCmId ∧ v ∈ n_deps n) →
    intact (cm_destroy_ep id w) ∧
    live (cm_destroy_ep id w) !! id = None ∧
    live (cm_destroy_ep id w) ⊆ live w ∧
    (∀ h n, h ≠ id → live w !! h = Some n →
       (n_kind n = KCmContext →
          ∃ i n', i ≠ id ∧ live w !! i = Some n' ∧ n_kind n' = KCmId ∧ h ∈ n_deps n') →
       live (cm_destroy_ep id w) !! h = Some n);
  law_cm_id_qp id w :
    intact w → alive (live w) (only KCmId) id → endpoint_qp live w id (cm_id_qp w id);
  law_cm_create_qp id h a w :
    intact w → alive (live w) (only KCmId) id → cm_id_qp w id = 0 →
    alive (live w) (only KPD) h → alive (live w) is_cq (ia_send_cq a) →
    alive (live w) is_cq (ia_recv_cq a) →
    (ia_srq a = 0 ∨ alive (live w) (only KSRQ) (ia_srq a)) →
    let '(rc, w') := cm_create_qp id h a w in
    if rc =? 0
    then creates live intact (KQP id) (qp_deps h a id) w (cm_id_qp w' id, w') ∧ cm_id_qp w' id ≠ 0
    else keeps live intact w w';
  law_cm_destroy_qp id w :
    intact w → alive (live w) (only KCmId) id → cm_id_qp w id ≠ 0 →
    intact (cm_destroy_qp id w) ∧ live (cm_destroy_qp id w) = delete (cm_id_qp w id) (live w);
  law_cm_connect id p w :
    intact w → alive (live w) (only KCmId) id → keeps live intact w (cm_connect id p w).2;
  law_cm_disconnect id w :
    intact w → alive (live w) (only KCmId) id → keeps live intact w (cm_disconnect id w).2;
}.
