(* ===== verification/VerbsValues.v ===== *)
(** The value objects of the verbs binding, src/ibverbs/src/ibverbs/_ibverbs.pyx:
    [Gid], [WC], [SGE], [SendWR], [RecvWR], [QPInitAttr] and [AHAttr], with the
    conversions of their constructors, and the C structures filled from them. *)

From S2P Require Import Prelude Bytes.
From S2P Require Import VerbsLib.
#[local] Open Scope Z_scope.

(** * Gid *)

Record Gid := mk_Gid { gid_raw : bytes }.

Definition Gid_init (raw : bytes) : result Gid :=
  if negb (length raw =? 16)%nat then Raise ValueError else Ok (mk_Gid raw).

Definition subnet_prefix (g : Gid) : Z := be_val (take 8 (gid_raw g)).
Definition interface_id (g : Gid) : Z := be_val (drop 8 (gid_raw g)).

(** [g == other] for another [Gid] or a bytes object. *)
Definition Gid_eq (g : Gid) (other : bytes) : bool := bool_decide (gid_raw g = other).

(** * Completions *)

Record WC := mk_WC {
  wc_wr_id : Z; wc_status : Z; wc_opcode : Z; wc_vendor_err : Z; wc_byte_len : Z;
  wc_imm_data : Z; wc_qp_num : Z; wc_src_qp : Z; wc_flags : Z;
}.

Definition _wc_from_c (w : ibv_wc) : WC :=
  mk_WC (iwc_wr_id w) (iwc_status w) (iwc_opcode w) (iwc_vendor_err w) (iwc_byte_len w)
    (ntohl (iwc_imm_data w)) (iwc_qp_num w) (iwc_src_qp w) (iwc_wc_flags w).

Definition is_success (w : WC) : bool := wc_status w =? 0.

(** A failed completion raises CompletionError, a VerbsError with errno EIO. *)
Definition raise_for_status (w : WC) : result unit :=
  if negb (wc_status w =? 0) then Raise (VerbsError EIO) else Ok tt.

(** * Scatter entries *)

(** [sge_owner] is the memory region, if the entry was made for one. *)
Record SGE := mk_SGE {
  sge_addr : Z; sge_length : Z; sge_lkey : Z; sge_owner : option nat;
}.

#[global] Instance SGE_eq_dec : EqDecision SGE.
Proof. solve_decision. Defined.

(** The checks on [length], [offset] and [lkey] that open [SGE.__init__]. *)
Definition SGE_check (length lkey offset : Z) : result unit :=
  raise_if ((length <? 0) || (0xFFFFFFFF <? length)) ValueError;;
  raise_if (offset <? 0) ValueError;;
  raise_if ((lkey <? 0) || (0xFFFFFFFF <? lkey)) ValueError.

(** [SGE(mr, length, lkey, offset)] for an open region of address [addr], length
    [len] and key [key]. *)
Definition SGE_of_region (mr : nat) (addr len key : Z) (length lkey offset : Z) : result SGE :=
  raise_if ((len <? offset) || (len - offset <? length)) ValueError;;
  Ok (mk_SGE (u64 (addr + offset)) length (if lkey =? 0 then key else lkey) (Some mr)).

(** [SGE(address, length, lkey, offset)] *)
Definition SGE_of_address (addr length lkey offset : Z) : result SGE :=
  SGE_check length lkey offset;;
  raise_if ((addr <? 0) || (0xFFFFFFFFFFFFFFFF <? addr)) ValueError;;
  raise_if (0xFFFFFFFFFFFFFFFF <? addr + offset) ValueError;;
  Ok (mk_SGE (addr + offset) length lkey None).

(** [s._keepalive(owner)] *)
Definition SGE_keepalive (owner : nat) (s : SGE) : SGE :=
  mk_SGE (sge_addr s) (sge_length s) (sge_lkey s) (Some owner).

(** * Work requests *)

(** [sw_ah] is an [AH] object. *)
Record SendWR := mk_SendWR {
  sw_wr_id : Z; sw_sg_list : list SGE; sw_opcode : Z; sw_send_flags : Z; sw_remote_addr : Z;
  sw_rkey : Z; sw_imm_data : Z; sw_compare_add : Z; sw_swap : Z; sw_ah : option nat;
  sw_remote_qpn : Z; sw_remote_qkey : Z;
}.

(** [SendWR(...)]: each attribute has a C type, an argument outside it raises. *)
Definition SendWR_init (wr_id : Z) (sg_list : option (list SGE))
    (opcode send_flags remote_addr rkey imm_data compare_add swap : Z) (ah : option nat)
    (remote_qpn remote_qkey : Z) : result SendWR :=
  wr_id ← to_uint 64 wr_id;
  opcode ← to_int opcode;
  send_flags ← to_uint 32 send_flags;
  remote_addr ← to_uint 64 remote_addr;
  rkey ← to_uint 32 rkey;
  imm_data ← to_uint 32 imm_data;
  compare_add ← to_uint 64 compare_add;
  swap ← to_uint 64 swap;
  remote_qpn ← to_uint 32 remote_qpn;
  remote_qkey ← to_uint 32 remote_qkey;
  Ok (mk_SendWR wr_id (default [] sg_list) opcode send_flags remote_addr rkey imm_data
        compare_add swap ah remote_qpn remote_qkey).

Record RecvWR := mk_RecvWR { rw_wr_id : Z; rw_sg_list : list SGE }.

Definition RecvWR_init (wr_id : Z) (sg_list : option (list SGE)) : result RecvWR :=
  wr_id ← to_uint 64 wr_id;
  Ok (mk_RecvWR wr_id (default [] sg_list)).

(** * Queue-pair parameters *)

(** The queues are [CQ] and [SRQ] objects; the numbers are kept as given. *)
Record QPInitAttr := mk_QPInitAttr {
  qia_send_cq : nat; qia_recv_cq : nat; qia_qp_type : Z; qia_max_send_wr : Z;
  qia_max_recv_wr : Z; qia_max_send_sge : Z; qia_max_recv_sge : Z; qia_max_inline_data : Z;
  qia_srq : option nat; qia_sq_sig_all : bool;
}.

(** The structure given to [ibv_create_qp] and [rdma_create_qp], for the handles of
    the queues: the sizes are converted to [uint32_t]. *)
Definition fill_qp_init_attr (scq rcq srq qp_type : Z) (i : QPInitAttr) : result ibv_qp_init_attr :=
  qp_type ← to_int qp_type;
  max_send_wr ← to_uint 32 (qia_max_send_wr i);
  max_recv_wr ← to_uint 32 (qia_max_recv_wr i);
  max_send_sge ← to_uint 32 (qia_max_send_sge i);
  max_recv_sge ← to_uint 32 (qia_max_recv_sge i);
  max_inline_data ← to_uint 32 (qia_max_inline_data i);
  Ok (mk_ibv_qp_init_attr scq rcq srq
        (mk_ibv_qp_cap max_send_wr max_recv_wr max_send_sge max_recv_sge max_inline_data)
        qp_type (if qia_sq_sig_all i then 1 else 0)).

(** * Address vectors *)

Record AHAttr := mk_AHAttr {
  ah_dgid : bytes; ah_flow_label : Z; ah_sgid_index : Z; ah_hop_limit : Z;
  ah_traffic_class : Z; ah_dlid : Z; ah_sl : Z; ah_src_path_bits : Z; ah_static_rate : Z;
  ah_is_global : Z; ah_port_num : Z;
}.

Definition AHAttr_init (dgid : option bytes) (sgid_index dlid is_global port_num hop_limit
    traffic_class sl flow_label src_path_bits static_rate : Z) : result AHAttr :=
  let dgid := default (replicate 16 0) dgid in
  raise_if (negb (length dgid =? 16)%nat) ValueError;;
  sgid_index ← to_uint 8 sgid_index;
  dlid ← to_uint 16 dlid;
  is_global ← to_uint 8 is_global;
  port_num ← to_uint 8 port_num;
  hop_limit ← to_uint 8 hop_limit;
  traffic_class ← to_uint 8 traffic_class;
  sl ← to_uint 8 sl;
  flow_label ← to_uint 32 flow_label;
  src_path_bits ← to_uint 8 src_path_bits;
  static_rate ← to_uint 8 static_rate;
  Ok (mk_AHAttr dgid flow_label sgid_index hop_limit traffic_class dlid sl src_path_bits
        static_rate is_global port_num).

(** The global route is filled only for a global address. *)
Definition _fill_ah_attr (src : AHAttr) : ibv_ah_attr :=
  if ah_is_global src =? 0 then
    mk_ibv_ah_attr (replicate 16 0) 0 0 0 0 (ah_dlid src) (ah_sl src) (ah_src_path_bits src)
      (ah_static_rate src) (ah_is_global src) (ah_port_num src)
  else
    mk_ibv_ah_attr (ah_dgid src) (ah_flow_label src) (ah_sgid_index src) (ah_hop_limit src)
      (ah_traffic_class src) (ah_dlid src) (ah_sl src) (ah_src_path_bits src)
      (ah_static_rate src) (ah_is_global src) (ah_port_num src).

(** * Lemmas *)

Lemma to_uint_ok bits v u : to_uint bits v = Ok u ↔ u = v ∧ 0 ≤ v < 2 ^ bits.
Proof.
  unfold to_uint. destruct (_ && _) eqn:E; split; intros H; simplify_eq; [lia| |lia].
  destruct H. subst. done.
Qed.

Lemma to_int_ok v u : to_int v = Ok u ↔ u = v ∧ - 2 ^ 31 ≤ v < 2 ^ 31.
Proof.
  unfold to_int. destruct (_ && _) eqn:E; split; intros H; simplify_eq; [lia| |lia].
  destruct H. subst. done.
Qed.

Lemma htonl_ntohl v : 0 ≤ v < 2 ^ 32 → ntohl (htonl v) = v ∧ 0 ≤ htonl v < 2 ^ 32.
Proof.
  intros Hv. unfold htonl, ntohl. assert (in_uint 4 v = true) as Hu.
  { unfold in_uint. lia. }
  pose proof (wf_le 4 v) as Hwf. pose proof (length_le 4 v) as Hl.
  assert (wf_bytes (reverse (le 4 v))) as Hr by (unfold wf_bytes; by apply Forall_reverse).
  split.
  - unfold be_val. rewrite le_le_val; [|done|by rewrite length_reverse].
    rewrite reverse_involutive. by apply le_val_le.
  - pose proof (le_val_bound _ Hr) as Hb. rewrite length_reverse, Hl in Hb. exact Hb.
Qed.
