(* ===== verification/VerbsPost.v ===== *)
(** Posting work requests, [_post_send] and [_post_recv_chain] of
    src/ibverbs/src/ibverbs/_ibverbs.pyx.

    A Python list of requests becomes two C arrays, of requests and of scatter
    entries, in which the requests are linked by [next] and point at their entries.
    [read_chain] is what a provider finds when it follows the pointers from the first
    request; [post_chain_correct] says that it finds the list. *)

From S2P Require Import Prelude Bytes.
From S2P Require Import VerbsLib VerbsValues.
#[local] Open Scope Z_scope.

(** * Scatter entries *)

Fixpoint _count_sges (wrs : list (list SGE)) : nat :=
  match wrs with [] => 0%nat | l :: wrs => (length l + _count_sges wrs)%nat end.

Definition c_sge (s : SGE) : ibv_sge := mk_ibv_sge (sge_addr s) (sge_length s) (sge_lkey s).
Definition sge_zero : ibv_sge := mk_ibv_sge 0 0 0.

(** [_fill_sges(&csges[off], sg_list)] *)
Fixpoint _fill_sges (csges : list ibv_sge) (off : nat) (sg_list : list SGE) : list ibv_sge :=
  match sg_list with
  | [] => csges
  | s :: l => _fill_sges (<[off := c_sge s]> csges) (S off) l
  end.

(** * The loop over the requests *)

Section Chain.
Context {R C : Type} (sges : R → list SGE) (zero : C).

(** A cell of the array for a request, its [next], its [sg_list] and [num_sge]. *)
Context (cell : R → option nat → option nat → nat → C).

(** [for i in range(n)]: the cell, its entries from [sge_off] on, the link. *)
Fixpoint fill_chain (n i sge_off : nat) (wrs : list R) (cwrs : list C) (csges : list ibv_sge) :
    list C * list ibv_sge :=
  match wrs with
  | [] => (cwrs, csges)
  | w :: rest =>
      let nsge := length (sges w) in
      let csges' := _fill_sges csges sge_off (sges w) in
      let sgl := if (nsge =? 0)%nat then None else Some sge_off in
      let next := if (i + 1 <? n)%nat then Some (i + 1)%nat else None in
      fill_chain n (i + 1) (sge_off + nsge) rest (<[i := cell w next sgl nsge]> cwrs) csges'
  end.

(** The arrays of [calloc], at least one entry long, and the loop. *)
Definition build_chain (wrs : list R) : list C * list ibv_sge :=
  let n := length wrs in
  let total := _count_sges (sges <$> wrs) in
  fill_chain n 0 0 wrs (replicate n zero)
    (replicate (if (total =? 0)%nat then 1%nat else total) sge_zero).

(** * What a provider reads *)

Context (next_of sgl_of : C → option nat) (nsge_of : C → nat).

(** The [num_sge] entries at [sg_list]; [None] for a pointer outside the array. *)
Definition read_sges (csges : list ibv_sge) (c : C) : option (list ibv_sge) :=
  match nsge_of c with
  | O => Some []
  | n => p ← sgl_of c; if (p + n <=? length csges)%nat then Some (take n (drop p csges)) else None
  end.

Fixpoint read_chain (fuel : nat) (cwrs : list C) (csges : list ibv_sge) (p : option nat) :
    option (list (C * list ibv_sge)) :=
  match p with
  | None => Some []
  | Some p =>
      match fuel with
      | O => None
      | S fuel =>
          c ← cwrs !! p;
          gs ← read_sges csges c;
          l ← read_chain fuel cwrs csges (next_of c);
          Some ((c, gs) :: l)
      end
  end.

(** * Lemmas *)

Hypothesis next_cell : ∀ w nx sgl k, next_of (cell w nx sgl k) = nx.
Hypothesis sgl_cell : ∀ w nx sgl k, sgl_of (cell w nx sgl k) = sgl.
Hypothesis nsge_cell : ∀ w nx sgl k, nsge_of (cell w nx sgl k) = k.

Lemma fill_sges_app pre l n rest :
  (length l ≤ n)%nat →
  _fill_sges (pre ++ replicate n sge_zero ++ rest) (length pre) l =
    pre ++ (c_sge <$> l) ++ replicate (n - length l) sge_zero ++ rest.
Proof.
  revert pre n. induction l as [|s l IH]; intros pre n Hn; cbn [_fill_sges length] in *.
  { by rewrite Nat.sub_0_r. }
  destruct n as [|n]; [lia|]. cbn [replicate app Nat.sub].
  rewrite insert_app_r_alt, Nat.sub_diag by lia. cbn.
  assert (pre ++ c_sge s :: replicate n sge_zero ++ rest =
          (pre ++ [c_sge s]) ++ replicate n sge_zero ++ rest) as -> by by rewrite <-app_assoc.
  replace (S (length pre)) with (length (pre ++ [c_sge s])) by (rewrite length_app; simpl; lia).
  rewrite IH by lia. by rewrite <-app_assoc.
Qed.

(** The cells of the requests from index [i], whose entries start at [off]. *)
Fixpoint cells (n i off : nat) (wrs : list R) : list C :=
  match wrs with
  | [] => []
  | w :: rest =>
      let k := length (sges w) in
      cell w (if (i + 1 <? n)%nat then Some (i + 1)%nat else None)
        (if (k =? 0)%nat then None else Some off) k :: cells n (i + 1) (off + k) rest
  end.

Lemma fill_chain_cells n wrs : ∀ pre spre extra,
  fill_chain n (length pre) (length spre) wrs
      (pre ++ replicate (length wrs) zero)
      (spre ++ replicate (_count_sges (sges <$> wrs)) sge_zero ++ extra) =
    (pre ++ cells n (length pre) (length spre) wrs,
     spre ++ (c_sge <$> mjoin (sges <$> wrs)) ++ extra).
Proof.
  induction wrs as [|w rest IH]; intros pre spre extra; cbn [fill_chain cells].
  { cbn. by rewrite !app_nil_r. }
  rewrite fmap_cons. cbn [_count_sges length].
  rewrite fill_sges_app by lia. rewrite (Nat.add_sub_swap _ _ (length (sges w))), Nat.sub_diag by lia.
  cbn [replicate]. rewrite insert_app_r_alt, Nat.sub_diag by lia. cbn [insert list_insert].
  match goal with |- fill_chain _ _ _ _ (_ ++ ?x :: _) _ = _ => set (c := x) end.
  assert (pre ++ c :: replicate (length rest) zero = (pre ++ [c]) ++ replicate (length rest) zero)
    as -> by by rewrite <-app_assoc.
  replace (length pre + 1)%nat with (length (pre ++ [c])) by (rewrite length_app; simpl; lia).
  replace (length spre + length (sges w))%nat with (length (spre ++ (c_sge <$> sges w)))
    by (rewrite length_app, length_fmap; lia).
  rewrite app_assoc, IH, <-!app_assoc. f_equal. cbn. by rewrite fmap_app, <-app_assoc.
Qed.

Lemma build_chain_cells wrs :
  ∃ extra, build_chain wrs =
    (cells (length wrs) 0 0 wrs, (c_sge <$> mjoin (sges <$> wrs)) ++ extra).
Proof.
  unfold build_chain. set (t := _count_sges _).
  pose proof (fill_chain_cells (length wrs) wrs [] []
    (if (t =? 0)%nat then [sge_zero] else [])) as H. cbn [app length] in H. fold t in H.
  eexists. rewrite <-H. f_equal.
  destruct (t =? 0)%nat eqn:E; [apply Nat.eqb_eq in E; by rewrite E|by rewrite app_nil_r].
Qed.

Lemma read_cells wrs : ∀ pre gpre gs,
  let n := (length pre + length wrs)%nat in
  length gpre = length (mjoin (sges <$> pre)) →
  gs = gpre ++ (c_sge <$> mjoin (sges <$> wrs)) ++ drop (length gpre + length (mjoin (sges <$> wrs))) gs →
  ∀ cs, length cs = length pre →
  read_chain (length wrs) (cs ++ cells n (length pre) (length gpre) wrs) gs
      (if (length pre <? n)%nat then Some (length pre) else None) =
    Some (zip (cells n (length pre) (length gpre) wrs) ((λ w, c_sge <$> sges w) <$> wrs)).
Proof using next_cell sgl_cell nsge_cell.
  induction wrs as [|w rest IH]; intros pre gpre gs n Hg Hgs cs Hcs; subst n.
  { cbn [length]. rewrite Nat.add_0_r, Nat.ltb_irrefl. done. }
  cbn [length cells]. replace (length pre <? length pre + S (length rest))%nat with true
    by (symmetry; apply Nat.ltb_lt; lia).
  cbn [read_chain]. rewrite lookup_app_r, Hcs, Nat.sub_diag by lia. cbn [lookup list_lookup mbind option_bind].
  set (k := length (sges w)). set (n := (length pre + S (length rest))%nat).
  assert (Hread : ∀ nx, read_sges gs (cell w nx (if (k =? 0)%nat then None else Some (length gpre)) k)
                  = Some (c_sge <$> sges w)).
  { intros nx. unfold read_sges. rewrite nsge_cell, sgl_cell. destruct k as [|k'] eqn:Ek.
    - subst k. by destruct (sges w).
    - cbn [Nat.eqb mbind option_bind]. rewrite Hgs, fmap_cons. cbn [mjoin list_join concat].
      rewrite fmap_app, <-!app_assoc.
      replace (_ <=? _)%nat with true.
      2:{ symmetry. apply Nat.leb_le. rewrite !length_app, length_fmap. fold k. lia. }
      rewrite drop_app_length. f_equal. rewrite <-Ek. unfold k.
      rewrite <-(length_fmap c_sge (sges w)). apply take_app_length. }
  rewrite Hread. cbn [mbind option_bind]. rewrite next_cell.
  specialize (IH (pre ++ [w]) (gpre ++ (c_sge <$> sges w)) gs).
  rewrite !length_app, !length_fmap in IH. cbn [length] in IH.
  replace (length pre + 1 + length rest)%nat with n in IH by (subst n; lia).
  match goal with |- context [?c :: cells n (length pre + 1) _ rest] => set (c0 := c) in * end.
  assert (cs ++ c0 :: cells n (length pre + 1) (length gpre + k) rest =
          (cs ++ [c0]) ++ cells n (length pre + 1) (length gpre + k) rest) as ->
    by by rewrite <-app_assoc.
  rewrite IH; [done| | |by rewrite length_app; simpl; lia].
  - rewrite fmap_app. cbn. rewrite join_app, length_app, Hg. cbn. by rewrite app_nil_r.
  - rewrite Hgs at 1. rewrite fmap_cons. cbn [mjoin list_join concat].
    rewrite fmap_app, length_app, <-!app_assoc. do 3 f_equal.
    rewrite Nat.add_assoc. done.
Qed.

(** Following the pointers from the first request gives every request in order,
    each with its scatter entries, and stays inside the arrays. *)
Lemma chain_read wrs :
  wrs ≠ [] →
  let '(cwrs, csges) := build_chain wrs in
  read_chain (length wrs) cwrs csges (Some 0%nat) =
    Some (zip (cells (length wrs) 0 0 wrs) ((λ w, c_sge <$> sges w) <$> wrs)).
Proof using next_cell sgl_cell nsge_cell.
  intros Hne. destruct (build_chain_cells wrs) as [extra ->].
  pose proof (read_cells wrs [] [] ((c_sge <$> mjoin (sges <$> wrs)) ++ extra)) as H.
  cbn [length Nat.add app fmap list_fmap mjoin list_join concat] in H.
  destruct (0 <? length wrs)%nat eqn:E; [|apply Nat.ltb_ge in E; destruct wrs; simpl in *; [done|lia]].
  apply (H eq_refl) with (cs := []); [|done].
  by rewrite <-(length_fmap c_sge), drop_app_length.
Qed.
End Chain.

(** * Send requests *)

(** The opcodes that choose the member of the union. *)
Definition _WR_RDMA_WRITE : Z := 0.
Definition _WR_RDMA_WRITE_WITH_IMM : Z := 1.
Definition _WR_RDMA_READ : Z := 4.
Definition _WR_ATOMIC_CMP_AND_SWP : Z := 5.
Definition _WR_ATOMIC_FETCH_AND_ADD : Z := 6.

(** [ah_of] is the handle of an [AH] object. *)
Definition send_union (ah_of : nat → Z) (w : SendWR) : wr_union :=
  match sw_ah w with
  | Some ah => WrUd (ah_of ah) (sw_remote_qpn w) (sw_remote_qkey w)
  | None =>
      if (sw_opcode w =? _WR_ATOMIC_CMP_AND_SWP) || (sw_opcode w =? _WR_ATOMIC_FETCH_AND_ADD)
      then WrAtomic (sw_remote_addr w) (sw_compare_add w) (sw_swap w) (sw_rkey w)
      else if (sw_opcode w =? _WR_RDMA_WRITE) || (sw_opcode w =? _WR_RDMA_WRITE_WITH_IMM) ||
              (sw_opcode w =? _WR_RDMA_READ)
      then WrRdma (sw_remote_addr w) (sw_rkey w)
      else WrNone
  end.

Definition send_zero : ibv_send_wr := mk_ibv_send_wr 0 None None 0 0 0 0 WrNone.
Definition send_cell (ah_of : nat → Z) (w : SendWR) (next sgl : option nat) (nsge : nat) :
    ibv_send_wr :=
  mk_ibv_send_wr (sw_wr_id w) next sgl nsge (sw_opcode w) (sw_send_flags w)
    (htonl (sw_imm_data w)) (send_union ah_of w).

(** The arrays given to [ibv_post_send]. *)
Definition send_chain (ah_of : nat → Z) (wrs : list SendWR) :
    list ibv_send_wr * list ibv_sge :=
  build_chain sw_sg_list send_zero (send_cell ah_of) wrs.

Definition recv_zero : ibv_recv_wr := mk_ibv_recv_wr 0 None None 0.
Definition recv_cell (w : RecvWR) (next sgl : option nat) (nsge : nat) : ibv_recv_wr :=
  mk_ibv_recv_wr (rw_wr_id w) next sgl nsge.

(** The arrays given to [ibv_post_recv] and [ibv_post_srq_recv]. *)
Definition recv_chain (wrs : list RecvWR) : list ibv_recv_wr * list ibv_sge :=
  build_chain rw_sg_list recv_zero recv_cell wrs.

(** * What the provider receives *)

(** A send request as its consumer means it: what to do, where, with which bytes. *)
Inductive send_op :=
| OpSend
| OpDatagram (ah qpn qkey : Z)
| OpRdma (remote_addr rkey : Z)
| OpAtomic (remote_addr operand swap rkey : Z).

Record send_request := mk_send_request {
  sr_id : Z; sr_opcode : Z; sr_flags : Z; sr_imm : Z; sr_data : list (Z * Z * Z);
  sr_op : send_op;
}.

(** What a request of the Python program asks for. *)
Definition asked_op (ah_of : nat → Z) (w : SendWR) : send_op :=
  match sw_ah w, sw_opcode w with
  | Some ah, _ => OpDatagram (ah_of ah) (sw_remote_qpn w) (sw_remote_qkey w)
  | None, (0 | 1 | 4) => OpRdma (sw_remote_addr w) (sw_rkey w)
  | None, (5 | 6) => OpAtomic (sw_remote_addr w) (sw_compare_add w) (sw_swap w) (sw_rkey w)
  | None, _ => OpSend
  end.
Definition asked (ah_of : nat → Z) (w : SendWR) : send_request :=
  mk_send_request (sw_wr_id w) (sw_opcode w) (sw_send_flags w) (sw_imm_data w)
    ((λ s, (sge_addr s, sge_length s, sge_lkey s)) <$> sw_sg_list w) (asked_op ah_of w).

(** What the provider makes of a cell and its entries: the immediate data comes in
    network order, the union is read by the member that was written. *)
Definition seen (x : ibv_send_wr * list ibv_sge) : send_request :=
  mk_send_request (swr_wr_id x.1) (swr_opcode x.1) (swr_send_flags x.1) (ntohl (swr_imm_data x.1))
    ((λ g, (isge_addr g, isge_length g, isge_lkey g)) <$> x.2)
    match swr_wr x.1 with
    | WrNone => OpSend
    | WrRdma a k => OpRdma a k
    | WrAtomic a c s k => OpAtomic a c s k
    | WrUd a q k => OpDatagram a q k
    end.

(** The provider's walk over the arrays of a send and of a receive. *)
Definition read_send (fuel : nat) (m : list ibv_send_wr * list ibv_sge) : option (list send_request) :=
  option_map (map seen)
    (read_chain swr_next swr_sg_list swr_num_sge fuel m.1 m.2 (Some 0%nat)).
Definition read_recv (fuel : nat) (m : list ibv_recv_wr * list ibv_sge) :
    option (list (Z * list (Z * Z * Z))) :=
  option_map
    (map (λ x, (rwr_wr_id x.1, map (λ g, (isge_addr g, isge_length g, isge_lkey g)) x.2)))
    (read_chain rwr_next rwr_sg_list rwr_num_sge fuel m.1 m.2 (Some 0%nat)).

Lemma union_asked ah_of w :
  match send_union ah_of w with
  | WrNone => OpSend
  | WrRdma a k => OpRdma a k
  | WrAtomic a c s k => OpAtomic a c s k
  | WrUd a q k => OpDatagram a q k
  end = asked_op ah_of w.
Proof.
  unfold send_union, asked_op. destruct (sw_ah w); [done|].
  unfold _WR_ATOMIC_CMP_AND_SWP, _WR_ATOMIC_FETCH_AND_ADD, _WR_RDMA_WRITE,
    _WR_RDMA_WRITE_WITH_IMM, _WR_RDMA_READ.
  destruct (sw_opcode w) as [|p|p]; [done| |done].
  do 3 (destruct p as [p|p|]; try done).
Qed.

Lemma fmap_zip_cells {R C D} (sges : R → list SGE) (cell : R → option nat → option nat → nat → C)
    (f : C * list ibv_sge → D) (g : R → D) n :
  (∀ w nx sgl k, f (cell w nx sgl k, c_sge <$> sges w) = g w) →
  ∀ wrs i off, f <$> zip (cells sges cell n i off wrs) ((λ w, c_sge <$> sges w) <$> wrs) = g <$> wrs.
Proof.
  intros Hf. induction wrs as [|w rest IH]; intros i off; [done|].
  cbn [cells fmap list_fmap zip zip_with]. by rewrite Hf, <-(IH (i + 1)%nat (off + length (sges w))%nat).
Qed.

(** C30: A provider that follows the pointers of the arrays built by [post_send] finds the requests of
    the Python list, in order, each with its own scatter entries, its immediate data and the
    operands of its operation, and no pointer leaves the arrays; the same for the arrays of
    [post_recv]. *)
Theorem post_chain_correct ah_of swrs rwrs :
  swrs ≠ [] → rwrs ≠ [] →
  Forall (λ w, 0 ≤ sw_imm_data w < 2 ^ 32) swrs →
  read_send (length swrs) (send_chain ah_of swrs) = Some (asked ah_of <$> swrs) ∧
  read_recv (length rwrs) (recv_chain rwrs) =
    Some ((λ w, (rw_wr_id w, (λ s, (sge_addr s, sge_length s, sge_lkey s)) <$> rw_sg_list w)) <$> rwrs).
Proof.
  intros Hs Hr Himm. split.
  - unfold read_send, send_chain.
    pose proof (chain_read sw_sg_list send_zero (send_cell ah_of) swr_next swr_sg_list swr_num_sge
      (λ _ _ _ _, eq_refl) (λ _ _ _ _, eq_refl) (λ _ _ _ _, eq_refl) swrs Hs) as H.
    destruct (build_chain _ _ _ swrs) as [cs gs]. cbn [fst snd]. rewrite H. cbn. f_equal.
    set (g := λ w, mk_send_request (sw_wr_id w) (sw_opcode w) (sw_send_flags w)
      (ntohl (htonl (sw_imm_data w)))
      ((λ s, (sge_addr s, sge_length s, sge_lkey s)) <$> sw_sg_list w) (asked_op ah_of w)).
    rewrite (fmap_zip_cells _ _ _ g).
    + apply list_fmap_ext. intros i w Hw. unfold g, asked.
      rewrite Forall_lookup in Himm. by rewrite (proj1 (htonl_ntohl _ (Himm _ _ Hw))).
    + intros w nx sgl k. unfold g, seen. cbn. by rewrite <-list_fmap_compose, union_asked.
  - unfold read_recv, recv_chain.
    pose proof (chain_read rw_sg_list recv_zero recv_cell rwr_next rwr_sg_list rwr_num_sge
      (λ _ _ _ _, eq_refl) (λ _ _ _ _, eq_refl) (λ _ _ _ _, eq_refl) rwrs Hr) as H.
    destruct (build_chain _ _ _ rwrs) as [cs gs]. cbn [fst snd]. rewrite H. cbn. f_equal.
    apply fmap_zip_cells. intros w nx sgl k. cbn. by rewrite <-list_fmap_compose.
Qed.

Lemma post_chain_correct_witness :
  let w1 := mk_SendWR 7 [mk_SGE 4096 16 1 None; mk_SGE 8192 32 2 None] 1 2 65536 9 0x01020304 0 0
              None 0 0 in
  let w2 := mk_SendWR 8 [] 2 2 0 0 0 0 0 None 0 0 in
  let w3 := mk_SendWR 9 [mk_SGE 12288 8 3 None] 6 0 131072 9 0 5 6 None 0 0 in
  let r1 := mk_RecvWR 3 [mk_SGE 4096 64 1 None] in
  read_send 3 (send_chain (λ _, 0) [w1; w2; w3]) =
    Some (asked (λ _, 0) <$> [w1; w2; w3]) ∧
  read_recv 1 (recv_chain [r1]) = Some [(3, [(4096, 64, 1)])].
Proof.
  intros w1 w2 w3 r1.
  apply (post_chain_correct (λ _, 0) [w1; w2; w3] [r1]);
    [discriminate|discriminate|repeat constructor; vm_compute; congruence].
Defined.
