(* ===== verification/VerbsObjects.v ===== *)
(** The objects of the verbs binding, src/ibverbs/src/ibverbs/_ibverbs.pyx: the
    classes [Context], [PD], [MR], [CompChannel], [CQ], [QP], [AH], [SRQ], [CMID] and
    [AsyncEvent] with their methods and their [__dealloc__], and the loading of the
    libraries.

    The objects live in a heap, a reference is a number; a closed object holds the
    handle 0.  An argument has the class that its documentation names ([load] raises
    TypeError otherwise; the source casts some of them unchecked).  A [cdef] method
    or a C function pointer is called on the world through [native]; argument types
    such as [int] convert first, as Cython does. *)

From S2P Require Import Prelude Bytes Json.
From S2P Require Import GpuNetIO.
From S2P Require Import Helpers.
From S2P Require Import VerbsLib VerbsValues VerbsPost.
#[local] Open Scope Z_scope.

(** * Objects *)

Record Context := mk_Context {
  ctx_ctx : Z; ctx_name : str; ctx_children : Z; ctx_owned : bool;
}.
Record PD := mk_PD { pd_pd : Z; pd_context : nat }.
Record MR := mk_MR { mr_mr : Z; mr_pd : nat; mr_owner : option nat }.
Record CompChannel := mk_CompChannel { chan_chan : Z; chan_context : nat }.
Record CQ := mk_CQ {
  cq_cq : Z; cq_context : nat; cq_channel : option nat; cq_unacked : Z;
  cq_external_datapath : bool; cq_external_users : Z;
}.
Record QP := mk_QP {
  qp_qp : Z; qp_pd : nat; qp_send_cq : nat; qp_recv_cq : nat; qp_srq : option nat;
  qp_port : Z; qp_cm_id : Z; qp_cm_owner : option nat;
  qp_external_datapath : bool; qp_external_users : Z;
}.
Record AH := mk_AH { ah_ah : Z; ah_pd : nat }.
Record SRQ := mk_SRQ { srq_srq : Z; srq_pd : nat }.
(** [resolve] is the only constructor, and sets the context. *)
Record CMID := mk_CMID {
  cm_id : Z; cm_context : nat; cm_host : str; cm_port : Z; cm_source : option str;
  cm_connected : bool;
}.
Record AsyncEvent := mk_AsyncEvent { ev_acked : bool; event_type : Z }.

Inductive PyObj :=
| OContext (o : Context)
| OPD (o : PD)
| OMR (o : MR)
| OCompChannel (o : CompChannel)
| OCQ (o : CQ)
| OQP (o : QP)
| OAH (o : AH)
| OSRQ (o : SRQ)
| OCMID (o : CMID)
| OAsyncEvent (o : AsyncEvent).

(** A class of objects in the heap. *)
Class PyClass (O : Type) := { to_obj : O → PyObj; of_obj : PyObj → option O }.
#[global] Instance Context_class : PyClass Context :=
  { to_obj := OContext; of_obj x := match x with OContext o => Some o | _ => None end }.
#[global] Instance PD_class : PyClass PD :=
  { to_obj := OPD; of_obj x := match x with OPD o => Some o | _ => None end }.
#[global] Instance MR_class : PyClass MR :=
  { to_obj := OMR; of_obj x := match x with OMR o => Some o | _ => None end }.
#[global] Instance CompChannel_class : PyClass CompChannel :=
  { to_obj := OCompChannel; of_obj x := match x with OCompChannel o => Some o | _ => None end }.
#[global] Instance CQ_class : PyClass CQ :=
  { to_obj := OCQ; of_obj x := match x with OCQ o => Some o | _ => None end }.
#[global] Instance QP_class : PyClass QP :=
  { to_obj := OQP; of_obj x := match x with OQP o => Some o | _ => None end }.
#[global] Instance AH_class : PyClass AH :=
  { to_obj := OAH; of_obj x := match x with OAH o => Some o | _ => None end }.
#[global] Instance SRQ_class : PyClass SRQ :=
  { to_obj := OSRQ; of_obj x := match x with OSRQ o => Some o | _ => None end }.
#[global] Instance CMID_class : PyClass CMID :=
  { to_obj := OCMID; of_obj x := match x with OCMID o => Some o | _ => None end }.
#[global] Instance AsyncEvent_class : PyClass AsyncEvent :=
  { to_obj := OAsyncEvent; of_obj x := match x with OAsyncEvent o => Some o | _ => None end }.

(** Changes of a field. *)
Definition set_ctx (h : Z) (o : Context) : Context :=
  mk_Context h (ctx_name o) (ctx_children o) (ctx_owned o).
Definition set_children (n : Z) (o : Context) : Context :=
  mk_Context (ctx_ctx o) (ctx_name o) n (ctx_owned o).
Definition set_pd (h : Z) (o : PD) : PD := mk_PD h (pd_context o).
Definition set_mr (h : Z) (o : MR) : MR := mk_MR h (mr_pd o) (mr_owner o).
Definition set_mr_owner (w : option nat) (o : MR) : MR := mk_MR (mr_mr o) (mr_pd o) w.
Definition set_chan (h : Z) (o : CompChannel) : CompChannel := mk_CompChannel h (chan_context o).
Definition set_cq (h : Z) (o : CQ) : CQ :=
  mk_CQ h (cq_context o) (cq_channel o) (cq_unacked o) (cq_external_datapath o) (cq_external_users o).
Definition set_unacked (n : Z) (o : CQ) : CQ :=
  mk_CQ (cq_cq o) (cq_context o) (cq_channel o) n (cq_external_datapath o) (cq_external_users o).
Definition set_cq_external (b : bool) (n : Z) (o : CQ) : CQ :=
  mk_CQ (cq_cq o) (cq_context o) (cq_channel o) (cq_unacked o) b n.
Definition set_qp (h : Z) (o : QP) : QP :=
  mk_QP h (qp_pd o) (qp_send_cq o) (qp_recv_cq o) (qp_srq o) (qp_port o) (qp_cm_id o)
    (qp_cm_owner o) (qp_external_datapath o) (qp_external_users o).
Definition set_port (p : Z) (o : QP) : QP :=
  mk_QP (qp_qp o) (qp_pd o) (qp_send_cq o) (qp_recv_cq o) (qp_srq o) p (qp_cm_id o)
    (qp_cm_owner o) (qp_external_datapath o) (qp_external_users o).
Definition set_cm (h : Z) (w : option nat) (o : QP) : QP :=
  mk_QP (qp_qp o) (qp_pd o) (qp_send_cq o) (qp_recv_cq o) (qp_srq o) (qp_port o) h w
    (qp_external_datapath o) (qp_external_users o).
Definition set_qp_external (b : bool) (n : Z) (o : QP) : QP :=
  mk_QP (qp_qp o) (qp_pd o) (qp_send_cq o) (qp_recv_cq o) (qp_srq o) (qp_port o) (qp_cm_id o)
    (qp_cm_owner o) b n.
Definition set_ah (h : Z) (o : AH) : AH := mk_AH h (ah_pd o).
Definition set_srq (h : Z) (o : SRQ) : SRQ := mk_SRQ h (srq_pd o).
Definition set_cm_id (h : Z) (o : CMID) : CMID :=
  mk_CMID h (cm_context o) (cm_host o) (cm_port o) (cm_source o) (cm_connected o).
Definition set_connected (b : bool) (o : CMID) : CMID :=
  mk_CMID (cm_id o) (cm_context o) (cm_host o) (cm_port o) (cm_source o) b.

(** * State *)

(** [b_syms] are the function pointers [_v_...] and [_cm_...] by the name of their
    symbol, absent or 0 for NULL; then [_libhandle], [_mlx5_libhandle],
    [_mlx5_init_obj] and [_cm_libhandle]. *)
Record Binding (W : Type) := mk_Binding {
  b_heap : gmap nat PyObj;
  b_syms : gmap string Z;
  b_libhandle : Z;
  b_mlx5_libhandle : Z;
  b_mlx5_init_obj : Z;
  b_cm_libhandle : Z;
  b_world : W;
}.
Arguments mk_Binding {W}.
Arguments b_heap {W}.
Arguments b_syms {W}.
Arguments b_libhandle {W}.
Arguments b_mlx5_libhandle {W}.
Arguments b_mlx5_init_obj {W}.
Arguments b_cm_libhandle {W}.
Arguments b_world {W}.

Section State.
Context {W : Type}.
Implicit Types s : Binding W.

Definition set_heap (m : gmap nat PyObj) s : Binding W :=
  mk_Binding m (b_syms s) (b_libhandle s) (b_mlx5_libhandle s) (b_mlx5_init_obj s)
    (b_cm_libhandle s) (b_world s).
Definition set_world (w : W) s : Binding W :=
  mk_Binding (b_heap s) (b_syms s) (b_libhandle s) (b_mlx5_libhandle s) (b_mlx5_init_obj s)
    (b_cm_libhandle s) w.
Definition set_syms (m : gmap string Z) s : Binding W :=
  mk_Binding (b_heap s) m (b_libhandle s) (b_mlx5_libhandle s) (b_mlx5_init_obj s)
    (b_cm_libhandle s) (b_world s).
Definition set_libhandle (h : Z) s : Binding W :=
  mk_Binding (b_heap s) (b_syms s) h (b_mlx5_libhandle s) (b_mlx5_init_obj s)
    (b_cm_libhandle s) (b_world s).
Definition set_mlx5 (h o : Z) s : Binding W :=
  mk_Binding (b_heap s) (b_syms s) (b_libhandle s) h o (b_cm_libhandle s) (b_world s).
Definition set_cm_libhandle (h : Z) s : Binding W :=
  mk_Binding (b_heap s) (b_syms s) (b_libhandle s) (b_mlx5_libhandle s) (b_mlx5_init_obj s) h
    (b_world s).

(** A call into a library, and a read of its memory. *)
Definition native {A} (f : W → A * W) : M (Binding W) A := λ s,
  let '(a, w) := f (b_world s) in (Ok a, set_world w s).
Definition peek {A} (f : W → A) : M (Binding W) A := λ s, (Ok (f (b_world s)), s).
Definition native_ (f : W → W) : M (Binding W) unit := native (λ w, (tt, f w)).

(** A reference that no object has. *)
Definition fresh_ref (m : gmap nat PyObj) : nat := map_fold (λ r _ n, Nat.max (S r) n) O m.

Context {O : Type} `{!PyClass O}.

Definition load (r : nat) : M (Binding W) O := λ s,
  match b_heap s !! r ≫= of_obj with Some o => (Ok o, s) | None => (Raise TypeError, s) end.
Definition store (r : nat) (o : O) : M (Binding W) unit :=
  modify (λ s, set_heap (<[r := to_obj o]> (b_heap s)) s).
Definition new (o : O) : M (Binding W) nat := λ s,
  let r := fresh_ref (b_heap s) in (Ok r, set_heap (<[r := to_obj o]> (b_heap s)) s).
Definition update (r : nat) (f : O → O) : M (Binding W) unit := o ← load r; store r (f o).
End State.

Section Binding.
Context {W : Type} `{!Libibverbs W}.
Abbreviation B := (Binding W).

(** * Errors *)

Definition _fail {A} : M B A :=
  errno ← peek c_errno; raise (VerbsError (if negb (errno =? 0) then errno else EIO)).
Definition _fail_rc {A} (rc : Z) : M B A :=
  errno ← peek c_errno; raise (VerbsError (_error_from_rc errno rc)).
(** [if rc != 0: _fail_rc(op, rc)] *)
Definition check_rc (rc : Z) : M B unit := if rc =? 0 then mret tt else _fail_rc rc.
(** [if p is NULL: _fail(op)] *)
Definition check_null (p : Z) : M B unit := if p =? 0 then _fail else mret tt.
(** [if handle is NULL: raise VerbsError(op, EBADF)], the [_ensure] of a class. *)
Definition ensure (h : Z) : M B unit := guard_raise (h =? 0) (VerbsError EBADF).
(** The conversion of an argument to a C type. *)
Definition c_int (v : Z) : M B Z := lift (to_int v).
Definition c_uint (bits v : Z) : M B Z := lift (to_uint bits v).

(** * Loading the libraries *)

Definition _req_sym (h : Z) (name : string) : M B Z :=
  sym ← peek (λ w, dl_sym w h name);
  guard_raise (sym =? 0) ImportError;;
  mret sym.

Definition set_sym (name : string) (p : Z) : M B unit :=
  modify (λ s, set_syms (<[name := p]> (b_syms s)) s).
Definition load_sym (h : Z) (name : string) : M B unit := p ← _req_sym h name; set_sym name p.

(** The symbols of libibverbs in the order in which they are resolved. *)
Definition ibverbs_symbols : list string :=
  ["ibv_get_device_list"; "ibv_free_device_list"; "ibv_get_device_name"; "ibv_get_device_guid";
   "ibv_open_device"; "ibv_close_device"; "ibv_query_device"; "ibv_query_port"; "ibv_query_gid";
   "ibv_alloc_pd"; "ibv_dealloc_pd"; "ibv_reg_mr_iova2"; "ibv_dereg_mr";
   "ibv_create_comp_channel"; "ibv_destroy_comp_channel"; "ibv_create_cq"; "ibv_destroy_cq";
   "ibv_get_cq_event"; "ibv_ack_cq_events"; "ibv_create_qp"; "ibv_destroy_qp"; "ibv_modify_qp";
   "ibv_query_qp"; "ibv_create_ah"; "ibv_destroy_ah"; "ibv_create_srq"; "ibv_destroy_srq";
   "ibv_modify_srq"; "ibv_query_srq"; "ibv_get_async_event"; "ibv_ack_async_event";
   "ibv_event_type_str"; "ibv_wc_status_str"]%string.

Definition _load_libibverbs : M B unit :=
  h ← native (dl_open "libibverbs.so.1");
  guard_raise (h =? 0) ImportError;;
  modify (set_libhandle h);;
  for_each (load_sym h) ibverbs_symbols;;
  p ← peek (λ w, dl_sym w h "ibv_reg_dmabuf_mr");
  set_sym "ibv_reg_dmabuf_mr" p.

Definition _load_mlx5dv_init_obj : M B Z :=
  s ← get;
  if negb (b_mlx5_init_obj s =? 0) then mret (b_mlx5_init_obj s) else
  h ← native (dl_open "libmlx5.so.1");
  modify (set_mlx5 h 0);;
  guard_raise (h =? 0) RuntimeError;;
  p ← peek (λ w, dl_sym w h "mlx5dv_init_obj");
  modify (set_mlx5 h p);;
  guard_raise (p =? 0) RuntimeError;;
  mret p.

Definition rdmacm_symbols : list string :=
  ["rdma_getaddrinfo"; "rdma_freeaddrinfo"; "rdma_create_ep"; "rdma_destroy_ep"; "rdma_create_qp";
   "rdma_destroy_qp"; "rdma_connect"; "rdma_disconnect"]%string.

Definition _load_librdmacm : M B unit :=
  s ← get;
  if negb (b_cm_libhandle s =? 0) then mret tt else
  h ← native (dl_open "librdmacm.so.1");
  guard_raise (h =? 0) RuntimeError;;
  for_each (load_sym h) rdmacm_symbols;;
  modify (set_cm_libhandle h).

Definition _linked : M B bool := s ← get; mret (negb (b_libhandle s =? 0)).
Definition _has_dmabuf : M B bool :=
  s ← get; mret (negb (default 0 (b_syms s !! "ibv_reg_dmabuf_mr"%string) =? 0)).
Definition _has_rdmacm : M B bool :=
  try_except (_load_librdmacm;; mret true)
    (λ e, match e with RuntimeError => mret false | _ => raise e end).

(** * Devices and contexts *)

(** [str.encode()]: surrogates have no encoding. *)
Fixpoint utf8_encode (s : str) : result bytes :=
  match s with
  | [] => Ok []
  | c :: s =>
      raise_if ((0xD800 <=? c) && (c <=? 0xDFFF)) UnicodeError;;
      b ← utf8_encode s;
      Ok ((if c <? 0x80 then [c]
           else if c <? 0x800 then [0xC0 + c `div` 64; 0x80 + c mod 64]
           else if c <? 0x10000 then
             [0xE0 + c `div` 4096; 0x80 + (c `div` 64) mod 64; 0x80 + c mod 64]
           else [0xF0 + c `div` 262144; 0x80 + (c `div` 4096) mod 64;
                 0x80 + (c `div` 64) mod 64; 0x80 + c mod 64]) ++ b)
  end.

(** What C sees of a byte string: the bytes before the first NUL. *)
Fixpoint c_string (b : bytes) : bytes :=
  match b with [] => [] | x :: b => if x =? 0 then [] else x :: c_string b end.

Record Device := mk_Device { device_name : str; device_guid : Z }.

Definition Context_wrap (ctx : Z) (name : str) : M B nat := new (mk_Context ctx name 0 true).
Definition Context_wrap_borrowed (ctx : Z) (name : str) : M B nat :=
  new (mk_Context ctx name 0 false).

(** [for i in range(num)]: the first device of the name is opened. *)
Fixpoint open_named (want : bytes) (lst : list ibv_device) : M B Z :=
  match lst with
  | [] => mret 0
  | d :: rest =>
      if bool_decide (c_string (dev_name d) = c_string want)
      then native (v_open_device (dev_ptr d)) else open_named want rest
  end.

Definition Device_open (self : Device) : M B nat :=
  lst ← native v_get_device_list;
  want ← lift (utf8_encode (device_name self));
  match lst with
  | None => _fail
  | Some l =>
      ctx ← try_finally (open_named want l) (native_ v_free_device_list);
      errno ← peek c_errno;
      guard_raise (ctx =? 0) (VerbsError errno);;
      Context_wrap ctx (device_name self)
  end.

Fixpoint describe_devices (lst : list ibv_device) : result (list Device) :=
  match lst with
  | [] => Ok []
  | d :: rest =>
      name ← decode (dev_name d);
      l ← describe_devices rest;
      Ok (mk_Device name (dev_guid d) :: l)
  end.

Definition get_device_list : M B (list Device) :=
  lst ← native v_get_device_list;
  match lst with
  | None => _fail
  | Some l => try_finally (lift (describe_devices l)) (native_ v_free_device_list)
  end.

Definition ctx_ensure (o : Context) : M B unit := ensure (ctx_ctx o).

(** [_children] is an [unsigned int]. *)
Definition _add_child (ctx : nat) : M B unit :=
  update ctx (λ o, set_children (u32 (ctx_children o + 1)) o).
Definition _release_child (ctx : nat) : M B unit :=
  update ctx (λ o, if 0 <? ctx_children o then set_children (ctx_children o - 1) o else o).

Definition num_comp_vectors (self : nat) : M B Z :=
  o ← load self; ctx_ensure o;; peek (λ w, v_num_comp_vectors w (ctx_ctx o)).
Definition async_fd (self : nat) : M B Z :=
  o ← load self; ctx_ensure o;; peek (λ w, v_async_fd w (ctx_ctx o)).

(** The record of the answer holds the fields the source copies; [fw_ver] is decoded. *)
Definition query_device (self : nat) : M B (str * DeviceAttr) :=
  o ← load self;
  ctx_ensure o;;
  '(rc, a) ← native (v_query_device (ctx_ctx o));
  check_rc rc;;
  ver ← (if default 0 (head (fw_ver a)) =? 0 then mret [] else lift (decode (c_string (fw_ver a))));
  mret (ver, a).

Definition query_port (self : nat) (port : Z) : M B PortAttr :=
  port ← c_int port;
  o ← load self;
  ctx_ensure o;;
  '(rc, a) ← native (v_query_port (ctx_ctx o) (u8 port));
  check_rc rc;;
  mret a.

Definition query_gid (self : nat) (port index : Z) : M B Gid :=
  port ← c_int port;
  index ← c_int index;
  o ← load self;
  ctx_ensure o;;
  '(rc, raw) ← native (v_query_gid (ctx_ctx o) (u8 port) index);
  (if negb (rc =? 0) then _fail else mret tt);;
  lift (Gid_init (take 16 raw)).

Definition PD_wrap (pd : Z) (ctx : nat) : M B nat :=
  r ← new (mk_PD pd ctx); _add_child ctx;; mret r.
Definition CompChannel_wrap (chan : Z) (ctx : nat) : M B nat :=
  r ← new (mk_CompChannel chan ctx); _add_child ctx;; mret r.

Definition alloc_pd (self : nat) : M B nat :=
  o ← load self;
  ctx_ensure o;;
  pd ← native (v_alloc_pd (ctx_ctx o));
  check_null pd;;
  PD_wrap pd self.

Definition create_comp_channel (self : nat) : M B nat :=
  o ← load self;
  ctx_ensure o;;
  ch ← native (v_create_comp_channel (ctx_ctx o));
  check_null ch;;
  CompChannel_wrap ch self.

Definition chan_ensure (o : CompChannel) : M B unit := ensure (chan_chan o).

(** The channel of a completion queue: its handle, 0 without one. *)
Definition cq_channel_handle (self : nat) (channel : option nat) : M B Z :=
  match channel with
  | None => mret 0
  | Some ch =>
      c ← load ch;
      chan_ensure c;;
      guard_raise (negb (chan_context c =? self)%nat) ValueError;;
      mret (chan_chan c)
  end.

(** The queue's object exists before the native queue, which keeps its address; a
    failed creation drops it. *)
Definition create_cq (self : nat) (cqe : Z) (channel : option nat) (comp_vector : Z) : M B nat :=
  cqe ← c_int cqe;
  comp_vector ← c_int comp_vector;
  o ← load self;
  ctx_ensure o;;
  guard_raise (cqe <=? 0) ValueError;;
  n ← peek (λ w, v_num_comp_vectors w (ctx_ctx o));
  guard_raise ((comp_vector <? 0) || (n <=? comp_vector)) ValueError;;
  chp ← cq_channel_handle self channel;
  s ← get;
  let r := fresh_ref (b_heap s) in
  h ← native (v_create_cq (ctx_ctx o) cqe r chp comp_vector);
  check_null h;;
  r ← new (mk_CQ h self channel 0 false 0);
  _add_child self;;
  mret r.

Definition get_async_event (self : nat) : M B nat :=
  o ← load self;
  ctx_ensure o;;
  '(rc, ev) ← native (v_get_async_event (ctx_ctx o));
  (if negb (rc =? 0) then _fail else mret tt);;
  new (mk_AsyncEvent false ev).

Definition ack_async_event (self ev : nat) : M B unit :=
  o ← load (O := AsyncEvent) ev;
  if ev_acked o then mret tt else
  native_ (v_ack_async_event (event_type o));;
  store ev (mk_AsyncEvent true (event_type o)).

Definition Context_close (self : nat) : M B unit :=
  o ← load self;
  if ctx_ctx o =? 0 then mret tt else
  guard_raise (negb (ctx_owned o)) (VerbsError EBUSY);;
  guard_raise (negb (ctx_children o =? 0)) (VerbsError EBUSY);;
  rc ← native (v_close_device (ctx_ctx o));
  (if negb (rc =? 0) then _fail else mret tt);;
  update self (set_ctx 0).

Definition Context_dealloc (self : nat) : M B unit :=
  o ← load self;
  if ctx_owned o && negb (ctx_ctx o =? 0) && (ctx_children o =? 0) then
    native (v_close_device (ctx_ctx o));; update self (set_ctx 0)
  else mret tt.

(** * Protection domains and memory regions *)

Definition pd_ensure (o : PD) : M B unit := ensure (pd_pd o).

Definition MR_wrap (mr : Z) (pd : nat) : M B nat := new (mk_MR mr pd None).

Definition reg_mr (self : nat) (addr length access : Z) : M B nat :=
  access ← c_int access;
  o ← load self;
  pd_ensure o;;
  guard_raise ((addr <? 0) || (0xFFFFFFFFFFFFFFFF <? addr)) ValueError;;
  guard_raise ((length <=? 0) || (0xFFFFFFFFFFFFFFFF <? length)) ValueError;;
  guard_raise (0x10000000000000000 <? addr + length) ValueError;;
  mr ← native (v_reg_mr_iova2 (pd_pd o) addr length addr (u32 access));
  check_null mr;;
  MR_wrap mr self.

Definition reg_dmabuf_mr (self : nat) (offset length iova fd access : Z) : M B nat :=
  fd ← c_int fd;
  access ← c_int access;
  o ← load self;
  pd_ensure o;;
  s ← get;
  guard_raise (default 0 (b_syms s !! "ibv_reg_dmabuf_mr"%string) =? 0) RuntimeError;;
  guard_raise ((offset <? 0) || (0xFFFFFFFFFFFFFFFF <? offset)) ValueError;;
  guard_raise ((length <=? 0) || (0xFFFFFFFFFFFFFFFF <? length)) ValueError;;
  guard_raise ((iova <? 0) || (0xFFFFFFFFFFFFFFFF <? iova)) ValueError;;
  mr ← native (v_reg_dmabuf_mr (pd_pd o) offset length iova fd access);
  check_null mr;;
  MR_wrap mr self.

Definition PD_close (self : nat) : M B unit :=
  o ← load self;
  if pd_pd o =? 0 then mret tt else
  rc ← native (v_dealloc_pd (pd_pd o));
  check_rc rc;;
  update self (set_pd 0);;
  _release_child (pd_context o).

Definition PD_dealloc (self : nat) : M B unit :=
  o ← load self;
  if pd_pd o =? 0 then mret tt else
  rc ← native (v_dealloc_pd (pd_pd o));
  (if rc =? 0 then _release_child (pd_context o) else mret tt);;
  update self (set_pd 0).

Definition mr_ensure (o : MR) : M B unit := ensure (mr_mr o).

Definition MR_closed (self : nat) : M B bool := o ← load self; mret (mr_mr o =? 0).
(** The fields of an open region: [addr], [length], [lkey], [rkey], [handle]. *)
Definition mr_field (f : W → Z → Z) (self : nat) : M B Z :=
  o ← load self; mr_ensure o;; peek (λ w, f w (mr_mr o)).
Definition MR_addr (self : nat) : M B Z := mr_field v_mr_addr self.
Definition MR_length (self : nat) : M B Z := mr_field v_mr_length self.
Definition MR_lkey (self : nat) : M B Z := mr_field v_mr_lkey self.
Definition MR_rkey (self : nat) : M B Z := mr_field v_mr_rkey self.
Definition MR_handle (self : nat) : M B Z := mr_field v_mr_handle self.

(** [SGE(mr, length, lkey, offset)] *)
Definition SGE_mr (mr : nat) (length lkey offset : Z) : M B SGE :=
  lift (SGE_check length lkey offset);;
  o ← load mr;
  mr_ensure o;;
  s ← get;
  let w := b_world s in
  lift (SGE_of_region mr (v_mr_addr w (mr_mr o)) (v_mr_length w (mr_mr o))
          (v_mr_lkey w (mr_mr o)) length lkey offset).

Definition MR_sge (self : nat) (length : option Z) (offset : Z) : M B SGE :=
  o ← load self;
  mr_ensure o;;
  len ← peek (λ w, v_mr_length w (mr_mr o));
  guard_raise ((offset <? 0) || (len <? offset)) ValueError;;
  SGE_mr self (default (len - offset) length) 0 offset.

Definition MR_keepalive (self owner : nat) : M B unit := update self (set_mr_owner (Some owner)).

Definition MR_close (self : nat) : M B unit :=
  o ← load self;
  if mr_mr o =? 0 then mret tt else
  rc ← native (v_dereg_mr (mr_mr o));
  check_rc rc;;
  update self (set_mr 0);;
  update self (set_mr_owner None).

Definition MR_dealloc (self : nat) : M B unit :=
  o ← load self;
  if mr_mr o =? 0 then mret tt else
  native (v_dereg_mr (mr_mr o));;
  update self (set_mr 0).

(** * Completion channels and queues *)

Definition CompChannel_fd (self : nat) : M B Z :=
  o ← load self; chan_ensure o;; peek (λ w, v_chan_fd w (chan_chan o)).

(** The event carries the address of the queue's object, whose [_unacked] is an [int]. *)
Definition get_cq_event (self : nat) : M B nat :=
  o ← load self;
  chan_ensure o;;
  '(rc, cq) ← native (v_get_cq_event (chan_chan o));
  (if negb (rc =? 0) then _fail else mret tt);;
  update cq (λ q, set_unacked (i32 (cq_unacked q + 1)) q);;
  mret cq.

Definition CompChannel_close (self : nat) : M B unit :=
  o ← load self;
  if chan_chan o =? 0 then mret tt else
  rc ← native (v_destroy_comp_channel (chan_chan o));
  check_rc rc;;
  update self (set_chan 0);;
  _release_child (chan_context o).

Definition CompChannel_dealloc (self : nat) : M B unit :=
  o ← load self;
  if chan_chan o =? 0 then mret tt else
  rc ← native (v_destroy_comp_channel (chan_chan o));
  (if rc =? 0 then _release_child (chan_context o) else mret tt);;
  update self (set_chan 0).

Definition cq_ensure (o : CQ) : M B unit := ensure (cq_cq o).

Definition CQ_cqe (self : nat) : M B Z :=
  o ← load self; cq_ensure o;; peek (λ w, v_cqe w (cq_cq o)).

Definition poll (self : nat) (num_entries : Z) : M B (list WC) :=
  num_entries ← c_int num_entries;
  o ← load self;
  cq_ensure o;;
  guard_raise (cq_external_datapath o) (VerbsError EBUSY);;
  guard_raise (num_entries <=? 0) ValueError;;
  '(n, wcs) ← native (v_poll_cq (cq_cq o) num_entries);
  errno ← peek c_errno;
  guard_raise (n <? 0) (VerbsError
    (if n <? -1 then - n else if negb (errno =? 0) then errno else EIO));;
  mret (_wc_from_c <$> take (Z.to_nat n) wcs).

Definition req_notify (self : nat) (solicited_only : bool) : M B unit :=
  o ← load self;
  cq_ensure o;;
  guard_raise (cq_external_datapath o) (VerbsError EBUSY);;
  rc ← native (v_req_notify_cq (cq_cq o) (if solicited_only then 1 else 0));
  check_rc rc.

(** [nevents] is an [unsigned int], compared and subtracted as an [int]. *)
Definition ack_events (self : nat) (nevents : Z) : M B unit :=
  nevents ← c_uint 32 nevents;
  o ← load self;
  cq_ensure o;;
  guard_raise (nevents =? 0) ValueError;;
  guard_raise (cq_unacked o <? i32 nevents) ValueError;;
  native_ (v_ack_cq_events (cq_cq o) nevents);;
  update self (λ o, set_unacked (i32 (cq_unacked o - i32 nevents)) o).

(** Events that were never acknowledged would make [ibv_destroy_cq] wait. *)
Definition ack_all (self : nat) : M B unit :=
  o ← load self;
  if 0 <? cq_unacked o then
    native_ (v_ack_cq_events (cq_cq o) (u32 (cq_unacked o)));; update self (set_unacked 0)
  else mret tt.

Definition CQ_close (self : nat) : M B unit :=
  o ← load self;
  if cq_cq o =? 0 then mret tt else
  guard_raise (negb (cq_external_users o =? 0)) (VerbsError EBUSY);;
  ack_all self;;
  rc ← native (v_destroy_cq (cq_cq o));
  check_rc rc;;
  update self (set_cq 0);;
  _release_child (cq_context o).

Definition CQ_dealloc (self : nat) : M B unit :=
  o ← load self;
  if cq_cq o =? 0 then mret tt else
  (if 0 <? cq_unacked o
   then native_ (v_ack_cq_events (cq_cq o) (u32 (cq_unacked o))) else mret tt);;
  rc ← native (v_destroy_cq (cq_cq o));
  (if rc =? 0 then _release_child (cq_context o) else mret tt);;
  update self (set_cq 0).

(** * Queue pairs *)

Definition srq_ensure (o : SRQ) : M B unit := ensure (srq_srq o).
Definition qp_ensure (o : QP) : M B unit := ensure (qp_qp o).

Definition QP_wrap (qp : Z) (pd scq rcq : nat) (srq : option nat) : M B nat :=
  new (mk_QP qp pd scq rcq srq 1 0 None false 0).

(** The queues of [init_attr] for a queue pair of [pd] in [ctx]: all open, and of
    that context and domain. *)
Definition qp_queues (ctx pd : nat) (i : QPInitAttr) : M B (Z * Z * Z) :=
  scq ← load (qia_send_cq i);
  rcq ← load (qia_recv_cq i);
  cq_ensure scq;;
  cq_ensure rcq;;
  guard_raise (negb (cq_context scq =? ctx)%nat || negb (cq_context rcq =? ctx)%nat) ValueError;;
  match qia_srq i with
  | None => mret (cq_cq scq, cq_cq rcq, 0)
  | Some r =>
      srq ← load r;
      srq_ensure srq;;
      guard_raise (negb (srq_pd srq =? pd)%nat) ValueError;;
      mret (cq_cq scq, cq_cq rcq, srq_srq srq)
  end.

Definition create_qp (self : nat) (i : QPInitAttr) : M B nat :=
  o ← load self;
  pd_ensure o;;
  '((scq, rcq), srq) ← qp_queues (pd_context o) self i;
  a ← lift (fill_qp_init_attr scq rcq srq (qia_qp_type i) i);
  qp ← native (v_create_qp (pd_pd o) a);
  check_null qp;;
  QP_wrap qp self (qia_send_cq i) (qia_recv_cq i) (qia_srq i).

Definition QP_qp_num (self : nat) : M B Z :=
  o ← load self; qp_ensure o;; peek (λ w, v_qp_num w (qp_qp o)).
Definition QP_qp_type (self : nat) : M B Z :=
  o ← load self; qp_ensure o;; peek (λ w, v_qp_type w (qp_qp o)).

(** ** The external data path *)

Definition _QPT_RC : Z := 2.
Definition _QPT_UC : Z := 3.
Definition _QPT_UD : Z := 4.

Definition mlx5_missing (q : mlx5_qp_info) (s r : mlx5_cq_info) : bool :=
  existsb (λ p, p =? 0)
    [q_sq_buf q; q_rq_buf q; q_sq_dbrec q; q_rq_dbrec q; q_uar q;
     c_buf s; c_dbrec s; c_buf r; c_dbrec r].

Definition bridge_dict (qpn : Z) (q : mlx5_qp_info) (s r : mlx5_cq_info) : QueueInfo :=
  mk_QueueInfo qpn (q_sq_buf q) (q_sq_wqe_cnt q) (q_sq_stride q) (q_sq_dbrec q) (q_uar q)
    (q_uar_size q)
    (c_cqn s) (c_buf s) (c_cqe_cnt s) (c_cqe_size s) (c_dbrec s)
    qpn (q_rq_buf q) (q_rq_wqe_cnt q) (q_rq_stride q) (q_rq_dbrec q)
    (c_cqn r) (c_buf r) (c_cqe_cnt r) (c_cqe_size r) (c_dbrec r).

Definition set_external_cq (b : bool) (r : nat) : M B unit :=
  update r (λ q, set_cq_external b (cq_external_users q) q).

Definition _mlx5dv_bridge_info (self : nat) : M B QueueInfo :=
  o ← load self;
  qp_ensure o;;
  guard_raise (qp_external_datapath o) (VerbsError EBUSY);;
  ty ← peek (λ w, v_qp_type w (qp_qp o));
  guard_raise (negb (ty =? _QPT_RC)) ValueError;;
  guard_raise (bool_decide (is_Some (qp_srq o))) ValueError;;
  scq ← load (qp_send_cq o);
  rcq ← load (qp_recv_cq o);
  guard_raise (cq_external_datapath scq || cq_external_datapath rcq) (VerbsError EBUSY);;
  _load_mlx5dv_init_obj;;
  '(rc, qi) ← native (mlx5_qp_info_of (qp_qp o));
  check_rc rc;;
  '(rc, sci) ← native (mlx5_cq_info_of (cq_cq scq));
  check_rc rc;;
  rci ← (if (qp_recv_cq o =? qp_send_cq o)%nat then mret sci else
         '(rc, rci) ← native (mlx5_cq_info_of (cq_cq rcq));
         check_rc rc;;
         mret rci);
  guard_raise ((0xFFFF <? q_sq_wqe_cnt qi) || (0xFFFF <? q_rq_wqe_cnt qi)) ValueError;;
  guard_raise (mlx5_missing qi sci rci) (VerbsError EIO);;
  update self (λ q, set_qp_external true (qp_external_users q) q);;
  set_external_cq true (qp_send_cq o);;
  set_external_cq true (qp_recv_cq o);;
  qpn ← peek (λ w, v_qp_num w (qp_qp o));
  mret (bridge_dict qpn qi sci rci).

(** [cq._external_users += n] *)
Definition add_cq_users (n : Z) (r : nat) : M B unit :=
  update r (λ q, set_cq_external (cq_external_datapath q) (cq_external_users q + n) q).
Definition add_users (n : Z) (self : nat) : M B unit :=
  o ← load self;
  store self (set_qp_external (qp_external_datapath o) (qp_external_users o + n) o);;
  add_cq_users n (qp_send_cq o);;
  (if negb (qp_recv_cq o =? qp_send_cq o)%nat then add_cq_users n (qp_recv_cq o) else mret tt).

Definition _acquire_external_datapath (self : nat) : M B unit :=
  o ← load self;
  qp_ensure o;;
  guard_raise (negb (qp_external_datapath o)) (VerbsError EIO);;
  add_users 1 self.

Definition _release_external_datapath (self : nat) : M B unit :=
  o ← load self;
  guard_raise (qp_external_users o <=? 0) RuntimeError;;
  add_users (-1) self.

(** ** States and attributes *)

Definition _QP_STATE : Z := Z.shiftl 1 0.
Definition _QP_ACCESS_FLAGS : Z := Z.shiftl 1 3.
Definition _QP_PKEY_INDEX : Z := Z.shiftl 1 4.
Definition _QP_PORT : Z := Z.shiftl 1 5.
Definition _QP_QKEY : Z := Z.shiftl 1 6.
Definition _QP_AV : Z := Z.shiftl 1 7.
Definition _QP_PATH_MTU : Z := Z.shiftl 1 8.
Definition _QP_TIMEOUT : Z := Z.shiftl 1 9.
Definition _QP_RETRY_CNT : Z := Z.shiftl 1 10.
Definition _QP_RNR_RETRY : Z := Z.shiftl 1 11.
Definition _QP_RQ_PSN : Z := Z.shiftl 1 12.
Definition _QP_MAX_QP_RD_ATOMIC : Z := Z.shiftl 1 13.
Definition _QP_MIN_RNR_TIMER : Z := Z.shiftl 1 15.
Definition _QP_SQ_PSN : Z := Z.shiftl 1 16.
Definition _QP_MAX_DEST_RD_ATOMIC : Z := Z.shiftl 1 17.
Definition _QP_DEST_QPN : Z := Z.shiftl 1 20.
Definition _QPS_INIT : Z := 1.
Definition _QPS_RTR : Z := 2.
Definition _QPS_RTS : Z := 3.

(** [a | b | ...] *)
Definition mask_of (l : list Z) : Z := foldr Z.lor 0 l.

Definition QP_state (self : nat) : M B Z :=
  o ← load self;
  qp_ensure o;;
  '(rc, (a, _)) ← native (v_query_qp (qp_qp o) _QP_STATE);
  check_rc rc;;
  mret (qp_state a).

(** The attributes (the source copies fourteen of them to a dict) and the capacity. *)
Definition QP_query (self : nat) : M B (ibv_qp_attr * ibv_qp_cap) :=
  o ← load self;
  qp_ensure o;;
  '(rc, (a, cap)) ← native (v_query_qp (qp_qp o) 0x1FFFFFF);
  check_rc rc;;
  mret (a, cap).

(** The keywords of [modify]. *)
Inductive qp_field :=
| Fqp_state | Fcur_qp_state | Fpath_mtu | Fqkey | Frq_psn | Fsq_psn | Fdest_qp_num
| Fqp_access_flags | Fpkey_index | Fport_num | Ftimeout | Fretry_cnt | Frnr_retry
| Fmin_rnr_timer | Fmax_rd_atomic | Fmax_dest_rd_atomic.

#[global] Instance qp_field_eq_dec : EqDecision qp_field.
Proof. solve_decision. Defined.

Definition kw (fields : list (qp_field * Z)) (f : qp_field) : option Z :=
  snd <$> find (λ p, bool_decide (p.1 = f)) fields.
(** [if "f" in fields: a.f = fields["f"]] for a field of the type [conv] converts to. *)
Definition field_value (conv : Z → result Z) (fields : list (qp_field * Z)) (f : qp_field) : result Z :=
  match kw fields f with None => Ok 0 | Some v => conv v end.

Definition modify_attr (ah : option AHAttr) (fields : list (qp_field * Z)) : result ibv_qp_attr :=
  st ← field_value to_int fields Fqp_state;
  cur ← field_value to_int fields Fcur_qp_state;
  mtu ← field_value to_int fields Fpath_mtu;
  qk ← field_value (to_uint 32) fields Fqkey;
  rpsn ← field_value (to_uint 32) fields Frq_psn;
  spsn ← field_value (to_uint 32) fields Fsq_psn;
  dest ← field_value (to_uint 32) fields Fdest_qp_num;
  acc ← field_value (to_uint 32) fields Fqp_access_flags;
  pkey ← field_value (to_uint 16) fields Fpkey_index;
  port ← field_value (to_uint 8) fields Fport_num;
  tmo ← field_value (to_uint 8) fields Ftimeout;
  retry ← field_value (to_uint 8) fields Fretry_cnt;
  rnr ← field_value (to_uint 8) fields Frnr_retry;
  timer ← field_value (to_uint 8) fields Fmin_rnr_timer;
  rd ← field_value (to_uint 8) fields Fmax_rd_atomic;
  drd ← field_value (to_uint 8) fields Fmax_dest_rd_atomic;
  Ok (mk_ibv_qp_attr st cur mtu qk rpsn spsn dest acc
        (match ah with None => ah_attr_zero | Some a => _fill_ah_attr a end)
        pkey rd drd timer port tmo retry rnr).

(** [known] is whether every keyword is one of [qp_field]. *)
Definition QP_modify (self : nat) (attr_mask : Z) (ah : option AHAttr) (known : bool)
    (fields : list (qp_field * Z)) : M B unit :=
  attr_mask ← c_int attr_mask;
  o ← load self;
  qp_ensure o;;
  guard_raise (negb known) TypeError;;
  a ← lift (modify_attr ah fields);
  rc ← native (v_modify_qp (qp_qp o) a attr_mask);
  check_rc rc.

(** The attributes and the mask of [to_init]: an [int] argument is cut to the width
    of its field. *)
Definition init_attr (ty port access pkey qk : Z) : ibv_qp_attr * Z :=
  if ty =? _QPT_UD then
    (mk_ibv_qp_attr _QPS_INIT 0 0 (u32 qk) 0 0 0 0 ah_attr_zero (u16 pkey) 0 0 0 (u8 port) 0 0 0,
     mask_of [_QP_STATE; _QP_PKEY_INDEX; _QP_PORT; _QP_QKEY])
  else
    (mk_ibv_qp_attr _QPS_INIT 0 0 0 0 0 0 (u32 access) ah_attr_zero (u16 pkey) 0 0 0 (u8 port) 0 0 0,
     mask_of [_QP_STATE; _QP_PKEY_INDEX; _QP_PORT; _QP_ACCESS_FLAGS]).

Definition to_init (self : nat) (port access pkey qk : Z) : M B unit :=
  port ← c_int port;
  access ← c_int access;
  pkey ← c_int pkey;
  qk ← c_int qk;
  o ← load self;
  qp_ensure o;;
  update self (set_port port);;
  ty ← peek (λ w, v_qp_type w (qp_qp o));
  let am := init_attr ty port access pkey qk in
  rc ← native (v_modify_qp (qp_qp o) am.1 am.2);
  check_rc rc.

(** The attributes of [to_rtr] for a connected queue pair; [port] is the [_port] set
    by [to_init]. *)
Definition rtr_attr (port : Z) (remote : QPInfo) (sgid_index : Z) (mtu : option Z)
    (hop_limit min_rnr_timer max_dest_rd_atomic sl traffic_class : Z) : result (ibv_qp_attr * Z) :=
  path_mtu ← to_int (default (qi_mtu remote) mtu);
  dest ← to_uint 32 (qi_qp_num remote);
  psn ← to_uint 32 (qi_psn remote);
  raise_if (negb (length (qi_gid remote) =? 16)%nat) ValueError;;
  lid ← to_uint 16 (qi_lid remote);
  Ok (mk_ibv_qp_attr _QPS_RTR 0 path_mtu 0 psn 0 dest 0
        (mk_ibv_ah_attr (qi_gid remote) 0 (u8 sgid_index) (u8 hop_limit) (u8 traffic_class)
           lid (u8 sl) 0 0 1 (u8 port))
        0 0 (u8 max_dest_rd_atomic) (u8 min_rnr_timer) 0 0 0 0,
      mask_of [_QP_STATE; _QP_AV; _QP_PATH_MTU; _QP_DEST_QPN; _QP_RQ_PSN;
               _QP_MAX_DEST_RD_ATOMIC; _QP_MIN_RNR_TIMER]).

Definition to_rtr (self : nat) (remote : QPInfo) (sgid_index : Z) (mtu : option Z)
    (hop_limit min_rnr_timer max_dest_rd_atomic sl traffic_class : Z) : M B unit :=
  sgid_index ← c_int sgid_index;
  hop_limit ← c_int hop_limit;
  min_rnr_timer ← c_int min_rnr_timer;
  max_dest_rd_atomic ← c_int max_dest_rd_atomic;
  sl ← c_int sl;
  traffic_class ← c_int traffic_class;
  o ← load self;
  qp_ensure o;;
  ty ← peek (λ w, v_qp_type w (qp_qp o));
  am ← (if ty =? _QPT_UD
        then mret (mk_ibv_qp_attr _QPS_RTR 0 0 0 0 0 0 0 ah_attr_zero 0 0 0 0 0 0 0 0, _QP_STATE)
        else lift (rtr_attr (qp_port o) remote sgid_index mtu hop_limit min_rnr_timer
                     max_dest_rd_atomic sl traffic_class));
  rc ← native (v_modify_qp (qp_qp o) am.1 am.2);
  check_rc rc.

Definition rts_attr (ty psn tmo retry rnr rd : Z) : ibv_qp_attr * Z :=
  if ty =? _QPT_UD then
    (mk_ibv_qp_attr _QPS_RTS 0 0 0 0 (u32 psn) 0 0 ah_attr_zero 0 0 0 0 0 0 0 0,
     mask_of [_QP_STATE; _QP_SQ_PSN])
  else
    (mk_ibv_qp_attr _QPS_RTS 0 0 0 0 (u32 psn) 0 0 ah_attr_zero 0 (u8 rd) 0 0 0 (u8 tmo)
       (u8 retry) (u8 rnr),
     mask_of [_QP_STATE; _QP_TIMEOUT; _QP_RETRY_CNT; _QP_RNR_RETRY; _QP_SQ_PSN;
              _QP_MAX_QP_RD_ATOMIC]).

Definition to_rts (self : nat) (psn tmo retry rnr rd : Z) : M B unit :=
  psn ← c_int psn;
  tmo ← c_int tmo;
  retry ← c_int retry;
  rnr ← c_int rnr;
  rd ← c_int rd;
  o ← load self;
  qp_ensure o;;
  ty ← peek (λ w, v_qp_type w (qp_qp o));
  let am := rts_attr ty psn tmo retry rnr rd in
  rc ← native (v_modify_qp (qp_qp o) am.1 am.2);
  check_rc rc.

(** ** Posting *)

(** The handle of an [AH] object, without a check that it is open. *)
Definition ah_handle (m : gmap nat PyObj) (r : nat) : Z :=
  match m !! r with Some (OAH a) => ah_ah a | _ => 0 end.

Definition _post_send (qp : Z) (wrs : list SendWR) : M B unit :=
  if (length wrs =? 0)%nat then mret tt else
  s ← get;
  let c := send_chain (ah_handle (b_heap s)) wrs in
  rc ← native (v_post_send qp c.1 c.2);
  guard_raise (negb (rc =? 0)) (VerbsError rc).

(** [srq] is 0 for NULL. *)
Definition _post_recv_chain (qp srq : Z) (wrs : list RecvWR) : M B unit :=
  if (length wrs =? 0)%nat then mret tt else
  let c := recv_chain wrs in
  rc ← native (if negb (srq =? 0) then v_post_srq_recv srq c.1 c.2 else v_post_recv qp c.1 c.2);
  guard_raise (negb (rc =? 0)) (VerbsError rc).
Definition _post_recv_qp (qp : Z) (wrs : list RecvWR) : M B unit := _post_recv_chain qp 0 wrs.

Definition post_send (self : nat) (wrs : list SendWR) : M B unit :=
  o ← load self;
  qp_ensure o;;
  guard_raise (qp_external_datapath o) (VerbsError EBUSY);;
  _post_send (qp_qp o) wrs.

Definition post_recv (self : nat) (wrs : list RecvWR) : M B unit :=
  o ← load self;
  qp_ensure o;;
  guard_raise (qp_external_datapath o) (VerbsError EBUSY);;
  _post_recv_qp (qp_qp o) wrs.

Definition QP_close (self : nat) : M B unit :=
  o ← load self;
  if qp_qp o =? 0 then mret tt else
  guard_raise (negb (qp_external_users o =? 0)) (VerbsError EBUSY);;
  (if negb (qp_cm_id o =? 0) then
     native_ (cm_destroy_qp (qp_cm_id o));; update self (set_cm 0 None)
   else rc ← native (v_destroy_qp (qp_qp o)); check_rc rc);;
  update self (set_qp 0).

(** The owner is let go with the object. *)
Definition QP_dealloc (self : nat) : M B unit :=
  o ← load self;
  if qp_qp o =? 0 then mret tt else
  (if negb (qp_cm_id o =? 0) then
     native_ (cm_destroy_qp (qp_cm_id o));; update self (set_cm 0 (qp_cm_owner o))
   else native (v_destroy_qp (qp_qp o));; mret tt);;
  update self (set_qp 0).

(** * Address handles and shared receive queues *)

Definition create_ah (self : nat) (attr : AHAttr) : M B nat :=
  o ← load self;
  pd_ensure o;;
  ah ← native (v_create_ah (pd_pd o) (_fill_ah_attr attr));
  check_null ah;;
  new (mk_AH ah self).

Definition create_srq (self : nat) (max_wr max_sge limit : Z) : M B nat :=
  o ← load self;
  pd_ensure o;;
  max_wr ← c_uint 32 max_wr;
  max_sge ← c_uint 32 max_sge;
  limit ← c_uint 32 limit;
  srq ← native (v_create_srq (pd_pd o) (mk_ibv_srq_attr max_wr max_sge limit));
  check_null srq;;
  new (mk_SRQ srq self).

Definition AH_close (self : nat) : M B unit :=
  o ← load self;
  if ah_ah o =? 0 then mret tt else
  rc ← native (v_destroy_ah (ah_ah o));
  check_rc rc;;
  update self (set_ah 0).

Definition AH_dealloc (self : nat) : M B unit :=
  o ← load self;
  if ah_ah o =? 0 then mret tt else
  native (v_destroy_ah (ah_ah o));;
  update self (set_ah 0).

Definition SRQ_post_recv (self : nat) (wrs : list RecvWR) : M B unit :=
  o ← load self;
  srq_ensure o;;
  _post_recv_chain 0 (srq_srq o) wrs.

Definition SRQ_query (self : nat) : M B ibv_srq_attr :=
  o ← load self;
  srq_ensure o;;
  '(rc, a) ← native (v_query_srq (srq_srq o));
  check_rc rc;;
  mret a.

Definition SRQ_modify (self : nat) (max_wr limit : option Z) : M B unit :=
  o ← load self;
  srq_ensure o;;
  wr ← (match max_wr with None => mret 0 | Some v => c_uint 32 v end);
  lim ← (match limit with None => mret 0 | Some v => c_uint 32 v end);
  let mask := Z.lor (if bool_decide (is_Some max_wr) then 1 else 0)
                    (if bool_decide (is_Some limit) then 2 else 0) in
  rc ← native (v_modify_srq (srq_srq o) (mk_ibv_srq_attr wr 0 lim) mask);
  check_rc rc.

Definition SRQ_close (self : nat) : M B unit :=
  o ← load self;
  if srq_srq o =? 0 then mret tt else
  rc ← native (v_destroy_srq (srq_srq o));
  check_rc rc;;
  update self (set_srq 0).

Definition SRQ_dealloc (self : nat) : M B unit :=
  o ← load self;
  if srq_srq o =? 0 then mret tt else
  native (v_destroy_srq (srq_srq o));;
  update self (set_srq 0).

(** * RDMA-CM endpoints *)

Definition host_ok (s : str) : bool := negb (bool_decide (s = [])) && bool_decide (0 ∉ s).

(** The decimal digits of [str(port)]. *)
Definition port_text (port : Z) : bytes :=
  let d k := 48 + (port `div` k) mod 10 in
  if port <? 10 then [d 1] else if port <? 100 then [d 10; d 1]
  else if port <? 1000 then [d 100; d 10; d 1]
  else if port <? 10000 then [d 1000; d 100; d 10; d 1]
  else [d 10000; d 1000; d 100; d 10; d 1].

Definition RDMA_PS_TCP : Z := 0x0106.
Definition RAI_FAMILY : Z := 0x00000008.

Definition plain_hints : rdma_hints := mk_rdma_hints 0 0 _QPT_RC RDMA_PS_TCP 0 0.

(** The address of [source] and the hints that bind the route to it: its family and
    its address. *)
Definition source_hints (source : option bytes) : M B (Z * rdma_hints) :=
  match source with
  | None => mret (0, plain_hints)
  | Some node =>
      '(rc, src) ← native (cm_getaddrinfo node [48] plain_hints);
      check_rc rc;;
      a ← peek (λ w, cm_answer w src);
      mret (src, mk_rdma_hints RAI_FAMILY (an_family a) _QPT_RC RDMA_PS_TCP (an_dst_len a)
                   (an_dst_addr a))
  end.

(** The endpoint of [node]:[service]; the answer is freed in either case. *)
Definition create_endpoint (node service : bytes) (hints : rdma_hints) : M B Z :=
  '(rc, result) ← native (cm_getaddrinfo node service hints);
  check_rc rc;;
  try_finally
    ('(rc, endpoint) ← native (cm_create_ep result); check_rc rc;; mret endpoint)
    (native_ (cm_freeaddrinfo result)).

(** The endpoint as a [CMID] with its borrowed context; an endpoint without a device
    is destroyed, as the object is when its device's name cannot be decoded. *)
Definition wrap_endpoint (endpoint : Z) (host : str) (port : Z) (source : option str) : M B nat :=
  verbs ← peek (λ w, cm_id_verbs w endpoint);
  if (endpoint =? 0) || (verbs =? 0) then
    (if negb (endpoint =? 0) then native_ (cm_destroy_ep endpoint) else mret tt);;
    raise (VerbsError EIO)
  else
  raw ← peek (λ w, v_device_name w verbs);
  name ← try_except (lift (decode raw)) (λ e, native_ (cm_destroy_ep endpoint);; raise e);
  ctx ← Context_wrap_borrowed verbs name;
  new (mk_CMID endpoint ctx host port source false).

Definition resolve (host : str) (port : Z) (source : option str) : M B nat :=
  guard_raise (negb (host_ok host)) ValueError;;
  guard_raise (match source with Some s => negb (host_ok s) | None => false end) ValueError;;
  guard_raise ((port <=? 0) || (65535 <? port)) ValueError;;
  _load_librdmacm;;
  node ← lift (idna host);
  source_node ← (match source with
                 | None => mret None
                 | Some s => b ← lift (idna s); mret (Some b)
                 end);
  '(src, hints) ← source_hints source_node;
  endpoint ← try_finally (create_endpoint node (port_text port) hints)
               (if negb (src =? 0) then native_ (cm_freeaddrinfo src) else mret tt);
  wrap_endpoint endpoint host port source.

Definition cm_ensure (o : CMID) : M B unit := ensure (cm_id o).

Definition CMID_closed (self : nat) : M B bool := o ← load self; mret (cm_id o =? 0).
Definition connected (self : nat) : M B bool := o ← load self; mret (cm_connected o).

Definition CMID_create_qp (self pd : nat) (i : QPInitAttr) : M B nat :=
  o ← load self;
  p ← load pd;
  cm_ensure o;;
  pd_ensure p;;
  q ← peek (λ w, cm_id_qp w (cm_id o));
  guard_raise (negb (q =? 0)) (VerbsError EBUSY);;
  guard_raise (negb (pd_context p =? cm_context o)%nat) ValueError;;
  '((scq, rcq), srq) ← qp_queues (cm_context o) pd i;
  guard_raise (negb (qia_qp_type i =? _QPT_RC)) ValueError;;
  a ← lift (fill_qp_init_attr scq rcq srq _QPT_RC i);
  rc ← native (cm_create_qp (cm_id o) (pd_pd p) a);
  check_rc rc;;
  h ← peek (λ w, cm_id_qp w (cm_id o));
  r ← QP_wrap h pd (qia_send_cq i) (qia_recv_cq i) (qia_srq i);
  update r (set_cm (cm_id o) (Some self));;
  mret r.

Definition in_byte (v : Z) : bool := (0 <=? v) && (v <=? 255).

Definition connect (self : nat) (data : bytes) (responder initiator retry rnr : Z) : M B bytes :=
  o ← load self;
  cm_ensure o;;
  q ← peek (λ w, cm_id_qp w (cm_id o));
  guard_raise (q =? 0) (VerbsError EBADF);;
  guard_raise (255 <? length data)%nat ValueError;;
  for_each (λ v, guard_raise (negb (in_byte v)) ValueError) [responder; initiator; retry; rnr];;
  rc ← native (cm_connect (cm_id o) (mk_rdma_conn_param data responder initiator 1 retry rnr));
  check_rc rc;;
  update self (set_connected true);;
  reply ← peek (λ w, cm_event_data w (cm_id o));
  mret (default [] reply).

Definition disconnect (self : nat) : M B unit :=
  o ← load self;
  cm_ensure o;;
  if negb (cm_connected o) then mret tt else
  rc ← native (cm_disconnect (cm_id o));
  check_rc rc;;
  update self (set_connected false).

Definition CMID_close (self : nat) : M B unit :=
  o ← load self;
  if cm_id o =? 0 then mret tt else
  q ← peek (λ w, cm_id_qp w (cm_id o));
  guard_raise (negb (q =? 0)) (VerbsError EBUSY);;
  c ← load (cm_context o);
  guard_raise (negb (ctx_children c =? 0)) (VerbsError EBUSY);;
  update (cm_context o) (set_ctx 0);;
  native_ (cm_destroy_ep (cm_id o));;
  update self (set_cm_id 0);;
  update self (set_connected false).

Definition CMID_dealloc (self : nat) : M B unit :=
  o ← load self;
  if cm_id o =? 0 then mret tt else
  q ← peek (λ w, cm_id_qp w (cm_id o));
  (if negb (q =? 0) then native_ (cm_destroy_qp (cm_id o)) else mret tt);;
  update (cm_context o) (set_ctx 0);;
  native_ (cm_destroy_ep (cm_id o));;
  update self (set_cm_id 0).

(** * Garbage collection *)

(** The objects that an object refers to. *)
Definition refs_of (x : PyObj) : list nat :=
  match x with
  | OContext _ | OAsyncEvent _ => []
  | OPD o => [pd_context o]
  | OMR o => mr_pd o :: option_list (mr_owner o)
  | OCompChannel o => [chan_context o]
  | OCQ o => cq_context o :: option_list (cq_channel o)
  | OQP o => [qp_pd o; qp_send_cq o; qp_recv_cq o] ++ option_list (qp_srq o) ++
             option_list (qp_cm_owner o)
  | OAH o => [ah_pd o]
  | OSRQ o => [srq_pd o]
  | OCMID o => [cm_context o]
  end.

Definition referenced (m : gmap nat PyObj) (r : nat) : bool :=
  existsb (λ p, existsb (Nat.eqb r) (refs_of p.2)) (map_to_list m).

Definition dealloc_body (r : nat) (x : PyObj) : M B unit :=
  match x with
  | OContext _ => Context_dealloc r
  | OPD _ => PD_dealloc r
  | OMR _ => MR_dealloc r
  | OCompChannel _ => CompChannel_dealloc r
  | OCQ _ => CQ_dealloc r
  | OQP _ => QP_dealloc r
  | OAH _ => AH_dealloc r
  | OSRQ _ => SRQ_dealloc r
  | OCMID _ => CMID_dealloc r
  | OAsyncEvent _ => mret tt
  end.

(** The program dropped its last reference to [r]: when no other object refers to it,
    its [__dealloc__] runs and the object is gone. *)
Definition collect (r : nat) : M B unit :=
  s ← get;
  match b_heap s !! r with
  | Some x =>
      if referenced (b_heap s) r then mret tt else
      dealloc_body r x;;
      modify (λ s, set_heap (delete r (b_heap s)) s)
  | None => mret tt
  end.

End Binding.
