(* ===== verification/VerbsSafety.v ===== *)
(** Memory safety of the verbs binding: the objects of VerbsObjects own the native
    objects they name.

    [Core] relates the heap of the Python objects, through what matters of each
    ([Shape]), to the objects alive in the library: an open object's handle is alive
    and was created from its parents' handles, no two objects own one native object,
    and every native object has its owner.  The lemmas of the first part are the ways
    in which a method changes the heap and the library together; [Inv] adds the count
    of a context's children. *)

From S2P Require Import Prelude Bytes Json.
From S2P Require Import Helpers.
From S2P Require Import VerbsLib VerbsValues VerbsPost.
From S2P Require Import VerbsObjects.
#[local] Open Scope Z_scope.

(** * Shapes *)

Inductive KCls := LContext | LPD | LMR | LChannel | LCQ | LQP | LAH | LSRQ | LCmId | LOther.

#[global] Instance KCls_eq_dec : EqDecision KCls.
Proof. solve_decision. Defined.

Definition kcls (k : NKind) : KCls :=
  match k with
  | KContext | KCmContext => LContext
  | KPD => LPD | KMR => LMR | KChannel => LChannel | KCQ _ _ => LCQ | KQP _ => LQP
  | KAH => LAH | KSRQ => LSRQ | KCmId => LCmId | KAddrInfo => LOther
  end.

(** An object's handle, the kind of native object it is for, and the objects it was
    created from. *)
Record Shape := mk_Shape {
  sh_kind : NKind; sh_handle : Z; sh_parents : list (KCls * nat);
}.

Definition sh_of (x : PyObj) : Shape :=
  match x with
  | OContext o => mk_Shape (if ctx_owned o then KContext else KCmContext) (ctx_ctx o) []
  | OPD o => mk_Shape KPD (pd_pd o) [(LContext, pd_context o)]
  | OMR o => mk_Shape KMR (mr_mr o) [(LPD, mr_pd o)]
  | OCompChannel o => mk_Shape KChannel (chan_chan o) [(LContext, chan_context o)]
  | OCQ o => mk_Shape (KCQ 0 (cq_unacked o)) (cq_cq o)
               ((LContext, cq_context o) :: (pair LChannel <$> option_list (cq_channel o)))
  | OQP o => mk_Shape (KQP (qp_cm_id o)) (qp_qp o)
               ([(LPD, qp_pd o); (LCQ, qp_send_cq o); (LCQ, qp_recv_cq o)] ++
                (pair LSRQ <$> option_list (qp_srq o)) ++
                (pair LCmId <$> option_list (qp_cm_owner o)))
  | OAH o => mk_Shape KAH (ah_ah o) [(LPD, ah_pd o)]
  | OSRQ o => mk_Shape KSRQ (srq_srq o) [(LPD, srq_pd o)]
  | OCMID o => mk_Shape KCmId (cm_id o) [(LContext, cm_context o)]
  | OAsyncEvent _ => mk_Shape KAddrInfo 0 []
  end.

(** The handle at a reference. *)
Definition hd (σ : gmap nat Shape) (r : nat) : Z :=
  match σ !! r with Some X => sh_handle X | None => 0 end.

(** A native completion queue names its Python object. *)
Definition native_kind (r : nat) (k : NKind) : NKind :=
  match k with KCQ _ ev => KCQ r ev | k => k end.

(** The native object that the object at [r] stands for. *)
Definition denote (σ : gmap nat Shape) (r : nat) (S : Shape) : NObj :=
  mkN (native_kind r (sh_kind S)) ((λ p, hd σ p.2) <$> sh_parents S).

Lemma native_kind_cls r k : kcls (native_kind r k) = kcls k.
Proof. by destruct k. Qed.
Lemma native_kind_context r k : is_context (native_kind r k) = is_context k.
Proof. by destruct k. Qed.

Section Safety.
Context {W : Type} `{!Libibverbs W} `{!LibibverbsLaws W}.
Implicit Types (σ : gmap nat Shape) (w : W).

Definition parent_of σ (p r : nat) : Prop :=
  ∃ S k, σ !! r = Some S ∧ (k, p) ∈ sh_parents S.
(** Nothing open was created from [p]. *)
Definition childless σ (p : nat) : Prop :=
  ∀ r S k, σ !! r = Some S → sh_handle S ≠ 0 → (k, p) ∉ sh_parents S.

(** [p] is an open object of class [k]. *)
Definition open_at σ (k : KCls) (p : nat) : Prop :=
  ∃ P, σ !! p = Some P ∧ kcls (sh_kind P) = k ∧ sh_handle P ≠ 0.

(** The endpoint of a queue pair is its last parent, and holds the address kept in
    the queue pair. *)
Definition cm_parent σ (S : Shape) : Prop :=
  ∀ cm, sh_kind S = KQP cm →
    if cm =? 0 then ∀ i, (LCmId, i) ∉ sh_parents S
    else ∃ i, (LCmId, i) ∈ sh_parents S ∧ hd σ i = cm.

Record Core σ w : Prop := {
  core_intact : intact w;
  core_live r S :
    σ !! r = Some S → sh_handle S ≠ 0 → live w !! sh_handle S = Some (denote σ r S);
  core_parent r S k p :
    σ !! r = Some S → (k, p) ∈ sh_parents S →
    ∃ P, σ !! p = Some P ∧ kcls (sh_kind P) = k ∧ (sh_handle S ≠ 0 → sh_handle P ≠ 0);
  core_inj r1 r2 S1 S2 :
    σ !! r1 = Some S1 → σ !! r2 = Some S2 → sh_handle S1 = sh_handle S2 →
    sh_handle S1 ≠ 0 → sh_kind S1 ≠ KCmContext → r1 = r2;
  core_own h n :
    live w !! h = Some n → is_context (n_kind n) = false →
    ∃ r S, σ !! r = Some S ∧ sh_handle S = h;
  core_deps h n : live w !! h = Some n → is_context (n_kind n) = true → n_deps n = [];
  core_borrow r S :
    σ !! r = Some S → sh_kind S = KCmContext → sh_handle S ≠ 0 →
    ∃ i I, σ !! i = Some I ∧ sh_kind I = KCmId ∧ sh_handle I ≠ 0 ∧
      sh_parents I = [(LContext, r)];
  core_cmid i I :
    σ !! i = Some I → sh_kind I = KCmId →
    ∃ c C, sh_parents I = [(LContext, c)] ∧ σ !! c = Some C ∧ sh_kind C = KCmContext;
  core_cmid_inj i1 i2 I1 I2 :
    σ !! i1 = Some I1 → σ !! i2 = Some I2 → sh_kind I1 = KCmId → sh_kind I2 = KCmId →
    sh_parents I1 = sh_parents I2 → i1 = i2;
  core_qp r S : σ !! r = Some S → sh_handle S ≠ 0 → cm_parent σ S;
}.

(** * What [Core] gives *)

Section Use.
Context {σ w} (C : Core σ w).

Lemma core_alive r S (P : NKind → bool) :
  σ !! r = Some S → sh_handle S ≠ 0 → P (native_kind r (sh_kind S)) = true →
  alive (live w) P (sh_handle S).
Proof using C. intros HS Hh HP. eexists. split; [by apply (core_live _ _ C)|done]. Qed.

Lemma hd_lookup r S : σ !! r = Some S → hd σ r = sh_handle S.
Proof. unfold hd. by intros ->. Qed.

(** A handle no native object was created from has no open child. *)
Lemma unused_childless r S :
  σ !! r = Some S → ¬ used (live w) (sh_handle S) → childless σ r.
Proof using C.
  intros HS Hu r2 S2 k HS2 Hh Hin. apply Hu. exists (sh_handle S2), (denote σ r2 S2).
  split; [by apply (core_live _ _ C)|]. cbn. apply list_elem_of_fmap. exists (k, r).
  split; [|done]. cbn. by rewrite (hd_lookup _ _ HS).
Qed.

(** The owner of a native object. *)
Lemma core_owner h n :
  live w !! h = Some n → is_context (n_kind n) = false →
  ∃ r S, σ !! r = Some S ∧ sh_handle S = h ∧ h ≠ 0 ∧ n = denote σ r S.
Proof using C.
  intros Hn Hk. destruct (core_own _ _ C _ _ Hn Hk) as (r & S & HS & Hh).
  assert (h ≠ 0) as H0.
  { intros ->. pose proof (null_dead w (core_intact _ _ C)). congruence. }
  exists r, S. split_and!; [done|done|done|]. subst h.
  pose proof (core_live _ _ C _ _ HS H0). congruence.
Qed.

(** A childless object that is no context is not used. *)
Lemma childless_unused r S :
  σ !! r = Some S → sh_handle S ≠ 0 → sh_kind S ≠ KCmContext → childless σ r →
  ¬ used (live w) (sh_handle S).
Proof using C.
  intros HS Hh Hk Hc (h & n & Hn & Hin).
  destruct (is_context (n_kind n)) eqn:Ek.
  { rewrite (core_deps _ _ C _ _ Hn Ek) in Hin. by apply not_elem_of_nil in Hin. }
  destruct (core_owner _ _ Hn Ek) as (r2 & S2 & HS2 & Hh2 & H0 & ->).
  cbn in Hin. apply list_elem_of_fmap in Hin as ([k p] & Hp & Hin). cbn in Hp.
  destruct (core_parent _ _ C _ _ _ _ HS2 Hin) as (P & HP & _ & _).
  rewrite (hd_lookup _ _ HP) in Hp.
  assert (r = p) as -> by (by apply (core_inj _ _ C r p S P)).
  by apply (Hc _ _ _ HS2 ltac:(by rewrite Hh2) Hin).
Qed.
End Use.

(** * The changes of the heap and the library *)

(** A call that changes no object. *)
Lemma core_keeps σ w w' : keeps live intact w w' → Core σ w → Core σ w'.
Proof.
  intros [Hi Hl] C. destruct C. constructor; try done.
  - intros r S HS Hh. rewrite Hl. by apply core_live0.
  - intros h n. rewrite Hl. apply core_own0.
  - intros h n. rewrite Hl. apply core_deps0.
Qed.

(** The denotation of an object whose parents keep their handles. *)
Lemma denote_ext σ σ' r S :
  (∀ k p, (k, p) ∈ sh_parents S → hd σ' p = hd σ p) → denote σ' r S = denote σ r S.
Proof.
  intros H. unfold denote. f_equal. apply list_fmap_ext.
  intros i [k p] Hp. cbn. apply (H k). by apply list_elem_of_lookup_2 in Hp.
Qed.

Lemma hd_insert_ne σ r S p : p ≠ r → hd (<[r := S]> σ) p = hd σ p.
Proof. intros H. unfold hd. by rewrite lookup_insert_ne. Qed.
Lemma hd_insert σ r S : hd (<[r := S]> σ) r = sh_handle S.
Proof. unfold hd. by rewrite lookup_insert_eq. Qed.

Lemma cm_parent_ext σ σ' S :
  (∀ k p, (k, p) ∈ sh_parents S → hd σ' p = hd σ p) → cm_parent σ S → cm_parent σ' S.
Proof.
  intros H Hc cm Hk. specialize (Hc cm Hk). destruct (cm =? 0); [done|].
  destruct Hc as (i & Hi & <-). exists i. split; [done|by eapply H].
Qed.

(** Parents exist, so changing an object that does not exist, or whose handle stays,
    moves no denotation. *)
Lemma parent_some σ w r S k p :
  Core σ w → σ !! r = Some S → (k, p) ∈ sh_parents S → is_Some (σ !! p).
Proof. intros C HS Hp. destruct (core_parent _ _ C _ _ _ _ HS Hp) as (P & -> & _). done. Qed.

Lemma open_alive σ w r S : Core σ w → σ !! r = Some S → sh_handle S ≠ 0 →
  is_Some (live w !! sh_handle S).
Proof. intros C HS Hh. rewrite (core_live _ _ C _ _ HS Hh). done. Qed.

(** A new object for a new native object. *)
Lemma core_new σ w w' r S :
  Core σ w → σ !! r = None → sh_handle S ≠ 0 → sh_kind S ≠ KCmContext → sh_kind S ≠ KCmId →
  (∀ k p, (k, p) ∈ sh_parents S → open_at σ k p) → cm_parent σ S →
  (is_context (sh_kind S) = true → sh_parents S = []) →
  intact w' → live w !! sh_handle S = None →
  live w' = <[sh_handle S := denote σ r S]> (live w) →
  Core (<[r := S]> σ) w'.
Proof.
  intros C Hr Hh Hk1 Hk2 Hps Hcm Hctx Hi Hfree Hl.
  assert (Hhd : ∀ r2 S2 k p, σ !! r2 = Some S2 → (k, p) ∈ sh_parents S2 →
                 hd (<[r := S]> σ) p = hd σ p).
  { intros r2 S2 k p HS2 Hp. apply hd_insert_ne. intros ->.
    destruct (parent_some _ _ _ _ _ _ C HS2 Hp). congruence. }
  assert (HhdS : ∀ k p, (k, p) ∈ sh_parents S → hd (<[r := S]> σ) p = hd σ p).
  { intros k p (P & HP & _)%Hps. apply hd_insert_ne. congruence. }
  assert (Hne : ∀ r2 S2, σ !! r2 = Some S2 → sh_handle S2 ≠ 0 → sh_handle S ≠ sh_handle S2).
  { intros r2 S2 HS2 H2 He. destruct (open_alive _ _ _ _ C HS2 H2). congruence. }
  constructor.
  - done.
  - intros r2 S2 HS2 H2. apply lookup_insert_Some in HS2 as [[<- <-]|[? HS2]].
    + rewrite Hl, lookup_insert_eq. f_equal. symmetry. by apply denote_ext.
    + rewrite Hl, lookup_insert_ne by by eapply Hne.
      rewrite (core_live _ _ C _ _ HS2 H2). f_equal. symmetry. apply denote_ext. intros k p.
      by apply (Hhd r2).
  - intros r2 S2 k p HS2 Hp. apply lookup_insert_Some in HS2 as [[<- <-]|[? HS2]].
    + destruct (Hps _ _ Hp) as (P & HP & Hk & HhP). exists P. split_and!; [|done|done].
      rewrite lookup_insert_ne; [done|congruence].
    + destruct (core_parent _ _ C _ _ _ _ HS2 Hp) as (P & HP & HP2). exists P.
      rewrite lookup_insert_ne; [done|congruence].
  - intros r1 r2 S1 S2 H1 H2 He H0 Hk.
    apply lookup_insert_Some in H1 as [[<- <-]|[? H1]];
      apply lookup_insert_Some in H2 as [[<- <-]|[? H2]]; [done| | |].
    + destruct (Hne _ _ H2); [congruence|done].
    + destruct (Hne _ _ H1); [done|congruence].
    + by apply (core_inj _ _ C r1 r2 S1 S2).
  - intros h n Hn Hk. rewrite Hl in Hn. apply lookup_insert_Some in Hn as [[<- <-]|[Hh2 Hn]].
    + exists r, S. by rewrite lookup_insert_eq.
    + destruct (core_own _ _ C _ _ Hn Hk) as (r2 & S2 & HS2 & <-). exists r2, S2.
      rewrite lookup_insert_ne; [done|congruence].
  - intros h n Hn Hk. rewrite Hl in Hn. apply lookup_insert_Some in Hn as [[<- <-]|[Hh2 Hn]].
    + cbn in *. rewrite native_kind_context in Hk. by rewrite (Hctx Hk).
    + by apply (core_deps _ _ C h).
  - intros r2 S2 HS2 Hk H2. apply lookup_insert_Some in HS2 as [[<- <-]|[? HS2]]; [done|].
    destruct (core_borrow _ _ C _ _ HS2 Hk H2) as (i & I & HI & HI2). exists i, I.
    rewrite lookup_insert_ne; [done|congruence].
  - intros i I HI Hk. apply lookup_insert_Some in HI as [[<- <-]|[? HI]]; [done|].
    destruct (core_cmid _ _ C _ _ HI Hk) as (c & X & Hc & HX & HkX). exists c, X.
    rewrite lookup_insert_ne; [done|congruence].
  - intros i1 i2 I1 I2 H1 H2 K1 K2.
    apply lookup_insert_Some in H1 as [[<- <-]|[? H1]]; [done|].
    apply lookup_insert_Some in H2 as [[<- <-]|[? H2]]; [done|].
    by apply (core_cmid_inj _ _ C i1 i2 I1 I2).
  - intros r2 S2 HS2 H2. apply lookup_insert_Some in HS2 as [[<- <-]|[? HS2]].
    + eapply cm_parent_ext; [|done]. done.
    + eapply cm_parent_ext; [|by apply (core_qp _ _ C r2)]. intros k p. by apply (Hhd r2).
Qed.

(** An object changes without changing its handle, its class or what it was created
    from: its native object has changed with it. *)
Lemma core_change σ w w' r S S' :
  Core σ w → σ !! r = Some S → sh_handle S ≠ 0 → is_cq (sh_kind S) = true →
  is_cq (sh_kind S') = true → sh_handle S' = sh_handle S → sh_parents S' = sh_parents S →
  intact w' → live w' = <[sh_handle S := denote σ r S']> (live w) →
  Core (<[r := S']> σ) w'.
Proof.
  intros C Hr Hh Hk Hk' Hsame Hps Hi Hl.
  assert (Hhd : ∀ p, hd (<[r := S']> σ) p = hd σ p).
  { intros p. destruct (decide (p = r)) as [->|]; [|by apply hd_insert_ne].
    by rewrite hd_insert, (hd_lookup _ _ Hr). }
  assert (Hcls : kcls (sh_kind S') = kcls (sh_kind S)) by (by destruct (sh_kind S), (sh_kind S')).
  assert (Hback : ∀ p P', <[r := S']> σ !! p = Some P' → ∃ P, σ !! p = Some P ∧
            sh_handle P' = sh_handle P ∧ sh_parents P' = sh_parents P ∧
            kcls (sh_kind P') = kcls (sh_kind P) ∧ (p ≠ r → P' = P)).
  { intros p P' HP. apply lookup_insert_Some in HP as [[<- <-]|[? HP]]; [by exists S|].
    by exists P'. }
  assert (Hfwd : ∀ p P, σ !! p = Some P → ∃ P', <[r := S']> σ !! p = Some P' ∧
            sh_handle P' = sh_handle P ∧ sh_parents P' = sh_parents P ∧
            kcls (sh_kind P') = kcls (sh_kind P) ∧ (p ≠ r → P' = P)).
  { intros p P HP. destruct (decide (p = r)) as [->|].
    - exists S'. rewrite lookup_insert_eq. by simplify_eq.
    - exists P. by rewrite lookup_insert_ne. }
  assert (Hkind : ∀ p P', <[r := S']> σ !! p = Some P' → is_cq (sh_kind P') = false →
            σ !! p = Some P').
  { intros p P' HP HkP. apply lookup_insert_Some in HP as [[<- <-]|[? HP]]; [congruence|done]. }
  constructor.
  - done.
  - intros r2 S2 HS2 H2. rewrite (denote_ext σ) by done. rewrite Hl.
    apply lookup_insert_Some in HS2 as [[<- <-]|[? HS2]].
    + by rewrite Hsame, lookup_insert_eq.
    + rewrite lookup_insert_ne; [by apply (core_live _ _ C)|]. intros He.
      destruct (core_inj _ _ C r r2 S S2); try done. by destruct (sh_kind S).
  - intros r2 S2 k p HS2 Hp. destruct (Hback _ _ HS2) as (S0 & H0 & Hh0 & Hp0 & _ & _).
    rewrite Hp0 in Hp. destruct (core_parent _ _ C _ _ _ _ H0 Hp) as (P & HP & HkP & HoP).
    destruct (Hfwd _ _ HP) as (P' & HP' & Hh' & _ & Hc' & _). exists P'.
    rewrite Hh', Hc', Hh0. done.
  - intros r1 r2 S1 S2 H1 H2 He H0 Hk1.
    destruct (Hback _ _ H1) as (T1 & HT1 & E1 & _ & _ & N1).
    destruct (Hback _ _ H2) as (T2 & HT2 & E2 & _ & _ & N2).
    apply (core_inj _ _ C r1 r2 T1 T2); try congruence.
    destruct (decide (r1 = r)) as [->|Hne]; [|by rewrite <-(N1 Hne)].
    assert (T1 = S) as -> by congruence. by destruct (sh_kind S).
  - intros h n Hn Hkn. rewrite Hl in Hn. apply lookup_insert_Some in Hn as [[<- <-]|[Hh2 Hn]].
    + exists r, S'. by rewrite lookup_insert_eq.
    + destruct (core_own _ _ C _ _ Hn Hkn) as (r2 & S2 & HS2 & <-).
      destruct (Hfwd _ _ HS2) as (P' & HP' & Hh' & _). by exists r2, P'.
  - intros h n Hn Hkn. rewrite Hl in Hn. apply lookup_insert_Some in Hn as [[<- <-]|[Hh2 Hn]].
    + cbn in Hkn. rewrite native_kind_context in Hkn. by destruct (sh_kind S').
    + by apply (core_deps _ _ C h).
  - intros r2 S2 HS2 HkS H2. apply Hkind in HS2; [|by rewrite HkS].
    destruct (core_borrow _ _ C _ _ HS2 HkS H2) as (i & I & HI & HkI & HI2). exists i, I.
    rewrite lookup_insert_ne; [done|]. intros ->. simplify_eq. by rewrite HkI in Hk.
  - intros i I HI HkI. apply Hkind in HI; [|by rewrite HkI].
    destruct (core_cmid _ _ C _ _ HI HkI) as (c & X & Hc & HX & HkX). exists c, X.
    rewrite lookup_insert_ne; [done|]. intros ->. simplify_eq. by rewrite HkX in Hk.
  - intros i1 i2 I1 I2 H1 H2 K1 K2. apply Hkind in H1; [|by rewrite K1].
    apply Hkind in H2; [|by rewrite K2]. by apply (core_cmid_inj _ _ C i1 i2 I1 I2).
  - intros r2 S2 HS2 H2. destruct (is_cq (sh_kind S2)) eqn:Ek.
    { intros cm Hcm. by rewrite Hcm in Ek. }
    apply Hkind in HS2; [|done]. eapply cm_parent_ext; [|by apply (core_qp _ _ C r2)]. done.
Qed.

(** An object is closed: its native object is gone, and nothing open was created
    from it. *)
Lemma core_close σ w w' r S S' :
  Core σ w → σ !! r = Some S → sh_handle S ≠ 0 →
  sh_kind S ≠ KCmContext → sh_kind S ≠ KCmId → sh_kind S' ≠ KCmContext → sh_kind S' ≠ KCmId →
  kcls (sh_kind S') = kcls (sh_kind S) → sh_handle S' = 0 →
  (∀ k p, (k, p) ∈ sh_parents S' → (k, p) ∈ sh_parents S) → childless σ r →
  intact w' →
  live w' = delete (sh_handle S) (live w) ∨ (is_context (sh_kind S) = true ∧ live w' = live w) →
  Core (<[r := S']> σ) w'.
Proof.
  intros C Hr Hh Hk1 Hk2 Hk1' Hk2' Hcls H0 Hps Hch Hi Hl.
  assert (Hold : ∀ p P, <[r := S']> σ !! p = Some P → sh_handle P ≠ 0 → p ≠ r ∧ σ !! p = Some P).
  { intros p P HP HhP. apply lookup_insert_Some in HP as [[<- <-]|[? HP]]; done. }
  assert (Hhd : ∀ r2 S2 k p, σ !! r2 = Some S2 → sh_handle S2 ≠ 0 → (k, p) ∈ sh_parents S2 →
            hd (<[r := S']> σ) p = hd σ p).
  { intros r2 S2 k p HS2 H2 Hp. apply hd_insert_ne. intros ->. by apply (Hch r2 S2 k). }
  assert (Hlive : ∀ r2 S2, σ !! r2 = Some S2 → sh_handle S2 ≠ 0 → r2 ≠ r →
            live w' !! sh_handle S2 = live w !! sh_handle S2).
  { intros r2 S2 HS2 H2 Hne. destruct Hl as [->|[_ ->]]; [|done].
    rewrite lookup_delete_ne; [done|]. intros He.
    by destruct Hne; symmetry; apply (core_inj _ _ C r r2 S S2). }
  assert (Hsub : ∀ h n, live w' !! h = Some n → live w !! h = Some n).
  { intros h n. destruct Hl as [->|[_ ->]]; [by intros [_ ?]%lookup_delete_Some|done]. }
  constructor.
  - done.
  - intros r2 S2 HS2 H2. destruct (Hold _ _ HS2 H2) as [Hne HS2'].
    rewrite (Hlive r2), (core_live _ _ C _ _ HS2' H2) by done. f_equal. symmetry.
    apply denote_ext. intros k p. by apply (Hhd r2).
  - intros r2 S2 k p HS2 Hp. apply lookup_insert_Some in HS2 as [[<- <-]|[? HS2]].
    + destruct (core_parent _ _ C _ _ _ _ Hr (Hps _ _ Hp)) as (P & HP & HkP & _).
      destruct (decide (p = r)) as [->|].
      * exists S'. rewrite lookup_insert_eq. split_and!; [done|congruence|done].
      * exists P. by rewrite lookup_insert_ne.
    + destruct (core_parent _ _ C _ _ _ _ HS2 Hp) as (P & HP & HkP & HoP).
      destruct (decide (p = r)) as [->|].
      * exists S'. rewrite lookup_insert_eq. split_and!; [done|congruence|].
        intros H2. by destruct (Hch _ _ _ HS2 H2 Hp).
      * exists P. by rewrite lookup_insert_ne.
  - intros r1 r2 S1 S2 H1 H2 He Hz Hk.
    destruct (Hold _ _ H1 Hz) as [_ H1']. destruct (Hold _ _ H2 ltac:(congruence)) as [_ H2'].
    by apply (core_inj _ _ C r1 r2 S1 S2).
  - intros h n Hn Hkn. destruct (core_own _ _ C _ _ (Hsub _ _ Hn) Hkn) as (r2 & S2 & HS2 & <-).
    exists r2, S2. rewrite lookup_insert_ne; [done|]. intros ->. assert (S2 = S) as -> by congruence.
    destruct Hl as [Hl|[Hctx Hl]]; rewrite Hl in Hn; [by rewrite lookup_delete_eq in Hn|].
    rewrite (core_live _ _ C _ _ HS2 Hh) in Hn. injection Hn as <-.
    cbn in Hkn. rewrite native_kind_context in Hkn. congruence.
  - intros h n Hn%Hsub. by apply (core_deps _ _ C h).
  - intros r2 S2 HS2 HkS H2. destruct (Hold _ _ HS2 H2) as [_ HS2'].
    destruct (core_borrow _ _ C _ _ HS2' HkS H2) as (i & I & HI & HkI & HI2). exists i, I.
    rewrite lookup_insert_ne; [done|]. intros ->. simplify_eq.
  - intros i I HI HkI. apply lookup_insert_Some in HI as [[<- <-]|[? HI]]; [done|].
    destruct (core_cmid _ _ C _ _ HI HkI) as (c & X & Hc & HX & HkX). exists c, X.
    rewrite lookup_insert_ne; [done|]. intros ->. congruence.
  - intros i1 i2 I1 I2 H1 H2 K1 K2.
    apply lookup_insert_Some in H1 as [[<- <-]|[? H1]]; [done|].
    apply lookup_insert_Some in H2 as [[<- <-]|[? H2]]; [done|].
    by apply (core_cmid_inj _ _ C i1 i2 I1 I2).
  - intros r2 S2 HS2 H2. destruct (Hold _ _ HS2 H2) as [_ HS2'].
    eapply cm_parent_ext; [|by apply (core_qp _ _ C r2)]. intros k p. by apply (Hhd r2).
Qed.

(** A closed object that none refers to leaves the heap. *)
Lemma core_delete σ w r S :
  Core σ w → σ !! r = Some S → sh_handle S = 0 →
  (∀ r2 S2 k, r2 ≠ r → σ !! r2 = Some S2 → (k, r) ∉ sh_parents S2) →
  Core (delete r σ) w.
Proof.
  intros C Hr H0 Hun.
  assert (Hold : ∀ p P, delete r σ !! p = Some P → p ≠ r ∧ σ !! p = Some P).
  { intros p P [? HP]%lookup_delete_Some. done. }
  assert (Hhd : ∀ r2 S2 k p, r2 ≠ r → σ !! r2 = Some S2 → (k, p) ∈ sh_parents S2 →
            hd (delete r σ) p = hd σ p).
  { intros r2 S2 k p Hne HS2 Hp. unfold hd. rewrite lookup_delete_ne; [done|]. intros ->.
    by apply (Hun r2 S2 k). }
  constructor.
  - by apply (core_intact _ _ C).
  - intros r2 S2 HS2 H2. destruct (Hold _ _ HS2) as [Hne HS2'].
    rewrite (core_live _ _ C _ _ HS2' H2). f_equal. symmetry. apply denote_ext.
    intros k p. by apply (Hhd r2).
  - intros r2 S2 k p HS2 Hp. destruct (Hold _ _ HS2) as [Hne HS2'].
    destruct (core_parent _ _ C _ _ _ _ HS2' Hp) as (P & HP & HP2). exists P.
    rewrite lookup_delete_ne; [done|]. intros ->. by apply (Hun r2 S2 k).
  - intros r1 r2 S1 S2 H1 H2. destruct (Hold _ _ H1) as [_ H1']. destruct (Hold _ _ H2) as [_ H2'].
    by apply (core_inj _ _ C).
  - intros h n Hn Hkn. destruct (core_owner C _ _ Hn Hkn) as (r2 & S2 & HS2 & Hh & Hz & _).
    exists r2, S2. rewrite lookup_delete_ne; [done|]. intros ->. congruence.
  - apply (core_deps _ _ C).
  - intros r2 S2 HS2 HkS H2. destruct (Hold _ _ HS2) as [_ HS2'].
    destruct (core_borrow _ _ C _ _ HS2' HkS H2) as (i & I & HI & HkI & HhI & HI2). exists i, I.
    rewrite lookup_delete_ne; [done|]. intros ->. congruence.
  - intros i I HI HkI. destruct (Hold _ _ HI) as [Hne HI'].
    destruct (core_cmid _ _ C _ _ HI' HkI) as (c & X & Hc & HX & HkX). exists c, X.
    rewrite lookup_delete_ne; [done|]. intros ->. apply (Hun i I LContext Hne HI'). rewrite Hc. left.
  - intros i1 i2 I1 I2 H1 H2. destruct (Hold _ _ H1) as [_ H1']. destruct (Hold _ _ H2) as [_ H2'].
    by apply (core_cmid_inj _ _ C).
  - intros r2 S2 HS2 H2. destruct (Hold _ _ HS2) as [Hne HS2'].
    eapply cm_parent_ext; [|by apply (core_qp _ _ C r2)]. intros k p. by apply (Hhd r2).
Qed.

(** An endpoint is resolved: its object and its borrowed context are new; the native
    context may be one that another endpoint uses too. *)
Lemma core_resolve σ w w' c i v id :
  Core σ w → σ !! c = None → σ !! i = None → c ≠ i → v ≠ 0 → id ≠ 0 → id ≠ v →
  intact w' → live w !! id = None →
  live w' = <[id := mkN KCmId [v]]> (<[v := mkN KCmContext []]> (live w)) →
  (live w !! v = None ∨ live w !! v = Some (mkN KCmContext [])) →
  Core (<[i := mk_Shape KCmId id [(LContext, c)]]> (<[c := mk_Shape KCmContext v []]> σ)) w'.
Proof.
  intros C Hc Hi Hci Hv Hid Hne Hint Hfree Hl Hold. set (σ' := <[i := _]> _).
  assert (Hhd : ∀ r2 S2 k p, σ !! r2 = Some S2 → (k, p) ∈ sh_parents S2 → hd σ' p = hd σ p).
  { intros r2 S2 k p HS2 Hp. destruct (parent_some _ _ _ _ _ _ C HS2 Hp).
    unfold σ'. rewrite !hd_insert_ne; [done|congruence|congruence]. }
  assert (Hfwd : ∀ p P, σ !! p = Some P → σ' !! p = Some P).
  { intros p P HP. unfold σ'. rewrite !lookup_insert_ne; [done|congruence|congruence]. }
  assert (Hc' : σ' !! c = Some (mk_Shape KCmContext v [])).
  { unfold σ'. by rewrite lookup_insert_ne, lookup_insert_eq. }
  assert (Hcases : ∀ p P, σ' !! p = Some P → (p = i ∧ P = mk_Shape KCmId id [(LContext, c)]) ∨
            (p = c ∧ P = mk_Shape KCmContext v []) ∨ (p ≠ i ∧ p ≠ c ∧ σ !! p = Some P)).
  { intros p P HP. unfold σ' in HP. apply lookup_insert_Some in HP as [[<- <-]|[? HP]]; [by left|].
    apply lookup_insert_Some in HP as [[<- <-]|[? HP]]; [by right; left|]. by right; right. }
  assert (Hlive : ∀ h n, live w !! h = Some n → live w' !! h = Some n).
  { intros h n Hn. rewrite Hl, lookup_insert_ne by congruence.
    destruct (decide (h = v)) as [->|]; [|by rewrite lookup_insert_ne].
    rewrite lookup_insert_eq. destruct Hold; congruence. }
  assert (Hctx : ∀ p P, σ !! p = Some P → sh_handle P = v → sh_handle P ≠ 0 → sh_kind P = KCmContext).
  { intros p P HP He Hz. pose proof (core_live _ _ C _ _ HP Hz) as HL. rewrite He in HL.
    destruct Hold as [Ho|Ho]; rewrite Ho in HL; [done|]. injection HL as Hk _.
    by destruct (sh_kind P). }
  assert (Hidl : ∀ p P, σ !! p = Some P → sh_handle P ≠ 0 → sh_handle P ≠ id).
  { intros p P HP Hz. destruct (open_alive _ _ _ _ C HP Hz). congruence. }
  constructor.
  - done.
  - intros r S HS Hz. destruct (Hcases _ _ HS) as [[-> ->]|[[-> ->]|(Hri & Hrc & HS')]].
    + rewrite Hl. cbn. rewrite lookup_insert_eq. unfold denote. cbn.
      by rewrite (hd_lookup _ _ Hc').
    + rewrite Hl. cbn. by rewrite lookup_insert_ne, lookup_insert_eq.
    + rewrite (denote_ext σ) by (intros k p; by apply (Hhd r)).
      by apply Hlive, (core_live _ _ C).
  - intros r S k p HS Hp. destruct (Hcases _ _ HS) as [[-> ->]|[[-> ->]|(Hri & Hrc & HS')]]; cbn in *.
    + apply list_elem_of_singleton in Hp. injection Hp as -> ->. eauto.
    + by apply not_elem_of_nil in Hp.
    + destruct (core_parent _ _ C _ _ _ _ HS' Hp) as (P & HP & HP2). eauto.
  - intros r1 r2 S1 S2 H1 H2 He Hz Hk.
    destruct (Hcases _ _ H1) as [[-> ->]|[[-> ->]|(Hri & Hrc & H1')]]; [|done|];
      destruct (Hcases _ _ H2) as [[-> ->]|[[-> ->]|(Hri2 & Hrc2 & H2')]]; cbn in *; try done.
    + destruct (Hidl _ _ H2'); [congruence|done].
    + by destruct (Hidl _ _ H1').
    + destruct Hk. by apply (Hctx r1).
    + by apply (core_inj _ _ C r1 r2 S1 S2).
  - intros h n Hn Hk. rewrite Hl in Hn.
    apply lookup_insert_Some in Hn as [[<- <-]|[Hh2 Hn]].
    { exists i, (mk_Shape KCmId id [(LContext, c)]). unfold σ'. by rewrite lookup_insert_eq. }
    apply lookup_insert_Some in Hn as [[<- <-]|[Hh3 Hn]]; [done|].
    destruct (core_own _ _ C _ _ Hn Hk) as (r2 & S2 & HS2 & <-). eauto.
  - intros h n Hn Hk. rewrite Hl in Hn.
    apply lookup_insert_Some in Hn as [[<- <-]|[Hh2 Hn]]; [done|].
    apply lookup_insert_Some in Hn as [[<- <-]|[Hh3 Hn]]; [done|].
    by apply (core_deps _ _ C h).
  - intros r S HS Hk Hz. destruct (Hcases _ _ HS) as [[-> ->]|[[-> ->]|(Hri & Hrc & HS')]]; [done| |].
    + exists i, (mk_Shape KCmId id [(LContext, c)]). unfold σ'. by rewrite lookup_insert_eq.
    + destruct (core_borrow _ _ C _ _ HS' Hk Hz) as (j & J & HJ & HJ2). eauto.
  - intros j J HJ Hk. destruct (Hcases _ _ HJ) as [[-> ->]|[[-> ->]|(Hri & Hrc & HJ')]]; [|done|].
    + eauto.
    + destruct (core_cmid _ _ C _ _ HJ' Hk) as (c2 & X & Hc2 & HX & HkX).
      exists c2, X. split_and!; [done|by apply Hfwd|done].
  - intros i1 i2 I1 I2 H1 H2 K1 K2 He.
    assert (Hfresh : ∀ j J, σ !! j = Some J → sh_parents J ≠ [(LContext, c)]).
    { intros j J HJ Hp. destruct (parent_some _ _ _ _ LContext c C HJ); [rewrite Hp; left|congruence]. }
    destruct (Hcases _ _ H1) as [[-> ->]|[[-> ->]|(Hri & Hrc & H1')]]; [|done|];
      destruct (Hcases _ _ H2) as [[-> ->]|[[-> ->]|(Hri2 & Hrc2 & H2')]]; cbn in *; try done.
    + by destruct (Hfresh _ _ H2').
    + by destruct (Hfresh _ _ H1').
    + by apply (core_cmid_inj _ _ C i1 i2 I1 I2).
  - intros r S HS Hz. destruct (Hcases _ _ HS) as [[-> ->]|[[-> ->]|(Hri & Hrc & HS')]]; [done|done|].
    eapply cm_parent_ext; [|by apply (core_qp _ _ C r)]. intros k p. by apply (Hhd r).
Qed.

(** An endpoint is closed with its borrowed context. *)
Section CloseEndpoint.
Context {σ w i I c X} (C : Core σ w) (HI : σ !! i = Some I) (HX : σ !! c = Some X).
Context (HkI : sh_kind I = KCmId) (HzI : sh_handle I ≠ 0) (HpI : sh_parents I = [(LContext, c)]).
Context (HQ : childless σ i).
Context (Hch : ∀ r S k, σ !! r = Some S → sh_handle S ≠ 0 → (k, c) ∈ sh_parents S → r = i).

Lemma endpoint_context : sh_kind X = KCmContext ∧ sh_handle X ≠ 0 ∧ i ≠ c.
Proof using C HI HX HkI HzI HpI.
  destruct (core_cmid _ _ C _ _ HI HkI) as (c2 & X2 & Hc2 & HX2 & HkX2).
  rewrite HpI in Hc2. injection Hc2 as <-. assert (X2 = X) as -> by congruence.
  destruct (core_parent _ _ C i I LContext c HI) as (P & HP & _ & Ho); [rewrite HpI; left|].
  assert (P = X) as -> by congruence. split_and!; [done|by apply Ho|congruence].
Qed.

(** Another borrowed context is kept alive by its own endpoint. *)
Lemma other_endpoint p P :
  σ !! p = Some P → sh_handle P ≠ 0 → sh_kind P = KCmContext → p ≠ c →
  ∃ j n, j ≠ sh_handle I ∧ live w !! j = Some n ∧ n_kind n = KCmId ∧ sh_handle P ∈ n_deps n.
Proof using C HI HkI HzI HpI.
  intros HP Hz Hk Hne. destruct (core_borrow _ _ C _ _ HP Hk Hz) as (j & J & HJ & HkJ & HzJ & HpJ).
  exists (sh_handle J), (denote σ j J). split_and!.
  - intros He. assert (j = i) as -> by (apply (core_inj _ _ C j i J I); congruence).
    assert (J = I) as -> by congruence. rewrite HpI in HpJ. congruence.
  - by apply (core_live _ _ C).
  - cbn. by rewrite HkJ.
  - cbn. rewrite HpJ. cbn. rewrite (hd_lookup _ _ HP). left.
Qed.

Lemma destroy_ep_ready :
  live w !! sh_handle I = Some (mkN KCmId [sh_handle X]) ∧ ¬ used (live w) (sh_handle I) ∧
  (∀ v, v ∈ [sh_handle X] → (∃ h n, live w !! h = Some n ∧ v ∈ n_deps n ∧ n_kind n ≠ KCmId) →
     ∃ j n, j ≠ sh_handle I ∧ live w !! j = Some n ∧ n_kind n = KCmId ∧ v ∈ n_deps n).
Proof using C HI HX HkI HzI HpI HQ Hch.
  destruct endpoint_context as (HkX & HzX & Hic). split_and!.
  - rewrite (core_live _ _ C _ _ HI HzI). unfold denote. rewrite HkI, HpI. cbn.
    by rewrite (hd_lookup _ _ HX).
  - apply (childless_unused C i I); try done. by rewrite HkI.
  - intros v Hv%list_elem_of_singleton (h & n & Hn & Hin & Hkn). subst v.
    assert (is_context (n_kind n) = false) as Hk.
    { destruct (is_context (n_kind n)) eqn:E; [|done]. rewrite (core_deps _ _ C _ _ Hn E) in Hin.
      by apply not_elem_of_nil in Hin. }
    destruct (core_owner C _ _ Hn Hk) as (r & S & HS & Hh & Hz & ->). cbn in Hin.
    apply list_elem_of_fmap in Hin as ([k p] & Hp & Hin). cbn in Hp.
    destruct (core_parent _ _ C _ _ _ _ HS Hin) as (P & HP & _ & Ho).
    rewrite (hd_lookup _ _ HP) in Hp. rewrite Hp. assert (sh_handle P ≠ 0) as HzP by congruence.
    apply (other_endpoint p P); [done|done| |].
    + pose proof (core_live _ _ C _ _ HP HzP) as H1. rewrite <-Hp in H1.
      rewrite (core_live _ _ C _ _ HX HzX) in H1. injection H1 as H1 _. rewrite HkX in H1. cbn in H1.
      by destruct (sh_kind P).
    + intros ->. assert (r = i) as -> by (by apply (Hch r S k); [|congruence|]).
      assert (S = I) as -> by congruence. apply Hkn. cbn. by rewrite HkI.
Qed.

Lemma core_close_endpoint w' :
  intact w' → live w' !! sh_handle I = None → live w' ⊆ live w →
  (∀ h n, h ≠ sh_handle I → live w !! h = Some n →
     (n_kind n = KCmContext →
        ∃ j n', j ≠ sh_handle I ∧ live w !! j = Some n' ∧ n_kind n' = KCmId ∧ h ∈ n_deps n') →
     live w' !! h = Some n) →
  Core (<[i := mk_Shape KCmId 0 [(LContext, c)]]> (<[c := mk_Shape KCmContext 0 []]> σ)) w'.
Proof using C HI HX HkI HzI HpI HQ Hch.
  intros Hint Hgone Hsub Hkeep. destruct endpoint_context as (HkX & HzX & Hic).
  set (σ' := <[i := _]> _).
  assert (Hpx : sh_parents X = [] ∨ sh_parents X ≠ []) by (destruct (sh_parents X); auto).
  assert (Hcases : ∀ p P, σ' !! p = Some P → (p = i ∧ P = mk_Shape KCmId 0 [(LContext, c)]) ∨
            (p = c ∧ P = mk_Shape KCmContext 0 []) ∨ (p ≠ i ∧ p ≠ c ∧ σ !! p = Some P)).
  { intros p P HP. unfold σ' in HP. apply lookup_insert_Some in HP as [[<- <-]|[? HP]]; [by left|].
    apply lookup_insert_Some in HP as [[<- <-]|[? HP]]; [by right; left|]. by right; right. }
  assert (Hopen : ∀ p P, σ' !! p = Some P → sh_handle P ≠ 0 → p ≠ i ∧ p ≠ c ∧ σ !! p = Some P).
  { intros p P HP Hz. by destruct (Hcases _ _ HP) as [[-> ->]|[[-> ->]|?]]. }
  assert (Hfwd : ∀ p P, p ≠ i → p ≠ c → σ !! p = Some P → σ' !! p = Some P).
  { intros p P H1 H2 HP. unfold σ'. by rewrite !lookup_insert_ne. }
  assert (Hc' : σ' !! c = Some (mk_Shape KCmContext 0 [])).
  { unfold σ'. by rewrite lookup_insert_ne, lookup_insert_eq. }
  assert (Hpar : ∀ r S k p, σ !! r = Some S → sh_handle S ≠ 0 → r ≠ i → (k, p) ∈ sh_parents S →
            p ≠ i ∧ p ≠ c).
  { intros r S k p HS Hz Hri Hp. split; intros ->; [by apply (HQ r S k)|].
    by destruct Hri; apply (Hch r S k). }
  assert (Hhd : ∀ r S k p, σ !! r = Some S → sh_handle S ≠ 0 → r ≠ i → (k, p) ∈ sh_parents S →
            hd σ' p = hd σ p).
  { intros r S k p HS Hz Hri Hp. destruct (Hpar _ _ _ _ HS Hz Hri Hp).
    unfold σ'. by rewrite !hd_insert_ne. }
  constructor.
  - done.
  - intros r S HS Hz. destruct (Hopen _ _ HS Hz) as (Hri & Hrc & HS').
    rewrite (denote_ext σ) by (intros k p; by apply (Hhd r)). apply Hkeep.
    + intros He. apply Hri. apply (core_inj _ _ C r i S I); try done. intros Hk.
      pose proof (core_live _ _ C _ _ HS' Hz) as H1. rewrite He, (core_live _ _ C _ _ HI HzI) in H1.
      injection H1 as H1 _. by rewrite HkI, Hk in H1.
    + by apply (core_live _ _ C).
    + intros Hk. apply (other_endpoint r S); try done. cbn in Hk. by destruct (sh_kind S).
  - intros r S k p HS Hp. destruct (Hcases _ _ HS) as [[-> ->]|[[-> ->]|(Hri & Hrc & HS')]]; cbn in *.
    + apply list_elem_of_singleton in Hp. injection Hp as -> ->. eauto.
    + by apply not_elem_of_nil in Hp.
    + destruct (core_parent _ _ C _ _ _ _ HS' Hp) as (P & HP & HkP & HoP).
      destruct (decide (p = i)) as [->|Hpi].
      { eexists. split_and!; [unfold σ'; by rewrite lookup_insert_eq| |].
        - assert (P = I) as -> by congruence. cbn. by rewrite <-HkP, HkI.
        - intros Hz. by destruct (HQ _ _ _ HS' Hz Hp). }
      destruct (decide (p = c)) as [->|Hpc].
      { eexists. split_and!; [done| |].
        - assert (P = X) as -> by congruence. cbn. by rewrite <-HkP, HkX.
        - intros Hz. by destruct Hri; apply (Hch r S k). }
      eauto.
  - intros r1 r2 S1 S2 H1 H2 He Hz. destruct (Hopen _ _ H1 Hz) as (_ & _ & H1').
    destruct (Hopen _ _ H2 ltac:(congruence)) as (_ & _ & H2'). by apply (core_inj _ _ C r1 r2 S1 S2).
  - intros h n Hn Hk. assert (live w !! h = Some n) as Hn' by (by eapply lookup_weaken).
    destruct (core_owner C _ _ Hn' Hk) as (r & S & HS & Hh & Hz & Hd). exists r, S.
    split; [|done]. apply Hfwd; [| |done]; intros ->.
    + congruence.
    + assert (S = X) as -> by congruence. rewrite Hd in Hk. cbn in Hk. by rewrite HkX in Hk.
  - intros h n Hn. apply (core_deps _ _ C h). by eapply lookup_weaken.
  - intros r S HS Hk Hz. destruct (Hopen _ _ HS Hz) as (Hri & Hrc & HS').
    destruct (core_borrow _ _ C _ _ HS' Hk Hz) as (j & J & HJ & HkJ & HzJ & HpJ). exists j, J.
    split; [|done]. apply Hfwd; [| |done]; intros ->; congruence.
  - intros j J HJ Hk. destruct (Hcases _ _ HJ) as [[-> ->]|[[-> ->]|(Hri & Hrc & HJ')]]; [eauto|done|].
    destruct (core_cmid _ _ C _ _ HJ' Hk) as (c2 & X2 & Hc2 & HX2 & HkX2).
    destruct (decide (c2 = c)) as [->|]; [by eexists _, _|]. exists c2, X2. split_and!; [done| |done].
    apply Hfwd; [congruence|done|done].
  - intros i1 i2 I1 I2 H1 H2 K1 K2 He.
    destruct (Hcases _ _ H1) as [[-> ->]|[[-> ->]|(Hri & Hrc & H1')]]; [|done|];
      destruct (Hcases _ _ H2) as [[-> ->]|[[-> ->]|(Hri2 & Hrc2 & H2')]]; cbn in *; try done.
    + symmetry. apply (core_cmid_inj _ _ C i2 i I2 I); congruence.
    + apply (core_cmid_inj _ _ C i1 i I1 I); congruence.
    + by apply (core_cmid_inj _ _ C i1 i2 I1 I2).
  - intros r S HS Hz. destruct (Hopen _ _ HS Hz) as (Hri & Hrc & HS').
    eapply cm_parent_ext; [|by apply (core_qp _ _ C r)]. intros k p. by apply (Hhd r).
Qed.
End CloseEndpoint.
End Safety.
