(* ===== verification/VerbsMethods.v ===== *)
(** Every method of the verbs binding keeps the invariant of VerbsSafety.

    [Inv] joins [Core] with the count of a context's children.  The first part gives
    what a method does to it, in terms of the heap and the library; the second steps
    through the methods with weakest preconditions. *)

From S2P Require Import Prelude Bytes Json.
From S2P Require Import Helpers.
From S2P Require Import VerbsLib VerbsValues VerbsPost.
From S2P Require Import VerbsObjects VerbsSafety.
#[local] Open Scope Z_scope.

(** * The children of a context *)

(** What an object adds to the count of the context [c]. *)
Definition child_of (c : nat) (x : PyObj) : Z :=
  match x with
  | OPD o => if negb (pd_pd o =? 0) && (pd_context o =? c)%nat then 1 else 0
  | OCompChannel o => if negb (chan_chan o =? 0) && (chan_context o =? c)%nat then 1 else 0
  | OCQ o => if negb (cq_cq o =? 0) && (cq_context o =? c)%nat then 1 else 0
  | _ => 0
  end.
Definition kids (x : PyObj) : option Z :=
  match x with OContext o => Some (ctx_children o) | _ => None end.

Definition Counted (m : gmap nat PyObj) : Prop :=
  ∀ r x n, m !! r = Some x → kids x = Some n → n = msum (child_of r) m.

Lemma child_of_open c x : child_of c x = 0 ∨
  child_of c x = 1 ∧ sh_handle (sh_of x) ≠ 0 ∧ (LContext, c) ∈ sh_parents (sh_of x) ∧
  is_context (sh_kind (sh_of x)) = false.
Proof.
  destruct x as [o|o|o|o|o|o|o|o|o|o]; try (by left); cbn.
  all: destruct (_ =? 0) eqn:E; [by left|]; destruct (_ =? c)%nat eqn:E2; [right|by left];
    apply Nat.eqb_eq in E2; subst c; split_and!; [done|lia| |done]; left.
Qed.

Lemma child_of_closed c x : sh_handle (sh_of x) = 0 → child_of c x = 0.
Proof. intros H. destruct (child_of_open c x) as [?|[_ [? _]]]; done. Qed.

Lemma child_of_other c x : (LContext, c) ∉ sh_parents (sh_of x) → child_of c x = 0.
Proof. intros H. by destruct (child_of_open c x) as [?|[_ [_ [? _]]]]. Qed.

Lemma child_of_nonneg c x : 0 ≤ child_of c x.
Proof. destruct (child_of_open c x) as [->|[-> _]]; lia. Qed.

(** Replacing or adding an object that is no context. *)
Lemma counted_insert m r x' :
  Counted m → kids x' = None → (∀ x, m !! r = Some x → kids x = None) →
  (∀ c, child_of c x' = at_key (child_of c) m r) →
  Counted (<[r := x']> m).
Proof.
  intros HC Hk' Hk Hc c x n Hx Hn. apply lookup_insert_Some in Hx as [[<- <-]|[Hne Hx]]; [congruence|].
  rewrite msum_insert, Hc, (HC _ _ _ Hx Hn). lia.
Qed.

(** The same for one child more or less of [c], whose count follows. *)
Lemma counted_child m r x' c o n :
  Counted m → kids x' = None → (∀ x, m !! r = Some x → kids x = None) →
  m !! c = Some (OContext o) →
  n = ctx_children o + child_of c x' - at_key (child_of c) m r →
  (∀ c', c' ≠ c → child_of c' x' = at_key (child_of c') m r) →
  Counted (<[c := OContext (set_children n o)]> (<[r := x']> m)).
Proof.
  intros HC Hk' Hk Hc Hn Hother.
  assert (r ≠ c) as Hrc by (intros ->; by apply Hk in Hc).
  assert (Hsum : ∀ c', msum (child_of c') (<[c := OContext (set_children n o)]> (<[r := x']> m)) =
                   msum (child_of c') m - at_key (child_of c') m r + child_of c' x').
  { intros c'. rewrite !msum_insert.
    assert (at_key (child_of c') (<[r := x']> m) c = 0) as ->; [|cbn; lia].
    unfold at_key. by rewrite lookup_insert_ne, Hc. }
  intros c' x k Hx Hkx. rewrite Hsum. apply lookup_insert_Some in Hx as [[<- <-]|[Hne Hx]].
  - cbn in Hkx. injection Hkx as <-. rewrite <-(HC c _ _ Hc eq_refl). lia.
  - apply lookup_insert_Some in Hx as [[<- <-]|[Hne2 Hx]]; [congruence|].
    rewrite Hother by done. rewrite (HC _ _ _ Hx Hkx). lia.
Qed.

(** A change that no count sees. *)
Lemma counted_kept m r x x' :
  Counted m → m !! r = Some x → kids x' = kids x → (∀ c, child_of c x' = child_of c x) →
  Counted (<[r := x']> m).
Proof.
  intros HC Hr Hk Hc c y n Hy Hn. rewrite msum_insert, Hc. unfold at_key. rewrite Hr.
  apply lookup_insert_Some in Hy as [[<- <-]|[Hne Hy]].
  - rewrite <-(HC _ _ n Hr) by congruence. lia.
  - rewrite <-(HC _ _ n Hy) by done. lia.
Qed.

Lemma counted_delete m r : Counted m → (∀ c, at_key (child_of c) m r = 0) → Counted (delete r m).
Proof.
  intros HC H0 c x n Hx Hn. apply lookup_delete_Some in Hx as [Hne Hx].
  rewrite (HC _ _ _ Hx Hn), (msum_delete _ m r), H0. lia.
Qed.

Section Methods.
Context {W : Type} `{!Libibverbs W} `{!LibibverbsLaws W}.
Abbreviation B := (Binding W).
Implicit Types (m : gmap nat PyObj) (w : W) (s : B).

Definition inv m w : Prop := Core (sh_of <$> m) w ∧ Counted m.
Definition Inv s : Prop := inv (b_heap s) (b_world s).

(** * What [inv] gives *)

Section Use.
Context {m w} (I : inv m w).

Lemma sh_lookup r x : m !! r = Some x → (sh_of <$> m) !! r = Some (sh_of x).
Proof using. intros H. by rewrite lookup_fmap, H. Qed.

Lemma sh_lookup_inv r S : (sh_of <$> m) !! r = Some S → ∃ x, m !! r = Some x ∧ S = sh_of x.
Proof using. rewrite lookup_fmap. destruct (m !! r) as [x|]; [|done]. intros [= <-]. eauto. Qed.

Lemma inv_alive r x (P : NKind → bool) :
  m !! r = Some x → sh_handle (sh_of x) ≠ 0 → P (native_kind r (sh_kind (sh_of x))) = true →
  alive (live w) P (sh_handle (sh_of x)).
Proof using I. intros Hr. apply (core_alive (proj1 I) r). by apply sh_lookup. Qed.

Lemma inv_live r x :
  m !! r = Some x → sh_handle (sh_of x) ≠ 0 →
  live w !! sh_handle (sh_of x) = Some (denote (sh_of <$> m) r (sh_of x)).
Proof using I. intros Hr. apply (core_live _ _ (proj1 I)). by apply sh_lookup. Qed.

Lemma inv_parent r x k p :
  m !! r = Some x → (k, p) ∈ sh_parents (sh_of x) →
  ∃ y, m !! p = Some y ∧ kcls (sh_kind (sh_of y)) = k ∧
    (sh_handle (sh_of x) ≠ 0 → sh_handle (sh_of y) ≠ 0).
Proof using I.
  intros Hr Hp. destruct (core_parent _ _ (proj1 I) _ _ _ _ (sh_lookup _ _ Hr) Hp) as (S & HS & H).
  destruct (sh_lookup_inv _ _ HS) as (y & Hy & ->). eauto.
Qed.

(** The parent's class decides its constructor. *)
Lemma inv_context r x c : m !! r = Some x → (LContext, c) ∈ sh_parents (sh_of x) →
  ∃ o, m !! c = Some (OContext o) ∧ (sh_handle (sh_of x) ≠ 0 → ctx_ctx o ≠ 0).
Proof using I.
  intros Hr Hp. destruct (inv_parent _ _ _ _ Hr Hp) as (y & Hy & Hk & Ho).
  destruct y; try done. eauto.
Qed.

Lemma hd_handle r x : m !! r = Some x → hd (sh_of <$> m) r = sh_handle (sh_of x).
Proof using. intros Hr. unfold hd. by rewrite (sh_lookup _ _ Hr). Qed.

(** The number of a context's children is below that of the native objects. *)
Lemma children_bounded c : 0 ≤ msum (child_of c) m ≤ Z.of_nat (size (live w)).
Proof using I.
  split; [apply msum_nonneg; intros k x _; apply child_of_nonneg|].
  apply (msum_le_size _ (λ x, sh_handle (sh_of x))).
  - intros r x Hr. destruct (child_of_open c x) as [?|[H1 (Hh & _ & _)]]; [by left|right].
    split; [done|]. by rewrite (inv_live _ _ Hr Hh).
  - intros r1 r2 x1 x2 H1 H2 C1 C2 He.
    destruct (child_of_open c x1) as [?|[_ (Hh & _ & Hk)]]; [lia|].
    apply (core_inj _ _ (proj1 I) r1 r2 (sh_of x1) (sh_of x2)); try done; [by apply sh_lookup..|].
    intros E. by rewrite E in Hk.
Qed.

(** A context whose count is 0 has no open child besides its endpoint and what
    belongs to a domain. *)
Lemma no_children c o r x :
  m !! c = Some (OContext o) → ctx_children o = 0 → m !! r = Some x →
  sh_handle (sh_of x) ≠ 0 → (LContext, c) ∈ sh_parents (sh_of x) → sh_kind (sh_of x) = KCmId.
Proof using I.
  intros Hc H0 Hr Hh Hp. pose proof (proj2 I _ _ _ Hc eq_refl) as Hsum. rewrite H0 in Hsum.
  assert (child_of c x = 0) as Hz.
  { apply (msum_zero_inv (child_of c) m r); [intros; apply child_of_nonneg|done|done]. }
  destruct x as [o'|o'|o'|o'|o'|o'|o'|o'|o'|o']; cbn in *.
  all: repeat first [ by apply not_elem_of_nil in Hp
                    | apply elem_of_cons in Hp as [Hp|Hp]; [try discriminate Hp|] ].
  all: try done.
  all: try (injection Hp as ->; rewrite Nat.eqb_refl in Hz; destruct (_ =? 0) eqn:E; [lia|done]).
  all: try (apply list_elem_of_fmap in Hp as (? & [=] & _)).
  apply elem_of_app in Hp as [Hp|Hp]; apply list_elem_of_fmap in Hp as (? & [=] & _).
Qed.
End Use.

(** * What methods do to the heap and the library *)

Lemma inv_keeps m w w' : keeps live intact w w' → inv m w → inv m w'.
Proof. intros Hk [HC Hn]. split; [by eapply core_keeps|done]. Qed.

Lemma inv_field m w r x x' :
  inv m w → m !! r = Some x → sh_of x' = sh_of x → kids x' = kids x →
  (∀ c, child_of c x' = child_of c x) → inv (<[r := x']> m) w.
Proof.
  intros [HC Hn] Hr Hs Hk Hc. split; [|by eapply counted_kept].
  rewrite fmap_insert, Hs, insert_id; [done|by apply sh_lookup].
Qed.

(** The count of a context changes with no effect on [Core]. *)
Lemma core_set_children m w c o n :
  m !! c = Some (OContext o) → Core (sh_of <$> m) w →
  Core (sh_of <$> <[c := OContext (set_children n o)]> m) w.
Proof.
  intros Hc HC. rewrite fmap_insert, insert_id; [done|]. rewrite (sh_lookup _ _ Hc). done.
Qed.

(** What makes [x] the object for the outcome [h, w'] of a creation. *)
Record fits m w (h : Z) w' (k : NKind) (deps : list Z) r x : Prop := {
  fits_created : creates live intact k deps w (h, w');
  fits_open : h ≠ 0;
  fits_fresh : m !! r = None;
  fits_handle : sh_handle (sh_of x) = h;
  fits_kind : native_kind r (sh_kind (sh_of x)) = k;
  fits_plain : is_context k = false ∧ k ≠ KCmId;
  fits_deps : (λ p, hd (sh_of <$> m) p.2) <$> sh_parents (sh_of x) = deps;
  fits_parents kp p : (kp, p) ∈ sh_parents (sh_of x) → open_at (sh_of <$> m) kp p;
  fits_cm : cm_parent (sh_of <$> m) (sh_of x);
}.

Lemma fits_core m w h w' k deps r x :
  fits m w h w' k deps r x → Core (sh_of <$> m) w → Core (sh_of <$> <[r := x]> m) w'.
Proof.
  intros F HC. destruct F as [Hcr Hh Hr Hx Hk [Hk1 Hk2] Hd Hps Hcm].
  destruct Hcr as [Hi [[? _]|(_ & Hfree & Hl)]]; [done|]. cbn in *.
  rewrite fmap_insert. eapply core_new; try done.
  - by rewrite lookup_fmap, Hr.
  - by rewrite Hx.
  - intros E. rewrite E in Hk. cbn in Hk. by subst.
  - intros E. rewrite E in Hk. by cbn in Hk.
  - rewrite <-(native_kind_context r), Hk. congruence.
  - by rewrite Hx.
  - rewrite Hx, Hl. unfold denote. by rewrite Hk, Hd.
Qed.

Lemma inv_create m w h w' k deps r x :
  inv m w → fits m w h w' k deps r x → kids x = None → (∀ c, child_of c x = 0) →
  inv (<[r := x]> m) w'.
Proof.
  intros [HC Hn] F Hk Hc. split; [by eapply fits_core|].
  pose proof (fits_fresh _ _ _ _ _ _ _ _ F) as Hr.
  apply counted_insert; [done|done|intros y; by rewrite Hr|].
  intros c. unfold at_key. by rewrite Hr, Hc.
Qed.

Lemma inv_create_child m w h w' k deps r x c o :
  inv m w → fits m w h w' k deps r x → kids x = None →
  (∀ c', child_of c' x = if decide (c' = c) then 1 else 0) → m !! c = Some (OContext o) →
  inv (<[c := OContext (set_children (u32 (ctx_children o + 1)) o)]> (<[r := x]> m)) w'.
Proof.
  intros [HC Hn] F Hk Hc Ho. pose proof (fits_fresh _ _ _ _ _ _ _ _ F) as Hr.
  pose proof (fits_core _ _ _ _ _ _ _ _ F HC) as HC'.
  assert (c ≠ r) as Hne by congruence.
  assert (Hn' : Counted (<[c := OContext (set_children (ctx_children o + 1) o)]> (<[r := x]> m))).
  { apply counted_child; [done|done|intros y; by rewrite Hr|done| |].
    - unfold at_key. rewrite Hr, Hc, decide_True by done. lia.
    - intros c' Hc'. unfold at_key. by rewrite Hr, Hc, decide_False. }
  assert (Ho' : <[r := x]> m !! c = Some (OContext o)) by by rewrite lookup_insert_ne.
  assert (I' : inv (<[c := OContext (set_children (ctx_children o + 1) o)]> (<[r := x]> m)) w').
  { split; [|done]. by apply core_set_children. }
  replace (u32 (ctx_children o + 1)) with (ctx_children o + 1); [done|].
  pose proof (children_bounded I' c) as Hb.
  rewrite <-(Hn' c _ _ (lookup_insert_eq _ _ _) eq_refl) in Hb.
  pose proof (live_bounded w' (core_intact _ _ HC')). unfold u32. rewrite Z.mod_small; [done|].
  cbn in Hb. lia.
Qed.

(** What makes [x'] the closed form of [x] after the native object is gone. *)
Record closes m w w' r x x' : Prop := {
  closes_here : m !! r = Some x;
  closes_open : sh_handle (sh_of x) ≠ 0;
  closes_plain : is_context (sh_kind (sh_of x)) = false ∧ sh_kind (sh_of x) ≠ KCmId;
  closes_kind : kcls (sh_kind (sh_of x')) = kcls (sh_kind (sh_of x));
  closes_handle : sh_handle (sh_of x') = 0;
  closes_parents kp p : (kp, p) ∈ sh_parents (sh_of x') → (kp, p) ∈ sh_parents (sh_of x);
  closes_childless : childless (sh_of <$> m) r;
  closes_intact : intact w';
  closes_live : live w' = delete (sh_handle (sh_of x)) (live w);
}.

Lemma closes_core m w w' r x x' :
  closes m w w' r x x' → Core (sh_of <$> m) w → Core (sh_of <$> <[r := x']> m) w'.
Proof.
  intros [Hr Hh [Hk1 Hk2] Hk Hz Hps Hch Hi Hl] HC. rewrite fmap_insert.
  eapply (core_close _ w); try done; [by apply sh_lookup| | | |by left].
  all: intros E; rewrite E in *; first [done | cbn in Hk; by destruct (sh_kind (sh_of x))].
Qed.

Lemma closes_not_kids m w w' r x x' : closes m w w' r x x' → kids x = None ∧ kids x' = None.
Proof.
  intros F. destruct (closes_plain _ _ _ _ _ _ F) as [H _].
  pose proof (closes_kind _ _ _ _ _ _ F) as H2.
  split; [by destruct x as [o|o|o|o|o|o|o|o|o|o]; try done; cbn in H; destruct (ctx_owned o)|].
  destruct x' as [o'|o'|o'|o'|o'|o'|o'|o'|o'|o']; try done. exfalso. cbn in H2.
  destruct x as [o|o|o|o|o|o|o|o|o|o], (ctx_owned o'); try done; cbn in H; by destruct (ctx_owned o).
Qed.

Lemma inv_close m w w' r x x' :
  inv m w → closes m w w' r x x' → (∀ c, child_of c x = 0) → inv (<[r := x']> m) w'.
Proof.
  intros [HC Hn] F Hc. split; [by eapply closes_core|].
  destruct (closes_not_kids _ _ _ _ _ _ F) as [Hk Hk']. pose proof (closes_here _ _ _ _ _ _ F) as Hr.
  eapply counted_kept; [done|exact Hr|congruence|]. intros c. rewrite Hc.
  apply child_of_closed, (closes_handle _ _ _ _ _ _ F).
Qed.

(** [_release_child] *)
Definition released (o : Context) : Context :=
  if 0 <? ctx_children o then set_children (ctx_children o - 1) o else o.

Lemma inv_close_child m w w' r x x' c o :
  inv m w → closes m w w' r x x' → (∀ c', child_of c' x = if decide (c' = c) then 1 else 0) →
  m !! c = Some (OContext o) → inv (<[c := OContext (released o)]> (<[r := x']> m)) w'.
Proof.
  intros [HC Hn] F Hc Ho. pose proof (closes_core _ _ _ _ _ _ F HC) as HC'.
  destruct (closes_not_kids _ _ _ _ _ _ F) as [Hk Hk']. pose proof (closes_here _ _ _ _ _ _ F) as Hr.
  assert (c ≠ r) as Hne by (intros ->; simplify_eq).
  assert (1 ≤ ctx_children o) as H1.
  { rewrite (Hn c _ _ Ho eq_refl), (msum_delete _ m r). unfold at_key. rewrite Hr, Hc, decide_True by done.
    enough (0 ≤ msum (child_of c) (delete r m)) by lia. apply msum_nonneg. intros; apply child_of_nonneg. }
  unfold released. replace (0 <? ctx_children o) with true by lia.
  assert (Ho' : <[r := x']> m !! c = Some (OContext o)) by by rewrite lookup_insert_ne.
  split; [by apply core_set_children|].
  apply counted_child; [done|done|intros y; rewrite Hr; congruence|done| |].
  - unfold at_key. rewrite Hr, Hc, decide_True by done.
    rewrite (child_of_closed _ x' (closes_handle _ _ _ _ _ _ F)). lia.
  - intros c' Hc'. unfold at_key. rewrite Hr, Hc, decide_False by done.
    apply child_of_closed, (closes_handle _ _ _ _ _ _ F).
Qed.

(** Nothing refers to a reference that no object has. *)
Lemma fresh_no_child m w r : inv m w → m !! r = None → msum (child_of r) m = 0.
Proof.
  intros I Hr. apply msum_zero. intros k x Hk. apply child_of_other. intros Hp.
  destruct (inv_context I _ _ _ Hk Hp) as (o & Ho & _). congruence.
Qed.

(** A device is opened. *)
Lemma inv_open_context m w h w' r name :
  inv m w → creates live intact KContext [] w (h, w') → h ≠ 0 → m !! r = None →
  inv (<[r := OContext (mk_Context h name 0 true)]> m) w'.
Proof.
  intros I Hcr Hh Hr. pose proof (fresh_no_child _ _ _ I Hr) as H0. destruct I as [HC Hn].
  destruct Hcr as [Hi [[? _]|(_ & Hfree & Hl)]]; [done|]. split.
  - rewrite fmap_insert. apply (core_new _ w); try done; [by rewrite lookup_fmap, Hr|].
    intros k p Hp. by apply not_elem_of_nil in Hp.
  - intros c x n Hx Hk. rewrite msum_insert. unfold at_key. rewrite Hr. cbn [child_of].
    apply lookup_insert_Some in Hx as [[<- <-]|[Hne Hx]].
    + cbn in Hk. injection Hk as <-. lia.
    + rewrite (Hn _ _ _ Hx Hk). lia.
Qed.

(** A device is closed; the library may refuse, after which [__dealloc__] leaves the
    native context behind. *)
Lemma inv_close_context m w w' r o :
  inv m w → m !! r = Some (OContext o) → ctx_ctx o ≠ 0 → ctx_owned o = true →
  ctx_children o = 0 → intact w' →
  (live w' = delete (ctx_ctx o) (live w) ∨ live w' = live w) →
  inv (<[r := OContext (set_ctx 0 o)]> m) w'.
Proof.
  intros I Hr Hh Ho H0 Hi Hl. split; [|by eapply counted_kept; [apply I|exact Hr|done|done]].
  rewrite fmap_insert.
  assert (Hk : sh_kind (sh_of (OContext o)) = KContext) by (cbn; by rewrite Ho).
  assert (HS : (sh_of <$> m) !! r = Some (sh_of (OContext o))) by by apply sh_lookup.
  eapply (core_close _ w); [apply I|exact HS|done|by rewrite Hk..|cbn; by rewrite Ho|
    cbn; by rewrite Ho|done|done|done| |done|].
  - intros r2 S2 k HS2 H2 Hp. destruct (sh_lookup_inv _ _ HS2) as (y & Hy & ->).
    destruct (core_parent _ _ (proj1 I) _ _ _ _ HS2 Hp) as (P & HP & HkP & _).
    assert (P = sh_of (OContext o)) as -> by congruence. rewrite Hk in HkP. cbn in HkP. subst k.
    pose proof (no_children I _ _ _ _ Hr H0 Hy H2 Hp) as HkC.
    destruct (core_cmid _ _ (proj1 I) _ _ HS2 HkC) as (c & X & Hc & HX & HkX).
    rewrite Hc in Hp. apply list_elem_of_singleton in Hp. injection Hp as ->.
    assert (X = sh_of (OContext o)) as -> by congruence. congruence.
  - destruct Hl as [Hl|Hl]; [by left|right; by rewrite Hk].
Qed.

(** The events of a completion queue change. *)
Lemma inv_events m w w' r o n :
  inv m w → m !! r = Some (OCQ o) → cq_cq o ≠ 0 → intact w' →
  live w' = <[cq_cq o := mkN (KCQ r n) (n_deps (denote (sh_of <$> m) r (sh_of (OCQ o))))]> (live w) →
  inv (<[r := OCQ (set_unacked n o)]> m) w'.
Proof.
  intros I Hr Hh Hi Hl. split; [|by eapply counted_kept; [apply I|exact Hr|done|done]].
  rewrite fmap_insert.
  eapply (core_change _ w); [apply I|by apply sh_lookup|done|done|done|done|done|done|done].
Qed.

(** An endpoint and its borrowed context. *)
Lemma inv_resolve m w w' c i v id name host port source b :
  inv m w → m !! c = None → m !! i = None → c ≠ i → v ≠ 0 → id ≠ 0 → id ≠ v →
  intact w' → live w !! id = None →
  live w' = <[id := mkN KCmId [v]]> (<[v := mkN KCmContext []]> (live w)) →
  (live w !! v = None ∨ live w !! v = Some (mkN KCmContext [])) →
  inv (<[i := OCMID (mk_CMID id c host port source b)]>
        (<[c := OContext (mk_Context v name 0 false)]> m)) w'.
Proof.
  intros I Hc Hi Hci Hv Hid Hne Hint Hfree Hl Hold.
  pose proof (fresh_no_child _ _ _ I Hc) as H0. destruct I as [HC Hn]. split.
  - rewrite !fmap_insert. eapply (core_resolve _ w); try done; by rewrite lookup_fmap, ?Hc, ?Hi.
  - assert (Hsum : ∀ c', msum (child_of c') (<[i := OCMID (mk_CMID id c host port source b)]>
        (<[c := OContext (mk_Context v name 0 false)]> m)) = msum (child_of c') m).
    { intros c'. rewrite !msum_insert. unfold at_key.
      rewrite lookup_insert_ne, Hc, Hi by done. cbn. lia. }
    intros c' x n Hx Hk. rewrite Hsum.
    apply lookup_insert_Some in Hx as [[<- <-]|[Hne1 Hx]]; [done|].
    apply lookup_insert_Some in Hx as [[<- <-]|[Hne2 Hx]]; [cbn in Hk; congruence|].
    by apply (Hn c' x).
Qed.

(** What the end of an endpoint needs: no queue pair of its own, no child of its
    context. *)
Section Endpoint.
Context {m w i o} {c : Context} (I : inv m w) (Hi : m !! i = Some (OCMID o)) (Hz : cm_id o ≠ 0).
Context (Hc : m !! cm_context o = Some (OContext c)) (H0 : ctx_children c = 0).
Context (HQ : childless (sh_of <$> m) i).

Lemma endpoint_only r S k :
  (sh_of <$> m) !! r = Some S → sh_handle S ≠ 0 → (k, cm_context o) ∈ sh_parents S → r = i.
Proof using I Hi Hc H0.
  intros HS HzS Hp. destruct (sh_lookup_inv _ _ HS) as (y & Hy & ->).
  destruct (core_parent _ _ (proj1 I) _ _ _ _ HS Hp) as (P & HP & HkP & _).
  rewrite (sh_lookup _ _ Hc) in HP. injection HP as <-.
  assert (k = LContext) as -> by (rewrite <-HkP; cbn; by destruct (ctx_owned c)).
  pose proof (no_children I _ _ _ _ Hc H0 Hy HzS Hp) as HkC.
  destruct (core_cmid _ _ (proj1 I) _ _ HS HkC) as (c2 & X & Hp2 & _).
  rewrite Hp2 in Hp. apply list_elem_of_singleton in Hp. injection Hp as <-.
  apply (core_cmid_inj _ _ (proj1 I) r i (sh_of y) (sh_of (OCMID o))); try done.
  by apply sh_lookup.
Qed.

Lemma inv_close_endpoint b :
  intact (cm_destroy_ep (cm_id o) w) ∧
  inv (<[i := OCMID (set_connected b (set_cm_id 0 o))]>
        (<[cm_context o := OContext (set_ctx 0 c)]> m)) (cm_destroy_ep (cm_id o) w).
Proof using I Hi Hz Hc H0 HQ.
  assert (HI : (sh_of <$> m) !! i = Some (sh_of (OCMID o))) by by apply sh_lookup.
  assert (HX : (sh_of <$> m) !! cm_context o = Some (sh_of (OContext c))) by by apply sh_lookup.
  destruct (destroy_ep_ready (proj1 I) HI HX eq_refl Hz eq_refl HQ endpoint_only) as (Hl & Hu & Hd).
  destruct (law_destroy_ep _ _ _ (core_intact _ _ (proj1 I)) Hl Hu Hd) as (Hint & Hgone & Hsub & Hkeep).
  split; [done|]. destruct (endpoint_context (proj1 I) HI HX eq_refl Hz eq_refl) as (HkX & HzX & Hne).
  assert (ctx_owned c = false) as Ho by (cbn in HkX; by destruct (ctx_owned c)).
  split.
  - rewrite !fmap_insert. cbn [sh_of set_connected set_cm_id set_ctx ctx_owned ctx_ctx cm_id cm_context].
    rewrite Ho. by apply (core_close_endpoint (proj1 I) HI HX eq_refl Hz eq_refl HQ endpoint_only).
  - eapply counted_kept; [|by rewrite lookup_insert_ne|done|done].
    eapply counted_kept; [apply I|exact Hc|done|done].
Qed.
End Endpoint.

(** A closed object that nothing refers to leaves the heap. *)
Lemma inv_delete m w r x :
  inv m w → m !! r = Some x → sh_handle (sh_of x) = 0 →
  (∀ r2 y, r2 ≠ r → m !! r2 = Some y → r ∉ (snd <$> sh_parents (sh_of y))) → inv (delete r m) w.
Proof.
  intros [HC Hn] Hr H0 Hun. split.
  - rewrite fmap_delete. eapply core_delete; [done|by apply sh_lookup|done|].
    intros r2 S2 k Hne HS2 Hp. destruct (sh_lookup_inv _ _ HS2) as (y & Hy & ->).
    apply (Hun r2 y Hne Hy). apply list_elem_of_fmap. by exists (k, r).
  - apply counted_delete; [done|]. intros c. unfold at_key. rewrite Hr. by apply child_of_closed.
Qed.
End Methods.
