(* ===== verification/VerbsInvariant.v ===== *)
(** The methods of VerbsObjects, one by one, keep the invariant [Inv] of
    VerbsMethods. *)

From S2P Require Import Prelude Bytes Json.
From S2P Require Import Helpers.
From S2P Require Import VerbsLib VerbsValues VerbsPost.
From S2P Require Import VerbsObjects VerbsSafety VerbsMethods.
#[local] Open Scope Z_scope.

(** * Stepping through a method *)

Class PyClassLaws (O : Type) `{!PyClass O} :=
  of_obj_some : ∀ x (o : O), of_obj x = Some o → x = to_obj o.
Ltac class_laws := intros [] ?; cbn; intros; congruence.
#[global] Instance Context_laws : PyClassLaws Context. Proof. class_laws. Qed.
#[global] Instance PD_laws : PyClassLaws PD. Proof. class_laws. Qed.
#[global] Instance MR_laws : PyClassLaws MR. Proof. class_laws. Qed.
#[global] Instance CompChannel_laws : PyClassLaws CompChannel. Proof. class_laws. Qed.
#[global] Instance CQ_laws : PyClassLaws CQ. Proof. class_laws. Qed.
#[global] Instance QP_laws : PyClassLaws QP. Proof. class_laws. Qed.
#[global] Instance AH_laws : PyClassLaws AH. Proof. class_laws. Qed.
#[global] Instance SRQ_laws : PyClassLaws SRQ. Proof. class_laws. Qed.
#[global] Instance CMID_laws : PyClassLaws CMID. Proof. class_laws. Qed.
#[global] Instance AsyncEvent_laws : PyClassLaws AsyncEvent. Proof. class_laws. Qed.

Lemma fresh_ref_new (m : gmap nat PyObj) : m !! fresh_ref m = None.
Proof.
  assert (∀ r x, m !! r = Some x → (r < fresh_ref m)%nat) as H.
  { unfold fresh_ref. induction m as [|k x m Hk IH] using map_ind; intros r y Hy; [done|].
    rewrite map_fold_insert_L by (done || intros; lia).
    apply lookup_insert_Some in Hy as [[<- _]|[_ Hy]]; [lia|]. apply IH in Hy. lia. }
  destruct (m !! fresh_ref m) eqn:E; [|done]. apply H in E. lia.
Qed.

Section Steps.
Context {W : Type} `{!Libibverbs W}.
Abbreviation B := (Binding W).
Implicit Types (s : B) (E : exn → B → Prop).

Lemma wp_native {A} (f : W → A * W) (Q : A → B → Prop) E s :
  (∀ a w, f (b_world s) = (a, w) → Q a (set_world w s)) → wp (native f) Q E s.
Proof. intros H. unfold wp, native. destruct (f (b_world s)) as [a w] eqn:Hf. by apply H. Qed.

Lemma wp_peek {A} (f : W → A) (Q : A → B → Prop) E s : Q (f (b_world s)) s → wp (peek f) Q E s.
Proof. done. Qed.

Lemma wp_load {O} `{!PyClass O} `{!PyClassLaws O} r (Q : O → B → Prop) E s :
  (∀ o, b_heap s !! r = Some (to_obj o) → Q o s) → E TypeError s → wp (load r) Q E s.
Proof.
  intros HQ HE. unfold wp, load. destruct (b_heap s !! r) as [x|] eqn:Hx; [|done]. cbn.
  destruct (of_obj x) as [o|] eqn:Ho; [|done]. apply HQ. by rewrite (of_obj_some _ _ Ho).
Qed.

Lemma wp_store {O} `{!PyClass O} r (o : O) (Q : unit → B → Prop) E s :
  Q tt (set_heap (<[r := to_obj o]> (b_heap s)) s) → wp (store r o) Q E s.
Proof. done. Qed.

Lemma wp_update_obj {O} `{!PyClass O} `{!PyClassLaws O} r (f : O → O) (Q : unit → B → Prop) E s :
  (∀ o, b_heap s !! r = Some (to_obj o) → Q tt (set_heap (<[r := to_obj (f o)]> (b_heap s)) s)) →
  E TypeError s → wp (update r f) Q E s.
Proof. intros HQ HE. unfold update. apply wp_bind, wp_load; [|done]. apply HQ. Qed.

(** An update of an object that is known to be there. *)
Lemma wp_update_at {O} `{!PyClass O} `{!PyClassLaws O} r (f : O → O) o (Q : unit → B → Prop) E s :
  b_heap s !! r = Some (to_obj o) → of_obj (to_obj o) = Some o →
  Q tt (set_heap (<[r := to_obj (f o)]> (b_heap s)) s) → wp (update r f) Q E s.
Proof.
  intros Hr Ho HQ. unfold update, wp, mbind, M_bind, load. rewrite Hr. cbn. by rewrite Ho.
Qed.

Lemma wp_new {O} `{!PyClass O} (o : O) (Q : nat → B → Prop) E s :
  Q (fresh_ref (b_heap s)) (set_heap (<[fresh_ref (b_heap s) := to_obj o]> (b_heap s)) s) →
  wp (new o) Q E s.
Proof. done. Qed.

Lemma wp_ensure h (Q : unit → B → Prop) E s :
  (h ≠ 0 → Q tt s) → (∀ e, E e s) → wp (ensure h) Q E s.
Proof.
  intros HQ HE. unfold ensure. apply wp_guard_raise. destruct (h =? 0) eqn:Eh; [done|]. apply HQ. lia.
Qed.

Lemma wp_fail {A} (Q : A → B → Prop) E s : (∀ e, E e s) → wp _fail Q E s.
Proof. intros HE. apply HE. Qed.

Lemma wp_check_rc rc (Q : unit → B → Prop) E s :
  (rc = 0 → Q tt s) → (rc ≠ 0 → ∀ e, E e s) → wp (check_rc rc) Q E s.
Proof.
  intros HQ HE. unfold check_rc. destruct (rc =? 0) eqn:Er; [apply HQ; lia|]. apply HE. lia.
Qed.

Lemma wp_check_null p (Q : unit → B → Prop) E s :
  (p ≠ 0 → Q tt s) → (p = 0 → ∀ e, E e s) → wp (check_null p) Q E s.
Proof.
  intros HQ HE. unfold check_null. destruct (p =? 0) eqn:Er; [apply HE; lia|]. apply HQ. lia.
Qed.

Lemma wp_guard c e (Q : unit → B → Prop) E s :
  (c = false → Q tt s) → (c = true → E e s) → wp (guard_raise c e) Q E s.
Proof. intros HQ HE. apply wp_guard_raise. destruct c; auto. Qed.

Lemma wp_c_int v (Q : Z → B → Prop) E s : (∀ u, Q u s) → (∀ e, E e s) → wp (c_int v) Q E s.
Proof. intros HQ HE. unfold c_int. apply wp_lift. by destruct (to_int v). Qed.

Lemma wp_c_uint b v (Q : Z → B → Prop) E s :
  (0 ≤ v < 2 ^ b → Q v s) → (∀ e, E e s) → wp (c_uint b v) Q E s.
Proof.
  intros HQ HE. unfold c_uint. apply wp_lift. destruct (to_uint b v) as [u|] eqn:Hu; [|done].
  apply to_uint_ok in Hu as [-> Hv]. by apply HQ.
Qed.

Lemma wp_lift' {A} (r : result A) (Q : A → B → Prop) E s :
  (∀ a, r = Ok a → Q a s) → (∀ e, E e s) → wp (lift r) Q E s.
Proof. intros HQ HE. apply wp_lift. destruct r; auto. Qed.

(** [if rc != 0: _fail(op)] *)
Lemma wp_if_fail c (Q : unit → B → Prop) E s :
  (c = false → Q tt s) → (c = true → ∀ e, E e s) → wp (if c then _fail else mret tt) Q E s.
Proof. intros HQ HE. destruct c; [by apply HE|by apply HQ]. Qed.
End Steps.

(** One step of a method; what it raises leaves the state as it is. *)
Ltac raised := try (intros; assumption).
Ltac step :=
  lazymatch goal with
  | |- wp (native _ ≫= _) _ _ _ => fail
  | |- wp (_ ≫= _) _ _ _ => apply wp_bind; cbv beta
  | |- wp (mret _) _ _ _ => apply wp_ret
  | |- wp get _ _ _ => apply wp_get
  | |- wp (load _) _ _ _ => apply wp_load; [|raised]; intros ? ?
  | |- wp (peek _) _ _ _ => apply wp_peek
  | |- wp (ensure _) _ _ _ => apply wp_ensure; [intros ?|raised]
  | |- wp (ctx_ensure _) _ _ _ => apply wp_ensure; [intros ?|raised]
  | |- wp (pd_ensure _) _ _ _ => apply wp_ensure; [intros ?|raised]
  | |- wp (mr_ensure _) _ _ _ => apply wp_ensure; [intros ?|raised]
  | |- wp (chan_ensure _) _ _ _ => apply wp_ensure; [intros ?|raised]
  | |- wp (cq_ensure _) _ _ _ => apply wp_ensure; [intros ?|raised]
  | |- wp (qp_ensure _) _ _ _ => apply wp_ensure; [intros ?|raised]
  | |- wp (srq_ensure _) _ _ _ => apply wp_ensure; [intros ?|raised]
  | |- wp (cm_ensure _) _ _ _ => apply wp_ensure; [intros ?|raised]
  | |- wp (c_int _) _ _ _ => apply wp_c_int; [intros ?|raised]
  | |- wp (c_uint _ _) _ _ _ => apply wp_c_uint; [intros ?|raised]
  | |- wp (guard_raise _ _) _ _ _ => apply wp_guard; [intros ?|raised]
  | |- wp (check_rc _) _ _ _ => apply wp_check_rc; [intros ?|raised]
  | |- wp (check_null _) _ _ _ => apply wp_check_null; [intros ?|raised]
  | |- wp (if _ then _fail else mret tt) _ _ _ => apply wp_if_fail; [intros ?|raised]
  | |- wp (lift _) _ _ _ => apply wp_lift'; [intros ? ?|raised]
  | |- wp (raise _) _ _ _ => apply wp_raise
  | |- wp _fail _ _ _ => apply wp_fail
  | |- wp (let '(_, _) := ?p in _) _ _ _ => destruct p
  end.
Ltac steps := repeat step.

Section Invariant.
Context {W : Type} `{!Libibverbs W} `{!LibibverbsLaws W}.
Abbreviation B := (Binding W).
Implicit Types (m : gmap nat PyObj) (w : W) (s : B).

(** A method that keeps the invariant, whether it returns or raises. *)
Definition safe {A} (f : M B A) : Prop := ∀ s, Inv s → wp f (λ _, Inv) (λ _, Inv) s.

(** A call that changes no native object. *)
Lemma wp_kept {A} (f : W → A * W) (Q : A → B → Prop) E s :
  Inv s → keeps live intact (b_world s) (f (b_world s)).2 →
  (∀ a s', b_heap s' = b_heap s → b_syms s' = b_syms s → Inv s' → Q a s') →
  wp (native f) Q E s.
Proof.
  intros I Hk HQ. apply wp_native. intros a w Hf. apply HQ; [done|done|].
  rewrite Hf in Hk. by eapply inv_keeps.
Qed.

(** An object is alive by its handle. *)
Lemma inv_handle s r x (P : NKind → bool) :
  Inv s → b_heap s !! r = Some x → sh_handle (sh_of x) ≠ 0 →
  P (native_kind r (sh_kind (sh_of x))) = true →
  alive (live (b_world s)) P (sh_handle (sh_of x)).
Proof. intros I. by apply (inv_alive I). Qed.

Lemma inv_intact s : Inv s → intact (b_world s).
Proof. intros [C _]. apply (core_intact _ _ C). Qed.

Lemma alive_context s r o :
  Inv s → b_heap s !! r = Some (OContext o) → ctx_ctx o ≠ 0 →
  alive (live (b_world s)) is_context (ctx_ctx o).
Proof. intros I Hr Hh. apply (inv_handle s r (OContext o)); [done..|]. cbn. by destruct (ctx_owned o). Qed.
Lemma alive_pd s r o :
  Inv s → b_heap s !! r = Some (OPD o) → pd_pd o ≠ 0 →
  alive (live (b_world s)) (only KPD) (pd_pd o).
Proof. intros I Hr Hh. by apply (inv_handle s r (OPD o)). Qed.
Lemma alive_mr s r o :
  Inv s → b_heap s !! r = Some (OMR o) → mr_mr o ≠ 0 →
  alive (live (b_world s)) (only KMR) (mr_mr o).
Proof. intros I Hr Hh. by apply (inv_handle s r (OMR o)). Qed.
Lemma alive_chan s r o :
  Inv s → b_heap s !! r = Some (OCompChannel o) → chan_chan o ≠ 0 →
  alive (live (b_world s)) (only KChannel) (chan_chan o).
Proof. intros I Hr Hh. by apply (inv_handle s r (OCompChannel o)). Qed.
Lemma alive_cq s r o :
  Inv s → b_heap s !! r = Some (OCQ o) → cq_cq o ≠ 0 →
  alive (live (b_world s)) is_cq (cq_cq o).
Proof. intros I Hr Hh. by apply (inv_handle s r (OCQ o)). Qed.
Lemma alive_qp s r o :
  Inv s → b_heap s !! r = Some (OQP o) → qp_qp o ≠ 0 →
  alive (live (b_world s)) is_qp (qp_qp o).
Proof. intros I Hr Hh. by apply (inv_handle s r (OQP o)). Qed.
Lemma alive_ah s r o :
  Inv s → b_heap s !! r = Some (OAH o) → ah_ah o ≠ 0 →
  alive (live (b_world s)) (only KAH) (ah_ah o).
Proof. intros I Hr Hh. by apply (inv_handle s r (OAH o)). Qed.
Lemma alive_srq s r o :
  Inv s → b_heap s !! r = Some (OSRQ o) → srq_srq o ≠ 0 →
  alive (live (b_world s)) (only KSRQ) (srq_srq o).
Proof. intros I Hr Hh. by apply (inv_handle s r (OSRQ o)). Qed.
Lemma alive_cm s r o :
  Inv s → b_heap s !! r = Some (OCMID o) → cm_id o ≠ 0 →
  alive (live (b_world s)) (only KCmId) (cm_id o).
Proof. intros I Hr Hh. by apply (inv_handle s r (OCMID o)). Qed.
End Invariant.

Create HintDb verbs.
#[export] Hint Resolve inv_intact alive_context alive_pd alive_mr alive_chan alive_cq alive_qp
  alive_ah alive_srq alive_cm : verbs.

(** A call covered by a law, on handles of open objects. *)
Ltac calls law :=
  try (apply wp_bind; cbv beta); apply wp_kept; [assumption|apply law; eauto with verbs|];
  intros ? ?s' ?Hheap ?Hsyms ?I.
(** What was loaded before a call that leaves the heap alone is still there. *)
Ltac carry :=
  match goal with
  | Hh : b_heap ?s' = b_heap ?s, I : Inv ?s' |- _ =>
      repeat match goal with H : b_heap s !! _ = _ |- _ => rewrite <-Hh in H end; clear Hh
  end.

Section Queries.
Context {W : Type} `{!Libibverbs W} `{!LibibverbsLaws W}.

Lemma query_device_safe r : safe (query_device r).
Proof.
  intros s I. unfold query_device. steps. calls law_query_device. steps.
  destruct (_ =? 0); steps; assumption.
Qed.

Lemma query_port_safe r port : safe (query_port r port).
Proof. intros s I. unfold query_port. steps. calls law_query_port. steps. assumption. Qed.

Lemma query_gid_safe r port i : safe (query_gid r port i).
Proof. intros s I. unfold query_gid. steps. calls law_query_gid. steps. assumption. Qed.

Lemma poll_safe r n : safe (poll r n).
Proof. intros s I. unfold poll. steps. calls law_poll_cq. steps. assumption. Qed.

Lemma req_notify_safe r b : safe (req_notify r b).
Proof. intros s I. unfold req_notify. steps. calls law_req_notify_cq. steps. assumption. Qed.

Lemma QP_state_safe r : safe (QP_state r).
Proof.
  intros s I. unfold QP_state. steps. calls law_query_qp. destruct a as [rc [a c]]. steps. assumption.
Qed.

Lemma QP_query_safe r : safe (QP_query r).
Proof.
  intros s I. unfold QP_query. steps. calls law_query_qp. destruct a as [rc [a c]]. steps. assumption.
Qed.

Lemma QP_modify_safe r mask ah known fields : safe (QP_modify r mask ah known fields).
Proof. intros s I. unfold QP_modify. steps. calls law_modify_qp. steps. assumption. Qed.

Lemma to_rtr_safe r remote sgid mtu hop timer drd sl tc :
  safe (to_rtr r remote sgid mtu hop timer drd sl tc).
Proof.
  intros s I. unfold to_rtr. steps. destruct (_ =? _QPT_UD); steps; calls law_modify_qp; steps; assumption.
Qed.

Lemma to_rts_safe r psn tmo retry rnr rd : safe (to_rts r psn tmo retry rnr rd).
Proof. intros s I. unfold to_rts. steps. calls law_modify_qp. steps. assumption. Qed.

Lemma SRQ_query_safe r : safe (SRQ_query r).
Proof. intros s I. unfold SRQ_query. steps. calls law_query_srq. steps. assumption. Qed.

Lemma SRQ_modify_safe r wr lim : safe (SRQ_modify r wr lim).
Proof.
  intros s I. unfold SRQ_modify. steps. destruct wr, lim; steps; calls law_modify_srq; steps; assumption.
Qed.
End Queries.

Section Fields.
Context {W : Type} `{!Libibverbs W} `{!LibibverbsLaws W}.
Abbreviation B := (Binding W).
Implicit Types (s : B).

Lemma Inv_field s r x x' :
  Inv s → b_heap s !! r = Some x → sh_of x' = sh_of x → kids x' = kids x →
  (∀ c, child_of c x' = child_of c x) → Inv (set_heap (<[r := x']> (b_heap s)) s).
Proof. apply inv_field. Qed.

Lemma to_init_safe r port access pkey qk : safe (to_init r port access pkey qk).
Proof.
  intros s I. unfold to_init. steps.
  apply wp_update_obj; [|done]. intros q Hq.
  assert (I' : Inv (set_heap (<[r := to_obj (set_port u q)]> (b_heap s)) s)).
  { by eapply Inv_field. }
  steps. apply wp_bind, wp_kept; [done| |].
  - assert (o = q) as -> by (cbn in *; congruence). apply law_modify_qp; [by apply inv_intact|].
    by apply (alive_qp s r).
  - intros rc s' _ _ I2. steps. done.
Qed.

Lemma ack_async_event_safe r e : safe (ack_async_event r e).
Proof.
  intros s I. unfold ack_async_event. steps. destruct (ev_acked _); steps; [done|].
  unfold native_. apply wp_kept; [done|by apply law_ack_async_event, inv_intact|].
  intros [] s' Hh _ I'. apply wp_store. eapply Inv_field; [done|by rewrite Hh|done..].
Qed.

Lemma MR_keepalive_safe r owner : safe (MR_keepalive r owner).
Proof. intros s I. unfold MR_keepalive. apply wp_update_obj; [|done]. intros o Ho. by eapply Inv_field. Qed.

Lemma connect_safe r data a b c d : safe (connect r data a b c d).
Proof.
  intros s I. unfold connect. steps.
  assert (Hloop : ∀ l, wp (for_each (λ v, guard_raise (negb (in_byte v)) ValueError) l)
                    (λ _ s', s' = s) (λ _, Inv) s).
  { induction l as [|v l IH]; [done|]. cbn [for_each]. by steps. }
  eapply wp_mono; [apply Hloop| |done]. intros [] s' ->. steps.
  calls law_cm_connect. steps. apply wp_update_obj; [|done]. intros q Hq. steps. by eapply Inv_field.
Qed.

Lemma disconnect_safe r : safe (disconnect r).
Proof.
  intros s I. unfold disconnect. steps. destruct (negb _); steps; [done|].
  calls law_cm_disconnect. steps. apply wp_update_obj; [|done]. intros q Hq. by eapply Inv_field.
Qed.

Lemma set_external_cq_safe b r : safe (set_external_cq b r).
Proof.
  intros s I. unfold set_external_cq. apply wp_update_obj; [|done]. intros q Hq. by eapply Inv_field.
Qed.

Lemma add_cq_users_safe n r : safe (add_cq_users n r).
Proof. intros s I. unfold add_cq_users. apply wp_update_obj; [|done]. intros q Hq. by eapply Inv_field. Qed.

Lemma add_users_safe n r : safe (add_users n r).
Proof.
  intros s I. unfold add_users. steps. apply wp_store. step.
  eapply wp_mono; [apply add_cq_users_safe; by eapply Inv_field| |done]. intros [] s' I'.
  destruct (negb _); [by apply add_cq_users_safe|by steps].
Qed.

Lemma acquire_safe r : safe (_acquire_external_datapath r).
Proof. intros s I. unfold _acquire_external_datapath. steps. by apply add_users_safe. Qed.

Lemma release_safe r : safe (_release_external_datapath r).
Proof. intros s I. unfold _release_external_datapath. steps. by apply add_users_safe. Qed.

(** A dlopen changes none of the objects. *)
Lemma load_mlx5_safe : safe _load_mlx5dv_init_obj.
Proof.
  intros s I. unfold _load_mlx5dv_init_obj. steps. destruct (negb _); steps; [done|].
  apply wp_bind, wp_kept; [done|by apply law_dl_open, inv_intact|]. intros h s' _ _ I'. steps.
  apply wp_modify. steps. apply wp_modify. steps. done.
Qed.

(** Loading the symbols of a library. *)
Lemma load_sym_safe h n : safe (load_sym h n).
Proof.
  intros s I. unfold load_sym, _req_sym, set_sym. steps. by apply wp_modify.
Qed.

Lemma load_syms_safe h l : safe (for_each (load_sym h) l).
Proof.
  intros s I. revert s I. induction l as [|n l IH]; intros s I; [done|]. cbn [for_each].
  step. eapply wp_mono; [by apply load_sym_safe| |done]. intros [] s' I'. by apply IH.
Qed.

Lemma load_librdmacm_safe : safe _load_librdmacm.
Proof.
  intros s I. unfold _load_librdmacm. steps. destruct (negb _); steps; [done|].
  apply wp_bind, wp_kept; [done|by apply law_dl_open, inv_intact|]. intros h s' _ _ I'. steps.
  eapply wp_mono; [by apply load_syms_safe| |done]. intros [] s2 I2. by apply wp_modify.
Qed.

(** The objects of the heap are not touched by a load. *)
Lemma load_mlx5_heap s : b_heap (_load_mlx5dv_init_obj s).2 = b_heap s.
Proof.
  unfold _load_mlx5dv_init_obj, mbind, M_bind, get. cbn. destruct (negb _); [done|].
  unfold native. destruct (dl_open _ _) as [h w]. cbn. destruct (h =? 0); [done|]. cbn.
  by destruct (_ =? 0).
Qed.

(** What a loaded object becomes after a call that leaves the heap alone. *)
Lemma open_parent s r x k p y :
  Inv s → b_heap s !! r = Some x → sh_handle (sh_of x) ≠ 0 → (k, p) ∈ sh_parents (sh_of x) →
  b_heap s !! p = Some y → sh_handle (sh_of y) ≠ 0.
Proof.
  intros I Hr Hh Hp Hy. destruct (inv_parent I _ _ _ _ Hr Hp) as (z & Hz & _ & Ho).
  assert (z = y) as -> by congruence. by apply Ho.
Qed.

Lemma bridge_safe r : safe (_mlx5dv_bridge_info r).
Proof.
  intros s I. unfold _mlx5dv_bridge_info. do 18 step.
  assert (Hload : wp _load_mlx5dv_init_obj (λ _ t, Inv t ∧ b_heap t = b_heap s) (λ _, Inv) s).
  { pose proof (load_mlx5_safe s I) as Hl. pose proof (load_mlx5_heap s) as Hh. revert Hl Hh.
    unfold wp. destruct (_load_mlx5dv_init_obj s) as [[] t]; cbn; auto. }
  assert (Hs : cq_cq o0 ≠ 0).
  { apply (open_parent s r (OQP o) LCQ (qp_send_cq o) (OCQ o0)); try done. set_solver. }
  assert (Hr : cq_cq o1 ≠ 0).
  { apply (open_parent s r (OQP o) LCQ (qp_recv_cq o) (OCQ o1)); try done. set_solver. }
  step. eapply wp_mono; [exact Hload| |done]. intros _ t [It Hheap]. carry.
  calls law_mlx5_qp_info. carry. steps. calls law_mlx5_cq_info. carry. steps.
  assert (Hend : ∀ qi sci rci t', b_heap t' = b_heap s'0 → Inv t' →
    wp (update r (λ q, set_qp_external true (qp_external_users q) q);;
        set_external_cq true (qp_send_cq o);;
        set_external_cq true (qp_recv_cq o);;
        qpn ← peek (λ w, v_qp_num w (qp_qp o));
        mret (bridge_dict qpn qi sci rci)) (λ _, Inv) (λ _, Inv) t').
  { intros qi sci rci t' Ht' It'. step. apply wp_update_obj; [|done]. intros q Hq. step.
    eapply wp_mono; [apply set_external_cq_safe; by eapply Inv_field| |done]. intros [] t2 I2. step.
    eapply wp_mono; [by apply set_external_cq_safe| |done]. intros [] t3 I3. by steps. }
  destruct (_ =? _)%nat; [steps; by refine (proj1 (wp_bind _ _ _ _ _) (Hend _ _ _ _ _ _))|].
  steps. calls law_mlx5_cq_info. steps. by refine (proj1 (wp_bind _ _ _ _ _) (Hend _ _ _ _ _ _)).
Qed.
End Fields.

(** * Creations *)

Section Creations.
Context {W : Type} `{!Libibverbs W} `{!LibibverbsLaws W}.
Abbreviation B := (Binding W).
Implicit Types (m : gmap nat PyObj) (w : W) (s : B).

Lemma Inv_keeps s w : Inv s → keeps live intact (b_world s) w → Inv (set_world w s).
Proof. intros I Hk. by apply (inv_keeps _ (b_world s)). Qed.

Lemma open_at_of m p y :
  m !! p = Some y → sh_handle (sh_of y) ≠ 0 → open_at (sh_of <$> m) (kcls (sh_kind (sh_of y))) p.
Proof. intros Hp Hh. exists (sh_of y). by rewrite (sh_lookup _ _ Hp). Qed.

(** A creation that returns NULL leaves everything; [_fail] raises. *)
Lemma wp_create (f : W → Z * W) k deps (Q : nat → B → Prop) E s (g : Z → M B nat) :
  Inv s → creates live intact k deps (b_world s) (f (b_world s)) →
  (∀ e t, Inv t → E e t) →
  (∀ h w, h ≠ 0 → creates live intact k deps (b_world s) (h, w) → wp (g h) Q E (set_world w s)) →
  wp (h ← native f; check_null h;; g h) Q E s.
Proof.
  intros I Hc HE Hg. apply wp_bind, wp_native. intros h w Hf. rewrite Hf in Hc.
  step. apply wp_check_null; [by intros; apply Hg|]. intros -> e. apply HE, Inv_keeps; [done|].
  destruct Hc as [Hi [[_ Hl]|[? _]]]; done.
Qed.

(** An object created from one parent. *)
Lemma fits_one m w h w' k r x p y :
  creates live intact k [sh_handle (sh_of y)] w (h, w') → h ≠ 0 → m !! r = None →
  sh_of x = mk_Shape k h [(kcls (sh_kind (sh_of y)), p)] →
  native_kind r k = k → is_context k = false → k ≠ KCmId → (∀ cm, k ≠ KQP cm) →
  m !! p = Some y → sh_handle (sh_of y) ≠ 0 →
  fits m w h w' k [sh_handle (sh_of y)] r x.
Proof.
  intros Hc Hh Hr Hx Hk Hk1 Hk2 Hk3 Hp Hy. constructor; try done; rewrite Hx; cbn; try done.
  - by rewrite (hd_handle _ _ Hp).
  - intros kp q Hin%list_elem_of_singleton. injection Hin as -> ->. by apply open_at_of.
  - intros cm Hcm. by destruct (Hk3 cm).
Qed.

(** The end of [reg_mr], [create_ah] and [create_srq]. *)
Lemma make_leaf {O} `{!PyClass O} (x : Z → O) f k p y s :
  Inv s → b_heap s !! p = Some y → sh_handle (sh_of y) ≠ 0 →
  creates live intact k [sh_handle (sh_of y)] (b_world s) (f (b_world s)) →
  (∀ h, sh_of (to_obj (x h)) = mk_Shape k h [(kcls (sh_kind (sh_of y)), p)]) →
  (∀ r, native_kind r k = k) → is_context k = false → k ≠ KCmId → (∀ cm, k ≠ KQP cm) →
  (∀ h, kids (to_obj (x h)) = None) → (∀ h c, child_of c (to_obj (x h)) = 0) →
  wp (h ← native f; check_null h;; new (x h)) (λ _, Inv) (λ _, Inv) s.
Proof.
  intros I Hp Hy Hc Hx Hk Hk1 Hk2 Hk3 Hkids Hchild.
  apply (wp_create _ k [sh_handle (sh_of y)]); [done|done|done|].
  intros h w Hh Hcr. apply wp_new. eapply inv_create; [exact I| |done|done].
  eapply fits_one; try done. apply fresh_ref_new.
Qed.

Lemma reg_mr_safe r a l acc : safe (reg_mr r a l acc).
Proof.
  intros s I. unfold reg_mr, MR_wrap. steps.
  eapply (make_leaf (λ h, mk_MR h r None) _ KMR r (OPD o)); try done.
  apply law_reg_mr; eauto with verbs.
Qed.

Lemma reg_dmabuf_mr_safe r off l iova fd acc : safe (reg_dmabuf_mr r off l iova fd acc).
Proof.
  intros s I. unfold reg_dmabuf_mr, MR_wrap. steps.
  eapply (make_leaf (λ h, mk_MR h r None) _ KMR r (OPD o)); try done.
  apply law_reg_dmabuf_mr; eauto with verbs.
Qed.

Lemma create_ah_safe r attr : safe (create_ah r attr).
Proof.
  intros s I. unfold create_ah. steps.
  eapply (make_leaf (λ h, mk_AH h r) _ KAH r (OPD o)); try done.
  apply law_create_ah; eauto with verbs.
Qed.

Lemma create_srq_safe r a b c : safe (create_srq r a b c).
Proof.
  intros s I. unfold create_srq. steps.
  eapply (make_leaf (λ h, mk_SRQ h r) _ KSRQ r (OPD o)); try done.
  apply law_create_srq; eauto with verbs.
Qed.

(** The end of [alloc_pd], [create_comp_channel] and [create_cq]: the object, then the
    count of its context. *)
Lemma make_child {O} `{!PyClass O} (x : O) k deps h w c o s :
  Inv s → b_heap s !! c = Some (OContext o) →
  fits (b_heap s) (b_world s) h w k deps (fresh_ref (b_heap s)) (to_obj x) →
  kids (to_obj x) = None → (∀ c', child_of c' (to_obj x) = if decide (c' = c) then 1 else 0) →
  wp (r ← new x; _add_child c;; mret r) (λ _, Inv) (λ _, Inv) (set_world w s).
Proof.
  intros I Ho F Hk Hc. step. apply wp_new. step. unfold _add_child.
  pose proof (fresh_ref_new (b_heap s)) as Hr.
  eapply wp_update_at; [|done|].
  - cbn. rewrite lookup_insert_ne; [exact Ho|congruence].
  - step. cbn. unfold Inv. cbn. by eapply inv_create_child.
Qed.

Lemma child_at h c c' (P : bool) :
  h ≠ 0 → P = (c =? c')%nat → (if negb (h =? 0) && P then 1 else 0) = (if decide (c' = c) then 1 else 0).
Proof. intros Hh ->. case_decide; destruct (Nat.eqb_spec c c'), (Z.eqb_spec h 0); try done; congruence. Qed.

Lemma alloc_pd_safe r : safe (alloc_pd r).
Proof.
  intros s I. unfold alloc_pd, PD_wrap. steps.
  apply (wp_create _ KPD [ctx_ctx o]); [done|apply law_alloc_pd; eauto with verbs|done|].
  intros h w Hh Hc. eapply make_child; [done|done| |done|].
  - apply (fits_one _ _ _ _ _ _ _ r (OContext o)); try done; [apply fresh_ref_new|].
    cbn. by destruct (ctx_owned o).
  - intros c'. by apply child_at.
Qed.

Lemma create_comp_channel_safe r : safe (create_comp_channel r).
Proof.
  intros s I. unfold create_comp_channel, CompChannel_wrap. steps.
  apply (wp_create _ KChannel [ctx_ctx o]); [done|apply law_create_comp_channel; eauto with verbs|done|].
  intros h w Hh Hc. eapply make_child; [done|done| |done|].
  - apply (fits_one _ _ _ _ _ _ _ r (OContext o)); try done; [apply fresh_ref_new|].
    cbn. by destruct (ctx_owned o).
  - intros c'. by apply child_at.
Qed.

(** The channel given to [create_cq] is open, or there is none. *)
Definition channel_ok s (channel : option nat) (h : Z) : Prop :=
  match channel with
  | None => h = 0
  | Some ch => ∃ c, b_heap s !! ch = Some (OCompChannel c) ∧ chan_chan c = h ∧ h ≠ 0
  end.

Lemma wp_channel self channel s :
  Inv s → wp (cq_channel_handle self channel) (λ h t, t = s ∧ channel_ok s channel h) (λ _, Inv) s.
Proof.
  intros I. unfold cq_channel_handle. destruct channel as [ch|]; [|by steps].
  steps. split; [done|]. eexists. split; [done|]. done.
Qed.

Lemma create_cq_safe r cqe channel vec : safe (create_cq r cqe channel vec).
Proof.
  intros s I. unfold create_cq. steps.
  eapply wp_mono; [by apply wp_channel| |done]. intros chp t [-> Hch]. steps.
  set (x := fresh_ref (b_heap s)). 
  assert (Halive : chp = 0 ∨ alive (live (b_world s)) (only KChannel) chp).
  { destruct channel as [ch|]; [right|by left]. destruct Hch as (c & Hc & <- & Hz). eauto with verbs. }
  apply (wp_create _ (KCQ x 0) (cq_deps (ctx_ctx o) chp));
    [done|apply law_create_cq; eauto with verbs|done|].
  intros h w Hh Hc. eapply make_child; [done|done| |done|].
  - constructor; try done; [apply fresh_ref_new| |].
    + cbn. rewrite (hd_handle _ _ H). unfold cq_deps. cbn. f_equal.
      destruct channel as [ch|]; cbn in Hch; [|by subst].
      destruct Hch as (c & Hcc & <- & Hz). cbn. rewrite (hd_handle _ _ Hcc). cbn.
      by replace (chan_chan c =? 0) with false by lia.
    + intros kp p Hin. cbn in Hin. apply elem_of_cons in Hin as [[= -> ->]|Hin].
      * pose proof (open_at_of _ _ _ H H0) as Ho. cbn in Ho. by destruct (ctx_owned o).
      * destruct channel as [ch|]; [|by apply not_elem_of_nil in Hin]. cbn in Hin.
        apply list_elem_of_singleton in Hin as [= -> ->]. destruct Hch as (c & Hcc & <- & Hz).
        by apply (open_at_of _ _ _ Hcc).
  - intros c'. by apply child_at.
Qed.
End Creations.

(** * Queue pairs *)

Section QueuePairs.
Context {W : Type} `{!Libibverbs W} `{!LibibverbsLaws W}.
Abbreviation B := (Binding W).
Implicit Types (m : gmap nat PyObj) (w : W) (s : B).

(** The open queues whose handles are [h]. *)
Definition queues_ok m (ctx pd : nat) (i : QPInitAttr) (h : Z * Z * Z) : Prop :=
  (∃ c, m !! qia_send_cq i = Some (OCQ c) ∧ cq_cq c = h.1.1 ∧ cq_context c = ctx) ∧
  (∃ c, m !! qia_recv_cq i = Some (OCQ c) ∧ cq_cq c = h.1.2 ∧ cq_context c = ctx) ∧
  h.1.1 ≠ 0 ∧ h.1.2 ≠ 0 ∧
  match qia_srq i with
  | None => h.2 = 0
  | Some r => h.2 ≠ 0 ∧ ∃ q, m !! r = Some (OSRQ q) ∧ srq_srq q = h.2 ∧ srq_pd q = pd
  end.

Lemma wp_queues ctx pd i s :
  Inv s → wp (qp_queues ctx pd i) (λ h t, t = s ∧ queues_ok (b_heap s) ctx pd i h) (λ _, Inv) s.
Proof.
  intros I. unfold qp_queues, queues_ok. steps.
  match goal with H : negb _ || negb _ = false |- _ => apply orb_false_iff in H as [E1 E2] end.
  apply negb_false_iff, Nat.eqb_eq in E1, E2.
  destruct (qia_srq i) as [r|]; steps; (split; [done|]); cbn; split_and!; eauto.
  match goal with H : negb _ = false |- _ => apply negb_false_iff, Nat.eqb_eq in H end. eauto.
Qed.

Lemma queues_alive s ctx pd i h :
  Inv s → queues_ok (b_heap s) ctx pd i h →
  alive (live (b_world s)) is_cq h.1.1 ∧ alive (live (b_world s)) is_cq h.1.2 ∧
  (h.2 = 0 ∨ alive (live (b_world s)) (only KSRQ) h.2).
Proof.
  intros I ((c1 & H1 & E1 & _) & (c2 & H2 & E2 & _) & N1 & N2 & Hs). rewrite <-E1 in *. rewrite <-E2 in *.
  split_and!; [eauto with verbs..|]. destruct (qia_srq i) as [r|]; [right|by left].
  destruct Hs as (N3 & q & H3 & E3 & _). rewrite <-E3 in *. eauto with verbs.
Qed.

Lemma fill_fields scq rcq srq ty i a :
  fill_qp_init_attr scq rcq srq ty i = Ok a → ia_send_cq a = scq ∧ ia_recv_cq a = rcq ∧ ia_srq a = srq.
Proof.
  unfold fill_qp_init_attr, mbind, result_bind. intros H.
  repeat case_match; by simplify_eq.
Qed.

(** A queue pair of [pd] on those queues, of an endpoint or of none. *)
Lemma fits_qp m w h w' r pd p ctx i scq rcq srq a cm owner port b n :
  creates live intact (KQP cm) (qp_deps (pd_pd p) a cm) w (h, w') → h ≠ 0 → m !! r = None →
  m !! pd = Some (OPD p) → pd_pd p ≠ 0 → queues_ok m ctx pd i ((scq, rcq), srq) →
  ia_send_cq a = scq ∧ ia_recv_cq a = rcq ∧ ia_srq a = srq →
  match owner with
  | None => cm = 0
  | Some e => cm ≠ 0 ∧ ∃ o, m !! e = Some (OCMID o) ∧ cm_id o = cm
  end →
  fits m w h w' (KQP cm) (qp_deps (pd_pd p) a cm) r
    (OQP (mk_QP h pd (qia_send_cq i) (qia_recv_cq i) (qia_srq i) port cm owner b n)).
Proof.
  intros Hc Hh Hr Hpd Hp ((c1 & H1 & E1 & _) & (c2 & H2 & E2 & _) & N1 & N2 & Hs) (A1 & A2 & A3) Ho.
  cbn in E1, E2, N1, N2, Hs. constructor; try done.
  - cbn. rewrite (hd_handle _ _ Hpd), (hd_handle _ _ H1), (hd_handle _ _ H2). unfold qp_deps. cbn.
    rewrite A1, A2, A3, E1, E2, fmap_app. do 3 f_equal. f_equal.
    + destruct (qia_srq i) as [q|]; cbn; [|by subst].
      destruct Hs as (N3 & o & H3 & E3 & _). rewrite (hd_handle _ _ H3). cbn. rewrite E3.
      by replace (srq =? 0) with false by lia.
    + destruct owner as [e|]; cbn; [|by subst]. destruct Ho as (N4 & o & H4 & E4).
      rewrite (hd_handle _ _ H4). cbn. rewrite E4. by replace (cm =? 0) with false by lia.
  - intros kp q Hin. cbn in Hin.
    repeat (apply elem_of_cons in Hin as [[= -> ->]|Hin];
            [first [exact (open_at_of _ _ _ Hpd Hp)
                   |apply (open_at_of _ _ _ H1); cbn; congruence
                   |apply (open_at_of _ _ _ H2); cbn; congruence]|]).
    apply elem_of_app in Hin as [Hin|Hin]; apply list_elem_of_fmap in Hin as (y & [= -> ->] & Hy).
    + destruct (qia_srq i) as [z|]; [|by apply not_elem_of_nil in Hy].
      apply list_elem_of_singleton in Hy as ->. destruct Hs as (N3 & o & H3 & E3 & _).
      apply (open_at_of _ _ _ H3). cbn. congruence.
    + destruct owner as [e|]; [|by apply not_elem_of_nil in Hy].
      apply list_elem_of_singleton in Hy as ->. destruct Ho as (N4 & o & H4 & E4).
      apply (open_at_of _ _ _ H4). cbn. congruence.
  - intros cm' [= <-]. destruct (cm =? 0) eqn:Ec.
    + intros z Hin. cbn in Hin. destruct owner as [e|]; [lia|]. cbn in Hin. rewrite app_nil_r in Hin.
      repeat (apply elem_of_cons in Hin as [[=]|Hin]).
      by apply list_elem_of_fmap in Hin as (? & [=] & _).
    + destruct owner as [e|]; [|lia]. destruct Ho as (N4 & o & H4 & E4). exists e. split.
      * cbn. do 3 right. apply elem_of_app. right. left.
      * by rewrite (hd_handle _ _ H4).
Qed.

Lemma create_qp_safe r i : safe (create_qp r i).
Proof.
  intros s I. unfold create_qp, QP_wrap. do 5 step.
  eapply wp_mono; [by apply wp_queues| |done]. intros [[scq rcq] srq] t [-> Hq]. steps.
  pose proof (fill_fields _ _ _ _ _ _ H1) as Ha. destruct Ha as (A1 & A2 & A3).
  destruct (queues_alive _ _ _ _ _ I Hq) as (L1 & L2 & L3). cbn in L1, L2, L3.
  apply (wp_create _ (KQP 0) (qp_deps (pd_pd o) a 0)); [done| |done|].
  - apply law_create_qp; eauto with verbs; congruence.
  - intros h w Hh Hc. apply wp_new. eapply inv_create; [exact I| |done|done].
    eapply fits_qp; try done. apply fresh_ref_new.
Qed.

(** The endpoint's own call: it keeps the queue pair itself. *)
Lemma CMID_create_qp_safe r pd i : safe (CMID_create_qp r pd i).
Proof.
  intros s I. unfold CMID_create_qp, QP_wrap. do 15 step.
  eapply wp_mono; [by apply wp_queues| |done]. intros [[scq rcq] srq] t [-> Hq]. steps.
  pose proof (fill_fields _ _ _ _ _ _ H6) as Ha. destruct (Ha) as (A1 & A2 & A3).
  destruct (queues_alive _ _ _ _ _ I Hq) as (L1 & L2 & L3). cbn in L1, L2, L3.
  pose proof (law_cm_create_qp (cm_id o) (pd_pd o0) a (b_world s)) as Hlaw.
  apply wp_bind, wp_native. intros rc w Hf. rewrite Hf in Hlaw.
  assert (cm_id_qp (b_world s) (cm_id o) = 0) as Hnone by lia.
  specialize (Hlaw (inv_intact _ I) ltac:(eauto with verbs) Hnone ltac:(eauto with verbs)
    ltac:(congruence) ltac:(congruence) ltac:(by rewrite A3)).
  step. apply wp_check_rc.
  - intros ->. cbn in Hlaw. destruct Hlaw as [Hc Hh]. step. step. step. apply wp_new. step.
    eapply wp_update_at; [by apply lookup_insert_eq|done|]. step. cbn. unfold Inv. cbn.
    rewrite insert_insert_eq. eapply inv_create; [exact I| |done|done].
    eapply fits_qp; try done; [exact Hc|apply fresh_ref_new|]. eauto.
  - intros Hrc e. rewrite (proj2 (Z.eqb_neq _ _) Hrc) in Hlaw. by apply Inv_keeps.
Qed.

(** ** Posting *)

(** The address handles that requests use are open. *)
Definition ahs_open s (wrs : list SendWR) : Prop :=
  Forall (λ x, match sw_ah x with
               | Some r => ∃ a, b_heap s !! r = Some (OAH a) ∧ ah_ah a ≠ 0
               | None => True
               end) wrs.

Lemma Forall_cells {R C} (sges : R → list SGE) (cell : R → option nat → option nat → nat → C)
    (P : C → Prop) (Q : R → Prop) n wrs : (∀ x nx sgl k, Q x → P (cell x nx sgl k)) →
  Forall Q wrs → ∀ i off, Forall P (cells sges cell n i off wrs).
Proof. intros H HQ. induction HQ; intros i off; constructor; auto. Qed.

Lemma post_send_safe r wrs s :
  Inv s → ahs_open s wrs → wp (post_send r wrs) (λ _, Inv) (λ _, Inv) s.
Proof.
  intros I Ha. unfold post_send, _post_send. steps. destruct (_ =? 0)%nat; steps; [done|].
  set (c := send_chain _ _).
  apply wp_bind, wp_kept; [done| |].
  - apply law_post_send; [eauto with verbs..|]. subst c. unfold send_chain.
    destruct (build_chain_cells sw_sg_list send_zero (send_cell (ah_handle (b_heap s))) wrs) as [ex ->].
    cbn [fst]. eapply Forall_cells; [|exact Ha]. intros w nx sgl k Hw. cbn in Hw |- *. unfold send_union.
    destruct (sw_ah w) as [q|].
    + destruct Hw as (a & Hq & Hz). unfold ah_handle. rewrite Hq. eauto with verbs.
    + repeat case_match; simplify_eq; done.
  - intros rc s' _ _ I'. by steps.
Qed.

Lemma post_recv_safe r wrs : safe (post_recv r wrs).
Proof.
  intros s I. unfold post_recv, _post_recv_qp, _post_recv_chain. steps.
  destruct (_ =? 0)%nat; steps; [done|]. cbn [negb Z.eqb]. calls law_post_recv. by steps.
Qed.

Lemma SRQ_post_recv_safe r wrs : safe (SRQ_post_recv r wrs).
Proof.
  intros s I. unfold SRQ_post_recv, _post_recv_chain. steps.
  destruct (_ =? 0)%nat; steps; [done|].
  replace (negb (srq_srq o =? 0)) with true by lia. calls law_post_srq_recv. by steps.
Qed.
End QueuePairs.

(** * Closing *)

Section Closing.
Context {W : Type} `{!Libibverbs W} `{!LibibverbsLaws W}.
Abbreviation B := (Binding W).
Implicit Types (m : gmap nat PyObj) (w : W) (s : B).

(** The classes that others are created from. *)
Definition has_children (k : KCls) : bool :=
  match k with LContext | LPD | LChannel | LCQ | LSRQ | LCmId => true | _ => false end.

Lemma parent_class x k p : (k, p) ∈ sh_parents (sh_of x) → has_children k = true.
Proof.
  destruct x; cbn; intros Hin.
  all: repeat first [ by apply not_elem_of_nil in Hin
                    | apply elem_of_cons in Hin as [[= -> ->]|Hin]; [done|]
                    | apply elem_of_app in Hin as [Hin|Hin]
                    | apply list_elem_of_fmap in Hin as (? & [= -> ->] & _); done ].
Qed.

(** Nothing is created from a region, a queue pair or an address handle. *)
Lemma leaf_childless m w r x :
  inv m w → m !! r = Some x → has_children (kcls (sh_kind (sh_of x))) = false →
  childless (sh_of <$> m) r.
Proof.
  intros I Hr Hk r2 S2 k HS2 H2 Hp. destruct (sh_lookup_inv _ _ HS2) as (y & Hy & ->).
  destruct (inv_parent I _ _ _ _ Hy Hp) as (z & Hz & Hkz & _).
  assert (z = x) as -> by congruence. pose proof (parent_class _ _ _ Hp). congruence.
Qed.

(** What is closed and how, when the library has let it go. *)
Lemma closes_of m w w' r x x' rc :
  inv m w → m !! r = Some x → sh_handle (sh_of x) ≠ 0 →
  destroys live intact (sh_handle (sh_of x)) w (rc, w') → rc = 0 →
  is_context (sh_kind (sh_of x)) = false ∧ sh_kind (sh_of x) ≠ KCmId →
  kcls (sh_kind (sh_of x')) = kcls (sh_kind (sh_of x)) → sh_handle (sh_of x') = 0 →
  sh_parents (sh_of x') = sh_parents (sh_of x) → closes m w w' r x x'.
Proof.
  intros I Hr Hh [Hi [(_ & Hu & Hl)|[? _]]] Hrc Hk Hc H0 Hp; [|done]. constructor; try done.
  - intros kp p. by rewrite Hp.
  - eapply (unused_childless (proj1 I)); [by apply sh_lookup|done].
Qed.

(** A destruction that fails leaves everything; the failure is raised. *)
Lemma wp_destroy (f : W → Z * W) h (Q : unit → B → Prop) E s (g : M B unit) :
  Inv s → destroys live intact h (b_world s) (f (b_world s)) → (∀ e t, Inv t → E e t) →
  (∀ w, destroys live intact h (b_world s) (0, w) → wp g Q E (set_world w s)) →
  wp (rc ← native f; check_rc rc;; g) Q E s.
Proof.
  intros I Hd HE Hg. apply wp_bind, wp_native. intros rc w Hf. rewrite Hf in Hd.
  step. apply wp_check_rc; [by intros ->; apply Hg|]. intros Hrc e. apply HE, Inv_keeps; [done|].
  destruct Hd as [Hi [[? _]|(_ & _ & Hl)]]; done.
Qed.

Lemma MR_close_safe r : safe (MR_close r).
Proof.
  intros s I. unfold MR_close. steps. destruct (mr_mr o =? 0) eqn:E0; [by steps|].
  apply (wp_destroy _ (mr_mr o)); [done| |done|].
  { apply law_dereg_mr; [by apply inv_intact|]. apply (alive_mr s r o); [done..|lia]. }
  intros w Hd. step. eapply wp_update_at; [exact H|done|]. eapply wp_update_at; [by apply lookup_insert_eq|done|].
  cbn. unfold Inv. cbn. rewrite insert_insert_eq. eapply (inv_close _ _ _ _ (OMR o)); [exact I| |done].
  eapply (closes_of _ _ _ _ (OMR o)); try done. cbn. lia.
Qed.

Lemma AH_close_safe r : safe (AH_close r).
Proof.
  intros s I. unfold AH_close. steps. destruct (ah_ah o =? 0) eqn:E0; [by steps|].
  apply (wp_destroy _ (ah_ah o)); [done| |done|].
  { apply law_destroy_ah; [by apply inv_intact|]. apply (alive_ah s r o); [done..|lia]. }
  intros w Hd. eapply wp_update_at; [exact H|done|]. unfold Inv. cbn.
  eapply (inv_close _ _ _ _ (OAH o)); [exact I| |done]. eapply (closes_of _ _ _ _ (OAH o)); try done. cbn. lia.
Qed.

Lemma SRQ_close_safe r : safe (SRQ_close r).
Proof.
  intros s I. unfold SRQ_close. steps. destruct (srq_srq o =? 0) eqn:E0; [by steps|].
  apply (wp_destroy _ (srq_srq o)); [done| |done|].
  { apply law_destroy_srq; [by apply inv_intact|]. apply (alive_srq s r o); [done..|lia]. }
  intros w Hd. eapply wp_update_at; [exact H|done|]. unfold Inv. cbn.
  eapply (inv_close _ _ _ _ (OSRQ o)); [exact I| |done]. eapply (closes_of _ _ _ _ (OSRQ o)); try done. cbn. lia.
Qed.

(** The end of a close that gives a child back to its context. *)
Lemma wp_give_back s w r x (x' : PyObj) c :
  Inv s → closes (b_heap s) (b_world s) w r x x' → (LContext, c) ∈ sh_parents (sh_of x) →
  (∀ c', child_of c' x = if decide (c' = c) then 1 else 0) →
  wp (_release_child c) (λ _, Inv) (λ _, Inv) (set_heap (<[r := x']> (b_heap s)) (set_world w s)).
Proof.
  intros I F Hp Hc. destruct (inv_context I _ _ _ (closes_here _ _ _ _ _ _ F) Hp) as (o & Ho & _).
  assert (r ≠ c) as Hne.
  { intros ->. pose proof (closes_here _ _ _ _ _ _ F). destruct (closes_not_kids _ _ _ _ _ _ F) as [Hk _].
    by simplify_eq. }
  unfold _release_child. eapply (wp_update_at _ _ o); [|done|].
  - cbn. by rewrite lookup_insert_ne.
  - unfold Inv. cbn. by eapply (inv_close_child _ _ _ _ x).
Qed.

Lemma PD_close_safe r : safe (PD_close r).
Proof.
  intros s I. unfold PD_close. steps. destruct (pd_pd o =? 0) eqn:E0; [by steps|].
  apply (wp_destroy _ (pd_pd o)); [done| |done|].
  { apply law_dealloc_pd; [by apply inv_intact|]. apply (alive_pd s r o); [done..|lia]. }
  intros w Hd. step. eapply wp_update_at; [exact H|done|].
  apply (wp_give_back s w r (OPD o)); [done| |left|intros c'; apply child_at; [lia|done]].
  eapply (closes_of _ _ _ _ (OPD o)); try done. cbn. lia.
Qed.

Lemma CompChannel_close_safe r : safe (CompChannel_close r).
Proof.
  intros s I. unfold CompChannel_close. steps. destruct (chan_chan o =? 0) eqn:E0; [by steps|].
  apply (wp_destroy _ (chan_chan o)); [done| |done|].
  { apply law_destroy_comp_channel; [by apply inv_intact|]. apply (alive_chan s r o); [done..|lia]. }
  intros w Hd. step. eapply wp_update_at; [exact H|done|].
  apply (wp_give_back s w r (OCompChannel o)); [done| |left|intros c'; apply child_at; [lia|done]].
  eapply (closes_of _ _ _ _ (OCompChannel o)); try done. cbn. lia.
Qed.

(** ** Completion events *)

Lemma cq_live s r o :
  Inv s → b_heap s !! r = Some (OCQ o) → cq_cq o ≠ 0 →
  ∃ d, live (b_world s) !! cq_cq o = Some (mkN (KCQ r (cq_unacked o)) d) ∧
    d = n_deps (denote (sh_of <$> b_heap s) r (sh_of (OCQ o))) ∧ 0 ≤ cq_unacked o < 2 ^ 31.
Proof.
  intros I Hr Hh. pose proof (inv_live I _ _ Hr Hh) as Hl. cbn in Hl.
  pose proof (events_bounded _ _ _ _ _ (inv_intact _ I) Hl) as Hb.
  eexists. split_and!; [exact Hl|done|lia|lia].
Qed.

Lemma i32_small v : 0 ≤ v < 2 ^ 31 → i32 v = v.
Proof. intros Hv. unfold i32. rewrite Z.mod_small; lia. Qed.

(** Acknowledging [n] of the events received. *)
Lemma ack_inv s r o n :
  Inv s → b_heap s !! r = Some (OCQ o) → cq_cq o ≠ 0 → 0 ≤ n ≤ cq_unacked o →
  inv (<[r := OCQ (set_unacked (cq_unacked o - n) o)]> (b_heap s)) (v_ack_cq_events (cq_cq o) n (b_world s)).
Proof.
  intros I Hr Hh Hn. destruct (cq_live s r o I Hr Hh) as (d & Hl & Hd & _).
  destruct (law_ack_cq_events _ n _ _ _ _ (inv_intact _ I) Hl Hn) as [Hi Hl'].
  eapply inv_events; [exact I|exact Hr|done|done|]. by rewrite Hl', Hd.
Qed.

Lemma ack_events_safe r n s :
  Inv s → n < 2 ^ 31 → wp (ack_events r n) (λ _, Inv) (λ _, Inv) s.
Proof.
  intros I Hn. unfold ack_events. steps. rewrite (i32_small n) in * by lia.
  assert (0 ≤ n ≤ cq_unacked o) as Hle by lia.
  destruct (cq_live s r o I H0 H1) as (d & _ & _ & Hb).
  unfold native_. apply wp_native. intros [] w [= <-]. eapply wp_update_at; [exact H0|done|].
  rewrite i32_small by lia. by apply (ack_inv s).
Qed.

Lemma get_cq_event_safe r : safe (get_cq_event r).
Proof.
  intros s I. unfold get_cq_event. steps. apply wp_bind, wp_native. intros [rc u] w Hf.
  pose proof (law_get_cq_event (chan_chan o) (b_world s) (inv_intact _ I) ltac:(eauto with verbs)) as Hl.
  rewrite Hf in Hl. destruct Hl as [Hi [[Hrc Hl]|(-> & h & ev & d & Hh & Hin & Hl)]].
  - assert (Inv (set_world w s)) by (by apply Inv_keeps). steps. lia.
  - destruct (core_owner (proj1 I) _ _ Hh eq_refl) as (q & S & HS & <- & Hz & Hden).
    destruct (sh_lookup_inv _ _ HS) as (x & Hx & ->). injection Hden as Hk Hdd.
    assert (∃ c, x = OCQ c ∧ u = q ∧ cq_unacked c = ev) as (c & -> & -> & <-).
    { destruct x as [y|?|?|?|y|?|?|?|?|?]; try done; cbn in Hk; [by destruct (ctx_owned y)|].
      injection Hk as -> ->. eauto. }
    steps; [|done]. eapply wp_update_at; [exact Hx|done|]. step. unfold Inv. cbn.
    assert (Hb : 0 ≤ cq_unacked c + 1 < 2 ^ 31).
    { apply (events_bounded w (cq_cq c) q _ d); [done|]. rewrite Hl. by rewrite lookup_insert_eq. }
    rewrite i32_small by done. eapply inv_events; [exact I|exact Hx|done|done|]. by rewrite Hl, Hdd.
Qed.

(** The queue after [ack_all], and the library with it. *)
Lemma wp_ack_all r o s :
  Inv s → b_heap s !! r = Some (OCQ o) → cq_cq o ≠ 0 →
  wp (ack_all r) (λ _ t, Inv t ∧ b_heap t !! r = Some (OCQ (set_unacked 0 o))) (λ _, Inv) s.
Proof.
  intros I Hr Hh. unfold ack_all. step. apply wp_load; [|done]. intros q Hq.
  assert (q = o) as -> by (cbn in *; congruence).
  destruct (cq_live s r o I Hr Hh) as (d & _ & _ & Hb). destruct (0 <? cq_unacked o) eqn:E.
  - step. unfold native_. apply wp_native. intros [] w [= <-]. eapply wp_update_at; [exact Hr|done|].
    unfold u32. rewrite Z.mod_small by lia. split; [|cbn; by rewrite lookup_insert_eq].
    pose proof (ack_inv s r o (cq_unacked o) I Hr Hh ltac:(lia)) as Hinv. by rewrite Z.sub_diag in Hinv.
  - step. split; [done|]. assert (cq_unacked o = 0) as Hz by lia.
    replace (set_unacked 0 o) with o; [done|]. unfold set_unacked. rewrite <-Hz. by destruct o.
Qed.

Lemma CQ_close_safe r : safe (CQ_close r).
Proof.
  intros s I. unfold CQ_close. steps. destruct (cq_cq o =? 0) eqn:E0; [by steps|]. do 3 step.
  eapply wp_mono; [apply (wp_ack_all r o); [done|done|lia]| |done]. intros [] t [It Ht].
  apply (wp_destroy _ (cq_cq o)); [done| |done|].
  - destruct (cq_live t r _ It Ht) as (d & Hl & _); [cbn; lia|]. by eapply law_destroy_cq; [apply inv_intact|].
  - intros w Hd. step. eapply wp_update_at; [exact Ht|done|].
    apply (wp_give_back t w r (OCQ (set_unacked 0 o))); [done| |left|intros c'; apply child_at; [cbn; lia|done]].
    eapply (closes_of _ _ _ _ (OCQ (set_unacked 0 o))); try done. apply Z.eqb_neq, E0.
Qed.
End Closing.

Section Closing2.
Context {W : Type} `{!Libibverbs W} `{!LibibverbsLaws W}.
Abbreviation B := (Binding W).
Implicit Types (m : gmap nat PyObj) (w : W) (s : B).

(** An owned context with no child has nothing that depends on it. *)
Lemma context_unused s r o :
  Inv s → b_heap s !! r = Some (OContext o) → ctx_ctx o ≠ 0 → ctx_owned o = true →
  ctx_children o = 0 → ¬ used (live (b_world s)) (ctx_ctx o).
Proof.
  intros I Hr Hh Ho H0. apply (childless_unused (proj1 I) r (sh_of (OContext o))).
  - by apply sh_lookup.
  - done.
  - cbn. by rewrite Ho.
  - intros r2 S2 k HS2 H2 Hp. destruct (sh_lookup_inv _ _ HS2) as (y & Hy & ->).
    destruct (inv_parent I _ _ _ _ Hy Hp) as (z & Hz & Hk & _).
    assert (z = OContext o) as -> by congruence. cbn in Hk. rewrite Ho in Hk. cbn in Hk. subst k.
    pose proof (no_children I _ _ _ _ Hr H0 Hy H2 Hp) as HkC.
    destruct (core_cmid _ _ (proj1 I) _ _ HS2 HkC) as (c & X & Hc & HX & HkX).
    rewrite Hc in Hp. apply list_elem_of_singleton in Hp as [= ->].
    rewrite (sh_lookup _ _ Hr) in HX. injection HX as <-. cbn in HkX. by rewrite Ho in HkX.
Qed.

Lemma wp_close_device r o s (Q : Z → B → Prop) E :
  Inv s → b_heap s !! r = Some (OContext o) → ctx_ctx o ≠ 0 → ctx_owned o = true →
  ctx_children o = 0 →
  (∀ rc w, intact w → (rc = 0 ∧ live w = delete (ctx_ctx o) (live (b_world s)) ∨
                       rc ≠ 0 ∧ live w = live (b_world s)) → Q rc (set_world w s)) →
  wp (native (v_close_device (ctx_ctx o))) Q E s.
Proof.
  intros I Hr Hh Ho H0 HQ. apply wp_native. intros rc w Hf.
  pose proof (law_close_device (ctx_ctx o) (b_world s) (inv_intact _ I)) as Hl. rewrite Hf in Hl. cbn in Hl.
  destruct Hl as [Hi Hl].
  - apply (inv_handle s r (OContext o)); try done. cbn. rewrite Ho. cbn. by apply bool_decide_eq_true.
  - by apply (context_unused s r).
  - apply HQ; [done|]. destruct (rc =? 0) eqn:E0; [left|right]; (split; [lia|done]).
Qed.

Lemma Context_close_safe r : safe (Context_close r).
Proof.
  intros s I. unfold Context_close. steps. destruct (ctx_ctx o =? 0) eqn:E0; [by steps|].
  steps. apply wp_bind, (wp_close_device r); [done|done|lia|by apply negb_false_iff|lia|].
  intros rc w Hi Hl. steps.
  - eapply wp_update_at; [exact H|done|]. unfold Inv. cbn.
    eapply inv_close_context; [exact I|done|lia|by apply negb_false_iff|lia|done|].
    destruct Hl as [[_ ->]|[? _]]; [by left|lia].
  - intros Hrc e. apply (Inv_keeps s w); [done|]. destruct Hl as [[? _]|[_ Hl]]; [lia|done].
Qed.

(** ** Queue pairs *)

(** The endpoint of an open queue pair. *)
Lemma qp_endpoint s r o :
  Inv s → b_heap s !! r = Some (OQP o) → qp_qp o ≠ 0 → qp_cm_id o ≠ 0 →
  ∃ i e, qp_cm_owner o = Some i ∧ b_heap s !! i = Some (OCMID e) ∧ cm_id e = qp_cm_id o ∧
    cm_id_qp (b_world s) (cm_id e) = qp_qp o.
Proof.
  intros I Hr Hh Hc. pose proof (core_qp _ _ (proj1 I) _ _ (sh_lookup _ _ Hr) Hh _ eq_refl) as Hq.
  replace (qp_cm_id o =? 0) with false in Hq by lia. destruct Hq as (i & Hi & Hhd).
  destruct (inv_parent I _ _ _ _ Hr Hi) as (y & Hy & Hk & _).
  rewrite (hd_handle _ _ Hy) in Hhd.
  destruct y as [c| | | | | | | |e|]; try done; [by cbn in Hk; destruct (ctx_owned c)|]. cbn in Hhd.
  exists i, e. split_and!; [|done|done|].
  - cbn in Hi. repeat (apply elem_of_cons in Hi as [[=]|Hi]). apply elem_of_app in Hi as [Hi|Hi];
      apply list_elem_of_fmap in Hi as (z & [= ->] & Hz).
    destruct (qp_cm_owner o); [by apply list_elem_of_singleton in Hz as ->|by apply not_elem_of_nil in Hz].
  - assert (alive (live (b_world s)) (only KCmId) (cm_id e)) as Ha
      by (apply (alive_cm s i); [done..|congruence]).
    destruct (law_cm_id_qp _ _ (inv_intact _ I) Ha) as [Hu _].
    symmetry. eapply (Hu (qp_qp o)); [exact (inv_live I _ _ Hr Hh)|]. cbn. by rewrite Hhd.
Qed.

(** The queue pair of an endpoint has gone with its object. *)
Lemma closes_cm s r o w o' :
  Inv s → b_heap s !! r = Some (OQP o) → qp_qp o ≠ 0 → qp_cm_id o ≠ 0 →
  w = cm_destroy_qp (qp_cm_id o) (b_world s) → qp_qp o' = 0 →
  (∀ p, p ∈ sh_parents (sh_of (OQP o')) → p ∈ sh_parents (sh_of (OQP o))) →
  closes (b_heap s) (b_world s) w r (OQP o) (OQP o').
Proof.
  intros I Hr Hh Hc -> H0 Hp. destruct (qp_endpoint s r o I Hr Hh Hc) as (i & e & _ & Hi & He & Hq).
  assert (alive (live (b_world s)) (only KCmId) (cm_id e)) as Ha
    by (apply (alive_cm s i); [done..|congruence]).
  destruct (law_cm_destroy_qp _ _ (inv_intact _ I) Ha) as [Hint Hl]; [congruence|].
  rewrite He in *. constructor; try done.
  - intros kp p. apply Hp.
  - by eapply leaf_childless.
  - cbn. congruence.
Qed.

Lemma QP_close_safe r : safe (QP_close r).
Proof.
  intros s I. unfold QP_close. steps. destruct (qp_qp o =? 0) eqn:E0; [by steps|]. do 2 step.
  destruct (negb (qp_cm_id o =? 0)) eqn:Ec.
  - step. step. unfold native_ at 1. apply wp_native. intros [] w [= <-].
    eapply wp_update_at; [exact H|done|]. eapply wp_update_at; [by apply lookup_insert_eq|done|].
    unfold Inv. cbn. rewrite insert_insert_eq. eapply (inv_close _ _ _ _ (OQP o)); [exact I| |done].
    apply closes_cm; try done; [lia|lia|]. cbn. intros p. rewrite app_nil_r. set_solver.
  - assert (qp_cm_id o = 0) as Hcm by lia.
    pose proof (law_destroy_qp (qp_qp o) (b_world s) (inv_intact _ I)) as Hd.
    assert (alive (live (b_world s)) (only (KQP 0)) (qp_qp o)) as Ha.
    { apply (inv_handle s r (OQP o)); [done|done|cbn; lia|]. cbn. rewrite Hcm. by apply bool_decide_eq_true. }
    specialize (Hd Ha). step. apply wp_bind, wp_native. intros rc w Hf. rewrite Hf in Hd.
    apply wp_check_rc.
    + intros ->. eapply wp_update_at; [exact H|done|]. unfold Inv. cbn.
      eapply (inv_close _ _ _ _ (OQP o)); [exact I| |done].
      eapply (closes_of _ _ _ _ (OQP o)); try done. apply Z.eqb_neq, E0.
    + intros Hrc e. apply (Inv_keeps s w); [done|]. destruct Hd as [Hi [[? _]|(_ & _ & Hl)]]; done.
Qed.

(** ** Endpoints *)

(** An endpoint without a queue pair has no child. *)
Lemma endpoint_childless s i o :
  Inv s → b_heap s !! i = Some (OCMID o) → cm_id o ≠ 0 → cm_id_qp (b_world s) (cm_id o) = 0 →
  childless (sh_of <$> b_heap s) i.
Proof.
  intros I Hi Hz Hq r S k HS Hh Hp. destruct (sh_lookup_inv _ _ HS) as (y & Hy & ->).
  destruct (inv_parent I _ _ _ _ Hy Hp) as (z & Hz2 & Hk & _).
  assert (z = OCMID o) as -> by congruence. cbn in Hk. subst k.
  destruct y as [| | | |c|q| | | |]; cbn in Hp;
    repeat first [ by apply not_elem_of_nil in Hp | apply elem_of_cons in Hp as [[=]|Hp] ].
  { by apply list_elem_of_fmap in Hp as (? & [=] & _). }
  pose proof (core_qp _ _ (proj1 I) _ _ HS Hh _ eq_refl) as Hc.
  destruct (qp_cm_id q =? 0) eqn:E; [apply (Hc i); cbn; do 3 right; done|].
  destruct (qp_endpoint s r q I Hy Hh ltac:(lia)) as (i2 & e & Ho & He & Hid & Hqq).
  rewrite Ho in Hp. apply elem_of_app in Hp as [Hp|Hp];
    apply list_elem_of_fmap in Hp as (? & [= ->] & Hp). apply list_elem_of_singleton in Hp as ->.
  assert (e = o) as -> by (cbn in *; congruence). cbn in Hh. congruence.
Qed.

Lemma CMID_close_safe r : safe (CMID_close r).
Proof.
  intros s I. unfold CMID_close. steps. destruct (cm_id o =? 0) eqn:E0; [by steps|]. steps.
  eapply wp_update_at; [exact H1|done|]. step. unfold native_. apply wp_native. intros [] w [= <-].
  assert (r ≠ cm_context o) as Hne by (intros ->; cbn in *; congruence).
  step. eapply (wp_update_at _ _ o); [cbn; by rewrite lookup_insert_ne|done|].
  eapply (wp_update_at _ _ (set_cm_id 0 o)); [by apply lookup_insert_eq|done|].
  unfold Inv. cbn. rewrite insert_insert_eq.
  apply (inv_close_endpoint I H); [lia|done|lia|].
  apply (endpoint_childless s r o); try done; lia.
Qed.
End Closing2.

(** * Opening devices and resolving endpoints *)

Section Opening.
Context {W : Type} `{!Libibverbs W} `{!LibibverbsLaws W}.
Abbreviation B := (Binding W).
Implicit Types (m : gmap nat PyObj) (w : W) (s : B).

Lemma wp_finally {A} (f : M B A) (g : M B unit) (Q : A → B → Prop) E s :
  wp f (λ a t, wp g (λ _, Q a) E t) (λ e t, wp g (λ _, E e) E t) s → wp (try_finally f g) Q E s.
Proof. apply wp_try_finally. Qed.

Lemma free_device_list_safe : safe (native_ v_free_device_list).
Proof.
  intros s I. unfold native_. apply wp_kept; [done|by apply law_free_device_list, inv_intact|].
  by intros [] s' _ _ I'.
Qed.

Lemma get_device_list_safe : safe get_device_list.
Proof.
  intros s I. unfold get_device_list.
  apply wp_bind, wp_kept; [done|by apply law_get_device_list, inv_intact|]. intros [l|] t _ _ I'; [|by steps].
  apply wp_finally. apply wp_lift'.
  - intros a _. by apply free_device_list_safe.
  - intros e. by apply free_device_list_safe.
Qed.

(** A name that cannot be read stops the search. *)
Lemma open_named_fails want l s :
  wp (open_named want l) (λ _ _, True) (λ _ t, t = s) s.
Proof.
  induction l as [|d l IH]; cbn [open_named]; [by step|].
  destruct (bool_decide _); [|done]. by apply wp_native.
Qed.

(** The context of the device, when it was opened. *)
Lemma open_named_spec want l s :
  Inv s →
  wp (open_named want l) (λ h t, b_heap t = b_heap s ∧ creates live intact KContext [] (b_world s) (h, b_world t))
    (λ _, Inv) s.
Proof.
  intros I. induction l as [|d l IH]; cbn [open_named].
  { step. split; [done|]. split; [by apply inv_intact|]. by left. }
  destruct (bool_decide _); [|done]. apply wp_native. intros h w Hf. split; [done|].
  pose proof (law_open_device (dev_ptr d) _ (inv_intact _ I)) as Hl. by rewrite Hf in Hl.
Qed.

(** A new context that nothing was made from, or a failure without effect. *)
Lemma Device_open_spec d s :
  Inv s →
  wp (Device_open d)
    (λ r t, ∃ h name, h ≠ 0 ∧ creates live intact KContext [] (b_world s) (h, b_world t) ∧
       r = fresh_ref (b_heap s) ∧ b_heap t = <[r := OContext (mk_Context h name 0 true)]> (b_heap s) ∧ Inv t)
    (λ _ t, Inv t ∧ b_heap t = b_heap s ∧ live (b_world t) = live (b_world s)) s.
Proof.
  intros I. unfold Device_open. apply wp_bind, wp_native. intros lst w0 Hw0.
  pose proof (law_get_device_list (b_world s) (inv_intact _ I)) as Hk. rewrite Hw0 in Hk.
  pose proof (Inv_keeps _ _ I Hk) as It. destruct Hk as [Hi0 Hl0]. cbn in Hi0, Hl0.
  set (t := set_world w0 s) in *. assert (Hnone : Inv t ∧ b_heap t = b_heap s ∧ live (b_world t) = live (b_world s)) by done.
  steps. destruct lst as [l|]; [|by steps]. step. apply wp_finally.
  eapply wp_mono; [apply (wp_conj _ _ _ _ _ _ (open_named_spec _ l _ It) (open_named_fails _ l t))| |].
  2:{ intros e t' [I' ->]. unfold native_. apply wp_native. intros [] w [= <-].
      pose proof (law_free_device_list _ (inv_intact _ It)) as Hk.
      split_and!; [by apply Inv_keeps|done|]. destruct Hk as [_ Hk]. by rewrite <-Hl0. }
  intros h t' [[Hh Hc] _]. unfold native_. apply wp_native. intros [] w [= <-].
  pose proof (law_free_device_list (b_world t') (proj1 Hc)) as [Hi Hl].
  assert (Hc' : creates live intact KContext [] (b_world s) (h, v_free_device_list (b_world t'))).
  { destruct Hc as [_ Hc]. split; [done|]. cbn in *. by rewrite Hl, <-Hl0. }
  step. step. step. apply wp_guard.
  - intros E0. unfold Context_wrap. apply wp_new. cbn. rewrite Hh. exists h, (device_name d).
    split_and!; [lia|done|done|done|]. unfold Inv. cbn.
    apply (inv_open_context _ (b_world s)); [done|done|lia|apply fresh_ref_new].
  - intros E0. destruct Hc' as [Hi' [[_ Hl']|[? _]]]; [|cbn in *; lia]. split_and!; [|done|done].
    unfold Inv. cbn. rewrite Hh. by apply (inv_keeps _ (b_world s)).
Qed.

Lemma Device_open_safe d : safe (Device_open d).
Proof.
  intros s I. eapply wp_mono; [by apply Device_open_spec| |by intros e t [? _]].
  by intros r t (h & name & _ & _ & _ & _ & It).
Qed.

(** ** Endpoints *)

(** The library loses native contexts that no endpoint uses, and may gain one. *)
Lemma inv_shrink m w w' :
  inv m w → intact w' →
  (∀ h n, live w' !! h = Some n → live w !! h = Some n ∨ n = mkN KCmContext []) →
  (∀ h n, live w !! h = Some n →
     (n_kind n = KCmContext → ∃ j n', live w !! j = Some n' ∧ n_kind n' = KCmId ∧ h ∈ n_deps n') →
     live w' !! h = Some n) →
  inv m w'.
Proof.
  intros [C Hn] Hi Hback Hkeep. split; [|done].
  constructor; [done| |apply (core_parent _ _ C)|apply (core_inj _ _ C)| | |apply (core_borrow _ _ C)
    |apply (core_cmid _ _ C)|apply (core_cmid_inj _ _ C)|apply (core_qp _ _ C)].
  - intros r S HS Hh. apply Hkeep; [by apply (core_live _ _ C)|]. intros Hk. cbn in Hk.
    assert (sh_kind S = KCmContext) as HkS by (by destruct (sh_kind S)).
    destruct (core_borrow _ _ C _ _ HS HkS Hh) as (i & J & HJ & HkJ & HzJ & HpJ).
    exists (sh_handle J), (denote (sh_of <$> m) i J).
    split_and!; [by apply (core_live _ _ C)|cbn; by rewrite HkJ|].
    cbn. rewrite HpJ. cbn. rewrite (hd_lookup _ _ HS). left.
  - intros h n Hn' Hk. destruct (Hback _ _ Hn') as [H| ->]; [by apply (core_own _ _ C) in H|done].
  - intros h n Hn' Hk. destruct (Hback _ _ Hn') as [H| ->]; [by apply (core_deps _ _ C) in H|done].
Qed.

(** What a native object depends on is alive. *)
Lemma deps_alive m w h n d :
  inv m w → live w !! h = Some n → d ∈ n_deps n → is_Some (live w !! d).
Proof.
  intros I Hn Hd. assert (is_context (n_kind n) = false) as Hk.
  { destruct (is_context (n_kind n)) eqn:E; [|done]. rewrite (core_deps _ _ (proj1 I) _ _ Hn E) in Hd.
    by apply not_elem_of_nil in Hd. }
  destruct (core_owner (proj1 I) _ _ Hn Hk) as (r & S & HS & Hh & Hz & ->). cbn in Hd.
  apply list_elem_of_fmap in Hd as ([k p] & -> & Hp).
  destruct (core_parent _ _ (proj1 I) _ _ _ _ HS Hp) as (P & HP & _ & Ho). cbn.
  rewrite (hd_lookup _ _ HP). apply (open_alive _ _ p P (proj1 I) HP). apply Ho. by rewrite Hh.
Qed.

(** The endpoint [e] made from the objects [L], in the world [w]. *)
Definition endpoint_from (L : gmap Z NObj) (e : Z) w : Prop :=
  intact w ∧
  ((e = 0 ∧ live w = L) ∨
   (e ≠ 0 ∧ L !! e = None ∧
    let v := cm_id_verbs w e in
    if v =? 0 then live w = <[e := mkN KCmId []]> L
    else e ≠ v ∧ live w = <[e := mkN KCmId [v]]> (<[v := mkN KCmContext []]> L) ∧
         (L !! v = None ∨ L !! v = Some (mkN KCmContext [])))).

(** Freeing an answer that the endpoint was made with. *)
Lemma endpoint_free L e w p :
  endpoint_from (<[p := mkN KAddrInfo []]> L) e w → L !! p = None →
  endpoint_from L e (cm_freeaddrinfo p w) ∧ alive (live w) (only KAddrInfo) p.
Proof.
  intros [Hi He] Hp.
  assert (Hd : ∀ n, delete p (<[p := n]> L) = L) by (intros n; by apply delete_insert_id).
  destruct He as [[-> Hl]|(Hz & Hf & Hv)].
  - assert (alive (live w) (only KAddrInfo) p) as Ha.
    { exists (mkN KAddrInfo []). by rewrite Hl, lookup_insert_eq. }
    destruct (law_freeaddrinfo _ _ Hi Ha) as (Hi' & Hl' & _). split; [|done].
    split; [done|left]. split; [done|]. by rewrite Hl', Hl, Hd.
  - assert (e ≠ p) as Hep by (intros ->; by rewrite lookup_insert_eq in Hf).
    rewrite lookup_insert_ne in Hf by done.
    assert (∃ n, live w !! p = Some (mkN KAddrInfo []) ∧
      cm_id_verbs w e = n ∧ n ≠ p ∧
      (if n =? 0 then live w = <[e := mkN KCmId []]> (<[p := mkN KAddrInfo []]> L)
       else e ≠ n ∧ live w = <[e := mkN KCmId [n]]> (<[n := mkN KCmContext []]> (<[p := mkN KAddrInfo []]> L)) ∧
            (L !! n = None ∨ L !! n = Some (mkN KCmContext [])))) as (v & Hlp & Hve & Hvp & Hcase).
    { cbn in Hv. exists (cm_id_verbs w e). destruct (cm_id_verbs w e =? 0) eqn:E.
      - assert (live w !! p = Some (mkN KAddrInfo [])) as Hlp.
        { by rewrite Hv, lookup_insert_ne, lookup_insert_eq. }
        split_and!; try done. intros Hp0. pose proof (null_dead w Hi).
        assert (cm_id_verbs w e = 0) as E2 by lia. congruence.
      - destruct Hv as (Hne & Hl & Ho).
        assert (cm_id_verbs w e ≠ p) as Hvp.
        { intros Hv. rewrite Hv, lookup_insert_eq in Ho. by destruct Ho. }
        rewrite lookup_insert_ne in Ho by done. split_and!; try done.
        rewrite Hl. by rewrite lookup_insert_ne, lookup_insert_ne, lookup_insert_eq. }
    assert (alive (live w) (only KAddrInfo) p) as Ha by (by eexists).
    destruct (law_freeaddrinfo _ _ Hi Ha) as (Hi' & Hl' & Hverbs). split; [|done].
    split; [done|right]. split_and!; [done|done|]. cbn. rewrite Hverbs, Hve.
    destruct (v =? 0) eqn:E.
    + by rewrite Hl', Hcase, delete_insert_ne, Hd.
    + destruct Hcase as (Hne & Hl & Ho). split_and!; [done| |done].
      by rewrite Hl', Hl, delete_insert_ne, delete_insert_ne, Hd.
Qed.

(** The answer for the source address, and hints that point into it. *)
Definition source_from (L : gmap Z NObj) (src : Z) (hints : rdma_hints) w : Prop :=
  intact w ∧
  ((src = 0 ∧ live w = L ∧ ai_src_addr hints = 0) ∨
   (src ≠ 0 ∧ L !! src = None ∧ live w = <[src := mkN KAddrInfo []]> L ∧
    an_dst_addr (cm_answer w src) = ai_src_addr hints)).

Lemma source_hints_spec source s :
  Inv s →
  wp (source_hints source)
    (λ r t, b_heap t = b_heap s ∧ source_from (live (b_world s)) r.1 r.2 (b_world t)) (λ _, Inv) s.
Proof.
  intros I. unfold source_hints. destruct source as [node|].
  - apply wp_bind, wp_native. intros [rc src] w Hf.
    pose proof (law_getaddrinfo node [48] plain_hints (b_world s) (inv_intact _ I) ltac:(by left)) as Hl.
    rewrite Hf in Hl. step. apply wp_check_rc.
    + intros ->. cbn in Hl. destruct Hl as [[Hi [[? _]|(_ & Hfree & Hl)]] Hz]; [done|]. cbn in *.
      steps. split; [done|]. split; [done|]. right. done.
    + intros Hrc e. rewrite (proj2 (Z.eqb_neq _ _) Hrc) in Hl. by apply (Inv_keeps s w).
  - step. split; [done|]. split; [by apply inv_intact|]. by left.
Qed.

Lemma create_endpoint_spec node service hints s :
  intact (b_world s) →
  (ai_src_addr hints = 0 ∨
   ∃ p, alive (live (b_world s)) (only KAddrInfo) p ∧ an_dst_addr (cm_answer (b_world s) p) = ai_src_addr hints) →
  wp (create_endpoint node service hints)
    (λ e t, b_heap t = b_heap s ∧ endpoint_from (live (b_world s)) e (b_world t))
    (λ _ t, b_heap t = b_heap s ∧ keeps live intact (b_world s) (b_world t)) s.
Proof.
  intros Hint Hsrc. unfold create_endpoint. apply wp_bind, wp_native. intros [rc p] w Hf.
  pose proof (law_getaddrinfo node service hints _ Hint Hsrc) as Hl. rewrite Hf in Hl.
  step. apply wp_check_rc; [intros ->; cbn in Hl|intros Hrc e; by rewrite (proj2 (Z.eqb_neq _ _) Hrc) in Hl].
  destruct Hl as [[Hi [[? _]|(_ & Hfree & Hl)]] Hp]; [done|]. cbn in Hi, Hl, Hfree.
  assert (alive (live w) (only KAddrInfo) p) as Hap by (exists (mkN KAddrInfo []); by rewrite Hl, lookup_insert_eq).
  pose proof (law_create_ep p w Hi Hap) as Hep.
  apply wp_finally. apply wp_bind, wp_native. intros [rc e] w' Hf'. cbn in Hf'. rewrite Hf' in Hep.
  cbn zeta in Hep. step. apply wp_check_rc.
  - intros ->. step. unfold native_. apply wp_native. intros [] w'' [= <-]. split; [done|].
    apply (endpoint_free (live (b_world s)) e w' p); [|done]. rewrite <-Hl. cbn in Hep.
    destruct (e =? 0) eqn:Ee; cbn in Hep.
    + destruct Hep as [Hi' Hl']. split; [done|left]. split; [lia|done].
    + destruct Hep as (Hi' & Hf2 & Hcase). split; [done|right]. split; [lia|]. split; [done|exact Hcase].
  - intros Hrc x. rewrite (proj2 (Z.eqb_neq _ _) Hrc) in Hep. cbn in Hep. destruct Hep as [Hi' Hl'].
    unfold native_. apply wp_native. intros [] w'' [= <-]. split; [done|]. cbn.
    destruct (law_freeaddrinfo p w' Hi') as (Hi'' & Hl'' & _); [by rewrite Hl'|].
    split; [done|]. by rewrite Hl'', Hl', Hl, delete_insert_id.
Qed.

(** Destroying an endpoint that no object has taken yet. *)
Lemma drop_endpoint m w0 w e :
  inv m w0 → endpoint_from (live w0) e w → e ≠ 0 → inv m (cm_destroy_ep e w).
Proof.
  intros I [Hi [[? _]|(Hz & Hfree & Hv)]] He0; [done|]. cbn in Hv.
  set (v := cm_id_verbs w e) in *.
  assert (Hlive : ∃ d, live w !! e = Some (mkN KCmId d) ∧ (∀ x, x ∈ d → x = v ∧ v ≠ 0)).
  { destruct (v =? 0) eqn:E.
    - exists []. rewrite Hv, lookup_insert_eq. split; [done|]. by intros x ?%not_elem_of_nil.
    - exists [v]. destruct Hv as (_ & -> & _). rewrite lookup_insert_eq. split; [done|].
      intros x ->%list_elem_of_singleton. split; [done|lia]. }
  destruct Hlive as (d & Hd & Hdv).
  assert (Hold : ∀ h n, h ≠ e → live w !! h = Some n → live w0 !! h = Some n ∨ h = v ∧ n = mkN KCmContext []).
  { intros h n Hne Hn. destruct (v =? 0).
    - left. by rewrite Hv, lookup_insert_ne in Hn.
    - destruct Hv as (_ & Hlw & _). rewrite Hlw, lookup_insert_ne in Hn by done.
      apply lookup_insert_Some in Hn as [[<- <-]|[_ Hn]]; auto. }
  assert (Hnew : ∀ h n, live w0 !! h = Some n → h ≠ e ∧ live w !! h = Some n).
  { intros h n Hn. assert (h ≠ e) as Hne by congruence. split; [done|]. destruct (v =? 0).
    - by rewrite Hv, lookup_insert_ne.
    - destruct Hv as (_ & -> & Ho). rewrite lookup_insert_ne by done.
      destruct (decide (h = v)) as [->|]; [|by rewrite lookup_insert_ne].
      rewrite lookup_insert_eq. destruct Ho; congruence. }
  assert (Hu : ¬ used (live w) e).
  { intros (h & n & Hn & Hin). destruct (decide (h = e)) as [->|Hne].
    - rewrite Hd in Hn. injection Hn as <-. cbn in Hin. destruct (Hdv _ Hin) as [He Hv0].
      destruct (v =? 0) eqn:E; [lia|]. by destruct Hv as [? _].
    - destruct (Hold _ _ Hne Hn) as [Hn0|[_ ->]]; [|by apply not_elem_of_nil in Hin].
      destruct (deps_alive _ _ _ _ _ I Hn0 Hin). congruence. }
  destruct (law_destroy_ep e d w Hi Hd Hu) as (Hi' & Hgone & Hsub & Hkeep).
  { intros x Hx (h & n & Hn & Hin & Hk). destruct (Hdv _ Hx) as [-> Hv0].
    assert (h ≠ e) as Hne by (intros ->; rewrite Hd in Hn; injection Hn as <-; done).
    destruct (Hold _ _ Hne Hn) as [Hn0|[_ ->]]; [|by apply not_elem_of_nil in Hin].
    assert (is_context (n_kind n) = false) as Hkn.
    { destruct (is_context (n_kind n)) eqn:E; [|done]. rewrite (core_deps _ _ (proj1 I) _ _ Hn0 E) in Hin.
      by apply not_elem_of_nil in Hin. }
    destruct (core_owner (proj1 I) _ _ Hn0 Hkn) as (r & S & HS & Hh & Hzh & ->). cbn in Hin.
    apply list_elem_of_fmap in Hin as ([k p] & Hp & Hin). cbn in Hp.
    destruct (core_parent _ _ (proj1 I) _ _ _ _ HS Hin) as (P & HP & _ & _).
    rewrite (hd_lookup _ _ HP) in Hp. assert (sh_handle P ≠ 0) as HzP by congruence.
    pose proof (core_live _ _ (proj1 I) _ _ HP HzP) as HL. rewrite <-Hp in HL.
    assert (sh_kind P = KCmContext) as HkP.
    { destruct (v =? 0) eqn:E; [lia|]. destruct Hv as (_ & _ & [Ho|Ho]); [congruence|].
      rewrite Ho in HL. injection HL as HL _. by destruct (sh_kind P). }
    destruct (core_borrow _ _ (proj1 I) _ _ HP HkP HzP) as (j & J & HJ & HkJ & HzJ & HpJ).
    pose proof (core_live _ _ (proj1 I) _ _ HJ HzJ) as HLJ. destruct (Hnew _ _ HLJ) as [Hj1 Hj2].
    exists (sh_handle J), (denote (sh_of <$> m) j J). split_and!; [done|done|cbn; by rewrite HkJ|].
    cbn. rewrite HpJ. cbn. rewrite (hd_lookup _ _ HP), <-Hp. left. }
  apply (inv_shrink m w0); [done|done| |].
  - intros h n Hn. assert (h ≠ e) as Hne by (intros ->; congruence).
    assert (live w !! h = Some n) as Hn' by (by eapply lookup_weaken).
    destruct (Hold _ _ Hne Hn') as [?|[_ ->]]; auto.
  - intros h n Hn Hk. destruct (Hnew _ _ Hn) as [Hne Hn']. apply Hkeep; [done|done|].
    intros HkC. destruct (Hk HkC) as (j & n' & Hj & Hkj & Hin). destruct (Hnew _ _ Hj). by exists j, n'.
Qed.

Lemma wrap_endpoint_safe m w0 e host port source s :
  inv m w0 → b_heap s = m → endpoint_from (live w0) e (b_world s) →
  wp (wrap_endpoint e host port source) (λ _, Inv) (λ _, Inv) s.
Proof.
  intros I Hm He. unfold wrap_endpoint. do 2 step. destruct ((e =? 0) || _) eqn:E.
  - step. destruct (negb (e =? 0)) eqn:E0.
    + unfold native_. apply wp_native. intros [] w [= <-]. step. unfold Inv. cbn. rewrite Hm.
      apply (drop_endpoint m w0); [done|done|lia].
    + steps. destruct He as [Hi [[_ Hl]|(? & _)]]; [|lia]. unfold Inv. rewrite Hm.
      by apply (inv_keeps _ w0).
  - apply orb_false_iff in E as [E0 Ev]. do 2 step. step.
    apply wp_try_except, wp_lift'.
    2:{ intros x. do 1 step. unfold native_. apply wp_native. intros [] w [= <-]. step. unfold Inv. cbn.
        rewrite Hm. apply (drop_endpoint m w0); [done|done|lia]. }
    intros name _. step. unfold Context_wrap_borrowed. apply wp_new. apply wp_new. cbn.
    unfold Inv. cbn. rewrite Hm.
    destruct He as [Hi [[? _]|(Hz & Hfree & Hv)]]; [lia|]. cbn in Hv. rewrite Ev in Hv.
    destruct Hv as (Hne & Hl & Ho).
    apply (inv_resolve m w0); try done; [apply fresh_ref_new| | |lia].
    + set (c := fresh_ref m). pose proof (fresh_ref_new (<[c := OContext (mk_Context
        (cm_id_verbs (b_world s) e) name 0 false)]> m)) as Hf.
      by apply lookup_insert_None in Hf as [Hf _].
    + intros Heq. pose proof (fresh_ref_new (<[fresh_ref m := OContext (mk_Context
        (cm_id_verbs (b_world s) e) name 0 false)]> m)) as Hf. rewrite <-Heq in Hf.
      by rewrite lookup_insert_eq in Hf.
Qed.

(** The endpoint for the bound source, whose answer is freed in the end. *)
Lemma resolve_from host port source node sn s :
  Inv s →
  wp ('(src, hints) ← source_hints sn;
      endpoint ← try_finally (create_endpoint node (port_text port) hints)
                   (if negb (src =? 0) then native_ (cm_freeaddrinfo src) else mret tt);
      wrap_endpoint endpoint host port source) (λ _, Inv) (λ _, Inv) s.
Proof.
  intros I. step. eapply wp_mono; [by apply source_hints_spec| |done].
  intros [src hints] t [Hh [Hi Hsrc]]. cbn in Hsrc. step. apply wp_finally.
  eapply wp_mono; [apply create_endpoint_spec; [done|]| |].
  - destruct Hsrc as [(_ & _ & ?)|(Hz & Hf & Hl & Ha)]; [by left|right]. exists src.
    split; [|done]. exists (mkN KAddrInfo []). by rewrite Hl, lookup_insert_eq.
  - intros e t2 [Hh2 He]. destruct Hsrc as [(-> & Hl & _)|(Hz & Hf & Hl & _)].
    + cbn [negb Z.eqb]. step. apply (wrap_endpoint_safe (b_heap s) (b_world s)); [done|congruence|].
      by rewrite <-Hl.
    + replace (negb (src =? 0)) with true by lia. unfold native_. apply wp_native. intros [] w [= <-].
      rewrite Hl in He. destruct (endpoint_free _ _ _ _ He Hf) as [He' _].
      apply (wrap_endpoint_safe (b_heap s) (b_world s)); [done|cbn; congruence|done].
  - intros x t2 [Hh2 [Hi2 Hl2]]. destruct Hsrc as [(-> & Hl & _)|(Hz & Hf & Hl & _)].
    + cbn [negb Z.eqb]. step. unfold Inv. rewrite Hh2, Hh. apply (inv_keeps _ (b_world s)); [|done].
      split; [done|congruence].
    + replace (negb (src =? 0)) with true by lia. unfold native_. apply wp_native. intros [] w [= <-].
      destruct (law_freeaddrinfo src (b_world t2) Hi2) as (Hi3 & Hl3 & _).
      { exists (mkN KAddrInfo []). by rewrite Hl2, Hl, lookup_insert_eq. }
      unfold Inv. cbn. rewrite Hh2, Hh. apply (inv_keeps _ (b_world s)); [|done].
      split; [done|]. by rewrite Hl3, Hl2, Hl, delete_insert_id.
Qed.

Lemma resolve_safe host port source : safe (resolve host port source).
Proof.
  intros s I. unfold resolve. do 7 step.
  eapply wp_mono; [by apply load_librdmacm_safe| |done]. intros [] s1 I1. do 3 step.
  destruct source as [x|]; steps; by refine (proj1 (wp_bind _ _ _ _ _) (resolve_from _ _ _ _ _ _ _)).
Qed.
End Opening.

(** * Garbage collection *)

Section Collection.
Context {W : Type} `{!Libibverbs W} `{!LibibverbsLaws W}.
Abbreviation B := (Binding W).
Implicit Types (m : gmap nat PyObj) (w : W) (s : B).

(** Nothing was created from [r]. *)
Definition unparented m (r : nat) : Prop :=
  ∀ r2 y, m !! r2 = Some y → r ∉ (snd <$> sh_parents (sh_of y)).

Lemma parent_ref x k p : (k, p) ∈ sh_parents (sh_of x) → p ∈ refs_of x.
Proof.
  intros Hin. assert (p ∈ snd <$> sh_parents (sh_of x)) as Hp by (apply list_elem_of_fmap; by exists (k, p)).
  revert Hp. clear. destruct x as [o|o|o|o|o|o|o|o|o|o]; cbn;
    rewrite ?fmap_app, <-?list_fmap_compose; cbn; try done.
  - intros Hp. apply elem_of_cons in Hp as [->|Hp]; [left|by apply not_elem_of_nil in Hp].
  - rewrite (list_fmap_id). done.
  - rewrite !(list_fmap_id). done.
Qed.

Lemma unreferenced m r : referenced m r = false → unparented m r.
Proof.
  intros H r2 y Hy Hin. apply list_elem_of_fmap in Hin as ([k p] & Hp & Hin). cbn in Hp. subst p.
  apply parent_ref in Hin. apply not_true_iff_false in H. apply H. unfold referenced.
  apply existsb_exists. exists (r2, y). split.
  - apply list_elem_of_In. by apply elem_of_map_to_list.
  - apply existsb_exists. exists r. split; [by apply list_elem_of_In|apply Nat.eqb_refl].
Qed.

Lemma unparented_childless m r : unparented m r → childless (sh_of <$> m) r.
Proof.
  intros H r2 S2 k HS2 _ Hin. destruct (sh_lookup_inv _ _ HS2) as (y & Hy & ->).
  apply (H r2 y Hy). apply list_elem_of_fmap. by exists (k, r).
Qed.

Lemma unparented_insert m r k x :
  unparented m r → r ∉ (snd <$> sh_parents (sh_of x)) → unparented (<[k := x]> m) r.
Proof. intros H Hx r2 y Hy. apply lookup_insert_Some in Hy as [[_ <-]|[_ Hy]]; [done|by eapply H]. Qed.

(** An object whose [__dealloc__] has run. *)
Definition gone (r : nat) s : Prop :=
  Inv s ∧ (∃ x, b_heap s !! r = Some x ∧ sh_handle (sh_of x) = 0) ∧ unparented (b_heap s) r.

(** A childless object's destruction is not refused. *)
Lemma destroys_unparented s r x rc w :
  Inv s → b_heap s !! r = Some x → sh_handle (sh_of x) ≠ 0 → sh_kind (sh_of x) ≠ KCmContext →
  unparented (b_heap s) r →
  destroys live intact (sh_handle (sh_of x)) (b_world s) (rc, w) → rc = 0.
Proof.
  intros I Hr Hh Hk Hu [_ [[? _]|(_ & Hused & _)]]; [done|]. exfalso. revert Hused.
  apply (childless_unused (proj1 I) r); [by apply sh_lookup|done|done|by apply unparented_childless].
Qed.

Lemma gone_leaf s w r x x' :
  Inv s → b_heap s !! r = Some x → unparented (b_heap s) r → sh_handle (sh_of x) ≠ 0 →
  destroys live intact (sh_handle (sh_of x)) (b_world s) (0, w) →
  is_context (sh_kind (sh_of x)) = false ∧ sh_kind (sh_of x) ≠ KCmId →
  kcls (sh_kind (sh_of x')) = kcls (sh_kind (sh_of x)) → sh_handle (sh_of x') = 0 →
  sh_parents (sh_of x') = sh_parents (sh_of x) → (∀ c, child_of c x = 0) →
  gone r (set_heap (<[r := x']> (b_heap s)) (set_world w s)).
Proof.
  intros I Hr Hu Hh Hd Hp Hk H0 Hps Hc. split_and!.
  - unfold Inv. cbn. eapply (inv_close _ _ _ _ x); [exact I| |done]. by eapply closes_of.
  - exists x'. cbn. by rewrite lookup_insert_eq.
  - apply unparented_insert; [done|]. rewrite Hps. by eapply Hu.
Qed.

(** The objects without a count: destroy and forget. *)
Lemma wp_dealloc_leaf {O} `{!PyClass O} `{!PyClassLaws O} (f : W → Z * W) (g : O → O) (o : O) r s :
  Inv s → b_heap s !! r = Some (to_obj o) → of_obj (to_obj o) = Some o →
  unparented (b_heap s) r → sh_handle (sh_of (to_obj o)) ≠ 0 →
  destroys live intact (sh_handle (sh_of (to_obj o))) (b_world s) (f (b_world s)) →
  is_context (sh_kind (sh_of (to_obj o))) = false ∧ sh_kind (sh_of (to_obj o)) ≠ KCmId →
  kcls (sh_kind (sh_of (to_obj (g o)))) = kcls (sh_kind (sh_of (to_obj o))) →
  sh_handle (sh_of (to_obj (g o))) = 0 →
  sh_parents (sh_of (to_obj (g o))) = sh_parents (sh_of (to_obj o)) →
  (∀ c, child_of c (to_obj o) = 0) →
  wp (native f;; update r g) (λ _, gone r) (λ _, Inv) s.
Proof.
  intros I Hr Ho Hu Hh Hd Hp Hk H0 Hps Hc. apply wp_bind, wp_native. intros rc w Hf. rewrite Hf in Hd.
  assert (rc = 0) as ->.
  { eapply (destroys_unparented s r (to_obj o)); try done. intros E. rewrite E in Hp. by destruct Hp. }
  eapply (wp_update_at _ _ o); [done|done|]. by eapply (gone_leaf s w r (to_obj o)).
Qed.

(** An object that was already closed. *)
Lemma gone_closed s r x :
  Inv s → b_heap s !! r = Some x → unparented (b_heap s) r → sh_handle (sh_of x) = 0 → gone r s.
Proof. intros I Hr Hu H0. split_and!; eauto. Qed.

Lemma MR_dealloc_gone r o s :
  Inv s → b_heap s !! r = Some (OMR o) → unparented (b_heap s) r →
  wp (MR_dealloc r) (λ _, gone r) (λ _, Inv) s.
Proof.
  intros I Hr Hu. unfold MR_dealloc. step. apply wp_load; [|done]. intros q Hq.
  assert (q = o) as -> by (cbn in *; congruence). destruct (mr_mr o =? 0) eqn:E0.
  { step. eapply gone_closed; [done|done|done|cbn; lia]. }
  eapply (wp_dealloc_leaf _ (set_mr 0) o); try done; [cbn; lia|].
  apply law_dereg_mr; [by apply inv_intact|]. apply (alive_mr s r o); [done..|lia].
Qed.

Lemma AH_dealloc_gone r o s :
  Inv s → b_heap s !! r = Some (OAH o) → unparented (b_heap s) r →
  wp (AH_dealloc r) (λ _, gone r) (λ _, Inv) s.
Proof.
  intros I Hr Hu. unfold AH_dealloc. step. apply wp_load; [|done]. intros q Hq.
  assert (q = o) as -> by (cbn in *; congruence). destruct (ah_ah o =? 0) eqn:E0.
  { step. eapply gone_closed; [done|done|done|cbn; lia]. }
  eapply (wp_dealloc_leaf _ (set_ah 0) o); try done; [cbn; lia|].
  apply law_destroy_ah; [by apply inv_intact|]. apply (alive_ah s r o); [done..|lia].
Qed.

Lemma SRQ_dealloc_gone r o s :
  Inv s → b_heap s !! r = Some (OSRQ o) → unparented (b_heap s) r →
  wp (SRQ_dealloc r) (λ _, gone r) (λ _, Inv) s.
Proof.
  intros I Hr Hu. unfold SRQ_dealloc. step. apply wp_load; [|done]. intros q Hq.
  assert (q = o) as -> by (cbn in *; congruence). destruct (srq_srq o =? 0) eqn:E0.
  { step. eapply gone_closed; [done|done|done|cbn; lia]. }
  eapply (wp_dealloc_leaf _ (set_srq 0) o); try done; [cbn; lia|].
  apply law_destroy_srq; [by apply inv_intact|]. apply (alive_srq s r o); [done..|lia].
Qed.

(** The end of a [__dealloc__] that gives a child back: the context first.  [m0] is the
    heap with the object as the library has come to know it. *)
Lemma gone_child {O} `{!PyClass O} `{!PyClassLaws O} (g : O → O) (o : O) s m0 w0 w r x c rc :
  inv m0 w0 → m0 = <[r := x]> (b_heap s) → closes m0 w0 w r x (to_obj (g o)) → rc = 0 →
  b_heap s !! r = Some (to_obj o) → of_obj (to_obj o) = Some o →
  unparented (b_heap s) r → sh_parents (sh_of x) = sh_parents (sh_of (to_obj o)) →
  sh_parents (sh_of (to_obj (g o))) = sh_parents (sh_of x) → (LContext, c) ∈ sh_parents (sh_of x) →
  (∀ c', child_of c' x = if decide (c' = c) then 1 else 0) →
  wp ((if rc =? 0 then _release_child c else mret tt);; update r g) (λ _, gone r) (λ _, Inv) (set_world w s).
Proof.
  intros I Hm F -> Hr Ho Hu Hxo Hps Hp Hc. cbn [Z.eqb].
  destruct (inv_context I _ _ _ (closes_here _ _ _ _ _ _ F) Hp) as (k & Hk & _).
  assert (r ≠ c) as Hne.
  { intros ->. pose proof (closes_here _ _ _ _ _ _ F). destruct (closes_not_kids _ _ _ _ _ _ F) as [Hn _].
    by simplify_eq. }
  assert (b_heap s !! c = Some (OContext k)) as Hk' by (subst m0; by rewrite lookup_insert_ne in Hk).
  step. unfold _release_child. eapply (wp_update_at _ _ k); [exact Hk'|done|]. cbn.
  eapply (wp_update_at _ _ o); [cbn; by rewrite lookup_insert_ne|done|]. cbn. split_and!.
  - unfold Inv. cbn. rewrite insert_insert_ne by done.
    rewrite <-(insert_insert_eq (b_heap s) r (to_obj (g o)) x), <-Hm. by eapply (inv_close_child _ _ _ _ x).
  - eexists. split; [by apply lookup_insert_eq|]. apply (closes_handle _ _ _ _ _ _ F).
  - apply unparented_insert; [apply unparented_insert; [done|by apply not_elem_of_nil]|].
    rewrite Hps, Hxo. by eapply Hu.
Qed.

Lemma PD_dealloc_gone r o s :
  Inv s → b_heap s !! r = Some (OPD o) → unparented (b_heap s) r →
  wp (PD_dealloc r) (λ _, gone r) (λ _, Inv) s.
Proof.
  intros I Hr Hu. unfold PD_dealloc. step. apply wp_load; [|done]. intros q Hq.
  assert (q = o) as -> by (cbn in *; congruence). destruct (pd_pd o =? 0) eqn:E0.
  { step. eapply gone_closed; [done|done|done|cbn; lia]. }
  apply wp_bind, wp_native. intros rc w Hf.
  pose proof (law_dealloc_pd (pd_pd o) (b_world s) (inv_intact _ I)) as Hd. rewrite Hf in Hd.
  specialize (Hd ltac:(apply (alive_pd s r o); [done..|lia])).
  assert (rc = 0) as Hrc by (eapply (destroys_unparented s r (OPD o)); try done; cbn; lia).
  apply (gone_child (set_pd 0) o s (b_heap s) (b_world s) w r (OPD o)); try done;
    [by rewrite insert_id| |left|intros c'; apply child_at; [lia|done]].
  eapply closes_of; try done. cbn. lia.
Qed.

Lemma CompChannel_dealloc_gone r o s :
  Inv s → b_heap s !! r = Some (OCompChannel o) → unparented (b_heap s) r →
  wp (CompChannel_dealloc r) (λ _, gone r) (λ _, Inv) s.
Proof.
  intros I Hr Hu. unfold CompChannel_dealloc. step. apply wp_load; [|done]. intros q Hq.
  assert (q = o) as -> by (cbn in *; congruence). destruct (chan_chan o =? 0) eqn:E0.
  { step. eapply gone_closed; [done|done|done|cbn; lia]. }
  apply wp_bind, wp_native. intros rc w Hf.
  pose proof (law_destroy_comp_channel (chan_chan o) (b_world s) (inv_intact _ I)) as Hd. rewrite Hf in Hd.
  specialize (Hd ltac:(apply (alive_chan s r o); [done..|lia])).
  assert (rc = 0) as Hrc by (eapply (destroys_unparented s r (OCompChannel o)); try done; cbn; lia).
  apply (gone_child (set_chan 0) o s (b_heap s) (b_world s) w r (OCompChannel o)); try done;
    [by rewrite insert_id| |left|intros c'; apply child_at; [lia|done]].
  eapply closes_of; try done. cbn. lia.
Qed.

(** The events of a queue are acknowledged in the library only: the object goes. *)
Lemma CQ_dealloc_gone r o s :
  Inv s → b_heap s !! r = Some (OCQ o) → unparented (b_heap s) r →
  wp (CQ_dealloc r) (λ _, gone r) (λ _, Inv) s.
Proof.
  intros I Hr Hu. unfold CQ_dealloc. step. apply wp_load; [|done]. intros q Hq.
  assert (q = o) as -> by (cbn in *; congruence). destruct (cq_cq o =? 0) eqn:E0.
  { step. eapply gone_closed; [done|done|done|cbn; lia]. }
  assert (Hz : cq_cq o ≠ 0) by lia. destruct (cq_live s r o I Hr Hz) as (d & Hl & _ & Hb).
  set (o0 := set_unacked 0 o).
  assert (Hack : wp (if 0 <? cq_unacked o then native_ (v_ack_cq_events (cq_cq o) (u32 (cq_unacked o))) else mret tt)
            (λ _ t, b_heap t = b_heap s ∧ inv (<[r := OCQ o0]> (b_heap s)) (b_world t)) (λ _, Inv) s).
  { destruct (0 <? cq_unacked o) eqn:E.
    - unfold native_. apply wp_native. intros [] w [= <-]. split; [done|]. cbn.
      unfold u32. rewrite Z.mod_small by lia.
      pose proof (ack_inv s r o (cq_unacked o) I Hr Hz ltac:(lia)) as Hi. by rewrite Z.sub_diag in Hi.
    - step. split; [done|]. assert (cq_unacked o = 0) as H0 by lia. unfold o0.
      replace (set_unacked 0 o) with o; [by rewrite insert_id|]. unfold set_unacked. rewrite <-H0. by destruct o. }
  step. eapply wp_mono; [exact Hack| |done]. intros [] t [Hh It].
  set (t' := set_heap (<[r := OCQ o0]> (b_heap s)) t).
  assert (It' : Inv t') by done.
  assert (Hr' : b_heap t' !! r = Some (OCQ o0)) by apply lookup_insert_eq.
  assert (Hu' : unparented (b_heap t') r) by (apply unparented_insert; [done|exact (Hu _ _ Hr)]).
  apply wp_bind, wp_native. intros rc w Hf.
  destruct (cq_live t' r o0 It' Hr' Hz) as (d' & Hl' & _).
  pose proof (law_destroy_cq (cq_cq o) r d' (b_world t') (inv_intact _ It') Hl') as Hd. cbn in Hd. rewrite Hf in Hd.
  assert (rc = 0) as Hrc by (by eapply (destroys_unparented t' r (OCQ o0))).
  eapply (gone_child (set_cq 0) o t (b_heap t') (b_world t) w r (OCQ o0)); try done;
    [by rewrite Hh| |by rewrite Hh|by rewrite Hh|left|intros c'; by apply child_at].
  by eapply (closes_of _ _ _ _ (OCQ o0)).
Qed.

Lemma QP_dealloc_gone r o s :
  Inv s → b_heap s !! r = Some (OQP o) → unparented (b_heap s) r →
  wp (QP_dealloc r) (λ _, gone r) (λ _, Inv) s.
Proof.
  intros I Hr Hu. unfold QP_dealloc. step. apply wp_load; [|done]. intros q Hq.
  assert (q = o) as -> by (cbn in *; congruence). destruct (qp_qp o =? 0) eqn:E0.
  { step. eapply gone_closed; [done|done|done|cbn; lia]. }
  assert (Hz : qp_qp o ≠ 0) by lia. destruct (negb (qp_cm_id o =? 0)) eqn:Ec.
  - step. step. unfold native_ at 1. apply wp_native. intros [] w [= <-].
    eapply wp_update_at; [exact Hr|done|]. eapply wp_update_at; [by apply lookup_insert_eq|done|].
    cbn. rewrite insert_insert_eq. split_and!.
    + unfold Inv. cbn. eapply (inv_close _ _ _ _ (OQP o)); [exact I| |done].
      apply closes_cm; try done. lia.
    + eexists. split; [by apply lookup_insert_eq|]. done.
    + apply unparented_insert; [done|exact (Hu _ _ Hr)].
  - assert (qp_cm_id o = 0) as Hcm by lia. step.
    assert (alive (live (b_world s)) (only (KQP 0)) (qp_qp o)) as Ha.
    { apply (inv_handle s r (OQP o)); [done|done|cbn; lia|]. cbn. rewrite Hcm. by apply bool_decide_eq_true. }
    pose proof (law_destroy_qp (qp_qp o) (b_world s) (inv_intact _ I) Ha) as Hd.
    apply wp_bind, wp_native. intros rc w Hf. rewrite Hf in Hd. step.
    assert (rc = 0) as -> by (eapply (destroys_unparented s r (OQP o)); try done; cbn; lia).
    eapply wp_update_at; [exact Hr|done|]. by eapply (gone_leaf s w r (OQP o)).
Qed.

Lemma Context_dealloc_gone r o s :
  Inv s → b_heap s !! r = Some (OContext o) → unparented (b_heap s) r →
  wp (Context_dealloc r) (λ _, gone r) (λ _, Inv) s.
Proof.
  intros I Hr Hu. unfold Context_dealloc. step. apply wp_load; [|done]. intros q Hq.
  assert (q = o) as -> by (cbn in *; congruence).
  assert (H0 : ctx_children o = 0).
  { rewrite (proj2 I r _ _ Hr eq_refl). apply msum_zero. intros r2 x Hx. apply child_of_other.
    intros Hp. apply (Hu r2 x Hx). apply list_elem_of_fmap. by exists (LContext, r). }
  destruct (ctx_owned o && negb (ctx_ctx o =? 0) && (ctx_children o =? 0)) eqn:E.
  - apply andb_true_iff in E as [E _]. apply andb_true_iff in E as [Eo Eh].
    apply wp_bind, (wp_close_device r); [done|done|lia|done|done|]. intros rc w Hi Hl.
    eapply wp_update_at; [exact Hr|done|]. cbn. split_and!.
    + unfold Inv. cbn. eapply inv_close_context; [exact I|done|lia|done|done|done|].
      destruct Hl as [[_ ->]|[_ ->]]; auto.
    + eexists. split; [by apply lookup_insert_eq|]. done.
    + apply unparented_insert; [done|by apply not_elem_of_nil].
  - step. eapply gone_closed; [done|done|done|]. cbn. destruct (decide (ctx_ctx o = 0)) as [|Hz]; [done|].
    assert (ctx_owned o = false) as Ho.
    { rewrite H0 in E. destruct (ctx_owned o); [|done]. cbn in E. lia. }
    destruct (core_borrow _ _ (proj1 I) r (sh_of (OContext o))) as (i & J & HJ & _ & _ & Hp);
      [by apply sh_lookup|cbn; by rewrite Ho|done|].
    destruct (sh_lookup_inv _ _ HJ) as (y & Hy & ->). exfalso. apply (Hu i y Hy). rewrite Hp. left.
Qed.

(** An endpoint may go when its context has no open child left. *)
Lemma CMID_dealloc_gone r o c s :
  Inv s → b_heap s !! r = Some (OCMID o) → unparented (b_heap s) r →
  b_heap s !! cm_context o = Some (OContext c) → ctx_children c = 0 →
  wp (CMID_dealloc r) (λ _, gone r) (λ _, Inv) s.
Proof.
  intros I Hr Hu Hc H0. unfold CMID_dealloc. step. apply wp_load; [|done]. intros q Hq.
  assert (q = o) as -> by (cbn in *; congruence). destruct (cm_id o =? 0) eqn:E0.
  { step. eapply gone_closed; [done|done|done|cbn; lia]. }
  assert (Hz : cm_id o ≠ 0) by lia.
  assert (Hch : childless (sh_of <$> b_heap s) r) by by apply unparented_childless.
  assert (cm_id_qp (b_world s) (cm_id o) = 0) as Hq0.
  { destruct (decide (cm_id_qp (b_world s) (cm_id o) = 0)) as [|Hne]; [done|exfalso].
    destruct (law_cm_id_qp _ _ (inv_intact _ I) (alive_cm s r o I Hr Hz)) as [_ Hqp].
    destruct (Hqp Hne) as (n & Hn & Hk).
    destruct (core_owner (proj1 I) _ _ Hn ltac:(by rewrite Hk)) as (q & S & HS & Hh & Hnz & ->).
    destruct (sh_lookup_inv _ _ HS) as (y & Hy & ->).
    destruct y as [c'| | | | |y| | | |]; cbn in Hk; try discriminate Hk;
      [by destruct (ctx_owned c')|]. injection Hk as Hk.
    destruct (qp_endpoint s q y I Hy) as (i & e & Ho & He & Hid & _); [cbn in Hh; congruence|congruence|].
    assert (i = r) as ->.
    { apply (core_inj _ _ (proj1 I) i r (sh_of (OCMID e)) (sh_of (OCMID o)));
        [by apply sh_lookup|by apply sh_lookup|cbn; congruence|cbn; congruence|done]. }
    apply (Hu q (OQP y) Hy). cbn. rewrite Ho. cbn. rewrite !fmap_app. cbn.
    do 3 right. apply elem_of_app. right. left. }
  do 2 step. rewrite Hq0. cbn [Z.eqb negb]. do 2 step.
  assert (r ≠ cm_context o) as Hne by (intros ->; congruence).
  destruct (inv_close_endpoint I Hr Hz Hc H0 Hch (cm_connected o)) as [Hi Hinv].
  step. eapply wp_update_at; [exact Hc|done|]. step. unfold native_. apply wp_native. intros [] w [= <-].
  eapply (wp_update_at _ _ o); [cbn; by rewrite lookup_insert_ne|done|]. cbn. split_and!.
  - unfold Inv. cbn. unfold set_connected in Hinv. cbn in Hinv. done.
  - eexists. split; [by apply lookup_insert_eq|]. done.
  - apply unparented_insert; [|exact (Hu _ _ Hr)].
    apply unparented_insert; [done|by apply not_elem_of_nil].
Qed.

(** What makes a collection safe: an endpoint is not dropped while objects made from its
    context are open. *)
Definition collectable m (r : nat) : Prop :=
  match m !! r with
  | Some (OCMID o) =>
      cm_id o ≠ 0 → ∀ c, m !! cm_context o = Some (OContext c) → ctx_children c = 0
  | _ => True
  end.

Lemma dealloc_gone r x s :
  Inv s → b_heap s !! r = Some x → unparented (b_heap s) r → collectable (b_heap s) r →
  wp (dealloc_body r x) (λ _, gone r) (λ _, Inv) s.
Proof.
  intros I Hr Hu Hc. destruct x as [o|o|o|o|o|o|o|o|o|o]; cbn [dealloc_body].
  - by eapply Context_dealloc_gone.
  - by eapply PD_dealloc_gone.
  - by eapply MR_dealloc_gone.
  - by eapply CompChannel_dealloc_gone.
  - by eapply CQ_dealloc_gone.
  - by eapply QP_dealloc_gone.
  - by eapply AH_dealloc_gone.
  - by eapply SRQ_dealloc_gone.
  - unfold collectable in Hc. rewrite Hr in Hc. destruct (decide (cm_id o = 0)) as [Hz|Hz].
    + unfold CMID_dealloc. step. apply wp_load; [|done]. intros q Hq.
      assert (q = o) as -> by (cbn in *; congruence). rewrite Hz. cbn [Z.eqb]. step. by eapply gone_closed.
    + destruct (inv_context I r (OCMID o) (cm_context o) Hr ltac:(left)) as (c & Hcc & _).
      eapply CMID_dealloc_gone; try done. by apply Hc.
  - step. by eapply gone_closed.
Qed.

Lemma collect_safe r s :
  Inv s → collectable (b_heap s) r → wp (collect r) (λ _, Inv) (λ _, Inv) s.
Proof.
  intros I Hc. unfold collect. step. step. destruct (b_heap s !! r) as [x|] eqn:Hr; [|by step].
  destruct (referenced (b_heap s) r) eqn:Href; [by step|]. step.
  eapply wp_mono; [apply dealloc_gone; [done|done|by apply unreferenced|done]| |done].
  intros [] t (It & (y & Hy & H0) & Hu). apply wp_modify. unfold Inv. cbn.
  eapply inv_delete; [done|exact Hy|done|]. intros r2 z _ Hz. by eapply Hu.
Qed.
End Collection.
