(* ===== verification/VerbsAlong.v ===== *)
(** What the methods of the verbs binding do to the heap whether they return or raise:
    relations between the state before and after ([along] of the prelude) that hold of
    a native call, which leaves the heap alone, and of a change of one object. *)

From S2P Require Import Prelude Bytes Json.
From S2P Require Import Helpers.
From S2P Require Import VerbsLib VerbsValues VerbsPost.
From S2P Require Import VerbsObjects VerbsSafety VerbsMethods.
From S2P Require Import VerbsInvariant.
#[local] Open Scope Z_scope.

(** A relation that a call to the libraries keeps, and a change of an object to one that
    is similar. *)
Class HeapRel {W} (R : relation (Binding W)) := {
  hr_preorder :: PreOrder R;
  hr_sim : relation PyObj;
  hr_heap s t : b_heap t = b_heap s → R s t;
  hr_store s r x x' :
    b_heap s !! r = Some x → hr_sim x x' → R s (set_heap (<[r := x']> (b_heap s)) s);
}.

Section Relation.
Context {W : Type} `{!Libibverbs W} (R : relation (Binding W)) `{!HeapRel R}.

Lemma along_native {A} (f : W → A * W) : along R (native f).
Proof using HeapRel0. intros s. apply hr_heap. unfold native. by destruct (f (b_world s)). Qed.
Lemma along_peek {A} (f : W → A) : along R (peek f).
Proof using HeapRel0. intros s. reflexivity. Qed.
Lemma along_load {O} `{!PyClass O} r : along R (load (O := O) r).
Proof using HeapRel0. intros s. unfold load. destruct (_ ≫= _); reflexivity. Qed.
Lemma along_modify_heap f : (∀ s, b_heap (f s) = b_heap s) → along R (modify f).
Proof using HeapRel0. intros Hf s. apply hr_heap. cbn. by rewrite Hf. Qed.
Lemma along_fail {A} : along R (_fail (A := A)).
Proof using HeapRel0.
  unfold _fail. apply along_bind; [apply _|apply along_peek|]. intros e. apply along_raise, _.
Qed.
Lemma along_fail_rc {A} rc : along R (_fail_rc (A := A) rc).
Proof using HeapRel0.
  unfold _fail_rc. apply along_bind; [apply _|apply along_peek|]. intros e. apply along_raise, _.
Qed.
Lemma along_check_rc rc : along R (check_rc rc).
Proof using HeapRel0. unfold check_rc. destruct (rc =? 0); [apply along_ret, _|apply along_fail_rc]. Qed.
Lemma along_check_null p : along R (check_null p).
Proof using HeapRel0. unfold check_null. destruct (p =? 0); [apply along_fail|apply along_ret, _]. Qed.
Lemma along_ensure h : along R (ensure h).
Proof using HeapRel0. apply along_guard, _. Qed.
Lemma along_c_int v : along R (c_int v).
Proof using HeapRel0. apply along_lift, _. Qed.
Lemma along_c_uint b v : along R (c_uint b v).
Proof using HeapRel0. apply along_lift, _. Qed.
Lemma along_update {O} `{!PyClass O} `{!PyClassLaws O} r (f : O → O) :
  (∀ o, hr_sim (to_obj o) (to_obj (f o))) → along R (update r f).
Proof using HeapRel0.
  intros Hf s. unfold update, mbind, M_bind, load. destruct (b_heap s !! r) as [x|] eqn:Hr; [|reflexivity].
  cbn. destruct (of_obj x) as [o|] eqn:Ho; [|reflexivity]. cbn. eapply hr_store; [exact Hr|].
  rewrite (of_obj_some _ _ Ho). apply Hf.
Qed.
End Relation.

#[export] Hint Resolve along_native along_peek along_load along_fail along_fail_rc along_check_rc
  along_check_null along_ensure along_c_int along_c_uint : along.

(** Break a call into its parts, each of which keeps the relation. *)
Ltac quiet :=
  repeat first
    [ progress intros
    | lazymatch goal with
      | |- along _ (update _ _) => refine (along_update _ _ _ _); intros []; cbn; repeat case_match; try done
      | |- along _ (modify _) => refine (along_modify_heap _ _ _); by intros []
      | |- along _ (new _) => solve [auto 2 with along nocore]
      | |- along _ (_ ≫= _) => apply along_bind; [apply _|..]
      | |- along _ (try_except _ _) => apply along_try; [apply _|..]
      | |- along _ (try_finally _ _) => apply along_finally; [apply _|..]
      | |- along _ (for_each _ _) => apply along_for_each; [apply _|..]
      end
    | match goal with H : _ |- _ => apply H end
    | solve [auto 2 with along nocore typeclass_instances]
    | case_match ].

(** The methods by their bodies. *)
Create HintDb verbs_methods.
#[export] Hint Unfold set_sym _load_libibverbs _has_rdmacm get_device_list Device_open Context_wrap
  Context_wrap_borrowed num_comp_vectors async_fd query_device query_port query_gid alloc_pd PD_wrap
  create_comp_channel CompChannel_wrap _add_child _release_child create_cq cq_channel_handle
  get_async_event Context_close reg_mr reg_dmabuf_mr MR_wrap create_ah create_srq PD_close
  MR_addr MR_length MR_lkey MR_rkey MR_handle mr_field SGE_mr MR_sge MR_keepalive MR_close
  CompChannel_fd get_cq_event CompChannel_close CQ_cqe poll req_notify ack_events CQ_close ack_all
  QP_qp_num QP_qp_type QP_state QP_query QP_modify to_init to_rtr to_rts post_send _post_send
  post_recv _post_recv_qp _post_recv_chain AH_close SRQ_post_recv SRQ_query SRQ_modify SRQ_close
  resolve source_hints create_endpoint wrap_endpoint connect disconnect CMID_close
  ctx_ensure pd_ensure mr_ensure chan_ensure cq_ensure qp_ensure srq_ensure cm_ensure native_
  Context_dealloc PD_dealloc MR_dealloc CompChannel_dealloc CQ_dealloc AH_dealloc SRQ_dealloc
  CMID_dealloc : verbs_methods.

