(* ===== verification/VerbsRuns.v ===== *)
(** Runs of a program on the verbs binding: any sequence of the methods of
    VerbsObjects on any arguments, going on after the exceptions they raise, with the
    garbage collector dropping objects in between.

    A run starts with no objects.  Three of the calls come with a condition
    ([allowed]), which VerbsExamples shows to be needed; under it no call hands the
    libraries a dead handle, and no native object is lost. *)

From S2P Require Import Prelude Bytes Json.
From S2P Require Import GpuNetIO.
From S2P Require Import Helpers.
From S2P Require Import VerbsLib VerbsValues VerbsPost.
From S2P Require Import VerbsObjects VerbsSafety VerbsMethods.
From S2P Require Import VerbsInvariant.
#[local] Open Scope Z_scope.

(** * Calls *)

(** The methods and functions of the module, and the collection of an object. *)
Inductive call :=
| C_load_libibverbs | C_has_rdmacm | C_get_device_list | C_open (d : Device)
| C_num_comp_vectors (r : nat) | C_async_fd (r : nat) | C_query_device (r : nat)
| C_query_port (r : nat) (port : Z) | C_query_gid (r : nat) (port index : Z)
| C_alloc_pd (r : nat) | C_create_comp_channel (r : nat)
| C_create_cq (r : nat) (cqe : Z) (channel : option nat) (comp_vector : Z)
| C_get_async_event (r : nat) | C_ack_async_event (r ev : nat) | C_close_context (r : nat)
| C_reg_mr (r : nat) (addr len access : Z)
| C_reg_dmabuf_mr (r : nat) (offset len iova fd access : Z)
| C_create_qp (r : nat) (i : QPInitAttr) | C_create_ah (r : nat) (a : AHAttr)
| C_create_srq (r : nat) (max_wr max_sge limit : Z) | C_close_pd (r : nat)
| C_mr_addr (r : nat) | C_mr_length (r : nat) | C_mr_lkey (r : nat) | C_mr_rkey (r : nat)
| C_mr_handle (r : nat) | C_sge_mr (r : nat) (len lkey offset : Z)
| C_sge (r : nat) (len : option Z) (offset : Z) | C_keepalive (r owner : nat) | C_close_mr (r : nat)
| C_chan_fd (r : nat) | C_get_cq_event (r : nat) | C_close_chan (r : nat)
| C_cqe (r : nat) | C_poll (r : nat) (n : Z) | C_req_notify (r : nat) (solicited : bool)
| C_ack_events (r : nat) (n : Z) | C_close_cq (r : nat)
| C_qp_num (r : nat) | C_qp_type (r : nat) | C_bridge_info (r : nat) | C_acquire (r : nat)
| C_release (r : nat) | C_state (r : nat) | C_query (r : nat)
| C_modify (r : nat) (mask : Z) (ah : option AHAttr) (known : bool) (fields : list (qp_field * Z))
| C_to_init (r : nat) (port access pkey qk : Z)
| C_to_rtr (r : nat) (remote : QPInfo) (sgid : Z) (mtu : option Z) (hop timer drd sl tc : Z)
| C_to_rts (r : nat) (psn tmo retry rnr rd : Z)
| C_post_send (r : nat) (wrs : list SendWR) | C_post_recv (r : nat) (wrs : list RecvWR)
| C_close_qp (r : nat) | C_close_ah (r : nat)
| C_srq_post_recv (r : nat) (wrs : list RecvWR) | C_srq_query (r : nat)
| C_srq_modify (r : nat) (max_wr limit : option Z) | C_close_srq (r : nat)
| C_resolve (host : str) (port : Z) (source : option str)
| C_cm_create_qp (r pd : nat) (i : QPInitAttr)
| C_connect (r : nat) (data : bytes) (responder initiator retry rnr : Z)
| C_disconnect (r : nat) | C_close_cm (r : nat)
| C_collect (r : nat).

Section Runs.
Context {W : Type} `{!Libibverbs W}.
Abbreviation B := (Binding W).
Implicit Types s : B.

(** The state after a call, which returns or raises. *)
Definition after {A} (f : M B A) s : B := (f s).2.

Definition run_call (c : call) : B → B :=
  match c with
  | C_load_libibverbs => after _load_libibverbs
  | C_has_rdmacm => after _has_rdmacm
  | C_get_device_list => after get_device_list
  | C_open d => after (Device_open d)
  | C_num_comp_vectors r => after (num_comp_vectors r)
  | C_async_fd r => after (async_fd r)
  | C_query_device r => after (query_device r)
  | C_query_port r p => after (query_port r p)
  | C_query_gid r p i => after (query_gid r p i)
  | C_alloc_pd r => after (alloc_pd r)
  | C_create_comp_channel r => after (create_comp_channel r)
  | C_create_cq r n ch v => after (create_cq r n ch v)
  | C_get_async_event r => after (get_async_event r)
  | C_ack_async_event r e => after (ack_async_event r e)
  | C_close_context r => after (Context_close r)
  | C_reg_mr r a l f => after (reg_mr r a l f)
  | C_reg_dmabuf_mr r o l i fd f => after (reg_dmabuf_mr r o l i fd f)
  | C_create_qp r i => after (create_qp r i)
  | C_create_ah r a => after (create_ah r a)
  | C_create_srq r n g l => after (create_srq r n g l)
  | C_close_pd r => after (PD_close r)
  | C_mr_addr r => after (MR_addr r)
  | C_mr_length r => after (MR_length r)
  | C_mr_lkey r => after (MR_lkey r)
  | C_mr_rkey r => after (MR_rkey r)
  | C_mr_handle r => after (MR_handle r)
  | C_sge_mr r l k o => after (SGE_mr r l k o)
  | C_sge r l o => after (MR_sge r l o)
  | C_keepalive r o => after (MR_keepalive r o)
  | C_close_mr r => after (MR_close r)
  | C_chan_fd r => after (CompChannel_fd r)
  | C_get_cq_event r => after (get_cq_event r)
  | C_close_chan r => after (CompChannel_close r)
  | C_cqe r => after (CQ_cqe r)
  | C_poll r n => after (poll r n)
  | C_req_notify r b => after (req_notify r b)
  | C_ack_events r n => after (ack_events r n)
  | C_close_cq r => after (CQ_close r)
  | C_qp_num r => after (QP_qp_num r)
  | C_qp_type r => after (QP_qp_type r)
  | C_bridge_info r => after (_mlx5dv_bridge_info r)
  | C_acquire r => after (_acquire_external_datapath r)
  | C_release r => after (_release_external_datapath r)
  | C_state r => after (QP_state r)
  | C_query r => after (QP_query r)
  | C_modify r m ah k f => after (QP_modify r m ah k f)
  | C_to_init r p a k q => after (to_init r p a k q)
  | C_to_rtr r q g mtu h t d sl tc => after (to_rtr r q g mtu h t d sl tc)
  | C_to_rts r p t y n d => after (to_rts r p t y n d)
  | C_post_send r l => after (post_send r l)
  | C_post_recv r l => after (post_recv r l)
  | C_close_qp r => after (QP_close r)
  | C_close_ah r => after (AH_close r)
  | C_srq_post_recv r l => after (SRQ_post_recv r l)
  | C_srq_query r => after (SRQ_query r)
  | C_srq_modify r a b => after (SRQ_modify r a b)
  | C_close_srq r => after (SRQ_close r)
  | C_resolve h p src => after (resolve h p src)
  | C_cm_create_qp r pd i => after (CMID_create_qp r pd i)
  | C_connect r d a b y n => after (connect r d a b y n)
  | C_disconnect r => after (disconnect r)
  | C_close_cm r => after (CMID_close r)
  | C_collect r => after (collect r)
  end.
Definition run_calls (l : list call) s : B := foldl (λ s c, run_call c s) s l.

(** The program's part: it acknowledges fewer than 2^31 events at a time, the address
    handles of its datagrams are open, and it keeps an endpoint as long as it keeps
    the objects made from the endpoint's context. *)
Definition allowed s (c : call) : Prop :=
  match c with
  | C_ack_events _ n => n < 2 ^ 31
  | C_post_send _ l => ahs_open s l
  | C_collect r => collectable (b_heap s) r
  | _ => True
  end.

(** The states of the runs that start in [s0], of a program that makes the calls of [P]. *)
Inductive reach (P : B → call → Prop) (s0 : B) : B → Prop :=
| reach_start : reach P s0 s0
| reach_call s c : reach P s0 s → P s c → reach P s0 (run_call c s).

Fixpoint all_calls (P : B → call → Prop) (l : list call) s : Prop :=
  match l with [] => True | c :: l => P s c ∧ all_calls P l (run_call c s) end.

Lemma reach_run P s0 l : ∀ s, reach P s0 s → all_calls P l s → reach P s0 (run_calls l s).
Proof.
  induction l as [|c l IH]; intros s Hs; [done|]. intros [Hc Hl]. by apply IH; [constructor|].
Qed.

Lemma reach_mono (P Q : B → call → Prop) s0 s :
  (∀ s c, P s c → Q s c) → reach P s0 s → reach Q s0 s.
Proof. intros HPQ. induction 1; constructor; auto. Qed.

Lemma wp_after {A} (f : M B A) (Q : B → Prop) s : wp f (λ _, Q) (λ _, Q) s → Q (after f s).
Proof. unfold wp, after. by destruct (f s) as [[] t]. Qed.

Context `{!LibibverbsLaws W}.

(** * The remaining methods *)

Lemma peek_safe {A} (f : W → A) : safe (peek f).
Proof. by intros s I. Qed.

Lemma num_comp_vectors_safe r : safe (num_comp_vectors r).
Proof. intros s I. unfold num_comp_vectors. by steps. Qed.
Lemma async_fd_safe r : safe (async_fd r).
Proof. intros s I. unfold async_fd. by steps. Qed.
Lemma CompChannel_fd_safe r : safe (CompChannel_fd r).
Proof. intros s I. unfold CompChannel_fd. by steps. Qed.
Lemma CQ_cqe_safe r : safe (CQ_cqe r).
Proof. intros s I. unfold CQ_cqe. by steps. Qed.
Lemma QP_qp_num_safe r : safe (QP_qp_num r).
Proof. intros s I. unfold QP_qp_num. by steps. Qed.
Lemma QP_qp_type_safe r : safe (QP_qp_type r).
Proof. intros s I. unfold QP_qp_type. by steps. Qed.
Lemma mr_field_safe f r : safe (mr_field f r).
Proof. intros s I. unfold mr_field. by steps. Qed.
Lemma SGE_mr_safe r l k o : safe (SGE_mr r l k o).
Proof. intros s I. unfold SGE_mr. by steps. Qed.
Lemma MR_sge_safe r l o : safe (MR_sge r l o).
Proof. intros s I. unfold MR_sge. steps. by apply SGE_mr_safe. Qed.

Lemma load_libibverbs_safe : safe _load_libibverbs.
Proof.
  intros s I. unfold _load_libibverbs.
  apply wp_bind, wp_kept; [done|by apply law_dl_open, inv_intact|]. intros h s' _ _ I'. steps.
  apply wp_modify. step. eapply wp_mono; [by apply load_syms_safe| |done].
  intros [] t It. steps. by apply wp_modify.
Qed.

Lemma has_rdmacm_safe : safe _has_rdmacm.
Proof.
  intros s I. unfold _has_rdmacm. apply wp_try_except. step.
  eapply wp_mono; [by apply load_librdmacm_safe|by intros; apply wp_ret|].
  intros e t It. by destruct e.
Qed.

(** An object that stands for no native object. *)
Lemma inv_plain (m : gmap nat PyObj) w r o :
  m !! r = None → inv m w → inv (<[r := OAsyncEvent o]> m) w.
Proof.
  intros Hr [C Hn]. split.
  2:{ apply counted_insert; [done|done|by rewrite Hr|]. intros c. unfold at_key. by rewrite Hr. }
  rewrite fmap_insert. set (X := mk_Shape KAddrInfo 0 []).
  assert (HX : (sh_of <$> m) !! r = None) by by rewrite lookup_fmap, Hr.
  change (sh_of (OAsyncEvent o)) with X. generalize dependent (sh_of <$> m). intros σ C HX.
  assert (Hold : ∀ r' S, <[r := X]> σ !! r' = Some S → S ≠ X → σ !! r' = Some S).
  { intros r' S HS Hne. apply lookup_insert_Some in HS as [[_ <-]|[_ HS]]; done. }
  assert (Hnew : ∀ r' S, σ !! r' = Some S → <[r := X]> σ !! r' = Some S).
  { intros r' S HS. rewrite lookup_insert_ne; [done|congruence]. }
  assert (Hhd : ∀ r' S k p, σ !! r' = Some S → (k, p) ∈ sh_parents S → hd (<[r := X]> σ) p = hd σ p).
  { intros r' S k p HS Hp. destruct (parent_some _ _ _ _ _ _ C HS Hp) as [P HP].
    apply hd_insert_ne. congruence. }
  destruct C as [C1 C2 C3 C4 C5 C6 C7 C8 C9 C10]. constructor; [done|..].
  - intros r' S HS Hh. apply Hold in HS; [|by intros ->]. rewrite (C2 _ _ HS Hh). f_equal. symmetry.
    apply denote_ext. intros k p. by apply (Hhd r').
  - intros r' S k p HS Hp. apply Hold in HS; [|intros ->; by apply not_elem_of_nil in Hp].
    destruct (C3 _ _ _ _ HS Hp) as (P & HP & H3). eauto.
  - intros r1 r2 S1 S2 H1 H2 He H0. apply Hold in H1; [|by intros ->]. apply Hold in H2; [|intros ->; by rewrite He in H0]. by apply (C4 r1 r2 S1 S2).
  - intros h n Hl Hk. destruct (C5 _ _ Hl Hk) as (r' & S & HS & Hh). eauto.
  - done.
  - intros r' S HS Hk Hh. apply Hold in HS; [|by intros ->].
    destruct (C7 _ _ HS Hk Hh) as (i & I & HI & H7). eauto.
  - intros i I HI Hk. apply Hold in HI; [|by intros ->].
    destruct (C8 _ _ HI Hk) as (c & P & Hp & HP & H8). eauto 6.
  - intros i1 i2 I1 I2 H1 H2 Hk1 Hk2. apply Hold in H1; [|by intros ->]. apply Hold in H2; [|by intros ->]. by apply (C9 i1 i2 I1 I2).
  - intros r' S HS Hh. apply Hold in HS; [|by intros ->].
    apply (cm_parent_ext σ); [intros k p; by apply (Hhd r')|by apply (C10 r')].
Qed.

Lemma get_async_event_safe r : safe (get_async_event r).
Proof.
  intros s I. unfold get_async_event. steps. calls law_get_async_event. steps. apply wp_new.
  apply inv_plain; [apply fresh_ref_new|done].
Qed.

End Runs.

(** * The invariant along a run *)

Create HintDb verbs_safe discriminated.
#[export] Hint Resolve load_libibverbs_safe has_rdmacm_safe get_device_list_safe Device_open_safe
  num_comp_vectors_safe async_fd_safe query_device_safe query_port_safe query_gid_safe
  alloc_pd_safe create_comp_channel_safe create_cq_safe get_async_event_safe ack_async_event_safe
  Context_close_safe reg_mr_safe reg_dmabuf_mr_safe create_qp_safe create_ah_safe create_srq_safe
  PD_close_safe mr_field_safe SGE_mr_safe MR_sge_safe MR_keepalive_safe MR_close_safe
  CompChannel_fd_safe get_cq_event_safe CompChannel_close_safe CQ_cqe_safe poll_safe
  req_notify_safe CQ_close_safe QP_qp_num_safe QP_qp_type_safe bridge_safe acquire_safe
  release_safe QP_state_safe QP_query_safe QP_modify_safe to_init_safe to_rtr_safe to_rts_safe
  post_recv_safe QP_close_safe AH_close_safe SRQ_post_recv_safe SRQ_query_safe SRQ_modify_safe
  SRQ_close_safe resolve_safe CMID_create_qp_safe connect_safe disconnect_safe CMID_close_safe
  : verbs_safe.

Section Reachable.
Context {W : Type} `{!Libibverbs W} `{!LibibverbsLaws W}.
Abbreviation B := (Binding W).
Implicit Types s : B.

Lemma safe_after {A} (f : M B A) s : Inv s → safe f → Inv (after f s).
Proof. intros I Hf. by apply wp_after, Hf. Qed.

Lemma call_safe c s : Inv s → allowed s c → Inv (run_call c s).
Proof.
  intros I Ha. destruct c; cbn [run_call];
    try (apply safe_after; [exact I|]; unfold MR_addr, MR_length, MR_lkey, MR_rkey, MR_handle;
         auto with verbs_safe; fail); apply wp_after.
  - by apply ack_events_safe.
  - by apply post_send_safe.
  - by apply collect_safe.
Qed.

(** A program at its start: no object, in Python or in the libraries. *)
Record started s : Prop := {
  start_heap : b_heap s = ∅;
  start_intact : intact (b_world s);
  start_live : live (b_world s) = ∅;
}.

Lemma started_inv s : started s → Inv s.
Proof.
  intros [Hh Hi Hl]. unfold Inv. rewrite Hh. split; [|by intros r x n Hx].
  rewrite fmap_empty. constructor; try done; rewrite Hl; by intros h n Hn.
Qed.

Lemma reach_inv s0 s : started s0 → reach allowed s0 s → Inv s.
Proof. intros Hs. induction 1; [by apply started_inv|by apply call_safe]. Qed.
End Reachable.
