(* ===== verification/VerbsTheorems.v ===== *)
(** What the invariant of VerbsInvariant gives for every run of VerbsRuns: open objects
    hold live native objects and open parents, native objects have an owner, and a
    context or a protection domain closes exactly when nothing made from it is open. *)

From S2P Require Import Prelude Bytes Json.
From S2P Require Import GpuNetIO.
From S2P Require Import Helpers.
From S2P Require Import VerbsLib VerbsValues VerbsPost.
From S2P Require Import VerbsObjects VerbsSafety VerbsMethods.
From S2P Require Import VerbsInvariant VerbsRuns.
#[local] Open Scope Z_scope.

(** The handle of an object, 0 when it is closed, and the objects it was made from. *)
Definition handle_of (x : PyObj) : Z := sh_handle (sh_of x).
Definition parents_of (x : PyObj) : list nat := snd <$> sh_parents (sh_of x).
Definition handle_at (m : gmap nat PyObj) (r : nat) : Z :=
  match m !! r with Some x => handle_of x | None => 0 end.

(** The kind of native object that the object at [r] owns: the fields that the binding
    keeps of it are part of it, such as the events not yet acknowledged. *)
Definition native_of (r : nat) (x : PyObj) : NKind := native_kind r (sh_kind (sh_of x)).

(** A context borrowed from an endpoint of librdmacm. *)
Definition borrowed (x : PyObj) : bool :=
  match x with OContext o => negb (ctx_owned o) | _ => false end.

(** [x] is open and was made from the object at [p]. *)
Definition open_child (p : nat) (x : PyObj) : Prop := handle_of x ≠ 0 ∧ p ∈ parents_of x.

Section Theorems.
Context {W : Type} `{!Libibverbs W} `{!LibibverbsLaws W}.
Abbreviation B := (Binding W).
Implicit Types (s : B) (w : W) (m : gmap nat PyObj).

Lemma handle_at_hd m r : handle_at m r = hd (sh_of <$> m) r.
Proof. unfold handle_at, hd. rewrite lookup_fmap. by destruct (m !! r). Qed.

Lemma parents_denote m r x :
  n_deps (denote (sh_of <$> m) r (sh_of x)) = handle_at m <$> parents_of x.
Proof.
  unfold denote, parents_of. cbn. rewrite <-list_fmap_compose. apply list_fmap_ext.
  intros i p _. cbn. by rewrite handle_at_hd.
Qed.

Lemma elem_of_parents p x : p ∈ parents_of x ↔ ∃ k, (k, p) ∈ sh_parents (sh_of x).
Proof.
  unfold parents_of. rewrite list_elem_of_fmap. split; [intros ([k q] & -> & H); eauto|].
  intros [k H]. by exists (k, p).
Qed.

(** An open object's native object is alive, and its own. *)
Definition owners_alive s : Prop :=
  (∀ r x, b_heap s !! r = Some x → handle_of x ≠ 0 →
     live (b_world s) !! handle_of x = Some (mkN (native_of r x) (handle_at (b_heap s) <$> parents_of x)) ∧
     Forall (λ p, handle_at (b_heap s) p ≠ 0) (parents_of x)) ∧
  (∀ r1 r2 x1 x2, b_heap s !! r1 = Some x1 → b_heap s !! r2 = Some x2 →
     handle_of x1 = handle_of x2 → handle_of x1 ≠ 0 → borrowed x1 = false → r1 = r2).

Lemma inv_owners s : Inv s → owners_alive s.
Proof.
  intros I. split.
  - intros r x Hx H0. split.
    + unfold handle_of. rewrite (inv_live I r x Hx H0), <-(parents_denote _ r). done.
    + apply Forall_forall. intros p [k Hp]%elem_of_parents.
      destruct (inv_parent I _ _ _ _ Hx Hp) as (y & Hy & _ & Ho). unfold handle_at. rewrite Hy. by apply Ho.
  - intros r1 r2 x1 x2 H1 H2 He H0 Hb.
    apply (core_inj _ _ (proj1 I) r1 r2 (sh_of x1) (sh_of x2)); [by apply sh_lookup..|done|done|].
    destruct x1; try done. cbn in Hb. cbn. by destruct (ctx_owned _).
Qed.


(** C27: In every state of a run a native object other than a device context is owned by exactly one
    Python object, made with the parents of that object; no address list of librdmacm is left, and
    when every Python object is closed only device contexts remain. *)
Theorem nothing_lost (s0 s : B) :
  started s0 → reach allowed s0 s →
  (∀ h n, live (b_world s) !! h = Some n → is_context (n_kind n) = false →
     (∃ r x, b_heap s !! r = Some x ∧ handle_of x = h ∧ n_kind n = native_of r x ∧
        ∀ r' x', b_heap s !! r' = Some x' → handle_of x' = h → r' = r) ∧
     n_kind n ≠ KAddrInfo) ∧
  ((∀ r x, b_heap s !! r = Some x → handle_of x = 0) →
   ∀ h n, live (b_world s) !! h = Some n → is_context (n_kind n) = true).
Proof.
  intros Hs Hr. pose proof (reach_inv _ _ Hs Hr) as [C Hc].
  assert (Hown : ∀ h n, live (b_world s) !! h = Some n → is_context (n_kind n) = false →
    ∃ r x, b_heap s !! r = Some x ∧ handle_of x = h ∧ h ≠ 0 ∧
      n = denote (sh_of <$> b_heap s) r (sh_of x)).
  { intros h n Hn Hk. destruct (core_owner C _ _ Hn Hk) as (r & S & HS & Hh & H0 & Hd).
    destruct (sh_lookup_inv _ _ HS) as (x & Hx & ->). by exists r, x. }
  split.
  - intros h n Hn Hk. destruct (Hown _ _ Hn Hk) as (r & x & Hx & Hh & H0 & Hd). split.
    + exists r, x. rewrite Hd. split_and!; [done..|]. intros r' x' Hx' Hh'.
      apply (core_inj _ _ C r' r (sh_of x') (sh_of x)); [by apply sh_lookup..| | |].
      * by rewrite <-Hh in Hh'.
      * by rewrite <-Hh' in H0.
      * intros E. pose proof (core_live _ _ C r' _ (sh_lookup _ _ Hx')) as Hl.
        unfold handle_of in Hh'. rewrite Hh' in Hl. rewrite (Hl H0) in Hn. injection Hn as <-.
        cbn in Hk. by rewrite E in Hk.
    + intros E. rewrite Hd in E. cbn in E. destruct x; cbn in E; try done. by destruct (ctx_owned _).
  - intros Hall h n Hn. destruct (is_context (n_kind n)) eqn:Hk; [done|].
    destruct (Hown _ _ Hn Hk) as (r & x & Hx & Hh & H0 & _). by rewrite (Hall _ _ Hx) in Hh; subst.
Qed.

(** * Closing *)

(** The objects that a context counts: open domains, channels and queues. *)
Definition counted_child (c : nat) (x : PyObj) : Prop := child_of c x = 1.

Lemma children_zero s r o :
  Inv s → b_heap s !! r = Some (OContext o) →
  0 ≤ ctx_children o ∧
  (ctx_children o = 0 ↔ ∀ r' x, b_heap s !! r' = Some x → ¬ counted_child r x).
Proof.
  intros I Hr. pose proof (proj2 I _ _ _ Hr eq_refl) as Hn.
  assert (Hnn : ∀ k x, b_heap s !! k = Some x → 0 ≤ child_of r x) by (intros; apply child_of_nonneg).
  split; [rewrite Hn; by apply msum_nonneg|]. split.
  - intros H0 r' x Hx Hc. unfold counted_child in Hc. rewrite H0 in Hn.
    by rewrite (msum_zero_inv _ _ _ _ Hnn (eq_sym Hn) Hx) in Hc.
  - intros Hno. rewrite Hn. apply msum_zero. intros k x Hx.
    destruct (child_of_open r x) as [?|[H1 _]]; [done|]. by destruct (Hno _ _ Hx).
Qed.

(** [Context.close] of an open device in a run: while a protection domain, a channel or a queue of
    it is open it raises EBUSY and changes nothing; otherwise it closes the device, and reports an
    error of the driver with the context still open. *)
Theorem context_close_outcome (s0 s : B) r o :
  started s0 → reach allowed s0 s → b_heap s !! r = Some (OContext o) → ctx_ctx o ≠ 0 → ctx_owned o = true →
  ((∃ r' x, b_heap s !! r' = Some x ∧ counted_child r x) ∧
   Context_close r s = (Raise (VerbsError EBUSY), s)) ∨
  ((∀ r' x, b_heap s !! r' = Some x → ¬ open_child r x) ∧
   let '(rc, w) := v_close_device (ctx_ctx o) (b_world s) in
   (rc = 0 ∧ live w = delete (ctx_ctx o) (live (b_world s)) ∧
    Context_close r s = (Ok tt, set_heap (<[r := OContext (set_ctx 0 o)]> (b_heap s)) (set_world w s))) ∨
   (rc ≠ 0 ∧ live w = live (b_world s) ∧
    ∃ e, Context_close r s = (Raise (VerbsError e), set_world w s))).
Proof.
  intros Hs Hr Ho Hz Hw. pose proof (reach_inv _ _ Hs Hr) as I.
  destruct (children_zero _ _ _ I Ho) as [Hn Hiff].
  assert (Hrun : Context_close r s =
    if ctx_children o =? 0 then
      let '(rc, w) := v_close_device (ctx_ctx o) (b_world s) in
      if rc =? 0 then (Ok tt, set_heap (<[r := OContext (set_ctx 0 o)]> (b_heap s)) (set_world w s))
      else (Raise (VerbsError (if negb (c_errno w =? 0) then c_errno w else EIO)), set_world w s)
    else (Raise (VerbsError EBUSY), s)).
  { unfold Context_close, mbind, M_bind, load. rewrite Ho. cbn.
    rewrite (proj2 (Z.eqb_neq _ _) Hz), Hw. cbn. destruct (ctx_children o =? 0); [|done]. cbn.
    unfold native. destruct (v_close_device _ _) as [rc w]. cbn. destruct (rc =? 0); [|done]. cbn.
    unfold update, mbind, M_bind, load. cbn. by rewrite Ho. }
  destruct (ctx_children o =? 0) eqn:E.
  - right. apply Z.eqb_eq in E.
    assert (Hun : ∀ r' x, b_heap s !! r' = Some x → ¬ open_child r x).
    { intros r' x Hx [Hh [k Hp]%elem_of_parents].
      destruct (inv_parent I _ _ _ _ Hx Hp) as (y & Hy & Hk & _).
      assert (y = OContext o) as -> by congruence. cbn in Hk. rewrite Hw in Hk. cbn in Hk. subst k.
      pose proof (no_children I _ _ _ _ Ho E Hx Hh Hp) as Hk.
      destruct (core_cmid _ _ (proj1 I) _ _ (sh_lookup _ _ Hx) Hk) as (c & X & Hc & HX & HkX).
      rewrite Hc in Hp. apply list_elem_of_singleton in Hp as [= ->].
      rewrite (sh_lookup _ _ Ho) in HX. injection HX as <-. cbn in HkX. by rewrite Hw in HkX. }
    split; [done|].
    pose proof (law_close_device (ctx_ctx o) (b_world s) (inv_intact _ I)) as Hlaw.
    rewrite Hrun. destruct (v_close_device _ _) as [rc w]. cbn in Hlaw.
    destruct Hlaw as [_ Hl].
    + pose proof (inv_handle s r (OContext o) (only KContext) I Ho Hz) as Ha. cbn in Ha.
      rewrite Hw in Ha. by apply Ha.
    + apply (childless_unused (proj1 I) r (sh_of (OContext o))); [by apply sh_lookup|done|cbn; by rewrite Hw|].
      intros r' S k HS Hh Hp. destruct (sh_lookup_inv _ _ HS) as (x & Hx & ->).
      apply (Hun _ _ Hx). split; [done|]. apply elem_of_parents. eauto.
    + destruct (rc =? 0) eqn:Erc; [left|right]; (split; [lia|]); [done|]. split; [done|]. by eexists.
  - left. split; [|done].
    destruct (decide (Exists (λ p, child_of r p.2 = 1) (map_to_list (b_heap s)))) as [Hex|Hno].
    + apply Exists_exists in Hex as ([k x] & Hin & Hc). exists k, x. split; [|done].
      by apply elem_of_map_to_list.
    + destruct (proj1 (Z.eqb_neq _ _) E). apply Hiff. intros k x Hx Hc. apply Hno, Exists_exists.
      exists (k, x). by rewrite elem_of_map_to_list.
Qed.
End Theorems.
