(* ===== verification/VerbsExternal.v ===== *)
(** The external data path of the verbs binding: a queue pair whose queues were handed
    to a GPU ([_mlx5dv_bridge_info]) and the count of the GPU handles that use it and
    its completion queues ([_acquire_external_datapath], [_release_external_datapath]).

    [Shared] is the invariant of the counts; it holds for any libraries, of any program
    that keeps a queue pair as long as it holds GPU handles of it, as the [DeviceQP] of
    GpuNetIO.v does. *)

From S2P Require Import Prelude Bytes Json.
From S2P Require Import GpuNetIO.
From S2P Require Import Helpers.
From S2P Require Import VerbsLib VerbsValues VerbsPost.
From S2P Require Import VerbsObjects VerbsSafety VerbsMethods.
From S2P Require Import VerbsInvariant VerbsRuns VerbsAlong.
#[local] Open Scope Z_scope.

(** * The part of an object that the counts are about *)

Inductive View :=
| VQP (send_cq recv_cq : nat) (external : bool) (users : Z) (open : bool)
| VCQ (external : bool) (users : Z)
| VOther.

Definition view (x : PyObj) : View :=
  match x with
  | OQP q => VQP (qp_send_cq q) (qp_recv_cq q) (qp_external_datapath q) (qp_external_users q)
               (negb (qp_qp q =? 0))
  | OCQ c => VCQ (cq_external_datapath c) (cq_external_users c)
  | _ => VOther
  end.

(** The handles through a queue pair that use the completion queue [c]. *)
Definition users_through (c : nat) (v : View) : Z :=
  match v with
  | VQP sc rc _ n _ => if (sc =? c)%nat || (rc =? c)%nat then n else 0
  | _ => 0
  end.

(** [c] is a completion queue, an external one when [e]. *)
Definition cq_at (V : gmap nat View) (e : bool) (c : nat) : Prop :=
  ∃ e' n, V !! c = Some (VCQ e' n) ∧ (e = true → e' = true).

Definition qp_ok (V : gmap nat View) (sc rc : nat) (e : bool) (n : Z) (op : bool) : Prop :=
  0 ≤ n ∧ (0 < n → e = true ∧ op = true) ∧ cq_at V e sc ∧ cq_at V e rc.

Record Shared (V : gmap nat View) : Prop := {
  shared_qp r sc rc e n op : V !! r = Some (VQP sc rc e n op) → qp_ok V sc rc e n op;
  shared_cq c e n : V !! c = Some (VCQ e n) → n = msum (users_through c) V;
}.

Implicit Types V : gmap nat View.

Lemma cq_at_insert V e c r v :
  (∀ e' n, V !! r = Some (VCQ e' n) → ∃ e2 n2, v = VCQ e2 n2 ∧ (e' = true → e2 = true)) →
  cq_at V e c → cq_at (<[r := v]> V) e c.
Proof.
  intros Hv (e' & n & Hc & He). unfold cq_at. destruct (decide (c = r)) as [->|Hne].
  - destruct (Hv _ _ Hc) as (e2 & n2 & -> & H2). exists e2, n2. rewrite lookup_insert_eq. auto.
  - exists e', n. by rewrite lookup_insert_ne.
Qed.

(** The entry at [r] changes, and no count with it. *)
Lemma shared_insert V r v :
  Shared V →
  (∀ c, users_through c v = at_key (users_through c) V r) →
  (∀ sc rc e n op, v = VQP sc rc e n op → qp_ok V sc rc e n op) →
  (∀ e n, v = VCQ e n → n = msum (users_through r) V) →
  (∀ e' n, V !! r = Some (VCQ e' n) → ∃ e2 n2, v = VCQ e2 n2 ∧ (e' = true → e2 = true)) →
  Shared (<[r := v]> V).
Proof.
  intros [Hqp Hcq] Hu Hq Hc Hr.
  assert (Hsum : ∀ c, msum (users_through c) (<[r := v]> V) = msum (users_through c) V).
  { intros c. rewrite msum_insert, Hu. lia. }
  assert (Hok : ∀ sc rc e n op, qp_ok V sc rc e n op → qp_ok (<[r := v]> V) sc rc e n op).
  { intros sc rc e n op (H0 & H1 & H2 & H3). split_and!; [done|done|by apply cq_at_insert..]. }
  constructor.
  - intros r2 sc rc e n op H2. apply Hok. apply lookup_insert_Some in H2 as [[_ Hv]|[_ H2]]; [by apply Hq|].
    by eapply Hqp.
  - intros c e n H2. rewrite Hsum. apply lookup_insert_Some in H2 as [[<- Hv]|[_ H2]]; [by eapply Hc|].
    by eapply Hcq.
Qed.

(** Nothing refers to a reference that has no object. *)
Lemma shared_unused V r :
  Shared V → (∀ e n, V !! r ≠ Some (VCQ e n)) → msum (users_through r) V = 0.
Proof.
  intros HS Hr. apply msum_zero. intros k v Hk. destruct v as [sc rc e n op| |]; try done. cbn.
  destruct (shared_qp _ HS _ _ _ _ _ _ Hk) as (_ & _ & (e1 & n1 & H1 & _) & (e2 & n2 & H2 & _)).
  destruct (Nat.eqb_spec sc r) as [->|]; [by destruct (Hr e1 n1)|].
  destruct (Nat.eqb_spec rc r) as [->|]; [by destruct (Hr e2 n2)|done].
Qed.

Lemma at_key_other V r c : (∀ sc rc e n op, V !! r = Some (VQP sc rc e n op) → n = 0) →
  at_key (users_through c) V r = 0.
Proof.
  unfold at_key. intros H. destruct (V !! r) as [[]|] eqn:E; try done. cbn.
  rewrite (H _ _ _ _ _ eq_refl). by destruct (_ || _).
Qed.

Lemma shared_delete V r :
  Shared V →
  (∀ k sc rc e n op, k ≠ r → V !! k = Some (VQP sc rc e n op) → sc ≠ r ∧ rc ≠ r) →
  (∀ sc rc e n op, V !! r = Some (VQP sc rc e n op) → n = 0) →
  Shared (delete r V).
Proof.
  intros [Hqp Hcq] Hun Hr.
  assert (Hsum : ∀ c, msum (users_through c) (delete r V) = msum (users_through c) V).
  { intros c. pose proof (msum_delete (users_through c) V r). rewrite at_key_other in H by done. lia. }
  constructor.
  - intros k sc rc e n op Hk. apply lookup_delete_Some in Hk as [Hne Hk].
    destruct (Hqp _ _ _ _ _ _ Hk) as (H0 & H1 & H2 & H3).
    destruct (Hun _ _ _ _ _ _ (not_eq_sym Hne) Hk) as [Hs Hc].
    unfold qp_ok, cq_at. rewrite !lookup_delete_ne by done. done.
  - intros c e n Hc. apply lookup_delete_Some in Hc as [_ Hc]. rewrite Hsum. by eapply Hcq.
Qed.

(** The counts of the queue pair at [r] and of its queues change by one. *)
Lemma shared_users V r sc rc e n op es ns er nr d :
  Shared V → V !! r = Some (VQP sc rc e n op) →
  V !! sc = Some (VCQ es ns) → V !! rc = Some (VCQ er nr) →
  0 ≤ n + d → (0 < n + d → e = true ∧ op = true) →
  let V1 := <[sc := VCQ es (ns + d)]> (<[r := VQP sc rc e (n + d) op]> V) in
  Shared (if (rc =? sc)%nat then V1 else <[rc := VCQ er (nr + d)]> V1).
Proof.
  intros HS Hr Hs Hc H0 Hd V1. set (V2 := if (rc =? sc)%nat then _ else _).
  assert (r ≠ sc ∧ r ≠ rc) as [Hrs Hrc] by (split; congruence).
  assert (Hlook : ∀ k, V2 !! k =
    if decide (k = r) then Some (VQP sc rc e (n + d) op)
    else if decide (k = sc) then Some (VCQ es (ns + d))
    else if decide (k = rc) then Some (VCQ er (nr + d)) else V !! k).
  { intros k. subst V2 V1. destruct (Nat.eqb_spec rc sc) as [->|Hne].
    - rewrite !lookup_insert. repeat (destruct (decide _)); subst; done || congruence.
    - rewrite !lookup_insert. repeat (destruct (decide _)); subst; done || congruence. }
  assert (Hsum : ∀ c, msum (users_through c) V2 =
                   msum (users_through c) V + (if (sc =? c)%nat || (rc =? c)%nat then d else 0)).
  { intros c. assert (msum (users_through c) V2 = msum (users_through c) (<[r := VQP sc rc e (n + d) op]> V)) as ->.
    { assert (Hz : ∀ V' k e' n' e2 n2, V' !! k = Some (VCQ e' n') →
               msum (users_through c) (<[k := VCQ e2 n2]> V') = msum (users_through c) V').
      { intros V' k e' n' e2 n2 Hk. rewrite msum_insert. unfold at_key. rewrite Hk. cbn. lia. }
      assert (H1 : msum (users_through c) V1 = msum (users_through c) (<[r := VQP sc rc e (n + d) op]> V)).
      { eapply Hz. rewrite lookup_insert_ne by done. exact Hs. }
      subst V2. destruct (Nat.eqb_spec rc sc) as [->|Hne]; [done|]. rewrite <-H1. eapply Hz.
      subst V1. rewrite !lookup_insert_ne by done. exact Hc. }
    rewrite msum_insert. unfold at_key. rewrite Hr. cbn. destruct (_ || _); lia. }
  assert (Hcq : ∀ e' c, cq_at V e' c → cq_at V2 e' c).
  { intros e' c (e2 & n2 & H2 & He). unfold cq_at. rewrite Hlook.
    destruct (decide (c = r)); [congruence|]. destruct (decide (c = sc)) as [->|]; [rewrite Hs in H2; injection H2 as <- <-; eauto|].
    destruct (decide (c = rc)) as [->|]; [rewrite Hc in H2; injection H2 as <- <-; eauto|]. eauto. }
  destruct HS as [Hqp Hcount]. constructor.
  - intros k a b e' n' op' Hk. rewrite Hlook in Hk. destruct (decide (k = r)) as [->|].
    + injection Hk as <- <- <- <- <-. destruct (Hqp _ _ _ _ _ _ Hr) as (_ & _ & H2 & H3).
      split_and!; [done|done|by apply Hcq..].
    + repeat (destruct (decide _); [done|]).
      destruct (Hqp _ _ _ _ _ _ Hk) as (H1 & H2 & H3 & H4). split_and!; [done|done|by apply Hcq..].
  - intros c e' n' Hk. rewrite Hsum. rewrite Hlook in Hk. destruct (decide (c = r)); [done|].
    destruct (decide (c = sc)) as [->|Hns]; [rewrite Nat.eqb_refl; injection Hk as _ <-; rewrite (Hcount _ _ _ Hs); cbn; lia|].
    destruct (decide (c = rc)) as [->|Hnr].
    + rewrite Nat.eqb_refl, orb_true_r. injection Hk as _ <-. rewrite (Hcount _ _ _ Hc). lia.
    + rewrite (proj2 (Nat.eqb_neq sc c)), (proj2 (Nat.eqb_neq rc c)) by done. cbn.
      rewrite (Hcount _ _ _ Hk). lia.
Qed.

Section External.
Context {W : Type} `{!Libibverbs W}.
Abbreviation B := (Binding W).
Implicit Types (s : B) (m : gmap nat PyObj).

Definition views s : gmap nat View := view <$> b_heap s.

(** A call that leaves every view as it is, and one that keeps the invariant. *)
Definition same_views s t : Prop := views t = views s.
Definition shares s t : Prop := Shared (views s) → Shared (views t).

#[global] Instance same_views_preorder : PreOrder same_views.
Proof. split; [done|]. intros s t u H1 H2. unfold same_views in *. congruence. Qed.
#[global] Instance shares_preorder : PreOrder shares.
Proof. constructor; [intros s H; exact H|intros s t u H1 H2 H; exact (H2 (H1 H))]. Qed.

Lemma views_store r x x' s :
  b_heap s !! r = Some x → view x' = view x → view <$> <[r := x']> (b_heap s) = views s.
Proof. intros Hr Hv. unfold views. rewrite fmap_insert, Hv, insert_id; [done|]. by rewrite lookup_fmap, Hr. Qed.

#[global] Instance same_views_rel : HeapRel same_views.
Proof.
  refine {| hr_sim x x' := view x' = view x |}.
  - intros s t H. unfold same_views, views. by rewrite H.
  - intros s r x x' Hr Hv. by eapply views_store.
Defined.
#[global] Instance shares_rel : HeapRel shares.
Proof.
  refine {| hr_sim x x' := view x' = view x |}.
  - intros s t H Hs. unfold views. by rewrite H.
  - intros s r x x' Hr Hv Hs. unfold views. cbn. by erewrite views_store.
Defined.

Lemma shares_new {O} `{!PyClass O} (o : O) : view (to_obj o) = VOther → along shares (new o).
Proof.
  intros Hv s Hs. unfold new, views. cbn. rewrite fmap_insert, Hv. fold (views s).
  assert (Hn : views s !! fresh_ref (b_heap s) = None) by (unfold views; by rewrite lookup_fmap, fresh_ref_new).
  apply shared_insert; [exact Hs|intros c; unfold at_key; by rewrite Hn|done|done|by rewrite Hn].
Qed.

Lemma shares_new_cq c :
  cq_external_users c = 0 → along shares (new c).
Proof.
  intros Hv s Hs. unfold new, views. cbn. rewrite fmap_insert. fold (views s).
  assert (Hn : views s !! fresh_ref (b_heap s) = None) by (unfold views; by rewrite lookup_fmap, fresh_ref_new).
  apply shared_insert; [exact Hs|intros k; unfold at_key; by rewrite Hn|done| |by rewrite Hn].
  intros e n [= <- <-]. rewrite Hv. symmetry. apply shared_unused; [exact Hs|by rewrite Hn].
Qed.

End External.

#[export] Hint Extern 0 (along shares (new _)) =>
  first [apply shares_new; reflexivity | apply shares_new_cq; reflexivity] : along.

Section Methods.
Context {W : Type} `{!Libibverbs W}.
Abbreviation B := (Binding W).
Implicit Types (s : B) (m : gmap nat PyObj).

Lemma shares_after {A} (f : M B A) s : along shares f → Shared (views s) → Shared (views (after f s)).
Proof. intros Hf. exact (Hf s). Qed.

Lemma wp_shares {A} (f : M B A) s :
  along shares f → Shared (views s) →
  wp f (λ _ t, Shared (views t)) (λ _ t, Shared (views t)) s.
Proof. intros Hf Hs. specialize (Hf s Hs). unfold wp. by destruct (f s) as [[] t]. Qed.

Lemma shares_load_sym h n : along shares (load_sym h n).
Proof. unfold load_sym, _req_sym, set_sym. quiet. Qed.
Lemma shares_load_librdmacm : along shares _load_librdmacm.
Proof. unfold _load_librdmacm, load_sym, _req_sym, set_sym. quiet. Qed.

Lemma shares_ack_async_event r e : along shares (ack_async_event r e).
Proof.
  unfold ack_async_event, native_. intros s Hs. unfold mbind, M_bind, load.
  destruct (b_heap s !! e) as [[]|] eqn:He; try done. cbn. destruct (ev_acked _); [done|].
  cbn. unfold views. cbn. erewrite views_store; [exact Hs|exact He|done].
Qed.

Lemma shares_open_named want l : along shares (open_named want l).
Proof. induction l; cbn [open_named]; quiet. Qed.
#[local] Hint Resolve shares_load_sym shares_load_librdmacm shares_open_named shares_ack_async_event : along.

(** The calls that touch no count and make no queue pair. *)
Definition quiet_call (c : call) : bool :=
  match c with
  | C_create_qp _ _ | C_cm_create_qp _ _ _ | C_bridge_info _ | C_acquire _ | C_release _
  | C_close_qp _ | C_collect _ => false
  | _ => true
  end.

Lemma quiet_shares c s : quiet_call c = true → Shared (views s) → Shared (views (run_call c s)).
Proof.
  intros Hc Hs. destruct c; try discriminate Hc; cbn [run_call]; apply shares_after; try exact Hs;
    autounfold with verbs_methods.
  all: quiet.
Qed.

(** ** Queue pairs *)

Lemma views_lookup s r x : b_heap s !! r = Some x → views s !! r = Some (view x).
Proof. intros H. unfold views. by rewrite lookup_fmap, H. Qed.

Lemma cq_at_view s r (o : CQ) : b_heap s !! r = Some (OCQ o) → cq_at (views s) false r.
Proof. intros H. exists (cq_external_datapath o), (cq_external_users o). by rewrite (views_lookup _ _ _ H). Qed.

Lemma shared_new_qp s q :
  Shared (views s) → cq_at (views s) false (qp_send_cq q) → cq_at (views s) false (qp_recv_cq q) →
  qp_external_datapath q = false → qp_external_users q = 0 →
  Shared (<[fresh_ref (b_heap s) := view (OQP q)]> (views s)).
Proof.
  intros Hs Hsc Hrc He Hu.
  assert (Hn : views s !! fresh_ref (b_heap s) = None) by (unfold views; by rewrite lookup_fmap, fresh_ref_new).
  cbn. rewrite He, Hu. apply shared_insert; [done| | |done|by rewrite Hn].
  - intros c. unfold at_key. rewrite Hn. cbn. by destruct (_ || _).
  - intros ? ? ? ? ? [= <- <- <- <- <-]. by split_and!.
Qed.

(** [qp_queues] changes nothing, and finds its queues. *)
Lemma wp_found ctx pd i s :
  Shared (views s) →
  wp (qp_queues ctx pd i)
    (λ _ t, t = s ∧ cq_at (views s) false (qia_send_cq i) ∧ cq_at (views s) false (qia_recv_cq i))
    (λ _ t, Shared (views t)) s.
Proof.
  intros Hs. unfold qp_queues. steps. destruct (qia_srq i); steps;
    (split_and!; [done|by eapply cq_at_view..]).
Qed.

Lemma create_qp_shares r i s : Shared (views s) → Shared (views (after (create_qp r i) s)).
Proof.
  intros Hs. apply wp_after. unfold create_qp, QP_wrap. do 5 step.
  eapply wp_mono; [by apply wp_found| |done]. intros [[scq rcq] srq] t (-> & H1' & H2'). steps.
  apply wp_bind, wp_native. intros h w _. steps. apply wp_new. unfold views. cbn. rewrite fmap_insert.
  by apply (shared_new_qp s).
Qed.

Lemma CMID_create_qp_shares r pd i s :
  Shared (views s) → Shared (views (after (CMID_create_qp r pd i) s)).
Proof.
  intros Hs. apply wp_after. unfold CMID_create_qp, QP_wrap. do 15 step.
  eapply wp_mono; [by apply wp_found| |done]. intros [[scq rcq] srq] t (-> & H1' & H2'). steps.
  apply wp_bind, wp_native. intros h w _. steps. apply wp_new.
  apply wp_shares; [quiet|]. unfold views. cbn. rewrite fmap_insert. by apply (shared_new_qp s).
Qed.

(** The close of a queue pair without a GPU handle, and of its object. *)
Lemma shared_closed_qp s r q q' :
  Shared (views s) → b_heap s !! r = Some (OQP q) → qp_external_users q = 0 →
  qp_send_cq q' = qp_send_cq q → qp_recv_cq q' = qp_recv_cq q →
  qp_external_datapath q' = qp_external_datapath q → qp_external_users q' = 0 →
  Shared (<[r := view (OQP q')]> (views s)).
Proof.
  intros Hs Hr H0 E1 E2 E3 E4. pose proof (views_lookup _ _ _ Hr) as Hv. cbn.
  rewrite E1, E2, E3, E4. apply shared_insert; [done| | |done|].
  - intros c. unfold at_key. rewrite Hv. cbn. by rewrite H0.
  - intros ? ? ? ? ? [= <- <- <- <- <-]. cbn in Hv.
    destruct (shared_qp _ Hs _ _ _ _ _ _ Hv) as (_ & _ & H2 & H3). by split_and!.
  - intros e' n. by rewrite Hv.
Qed.

Lemma QP_close_shares r s : Shared (views s) → Shared (views (after (QP_close r) s)).
Proof.
  intros Hs. apply wp_after. unfold QP_close. steps. destruct (qp_qp o =? 0); [by steps|]. do 2 step.
  assert (qp_external_users o = 0) as Hu by lia.
  assert (Hw : ∀ w, Shared (views (set_world w s))) by done.
  step. destruct (negb (qp_cm_id o =? 0)).
  - step. unfold native_. apply wp_native. intros [] w _.
    eapply wp_update_at; [exact H|done|]. eapply wp_update_at; [by apply lookup_insert_eq|done|].
    unfold views. cbn. rewrite insert_insert_eq, fmap_insert. by apply (shared_closed_qp s r o).
  - apply wp_bind, wp_native. intros rc w _. steps. eapply wp_update_at; [exact H|done|].
    unfold views. cbn. rewrite fmap_insert. by apply (shared_closed_qp s r o).
Qed.

(** Handing the queues over: the queue pair and both its queues become external. *)
Lemma shared_external V r sc rc e n op es ns er nr :
  Shared V → V !! r = Some (VQP sc rc e n op) →
  V !! sc = Some (VCQ es ns) → V !! rc = Some (VCQ er nr) →
  Shared (<[rc := VCQ true nr]> (<[sc := VCQ true ns]> (<[r := VQP sc rc true n op]> V))).
Proof.
  intros HS Hr Hs Hc. assert (r ≠ sc ∧ r ≠ rc) as [Hrs Hrc] by (split; congruence).
  assert (Hcq : ∀ V' c e' n', Shared V' → V' !! c = Some (VCQ e' n') → Shared (<[c := VCQ true n']> V')).
  { intros V' c e' n' HS' Hc'. apply shared_insert; [done| |done| |].
    - intros k. unfold at_key. by rewrite Hc'.
    - intros e2 n2 [= <- <-]. by apply (shared_cq _ HS' _ e').
    - intros e2 n2 H2. rewrite Hc' in H2. injection H2 as <- <-. eauto. }
  rewrite (insert_insert_ne _ sc r), (insert_insert_ne _ rc r) by done.
  set (V2 := <[rc := VCQ true nr]> (<[sc := VCQ true ns]> V)).
  assert (HS1 : Shared (<[sc := VCQ true ns]> V)) by by eapply Hcq.
  assert (HS2 : Shared V2).
  { destruct (decide (rc = sc)) as [->|Hne].
    - subst V2. rewrite Hs in Hc. injection Hc as <- <-. by eapply Hcq; [|apply lookup_insert_eq].
    - subst V2. eapply Hcq; [done|]. by rewrite lookup_insert_ne. }
  assert (Hr2 : V2 !! r = Some (VQP sc rc e n op)) by (subst V2; by rewrite !lookup_insert_ne).
  assert (cq_at V2 true sc ∧ cq_at V2 true rc) as [Hon1 Hon2].
  { subst V2. split; [|exists true, nr; by rewrite lookup_insert_eq].
    destruct (decide (rc = sc)) as [->|Hne]; [exists true, nr; by rewrite lookup_insert_eq|].
    exists true, ns. by rewrite lookup_insert_ne, lookup_insert_eq. }
  apply shared_insert; [done| | |done|by rewrite Hr2].
  - intros k. unfold at_key. by rewrite Hr2.
  - intros ? ? ? ? ? [= <- <- <- <- <-].
    destruct (shared_qp _ HS _ _ _ _ _ _ Hr) as (H0 & H1 & _). split_and!; [done| |done|done].
    intros Hn. by destruct (H1 Hn).
Qed.

(** A native call, for the invariant, and then the objects that were loaded. *)
Lemma wp_native_views {A} (f : W → A * W) (Q : A → B → Prop) E s :
  Shared (views s) →
  (∀ a t, b_heap t = b_heap s → Shared (views t) → Q a t) → wp (native f) Q E s.
Proof. intros Hs HQ. apply wp_native. intros a w _. by apply HQ. Qed.

Lemma external_shares r q sc rc t (Q : Z → QueueInfo) :
  Shared (views t) → b_heap t !! r = Some (OQP q) →
  b_heap t !! qp_send_cq q = Some (OCQ sc) → b_heap t !! qp_recv_cq q = Some (OCQ rc) →
  wp (update r (λ q, set_qp_external true (qp_external_users q) q);;
      set_external_cq true (qp_send_cq q);;
      set_external_cq true (qp_recv_cq q);;
      qpn ← peek (λ w, v_qp_num w (qp_qp q));
      mret (Q qpn)) (λ _ t, Shared (views t)) (λ _ t, Shared (views t)) t.
Proof.
  intros Hs Hq Hsc Hrc.
  assert (r ≠ qp_send_cq q ∧ r ≠ qp_recv_cq q) as [H1 H2] by (split; congruence).
  step. eapply wp_update_at; [exact Hq|done|]. step. unfold set_external_cq at 1.
  eapply wp_update_at; [cbn; rewrite lookup_insert_ne by done; exact Hsc|done|]. step.
  assert (Hlast : ∃ c, <[qp_send_cq q := to_obj (set_cq_external true (cq_external_users sc) sc)]>
      (<[r := to_obj (set_qp_external true (qp_external_users q) q)]> (b_heap t)) !! qp_recv_cq q = Some (OCQ c) ∧
      cq_external_users c = cq_external_users rc).
  { destruct (decide (qp_recv_cq q = qp_send_cq q)) as [E|Hne].
    - rewrite E, lookup_insert_eq. eexists. split; [done|]. cbn. congruence.
    - rewrite !lookup_insert_ne by done. eauto. }
  destruct Hlast as (c & Hc & Hu). unfold set_external_cq. eapply wp_update_at; [exact Hc|done|]. steps.
  unfold views. cbn. rewrite !fmap_insert. cbn. rewrite Hu.
  pose proof (views_lookup _ _ _ Hq). pose proof (views_lookup _ _ _ Hsc).
  pose proof (views_lookup _ _ _ Hrc). by eapply shared_external.
Qed.

Lemma bridge_shares r s : Shared (views s) → Shared (views (after (_mlx5dv_bridge_info r) s)).
Proof.
  intros Hs. apply wp_after. unfold _mlx5dv_bridge_info. do 18 step.
  assert (Hload : wp _load_mlx5dv_init_obj (λ _ t, b_heap t = b_heap s) (λ _ t, Shared (views t)) s).
  { pose proof (load_mlx5_heap s) as Hh. unfold wp, views.
    destruct (_load_mlx5dv_init_obj s) as [[] t]; cbn in *; [done|by rewrite Hh]. }
  step. eapply wp_mono; [exact Hload| |done]. intros io t Ht. cbn in Ht.
  assert (Hst : Shared (views t)) by (unfold views; by rewrite Ht).
  apply wp_bind, wp_native_views; [done|]. intros [rc1 qi] t1 Ht1 Hs1. steps.
  apply wp_bind, wp_native_views; [done|]. intros [rc2 sci] t2 Ht2 Hs2. steps.
  assert (Hend : ∀ rci t3, b_heap t3 = b_heap s → Shared (views t3) →
    wp (update r (λ q, set_qp_external true (qp_external_users q) q);;
        set_external_cq true (qp_send_cq o);;
        set_external_cq true (qp_recv_cq o);;
        qpn ← peek (λ w, v_qp_num w (qp_qp o));
        mret (bridge_dict qpn qi sci rci)) (λ _ t, Shared (views t)) (λ _ t, Shared (views t)) t3).
  { intros rci t3 Ht3 Hs3. eapply (external_shares r o o0 o1); rewrite ?Ht3; done. }
  assert (b_heap t2 = b_heap s) as E2 by congruence.
  destruct (_ =? _)%nat; [steps; by refine (proj1 (wp_bind _ _ _ _ _) (Hend _ _ _ _))|].
  steps. apply wp_bind, wp_native_views; [done|]. intros [rc3 rci] t3 Ht3 Hs3. steps.
  refine (proj1 (wp_bind _ _ _ _ _) (Hend _ _ _ _)); [congruence|done].
Qed.

(** [d] is 1 or -1. *)
Lemma add_users_shares d r s :
  (∀ q, b_heap s !! r = Some (OQP q) →
     0 ≤ qp_external_users q + d ∧
     (0 < qp_external_users q + d → qp_external_datapath q = true ∧ qp_qp q ≠ 0)) →
  Shared (views s) → Shared (views (after (add_users d r) s)).
Proof.
  intros Hd Hs. apply wp_after. unfold add_users. steps. destruct (Hd _ H) as [H0 H1].
  pose proof (views_lookup _ _ _ H) as Hv. cbn in Hv.
  destruct (shared_qp _ Hs _ _ _ _ _ _ Hv) as (_ & _ & (es & ns & Hsc & _) & (er & nr & Hrc & _)).
  assert (r ≠ qp_send_cq o ∧ r ≠ qp_recv_cq o) as [N1 N2] by (split; congruence).
  assert (Hcq : ∀ c e n, views s !! c = Some (VCQ e n) →
    ∃ k, b_heap s !! c = Some (OCQ k) ∧ cq_external_datapath k = e ∧ cq_external_users k = n).
  { intros c e n. unfold views. rewrite lookup_fmap. destruct (b_heap s !! c) as [[]|]; try done.
    intros [= <- <-]. eauto. }
  destruct (Hcq _ _ _ Hsc) as (ks & Hks & <- & <-). destruct (Hcq _ _ _ Hrc) as (kr & Hkr & <- & <-).
  apply wp_store. step. unfold add_cq_users at 1.
  eapply wp_update_at; [cbn; rewrite lookup_insert_ne by done; exact Hks|done|].
  assert (Hfin : 0 < qp_external_users o + d → qp_external_datapath o = true ∧ negb (qp_qp o =? 0) = true).
  { intros Hp. destruct (H1 Hp). split; [done|]. by rewrite (proj2 (Z.eqb_neq _ _)). }
  pose proof (shared_users _ _ _ _ _ _ _ _ _ _ _ d Hs Hv Hsc Hrc H0 Hfin) as Hend.
  destruct (Nat.eqb_spec (qp_recv_cq o) (qp_send_cq o)) as [E|E]; cbn [negb].
  - step. unfold views. cbn. by rewrite !fmap_insert.
  - unfold add_cq_users. eapply wp_update_at; [cbn; rewrite !lookup_insert_ne by done; exact Hkr|done|].
    unfold views. cbn. by rewrite !fmap_insert.
Qed.

Lemma wp_views {A} (f : M B A) s :
  Shared (views (after f s)) → wp f (λ _ t, Shared (views t)) (λ _ t, Shared (views t)) s.
Proof. unfold wp, after. by destruct (f s) as [[] t]. Qed.

Lemma acquire_shares r s : Shared (views s) → Shared (views (after (_acquire_external_datapath r) s)).
Proof.
  intros Hs. apply wp_after. unfold _acquire_external_datapath. steps.
  apply wp_views, add_users_shares; [|done]. intros q Hq. assert (q = o) as -> by (cbn in *; congruence).
  destruct (shared_qp _ Hs _ _ _ _ _ _ (views_lookup _ _ _ H)) as (Hn & _). cbn in Hn.
  split; [lia|]. intros _. split; [by apply negb_false_iff|done].
Qed.

Lemma release_shares r s : Shared (views s) → Shared (views (after (_release_external_datapath r) s)).
Proof.
  intros Hs. apply wp_after. unfold _release_external_datapath. steps.
  apply wp_views, add_users_shares; [|done]. intros q Hq. assert (q = o) as -> by (cbn in *; congruence).
  destruct (shared_qp _ Hs _ _ _ _ _ _ (views_lookup _ _ _ H)) as (Hn & Ho & _). cbn in Hn, Ho.
  split; [lia|]. intros Hp. destruct Ho as [-> Hopen]; [lia|]. split; [done|].
  by apply negb_true_iff, Z.eqb_neq in Hopen.
Qed.

(** ** Collection *)

Lemma unreferenced_qp s r : referenced (b_heap s) r = false →
  ∀ k sc rc e n op, views s !! k = Some (VQP sc rc e n op) → sc ≠ r ∧ rc ≠ r.
Proof.
  intros Hr k sc rc e n op Hk. unfold views in Hk. rewrite lookup_fmap in Hk.
  destruct (b_heap s !! k) as [x|] eqn:Hx; [|done]. destruct x as [| | | | |q| | | |]; try done.
  injection Hk as <- <- _ _ _.
  assert (Hno : r ∉ refs_of (OQP q)).
  { intros Hin. unfold referenced in Hr. apply not_true_iff_false in Hr. apply Hr.
    apply existsb_exists. exists (k, OQP q). split.
    - apply list_elem_of_In. by apply elem_of_map_to_list.
    - apply existsb_exists. exists r. split; [by apply list_elem_of_In|apply Nat.eqb_refl]. }
  cbn in Hno. set_solver.
Qed.

(** The program keeps a queue pair as long as it holds a GPU handle of it. *)
Definition retained s (c : call) : Prop :=
  match c with
  | C_collect r => ∀ q, b_heap s !! r = Some (OQP q) → qp_external_users q = 0
  | _ => True
  end.

Lemma QP_dealloc_views r q s :
  b_heap s !! r = Some (OQP q) →
  ∃ b, views (after (QP_dealloc r) s) =
    <[r := VQP (qp_send_cq q) (qp_recv_cq q) (qp_external_datapath q) (qp_external_users q) b]> (views s).
Proof.
  intros Hr. unfold QP_dealloc, after, mbind, M_bind, load. rewrite Hr. cbn.
  destruct (qp_qp q =? 0) eqn:E0.
  { exists false. rewrite insert_id; [done|]. rewrite (views_lookup _ _ _ Hr). cbn. by rewrite E0. }
  exists false. destruct (negb (qp_cm_id q =? 0)).
  - unfold native_, native, update, store, modify, mbind, M_bind, load. cbn. rewrite Hr. cbn.
    rewrite lookup_insert_eq. unfold views. cbn. by rewrite !fmap_insert, insert_insert_eq.
  - unfold native, update, store, modify, mbind, M_bind, load. destruct (v_destroy_qp _ _) as [rc w]. cbn.
    rewrite Hr. unfold views. cbn. by rewrite fmap_insert.
Qed.

(** The [__dealloc__] of another object touches no view. *)
Lemma dealloc_same_views r x :
  (∀ q, x ≠ OQP q) → along same_views (dealloc_body r x).
Proof.
  intros Hx. destruct x as [o|o|o|o|o|q|o|o|o|o]; cbn [dealloc_body]; [..|by destruct (Hx q)| | | |];
    autounfold with verbs_methods; quiet.
Qed.

Lemma collect_shares r s :
  retained s (C_collect r) → Shared (views s) → Shared (views (after (collect r) s)).
Proof.
  intros Hr Hs. apply wp_after. unfold collect. step. step.
  destruct (b_heap s !! r) as [x|] eqn:Hx; [|by step].
  destruct (referenced (b_heap s) r) eqn:Href; [by step|]. step.
  pose proof (unreferenced_qp _ _ Href) as Hun.
  assert (Hend : ∀ t, Shared (views t) →
    (∀ k sc rc e n op, k ≠ r → views t !! k = Some (VQP sc rc e n op) → sc ≠ r ∧ rc ≠ r) →
    (∀ sc rc e n op, views t !! r = Some (VQP sc rc e n op) → n = 0) →
    wp (modify (λ s, set_heap (delete r (b_heap s)) s)) (λ _ t, Shared (views t)) (λ _ t, Shared (views t)) t).
  { intros t Ht H1 H2. apply wp_modify. unfold views. cbn. rewrite fmap_delete. by apply shared_delete. }
  assert (Hcase : (∃ q, x = OQP q) ∨ ∀ q, x ≠ OQP q) by (destruct x; (by left; eauto) || by right).
  destruct Hcase as [[q ->]|Hnq].
  - cbn [dealloc_body]. destruct (QP_dealloc_views _ _ _ Hx) as [b Hv].
    pose proof (Hr q Hx) as H0. rewrite H0 in Hv.
    pose proof (views_lookup _ _ _ Hx) as Hl. cbn in Hl. rewrite H0 in Hl.
    assert (Hsh : Shared (views (after (QP_dealloc r) s))).
    { rewrite Hv. apply shared_insert; [done| | |done|by rewrite Hl].
      - intros c. unfold at_key. by rewrite Hl.
      - intros ? ? ? ? ? [= <- <- <- <- <-].
        destruct (shared_qp _ Hs _ _ _ _ _ _ Hl) as (_ & _ & H2 & H3). by split_and!. }
    revert Hv Hsh. unfold after, wp at 1. destruct (QP_dealloc r s) as [[] t]; cbn; intros Hv Hsh; [|done].
    apply Hend; [done| |].
    + intros k sc rc e n op Hne. rewrite Hv, lookup_insert_ne by done. by apply Hun.
    + intros sc rc e n op. rewrite Hv, lookup_insert_eq. congruence.
  - pose proof (dealloc_same_views r x Hnq s) as Hv. unfold wp at 1.
    destruct (dealloc_body r x s) as [[] t]; cbn in Hv; [|by rewrite Hv].
    apply Hend; rewrite Hv; [done|by intros ? ? ? ? ? ? _ ?%Hun|].
    intros sc rc e n op Hq. destruct x; try (by rewrite (views_lookup _ _ _ Hx) in Hq). by destruct (Hnq o).
Qed.

Lemma call_shares c s : retained s c → Shared (views s) → Shared (views (run_call c s)).
Proof.
  intros Hc Hs. destruct (quiet_call c) eqn:E; [by apply quiet_shares|].
  destruct c; try discriminate E; cbn [run_call].
  - by apply create_qp_shares.
  - by apply bridge_shares.
  - by apply acquire_shares.
  - by apply release_shares.
  - by apply QP_close_shares.
  - by apply CMID_create_qp_shares.
  - by apply collect_shares.
Qed.

Lemma reach_shared s0 s : b_heap s0 = ∅ → reach retained s0 s → Shared (views s).
Proof.
  intros H0. induction 1; [|by apply call_shares].
  unfold views. rewrite H0, fmap_empty. by split.
Qed.
End Methods.

(** * What the counts mean *)

(** The GPU handles through the object [x] that use the completion queue [c]. *)
Definition handles_through (c : nat) (x : PyObj) : Z :=
  match x with
  | OQP q => if (qp_send_cq q =? c)%nat || (qp_recv_cq q =? c)%nat then qp_external_users q else 0
  | _ => 0
  end.

Section Locked.
Context {W : Type} `{!Libibverbs W}.
Abbreviation B := (Binding W).
Implicit Types (s : B).

Lemma views_cq s c e n : views s !! c = Some (VCQ e n) →
  ∃ k, b_heap s !! c = Some (OCQ k) ∧ cq_external_datapath k = e ∧ cq_external_users k = n.
Proof.
  unfold views. rewrite lookup_fmap. destruct (b_heap s !! c) as [[]|]; try done.
  intros [= <- <-]. eauto.
Qed.

Lemma shared_users_sum s c o :
  Shared (views s) → b_heap s !! c = Some (OCQ o) →
  cq_external_users o = msum (handles_through c) (b_heap s).
Proof.
  intros Hs Hc. rewrite (shared_cq _ Hs _ _ _ (views_lookup _ _ _ Hc)). unfold views.
  rewrite msum_fmap. apply msum_ext. intros k x _. by destruct x.
Qed.

Lemma handles_nonneg s c k x : Shared (views s) → b_heap s !! k = Some x → 0 ≤ handles_through c x.
Proof.
  intros Hs Hk. destruct x as [| | | | |q| | | |]; try done. cbn. destruct (_ || _); [|done].
  by destruct (shared_qp _ Hs _ _ _ _ _ _ (views_lookup _ _ _ Hk)) as [? _].
Qed.

(** C29: In every run of a program that keeps its queue pairs as long as it holds GPU handles of them,
    a completion queue counts exactly the handles of the queue pairs that use it; a queue pair with
    a handle is open and external, and both queues of an external queue pair are external. *)
Theorem gpu_handles_counted (s0 s : B) :
  b_heap s0 = ∅ → reach retained s0 s →
  (∀ c o, b_heap s !! c = Some (OCQ o) →
     cq_external_users o = msum (handles_through c) (b_heap s)) ∧
  (∀ r q, b_heap s !! r = Some (OQP q) →
     0 ≤ qp_external_users q ∧
     (0 < qp_external_users q → qp_external_datapath q = true ∧ qp_qp q ≠ 0) ∧
     ∃ sc rc, b_heap s !! qp_send_cq q = Some (OCQ sc) ∧ b_heap s !! qp_recv_cq q = Some (OCQ rc) ∧
       (qp_external_datapath q = true →
        cq_external_datapath sc = true ∧ cq_external_datapath rc = true)).
Proof.
  intros H0 Hr. pose proof (reach_shared _ _ H0 Hr) as Hs.
  split; [intros c o; by apply shared_users_sum|]. intros r q Hq.
  destruct (shared_qp _ Hs _ _ _ _ _ _ (views_lookup _ _ _ Hq)) as (Hn & Hp & (e1 & n1 & H1 & E1) & (e2 & n2 & H2 & E2)).
  split_and!; [done| |].
  - intros Hlt. destruct (Hp Hlt) as [-> Ho]. split; [done|]. by apply negb_true_iff, Z.eqb_neq in Ho.
  - destruct (views_cq _ _ _ _ H1) as (sc & Hsc & <- & _). destruct (views_cq _ _ _ _ H2) as (rc & Hrc & <- & _).
    exists sc, rc. split_and!; [done|done|]. intros E. split; [by apply E1|by apply E2].
Qed.

(** A completion queue of a queue pair with a GPU handle has users. *)
Lemma users_positive s r q c o :
  Shared (views s) → b_heap s !! r = Some (OQP q) → 0 < qp_external_users q →
  c = qp_send_cq q ∨ c = qp_recv_cq q → b_heap s !! c = Some (OCQ o) → cq_external_users o ≠ 0.
Proof.
  intros Hs Hq Hp Hc Ho E. rewrite (shared_users_sum _ _ _ Hs Ho) in E.
  pose proof (msum_zero_inv _ _ _ _ (λ k x, handles_nonneg s c k x Hs) E Hq) as Hz. cbn in Hz.
  destruct Hc as [->| ->]; rewrite Nat.eqb_refl, ?orb_true_r in Hz; cbn in Hz; lia.
Qed.

(** Once the queues of an open queue pair belong to a GPU, posting, polling and arming them from
    the CPU raise EBUSY and change nothing; while a GPU handle of it is held, so does closing the
    queue pair or one of its completion queues. *)
Theorem gpu_queue_locked (s0 s : B) r q c o :
  b_heap s0 = ∅ → reach retained s0 s →
  b_heap s !! r = Some (OQP q) → qp_qp q ≠ 0 → qp_external_datapath q = true →
  c = qp_send_cq q ∨ c = qp_recv_cq q → b_heap s !! c = Some (OCQ o) → cq_cq o ≠ 0 →
  let busy {A} (f : M B A) := f s = (Raise (VerbsError EBUSY), s) in
  (∀ wrs, busy (post_send r wrs)) ∧ (∀ wrs, busy (post_recv r wrs)) ∧
  (∀ n, - 2 ^ 31 ≤ n < 2 ^ 31 → busy (poll c n)) ∧ (∀ b, busy (req_notify c b)) ∧
  busy (_mlx5dv_bridge_info r) ∧
  (0 < qp_external_users q → busy (QP_close r) ∧ busy (CQ_close c)).
Proof.
  intros H0 Hr Hq Hz He Hc Ho Hzc busy. pose proof (reach_shared _ _ H0 Hr) as Hs.
  assert (Heo : cq_external_datapath o = true).
  { destruct (shared_qp _ Hs _ _ _ _ _ _ (views_lookup _ _ _ Hq)) as (_ & _ & (e1 & n1 & H1 & E1) & (e2 & n2 & H2 & E2)).
    pose proof (views_lookup _ _ _ Ho) as Hv. cbn in Hv. destruct Hc as [->| ->]; rewrite Hv in *; naive_solver. }
  apply Z.eqb_neq in Hz, Hzc. subst busy. cbn beta.
  split_and!; intros.
  1,2,4,5: unfold post_send, post_recv, req_notify, _mlx5dv_bridge_info, mbind, M_bind, load;
    rewrite ?Hq, ?Ho; cbn; unfold qp_ensure, cq_ensure, ensure; rewrite ?Hz, ?Hzc; cbn; rewrite ?He, ?Heo; done.
  - unfold poll, mbind, M_bind, c_int, to_int, lift, load.
    replace ((- 2 ^ 31 <=? n) && (n <? 2 ^ 31)) with true by lia. rewrite Ho. cbn.
    unfold cq_ensure, ensure. rewrite Hzc. cbn. by rewrite Heo.
  - assert (Hu : qp_external_users q ≠ 0) by lia. apply Z.eqb_neq in Hu.
    pose proof (users_positive _ _ _ _ _ Hs Hq ltac:(done) Hc Ho) as Hu2. apply Z.eqb_neq in Hu2.
    unfold QP_close, CQ_close, mbind, M_bind, load. rewrite Hq, Ho. cbn. by rewrite Hz, Hzc, Hu, Hu2.
Qed.
End Locked.
