(* ===== verification/VerbsTeardown.v ===== *)
(** Everything the verbs binding hands out can be given back: from every state of a run
    in which no GPU handle is held, closing the queue pairs, then the objects of the
    domains and the completion queues, then the channels and the domains, then the
    endpoints, succeeds at every step. *)

From S2P Require Import Prelude Bytes Json.
From S2P Require Import GpuNetIO.
From S2P Require Import Helpers.
From S2P Require Import VerbsLib VerbsValues VerbsPost.
From S2P Require Import VerbsObjects VerbsSafety VerbsMethods.
From S2P Require Import VerbsInvariant VerbsAlong VerbsRuns VerbsTheorems VerbsExternal.
#[local] Open Scope Z_scope.

(** The order of closing: an object before those it was made from. *)
Definition rank (x : PyObj) : nat :=
  match x with
  | OQP _ => 0
  | OAH _ | OMR _ | OSRQ _ | OCQ _ => 1
  | OCompChannel _ | OPD _ => 2
  | OCMID _ => 3
  | OContext _ | OAsyncEvent _ => 4
  end.

(** The [close] of the object's class. *)
Definition close_of {W} `{!Libibverbs W} (r : nat) (x : PyObj) : M (Binding W) unit :=
  match x with
  | OContext _ => Context_close r
  | OPD _ => PD_close r
  | OMR _ => MR_close r
  | OCompChannel _ => CompChannel_close r
  | OCQ _ => CQ_close r
  | OQP _ => QP_close r
  | OAH _ => AH_close r
  | OSRQ _ => SRQ_close r
  | OCMID _ => CMID_close r
  | OAsyncEvent _ => mret tt
  end.

(** No GPU handle of the object is held. *)
Definition idle (x : PyObj) : Prop :=
  match x with
  | OQP q => qp_external_users q = 0
  | OCQ c => cq_external_users c = 0
  | _ => True
  end.

Section Teardown.
Context {W : Type} `{!Libibverbs W}.
Abbreviation B := (Binding W).
Implicit Types (s t : B) (m : gmap nat PyObj).

Definition refs_at (k : nat) m : list nat :=
  (filter (λ p, rank p.2 = k) (map_to_list m)).*1.
Definition close_at (r : nat) : M B unit :=
  s ← get;
  match b_heap s !! r with Some x => close_of r x | None => mret tt end.
Definition close_rank (k : nat) : M B unit :=
  s ← get; for_each close_at (refs_at k (b_heap s)).
(** Every object but the contexts. *)
Definition teardown : M B unit := for_each close_rank [0; 1; 2; 3]%nat.

(** ** What closing leaves alone *)

(** Objects stay, closed ones stay closed, and nothing new is made from anything. *)
Definition shrunk (x x' : PyObj) : Prop :=
  rank x' = rank x ∧ (idle x → idle x') ∧ (handle_of x = 0 → handle_of x' = 0) ∧
  parents_of x' ⊆ parents_of x ∧ borrowed x' = borrowed x.
Definition shrinks s t : Prop :=
  ∀ r, match b_heap s !! r, b_heap t !! r with
       | Some x, Some x' => shrunk x x'
       | None, None => True
       | _, _ => False
       end.

Lemma shrunk_refl x : shrunk x x.
Proof. by split_and!. Qed.

#[global] Instance shrinks_preorder : PreOrder shrinks.
Proof.
  split.
  - intros s r. destruct (b_heap s !! r); [apply shrunk_refl|done].
  - intros s t u H1 H2 r. specialize (H1 r). specialize (H2 r).
    destruct (b_heap s !! r), (b_heap t !! r), (b_heap u !! r); try done.
    destruct H1 as (? & ? & ? & ? & ?), H2 as (? & ? & ? & ? & ?). split_and!; try congruence; auto.
    set_solver.
Qed.

#[global] Instance shrinks_rel : HeapRel shrinks.
Proof.
  refine {| hr_sim := shrunk |}.
  - intros s t H r. rewrite H. destruct (b_heap s !! r); [apply shrunk_refl|done].
  - intros s r x x' Hr Hx k. cbn. destruct (decide (k = r)) as [->|Hne].
    + by rewrite Hr, lookup_insert_eq.
    + rewrite lookup_insert_ne by done. destruct (b_heap s !! k); [apply shrunk_refl|done].
Defined.

Lemma close_shrinks r x : along shrinks (close_of r x).
Proof.
  destruct x; cbn [close_of]; unfold QP_close; autounfold with verbs_methods; quiet.
  split_and!; try done. unfold parents_of. cbn. rewrite !fmap_app. intros p.
  rewrite !elem_of_cons, !elem_of_app. cbn. intros [?|[?|[?|[?|Hn]]]]; [tauto..|].
  by apply not_elem_of_nil in Hn.
Qed.

Context `{!LibibverbsLaws W}.

Lemma rank_parent s r x p y :
  Inv s → b_heap s !! r = Some x → p ∈ parents_of x → b_heap s !! p = Some y → (rank x < rank y)%nat.
Proof.
  intros I Hx [k Hp]%elem_of_parents Hy.
  destruct (inv_parent I _ _ _ _ Hx Hp) as (y' & Hy' & Hk & _). assert (y' = y) as -> by congruence.
  assert (Hrank : match kcls (sh_kind (sh_of y)) with
                  | LContext | LOther => rank y = 4%nat
                  | LCmId => rank y = 3%nat
                  | LPD | LChannel => rank y = 2%nat
                  | LQP => rank y = 0%nat
                  | _ => rank y = 1%nat
                  end) by (destruct y; cbn; try done; by destruct (ctx_owned _)).
  rewrite Hk in Hrank. clear Hk Hy Hy'.
  destruct x; cbn in *; set_unfold in Hp; naive_solver (simplify_eq; lia).
Qed.

(** With everything of a lower rank closed, nothing open was made from the object. *)
Lemma rank_childless s r x :
  Inv s → b_heap s !! r = Some x →
  (∀ k y, b_heap s !! k = Some y → (rank y < rank x)%nat → handle_of y = 0) →
  childless (sh_of <$> b_heap s) r.
Proof.
  intros I Hx Hlow k S c HS Hh Hp. destruct (sh_lookup_inv _ _ HS) as (y & Hy & ->).
  apply Hh, (Hlow k y Hy). eapply rank_parent; [done|exact Hy| |exact Hx]. apply elem_of_parents. eauto.
Qed.

(** ** Each close succeeds when its turn comes *)

Abbreviation never := (λ (_ : exn) (_ : B), False).
Definition closed_at (r : nat) s : Prop := handle_at (b_heap s) r = 0.

Lemma wp_load_at {O} `{!PyClass O} r (o : O) (Q : O → B → Prop) E s :
  b_heap s !! r = Some (to_obj o) → of_obj (to_obj o) = Some o → Q o s → wp (load r) Q E s.
Proof. intros Hr Ho HQ. unfold wp, load. rewrite Hr. cbn. by rewrite Ho. Qed.

Lemma wp_freed (f : W → Z * W) h (Q : unit → B → Prop) E s (g : M B unit) :
  destroys live intact h (b_world s) (f (b_world s)) → ¬ used (live (b_world s)) h →
  (∀ w, wp g Q E (set_world w s)) → wp (rc ← native f; check_rc rc;; g) Q E s.
Proof.
  intros Hd Hu Hg. apply wp_bind, wp_native. intros rc w Hf. rewrite Hf in Hd.
  destruct Hd as [_ [(Hrc & _)|(_ & ? & _)]]; [|done]. cbn in Hrc. subst rc. step.
  apply wp_check_rc; [intros _; apply Hg|done].
Qed.

Lemma closed_insert r x s : handle_of x = 0 → closed_at r (set_heap (<[r := x]> (b_heap s)) s).
Proof. intros Hx. unfold closed_at, handle_at. cbn. by rewrite lookup_insert_eq. Qed.

(** The count goes down, and the object stays closed. *)
Lemma wp_given_back r c o x s :
  c ≠ r → b_heap s !! c = Some (OContext o) → handle_of x = 0 →
  wp (_release_child c) (λ _, closed_at r) never (set_heap (<[r := x]> (b_heap s)) s).
Proof.
  intros Hne Hc Hx. unfold _release_child. eapply (wp_update_at _ _ o); [|done|].
  - cbn. by rewrite lookup_insert_ne.
  - unfold closed_at, handle_at. cbn. by rewrite lookup_insert_ne, lookup_insert_eq.
Qed.

Section CloseOne.
Context {s r x} (I : Inv s) (Hr : b_heap s !! r = Some x).
Context (Hlow : ∀ k y, b_heap s !! k = Some y → (rank y < rank x)%nat → handle_of y = 0).

Lemma low_unused : handle_of x ≠ 0 → borrowed x = false → ¬ used (live (b_world s)) (handle_of x).
Proof using I Hr Hlow.
  intros Hh Hb. apply (childless_unused (proj1 I) r (sh_of x)); [by apply sh_lookup|done| |by eapply rank_childless].
  destruct x; try done. cbn in *. by destruct (ctx_owned _).
Qed.

(** The context of a counted child. *)
Lemma low_context c : (LContext, c) ∈ sh_parents (sh_of x) →
  c ≠ r ∧ ∃ o, b_heap s !! c = Some (OContext o).
Proof using I Hr.
  intros Hp. split.
  - intros ->. assert (r ∈ parents_of x) as Hin by (apply elem_of_parents; eauto).
    pose proof (rank_parent _ _ _ _ _ I Hr Hin Hr). lia.
  - destruct (inv_context I _ _ _ Hr Hp) as (o & Ho & _). eauto.
Qed.
End CloseOne.

(** Everything of a lower rank is closed. *)
Definition low (k : nat) s : Prop :=
  ∀ r x, b_heap s !! r = Some x → (rank x < k)%nat → handle_of x = 0.

(** The object is there; when it is open its native object goes, as [law] says. *)
Ltac found o := apply wp_bind, (wp_load_at _ o); [assumption|reflexivity|].
Ltac is_closed := step; unfold closed_at, handle_at;
  match goal with H : b_heap ?s !! ?r = Some _ |- context [b_heap ?s !! ?r] => rewrite H end; cbn; lia.
Ltac frees law alive o h :=
  apply (wp_freed _ h);
  [ apply law; [by apply inv_intact|]; eapply alive; [eassumption|eassumption|lia]
  | match goal with
    | I : Inv ?s, Hr : b_heap ?s !! _ = Some _, Hlow : low _ ?s |- _ =>
        apply (low_unused I Hr Hlow); [cbn; lia|done]
    end
  | intros w ].

Lemma MR_close_ok s r o :
  Inv s → b_heap s !! r = Some (OMR o) → low 1 s → wp (MR_close r) (λ _, closed_at r) never s.
Proof.
  intros I Hr Hlow. unfold MR_close. found o. destruct (mr_mr o =? 0) eqn:E0; [is_closed|].
  frees law_dereg_mr alive_mr o (mr_mr o). step. eapply wp_update_at; [exact Hr|done|].
  eapply wp_update_at; [by apply lookup_insert_eq|done|]. by apply closed_insert.
Qed.

Lemma AH_close_ok s r o :
  Inv s → b_heap s !! r = Some (OAH o) → low 1 s → wp (AH_close r) (λ _, closed_at r) never s.
Proof.
  intros I Hr Hlow. unfold AH_close. found o. destruct (ah_ah o =? 0) eqn:E0; [is_closed|].
  frees law_destroy_ah alive_ah o (ah_ah o). eapply wp_update_at; [exact Hr|done|]. by apply closed_insert.
Qed.

Lemma SRQ_close_ok s r o :
  Inv s → b_heap s !! r = Some (OSRQ o) → low 1 s → wp (SRQ_close r) (λ _, closed_at r) never s.
Proof.
  intros I Hr Hlow. unfold SRQ_close. found o. destruct (srq_srq o =? 0) eqn:E0; [is_closed|].
  frees law_destroy_srq alive_srq o (srq_srq o). eapply wp_update_at; [exact Hr|done|].
  by apply closed_insert.
Qed.

Lemma PD_close_ok s r o :
  Inv s → b_heap s !! r = Some (OPD o) → low 2 s → wp (PD_close r) (λ _, closed_at r) never s.
Proof.
  intros I Hr Hlow. unfold PD_close. found o. destruct (pd_pd o =? 0) eqn:E0; [is_closed|].
  frees law_dealloc_pd alive_pd o (pd_pd o). step. eapply wp_update_at; [exact Hr|done|].
  destruct (low_context I Hr (pd_context o)) as (Hne & c & Hc); [left|].
  by apply (wp_given_back r (pd_context o) c _ (set_world w s)).
Qed.

Lemma CompChannel_close_ok s r o :
  Inv s → b_heap s !! r = Some (OCompChannel o) → low 2 s →
  wp (CompChannel_close r) (λ _, closed_at r) never s.
Proof.
  intros I Hr Hlow. unfold CompChannel_close. found o. destruct (chan_chan o =? 0) eqn:E0; [is_closed|].
  frees law_destroy_comp_channel alive_chan o (chan_chan o). step. eapply wp_update_at; [exact Hr|done|].
  destruct (low_context I Hr (chan_context o)) as (Hne & c & Hc); [left|].
  by apply (wp_given_back r (chan_context o) c _ (set_world w s)).
Qed.

Lemma low_shrinks k s t : low k s → shrinks s t → low k t.
Proof.
  intros Hlow Hst r x Hx Hk. specialize (Hst r). rewrite Hx in Hst.
  destruct (b_heap s !! r) as [y|] eqn:Hy; [|done]. destruct Hst as (Hrk & _ & Hh & _).
  apply Hh, (Hlow _ _ Hy). lia.
Qed.

Lemma ack_all_ok s r o :
  Inv s → b_heap s !! r = Some (OCQ o) → cq_cq o ≠ 0 → low 1 s →
  wp (ack_all r) (λ _ t, (Inv t ∧ b_heap t !! r = Some (OCQ (set_unacked 0 o))) ∧ low 1 t) never s.
Proof.
  intros I Hr Hz Hlow. apply (wp_and_exn _ _ (λ _ _, True) (λ e t, Inv t ∧ shrinks s t)).
  - eapply wp_mono; [apply wp_conj; [by apply wp_ack_all|apply (wp_along shrinks)]| |done].
    + unfold ack_all, native_. quiet.
    + intros u t [Ht Hst]. split; [exact Ht|by eapply low_shrinks].
  - unfold ack_all. found o. destruct (0 <? cq_unacked o); [|by step].
    step. unfold native_. apply wp_native. intros [] w _. by eapply (wp_update_at _ _ o).
Qed.

Lemma CQ_close_ok s r o :
  Inv s → b_heap s !! r = Some (OCQ o) → cq_external_users o = 0 → low 1 s →
  wp (CQ_close r) (λ _, closed_at r) never s.
Proof.
  intros I Hr Hu Hlow. unfold CQ_close. found o. destruct (cq_cq o =? 0) eqn:E0; [is_closed|].
  rewrite Hu. step. apply wp_guard; [intros _|done]. step.
  eapply wp_mono; [by apply (ack_all_ok s r o); [..|lia|]| |done]. intros u t [[It Ht] Hlt].
  apply (wp_freed _ (cq_cq o)).
  - destruct (cq_live t r _ It Ht) as (d & Hl & _); [cbn; lia|]. by eapply law_destroy_cq; [apply inv_intact|].
  - apply (low_unused It Ht Hlt); [cbn; lia|done].
  - intros w. step. eapply wp_update_at; [exact Ht|done|].
    destruct (low_context It Ht (cq_context o)) as (Hne & c & Hc); [left|].
    by apply (wp_given_back r (cq_context o) c _ (set_world w t)).
Qed.

Lemma QP_close_ok s r o :
  Inv s → b_heap s !! r = Some (OQP o) → qp_external_users o = 0 →
  wp (QP_close r) (λ _, closed_at r) never s.
Proof.
  intros I Hr Hu. unfold QP_close. found o. destruct (qp_qp o =? 0) eqn:E0; [is_closed|].
  rewrite Hu. step. apply wp_guard; [intros _|done]. step.
  assert (Hlow : low 0 s) by (intros k x _ Hk; lia).
  destruct (negb (qp_cm_id o =? 0)) eqn:Ec.
  - step. unfold native_ at 1. apply wp_native. intros [] w _.
    eapply wp_update_at; [exact Hr|done|]. eapply wp_update_at; [by apply lookup_insert_eq|done|].
    by apply closed_insert.
  - assert (qp_cm_id o = 0) as Hcm by lia.
    assert (alive (live (b_world s)) (only (KQP 0)) (qp_qp o)) as Ha.
    { apply (inv_handle s r (OQP o)); [done|done|cbn; lia|]. cbn. rewrite Hcm. by apply bool_decide_eq_true. }
    pose proof (law_destroy_qp (qp_qp o) (b_world s) (inv_intact _ I) Ha) as Hd.
    apply wp_bind, wp_native. intros rc w Hf. rewrite Hf in Hd.
    destruct Hd as [_ [(Hrc & _)|(_ & Hused & _)]].
    + cbn in Hrc. subst rc. apply wp_check_rc; [intros _|done].
      eapply wp_update_at; [exact Hr|done|]. by apply closed_insert.
    + destruct (low_unused I Hr Hlow); [cbn; lia|done|done].
Qed.

Lemma CMID_close_ok s r o :
  Inv s → b_heap s !! r = Some (OCMID o) → low 3 s → wp (CMID_close r) (λ _, closed_at r) never s.
Proof.
  intros I Hr Hlow. unfold CMID_close. found o. destruct (cm_id o =? 0) eqn:E0; [is_closed|].
  assert (Hz : cm_id o ≠ 0) by lia.
  assert (Hq : cm_id_qp (b_world s) (cm_id o) = 0).
  { destruct (law_cm_id_qp _ _ (inv_intact _ I) (alive_cm s r o I Hr Hz)) as [_ Hq].
    destruct (decide (cm_id_qp (b_world s) (cm_id o) = 0)) as [|Hne]; [done|].
    destruct (Hq Hne) as (n & Hn & Hk).
    destruct (core_owner (proj1 I) _ _ Hn ltac:(by rewrite Hk)) as (k & S & HS & Hh & H0 & ->).
    destruct (sh_lookup_inv _ _ HS) as (x & Hx & ->). cbn in Hk.
    assert (rank x = 0%nat) as Hrk by (destruct x; cbn in Hk; try done; by destruct (ctx_owned _)).
    pose proof (Hlow _ _ Hx ltac:(lia)) as Hc. unfold handle_of in Hc. congruence. }
  step. apply wp_peek. rewrite Hq. step. apply wp_guard; [intros _|done]. step.
  destruct (low_context I Hr (cm_context o)) as (Hne & c & Hc); [left|].
  apply (wp_load_at _ c); [done|done|].
  assert (ctx_children c = 0) as ->.
  { apply (children_zero _ _ _ I Hc). intros k x Hx Hch. unfold counted_child in Hch.
    destruct (child_of_open (cm_context o) x) as [?|(_ & Hh & Hp & Hk)]; [lia|]. apply Hh.
    apply (Hlow k x Hx). destruct x; cbn in Hch; try lia; cbn; lia. }
  step. apply wp_guard; [intros _|done]. step. eapply wp_update_at; [exact Hc|done|]. step.
  unfold native_. apply wp_native. intros [] w _. step.
  eapply (wp_update_at _ _ o); [cbn; by rewrite lookup_insert_ne|done|].
  eapply (wp_update_at _ _ (set_cm_id 0 o)); [by apply lookup_insert_eq|done|]. by apply closed_insert.
Qed.

Lemma close_ok s r x :
  Inv s → b_heap s !! r = Some x → (rank x < 4)%nat → idle x → low (rank x) s →
  wp (close_of r x) (λ _, closed_at r) never s.
Proof.
  intros I Hr Hk Hi Hlow. destruct x; cbn in *; try lia.
  - by eapply PD_close_ok.
  - by eapply MR_close_ok.
  - by eapply CompChannel_close_ok.
  - by eapply CQ_close_ok.
  - by eapply QP_close_ok.
  - by eapply AH_close_ok.
  - by eapply SRQ_close_ok.
  - by eapply CMID_close_ok.
Qed.

Lemma close_of_safe r x : safe (close_of r x).
Proof. destruct x; cbn [close_of]; auto with verbs_safe. by intros s I. Qed.

(** ** All of them, in order *)

Definition all_idle s : Prop := ∀ r x, b_heap s !! r = Some x → idle x.

Lemma idle_shrinks s t : all_idle s → shrinks s t → all_idle t.
Proof.
  intros Hi Hst r x Hx. specialize (Hst r). rewrite Hx in Hst.
  destruct (b_heap s !! r) as [y|] eqn:Hy; [|done]. destruct Hst as (_ & H & _). by apply H, (Hi r).
Qed.

(** The objects of rank [k] that are still open are in [l]. *)
Definition left_in (k : nat) (l : list nat) s : Prop :=
  ∀ r x, b_heap s !! r = Some x → rank x = k → handle_of x ≠ 0 → r ∈ l.

Lemma close_one s r x :
  Inv s → b_heap s !! r = Some x → (rank x < 4)%nat → idle x → low (rank x) s →
  wp (close_of r x) (λ _ t, Inv t ∧ shrinks s t ∧ closed_at r t) never s.
Proof.
  intros I Hr Hk Hi Hlow.
  eapply wp_mono; [apply wp_conj; [apply wp_conj; [by apply close_of_safe|apply (wp_along shrinks), close_shrinks]|by apply close_ok]| |].
  - by intros u t [[? ?] ?].
  - by intros e t [_ []].
Qed.

Lemma wp_close_rank k s :
  (k < 4)%nat → Inv s → all_idle s → low k s →
  wp (close_rank k) (λ _ t, Inv t ∧ all_idle t ∧ low (S k) t) never s.
Proof.
  intros Hk I Hi Hlow. unfold close_rank. step. step.
  apply (wp_mono _ (λ _ t, (∀ r x, r ∈ [] → b_heap t !! r = Some x → rank x = k) ∧
    Inv t ∧ all_idle t ∧ low k t ∧ left_in k [] t) _ never); [| |done].
  2:{ intros _ t (_ & It & Hit & Hlt & Hleft). split_and!; [done|done|]. intros r x Hx Hr.
      destruct (decide (rank x = k)) as [E|]; [|apply (Hlt r x Hx); lia].
      destruct (decide (handle_of x = 0)) as [|Hne]; [done|].
      by destruct (not_elem_of_nil r (Hleft r x Hx E Hne)). }
  apply (wp_for_each _ _ (λ l t, (∀ r x, r ∈ l → b_heap t !! r = Some x → rank x = k) ∧
    Inv t ∧ all_idle t ∧ low k t ∧ left_in k l t)).
  - split_and!; [|done|done|done|].
    + intros r x Hin Hx. unfold refs_at in Hin. apply list_elem_of_fmap in Hin as ([r' y] & -> & Hin).
      apply list_elem_of_filter in Hin as [Hy Hin]. apply elem_of_map_to_list in Hin. cbn in *. congruence.
    + intros r x Hx Hrk _. unfold refs_at. apply list_elem_of_fmap. exists (r, x). split; [done|].
      apply list_elem_of_filter. split; [done|]. by apply elem_of_map_to_list.
  - intros r l t (Hl & It & Hit & Hlt & Hleft). unfold close_at. step. step.
    destruct (b_heap t !! r) as [x|] eqn:Hx.
    2:{ step. split_and!; [|done..|].
        - intros k' y Hk'. apply Hl. by right.
        - intros k' y Hy Hrk Hne. pose proof (Hleft _ _ Hy Hrk Hne) as Hin.
          apply elem_of_cons in Hin as [->|]; [congruence|done]. }
    pose proof (Hl r x ltac:(left) Hx) as Hrk.
    eapply wp_mono; [apply (close_one t r x); [done|done|lia|by eapply Hit|by rewrite Hrk]| |done].
    intros u t' (It' & Hst & Hc).
    assert (Hback : ∀ k' y, b_heap t' !! k' = Some y → ∃ z, b_heap t !! k' = Some z ∧ shrunk z y).
    { intros k' y Hy. specialize (Hst k'). rewrite Hy in Hst. destruct (b_heap t !! k'); [eauto|done]. }
    split_and!; [|done|by eapply idle_shrinks|by eapply low_shrinks|].
    + intros k' y Hin Hy. destruct (Hback _ _ Hy) as (z & Hz & Hrz & _).
      rewrite Hrz. apply (Hl k'); [by right|done].
    + intros k' y Hy Hry Hne. destruct (Hback _ _ Hy) as (z & Hz & Hrz & _ & Hz0 & _).
      assert (Hin : k' ∈ r :: l) by (apply (Hleft _ _ Hz); [congruence|intros E; by apply Hne, Hz0]).
      apply elem_of_cons in Hin as [->|]; [|done].
      unfold closed_at, handle_at in Hc. rewrite Hy in Hc. by destruct Hne.
Qed.

Lemma wp_teardown s :
  Inv s → all_idle s → wp teardown (λ _ t, Inv t ∧ low 4 t) never s.
Proof.
  intros I Hi. unfold teardown. cbn [for_each].
  assert (Hlow : low 0 s) by (intros r x _ Hr; lia).
  step. eapply wp_mono; [by apply wp_close_rank; [lia|..]| |done]. intros _ t1 (I1 & Hi1 & L1).
  step. eapply wp_mono; [by apply wp_close_rank; [lia|..]| |done]. intros _ t2 (I2 & Hi2 & L2).
  step. eapply wp_mono; [by apply wp_close_rank; [lia|..]| |done]. intros _ t3 (I3 & Hi3 & L3).
  step. eapply wp_mono; [by apply wp_close_rank; [lia|..]| |done]. intros _ t4 (I4 & Hi4 & L4). by step.
Qed.

(** C28: From every state of a run in which no GPU handle is held, closing all objects but the
    contexts, each before those it was made from, raises nowhere; then only the contexts of devices
    the program opened itself are open, and only device contexts are alive in the libraries. *)
Theorem teardown_complete s0 s :
  started s0 → reach (λ s c, allowed s c ∧ retained s c) s0 s →
  (∀ r q, b_heap s !! r = Some (OQP q) → qp_external_users q = 0) →
  ∃ t, teardown s = (Ok tt, t) ∧
    (∀ r x, b_heap t !! r = Some x → handle_of x ≠ 0 → ∃ o, x = OContext o ∧ ctx_owned o = true) ∧
    (∀ h n, live (b_world t) !! h = Some n → is_context (n_kind n) = true).
Proof.
  intros Hs Hr Hq.
  assert (I : Inv s) by (eapply reach_inv, reach_mono, Hr; [done|naive_solver]).
  assert (Hsh : Shared (views s)) by (eapply reach_shared, reach_mono, Hr; [apply Hs|naive_solver]).
  assert (Hi : all_idle s).
  { intros r x Hx. destruct x as [| | | |c|q| | | |]; try done; cbn; [|by eapply Hq].
    rewrite (shared_users_sum _ _ _ Hsh Hx). apply msum_zero. intros k y Hy.
    destruct y as [| | | | |q| | | |]; try done. cbn. rewrite (Hq _ _ Hy). by destruct (_ || _). }
  pose proof (wp_teardown s I Hi) as Hw. unfold wp in Hw.
  destruct (teardown s) as [[[]|e] t]; [|done]. destruct Hw as [It Hlow]. exists t.
  assert (Hopen : ∀ r x, b_heap t !! r = Some x → handle_of x ≠ 0 → ∃ o, x = OContext o ∧ ctx_owned o = true).
  { intros r x Hx Hne. destruct x as [o| | | | | | | | |e]; try (by destruct Hne; apply (Hlow _ _ Hx); cbn; lia); [|done].
    exists o. split; [done|]. destruct (ctx_owned o) eqn:Eo; [done|].
    destruct (core_borrow _ _ (proj1 It) r _ (sh_lookup _ _ Hx)) as (i & S & HS & Hk & Hh & _); [cbn; by rewrite Eo|done|].
    destruct (sh_lookup_inv _ _ HS) as (y & Hy & ->). destruct Hh. apply (Hlow _ _ Hy).
    destruct y as [c| | | | | | | | |]; cbn in Hk; try done; [by destruct (ctx_owned c)|cbn; lia]. }
  split_and!; [done|done|]. intros h n Hn. destruct (is_context (n_kind n)) eqn:Ek; [done|].
  destruct (core_owner (proj1 It) _ _ Hn Ek) as (r & S & HS & Hh & H0 & ->).
  destruct (sh_lookup_inv _ _ HS) as (x & Hx & ->).
  destruct (Hopen r x Hx) as (o & -> & Eo); [unfold handle_of; congruence|]. cbn in Ek. by rewrite Eo in Ek.
Qed.
End Teardown.
