(* ===== verification/VerbsUse.v ===== *)
(** What callers of the verbs binding rely on: scatter entries stay inside their memory
    region, the state changes of a queue pair announce the attributes that the manual
    page of ibv_modify_qp asks for, the libraries are loaded whole or not at all, and
    [connect_rc] of src/ibverbs/src/ibverbs/helpers.py brings a queue pair of the binding
    up in three calls. *)

From S2P Require Import Prelude Bytes Json.
From S2P Require Import GpuNetIO.
From S2P Require Import Helpers.
From S2P Require Import VerbsLib VerbsValues VerbsPost.
From S2P Require Import VerbsObjects VerbsSafety VerbsMethods.
From S2P Require Import VerbsInvariant.
#[local] Open Scope Z_scope.

(** * Scatter entries *)

Section Entries.
Context {W : Type} `{!Libibverbs W}.
Abbreviation B := (Binding W).
Implicit Types (s : B).

Lemma SGE_check_spec l k o :
  SGE_check l k o =
    if (0 <=? l) && (l <? 2 ^ 32) && (0 <=? o) && (0 <=? k) && (k <? 2 ^ 32) then Ok tt
    else Raise ValueError.
Proof.
  unfold SGE_check, raise_if. change (2 ^ 32) with 4294967296.
  destruct ((l <? 0) || _) eqn:E1; [|destruct (o <? 0) eqn:E2; [|destruct ((k <? 0) || _) eqn:E3]]; cbn;
    repeat case_match; done || lia.
Qed.

(** C31: [SGE(mr, length, lkey, offset)] on a region of [len] bytes at [addr], as the library reports it:
    a closed region raises EBADF; a range that leaves the region, or a number outside its C type,
    raises ValueError; otherwise the entry covers exactly the asked bytes, all inside the region, and
    carries the region's key unless another was given. Nothing changes in any case. *)
Theorem sge_stays_inside s r o length lkey offset :
  b_heap s !! r = Some (OMR o) →
  let addr := v_mr_addr (b_world s) (mr_mr o) in
  let len := v_mr_length (b_world s) (mr_mr o) in
  0 ≤ addr → 0 ≤ len → addr + len ≤ 2 ^ 64 →
  (SGE_mr r length lkey offset s).2 = s ∧
  match (SGE_mr r length lkey offset s).1 with
  | Ok g =>
      mr_mr o ≠ 0 ∧ sge_length g = length ∧ 0 ≤ length < 2 ^ 32 ∧
      (0 < length → sge_addr g = addr + offset ∧ addr ≤ sge_addr g ∧
         sge_addr g + sge_length g ≤ addr + len) ∧
      sge_lkey g = (if lkey =? 0 then v_mr_lkey (b_world s) (mr_mr o) else lkey) ∧
      sge_owner g = Some r
  | Raise e =>
      (e = ValueError ∧ ¬ (0 ≤ length < 2 ^ 32 ∧ 0 ≤ lkey < 2 ^ 32 ∧ 0 ≤ offset ∧ offset + length ≤ len)) ∨
      (e = VerbsError EBADF ∧ mr_mr o = 0)
  end.
Proof.
  intros Hr addr len H1 H2 H3. unfold SGE_mr, mbind, M_bind, lift, load.
  rewrite SGE_check_spec, Hr. unfold mr_ensure, ensure, guard_raise. cbn.
  match goal with |- context [if ?c then Ok tt else _] => destruct c eqn:E end; cbn.
  2:{ split; [done|]. left. split; [done|]. lia. }
  destruct (mr_mr o =? 0) eqn:Ez; cbn; [split; [done|]; right; split; [done|lia]|].
  fold addr len. unfold SGE_of_region, raise_if.
  destruct ((len <? offset) || _) eqn:E2; cbn; [split; [done|]; left; split; [done|lia]|].
  split_and!; try done; try lia. intros Hl. unfold u64. rewrite Z.mod_small; lia.
Qed.
End Entries.

(** * Attribute masks *)

(** The manual page of ibv_modify_qp: the attributes, by the number of their bit in the mask,
    that a change of state needs and those that it may carry. *)
Definition needed (ty target : Z) : list Z :=
  match ty, target with
  | 2, 1 | 3, 1 => [0; 3; 4; 5]
  | 4, 1 => [0; 4; 5; 6]
  | 2, 2 => [0; 7; 8; 12; 15; 17; 20]
  | 3, 2 => [0; 7; 8; 12; 20]
  | 4, 2 => [0]
  | 2, 3 => [0; 9; 10; 11; 13; 16]
  | 3, 3 | 4, 3 => [0; 16]
  | _, _ => []
  end.
Definition optional (ty target : Z) : list Z :=
  match ty, target with
  | 2, 2 | 3, 2 => [3; 4; 14]
  | 4, 2 => [4; 6]
  | 2, 3 => [1; 3; 14; 15; 18]
  | 3, 3 => [1; 3; 14; 18]
  | 4, 3 => [1; 6]
  | _, _ => []
  end.

Definition bits_of (mask : Z) : list Z := filter (λ b, Z.testbit mask b = true) (seqZ 0 25).
(** Whether a driver takes the mask for that change. *)
Definition accepted (ty target mask : Z) : bool :=
  forallb (Z.testbit mask) (needed ty target) &&
  forallb (λ b, bool_decide (b ∈ needed ty target ++ optional ty target)) (bits_of mask).

(** The attributes that a structure carries, each with its bit: the fields that are not zero. *)
Definition carried (a : ibv_qp_attr) : list (Z * bool) :=
  [(0, negb (qp_state a =? 0)); (1, negb (cur_qp_state a =? 0)); (3, negb (qp_access_flags a =? 0));
   (4, negb (pkey_index a =? 0)); (5, negb (port_num a =? 0)); (6, negb (qkey a =? 0));
   (7, negb (av_is_global (ah_attr a) =? 0)); (8, negb (path_mtu a =? 0)); (9, negb (timeout a =? 0));
   (10, negb (retry_cnt a =? 0)); (11, negb (rnr_retry a =? 0)); (12, negb (rq_psn a =? 0));
   (13, negb (max_rd_atomic a =? 0)); (15, negb (min_rnr_timer a =? 0)); (16, negb (sq_psn a =? 0));
   (17, negb (max_dest_rd_atomic a =? 0)); (20, negb (dest_qp_num a =? 0))].
Definition announced (am : ibv_qp_attr * Z) : Prop :=
  Forall (λ p, p.2 = true → Z.testbit am.2 p.1 = true) (carried am.1).

Ltac announce :=
  unfold announced; cbn [fst snd carried];
  repeat (apply Forall_cons; split; [cbn; intros; done|]); by apply Forall_nil.

Lemma init_announced ty port access pkey qk : announced (init_attr ty port access pkey qk).
Proof. unfold init_attr. destruct (ty =? _QPT_UD); announce. Qed.

Lemma rts_announced ty psn tmo retry rnr rd : announced (rts_attr ty psn tmo retry rnr rd).
Proof. unfold rts_attr. destruct (ty =? _QPT_UD); announce. Qed.

Lemma rtr_mask port remote sgid mtu hop timer drd sl tc am :
  rtr_attr port remote sgid mtu hop timer drd sl tc = Ok am → am.2 = 1216897 ∧ announced am.
Proof.
  unfold rtr_attr, mbind, result_bind. repeat case_match; try done. intros [= <-]. split; [done|].
  announce.
Qed.

(** Every state change announces each attribute it sets, and for RC and UD queue pairs its mask is
    one that the manual page of ibv_modify_qp allows for the change; for UC queue pairs the change to
    INIT is, but those to RTR and RTS carry RC attributes that a driver must refuse. *)
Theorem transition_masks :
  (∀ ty port access pkey qk, ty ∈ [_QPT_RC; _QPT_UC; _QPT_UD] →
     announced (init_attr ty port access pkey qk) ∧
     accepted ty _QPS_INIT (init_attr ty port access pkey qk).2 = true) ∧
  (∀ port remote sgid mtu hop timer drd sl tc am,
     rtr_attr port remote sgid mtu hop timer drd sl tc = Ok am →
     announced am ∧ accepted _QPT_RC _QPS_RTR am.2 = true ∧ accepted _QPT_UC _QPS_RTR am.2 = false) ∧
  accepted _QPT_UD _QPS_RTR _QP_STATE = true ∧
  (∀ ty psn tmo retry rnr rd, ty ∈ [_QPT_RC; _QPT_UC; _QPT_UD] →
     announced (rts_attr ty psn tmo retry rnr rd) ∧
     accepted ty _QPS_RTS (rts_attr ty psn tmo retry rnr rd).2 = negb (ty =? _QPT_UC)).
Proof.
  split_and!.
  - intros ty port access pkey qk Hty. split; [apply init_announced|].
    repeat (apply elem_of_cons in Hty as [->|Hty]; [by vm_compute|]). by apply not_elem_of_nil in Hty.
  - intros port remote sgid mtu hop timer drd sl tc am Ham. destruct (rtr_mask _ _ _ _ _ _ _ _ _ _ Ham) as [-> Ha].
    split; [done|]. by vm_compute.
  - by vm_compute.
  - intros ty psn tmo retry rnr rd Hty. split; [apply rts_announced|].
    repeat (apply elem_of_cons in Hty as [->|Hty]; [by vm_compute|]). by apply not_elem_of_nil in Hty.
Qed.

Lemma transition_masks_witness :
  let remote := mk_QPInfo 9 5 0 (replicate 16 1) 1 5 in
  ∃ am, rtr_attr 1 remote 0 None 1 12 1 0 0 = Ok am ∧ announced am ∧
    dest_qp_num am.1 = 9 ∧ accepted _QPT_RC _QPS_RTR am.2 = true.
Proof.
  intros remote. destruct (rtr_attr 1 remote 0 None 1 12 1 0 0) as [am|] eqn:E; [|vm_compute in E; discriminate].
  destruct transition_masks as (_ & Hr & _). destruct (Hr _ _ _ _ _ _ _ _ _ _ E) as (Ha & Hrc & _).
  exists am. split_and!; [reflexivity|exact Ha| |exact Hrc]. vm_compute in E. injection E as <-. reflexivity.
Defined.

(** * Loading *)

Section Loading.
Context {W : Type} `{!Libibverbs W}.
Abbreviation B := (Binding W).
Implicit Types (s : B).

(** A pointer that was resolved. *)
Definition resolved s (name : string) : Prop := default 0 (b_syms s !! name) ≠ 0.

(** A load keeps the pointers that were resolved, and the handles. *)
Definition loads s t : Prop :=
  (∀ n, resolved s n → resolved t n) ∧ b_libhandle t = b_libhandle s ∧
  b_cm_libhandle t = b_cm_libhandle s ∧ b_heap t = b_heap s.

Lemma wp_load_sym h n s :
  wp (load_sym h n) (λ _ t, loads s t ∧ resolved t n) (λ e t, e = ImportError ∧ t = s) s.
Proof.
  unfold load_sym, _req_sym, set_sym. step. step. apply wp_peek. step. apply wp_guard; [intros E|done].
  step. apply wp_modify. unfold loads, resolved. cbn.
  assert (dl_sym (b_world s) h n ≠ 0) as Hz by lia. split_and!; try done.
  - intros m Hm. destruct (decide (m = n)) as [->|]; [by rewrite lookup_insert_eq|].
    by rewrite lookup_insert_ne.
  - by rewrite lookup_insert_eq.
Qed.

Lemma loads_refl s : loads s s.
Proof. by split_and!. Qed.
Lemma loads_trans s t u : loads s t → loads t u → loads s u.
Proof. intros (A1 & ? & ? & ?) (A2 & ? & ? & ?). split_and!; [auto|congruence..]. Qed.

Lemma wp_load_syms h l : ∀ s,
  wp (for_each (load_sym h) l) (λ _ t, loads s t ∧ Forall (resolved t) l)
    (λ e t, e = ImportError ∧ loads s t) s.
Proof.
  induction l as [|n l IH]; intros s; cbn [for_each]; [split; [apply loads_refl|done]|].
  step. eapply wp_mono; [apply wp_load_sym| |].
  - intros _ t [Hl Hn]. eapply wp_mono; [apply IH| |].
    + intros _ u [Hu Hall]. split; [by eapply loads_trans|]. constructor; [by apply Hu|done].
    + intros e u [-> Hu]. split; [done|by eapply loads_trans].
  - intros e t [-> ->]. split; [done|apply loads_refl].
Qed.

(** Importing the binding resolves every required function of libibverbs or raises ImportError;
    loading librdmacm resolves all of its functions and remembers that it did, or raises ImportError
    or RuntimeError and will be tried again; once loaded it does nothing. No object changes. *)
Theorem libraries_load_whole s :
  (match _load_libibverbs s with
   | (Ok _, t) => Forall (resolved t) ibverbs_symbols ∧ b_libhandle t ≠ 0 ∧ b_heap t = b_heap s
   | (Raise e, t) => e = ImportError ∧ b_heap t = b_heap s
   end) ∧
  (match _load_librdmacm s with
   | (Ok _, t) => b_cm_libhandle t ≠ 0 ∧ b_heap t = b_heap s ∧
       (b_cm_libhandle s = 0 → Forall (resolved t) rdmacm_symbols) ∧
       (b_cm_libhandle s ≠ 0 → t = s) ∧ _load_librdmacm t = (Ok tt, t)
   | (Raise e, t) => (e = ImportError ∨ e = RuntimeError) ∧ b_cm_libhandle t = 0 ∧ b_heap t = b_heap s
   end).
Proof.
  split.
  - change (wp _load_libibverbs (λ _ t, Forall (resolved t) ibverbs_symbols ∧ b_libhandle t ≠ 0 ∧ b_heap t = b_heap s)
      (λ e t, e = ImportError ∧ b_heap t = b_heap s) s).
    unfold _load_libibverbs. apply wp_bind, wp_native. intros h w _. step. apply wp_guard; [intros Eh|done].
    step. apply wp_modify. step. eapply wp_mono; [apply wp_load_syms| |].
    + intros _ t [(_ & Hh & _ & Hp) Hall]. step. apply wp_peek. unfold set_sym. apply wp_modify. cbn in *.
      split_and!; [|rewrite Hh; lia|by rewrite Hp].
      rewrite Forall_forall in *. intros n Hn. specialize (Hall n Hn). unfold resolved in *. cbn.
      rewrite lookup_insert_ne; [done|]. intros <-.
      assert (bool_decide ("ibv_reg_dmabuf_mr"%string ∈ ibverbs_symbols) = false) as Hno by by vm_compute.
      by apply bool_decide_eq_false in Hno.
    + intros e t [-> (_ & _ & _ & Hp)]. by split.
  - assert (Hdone : ∀ t, b_cm_libhandle t ≠ 0 → _load_librdmacm t = (Ok tt, t)).
    { intros t Ht. unfold _load_librdmacm, get, mbind, M_bind. cbn. by rewrite (proj2 (Z.eqb_neq _ _) Ht). }
    destruct (decide (b_cm_libhandle s = 0)) as [E0|E0].
    2:{ rewrite (Hdone s E0). split_and!; try done. by apply Hdone. }
    change (wp _load_librdmacm
      (λ _ t, b_cm_libhandle t ≠ 0 ∧ b_heap t = b_heap s ∧
         (b_cm_libhandle s = 0 → Forall (resolved t) rdmacm_symbols) ∧
         (b_cm_libhandle s ≠ 0 → t = s) ∧ _load_librdmacm t = (Ok tt, t))
      (λ e t, (e = ImportError ∨ e = RuntimeError) ∧ b_cm_libhandle t = 0 ∧ b_heap t = b_heap s) s).
    unfold _load_librdmacm at 1. step. step. rewrite E0. cbn [negb Z.eqb].
    apply wp_bind, wp_native. intros h w _. step. apply wp_guard; [intros Eh|cbn; auto].
    step. eapply wp_mono; [apply wp_load_syms| |].
    + intros _ t [(_ & _ & _ & Hp) Hall]. apply wp_modify. assert (h ≠ 0) as Hh by lia.
      split_and!; [done|by cbn; rewrite Hp|intros _|done|by apply Hdone].
      eapply Forall_impl; [exact Hall|]. by intros n Hn.
    + intros e t [-> (_ & _ & Hc & Hp)]. cbn in Hc, Hp. rewrite Hc. auto.
Qed.
End Loading.

(** * connect_rc on a queue pair of the binding *)

Section Connecting.
Context {W : Type} `{!Libibverbs W}.
Abbreviation B := (Binding W).
Implicit Types (s : B).

(** The methods that [connect_rc] calls, with their default arguments. *)
#[global] Instance Binding_RcQp : RcQp nat B := {
  qp_active_mtu r port :=
    o ← load (O := QP) r;
    p ← load (O := PD) (qp_pd o);
    a ← query_port (pd_context p) port;
    mret (active_mtu a);
  qp_to_init r port access := to_init r port access 0 0;
  qp_to_rtr r remote sgid mtu drd := to_rtr r remote sgid (Some mtu) 1 12 (default 1 drd) 0 0;
  qp_to_rts r psn a :=
    to_rts r psn (default 14 (rts_timeout a)) (default 7 (rts_retry_cnt a))
      (default 7 (rts_rnr_retry a)) (default 1 (rts_max_rd_atomic a));
}.

Definition c_ints (l : list Z) : Prop := Forall (λ v, - 2 ^ 31 ≤ v < 2 ^ 31) l.

(** One call of ibv_modify_qp, whose error is raised, on a queue pair that is open. *)
Definition modify_once (h : Z) (am : ibv_qp_attr * Z) : M B unit :=
  rc ← native (v_modify_qp h am.1 am.2); check_rc rc.

(** Ranges listed in a hypothesis. *)
#[local] Ltac c_ints := unfold c_ints; repeat (apply Forall_cons; split; [done|]); by apply Forall_nil.

(** The steps of a method whose arguments are C ints and whose object is open. *)
Lemma c_int_bind {A} v (f : Z → M B A) s : - 2 ^ 31 ≤ v < 2 ^ 31 → (c_int v ≫= f) s = f v s.
Proof. intros H. unfold c_int, lift, mbind, M_bind. by rewrite (proj2 (to_int_ok v v)). Qed.

Lemma result_bind_ok {A C} (m : result A) (f : A → result C) a : m = Ok a → m ≫= f = f a.
Proof. by intros ->. Qed.

Lemma lift_bind {A C} (m : result A) (f : A → M B C) s a : m = Ok a → (lift m ≫= f) s = f a s.
Proof. by intros ->. Qed.

Lemma load_qp_bind {A} r q (f : QP → M B A) s :
  b_heap s !! r = Some (OQP q) → (load r ≫= f) s = f q s.
Proof. intros H. unfold load, mbind, M_bind. by rewrite H. Qed.

Lemma qp_ensure_bind {A} q (f : unit → M B A) s : qp_qp q ≠ 0 → (qp_ensure q ≫= f) s = f tt s.
Proof.
  intros H. unfold qp_ensure, ensure, guard_raise, mbind, M_bind. by rewrite (proj2 (Z.eqb_neq _ _) H).
Qed.

Lemma rtr_attr_ok port remote sgid mtu :
  qp_info_valid remote = true → - 2 ^ 31 ≤ mtu < 2 ^ 31 →
  ∃ am, rtr_attr port remote sgid (Some mtu) 1 12 1 0 0 = Ok am ∧
    dest_qp_num am.1 = qi_qp_num remote ∧ rq_psn am.1 = qi_psn remote ∧ path_mtu am.1 = mtu ∧
    grh_dgid (ah_attr am.1) = qi_gid remote ∧ av_dlid (ah_attr am.1) = qi_lid remote ∧
    grh_sgid_index (ah_attr am.1) = u8 sgid ∧ av_port_num (ah_attr am.1) = u8 port.
Proof.
  intros Hv Hm. unfold qp_info_valid in Hv. eexists. split.
  - unfold rtr_attr.
    rewrite (result_bind_ok _ _ mtu) by (by apply to_int_ok).
    rewrite (result_bind_ok _ _ (qi_qp_num remote)) by (apply to_uint_ok; split; [done|lia]).
    rewrite (result_bind_ok _ _ (qi_psn remote)) by (apply to_uint_ok; split; [done|lia]).
    replace (length (qi_gid remote) =? 16)%nat with true by lia.
    rewrite (result_bind_ok _ _ tt) by done.
    rewrite (result_bind_ok _ _ (qi_lid remote)) by (apply to_uint_ok; split; [done|lia]). done.
  - done.
Qed.

(** [to_init], [to_rtr] and [to_rts] of an open RC queue pair are one modification each. *)
Section RcSteps.
Context (r : nat) (q : QP).
Hypothesis Hopen : qp_qp q ≠ 0.
Hypothesis Hty : ∀ w : W, v_qp_type w (qp_qp q) = _QPT_RC.

Lemma to_init_rc port access s :
  b_heap s !! r = Some (OQP q) → c_ints [port; access] →
  to_init r port access 0 0 s =
    modify_once (qp_qp q) (init_attr _QPT_RC port access 0 0)
      (set_heap (<[r := OQP (set_port port q)]> (b_heap s)) s).
Proof using Hopen Hty.
  intros Hr Hc. unfold c_ints in Hc. rewrite !Forall_cons in Hc. destruct Hc as (H1 & H2 & _).
  unfold to_init. rewrite !c_int_bind by lia. rewrite (load_qp_bind _ q), qp_ensure_bind by done.
  unfold update. unfold mbind at 1, M_bind at 1. rewrite (load_qp_bind _ q) by done.
  cbn. unfold mbind at 1, M_bind at 1. cbn. by rewrite Hty.
Qed.

Lemma to_rtr_rc remote sgid mtu am s :
  b_heap s !! r = Some (OQP q) → c_ints [sgid] →
  rtr_attr (qp_port q) remote sgid (Some mtu) 1 12 1 0 0 = Ok am →
  to_rtr r remote sgid (Some mtu) 1 12 1 0 0 s = modify_once (qp_qp q) am s.
Proof using Hopen Hty.
  intros Hr Hc Ha. unfold c_ints in Hc. rewrite !Forall_cons in Hc. destruct Hc as (H1 & _).
  unfold to_rtr. rewrite !c_int_bind by lia. rewrite (load_qp_bind _ q), qp_ensure_bind by done.
  unfold mbind at 1, M_bind at 1. cbn. rewrite Hty. cbn. by rewrite (lift_bind _ _ _ am).
Qed.

Lemma to_rts_rc psn tmo retry rnr rd s :
  b_heap s !! r = Some (OQP q) → c_ints [psn; tmo; retry; rnr; rd] →
  to_rts r psn tmo retry rnr rd s = modify_once (qp_qp q) (rts_attr _QPT_RC psn tmo retry rnr rd) s.
Proof using Hopen Hty.
  intros Hr Hc. unfold c_ints in Hc. rewrite !Forall_cons in Hc.
  destruct Hc as (H1 & H2 & H3 & H4 & H5 & _).
  unfold to_rts. rewrite !c_int_bind by lia. rewrite (load_qp_bind _ q), qp_ensure_bind by done.
  unfold mbind at 1, M_bind at 1. cbn. by rewrite Hty.
Qed.
End RcSteps.

Lemma modify_once_heap h am s a t : modify_once h am s = (Ok a, t) → b_heap t = b_heap s.
Proof.
  unfold modify_once, native, mbind, M_bind. destruct (v_modify_qp _ _ _ _) as [rc w]. cbn.
  unfold check_rc, guard_raise. by case_match; intros [= _ <-].
Qed.

Lemma bind_congr {A C} (m m' : M B A) (f g : A → M B C) s s' :
  m s = m' s' → (∀ a t, m' s' = (Ok a, t) → f a t = g a t) → (m ≫= f) s = (m' ≫= g) s'.
Proof. intros Hm Hf. unfold mbind, M_bind. rewrite Hm. destruct (m' s') as [[a|e] t]; [by apply Hf|done]. Qed.

(** C32: [connect_rc] with an explicit MTU on an open RC queue pair of the binding makes three calls of
    ibv_modify_qp on its native queue pair, to INIT, RTR and RTS, with the attributes of the port, of
    the remote endpoint and of the local sequence number; it stops at the first that fails, raising
    its error, and otherwise returns. *)
Theorem connect_rc_on_binding s r q remote port sgid access psn mtu args :
  b_heap s !! r = Some (OQP q) → qp_qp q ≠ 0 → qp_info_valid remote = true →
  (∀ w, v_qp_type w (qp_qp q) = _QPT_RC) →
  c_ints [port; sgid; access; psn; mtu; default 14 (rts_timeout args); default 7 (rts_retry_cnt args);
          default 7 (rts_rnr_retry args); default 1 (rts_max_rd_atomic args)] →
  ∃ am, rtr_attr port remote sgid (Some mtu) 1 12 1 0 0 = Ok am ∧
    dest_qp_num am.1 = qi_qp_num remote ∧ rq_psn am.1 = qi_psn remote ∧ path_mtu am.1 = mtu ∧
    grh_dgid (ah_attr am.1) = qi_gid remote ∧ av_dlid (ah_attr am.1) = qi_lid remote ∧
    connect_rc r remote port sgid access psn (Some mtu) args s =
      (modify_once (qp_qp q) (init_attr _QPT_RC port access 0 0);;
       modify_once (qp_qp q) am;;
       modify_once (qp_qp q) (rts_attr _QPT_RC psn (default 14 (rts_timeout args))
         (default 7 (rts_retry_cnt args)) (default 7 (rts_rnr_retry args))
         (default 1 (rts_max_rd_atomic args))))
        (set_heap (<[r := OQP (set_port port q)]> (b_heap s)) s).
Proof.
  intros Hr Hz Hv Hty Hc. pose proof Hc as Hi. unfold c_ints in Hi. rewrite !Forall_cons in Hi.
  destruct Hi as (H1 & H2 & H3 & H4 & H5 & H6 & H7 & H8 & H9 & _).
  destruct (rtr_attr_ok port remote sgid mtu Hv H5) as (am & Ham & Ha1 & Ha2 & Ha3 & Ha4 & Ha5 & _).
  exists am. split_and!; [done..|]. unfold connect_rc, negotiate_mtu. unfold mbind at 1, M_bind at 1. cbn.
  apply bind_congr; [apply to_init_rc; [done..|c_ints]|].
  intros ? t Ht. assert (b_heap t !! r = Some (OQP (set_port port q))) as Hrt.
  { rewrite (modify_once_heap _ _ _ _ _ Ht). apply lookup_insert_eq. }
  apply bind_congr.
  { apply (to_rtr_rc r (set_port port q)); [done..|c_ints|done]. }
  intros ? u Hu. apply (to_rts_rc r (set_port port q)); [done..| |c_ints].
  by rewrite (modify_once_heap _ _ _ _ _ Hu).
Qed.
End Connecting.
