(* ===== verification/Cuda.v ===== *)
(** The registration of GPU memory: src/ibverbs/src/ibverbs/cuda.py and its twin
    src/efa/src/efa/cuda.py, over the binding of VerbsObjects.

    [CudaDriver] is libcuda and [os.close]; [CudaLaws] says that an export makes a new
    file descriptor, that [os.close] gives it back, and that nothing else touches the
    table of descriptors or the objects of libibverbs.  [required] are the symbols that
    [_cuda] declares when it loads the library, which differ between the packages. *)

From S2P Require Import Prelude Bytes Json.
From S2P Require Import Helpers.
From S2P Require Import VerbsLib VerbsValues VerbsPost.
From S2P Require Import VerbsObjects VerbsSafety VerbsMethods.
From S2P Require Import VerbsInvariant VerbsAlong VerbsRuns.
#[local] Open Scope Z_scope.

(** * The driver *)

(** [cu_has] tells whether libcuda has a symbol; [os_close] is [false] when it raises. *)
Class CudaDriver (W : Type) := {
  _PAGE : Z;
  cu_dlopen : W → bool * W;
  cu_has : W → string → bool;
  cu_get_handle : Z → Z → W → (Z * Z) * W;
  cu_ctx_synchronize : W → Z * W;
  cu_flush : Z → Z → W → Z * W;
  os_close : Z → W → bool * W;
}.

Definition _FLUSH_TARGET_CURRENT_CTX : Z := 0.
Definition _FLUSH_TO_OWNER : Z := 100.
Definition _FLUSH_TO_ALL_DEVICES : Z := 200.

(** The symbols whose signatures [_cuda] declares. *)
Definition ibverbs_required : list string :=
  ["cuGetErrorString"; "cuMemGetHandleForAddressRange"; "cuCtxSynchronize"]%string.
Definition efa_required : list string :=
  ["cuGetErrorString"; "cuMemGetHandleForAddressRange"]%string.

(** * Tensors *)

(** A tensor-like object: what each attribute that the module looks up gives, if the
    object has it. *)
Record GpuTensor := mk_GpuTensor {
  gt_is_cuda : option bool;
  gt_is_contiguous : option bool;
  gt_c_contiguous : option bool;
  gt_data_ptr : option Z;
  gt_numel : option Z;
  gt_element_size : option Z;
  gt_nbytes : option Z;
}.

Definition gt_require_contiguous (t : GpuTensor) : result unit :=
  raise_if (negb (default true (gt_is_contiguous t))) ValueError;;
  raise_if (negb (default true (gt_c_contiguous t))) ValueError.

Definition tensor_ptr_len (t : GpuTensor) : result (Z * Z) :=
  gt_require_contiguous t;;
  match gt_data_ptr t with
  | None => Raise TypeError
  | Some ptr =>
      match gt_numel t, gt_element_size t, gt_nbytes t with
      | Some n, Some e, _ => Ok (ptr, n * e)
      | _, _, Some n => Ok (ptr, n)
      | _, _, None => Raise TypeError
      end
  end.

(** A registered region, by the reference of its [MR]. *)
Record GpuMR := mk_GpuMR { gm_mr : nat; gm_addr : Z; gm_length : Z; gm_tensor : option GpuTensor }.

(** * The module *)

(** [_lib]: whether libcuda is loaded. *)
Record Cuda (W : Type) := mk_Cuda { cs_b : Binding W; cs_lib : bool }.
Arguments mk_Cuda {W}.
Arguments cs_b {W}.
Arguments cs_lib {W}.

Section Cuda.
Context {W : Type} `{!Libibverbs W} `{!CudaDriver W}.
Abbreviation B := (Binding W).
Abbreviation C := (Cuda W).
Context (required : list string).

(** A computation on the binding. *)
Definition cb {A} (m : M B A) : M C A := λ s,
  let '(r, b) := m (cs_b s) in (r, mk_Cuda b (cs_lib s)).

(** An attribute of the loaded library. *)
Definition cu_attr (name : string) : M C unit :=
  has ← cb (peek (λ w, cu_has w name)); guard_raise (negb has) AttributeError.

(** [_lib] is set before the signatures are declared. *)
Definition _cuda : M C unit :=
  s ← get;
  if cs_lib s then mret tt else
  found ← cb (native cu_dlopen);
  guard_raise (negb found) RuntimeError;;
  modify (λ s, mk_Cuda (cs_b s) true);;
  for_each cu_attr required.

(** The message of an error needs a symbol of its own. *)
Definition _cuda_err : M C unit := _cuda;; cu_attr "cuGetErrorString".
Definition cuda_check (rc : Z) : M C unit :=
  if negb (rc =? 0) then _cuda_err;; raise RuntimeError else mret tt.

Definition dmabuf_fd (ptr length : Z) : M C Z :=
  guard_raise ((ptr <? 0) || negb (ptr mod _PAGE =? 0)) ValueError;;
  guard_raise ((length <=? 0) || negb (length mod _PAGE =? 0)) ValueError;;
  _cuda;;
  cu_attr "cuMemGetHandleForAddressRange";;
  '(rc, fd) ← cb (native (cu_get_handle (u64 ptr) (u64 length)));
  cuda_check rc;;
  mret fd.

Definition flush_gpudirect_writes (all_devices : bool) : M C unit :=
  _cuda;;
  has ← cb (peek (λ w, cu_has w "cuFlushGPUDirectRDMAWrites"));
  guard_raise (negb has) RuntimeError;;
  rc ← cb (native (cu_flush _FLUSH_TARGET_CURRENT_CTX
                     (if all_devices then _FLUSH_TO_ALL_DEVICES else _FLUSH_TO_OWNER)));
  cuda_check rc.

Definition synchronize : M C unit :=
  _cuda;;
  cu_attr "cuCtxSynchronize";;
  rc ← cb (native cu_ctx_synchronize);
  cuda_check rc.

(** The page-aligned range around a tensor: its start, the tensor's offset in it, its
    length. *)
Definition page_range (ptr n : Z) : Z * Z * Z :=
  let base := ptr - ptr mod _PAGE in
  let off := ptr - base in
  (base, off, ((off + n + _PAGE - 1) / _PAGE) * _PAGE).

(** [except (RuntimeError, OSError)] *)
Definition dmabuf_err (e : exn) : bool :=
  is_OSError e || bool_decide (e = RuntimeError) || bool_decide (e = NotImplementedError).

Definition close_fd (fd : Z) : M C unit :=
  ok ← cb (native (os_close fd)); guard_raise (negb ok) OSError.

(** The registration by address, after the dma-buf path raised [e]. *)
Definition fall_back (pd : nat) (ptr n access : Z) (e : exn) : M C nat :=
  if dmabuf_err e
  then try_except (cb (reg_mr pd ptr n access))
         (λ e', if is_Exception e' then raise RuntimeError else raise e')
  else raise e.

Definition register_tensor (pd : nat) (t : GpuTensor) (access : Z) : M C GpuMR :=
  guard_raise (negb (default true (gt_is_cuda t))) ValueError;;
  '(ptr, n) ← lift (tensor_ptr_len t);
  guard_raise (n <=? 0) ValueError;;
  let '((base, off), alen) := page_range ptr n in
  fd ← try_except (fd ← dmabuf_fd base alen; mret (inl fd)) (λ e, mret (inr e));
  mr ← match fd with
       | inr e => fall_back pd ptr n access e
       | inl fd =>
           try_finally
             (try_except (cb (reg_dmabuf_mr pd off n ptr fd access)) (fall_back pd ptr n access))
             (close_fd fd)
       end;
  mret (mk_GpuMR mr ptr n (Some t)).

(** ** The registered region *)

Definition gpu_closed (g : GpuMR) : M C bool := cb (MR_closed (gm_mr g)).
Definition gpu_lkey (g : GpuMR) : M C Z := cb (MR_lkey (gm_mr g)).
Definition gpu_rkey (g : GpuMR) : M C Z := cb (MR_rkey (gm_mr g)).

(** [self] is the reference of [g], which the entry keeps. *)
Definition gpu_sge (self : nat) (g : GpuMR) (length : option Z) (offset : Z) : M C SGE :=
  guard_raise ((offset <? 0) || (gm_length g <? offset)) ValueError;;
  let length := match length with None => gm_length g - offset | Some l => l end in
  guard_raise ((length <? 0) || (gm_length g - offset <? length)) ValueError;;
  lkey ← gpu_lkey g;
  s ← lift (SGE_of_address (gm_addr g) length lkey offset);
  mret (SGE_keepalive self s).

(** [close] and [release_owner] return the changed region. *)
Definition gpu_close (g : GpuMR) : M C GpuMR :=
  cb (MR_close (gm_mr g));;
  mret (mk_GpuMR (gm_mr g) (gm_addr g) (gm_length g) None).
Definition release_owner (g : GpuMR) : GpuMR := mk_GpuMR (gm_mr g) (gm_addr g) (gm_length g) None.
End Cuda.

(** * The module of the EFA package

    Its text is the same but for the symbols it requires and for [synchronize] and
    [release_owner], which it does not have; the registrations of its [PD] are those of
    the verbs binding (EfaObjects). *)
Section EfaCuda.
Context {W : Type} `{!Libibverbs W} `{!CudaDriver W}.
Abbreviation C := (Cuda W).

Definition efa_cuda : M C unit := _cuda efa_required.
Definition efa_cuda_err : M C unit := _cuda_err efa_required.
Definition efa_dmabuf_fd (ptr length : Z) : M C Z := dmabuf_fd efa_required ptr length.
Definition efa_tensor_ptr_len (t : GpuTensor) : result (Z * Z) := tensor_ptr_len t.
Definition efa_flush_gpudirect_writes (all_devices : bool) : M C unit :=
  flush_gpudirect_writes efa_required all_devices.
Definition efa_register_tensor (pd : nat) (t : GpuTensor) (access : Z) : M C GpuMR :=
  register_tensor efa_required pd t access.
Definition efa_gpu_closed (g : GpuMR) : M C bool := gpu_closed g.
Definition efa_gpu_lkey (g : GpuMR) : M C Z := gpu_lkey g.
Definition efa_gpu_rkey (g : GpuMR) : M C Z := gpu_rkey g.
Definition efa_gpu_sge (self : nat) (g : GpuMR) (length : option Z) (offset : Z) : M C SGE :=
  gpu_sge self g length offset.
Definition efa_gpu_close (g : GpuMR) : M C GpuMR := gpu_close g.
End EfaCuda.
