(* ===== verification/CudaTheorems.v ===== *)
(** What the registration of GPU memory promises: a registration makes one memory region
    of the protection domain and leaves no other trace, neither an object nor a file
    descriptor, on every path; the page range covers the tensor; and what happens when
    the export fails. *)

From S2P Require Import Prelude Bytes Json.
From S2P Require Import Helpers.
From S2P Require Import VerbsLib VerbsValues VerbsPost.
From S2P Require Import VerbsObjects VerbsSafety VerbsMethods.
From S2P Require Import VerbsInvariant VerbsAlong VerbsRuns.
From S2P Require Import Cuda.
#[local] Open Scope Z_scope.

(** * What the driver promises *)

(** [open_fds] is the table of descriptors.  An export that succeeds adds one; a
    descriptor is given back even when [os.close] raises; the registrations of the verbs
    library leave the table alone, and the driver leaves the objects of that library. *)
Class CudaLaws (W : Type) `{!Libibverbs W} `{!LibibverbsLaws W} `{!CudaDriver W} := {
  open_fds : W → gset Z;
  page_positive : 0 < _PAGE;
  law_cu_dlopen w :
    intact w → keeps live intact w (cu_dlopen w).2 ∧ open_fds (cu_dlopen w).2 = open_fds w;
  law_cu_get_handle p l w :
    intact w →
    let r := cu_get_handle p l w in
    keeps live intact w r.2 ∧
    if r.1.1 =? 0 then r.1.2 ∉ open_fds w ∧ open_fds r.2 = {[r.1.2]} ∪ open_fds w
    else open_fds r.2 = open_fds w;
  law_cu_synchronize w :
    intact w →
    keeps live intact w (cu_ctx_synchronize w).2 ∧ open_fds (cu_ctx_synchronize w).2 = open_fds w;
  law_cu_flush a b w :
    intact w → keeps live intact w (cu_flush a b w).2 ∧ open_fds (cu_flush a b w).2 = open_fds w;
  law_os_close fd w :
    intact w → fd ∈ open_fds w →
    keeps live intact w (os_close fd w).2 ∧ open_fds (os_close fd w).2 = open_fds w ∖ {[fd]};
  law_reg_mr_fds h a l i f w : open_fds (v_reg_mr_iova2 h a l i f w).2 = open_fds w;
  law_reg_dmabuf_fds h o l i fd f w : open_fds (v_reg_dmabuf_mr h o l i fd f w).2 = open_fds w;
}.

Section Theorems.
Context {W : Type} `{!Libibverbs W} `{!LibibverbsLaws W} `{!CudaDriver W} `{!CudaLaws W}.
Abbreviation B := (Binding W).
Abbreviation C := (Cuda W).
Context (required : list string).
Implicit Types (s : C) (pd : nat).

(** The descriptors of a state, and what a call leaves as it was. *)
Definition fds s : gset Z := open_fds (b_world (cs_b s)).
Definition heap s : gmap nat PyObj := b_heap (cs_b s).

(** The objects and the library are as in [s], and the descriptors are [F]. *)
Record kept s (F : gset Z) (u : C) : Prop := {
  kept_inv : Inv (cs_b u);
  kept_heap : heap u = heap s;
  kept_fds : fds u = F;
}.

Lemma kept_refl s : Inv (cs_b s) → kept s (fds s) s.
Proof. done. Qed.
Lemma kept_trans s u v F : kept s (fds u) u → kept u F v → kept s F v.
Proof. intros [] []. constructor; [done|congruence|done]. Qed.

(** * The steps *)

Lemma wp_cb {A} (m : M B A) (Q : A → C → Prop) E s :
  wp m (λ a b, Q a (mk_Cuda b (cs_lib s))) (λ e b, E e (mk_Cuda b (cs_lib s))) (cs_b s) →
  wp (cb m) Q E s.
Proof. unfold wp, cb. by destruct (m (cs_b s)) as [[a|e] b]. Qed.

(** A call to the driver. *)
Lemma wp_driver {A} (f : W → A * W) (Q : A → C → Prop) E s :
  Inv (cs_b s) → keeps live intact (b_world (cs_b s)) (f (b_world (cs_b s))).2 →
  (∀ a u, f (b_world (cs_b s)) = (a, b_world (cs_b u)) →
     kept s (open_fds (f (b_world (cs_b s))).2) u → Q a u) →
  wp (cb (native f)) Q E s.
Proof.
  intros I Hk HQ. apply wp_cb, wp_native. intros a w Hf. rewrite Hf in Hk, HQ. apply HQ; [done|].
  constructor; [by apply Inv_keeps|done|done].
Qed.

(** A call that leaves the objects and the descriptors alone. *)
Definition idle {A} (m : M C A) : Prop :=
  ∀ s, Inv (cs_b s) → wp m (λ _, kept s (fds s)) (λ _, kept s (fds s)) s.

Lemma idle_ret {A} (a : A) : idle (mret a).
Proof. intros s I. by apply wp_ret. Qed.
Lemma idle_raise {A} e : idle (raise (A := A) e).
Proof. intros s I. by apply wp_raise. Qed.
Lemma idle_guard b e : idle (guard_raise b e).
Proof. destruct b; [apply idle_raise|apply idle_ret]. Qed.
Lemma idle_bind {A A'} (m : M C A) (f : A → M C A') :
  idle m → (∀ a, idle (f a)) → idle (m ≫= f).
Proof.
  intros Hm Hf s I. apply wp_bind. eapply wp_mono; [by apply Hm| |done].
  intros a u K. eapply wp_mono; [apply Hf, K|..]; cbn; intros ? v Kv;
    (eapply (kept_trans _ u); [by rewrite (kept_fds _ _ _ K)|]);
    by rewrite <-(kept_fds _ _ _ K).
Qed.
Lemma idle_for_each {A} (f : A → M C unit) l : (∀ x, idle (f x)) → idle (for_each f l).
Proof. intros Hf. induction l; [apply idle_ret|]. by apply idle_bind. Qed.
Lemma idle_peek {A} (f : W → A) : idle (cb (peek f)).
Proof. intros s I. by apply wp_cb, wp_peek. Qed.
Lemma idle_driver {A} (f : W → A * W) :
  (∀ w, intact w → keeps live intact w (f w).2 ∧ open_fds (f w).2 = open_fds w) →
  idle (cb (native f)).
Proof.
  intros Hf s I. destruct (Hf _ (inv_intact _ I)) as [Hk He].
  apply wp_driver; [done|done|]. intros a u _. by rewrite He.
Qed.

Lemma cu_attr_idle name : idle (cu_attr name).
Proof. apply idle_bind; [apply idle_peek|]. intros b. apply idle_guard. Qed.

Lemma _cuda_idle : idle (_cuda required).
Proof.
  intros s I. unfold _cuda. apply wp_bind, wp_get. destruct (cs_lib s); [by apply wp_ret|].
  revert s I. apply idle_bind; [by apply idle_driver, law_cu_dlopen|]. intros found.
  apply idle_bind; [apply idle_guard|]. intros _. apply idle_bind; [by intros s I|]. intros _.
  apply idle_for_each, cu_attr_idle.
Qed.

Lemma cuda_check_idle rc : idle (cuda_check required rc).
Proof.
  unfold cuda_check. destruct (negb _); [|apply idle_ret]. apply idle_bind; [|intros; apply idle_raise].
  apply idle_bind; [apply _cuda_idle|]. intros _. apply cu_attr_idle.
Qed.

Lemma flush_idle all : idle (flush_gpudirect_writes required all).
Proof.
  apply idle_bind; [apply _cuda_idle|]. intros _. apply idle_bind; [apply idle_peek|]. intros has.
  apply idle_bind; [apply idle_guard|]. intros _.
  apply idle_bind; [by apply idle_driver, law_cu_flush|]. apply cuda_check_idle.
Qed.

Lemma synchronize_idle : idle (synchronize required).
Proof.
  apply idle_bind; [apply _cuda_idle|]. intros _. apply idle_bind; [apply cu_attr_idle|]. intros _.
  apply idle_bind; [by apply idle_driver, law_cu_synchronize|]. apply cuda_check_idle.
Qed.

(** An export adds its descriptor, or changes nothing. *)
Lemma dmabuf_fd_spec p l s :
  Inv (cs_b s) →
  wp (dmabuf_fd required p l) (λ fd u, fd ∉ fds s ∧ kept s ({[fd]} ∪ fds s) u)
    (λ _, kept s (fds s)) s.
Proof.
  intros I. unfold dmabuf_fd.
  assert (Hstep : ∀ A (m : M C unit) (g : unit → M C A) (Q : A → C → Prop), idle m →
    (∀ u, kept s (fds s) u → wp (g tt) Q (λ _, kept s (fds s)) u) →
    ∀ u, kept s (fds s) u → wp (m ≫= g) Q (λ _, kept s (fds s)) u).
  { intros A m g Q Hm Hg u K. apply wp_bind. pose proof (kept_fds _ _ _ K) as HF.
    eapply wp_mono; [by apply Hm, K|..]; cbn; rewrite HF.
    - intros [] v Kv. apply Hg. eapply kept_trans; [|exact Kv]. by rewrite HF.
    - intros e v Kv. eapply kept_trans; [|exact Kv]. by rewrite HF. }
  apply Hstep; [apply idle_guard| |by apply kept_refl].
  apply Hstep; [apply idle_guard|]. apply Hstep; [apply _cuda_idle|]. apply Hstep; [apply cu_attr_idle|].
  intros u K. pose proof (kept_fds _ _ _ K) as HF.
  destruct (law_cu_get_handle (u64 p) (u64 l) _ (inv_intact _ (kept_inv _ _ _ K))) as [Hk Hf].
  apply wp_bind, wp_driver; [apply K|exact Hk|]. intros [rc fd] v Hc. rewrite Hc in Hf |- *. cbn in Hf |- *.
  fold (fds u) in Hf. rewrite HF in Hf. unfold cuda_check. intros Kv.
  assert (K' : kept s (open_fds (b_world (cs_b v))) v).
  { eapply kept_trans; [|exact Kv]. by rewrite HF. }
  apply wp_bind. destruct (rc =? 0) eqn:Erc; cbn.
  - destruct Hf as [Hnew Hf]. by rewrite Hf in K'.
  - rewrite Hf in K'. apply wp_bind.
    eapply wp_mono; [apply (idle_bind _ _ _cuda_idle (λ _, cu_attr_idle _)), K'|..]; cbn;
      rewrite (kept_fds _ _ _ K'); intros ? x Kx; try apply wp_raise;
      (eapply kept_trans; [|exact Kx]); by rewrite (kept_fds _ _ _ K').
Qed.

(** * Registration *)

(** The region [r] of [pd] is the only new object of [u]. *)
Record made pd s (F : gset Z) (r : nat) (u : C) : Prop := {
  made_inv : Inv (cs_b u);
  made_fds : fds u = F;
  made_new : heap s !! r = None;
  made_heap : ∃ h, h ≠ 0 ∧ heap u = <[r := OMR (mk_MR h pd None)]> (heap s);
}.

(** A registration of the binding makes a region, or nothing. *)
Lemma make_region (f : W → Z * W) pd o s :
  Inv (cs_b s) → heap s !! pd = Some (OPD o) → pd_pd o ≠ 0 →
  creates live intact KMR [pd_pd o] (b_world (cs_b s)) (f (b_world (cs_b s))) →
  open_fds (f (b_world (cs_b s))).2 = fds s →
  wp (mr ← native f; check_null mr;; MR_wrap mr pd)
    (λ r b, made pd s (fds s) r (mk_Cuda b (cs_lib s)))
    (λ _ b, kept s (fds s) (mk_Cuda b (cs_lib s))) (cs_b s).
Proof.
  intros I Hpd Ho Hc Hf.
  eapply wp_mono; [apply wp_conj; [exact (make_leaf (λ h, mk_MR h pd None) f KMR pd (OPD o) (cs_b s)
    I Hpd Ho Hc (λ _, eq_refl) (λ _, eq_refl) eq_refl ltac:(done) ltac:(done) (λ _, eq_refl)
    (λ _ _, eq_refl))|]|..].
  - apply wp_bind, wp_native. intros h w Hw. rewrite Hw in Hf. apply wp_bind, wp_check_null.
    + intros Hh. apply wp_new. instantiate (1 := λ r b, heap s !! r = None ∧
        open_fds (b_world b) = fds s ∧
        ∃ h, h ≠ 0 ∧ b_heap b = <[r := OMR (mk_MR h pd None)]> (heap s)).
      split_and!; [apply fresh_ref_new|exact Hf|]. by exists h.
    + intros _ e. by instantiate (1 := λ _ b, b_heap b = heap s ∧ open_fds (b_world b) = fds s).
  - intros r b [Ib (Hr & HF & Hh)]. by constructor.
  - intros e b [Ib (Hh & HF)]. by constructor.
Qed.

Lemma reg_mr_made pd a l acc s :
  Inv (cs_b s) → wp (cb (reg_mr pd a l acc)) (made pd s (fds s)) (λ _, kept s (fds s)) s.
Proof.
  intros I. assert (K : kept s (fds s) (mk_Cuda (cs_b s) (cs_lib s))) by done.
  apply wp_cb. unfold reg_mr. steps. eapply make_region; [done..| |apply law_reg_mr_fds].
  apply law_reg_mr; eauto with verbs.
Qed.

Lemma reg_dmabuf_made pd off l iova fd acc s :
  Inv (cs_b s) →
  wp (cb (reg_dmabuf_mr pd off l iova fd acc)) (made pd s (fds s)) (λ _, kept s (fds s)) s.
Proof.
  intros I. assert (K : kept s (fds s) (mk_Cuda (cs_b s) (cs_lib s))) by done.
  apply wp_cb. unfold reg_dmabuf_mr. steps. eapply make_region; [done..| |apply law_reg_dmabuf_fds].
  apply law_reg_dmabuf_mr; eauto with verbs.
Qed.

Lemma made_after pd s u F r v : kept s F u → made pd u F r v → made pd s F r v.
Proof. intros K [I HF Hr Hh]. rewrite (kept_heap _ _ _ K) in Hr, Hh. by constructor. Qed.

(** A step from a state that differs from [s] by its descriptors. *)
Lemma wp_made {A} (m : M C A) pd s F u (Q : A → nat) :
  kept s F u → wp m (λ a, made pd u (fds u) (Q a)) (λ _, kept u (fds u)) u →
  wp m (λ a, made pd s F (Q a)) (λ _, kept s F) u.
Proof.
  intros K Hm. pose proof (kept_fds _ _ _ K) as HF. rewrite HF in Hm.
  eapply wp_mono; [exact Hm|..]; cbn.
  - intros a v Hv. by eapply made_after.
  - intros e v Hv. eapply kept_trans; [by rewrite HF|exact Hv].
Qed.

Lemma fall_back_made pd ptr n acc e s F u :
  kept s F u → wp (fall_back pd ptr n acc e) (made pd s F) (λ _, kept s F) u.
Proof.
  intros K. apply (wp_made _ pd s F u id K). unfold fall_back.
  destruct (dmabuf_err e); [|apply wp_raise, kept_refl, K]. apply wp_try_except.
  eapply wp_mono; [apply reg_mr_made, K|done|]. intros e' v Kv. by destruct (is_Exception e').
Qed.

(** Closing the descriptor of the export. *)
Lemma wp_close_fd fd s (Q E : C → Prop) u F :
  Inv (cs_b u) → fds u = {[fd]} ∪ F → fd ∉ F →
  (∀ v, Inv (cs_b v) → heap v = heap u → fds v = F → Q v) →
  (∀ v, Inv (cs_b v) → heap v = heap u → fds v = F → E v) →
  wp (close_fd fd) (λ _, Q) (λ e v, e = OSError ∧ E v) u.
Proof.
  intros I HF Hn HQ HE.
  destruct (law_os_close fd (b_world (cs_b u)) (inv_intact _ I)) as [Hk Hf].
  { fold (fds u). rewrite HF. set_solver. }
  apply wp_bind, wp_driver; [done|done|]. intros ok v _ [Iv Hh Hv]. rewrite Hf in Hv.
  fold (fds u) in Hv. rewrite HF in Hv. replace (({[fd]} ∪ F) ∖ {[fd]}) with F in Hv by set_solver.
  destruct ok; cbn; [by apply HQ|]. split; [done|by apply HE].
Qed.

(** The registration with an exported descriptor. *)
Lemma register_export pd off n ptr fd acc s u :
  fd ∉ fds s → kept s ({[fd]} ∪ fds s) u →
  wp (try_finally
        (try_except (cb (reg_dmabuf_mr pd off n ptr fd acc)) (fall_back pd ptr n acc))
        (close_fd fd))
    (made pd s (fds s))
    (λ e v, kept s (fds s) v ∨ e = OSError ∧ ∃ r, made pd s (fds s) r v) u.
Proof.
  intros Hfd K. apply wp_try_finally.
  eapply (wp_mono _ (made pd s ({[fd]} ∪ fds s)) _ (λ _, kept s ({[fd]} ∪ fds s))).
  - apply wp_try_except. eapply wp_mono; [apply (wp_made _ pd s _ u id K), reg_dmabuf_made, K|done|].
    intros e v Kv. by apply fall_back_made.
  - intros r v [I HF Hr Hh]. eapply wp_mono; [apply (wp_close_fd fd s
      (made pd s (fds s) r) (made pd s (fds s) r) v (fds s) I HF Hfd)|done|].
    1, 2: intros x Ix Hx HFx; constructor; [done|done|done|by rewrite Hx].
    intros e x [-> Hx]. right. split; [done|]. by exists r.
  - intros e v [I Hh HF]. eapply wp_mono; [apply (wp_close_fd fd s
      (kept s (fds s)) (kept s (fds s)) v (fds s) I HF Hfd)|..].
    1, 2: intros x Ix Hx HFx; constructor; [done|by rewrite Hx|done].
    + intros ? x Kx. by left.
    + intros e' x [_ Kx]. by left.
Qed.


(** * The page range *)

(** A range that [dmabuf_fd] accepts. *)
Definition page_aligned (base len : Z) : Prop :=
  0 ≤ base ∧ base mod _PAGE = 0 ∧ 0 < len ∧ len mod _PAGE = 0.

Lemma page_range_eq ptr n :
  0 ≤ ptr →
  ∃ q k, page_range ptr n = (q * _PAGE, ptr mod _PAGE, k * _PAGE) ∧
    0 ≤ q ∧ ptr = q * _PAGE + ptr mod _PAGE ∧ 0 ≤ ptr mod _PAGE < _PAGE ∧
    ptr mod _PAGE + n ≤ k * _PAGE < ptr mod _PAGE + n + _PAGE.
Proof.
  intros Hp. pose proof page_positive as HP. assert (H0 : _PAGE ≠ 0) by lia.
  pose proof (Z.mod_pos_bound ptr _PAGE HP) as Hm. pose proof (Z.div_mod ptr _PAGE H0) as Hd.
  pose proof (Z.div_pos ptr _PAGE Hp HP) as Hq. unfold page_range.
  replace (ptr - (ptr - ptr mod _PAGE)) with (ptr mod _PAGE) by lia.
  set (m := ptr mod _PAGE + n + _PAGE - 1).
  pose proof (Z.div_mod m _PAGE H0) as Hk. pose proof (Z.mod_pos_bound m _PAGE HP) as Hr.
  exists (ptr / _PAGE), (m / _PAGE). split_and!; [|lia..]. repeat f_equal. lia.
Qed.

Lemma page_range_valid ptr n :
  0 ≤ ptr → 0 < n → let '((base, off), alen) := page_range ptr n in page_aligned base alen.
Proof.
  intros Hp Hn. pose proof page_positive as HP.
  destruct (page_range_eq ptr n Hp) as (q & k & -> & Hq & Hptr & Ho & Hk).
  split_and!; [lia|apply Z.mod_mul; lia|lia|apply Z.mod_mul; lia].
Qed.

(** The exported range is the smallest one of whole pages around the tensor, the tensor
    lies in it at the offset given to the registration, and [dmabuf_fd] accepts it. *)
Theorem page_range_smallest ptr n :
  0 ≤ ptr → 0 < n →
  let '((base, off), alen) := page_range ptr n in
  page_aligned base alen ∧
  (base + off = ptr ∧ 0 ≤ off < _PAGE ∧ off + n ≤ alen < off + n + _PAGE) ∧
  ∀ b l, page_aligned b l → b ≤ ptr → ptr + n ≤ b + l → b ≤ base ∧ base + alen ≤ b + l.
Proof.
  intros Hp Hn. pose proof page_positive as HP. pose proof (page_range_valid ptr n Hp Hn) as Hv.
  destruct (page_range_eq ptr n Hp) as (q & k & Hr & Hq & Hptr & Ho & Hk). rewrite Hr in Hv |- *.
  split_and!; [apply Hv..|lia|lia|lia|lia|lia|].
  intros b l (_ & Hb & _ & Hl) H1 H2. apply Z.mod_divide in Hb as [i ->]; [|lia].
  apply Z.mod_divide in Hl as [j ->]; [|lia]. split.
  - assert (i ≤ q); nia.
  - assert (q + k ≤ i + j); nia.
Qed.

(** * When the export fails *)

(** A tensor that [register_tensor] takes, with its address and length. *)
Definition registrable t ptr n : Prop :=
  default true (gt_is_cuda t) = true ∧ tensor_ptr_len t = Ok (ptr, n) ∧ 0 ≤ ptr ∧ 0 < n.

Lemma register_unfold pd t acc ptr n base off alen s :
  registrable t ptr n → page_range ptr n = (base, off, alen) →
  register_tensor required pd t acc s =
    match dmabuf_fd required base alen s with
    | (Raise e, u) => (r ← fall_back pd ptr n acc e; mret (mk_GpuMR r ptr n (Some t))) u
    | (Ok fd, u) =>
        (r ← try_finally
               (try_except (cb (reg_dmabuf_mr pd off n ptr fd acc)) (fall_back pd ptr n acc))
               (close_fd fd);
         mret (mk_GpuMR r ptr n (Some t))) u
    end.
Proof.
  intros (Hc & Ht & Hp & Hn) Hr. unfold register_tensor, mbind, M_bind. rewrite Hc, Ht.
  cbn [negb guard_raise lift mret M_ret]. rewrite Hr, (proj2 (Z.leb_gt _ _) Hn).
  cbn [guard_raise mret M_ret]. unfold try_except at 1.
  by destruct (dmabuf_fd required base alen s) as [[fd|e] u].
Qed.

(** When the export raises RuntimeError or OSError, the registration is that by address. *)
Theorem export_falls_back pd t acc ptr n base off alen e s u :
  registrable t ptr n → page_range ptr n = (base, off, alen) →
  dmabuf_fd required base alen s = (Raise e, u) → dmabuf_err e = true →
  register_tensor required pd t acc s =
    match reg_mr pd ptr n acc (cs_b u) with
    | (Ok r, b) => (Ok (mk_GpuMR r ptr n (Some t)), mk_Cuda b (cs_lib u))
    | (Raise e', b) => (Raise (if is_Exception e' then RuntimeError else e'), mk_Cuda b (cs_lib u))
    end.
Proof.
  intros Ht Hr Hd He. rewrite (register_unfold pd t acc ptr n base off alen s Ht Hr), Hd.
  unfold fall_back. rewrite He. unfold mbind, M_bind, try_except, cb. cbn.
  destruct (reg_mr pd ptr n acc (cs_b u)) as [[r|e'] b]; [done|]. by destruct (is_Exception e').
Qed.

Lemma required_missing s name :
  (∀ w, cu_has w name = false) → name ∈ required →
  wp (for_each cu_attr required) (λ _ _, False) (λ e u, e = AttributeError ∧ heap u = heap s) s.
Proof.
  intros Hno. induction required as [|x l IH]; intros Hin; [by apply not_elem_of_nil in Hin|].
  cbn. apply wp_bind. unfold cu_attr at 1. apply wp_bind, wp_cb, wp_peek.
  destruct (cu_has _ x) eqn:Hx; cbn; [|done].
  apply elem_of_cons in Hin as [->|Hin]; [congruence|]. destruct s. by apply IH.
Qed.

Lemma old_driver_export base alen s :
  (∀ w, cu_has w "cuMemGetHandleForAddressRange" = false) →
  cs_lib s = true ∨
    (cu_dlopen (b_world (cs_b s))).1 = true ∧ "cuMemGetHandleForAddressRange"%string ∈ required →
  page_aligned base alen →
  wp (dmabuf_fd required base alen) (λ _ _, False) (λ e u, e = AttributeError ∧ heap u = heap s) s.
Proof.
  intros Hno Hlib (Hb & Hbm & Ha & Ham). unfold dmabuf_fd. apply wp_bind, wp_guard_raise.
  rewrite (proj2 (Z.ltb_ge _ _) Hb), Hbm. cbn [negb orb Z.eqb]. apply wp_bind, wp_guard_raise.
  rewrite (proj2 (Z.leb_gt _ _) Ha), Ham. cbn [negb orb Z.eqb]. apply wp_bind. unfold _cuda.
  apply wp_bind, wp_get. destruct (cs_lib s) eqn:El.
  - apply wp_ret, wp_bind. unfold cu_attr. apply wp_bind, wp_cb, wp_peek. by rewrite Hno.
  - destruct Hlib as [|[Hf Hin]]; [done|]. apply wp_bind, wp_cb, wp_native. intros found w Hw.
    rewrite Hw in Hf. cbn in Hf. subst found. apply wp_bind, wp_guard_raise. cbn [negb].
    apply wp_bind, wp_modify. eapply wp_mono; [by eapply required_missing|done|].
    by intros e u [-> ?].
Qed.

(** With a driver that lacks the export (before CUDA 11.7), the exception is an
    AttributeError, which [register_tensor] does not catch: the registration by address
    is not tried. *)
Theorem old_driver_no_fallback pd t acc ptr n s :
  registrable t ptr n →
  (∀ w, cu_has w "cuMemGetHandleForAddressRange" = false) →
  cs_lib s = true ∨
    (cu_dlopen (b_world (cs_b s))).1 = true ∧ "cuMemGetHandleForAddressRange"%string ∈ required →
  wp (register_tensor required pd t acc) (λ _ _, False)
    (λ e u, e = AttributeError ∧ heap u = heap s) s.
Proof.
  intros Ht Hno Hlib. pose proof Ht as (_ & _ & Hp & Hn).
  pose proof (page_range_valid ptr n Hp Hn) as Hr. unfold wp.
  destruct (page_range ptr n) as [[base off] alen] eqn:Epr.
  rewrite (register_unfold pd t acc ptr n base off alen s Ht Epr).
  pose proof (old_driver_export base alen s Hno Hlib Hr) as Hd. unfold wp in Hd.
  by destruct (dmabuf_fd required base alen s) as [[fd|e] u]; [|destruct Hd as [-> ?]].
Qed.

(** * The registered region *)

(** An entry lies in the region, carries its key, and keeps the region object. *)
Theorem gpu_sge_inside self g length offset s :
  wp (gpu_sge self g length offset)
    (λ e u, u = s ∧ gm_addr g ≤ sge_addr e ∧ sge_addr e = gm_addr g + offset ∧
       0 ≤ sge_length e < 2 ^ 32 ∧ sge_length e = default (gm_length g - offset) length ∧
       sge_addr e + sge_length e ≤ gm_addr g + gm_length g ∧ sge_owner e = Some self ∧
       ∃ o, heap s !! gm_mr g = Some (OMR o) ∧ mr_mr o ≠ 0 ∧
         sge_lkey e = v_mr_lkey (b_world (cs_b s)) (mr_mr o))
    (λ _ u, u = s) s.
Proof.
  unfold gpu_sge. apply wp_bind, wp_guard_raise. destruct ((offset <? 0) || _) eqn:E1; [done|].
  replace (match length with None => _ | Some l => l end)
    with (default (gm_length g - offset) length) by by destruct length.
  set (l := default _ _). apply wp_bind, wp_guard_raise. destruct ((l <? 0) || _) eqn:E2; [done|].
  apply wp_bind, wp_cb. unfold MR_lkey, mr_field. destruct s as [b lib]. cbn [cs_b cs_lib].
  apply wp_bind, wp_load; [intros o Ho|done]. apply wp_bind, wp_ensure; [intros Hh|done].
  apply wp_peek, wp_bind, wp_lift. unfold SGE_of_address, SGE_check, raise_if.
  repeat match goal with
    | |- context [if ?c then Raise _ else Ok _] =>
        destruct c eqn:?; [done|]; cbn [mbind result_bind]
    end.
  apply wp_ret. cbn. change (2 ^ 32) with 4294967296. split_and!; try done; try lia. by exists o.
Qed.

(** Closing keeps the invariant of the binding, and the descriptors. *)
Lemma gpu_close_safe g s : Inv (cs_b s) → wp (gpu_close g) (λ _ u, Inv (cs_b u)) (λ _ u, Inv (cs_b u)) s.
Proof. intros I. apply wp_bind, wp_cb. eapply wp_mono; [by apply MR_close_safe|done|done]. Qed.
End Theorems.
