(* ===== verification/VerbsModel.v ===== *)
(** A library for the verbs binding to run on: it hands out increasing addresses, keeps
    the objects alive in a map, and notes when a call names a dead object or breaks
    another rule of the manual pages.  It satisfies the laws of VerbsLib, so that they
    can hold, and runs the examples of VerbsExamples. *)

From S2P Require Import Prelude Bytes Json.
From S2P Require Import VerbsLib.
#[local] Open Scope Z_scope.

(** The objects, the next address, and whether every call was a legal one. *)
Record Lib := mk_Lib { objs : gmap Z NObj; next : Z; fine : bool }.

Definition set_objs (m : gmap Z NObj) (w : Lib) : Lib := mk_Lib m (next w) (fine w).
Definition break (w : Lib) : Lib := mk_Lib (objs w) (next w) false.

Definition aliveb (m : gmap Z NObj) (P : NKind → bool) (h : Z) : bool :=
  match m !! h with Some n => P (n_kind n) | None => false end.
Definition usedb (m : gmap Z NObj) (h : Z) : bool :=
  existsb (λ p, bool_decide (h ∈ n_deps p.2)) (map_to_list m).

(** A call with a precondition. *)
Definition legal (b : bool) (w : Lib) : Lib := if b then w else break w.
Definition touch (P : NKind → bool) (h : Z) (w : Lib) : Lib := legal (aliveb (objs w) P h) w.

Definition room (k : Z) (w : Lib) : bool := Z.of_nat (size (objs w)) + k <? 2 ^ 32.
Definition create (b : bool) (k : NKind) (deps : list Z) (w : Lib) : Z * Lib :=
  if b && room 1 w
  then (next w, mk_Lib (<[next w := mkN k deps]> (objs w)) (next w + 1) (fine w))
  else (0, legal b w).
Definition destroy (b : bool) (h : Z) (w : Lib) : Z * Lib :=
  if b then if usedb (objs w) h then (16, w) else (0, set_objs (delete h (objs w)) w)
  else (0, break w).

Definition find_obj (P : Z → NObj → bool) (m : gmap Z NObj) : option (Z * NObj) :=
  find (λ p, P p.1 p.2) (map_to_list m).

Definition l_close_device (h : Z) (w : Lib) : Z * Lib :=
  if aliveb (objs w) (only KContext) h && negb (usedb (objs w) h)
  then (0, set_objs (delete h (objs w)) w) else (0, break w).

Definition cq_alive (m : gmap Z NObj) (ev : Z) (h : Z) : bool :=
  match m !! h with Some (mkN (KCQ _ e) _) => e =? ev | _ => false end.

Definition l_get_cq_event (c : Z) (w : Lib) : (Z * nat) * Lib :=
  let ready h n := match n_kind n with KCQ _ ev => bool_decide (c ∈ n_deps n) && (ev <? 2 ^ 31 - 1) | _ => false end in
  match find_obj ready (objs w) with
  | Some (h, mkN (KCQ u ev) d) => ((0, u), set_objs (<[h := mkN (KCQ u (ev + 1)) d]> (objs w)) w)
  | _ => ((-1, 0%nat), w)
  end.

Definition l_ack_cq_events (h n : Z) (w : Lib) : Lib :=
  match objs w !! h with
  | Some (mkN (KCQ u ev) d) =>
      if (0 <=? n) && (n <=? ev) then set_objs (<[h := mkN (KCQ u (ev - n)) d]> (objs w)) w else break w
  | _ => break w
  end.

Definition qp_legal (pd : Z) (a : ibv_qp_init_attr) (w : Lib) : bool :=
  aliveb (objs w) (only KPD) pd && aliveb (objs w) is_cq (ia_send_cq a) &&
  aliveb (objs w) is_cq (ia_recv_cq a) && ((ia_srq a =? 0) || aliveb (objs w) (only KSRQ) (ia_srq a)).

Definition ah_legal (w : Lib) (r : ibv_send_wr) : bool :=
  match swr_wr r with WrUd ah _ _ => aliveb (objs w) (only KAH) ah | _ => true end.

Definition l_cm_id_verbs (w : Lib) (id : Z) : Z :=
  match objs w !! id with Some (mkN KCmId (v :: _)) => v | _ => 0 end.
Definition l_cm_id_qp (w : Lib) (id : Z) : Z :=
  match find_obj (λ _ n, bool_decide (n_kind n = KQP id)) (objs w) with Some (h, _) => h | None => 0 end.

Definition l_getaddrinfo (hints : rdma_hints) (w : Lib) : (Z * Z) * Lib :=
  if (ai_src_addr hints =? 0) || aliveb (objs w) (only KAddrInfo) (ai_src_addr hints) then
    if room 1 w then let '(p, w') := create true KAddrInfo [] w in ((0, p), w') else ((-1, 0), w)
  else ((-1, 0), break w).

Definition l_create_ep (p : Z) (w : Lib) : (Z * Z) * Lib :=
  if aliveb (objs w) (only KAddrInfo) p then
    if room 2 w then
      ((0, next w),
       mk_Lib (<[next w := mkN KCmId [next w + 1]]> (<[next w + 1 := mkN KCmContext []]> (objs w)))
         (next w + 2) (fine w))
    else ((-1, 0), w)
  else ((-1, 0), break w).

Definition other_ep (m : gmap Z NObj) (v : Z) : bool :=
  existsb (λ p, bool_decide (n_kind p.2 = KCmId) && bool_decide (v ∈ n_deps p.2)) (map_to_list m).

(** The device of an endpoint closes with the last endpoint on it. *)
Definition l_destroy_ep (id : Z) (w : Lib) : Lib :=
  let m := delete id (objs w) in
  match objs w !! id with
  | Some (mkN KCmId d) =>
      let last := filter (λ v, other_ep m v = false ∧ aliveb m (only KCmContext) v = true) d in
      if usedb (objs w) id || existsb (usedb m) last then break w
      else set_objs (foldr delete m last) w
  | _ => break w
  end.

Definition l_cm_create_qp (id pd : Z) (a : ibv_qp_init_attr) (w : Lib) : Z * Lib :=
  if aliveb (objs w) (only KCmId) id && (l_cm_id_qp w id =? 0) && qp_legal pd a w then
    if room 1 w then (0, (create true (KQP id) (qp_deps pd a id) w).2) else (-1, w)
  else (-1, break w).
Definition l_cm_destroy_qp (id : Z) (w : Lib) : Lib :=
  if aliveb (objs w) (only KCmId) id && negb (l_cm_id_qp w id =? 0)
  then set_objs (delete (l_cm_id_qp w id) (objs w)) w else break w.

Definition no_attr : DeviceAttr := mk_DeviceAttr [] 0 0 0 0 0 0 0 0 0 0 0 0 0 0 0 0 0 0 0 0.
Definition no_port : PortAttr := mk_PortAttr 0 0 0 0 0 0 0 0 0 0 0 0 0.
Definition mapped_qp : mlx5_qp_info := mk_mlx5_qp_info 4096 64 64 8192 64 16 12288 12292 16384 4096.
Definition mapped_cq : mlx5_cq_info := mk_mlx5_cq_info 20480 24576 64 64 5.

#[global] Instance Lib_verbs : Libibverbs Lib := {
  c_errno _ := 0;
  dl_open _ w := (1, w);
  dl_sym _ _ _ := 1;
  v_get_device_list w := (Some [mk_ibv_device 1 [109] 7], w);
  v_free_device_list w := w;
  v_open_device _ w := create true KContext [] w;
  v_close_device := l_close_device;
  v_device_name _ _ := [109];
  v_num_comp_vectors _ _ := 1;
  v_async_fd _ _ := 3;
  v_query_device h w := ((0, no_attr), touch is_context h w);
  v_query_port h _ w := ((0, no_port), touch is_context h w);
  v_query_gid h _ _ w := ((0, replicate 16 0), touch is_context h w);
  v_get_async_event h w := ((0, 5), touch is_context h w);
  v_ack_async_event _ w := w;
  v_alloc_pd h w := create (aliveb (objs w) is_context h) KPD [h] w;
  v_dealloc_pd h w := destroy (aliveb (objs w) (only KPD) h) h w;
  v_reg_mr_iova2 h _ _ _ _ w := create (aliveb (objs w) (only KPD) h) KMR [h] w;
  v_reg_dmabuf_mr h _ _ _ _ _ w := create (aliveb (objs w) (only KPD) h) KMR [h] w;
  v_dereg_mr h w := destroy (aliveb (objs w) (only KMR) h) h w;
  v_mr_addr _ h := 4096 * h;
  v_mr_length _ _ := 4096;
  v_mr_lkey _ h := h;
  v_mr_rkey _ h := h;
  v_mr_handle _ h := h;
  v_create_comp_channel h w := create (aliveb (objs w) is_context h) KChannel [h] w;
  v_destroy_comp_channel h w := destroy (aliveb (objs w) (only KChannel) h) h w;
  v_chan_fd _ _ := 4;
  v_create_cq h _ u c _ w :=
    create (aliveb (objs w) is_context h && ((c =? 0) || aliveb (objs w) (only KChannel) c))
      (KCQ u 0) (cq_deps h c) w;
  v_destroy_cq h w := destroy (cq_alive (objs w) 0 h) h w;
  v_cqe _ _ := 64;
  v_get_cq_event c w := if aliveb (objs w) (only KChannel) c then l_get_cq_event c w else ((-1, 0%nat), break w);
  v_ack_cq_events := l_ack_cq_events;
  v_poll_cq h _ w := ((0, []), touch is_cq h w);
  v_req_notify_cq h _ w := (0, touch is_cq h w);
  v_create_qp h a w := create (qp_legal h a w) (KQP 0) (qp_deps h a 0) w;
  v_destroy_qp h w := destroy (aliveb (objs w) (only (KQP 0)) h) h w;
  v_qp_num _ h := h;
  v_qp_type _ _ := 2;
  v_modify_qp h _ _ w := (0, touch is_qp h w);
  v_query_qp h _ w := ((0, (qp_attr_zero, mk_ibv_qp_cap 0 0 0 0 0)), touch is_qp h w);
  v_post_send h rs _ w := (0, legal (aliveb (objs w) is_qp h && forallb (ah_legal w) rs) w);
  v_post_recv h _ _ w := (0, touch is_qp h w);
  v_create_ah h _ w := create (aliveb (objs w) (only KPD) h) KAH [h] w;
  v_destroy_ah h w := destroy (aliveb (objs w) (only KAH) h) h w;
  v_create_srq h _ w := create (aliveb (objs w) (only KPD) h) KSRQ [h] w;
  v_destroy_srq h w := destroy (aliveb (objs w) (only KSRQ) h) h w;
  v_query_srq h w := ((0, mk_ibv_srq_attr 1 1 0), touch (only KSRQ) h w);
  v_modify_srq h _ _ w := (0, touch (only KSRQ) h w);
  v_post_srq_recv h _ _ w := (0, touch (only KSRQ) h w);
  mlx5_qp_info_of h w := ((0, mapped_qp), touch is_qp h w);
  mlx5_cq_info_of h w := ((0, mapped_cq), touch is_cq h w);
  idna s := Ok s;
  cm_getaddrinfo _ _ hints w := l_getaddrinfo hints w;
  cm_answer _ p := mk_rdma_answer 2 16 p;
  cm_freeaddrinfo p w :=
    if aliveb (objs w) (only KAddrInfo) p then set_objs (delete p (objs w)) w else break w;
  cm_create_ep := l_create_ep;
  cm_destroy_ep := l_destroy_ep;
  cm_id_verbs := l_cm_id_verbs;
  cm_id_qp := l_cm_id_qp;
  cm_create_qp := l_cm_create_qp;
  cm_destroy_qp := l_cm_destroy_qp;
  cm_connect id _ w := (0, touch (only KCmId) id w);
  cm_event_data _ _ := None;
  cm_disconnect id w := (0, touch (only KCmId) id w);
}.

(** * The laws *)

Record ok (w : Lib) : Prop := {
  ok_fine : fine w = true;
  ok_next : 0 < next w;
  ok_fresh h n : objs w !! h = Some n → 0 < h < next w;
  ok_size : Z.of_nat (size (objs w)) < 2 ^ 32;
  ok_events h u ev d : objs w !! h = Some (mkN (KCQ u ev) d) → 0 ≤ ev < 2 ^ 31;
  ok_cm h1 h2 n1 n2 id :
    objs w !! h1 = Some n1 → objs w !! h2 = Some n2 → n_kind n1 = KQP id → n_kind n2 = KQP id →
    id ≠ 0 → h1 = h2;
}.

Lemma alive_b m P h : alive m P h ↔ aliveb m P h = true.
Proof.
  unfold alive, aliveb. split; [by intros (n & -> & ?)|]. destruct (m !! h) as [n|]; [|done]. eauto.
Qed.
Lemma used_b m h : used m h ↔ usedb m h = true.
Proof.
  unfold used, usedb. rewrite existsb_exists. split.
  - intros (k & n & Hn & Hin). exists (k, n). split; [|by apply bool_decide_eq_true].
    apply list_elem_of_In. by apply elem_of_map_to_list.
  - intros ([k n] & Hin & Hd). apply list_elem_of_In, elem_of_map_to_list in Hin.
    apply bool_decide_eq_true in Hd. by exists k, n.
Qed.

Lemma touch_keeps P h w : ok w → alive (objs w) P h → keeps objs ok w (touch P h w).
Proof. intros Hw Ha%alive_b. unfold touch. by rewrite Ha. Qed.

(** The kinds that may be added: an endpoint has one queue pair, a new queue no events. *)
Definition addable (k : NKind) (m : gmap Z NObj) : Prop :=
  match k with
  | KQP id => id ≠ 0 → ∀ h n, m !! h = Some n → n_kind n ≠ KQP id
  | KCQ _ ev => 0 ≤ ev < 2 ^ 31
  | _ => True
  end.

Lemma ok_insert w k d :
  ok w → room 1 w = true → addable k (objs w) →
  ok (mk_Lib (<[next w := mkN k d]> (objs w)) (next w + 1) (fine w)).
Proof.
  intros [H1 H2 H3 H4 H5 H6] Hr Ha. unfold room in Hr. apply Z.ltb_lt in Hr.
  assert (Hn : objs w !! next w = None).
  { destruct (objs w !! next w) eqn:E; [|done]. apply H3 in E. lia. }
  constructor; cbn.
  - done.
  - lia.
  - intros h n [[<- _]|[_ Hh%H3]]%lookup_insert_Some; lia.
  - rewrite map_size_insert_None by done. lia.
  - intros h u ev d' [[_ [= -> ->]]|[_ Hh]]%lookup_insert_Some; [done|by eapply H5].
  - intros h1 h2 n1 n2 id [[<- <-]|[Hn1 Hh1]]%lookup_insert_Some [[<- <-]|[Hn2 Hh2]]%lookup_insert_Some K1 K2 Hid;
      [done| | |by eapply H6]; cbn in *; subst k; destruct (Ha Hid _ _ ltac:(eassumption)); done.
Qed.

Lemma ok_subset w m : ok w → m ⊆ objs w → ok (set_objs m w).
Proof.
  intros [H1 H2 H3 H4 H5 H6] Hm.
  assert (Hl : ∀ h n, m !! h = Some n → objs w !! h = Some n) by (intros h n Hh; by eapply lookup_weaken).
  constructor; cbn; [done|done|eauto| |eauto|eauto].
  enough (size m ≤ size (objs w))%nat by lia. rewrite <-!size_dom. apply subseteq_size.
  by apply subseteq_dom.
Qed.

Lemma create_creates b k d w :
  ok w → b = true → addable k (objs w) → creates objs ok k d w (create b k d w).
Proof.
  intros Hw -> Ha. unfold create, creates. cbn [andb legal]. destruct (room 1 w) eqn:Hr; cbn.
  - split; [by apply ok_insert|]. right. pose proof (ok_next _ Hw). split_and!; [lia| |done].
    destruct (objs w !! next w) eqn:E; [|done]. apply (ok_fresh _ Hw) in E. lia.
  - split; [done|]. by left.
Qed.

Lemma destroy_destroys b h w : ok w → b = true → destroys objs ok h w (destroy b h w).
Proof.
  intros Hw ->. unfold destroy, destroys. pose proof (used_b (objs w) h) as Hu.
  destruct (usedb (objs w) h); cbn.
  - split; [done|]. right. by rewrite Hu.
  - split; [apply ok_subset; [done|apply delete_subseteq]|]. left. split_and!; [done|naive_solver|done].
Qed.

Ltac model_law :=
  first
    [ by intros; apply touch_keeps
    | intros; apply create_creates; [done|by apply alive_b|done]
    | intros; apply destroy_destroys; [done|by apply alive_b] ].

Lemma find_some P m h n : find_obj P m = Some (h, n) → m !! h = Some n ∧ P h n = true.
Proof.
  intros [Hin Hp]%find_some. apply list_elem_of_In, elem_of_map_to_list in Hin. done.
Qed.
Lemma find_none P m h n : find_obj P m = None → m !! h = Some n → P h n = false.
Proof.
  intros Hf Hn. apply (find_none _ _ Hf (h, n)). apply list_elem_of_In. by apply elem_of_map_to_list.
Qed.

Lemma only_true k k' : only k k' = true ↔ k' = k.
Proof. apply bool_decide_eq_true. Qed.

Lemma model_endpoint w id : ok w → id ≠ 0 → endpoint_qp objs w id (l_cm_id_qp w id).
Proof.
  intros Hw Hid. unfold l_cm_id_qp. destruct (find_obj _ _) as [[q n]|] eqn:Hf.
  - apply find_some in Hf as [Hq Hk]. apply bool_decide_eq_true in Hk. split; [|eauto].
    intros h n' Hh Hk'. by apply (ok_cm _ Hw h q n' n id).
  - split; [|done]. intros h n Hh Hk. pose proof (find_none _ _ _ _ Hf Hh) as Hb. cbn in Hb.
    by apply bool_decide_eq_false in Hb.
Qed.

Lemma qp_legal_b pd a w :
  alive (objs w) (only KPD) pd → alive (objs w) is_cq (ia_send_cq a) →
  alive (objs w) is_cq (ia_recv_cq a) → (ia_srq a = 0 ∨ alive (objs w) (only KSRQ) (ia_srq a)) →
  qp_legal pd a w = true.
Proof.
  unfold qp_legal. rewrite !alive_b. intros -> -> -> [->| ->]; [done|]. by rewrite orb_true_r.
Qed.

(** A queue that is alive changes its count of events, or its context. *)
Lemma ok_set_events w h u u2 ev ev' d :
  ok w → objs w !! h = Some (mkN (KCQ u ev) d) → 0 ≤ ev' < 2 ^ 31 →
  ok (set_objs (<[h := mkN (KCQ u2 ev') d]> (objs w)) w).
Proof.
  intros [H1 H2 H3 H4 H5 H6] Hh He. constructor; cbn; [done|done| | | |].
  - intros k n [[<- _]|[_ Hk]]%lookup_insert_Some; by eapply H3.
  - by rewrite map_size_insert_Some.
  - intros k u' e d' [[_ [= -> ->]]|[_ Hk]]%lookup_insert_Some; [done|by eapply H5].
  - intros h1 h2 n1 n2 id [[<- <-]|[Hn1 Hh1]]%lookup_insert_Some [[<- <-]|[Hn2 Hh2]]%lookup_insert_Some K1 K2 Hid;
      try done. by eapply H6.
Qed.

Lemma model_get_cq_event c w :
  ok w → let '((rc, u), w') := l_get_cq_event c w in
  ok w' ∧ ((rc ≠ 0 ∧ objs w' = objs w) ∨
    (rc = 0 ∧ ∃ h ev d, objs w !! h = Some (mkN (KCQ u ev) d) ∧ c ∈ d ∧
       objs w' = <[h := mkN (KCQ u (ev + 1)) d]> (objs w))).
Proof.
  intros Hw. unfold l_get_cq_event. destruct (find_obj _ _) as [[h [k d]]|] eqn:Hf; [|split; [done|by left]].
  destruct k as [| | | | |u ev| | | | |]; try (split; [done|by left]).
  apply find_some in Hf as [Hh Hp]. cbn in Hp. apply andb_true_iff in Hp as [Hin%bool_decide_eq_true Hlt].
  pose proof (ok_events _ Hw _ _ _ _ Hh). split.
  - eapply ok_set_events; [done|exact Hh|lia].
  - right. split; [done|]. by exists h, ev, d.
Qed.

Lemma model_create_ep w :
  ok w → room 2 w = true →
  let w' := mk_Lib (<[next w := mkN KCmId [next w + 1]]> (<[next w + 1 := mkN KCmContext []]> (objs w)))
              (next w + 2) (fine w) in
  ok w' ∧ objs w !! next w = None ∧ objs w !! (next w + 1) = None.
Proof.
  intros [H1 H2 H3 H4 H5 H6] Hr w'. unfold room in Hr. apply Z.ltb_lt in Hr.
  assert (Hn : ∀ k, next w ≤ k → objs w !! k = None).
  { intros k Hk. destruct (objs w !! k) eqn:E; [|done]. apply H3 in E. lia. }
  split_and!; [|by apply Hn; lia..]. constructor; cbn; [done|lia| | | |].
  - intros h n [[<- _]|[_ [[<- _]|[_ Hh%H3]]%lookup_insert_Some]]%lookup_insert_Some; lia.
  - rewrite !map_size_insert_None; [lia|by apply Hn; lia|]. rewrite lookup_insert_ne by lia. apply Hn; lia.
  - intros h u ev d [[_ [=]]|[_ [[_ [=]]|[_ Hh]]%lookup_insert_Some]]%lookup_insert_Some. by eapply H5.
  - intros h1 h2 n1 n2 id [[<- <-]|[_ [[<- <-]|[_ Hh1]]%lookup_insert_Some]]%lookup_insert_Some
      [[<- <-]|[_ [[<- <-]|[_ Hh2]]%lookup_insert_Some]]%lookup_insert_Some K1 K2 Hid; try done.
    by eapply H6.
Qed.

Lemma foldr_delete (m : gmap Z NObj) l h :
  foldr delete m l !! h = if bool_decide (h ∈ l) then None else m !! h.
Proof.
  induction l as [|v l IH]; [done|]. cbn [foldr]. destruct (decide (h = v)) as [->|Hne].
  - rewrite lookup_delete_eq, bool_decide_true; [done|left].
  - rewrite lookup_delete_ne, IH by done. do 2 case_bool_decide; set_solver.
Qed.

Lemma other_ep_b m v :
  other_ep m v = true ↔ ∃ i n, m !! i = Some n ∧ n_kind n = KCmId ∧ v ∈ n_deps n.
Proof.
  unfold other_ep. rewrite existsb_exists. split.
  - intros ([i n] & Hin & [Hk%bool_decide_eq_true Hv%bool_decide_eq_true]%andb_true_iff).
    apply list_elem_of_In, elem_of_map_to_list in Hin. eauto.
  - intros (i & n & Hi & Hk & Hv). exists (i, n). split.
    + by apply list_elem_of_In, elem_of_map_to_list.
    + apply andb_true_iff. by split; apply bool_decide_eq_true.
Qed.

Lemma model_destroy_ep id d w :
  ok w → objs w !! id = Some (mkN KCmId d) → ¬ used (objs w) id →
  (∀ v, v ∈ d → (∃ h n, objs w !! h = Some n ∧ v ∈ n_deps n ∧ n_kind n ≠ KCmId) →
     ∃ i n, i ≠ id ∧ objs w !! i = Some n ∧ n_kind n = KCmId ∧ v ∈ n_deps n) →
  ok (l_destroy_ep id w) ∧ objs (l_destroy_ep id w) !! id = None ∧
  objs (l_destroy_ep id w) ⊆ objs w ∧
  (∀ h n, h ≠ id → objs w !! h = Some n →
     (n_kind n = KCmContext →
        ∃ i n', i ≠ id ∧ objs w !! i = Some n' ∧ n_kind n' = KCmId ∧ h ∈ n_deps n') →
     objs (l_destroy_ep id w) !! h = Some n).
Proof.
  intros Hw Hid Hu Hd. unfold l_destroy_ep. rewrite Hid. cbn zeta.
  set (m := delete id (objs w)). set (last := filter _ d).
  assert (Hother : ∀ v, other_ep m v = true ↔
    ∃ i n, i ≠ id ∧ objs w !! i = Some n ∧ n_kind n = KCmId ∧ v ∈ n_deps n).
  { intros v. rewrite other_ep_b. split.
    - intros (i & n & [Hne Hi]%lookup_delete_Some & Hk & Hv). eauto 6.
    - intros (i & n & Hne & Hi & Hk & Hv). exists i, n. subst m. by rewrite lookup_delete_ne. }
  assert (Hlast : ∀ v, v ∈ last → v ∈ d ∧ other_ep m v = false ∧ aliveb m (only KCmContext) v = true).
  { intros v. unfold last. rewrite list_elem_of_filter. naive_solver. }
  assert (Hok : usedb (objs w) id || existsb (usedb m) last = false).
  { apply orb_false_iff. split; [apply not_true_iff_false; by rewrite <-used_b|].
    apply not_true_iff_false. rewrite existsb_exists. intros (v & Hv & (h & n & Hn & Hin)%used_b).
    apply list_elem_of_In, Hlast in Hv as (Hvd & Ho & _). apply not_true_iff_false in Ho. apply Ho, Hother.
    apply lookup_delete_Some in Hn as [Hne Hn]. destruct (decide (n_kind n = KCmId)) as [Hk|Hk]; [eauto 6|].
    apply Hd; [done|eauto]. }
  rewrite Hok. cbn.
  assert (Hsub : foldr delete m last ⊆ objs w).
  { apply map_subseteq_spec. intros h n. rewrite foldr_delete. case_bool_decide; [done|].
    by intros [_ ?]%lookup_delete_Some. }
  split_and!; [by apply ok_subset| |done|].
  - rewrite foldr_delete. case_bool_decide; [done|]. apply lookup_delete_eq.
  - intros h n Hne Hh Hc. rewrite foldr_delete. case_bool_decide as Hin.
    + apply Hlast in Hin as (_ & Ho & Ha). exfalso. unfold aliveb in Ha. subst m.
      rewrite lookup_delete_ne, Hh in Ha by done. apply only_true in Ha.
      apply not_true_iff_false in Ho. by apply Ho, Hother, Hc.
    + subst m. by rewrite lookup_delete_ne.
Qed.

#[global] Instance Lib_laws : LibibverbsLaws Lib.
Proof.
  refine {| live := objs; intact := ok |}; cbn; try model_law.
  all: try (intros; split; [assumption|reflexivity]).
  - intros w Hw. destruct (objs w !! 0) eqn:E; [|done]. apply (ok_fresh _ Hw) in E. lia.
  - apply ok_size.
  - intros w h u ev d Hw. by apply (ok_events _ Hw).
  - intros _ w Hw. by apply create_creates.
  - intros h w Hw Ha Hu. unfold l_close_device. apply alive_b in Ha. rewrite Ha.
    replace (usedb (objs w) h) with false by (symmetry; apply not_true_iff_false; by rewrite <-used_b).
    cbn. split; [|done]. apply ok_subset; [done|apply delete_subseteq].
  - intros h _ u c _ w Hw Ha Hc. apply create_creates; [done| |cbn; lia].
    apply alive_b in Ha. rewrite Ha. destruct Hc as [->|Hc%alive_b]; [done|]. by rewrite Hc, orb_true_r.
  - intros h u d w Hw Hh. apply destroy_destroys; [done|]. unfold cq_alive. by rewrite Hh.
  - intros c w Hw Ha%alive_b. rewrite Ha. by apply model_get_cq_event.
  - intros h n u ev d w Hw Hh Hn. unfold l_ack_cq_events. rewrite Hh.
    replace ((0 <=? n) && (n <=? ev)) with true by lia. split; [|done].
    pose proof (ok_events _ Hw _ _ _ _ Hh). eapply ok_set_events; [done|exact Hh|lia].
  - intros h a w Hw H1 H2 H3 H4. apply create_creates; [done|by apply qp_legal_b|by intros ?].
  - intros h rs _ w Hw Ha%alive_b Hrs. rewrite Ha.
    replace (forallb (ah_legal w) rs) with true; [by split|]. symmetry. apply forallb_forall.
    intros r Hr%list_elem_of_In. rewrite Forall_forall in Hrs. specialize (Hrs _ Hr). unfold ah_legal.
    destruct (swr_wr r); try done. by apply alive_b.
  - intros _ _ hints w Hw Hsrc. unfold l_getaddrinfo.
    assert ((ai_src_addr hints =? 0) || aliveb (objs w) (only KAddrInfo) (ai_src_addr hints) = true) as ->.
    { destruct Hsrc as [->|(p & Hp%alive_b & <-)]; [done|]. by rewrite Hp, orb_true_r. }
    destruct (room 1 w) eqn:Hr; [|done]. pose proof (create_creates true KAddrInfo [] w Hw eq_refl I) as Hc.
    unfold create in *. rewrite Hr in *. cbn in *. split; [done|]. pose proof (ok_next _ Hw). lia.
  - intros p w Hw Ha%alive_b. rewrite Ha. split_and!; [|done|].
    + apply ok_subset; [done|apply delete_subseteq].
    + intros id. unfold l_cm_id_verbs. cbn. destruct (decide (id = p)) as [->|Hne].
      * rewrite lookup_delete_eq. unfold aliveb in Ha. destruct (objs w !! p) as [[k d]|]; [|done].
        cbn in Ha. apply only_true in Ha. by subst k.
      * by rewrite lookup_delete_ne.
  - intros p w Hw Ha%alive_b. unfold l_create_ep. rewrite Ha. destruct (room 2 w) eqn:Hr; [|done].
    destruct (model_create_ep w Hw Hr) as (Hok & H1 & H2). pose proof (ok_next _ Hw).
    rewrite (proj2 (Z.eqb_neq (next w) 0)) by lia. cbn. split_and!; [done|done|].
    unfold l_cm_id_verbs. cbn. rewrite lookup_insert_eq.
    rewrite (proj2 (Z.eqb_neq (next w + 1) 0)) by lia. split_and!; [lia|done|by left].
  - apply model_destroy_ep.
  - intros id w Hw (n & Hn & _). apply model_endpoint; [done|]. apply (ok_fresh _ Hw) in Hn. lia.
  - intros id h a w Hw Ha Hq H1 H2 H3 H4. unfold l_cm_create_qp. rewrite (qp_legal_b _ _ _ H1 H2 H3 H4), Hq.
    assert (Hid : id ≠ 0) by (destruct Ha as (n & Hn & _); apply (ok_fresh _ Hw) in Hn; lia).
    apply alive_b in Ha. rewrite Ha. cbn. destruct (room 1 w) eqn:Hr; [|done]. cbn.
    set (deps := h :: _).
    assert (Hadd : addable (KQP id) (objs w)).
    { intros _ k n Hk E. destruct (model_endpoint w id Hw Hid) as [Hall _].
      pose proof (Hall _ _ Hk E). rewrite Hq in *. apply (ok_fresh _ Hw) in Hk. lia. }
    pose proof (create_creates true (KQP id) deps w Hw eq_refl Hadd) as Hc.
    unfold create in *. rewrite Hr in *. cbn in *. set (w' := mk_Lib _ _ _) in *.
    assert (l_cm_id_qp w' id = next w) as ->.
    { symmetry. apply (proj1 (model_endpoint w' id (proj1 Hc) Hid) (next w) (mkN (KQP id) deps)); [|done].
      apply lookup_insert_eq. }
    split; [done|]. pose proof (ok_next _ Hw). lia.
  - intros id w Hw Ha%alive_b Hq. unfold l_cm_destroy_qp. rewrite Ha, (proj2 (Z.eqb_neq _ _) Hq). cbn.
    split; [|done]. apply ok_subset; [done|apply delete_subseteq].
Defined.
