(* ===== verification/VerbsExamples.v ===== *)
(** Runs of the verbs binding on the library of VerbsModel: the theorems about runs at
    concrete programs, and three programs that show the conditions of [allowed] to be
    needed. *)

From S2P Require Import Prelude Bytes Json.
From S2P Require Import GpuNetIO.
From S2P Require Import Helpers.
From S2P Require Import VerbsLib VerbsValues VerbsPost.
From S2P Require Import VerbsObjects VerbsSafety VerbsMethods.
From S2P Require Import VerbsInvariant VerbsRuns VerbsTheorems VerbsExternal VerbsTeardown.
From S2P Require Import VerbsModel VerbsUse.
#[local] Open Scope Z_scope.

(** The program before its first call. *)
Definition b0 : Binding Lib := mk_Binding ∅ ∅ 0 0 0 0 (mk_Lib ∅ 1 true).

Lemma b0_started : started b0.
Proof. split; [done| |done]. cbn. by constructor. Qed.

(** A device, a domain, a channel, a completion queue, a queue pair on it and a region:
    the objects 0 to 5. *)
Definition queue_attr : QPInitAttr := mk_QPInitAttr 3 3 2 16 16 1 1 0 None false.
Definition setup : list call :=
  [C_open (mk_Device [109] 7); C_alloc_pd 0; C_create_comp_channel 0;
   C_create_cq 0 16 (Some 2%nat) 0; C_create_qp 1 queue_attr; C_reg_mr 1 4096 4096 1].
Definition opened : Binding Lib := run_calls setup b0.

Example opened_objects :
  map_to_list (handle_of <$> b_heap opened) = map_to_list (list_to_map
    [(0%nat, 1); (1%nat, 2); (2%nat, 3); (3%nat, 4); (4%nat, 5); (5%nat, 6)] : gmap nat Z).
Proof. vm_compute. reflexivity. Qed.

Lemma setup_reach (P : Binding Lib → call → Prop) :
  (∀ s c, c ∈ setup → P s c) → reach P b0 opened.
Proof.
  intros HP. apply reach_run; [constructor|]. cbn [all_calls setup].
  split_and!; try apply HP; set_solver.
Qed.

Lemma opened_allowed : reach allowed b0 opened.
Proof.
  apply setup_reach. intros s c Hc. repeat (apply elem_of_cons in Hc as [->|Hc]; [done|]).
  by apply not_elem_of_nil in Hc.
Qed.


Lemma nothing_lost_witness :
  ∃ r x, b_heap opened !! r = Some x ∧ handle_of x = 5 ∧
    ∀ r' x', b_heap opened !! r' = Some x' → handle_of x' = 5 → r' = r.
Proof.
  destruct (nothing_lost b0 opened b0_started opened_allowed) as [Hown _].
  destruct (Hown 5 (mkN (KQP 0) [2; 4; 4]) ltac:(by vm_compute) eq_refl) as [(r & x & Hx & Hh & _ & Hu) _].
  exists r, x. split_and!; [exact Hx|exact Hh|exact Hu].
Defined.

(** Closing the device of [opened] is refused, for its domain is open. *)
Lemma context_close_outcome_witness :
  Context_close 0 opened = (Raise (VerbsError EBUSY), opened).
Proof.
  destruct (b_heap opened !! 0%nat) as [x|] eqn:Hx; [|vm_compute in Hx; discriminate].
  pose proof Hx as Hx'. vm_compute in Hx'. injection Hx' as <-.
  destruct (context_close_outcome b0 opened 0 _ b0_started opened_allowed Hx ltac:(by vm_compute) eq_refl)
    as [[_ H]|[Hno _]]; [exact H|].
  destruct (b_heap opened !! 1%nat) as [y|] eqn:Hy; [|vm_compute in Hy; discriminate].
  pose proof Hy as Hy'. vm_compute in Hy'. injection Hy' as <-.
  destruct (Hno _ _ Hy). split; [by vm_compute|]. cbn. left.
Defined.

(** ** The conditions of [allowed] *)

Definition closed_ah : list call :=
  setup ++ [C_create_ah 1 (mk_AHAttr (replicate 16 0) 0 0 1 0 0 0 0 0 1 1); C_close_ah 6].
Definition datagram : SendWR := mk_SendWR 1 [] 2 0 0 0 0 0 0 (Some 6%nat) 9 0.

Definition endpoint_calls : list call := [C_resolve [104] 4420 None; C_alloc_pd 0].

(** Each of the three conditions is needed: there is a program that keeps to them until a last
    call, and that breaks the library by acknowledging 2^32 - 1 events where none is outstanding
    (the guard compares the count as a signed integer), by posting a datagram whose address handle
    was closed, or by dropping an endpoint while a protection domain of its context is open. *)
Theorem conditions_needed :
  (∃ s r n, reach allowed b0 s ∧ 0 ≤ n < 2 ^ 32 ∧ ¬ intact (b_world (run_call (C_ack_events r n) s))) ∧
  (∃ s r wrs, reach allowed b0 s ∧ ¬ intact (b_world (run_call (C_post_send r wrs) s))) ∧
  (∃ s r, reach allowed b0 s ∧ ¬ intact (b_world (run_call (C_collect r) s))).
Proof.
  split_and!.
  - exists opened, 3%nat, (2 ^ 32 - 1). split_and!; [apply opened_allowed|done|done|].
    intros [Hf _ _ _ _ _]. by vm_compute in Hf.
  - exists (run_calls closed_ah b0), 4%nat, [datagram]. split.
    + apply reach_run; [constructor|]. by repeat split.
    + intros [Hf _ _ _ _ _]. by vm_compute in Hf.
  - exists (run_calls endpoint_calls b0), 1%nat. split.
    + apply reach_run; [constructor|]. by repeat split.
    + intros [Hf _ _ _ _ _]. by vm_compute in Hf.
Qed.

(** ** The external data path *)

Definition gpu_calls : list call := setup ++ [C_bridge_info 4; C_acquire 4].
Definition gpu_state : Binding Lib := run_calls gpu_calls b0.

Lemma gpu_reach : reach retained b0 gpu_state.
Proof. apply reach_run; [constructor|]. by repeat split. Qed.

Lemma gpu_handles_counted_witness :
  ∃ o, b_heap gpu_state !! 3%nat = Some (OCQ o) ∧ cq_external_users o = 1 ∧
    msum (handles_through 3) (b_heap gpu_state) = 1.
Proof.
  destruct (gpu_handles_counted b0 gpu_state eq_refl gpu_reach) as [Hc _].
  destruct (b_heap gpu_state !! 3%nat) as [x|] eqn:Hx; [|vm_compute in Hx; discriminate].
  pose proof Hx as Hx'. vm_compute in Hx'. injection Hx' as <-.
  eexists. split_and!; [reflexivity|reflexivity|]. rewrite <-(Hc _ _ Hx). reflexivity.
Defined.

Lemma gpu_queue_locked_witness :
  QP_close 4 gpu_state = (Raise (VerbsError EBUSY), gpu_state) ∧
  poll 3 8 gpu_state = (Raise (VerbsError EBUSY), gpu_state).
Proof.
  destruct (b_heap gpu_state !! 4%nat) as [x|] eqn:Hx; [|vm_compute in Hx; discriminate].
  destruct (b_heap gpu_state !! 3%nat) as [y|] eqn:Hy; [|vm_compute in Hy; discriminate].
  pose proof Hx as Hx'. vm_compute in Hx'. injection Hx' as <-.
  pose proof Hy as Hy'. vm_compute in Hy'. injection Hy' as <-.
  destruct (gpu_queue_locked b0 gpu_state 4 _ 3 _ eq_refl gpu_reach Hx ltac:(by vm_compute) eq_refl
    (or_introl eq_refl) Hy ltac:(by vm_compute)) as (_ & _ & Hpoll & _ & _ & Hclose).
  split; [apply Hclose; by vm_compute|apply Hpoll; lia].
Defined.

(** ** Giving everything back *)

Lemma teardown_complete_witness :
  ∃ t, teardown opened = (Ok tt, t) ∧ map_to_list (live (b_world t)) = [(1, mkN KContext [])].
Proof.
  assert (Hr : reach (λ s c, allowed s c ∧ retained s c) b0 opened).
  { apply reach_run; [constructor|]. by repeat split. }
  destruct (teardown_complete b0 opened b0_started Hr) as (t & Ht & _).
  - intros r q Hq.
    assert (Hall : Forall (λ p, match p.2 with OQP q => qp_external_users q = 0 | _ => True end)
                     (map_to_list (b_heap opened))) by (vm_compute; repeat constructor).
    rewrite Forall_forall in Hall. exact (Hall (r, OQP q) ltac:(by apply elem_of_map_to_list)).
  - exists t. split; [exact Ht|]. assert (t = (teardown opened).2) as -> by by rewrite Ht.
    vm_compute. reflexivity.
Defined.

(** ** Callers *)

(** The last 96 bytes of the region, and one byte more. *)
Lemma sge_stays_inside_witness :
  (SGE_mr 5 96 0 4000 opened).1 = Ok (mk_SGE (4096 * 6 + 4000) 96 6 (Some 5%nat)) ∧
  (SGE_mr 5 97 0 4000 opened).1 = Raise ValueError ∧ (SGE_mr 5 97 0 4000 opened).2 = opened.
Proof.
  destruct (b_heap opened !! 5%nat) as [x|] eqn:Hx; [|vm_compute in Hx; discriminate].
  pose proof Hx as Hx'. vm_compute in Hx'. injection Hx' as <-.
  split_and!; [by vm_compute|by vm_compute|].
  destruct (sge_stays_inside opened 5 _ 97 0 4000 Hx) as [Hs _]; [vm_compute; discriminate..|exact Hs].
Defined.

(** Connecting the queue pair to an endpoint succeeds. *)
Definition peer : QPInfo := mk_QPInfo 9 5 0 (replicate 16 1) 1 5.

Lemma connect_rc_on_binding_witness :
  (connect_rc 4%nat peer 1 0 3 7 (Some 3) (mk_RtsArgs None None None None) opened).1 = Ok tt.
Proof.
  destruct (b_heap opened !! 4%nat) as [x|] eqn:Hx; [|vm_compute in Hx; discriminate].
  pose proof Hx as Hx'. vm_compute in Hx'. injection Hx' as <-.
  destruct (connect_rc_on_binding opened 4 _ peer 1 0 3 7 3 (mk_RtsArgs None None None None) Hx
    ltac:(by vm_compute) eq_refl ltac:(reflexivity)) as (am & _ & _ & _ & _ & _ & _ & ->).
  - repeat constructor; vm_compute; discriminate || reflexivity.
  - vm_compute. reflexivity.
Defined.
