(* ===== verification/EfaLib.v ===== *)
(** The native side of the EFA binding, src/efa/src/efa/_efa.pyx: what it adds to the
    verbs of VerbsLib.  [Libefa] has the functions of libefa, the extended work-request
    calls ([ibv_wr_start] to [ibv_wr_complete]) and the extended polling of a
    completion queue; [LibefaLaws] says what their manual pages promise.

    The laws follow four things of a queue pair or completion queue through the
    library ([Extended]): the batch that is being built, what was submitted, the
    operations the queue pair was created with, and whether a poll is in progress.  A
    work-request call on an operation that the queue pair does not have jumps through a
    NULL pointer, and no call may be made out of its order. *)

From S2P Require Import Prelude Bytes.
From S2P Require Import VerbsLib.
#[local] Open Scope Z_scope.

Definition ENOENT : Z := 2.

(** * C structures *)

Record EfaDeviceAttr := mk_EfaDeviceAttr {
  max_sq_wr : Z; max_rq_wr : Z; max_sq_sge : Z; max_rq_sge : Z; inline_buf_size : Z;
  device_caps : Z; max_rdma_size : Z;
}.
Record CQAttr := mk_CQAttr {
  cqa_buffer_addr : Z; cqa_entry_size : Z; cqa_num_entries : Z; cqa_doorbell_addr : Z;
}.
Record WQAttr := mk_WQAttr {
  wqa_buffer_addr : Z; wqa_entry_size : Z; wqa_num_entries : Z; wqa_doorbell_addr : Z;
  wqa_max_batch : Z;
}.
Record MRAttr := mk_MRAttr {
  ic_id_validity : Z; recv_ic_id : Z; rdma_read_ic_id : Z; rdma_recv_ic_id : Z;
}.

(** [ibv_qp_init_attr_ex] as the binding fills it: the plain attributes, the domain, the
    components that are set and the operations; then [efadv_qp_init_attr]. *)
Record ibv_qp_init_attr_ex := mk_ibv_qp_init_attr_ex {
  iax_attr : ibv_qp_init_attr; iax_pd : Z; iax_comp_mask : Z; iax_send_ops_flags : Z;
}.
Record efadv_qp_init_attr := mk_efadv_qp_init_attr {
  eqa_driver_qp_type : Z; eqa_sl : Z; eqa_flags : Z;
}.

(** [ibv_cq_init_attr_ex], and the [wc_flags] of [efadv_cq_init_attr]. *)
Record ibv_cq_init_attr_ex := mk_ibv_cq_init_attr_ex {
  cax_cqe : Z; cax_channel : Z; cax_comp_vector : Z; cax_wc_flags : Z;
}.

(** What a completion queue reports of the entry it is at; the sender's GID, when there
    is one to report, and whether the entry is unsolicited. *)
Record cqe_view := mk_cqe_view {
  cv_wc : ibv_wc; cv_sgid : option bytes; cv_unsolicited : bool;
}.

(** The operation of a work request; immediate data is in network order. *)
Inductive wr_op :=
| WrSend
| WrSendImm (imm : Z)
| WrRead (rkey remote_addr : Z)
| WrWrite (rkey remote_addr : Z)
| WrWriteImm (rkey remote_addr imm : Z).

(** The data of a work request: buffers (address and length) to copy, or entries. *)
Inductive wr_data :=
| WrInline (bufs : list (Z * Z))
| WrSges (sges : list ibv_sge).

(** A work request of a batch, as far as it has been built. *)
Record wr_entry := mk_wr_entry {
  we_wr_id : Z; we_flags : Z; we_op : wr_op; we_dest : option (Z * Z * Z);
  we_data : option wr_data;
}.

Definition _OPS_RDMA_WRITE : Z := 1.
Definition _OPS_RDMA_WRITE_WITH_IMM : Z := 2.
Definition _OPS_SEND : Z := 4.
Definition _OPS_SEND_WITH_IMM : Z := 8.
Definition _OPS_RDMA_READ : Z := 16.

(** The bit of [ibv_qp_create_send_ops_flags] that installs an operation. *)
Definition op_bit (o : wr_op) : Z :=
  match o with
  | WrSend => _OPS_SEND
  | WrSendImm _ => _OPS_SEND_WITH_IMM
  | WrRead _ _ => _OPS_RDMA_READ
  | WrWrite _ _ => _OPS_RDMA_WRITE
  | WrWriteImm _ _ _ => _OPS_RDMA_WRITE_WITH_IMM
  end.
Definition installed (mask : Z) (o : wr_op) : Prop := Z.land mask (op_bit o) ≠ 0.

(** * The functions

    [wr_op_call q id flags op] is one of [ibv_wr_send], ..., [ibv_wr_rdma_write_imm],
    which read the fields [wr_id] and [wr_flags] of the queue pair. *)
Class Libefa (W : Type) := {
  e_query_device : Z → W → (Z * EfaDeviceAttr) * W;
  e_query_ah : Z → W → (Z * Z) * W;
  e_query_mr : Z → W → (Z * MRAttr) * W;
  e_query_cq : Z → W → (Z * CQAttr) * W;
  e_query_qp_wqs : Z → W → (Z * (WQAttr * WQAttr)) * W;
  e_create_qp_ex : Z → ibv_qp_init_attr_ex → efadv_qp_init_attr → W → Z * W;
  v_create_qp_ex : Z → ibv_qp_init_attr_ex → W → Z * W;
  v_qp_to_qp_ex : W → Z → Z;
  e_create_cq : Z → ibv_cq_init_attr_ex → Z → W → Z * W;
  set_cq_context : Z → nat → W → W;
  e_cq_from_cq_ex : W → Z → Z;
  wr_start : Z → W → W;
  wr_op_call : Z → Z → Z → wr_op → W → W;
  wr_set_ud_addr : Z → Z → Z → Z → W → W;
  wr_set_data : Z → wr_data → W → W;
  wr_abort : Z → W → W;
  wr_complete : Z → W → Z * W;
  cq_start_poll : Z → W → Z * W;
  cq_next_poll : Z → W → Z * W;
  cq_end_poll : Z → W → W;
  cq_current : W → Z → cqe_view;
}.

(** * What the library promises *)

(** The calls made so far, as far as the order of the extended calls depends on them:
    the batch being built on a queue pair, the work requests submitted to it, the
    operations it was created with; the queues whose poll is in progress, and the
    entries polled from a queue. *)
Record Extended := mk_Extended {
  ex_batch : gmap Z (list wr_entry);
  ex_sent : gmap Z (list wr_entry);
  ex_ops : gmap Z Z;
  ex_polling : gset Z;
  ex_taken : gmap Z (list cqe_view);
}.
Definition set_batch (m : gmap Z (list wr_entry)) (x : Extended) : Extended :=
  mk_Extended m (ex_sent x) (ex_ops x) (ex_polling x) (ex_taken x).
Definition set_sent (m : gmap Z (list wr_entry)) (x : Extended) : Extended :=
  mk_Extended (ex_batch x) m (ex_ops x) (ex_polling x) (ex_taken x).
Definition set_ops (m : gmap Z Z) (x : Extended) : Extended :=
  mk_Extended (ex_batch x) (ex_sent x) m (ex_polling x) (ex_taken x).
Definition set_polling (m : gset Z) (x : Extended) : Extended :=
  mk_Extended (ex_batch x) (ex_sent x) (ex_ops x) m (ex_taken x).
Definition set_taken (m : gmap Z (list cqe_view)) (x : Extended) : Extended :=
  mk_Extended (ex_batch x) (ex_sent x) (ex_ops x) (ex_polling x) m.

Definition sent (x : Extended) (q : Z) : list wr_entry := default [] (ex_sent x !! q).
Definition taken (x : Extended) (c : Z) : list cqe_view := default [] (ex_taken x !! c).

(** A new queue pair has its operations, no batch and nothing submitted. *)
Definition new_qp (h ops : Z) (x : Extended) : Extended :=
  if h =? 0 then x
  else set_batch (delete h (ex_batch x)) (set_sent (delete h (ex_sent x))
         (set_ops (<[h := ops]> (ex_ops x)) x)).
Definition add_entry (q : Z) (e : wr_entry) (x : Extended) : Extended :=
  set_batch (<[q := default [] (ex_batch x !! q) ++ [e]]> (ex_batch x)) x.
(** A change of the last work request of the batch. *)
Definition change_last (q : Z) (f : wr_entry → wr_entry) (x : Extended) : Extended :=
  set_batch (alter (λ l, match rev l with [] => [] | e :: l' => rev l' ++ [f e] end) q (ex_batch x)) x.
Definition set_dest (d : Z * Z * Z) (e : wr_entry) : wr_entry :=
  mk_wr_entry (we_wr_id e) (we_flags e) (we_op e) (Some d) (we_data e).
Definition set_data (d : wr_data) (e : wr_entry) : wr_entry :=
  mk_wr_entry (we_wr_id e) (we_flags e) (we_op e) (we_dest e) (Some d).
Definition end_batch (q : Z) (ok : bool) (x : Extended) : Extended :=
  set_batch (delete q (ex_batch x))
    (if ok then set_sent (<[q := sent x q ++ default [] (ex_batch x !! q)]> (ex_sent x)) x else x).
Definition take_entry (c : Z) (v : cqe_view) (x : Extended) : Extended :=
  set_taken (<[c := taken x c ++ [v]]> (ex_taken x)) x.

(** A work request is complete with a destination and data. *)
Definition complete (e : wr_entry) : bool :=
  match we_dest e, we_data e with Some _, Some _ => true | _, _ => false end.

Section Calls.
Context {W : Type} `{!Libibverbs W} `{!Libefa W}.

(** The calls that are no work-request call, creation of a queue pair or poll of an
    extended queue. *)
Inductive verb_call (w : W) : W → Prop :=
| vc_dl_open f : verb_call w (dl_open f w).2
| vc_get_device_list : verb_call w (v_get_device_list w).2
| vc_free_device_list : verb_call w (v_free_device_list w)
| vc_open_device d : verb_call w (v_open_device d w).2
| vc_close_device h : verb_call w (v_close_device h w).2
| vc_query_device h : verb_call w (v_query_device h w).2
| vc_query_port h p : verb_call w (v_query_port h p w).2
| vc_query_gid h p i : verb_call w (v_query_gid h p i w).2
| vc_get_async_event h : verb_call w (v_get_async_event h w).2
| vc_ack_async_event e : verb_call w (v_ack_async_event e w)
| vc_alloc_pd h : verb_call w (v_alloc_pd h w).2
| vc_dealloc_pd h : verb_call w (v_dealloc_pd h w).2
| vc_reg_mr h a l i f : verb_call w (v_reg_mr_iova2 h a l i f w).2
| vc_reg_dmabuf_mr h o l i fd f : verb_call w (v_reg_dmabuf_mr h o l i fd f w).2
| vc_dereg_mr h : verb_call w (v_dereg_mr h w).2
| vc_create_comp_channel h : verb_call w (v_create_comp_channel h w).2
| vc_destroy_comp_channel h : verb_call w (v_destroy_comp_channel h w).2
| vc_create_cq h n u c v : verb_call w (v_create_cq h n u c v w).2
| vc_destroy_cq h : verb_call w (v_destroy_cq h w).2
| vc_get_cq_event c : verb_call w (v_get_cq_event c w).2
| vc_ack_cq_events h n : verb_call w (v_ack_cq_events h n w)
| vc_poll_cq h n : verb_call w (v_poll_cq h n w).2
| vc_req_notify_cq h n : verb_call w (v_req_notify_cq h n w).2
| vc_destroy_qp h : verb_call w (v_destroy_qp h w).2
| vc_modify_qp h a m : verb_call w (v_modify_qp h a m w).2
| vc_query_qp h m : verb_call w (v_query_qp h m w).2
| vc_post_recv h rs gs : verb_call w (v_post_recv h rs gs w).2
| vc_create_ah h a : verb_call w (v_create_ah h a w).2
| vc_destroy_ah h : verb_call w (v_destroy_ah h w).2
| vc_e_query_device h : verb_call w (e_query_device h w).2
| vc_e_query_ah h : verb_call w (e_query_ah h w).2
| vc_e_query_mr h : verb_call w (e_query_mr h w).2
| vc_e_query_cq h : verb_call w (e_query_cq h w).2
| vc_e_query_qp_wqs h : verb_call w (e_query_qp_wqs h w).2
| vc_e_create_cq h a f : verb_call w (e_create_cq h a f w).2
| vc_set_cq_context h r : verb_call w (set_cq_context h r w).
End Calls.

(** The manual pages of libefa, of the extended work requests (ibv_wr_post) and of
    ibv_create_cq_ex.  The first laws keep the record of the calls; the others say when
    a call is a legal one, and what it does to the objects. *)
Class LibefaLaws (W : Type) `{!Libibverbs W} `{!LibibverbsLaws W} `{!Libefa W} := {
  extended : W → Extended;
  ext_verb_call w w' : verb_call w w' → extended w' = extended w;
  ext_create_qp_ex h a b w :
    extended (e_create_qp_ex h a b w).2 =
      new_qp (e_create_qp_ex h a b w).1 (iax_send_ops_flags a) (extended w);
  ext_v_create_qp_ex h a w :
    extended (v_create_qp_ex h a w).2 =
      new_qp (v_create_qp_ex h a w).1 (iax_send_ops_flags a) (extended w);
  ext_wr_start q w :
    extended (wr_start q w) = set_batch (<[q := []]> (ex_batch (extended w))) (extended w);
  ext_wr_op q i f o w :
    extended (wr_op_call q i f o w) = add_entry q (mk_wr_entry i f o None None) (extended w);
  ext_wr_set_ud_addr q a n k w :
    extended (wr_set_ud_addr q a n k w) = change_last q (set_dest (a, n, k)) (extended w);
  ext_wr_set_data q d w :
    extended (wr_set_data q d w) = change_last q (set_data d) (extended w);
  ext_wr_abort q w : extended (wr_abort q w) = end_batch q false (extended w);
  ext_wr_complete q w :
    extended (wr_complete q w).2 = end_batch q ((wr_complete q w).1 =? 0) (extended w);
  ext_start_poll c w :
    extended (cq_start_poll c w).2 =
      if (cq_start_poll c w).1 =? 0
      then take_entry c (cq_current (cq_start_poll c w).2 c)
             (set_polling ({[c]} ∪ ex_polling (extended w)) (extended w))
      else extended w;
  ext_next_poll c w :
    extended (cq_next_poll c w).2 =
      if (cq_next_poll c w).1 =? 0
      then take_entry c (cq_current (cq_next_poll c w).2 c) (extended w) else extended w;
  ext_end_poll c w :
    extended (cq_end_poll c w) = set_polling (ex_polling (extended w) ∖ {[c]}) (extended w);
  qp_to_qp_ex w h : v_qp_to_qp_ex w h = 0 ∨ v_qp_to_qp_ex w h = h;
  law_e_query_device h w :
    intact w → alive (live w) is_context h → keeps live intact w (e_query_device h w).2;
  law_e_query_ah h w :
    intact w → alive (live w) (only KAH) h → keeps live intact w (e_query_ah h w).2;
  law_e_query_mr h w :
    intact w → alive (live w) (only KMR) h → keeps live intact w (e_query_mr h w).2;
  law_e_query_cq h w :
    intact w → alive (live w) is_cq h → keeps live intact w (e_query_cq h w).2;
  law_e_query_qp_wqs h w :
    intact w → alive (live w) is_qp h → keeps live intact w (e_query_qp_wqs h w).2;
  law_e_create_qp_ex h a b w :
    intact w → alive (live w) is_context h → alive (live w) (only KPD) (iax_pd a) →
    alive (live w) is_cq (ia_send_cq (iax_attr a)) →
    alive (live w) is_cq (ia_recv_cq (iax_attr a)) → ia_srq (iax_attr a) = 0 →
    creates live intact (KQP 0) (qp_deps (iax_pd a) (iax_attr a) 0) w (e_create_qp_ex h a b w);
  law_v_create_qp_ex h a w :
    intact w → alive (live w) is_context h → alive (live w) (only KPD) (iax_pd a) →
    alive (live w) is_cq (ia_send_cq (iax_attr a)) →
    alive (live w) is_cq (ia_recv_cq (iax_attr a)) → ia_srq (iax_attr a) = 0 →
    creates live intact (KQP 0) (qp_deps (iax_pd a) (iax_attr a) 0) w (v_create_qp_ex h a w);
  law_e_create_cq h a f w :
    intact w → alive (live w) is_context h →
    (cax_channel a = 0 ∨ alive (live w) (only KChannel) (cax_channel a)) →
    creates live intact (KCQ 0 0) (cq_deps h (cax_channel a)) w (e_create_cq h a f w);
  law_set_cq_context h r u ev d w :
    intact w → live w !! h = Some (mkN (KCQ u ev) d) →
    intact (set_cq_context h r w) ∧
    live (set_cq_context h r w) = <[h := mkN (KCQ r ev) d]> (live w);
  law_wr_start q w :
    intact w → alive (live w) is_qp q → ex_batch (extended w) !! q = None →
    keeps live intact w (wr_start q w);
  law_wr_op q i f o w l m :
    intact w → alive (live w) is_qp q → ex_batch (extended w) !! q = Some l →
    forallb complete l = true → ex_ops (extended w) !! q = Some m → installed m o →
    keeps live intact w (wr_op_call q i f o w);
  law_wr_set_ud_addr q a n k w l e :
    intact w → alive (live w) is_qp q → ex_batch (extended w) !! q = Some (l ++ [e]) →
    alive (live w) (only KAH) a → keeps live intact w (wr_set_ud_addr q a n k w);
  law_wr_set_data q d w l e :
    intact w → alive (live w) is_qp q → ex_batch (extended w) !! q = Some (l ++ [e]) →
    keeps live intact w (wr_set_data q d w);
  law_wr_abort q w l :
    intact w → alive (live w) is_qp q → ex_batch (extended w) !! q = Some l →
    keeps live intact w (wr_abort q w);
  law_wr_complete q w l :
    intact w → alive (live w) is_qp q → ex_batch (extended w) !! q = Some l →
    forallb complete l = true → keeps live intact w (wr_complete q w).2;
  law_start_poll c w :
    intact w → alive (live w) is_cq c → c ∉ ex_polling (extended w) →
    keeps live intact w (cq_start_poll c w).2;
  law_next_poll c w :
    intact w → alive (live w) is_cq c → c ∈ ex_polling (extended w) →
    keeps live intact w (cq_next_poll c w).2;
  law_end_poll c w :
    intact w → alive (live w) is_cq c → c ∈ ex_polling (extended w) →
    keeps live intact w (cq_end_poll c w);
}.
