(* ===== verification/EfaValues.v ===== *)
(** The value objects of the EFA binding, src/efa/src/efa/_efa.pyx.  [Gid], [SGE],
    [RecvWR], [Device] and the plain part of a completion have the same text as in the
    verbs binding and are those of VerbsValues; here are those that differ: [WC],
    [SendWR], [QPInitAttr], [AHAttr], [DeviceAttr] and [PortAttr]. *)

From S2P Require Import Prelude Bytes Json.
From S2P Require Import VerbsLib VerbsValues.
From S2P Require Import EfaLib.
#[local] Open Scope Z_scope.

(** * The values of the verbs binding *)

Definition efa_Gid_init (raw : bytes) : result Gid := Gid_init raw.
Definition efa_subnet_prefix (g : Gid) : Z := subnet_prefix g.
Definition efa_interface_id (g : Gid) : Z := interface_id g.
Definition efa_Gid_eq (g : Gid) (other : bytes) : bool := Gid_eq g other.
Definition efa_SGE_of_address (addr length lkey offset : Z) : result SGE :=
  SGE_of_address addr length lkey offset.
Definition efa_SGE_keepalive (owner : nat) (s : SGE) : SGE := SGE_keepalive owner s.
Definition efa_RecvWR_init (wr_id : Z) (sg_list : option (list SGE)) : result RecvWR :=
  RecvWR_init wr_id sg_list.

(** * Completions *)

(** A completion of either queue: [CQ.poll] leaves the last two fields unset. *)
Record EfaWC := mk_EfaWC { ewc : WC; ewc_sgid : option bytes; ewc_unsolicited : bool }.

Definition efa_wc_from_c (w : ibv_wc) : EfaWC := mk_EfaWC (_wc_from_c w) None false.

Definition efa_is_success (w : EfaWC) : bool := is_success (ewc w).
Definition efa_raise_for_status (w : EfaWC) : result unit := raise_for_status (ewc w).

(** * Attributes *)

Record EfaPortAttr := mk_EfaPortAttr {
  epa_state : Z; epa_max_mtu : Z; epa_active_mtu : Z; epa_gid_tbl_len : Z;
  epa_port_cap_flags : Z; epa_max_msg_sz : Z; epa_pkey_tbl_len : Z; epa_lid : Z;
  epa_active_width : Z; epa_active_speed : Z; epa_link_layer : Z;
}.
Definition efa_port_attr (a : PortAttr) : EfaPortAttr :=
  mk_EfaPortAttr (pa_state a) (max_mtu a) (active_mtu a) (gid_tbl_len a) (port_cap_flags a)
    (max_msg_sz a) (pkey_tbl_len a) (pa_lid a) (active_width a) (active_speed a) (link_layer a).

(** [eda_fw_ver] is the decoded string. *)
Record EfaGenericAttr := mk_EfaGenericAttr {
  eda_fw_ver : str; eda_node_guid : Z; eda_sys_image_guid : Z; eda_max_mr_size : Z;
  eda_vendor_id : Z; eda_vendor_part_id : Z; eda_hw_ver : Z; eda_max_qp : Z;
  eda_max_qp_wr : Z; eda_max_sge : Z; eda_max_cq : Z; eda_max_cqe : Z; eda_max_mr : Z;
  eda_max_pd : Z; eda_max_ah : Z; eda_max_pkeys : Z; eda_phys_port_cnt : Z;
}.
Definition efa_generic_attr (ver : str) (a : DeviceAttr) : EfaGenericAttr :=
  mk_EfaGenericAttr ver (node_guid a) (sys_image_guid a) (max_mr_size a) (vendor_id a)
    (vendor_part_id a) (hw_ver a) (da_max_qp a) (da_max_qp_wr a) (da_max_sge a) (da_max_cq a)
    (da_max_cqe a) (da_max_mr a) (da_max_pd a) (da_max_ah a) (da_max_pkeys a) (phys_port_cnt a).

(** * Work requests *)

(** What a destination supplies, [efa.helpers.Peer] for one. *)
Record Dest := mk_Dest { dest_ah : option nat; dest_qp : Z; dest_qkey : Z }.

Record EfaSendWR := mk_EfaSendWR {
  es_wr_id : Z; es_sg_list : list SGE; es_opcode : Z; es_send_flags : Z; es_remote_addr : Z;
  es_rkey : Z; es_imm_data : Z; es_ah : option nat; es_remote_qpn : Z; es_remote_qkey : Z;
}.

Definition EfaSendWR_init (wr_id : Z) (sg_list : option (list SGE))
    (opcode send_flags remote_addr rkey imm_data : Z) (ah : option nat)
    (remote_qpn remote_qkey : Z) (dest : option Dest) : result EfaSendWR :=
  wr_id ← to_uint 64 wr_id;
  opcode ← to_int opcode;
  send_flags ← to_uint 32 send_flags;
  remote_addr ← to_uint 64 remote_addr;
  rkey ← to_uint 32 rkey;
  imm_data ← to_uint 32 imm_data;
  let to := match dest with Some d => d | None => mk_Dest ah remote_qpn remote_qkey end in
  remote_qpn ← to_uint 32 (dest_qp to);
  remote_qkey ← to_uint 32 (dest_qkey to);
  Ok (mk_EfaSendWR wr_id (default [] sg_list) opcode send_flags remote_addr rkey imm_data
        (dest_ah to) remote_qpn remote_qkey).

(** ibv_wr_opcode *)
Definition _EWR_RDMA_WRITE : Z := 0.
Definition _EWR_RDMA_WRITE_WITH_IMM : Z := 1.
Definition _EWR_SEND : Z := 2.
Definition _EWR_SEND_WITH_IMM : Z := 3.
Definition _EWR_RDMA_READ : Z := 4.
Definition _SEND_INLINE : Z := 8.

(** The operation bit that an opcode needs, 0 for an opcode EFA does not have. *)
Definition _op_required_bit (opcode : Z) : Z :=
  if opcode =? _EWR_SEND then _OPS_SEND
  else if opcode =? _EWR_SEND_WITH_IMM then _OPS_SEND_WITH_IMM
  else if opcode =? _EWR_RDMA_READ then _OPS_RDMA_READ
  else if opcode =? _EWR_RDMA_WRITE then _OPS_RDMA_WRITE
  else if opcode =? _EWR_RDMA_WRITE_WITH_IMM then _OPS_RDMA_WRITE_WITH_IMM
  else 0.

(** The call made for an opcode. *)
Definition wr_op_of (w : EfaSendWR) : option wr_op :=
  if es_opcode w =? _EWR_SEND then Some WrSend
  else if es_opcode w =? _EWR_SEND_WITH_IMM then Some (WrSendImm (htonl (es_imm_data w)))
  else if es_opcode w =? _EWR_RDMA_READ then Some (WrRead (es_rkey w) (es_remote_addr w))
  else if es_opcode w =? _EWR_RDMA_WRITE then Some (WrWrite (es_rkey w) (es_remote_addr w))
  else if es_opcode w =? _EWR_RDMA_WRITE_WITH_IMM
  then Some (WrWriteImm (es_rkey w) (es_remote_addr w) (htonl (es_imm_data w)))
  else None.

(** * Queue-pair parameters *)

Definition _EQPT_UD : Z := 4.
Definition _QPT_DRIVER : Z := 0xFF.
Definition _QPT_SRD : Z := 0xFF.
Definition _QP_INIT_ATTR_PD : Z := 1.
Definition _QP_INIT_ATTR_SEND_OPS_FLAGS : Z := 64.

(** [ei_send_ops_flags] is [None] for the default. *)
Record EfaQPInitAttr := mk_EfaQPInitAttr {
  ei_send_cq : nat; ei_recv_cq : nat; ei_qp_type : Z; ei_max_send_wr : Z; ei_max_recv_wr : Z;
  ei_max_send_sge : Z; ei_max_recv_sge : Z; ei_max_inline_data : Z; ei_sq_sig_all : bool;
  ei_send_ops_flags : option Z; ei_sl : Z; ei_unsolicited_write_recv : bool;
}.
Definition EfaQPInitAttr_init (send_cq recv_cq : nat) (qp_type : option Z)
    (max_send_wr max_recv_wr max_send_sge max_recv_sge max_inline_data : Z) (sq_sig_all : bool)
    (send_ops_flags : option Z) (sl : Z) (unsolicited_write_recv : bool) : EfaQPInitAttr :=
  mk_EfaQPInitAttr send_cq recv_cq (default 0xFF qp_type) max_send_wr max_recv_wr max_send_sge
    max_recv_sge max_inline_data sq_sig_all send_ops_flags sl unsolicited_write_recv.

(** The operations asked for: the given mask, or those of the queue pair's type. *)
Definition send_ops (qp_type : Z) (flags : option Z) : result Z :=
  match flags with
  | Some f => to_uint 64 f
  | None =>
      Ok (let ops := Z.lor _OPS_SEND _OPS_SEND_WITH_IMM in
          if qp_type =? _QPT_SRD
          then Z.lor (Z.lor (Z.lor ops _OPS_RDMA_READ) _OPS_RDMA_WRITE) _OPS_RDMA_WRITE_WITH_IMM
          else ops)
  end.

(** The structure without its type and domain: sizes are converted to [uint32_t]. *)
Definition fill_efa_attr (scq rcq : Z) (i : EfaQPInitAttr) : result (ibv_qp_init_attr * Z) :=
  qp_type ← to_int (ei_qp_type i);
  max_send_wr ← to_uint 32 (ei_max_send_wr i);
  max_recv_wr ← to_uint 32 (ei_max_recv_wr i);
  max_send_sge ← to_uint 32 (ei_max_send_sge i);
  max_recv_sge ← to_uint 32 (ei_max_recv_sge i);
  max_inline_data ← to_uint 32 (ei_max_inline_data i);
  ops ← send_ops qp_type (ei_send_ops_flags i);
  Ok (mk_ibv_qp_init_attr scq rcq 0
        (mk_ibv_qp_cap max_send_wr max_recv_wr max_send_sge max_recv_sge max_inline_data)
        qp_type (if ei_sq_sig_all i then 1 else 0), ops).

(** * Addresses *)

Record EfaAHAttr := mk_EfaAHAttr {
  ea_dgid : bytes; ea_flow_label : Z; ea_sgid_index : Z; ea_hop_limit : Z;
  ea_traffic_class : Z; ea_is_global : Z; ea_port_num : Z;
}.

Definition EfaAHAttr_init (dgid : option bytes)
    (sgid_index port_num hop_limit traffic_class flow_label is_global : Z) : result EfaAHAttr :=
  let dgid := default (replicate 16 0) dgid in
  raise_if (negb (length dgid =? 16)%nat) ValueError;;
  sgid_index ← to_uint 8 sgid_index;
  port_num ← to_uint 8 port_num;
  hop_limit ← to_uint 8 hop_limit;
  traffic_class ← to_uint 8 traffic_class;
  flow_label ← to_uint 32 flow_label;
  is_global ← to_uint 8 is_global;
  Ok (mk_EfaAHAttr dgid flow_label sgid_index hop_limit traffic_class is_global port_num).

(** The global route is always filled. *)
Definition efa_fill_ah_attr (src : EfaAHAttr) : ibv_ah_attr :=
  mk_ibv_ah_attr (ea_dgid src) (ea_flow_label src) (ea_sgid_index src) (ea_hop_limit src)
    (ea_traffic_class src) 0 0 0 0 (ea_is_global src) (ea_port_num src).

(** What [create_ah] takes: attributes, a [Gid], or the raw bytes of one. *)
Inductive EfaAddr := AddrAttr (a : EfaAHAttr) | AddrGid (g : Gid) | AddrBytes (b : bytes).

Definition addr_attr (addr : EfaAddr) (sgid_index port_num : Z) : result EfaAHAttr :=
  match addr with
  | AddrAttr a => Ok a
  | AddrGid g => EfaAHAttr_init (Some (gid_raw g)) sgid_index port_num 1 0 0 1
  | AddrBytes b => EfaAHAttr_init (Some b) sgid_index port_num 1 0 0 1
  end.
