(* ===== verification/EfaObjects.v ===== *)
(** The objects of the EFA binding, src/efa/src/efa/_efa.pyx: loading, [Device],
    [Context], [PD], [MR], [CompChannel], [CQ], [CQEx], [QP] and [AH].

    The state [Efa] holds the heap and the world of VerbsObjects, and what the classes of
    EFA add to an object: [CQEx] its extended view and the two metadata flags, [QP] its
    extended view, type and operations.  A [CQ] of the heap is a [_CQBase], whose
    handle is [_ptr()] ([ibv_cq_ex_to_cq] is a cast), and a [CQEx] if it has an entry in
    [ef_cqx].  A method whose text is that of the verbs binding is that method ([EfaError]
    is [VerbsError]); one that differs is written out. *)

From S2P Require Import Prelude Bytes Json.
From S2P Require Import VerbsLib VerbsValues VerbsPost.
From S2P Require Import VerbsObjects.
From S2P Require Import EfaLib EfaValues.
#[local] Open Scope Z_scope.

(** * State *)

Record CQExPart := mk_CQExPart { cqx_ecq : Z; cqx_sgid : bool; cqx_unsolicited : bool }.
Record QPPart := mk_QPPart { qpp_qpx : Z; qpp_type : Z; qpp_send_ops_flags : Z }.

Record Efa (W : Type) := mk_Efa {
  ef_b : Binding W;
  ef_cqx : gmap nat CQExPart;
  ef_qpx : gmap nat QPPart;
  ef_libefa_handle : Z;
}.
Arguments mk_Efa {W}.
Arguments ef_b {W}.
Arguments ef_cqx {W}.
Arguments ef_qpx {W}.
Arguments ef_libefa_handle {W}.

Section Efa.
Context {W : Type} `{!Libibverbs W} `{!Libefa W}.
Abbreviation B := (Binding W).
Abbreviation E := (Efa W).

Definition set_b (b : B) (s : E) : E := mk_Efa b (ef_cqx s) (ef_qpx s) (ef_libefa_handle s).
Definition set_cqx (m : gmap nat CQExPart) (s : E) : E :=
  mk_Efa (ef_b s) m (ef_qpx s) (ef_libefa_handle s).
Definition set_qpx (m : gmap nat QPPart) (s : E) : E :=
  mk_Efa (ef_b s) (ef_cqx s) m (ef_libefa_handle s).
Definition set_libefa (h : Z) (s : E) : E := mk_Efa (ef_b s) (ef_cqx s) (ef_qpx s) h.

(** A computation on the heap and the world. *)
Definition vb {A} (m : M B A) : M E A := λ s,
  let '(r, b) := m (ef_b s) in (r, set_b b s).

(** * Loading *)

Definition _dl (soname : string) : M B Z :=
  h ← native (dl_open soname);
  guard_raise (h =? 0) ImportError;;
  mret h.
(** A symbol that may be missing. *)
Definition opt_sym (h : Z) (name : string) : M B unit :=
  p ← peek (λ w, dl_sym w h name); set_sym name p.

Definition efa_verbs_symbols : list string :=
  ["ibv_get_device_list"; "ibv_free_device_list"; "ibv_get_device_name"; "ibv_get_device_guid";
   "ibv_open_device"; "ibv_close_device"; "ibv_query_device"; "ibv_query_port"; "ibv_query_gid";
   "ibv_alloc_pd"; "ibv_dealloc_pd"; "ibv_reg_mr_iova2"; "ibv_dereg_mr";
   "ibv_create_comp_channel"; "ibv_destroy_comp_channel"; "ibv_create_cq"; "ibv_destroy_cq";
   "ibv_get_cq_event"; "ibv_ack_cq_events"; "ibv_destroy_qp"; "ibv_modify_qp"; "ibv_query_qp";
   "ibv_qp_to_qp_ex"; "ibv_create_ah"; "ibv_destroy_ah"; "ibv_get_async_event";
   "ibv_ack_async_event"; "ibv_event_type_str"; "ibv_wc_status_str"]%string.
Definition efa_symbols : list string :=
  ["efadv_query_device"; "efadv_query_ah"; "efadv_create_qp_ex"; "efadv_create_cq";
   "efadv_cq_from_ibv_cq_ex"]%string.
Definition efa_optional : list string :=
  ["efadv_query_mr"; "efadv_query_cq"; "efadv_query_qp_wqs"]%string.

Definition _load_libraries : M E unit :=
  hv ← vb (_dl "libibverbs.so.1");
  vb (modify (set_libhandle hv));;
  vb (for_each (load_sym hv) efa_verbs_symbols);;
  vb (opt_sym hv "ibv_reg_dmabuf_mr");;
  he ← vb (_dl "libefa.so.1");
  modify (set_libefa he);;
  vb (for_each (load_sym he) efa_symbols);;
  vb (for_each (opt_sym he) efa_optional).

Definition efa_linked : M E bool :=
  s ← get; mret (negb (b_libhandle (ef_b s) =? 0) && negb (ef_libefa_handle s =? 0)).
Definition efa_has_dmabuf : M E bool := vb _has_dmabuf.

(** * Devices and contexts *)

Definition efa_open (self : Device) : M B nat := Device_open self.
Definition efa_device_list : M B (list Device) := get_device_list.

Definition is_efa (self : nat) : M B bool :=
  o ← load self;
  ctx_ensure o;;
  '(rc, _) ← native (e_query_device (ctx_ctx o));
  mret (rc =? 0).

Definition efa_context_close (self : nat) : M B unit :=
  o ← load self;
  if ctx_ctx o =? 0 then mret tt else
  guard_raise (negb (ctx_children o =? 0)) (VerbsError EBUSY);;
  rc ← native (v_close_device (ctx_ctx o));
  (if negb (rc =? 0) then _fail else mret tt);;
  update self (set_ctx 0).

Definition efa_context_dealloc (self : nat) : M B unit :=
  o ← load self;
  if negb (ctx_ctx o =? 0) && (ctx_children o =? 0) then
    native (v_close_device (ctx_ctx o));; update self (set_ctx 0)
  else mret tt.

(** One device of the list: [None] when it cannot be opened or is no EFA device. *)
Definition probe (dev : Device) : M B bool :=
  c ← try_except (c ← efa_open dev; mret (Some c))
        (λ e, match e with VerbsError _ => mret None | _ => raise e end);
  match c with
  | None => mret false
  | Some ctx => try_finally (is_efa ctx) (efa_context_close ctx)
  end.
Fixpoint probe_all (devs : list Device) : M B (list Device) :=
  match devs with
  | [] => mret []
  | dev :: rest => b ← probe dev; out ← probe_all rest; mret (if b : bool then dev :: out else out)
  end.
Definition get_efa_device_list : M B (list Device) := devs ← efa_device_list; probe_all devs.

Definition efa_num_comp_vectors (self : nat) : M B Z := num_comp_vectors self.
Definition efa_async_fd (self : nat) : M B Z := async_fd self.

Definition efa_query_device_attr (self : nat) : M B EfaGenericAttr :=
  '(ver, a) ← query_device self; mret (efa_generic_attr ver a).

Definition query_efa_device (self : nat) : M B EfaDeviceAttr :=
  o ← load self;
  ctx_ensure o;;
  '(rc, a) ← native (e_query_device (ctx_ctx o));
  check_rc rc;;
  mret a.

Definition efa_query_port (self : nat) (port : Z) : M B EfaPortAttr :=
  a ← query_port self port; mret (efa_port_attr a).
Definition efa_query_gid (self : nat) (port index : Z) : M B Gid := query_gid self port index.
Definition efa_alloc_pd (self : nat) : M B nat := alloc_pd self.
Definition efa_create_comp_channel (self : nat) : M B nat := create_comp_channel self.
Definition efa_create_cq (self : nat) (cqe : Z) (channel : option nat) (comp_vector : Z) : M B nat :=
  create_cq self cqe channel comp_vector.
Definition efa_get_async_event (self : nat) : M B nat := get_async_event self.
Definition efa_ack_async_event (self ev : nat) : M B unit := ack_async_event self ev.

(** [efadv_create_cq] with the metadata asked for, and the object of the new queue,
    whose address the queue keeps. *)
Definition cq_ex_flags (sgid unsolicited : bool) : Z :=
  Z.lor (if sgid then 1 else 0) (if unsolicited then 2 else 0).
Definition new_cq_ex (self : nat) (cqe : Z) (channel : option nat) (comp_vector : Z)
    (wc_flags : option Z) (f : Z) : M B (nat * Z) :=
  cqe ← c_int cqe;
  comp_vector ← c_int comp_vector;
  o ← load self;
  ctx_ensure o;;
  guard_raise (cqe <=? 0) ValueError;;
  n ← peek (λ w, v_num_comp_vectors w (ctx_ctx o));
  guard_raise ((comp_vector <? 0) || (n <=? comp_vector)) ValueError;;
  chp ← cq_channel_handle self channel;
  wcf ← c_uint 64 (default 0x7F wc_flags);
  h ← native (e_create_cq (ctx_ctx o) (mk_ibv_cq_init_attr_ex cqe chp comp_vector wcf) f);
  check_null h;;
  s ← get;
  let r := fresh_ref (b_heap s) in
  native_ (set_cq_context h r);;
  r ← new (mk_CQ h self channel 0 false 0);
  mret (r, h).
Definition create_cq_ex (self : nat) (cqe : Z) (channel : option nat) (comp_vector : Z)
    (wc_flags : option Z) (sgid unsolicited : bool) : M E nat :=
  let f := cq_ex_flags sgid unsolicited in
  '(r, h) ← vb (new_cq_ex self cqe channel comp_vector wc_flags f);
  ecq ← vb (if f =? 0 then mret 0 else peek (λ w, e_cq_from_cq_ex w h));
  modify (λ s, set_cqx (<[r := mk_CQExPart ecq sgid unsolicited]> (ef_cqx s)) s);;
  vb (_add_child self);;
  mret r.

(** * Protection domains and memory regions *)

Definition efa_reg_mr (self : nat) (addr length access : Z) : M B nat :=
  reg_mr self addr length access.
Definition efa_reg_dmabuf_mr (self : nat) (offset length iova fd access : Z) : M B nat :=
  reg_dmabuf_mr self offset length iova fd access.
Definition efa_pd_close (self : nat) : M B unit := PD_close self.
Definition efa_pd_dealloc (self : nat) : M B unit := PD_dealloc self.

(** The attribute of the region that is asked for: [addr], [length], [lkey], [rkey], [handle]. *)
Definition efa_mr_field (f : W → Z → Z) (self : nat) : M B Z := mr_field f self.
Definition efa_mr_closed (self : nat) : M B bool := MR_closed self.
Definition efa_SGE_mr (mr : nat) (length lkey offset : Z) : M B SGE := SGE_mr mr length lkey offset.
Definition efa_mr_sge (self : nat) (length : option Z) (offset : Z) : M B SGE :=
  MR_sge self length offset.
Definition efa_mr_keepalive (self owner : nat) : M B unit := MR_keepalive self owner.
Definition efa_mr_close (self : nat) : M B unit := MR_close self.
Definition efa_mr_dealloc (self : nat) : M B unit := MR_dealloc self.

(** [if _e_... is NULL: raise RuntimeError] *)
Definition need_symbol (name : string) : M B unit :=
  s ← get; guard_raise (default 0 (b_syms s !! name) =? 0) RuntimeError.

Definition MR_query_efa (self : nat) : M B MRAttr :=
  o ← load self;
  mr_ensure o;;
  need_symbol "efadv_query_mr";;
  '(rc, a) ← native (e_query_mr (mr_mr o));
  check_rc rc;;
  mret a.

Definition efa_create_ah (self : nat) (addr : EfaAddr) (sgid_index port_num : Z) : M B nat :=
  sgid_index ← c_int sgid_index;
  port_num ← c_int port_num;
  o ← load self;
  pd_ensure o;;
  attr ← lift (addr_attr addr sgid_index port_num);
  ah ← native (v_create_ah (pd_pd o) (efa_fill_ah_attr attr));
  check_null ah;;
  new (mk_AH ah self).

(** * Completion channels and queues *)

Definition efa_chan_fd (self : nat) : M B Z := CompChannel_fd self.
Definition efa_get_cq_event (self : nat) : M B nat := get_cq_event self.
Definition efa_chan_close (self : nat) : M B unit := CompChannel_close self.
Definition efa_chan_dealloc (self : nat) : M B unit := CompChannel_dealloc self.

Definition efa_cqe (self : nat) : M B Z := CQ_cqe self.

Definition efa_req_notify (self : nat) (solicited_only : bool) : M B unit :=
  o ← load self;
  cq_ensure o;;
  rc ← native (v_req_notify_cq (cq_cq o) (if solicited_only then 1 else 0));
  check_rc rc.

Definition efa_ack_events (self : nat) (nevents : Z) : M B unit := ack_events self nevents.

Definition _query_efa_cq (cq : Z) : M B CQAttr :=
  need_symbol "efadv_query_cq";;
  '(rc, a) ← native (e_query_cq cq);
  check_rc rc;;
  mret a.
Definition CQ_query_efa (self : nat) : M B CQAttr :=
  o ← load self; cq_ensure o;; _query_efa_cq (cq_cq o).

Definition CQ_poll (self : nat) (num_entries : Z) : M B (list EfaWC) :=
  num_entries ← c_int num_entries;
  o ← load self;
  cq_ensure o;;
  guard_raise (num_entries <=? 0) ValueError;;
  '(n, wcs) ← native (v_poll_cq (cq_cq o) num_entries);
  errno ← peek c_errno;
  guard_raise (n <? 0) (VerbsError
    (if n <? -1 then - n else if negb (errno =? 0) then errno else EIO));;
  mret (efa_wc_from_c <$> take (Z.to_nat n) wcs).

Definition efa_cq_close (self : nat) : M B unit :=
  o ← load self;
  if cq_cq o =? 0 then mret tt else
  ack_all self;;
  rc ← native (v_destroy_cq (cq_cq o));
  check_rc rc;;
  update self (set_cq 0);;
  _release_child (cq_context o).
Definition efa_cq_dealloc (self : nat) : M B unit := CQ_dealloc self.

(** ** The extended queue *)

(** What a [CQEx] makes of the entry it is at. *)
Definition WC_of_cqe (x : CQExPart) (v : cqe_view) : EfaWC :=
  let meta := negb (cqx_ecq x =? 0) in
  mk_EfaWC (_wc_from_c (cv_wc v)) (if meta && cqx_sgid x then cv_sgid v else None)
    (meta && cqx_unsolicited x && cv_unsolicited v).

(** Each round adds an entry to [out], so [num_entries] rounds are enough. *)
Fixpoint poll_loop (fuel : nat) (cqx : Z) (x : CQExPart) (num_entries : Z) (out : list EfaWC) :
    M B (list EfaWC) :=
  match fuel with
  | O => mret out
  | S fuel =>
      v ← peek (λ w, cq_current w cqx);
      let out := out ++ [WC_of_cqe x v] in
      if num_entries <=? Z.of_nat (length out) then mret out else
      rc ← native (cq_next_poll cqx);
      if rc =? ENOENT then mret out else
      check_rc rc;;
      poll_loop fuel cqx x num_entries out
  end.
Definition poll_ex (cqx : Z) (x : CQExPart) (num_entries : Z) : M B (list EfaWC) :=
  rc ← native (cq_start_poll cqx);
  if rc =? ENOENT then mret [] else
  check_rc rc;;
  try_finally (poll_loop (Z.to_nat num_entries) cqx x num_entries []) (native_ (cq_end_poll cqx)).

(** The attributes that EFA adds to an object. *)
Definition cqx_of (r : nat) : M E CQExPart :=
  s ← get; match ef_cqx s !! r with Some x => mret x | None => raise TypeError end.
Definition qpx_of (r : nat) : M E QPPart :=
  s ← get; match ef_qpx s !! r with Some x => mret x | None => raise TypeError end.

Definition sgid_enabled (self : nat) : M E bool := x ← cqx_of self; mret (cqx_sgid x).
Definition unsolicited_enabled (self : nat) : M E bool := x ← cqx_of self; mret (cqx_unsolicited x).

Definition CQEx_poll (self : nat) (num_entries : Z) : M E (list EfaWC) :=
  num_entries ← vb (c_int num_entries);
  x ← cqx_of self;
  o ← vb (load (O := CQ) self);
  vb (cq_ensure o);;
  vb (guard_raise (num_entries <=? 0) ValueError);;
  vb (poll_ex (cq_cq o) x num_entries).

Definition CQEx_query_efa (self : nat) : M B CQAttr :=
  o ← load self; cq_ensure o;; _query_efa_cq (cq_cq o).

(** [close] and [__dealloc__] have the text of [CQ]'s, and clear the extended view with the
    handle. *)
Definition drop_ecq (self : nat) : M E unit :=
  modify (λ s, set_cqx (alter (λ x, mk_CQExPart 0 (cqx_sgid x) (cqx_unsolicited x)) self (ef_cqx s)) s).
Definition CQEx_close (self : nat) : M E unit :=
  o ← vb (load (O := CQ) self);
  if cq_cq o =? 0 then mret tt else
  vb (efa_cq_close self);;
  drop_ecq self.
Definition CQEx_dealloc (self : nat) : M E unit :=
  o ← vb (load (O := CQ) self);
  if cq_cq o =? 0 then mret tt else
  vb (efa_cq_dealloc self);;
  drop_ecq self.

(** * Queue pairs *)

(** [_cq_ptr(obj)]: of a [CQ] or [CQEx], open. *)
Definition _cq_ptr (r : nat) : M B CQ := o ← load r; cq_ensure o;; mret o.

Definition efa_create_native (ctx pd : Z) (attr : ibv_qp_init_attr) (ops : Z) (i : EfaQPInitAttr) :
    M B Z :=
  let mask := Z.lor _QP_INIT_ATTR_PD _QP_INIT_ATTR_SEND_OPS_FLAGS in
  let typed ty := mk_ibv_qp_init_attr (ia_send_cq attr) (ia_recv_cq attr) (ia_srq attr)
                    (ia_cap attr) ty (ia_sq_sig_all attr) in
  if ia_qp_type attr =? _QPT_SRD then
    sl ← c_uint 8 (ei_sl i);
    qp ← native (e_create_qp_ex ctx (mk_ibv_qp_init_attr_ex (typed _QPT_DRIVER) pd mask ops)
           (mk_efadv_qp_init_attr 0 sl (if ei_unsolicited_write_recv i then 1 else 0)));
    check_null qp;;
    mret qp
  else if ia_qp_type attr =? _EQPT_UD then
    qp ← native (v_create_qp_ex ctx (mk_ibv_qp_init_attr_ex (typed _EQPT_UD) pd mask ops));
    check_null qp;;
    mret qp
  else raise ValueError.

(** The native queue pair of [init_attr], with its type and operations.  For UD the default
    operations are those [send_ops] gives. *)
Definition efa_new_qp (self : nat) (i : EfaQPInitAttr) : M B (Z * Z * Z) :=
  o ← load self;
  pd_ensure o;;
  scq ← _cq_ptr (ei_send_cq i);
  rcq ← _cq_ptr (ei_recv_cq i);
  guard_raise (negb (cq_context scq =? pd_context o)%nat || negb (cq_context rcq =? pd_context o)%nat)
    ValueError;;
  '(attr, ops) ← lift (fill_efa_attr (cq_cq scq) (cq_cq rcq) i);
  ctx ← load (pd_context o);
  qp ← efa_create_native (ctx_ctx ctx) (pd_pd o) attr ops i;
  mret (qp, ia_qp_type attr, ops).

(** [QP._wrap]: a queue pair without an extended view is destroyed again. *)
Definition efa_qp_wrap (qp : Z) (pd scq rcq : nat) : M B (nat * Z) :=
  qpx ← peek (λ w, v_qp_to_qp_ex w qp);
  if qpx =? 0 then native (v_destroy_qp qp);; _fail else
  r ← QP_wrap qp pd scq rcq None;
  mret (r, qpx).

Definition efa_create_qp (self : nat) (i : EfaQPInitAttr) : M E nat :=
  '((qp, ty), ops) ← vb (efa_new_qp self i);
  '(r, qpx) ← vb (efa_qp_wrap qp self (ei_send_cq i) (ei_recv_cq i));
  modify (λ s, set_qpx (<[r := mk_QPPart qpx ty ops]> (ef_qpx s)) s);;
  mret r.

Definition efa_qp_num (self : nat) : M B Z := QP_qp_num self.
Definition efa_state (self : nat) : M B Z := QP_state self.

(** STATE, PKEY_INDEX, PORT, QKEY, RNR_RETRY, SQ_PSN and CAP. *)
Definition efa_query (self : nat) : M B (list (qp_field * Z) * ibv_qp_cap) :=
  o ← load self;
  qp_ensure o;;
  '(rc, (a, cap)) ← native (v_query_qp (qp_qp o) 0x90871);
  check_rc rc;;
  mret ([(Fqp_state, qp_state a); (Fqkey, qkey a); (Fsq_psn, sq_psn a); (Fport_num, port_num a);
         (Fpkey_index, pkey_index a); (Frnr_retry, rnr_retry a)], cap).

Definition efa_fields : list qp_field :=
  [Fqp_state; Fcur_qp_state; Fqkey; Frq_psn; Fsq_psn; Fpkey_index; Fport_num; Frnr_retry].
Definition efa_modify_attr (fields : list (qp_field * Z)) : result ibv_qp_attr :=
  st ← field_value to_int fields Fqp_state;
  cur ← field_value to_int fields Fcur_qp_state;
  qk ← field_value (to_uint 32) fields Fqkey;
  rpsn ← field_value (to_uint 32) fields Frq_psn;
  spsn ← field_value (to_uint 32) fields Fsq_psn;
  pkey ← field_value (to_uint 16) fields Fpkey_index;
  port ← field_value (to_uint 8) fields Fport_num;
  rnr ← field_value (to_uint 8) fields Frnr_retry;
  Ok (mk_ibv_qp_attr st cur 0 qk rpsn spsn 0 0 ah_attr_zero pkey 0 0 0 port 0 0 rnr).

(** [known] is whether every keyword is one of [qp_field]. *)
Definition efa_modify (self : nat) (attr_mask : Z) (known : bool) (fields : list (qp_field * Z)) :
    M B unit :=
  attr_mask ← c_int attr_mask;
  o ← load self;
  qp_ensure o;;
  guard_raise (negb (known && forallb (λ p, bool_decide (p.1 ∈ efa_fields)) fields)) TypeError;;
  a ← lift (efa_modify_attr fields);
  rc ← native (v_modify_qp (qp_qp o) a attr_mask);
  check_rc rc.

Definition efa_to_init (self : nat) (qk port pkey : Z) : M B unit :=
  port ← c_int port;
  pkey ← c_int pkey;
  o ← load self;
  qp_ensure o;;
  qk ← c_uint 32 qk;
  rc ← native (v_modify_qp (qp_qp o)
         (mk_ibv_qp_attr _QPS_INIT 0 0 qk 0 0 0 0 ah_attr_zero (u16 pkey) 0 0 0 (u8 port) 0 0 0)
         (mask_of [_QP_STATE; _QP_PKEY_INDEX; _QP_PORT; _QP_QKEY]));
  check_rc rc.

Definition efa_to_rtr (self : nat) : M B unit :=
  o ← load self;
  qp_ensure o;;
  rc ← native (v_modify_qp (qp_qp o)
         (mk_ibv_qp_attr _QPS_RTR 0 0 0 0 0 0 0 ah_attr_zero 0 0 0 0 0 0 0 0) _QP_STATE);
  check_rc rc.

Definition efa_to_rts (self : nat) (psn : Z) (rnr : option Z) : M B unit :=
  o ← load self;
  qp_ensure o;;
  psn ← c_uint 32 psn;
  r ← match rnr with None => mret 0 | Some v => c_uint 8 v end;
  let mask := Z.lor _QP_STATE _QP_SQ_PSN in
  rc ← native (v_modify_qp (qp_qp o)
         (mk_ibv_qp_attr _QPS_RTS 0 0 0 0 psn 0 0 ah_attr_zero 0 0 0 0 0 0 0 r)
         (if bool_decide (is_Some rnr) then Z.lor mask _QP_RNR_RETRY else mask));
  check_rc rc.

Definition prepare (self : nat) (qk port psn : Z) (rnr : option Z) : M B unit :=
  port ← c_int port;
  efa_to_init self qk port 0;;
  efa_to_rtr self;;
  efa_to_rts self psn rnr.

(** ** Posting *)

Definition ah_ensure (o : AH) : M B unit := ensure (ah_ah o).

(** The arrays [bufs] and [sges] of 64 entries, written from the front. *)
Fixpoint fill_at {A} (i : nat) (l arr : list A) : list A :=
  match l with [] => arr | x :: l => fill_at (S i) l (<[i := x]> arr) end.

(** One work request of the batch; the binding casts the handle to [AH] unchecked, so the
    exception for another object stands for undefined behaviour. *)
Definition post_one (qpx allowed_ops : Z) (w : EfaSendWR) (bufs : list (Z * Z)) (sges : list ibv_sge) :
    M B (list (Z * Z) * list ibv_sge) :=
  match es_ah w with
  | None => raise ValueError
  | Some r =>
      ah ← load r;
      ah_ensure ah;;
      let nsge := length (es_sg_list w) in
      guard_raise (64 <? nsge)%nat ValueError;;
      let need := _op_required_bit (es_opcode w) in
      guard_raise (need =? 0) ValueError;;
      guard_raise (Z.land allowed_ops need =? 0) ValueError;;
      match wr_op_of w with
      | None => raise ValueError
      | Some op =>
          native_ (wr_op_call qpx (es_wr_id w) (es_send_flags w) op);;
          native_ (wr_set_ud_addr qpx (ah_ah ah) (es_remote_qpn w) (es_remote_qkey w));;
          if negb (Z.land (es_send_flags w) _SEND_INLINE =? 0) then
            let bufs := fill_at 0 ((λ s, (sge_addr s, sge_length s)) <$> es_sg_list w) bufs in
            native_ (wr_set_data qpx (WrInline (take nsge bufs)));;
            mret (bufs, sges)
          else
            let sges := fill_at 0 (c_sge <$> es_sg_list w) sges in
            native_ (wr_set_data qpx (WrSges (take nsge sges)));;
            mret (bufs, sges)
      end
  end.
Fixpoint post_each (qpx allowed_ops : Z) (wrs : list EfaSendWR) (bufs : list (Z * Z))
    (sges : list ibv_sge) : M B unit :=
  match wrs with
  | [] => mret tt
  | w :: rest =>
      '(bufs, sges) ← post_one qpx allowed_ops w bufs sges;
      post_each qpx allowed_ops rest bufs sges
  end.

(** The contents of the new arrays are never read. *)
Definition _post_send_ex (qpx : Z) (wrs : list EfaSendWR) (allowed_ops : Z) : M B unit :=
  if (length wrs =? 0)%nat then mret tt else
  native_ (wr_start qpx);;
  try_except (post_each qpx allowed_ops wrs (replicate 64 (0, 0)) (replicate 64 sge_zero))
    (λ e, native_ (wr_abort qpx);; raise e);;
  rc ← native (wr_complete qpx);
  guard_raise (negb (rc =? 0)) (VerbsError rc).

Definition efa_post_send (self : nat) (wrs : list EfaSendWR) : M E unit :=
  o ← vb (load (O := QP) self);
  vb (qp_ensure o);;
  x ← qpx_of self;
  vb (_post_send_ex (qpp_qpx x) wrs (qpp_send_ops_flags x)).

Definition efa_post_recv_qp (qp : Z) (wrs : list RecvWR) : M B unit :=
  if (length wrs =? 0)%nat then mret tt else
  let c := recv_chain wrs in
  rc ← native (v_post_recv qp c.1 c.2);
  guard_raise (negb (rc =? 0)) (VerbsError rc).
Definition efa_post_recv (self : nat) (wrs : list RecvWR) : M B unit :=
  o ← load self;
  qp_ensure o;;
  efa_post_recv_qp (qp_qp o) wrs.

Definition query_wqs (self : nat) : M B (WQAttr * WQAttr) :=
  o ← load self;
  qp_ensure o;;
  need_symbol "efadv_query_qp_wqs";;
  '(rc, a) ← native (e_query_qp_wqs (qp_qp o));
  check_rc rc;;
  mret a.

(** The extended view goes with the queue pair. *)
Definition drop_qpx (self : nat) : M E unit :=
  modify (λ s, set_qpx (alter (λ x, mk_QPPart 0 (qpp_type x) (qpp_send_ops_flags x)) self (ef_qpx s)) s).
Definition qp_destroy (self : nat) : M B unit :=
  o ← load self;
  if qp_qp o =? 0 then mret tt else
  rc ← native (v_destroy_qp (qp_qp o));
  check_rc rc;;
  update self (set_qp 0).
Definition efa_qp_close (self : nat) : M E unit :=
  o ← vb (load (O := QP) self);
  if qp_qp o =? 0 then mret tt else vb (qp_destroy self);; drop_qpx self.
Definition qp_drop (self : nat) : M B unit :=
  o ← load self;
  if qp_qp o =? 0 then mret tt else native (v_destroy_qp (qp_qp o));; update self (set_qp 0).
Definition efa_qp_dealloc (self : nat) : M E unit :=
  o ← vb (load (O := QP) self);
  if qp_qp o =? 0 then mret tt else vb (qp_drop self);; drop_qpx self.

(** * Address handles *)

Definition ahn (self : nat) : M B Z :=
  o ← load self;
  ah_ensure o;;
  '(rc, n) ← native (e_query_ah (ah_ah o));
  check_rc rc;;
  mret n.
Definition efa_ah_close (self : nat) : M B unit := AH_close self.
Definition efa_ah_dealloc (self : nat) : M B unit := AH_dealloc self.

(** * Collection *)

Definition efa_dealloc (r : nat) (x : PyObj) : M E unit :=
  s ← get;
  match x with
  | OContext _ => vb (efa_context_dealloc r)
  | OPD _ => vb (efa_pd_dealloc r)
  | OMR _ => vb (efa_mr_dealloc r)
  | OCompChannel _ => vb (efa_chan_dealloc r)
  | OCQ _ => if bool_decide (is_Some (ef_cqx s !! r)) then CQEx_dealloc r else vb (efa_cq_dealloc r)
  | OQP _ => efa_qp_dealloc r
  | OAH _ => vb (efa_ah_dealloc r)
  | _ => mret tt
  end.
Definition efa_collect (r : nat) : M E unit :=
  s ← get;
  match b_heap (ef_b s) !! r with
  | Some x =>
      if referenced (b_heap (ef_b s)) r then mret tt else
      efa_dealloc r x;;
      vb (modify (λ s, set_heap (delete r (b_heap s)) s));;
      modify (λ s, set_cqx (delete r (ef_cqx s)) (set_qpx (delete r (ef_qpx s)) s))
  | None => mret tt
  end.
End Efa.
