(* ===== verification/EfaSafety.v ===== *)
(** Memory safety of the EFA binding: the invariant of the verbs binding, carried over to
    the state of EfaObjects, with what the extended calls need.

    [EInv] says that the heap and the library satisfy [Inv] of VerbsMethods, that no
    object has what only the verbs binding has (borrowed contexts, endpoints, an external
    data path), that every open queue pair is kept with the extended view and the
    operations it was created with, and that no batch is being built and no poll is in
    progress between two calls. *)

From S2P Require Import Prelude Bytes Json.
From S2P Require Import VerbsLib VerbsValues VerbsPost.
From S2P Require Import VerbsObjects VerbsSafety VerbsMethods.
From S2P Require Import VerbsInvariant VerbsAlong VerbsRuns.
From S2P Require Import EfaLib EfaValues EfaObjects.
#[local] Open Scope Z_scope.

(** * Objects of EFA *)

Definition plain (x : PyObj) : Prop :=
  match x with
  | OContext o => ctx_owned o = true
  | OCQ o => cq_external_datapath o = false ∧ cq_external_users o = 0
  | OQP o => qp_cm_id o = 0 ∧ qp_external_datapath o = false ∧ qp_external_users o = 0
  | OSRQ _ | OCMID _ => False
  | _ => True
  end.
Definition open_qp (x : PyObj) (h : Z) : Prop := ∃ q, x = OQP q ∧ qp_qp q = h ∧ h ≠ 0.

(** What a method does to an object that stays: it stays plain, and an open queue pair
    was one already. *)
Definition settled (x x' : PyObj) : Prop :=
  (plain x → plain x') ∧ (∀ h, open_qp x' h → open_qp x h).

(** ... and to the heap: every object stays, a new one is plain and no queue pair. *)
Record evolves {W} (s t : Binding W) : Prop := {
  ev_old r x : b_heap s !! r = Some x → ∃ x', b_heap t !! r = Some x' ∧ settled x x';
  ev_new r x : b_heap t !! r = Some x → b_heap s !! r = None → plain x ∧ ∀ h, ¬ open_qp x h;
}.

Lemma settled_refl x : settled x x.
Proof. by split. Qed.

Lemma evolves_same {W} (s t : Binding W) : b_heap t = b_heap s → evolves s t.
Proof.
  intros H. split; rewrite H; [|congruence]. intros r x Hx. exists x. split; [done|apply settled_refl].
Qed.

#[global] Instance evolves_preorder W : PreOrder (@evolves W).
Proof.
  split; [intros s; by apply evolves_same|]. intros s t u [O1 N1] [O2 N2]. split.
  - intros r x Hx. destruct (O1 _ _ Hx) as (y & Hy & A1 & B1). destruct (O2 _ _ Hy) as (z & Hz & A2 & B2).
    exists z. split; [done|]. split; auto.
  - intros r z Hz Hs. destruct (b_heap t !! r) as [y|] eqn:Hy; [|by apply (N2 r)].
    destruct (N1 _ _ Hy Hs) as [Hp Ho]. destruct (O2 _ _ Hy) as (z' & Hz' & A & B).
    rewrite Hz' in Hz. injection Hz as <-. split; [auto|]. intros h Hh. by apply (Ho h), B.
Qed.

#[global] Instance evolves_rel W : HeapRel (@evolves W).
Proof.
  refine {| hr_sim := settled |}; [apply evolves_same|].
  intros s r x x' Hr Hs. split; cbn.
  - intros k y Hy. destruct (decide (r = k)) as [<-|Hne].
    + exists x'. rewrite lookup_insert_eq. split; [done|congruence].
    + exists y. rewrite lookup_insert_ne by done. split; [done|apply settled_refl].
  - intros k y Hy Hk. rewrite lookup_insert_ne in Hy by congruence. congruence.
Defined.

Lemma evolves_new {W O} `{!PyClass O} (o : O) :
  plain (to_obj o) → (∀ h, ¬ open_qp (to_obj o) h) → along (@evolves W) (new o).
Proof.
  intros Hp Ho s. cbn. pose proof (fresh_ref_new (b_heap s)) as Hf. split; cbn.
  - intros k y Hy. exists y. rewrite lookup_insert_ne by congruence. split; [done|apply settled_refl].
  - intros k y Hy Hk. apply lookup_insert_Some in Hy as [[_ <-]|[_ Hy]]; [done|congruence].
Qed.

#[export] Hint Extern 1 (along evolves (new _)) =>
  apply evolves_new; [done|by intros ? (? & ? & _)] : along.

(** * Calls that keep the record of the extended calls *)

Section Quiet.
Context {W : Type} `{!Libibverbs W} `{!LibibverbsLaws W} `{!Libefa W} `{!LibefaLaws W}.
Abbreviation B := (Binding W).
Abbreviation E := (Efa W).
Implicit Types (s : B) (w : W).

Definition unseen s t : Prop := extended (b_world t) = extended (b_world s).
#[global] Instance unseen_preorder : PreOrder unseen.
Proof. split; unfold unseen; [done|congruence]. Qed.

Lemma unseen_native {A} (f : W → A * W) : (∀ w, verb_call w (f w).2) → along unseen (native f).
Proof.
  intros Hf s. unfold native, unseen. pose proof (ext_verb_call _ _ (Hf (b_world s))) as H.
  by destruct (f (b_world s)).
Qed.
Lemma unseen_native_ (f : W → W) : (∀ w, verb_call w (f w)) → along unseen (native_ f).
Proof. intros Hf. by apply unseen_native. Qed.
Lemma unseen_peek {A} (f : W → A) : along unseen (peek f).
Proof. done. Qed.
Lemma unseen_load {O} `{!PyClass O} r : along unseen (load (O := O) r).
Proof. intros s. unfold load. by destruct (_ ≫= _). Qed.
Lemma unseen_modify (f : B → B) : (∀ s, b_world (f s) = b_world s) → along unseen (modify f).
Proof. intros Hf s. unfold unseen. cbn. by rewrite Hf. Qed.
Lemma unseen_new {O} `{!PyClass O} (o : O) : along unseen (new o).
Proof. done. Qed.
Lemma unseen_store {O} `{!PyClass O} r (o : O) : along unseen (store r o).
Proof. done. Qed.
Lemma unseen_update {O} `{!PyClass O} r (f : O → O) : along unseen (update r f).
Proof. unfold update. apply along_bind; [apply _|apply unseen_load|]. intros o. apply unseen_store. Qed.
Lemma unseen_fail {A} : along unseen (_fail (A := A)).
Proof. done. Qed.
Lemma unseen_fail_rc {A} rc : along unseen (_fail_rc (A := A) rc).
Proof. done. Qed.
Lemma unseen_check_rc rc : along unseen (check_rc rc).
Proof. unfold check_rc. by destruct (rc =? 0). Qed.
Lemma unseen_check_null p : along unseen (check_null p).
Proof. unfold check_null. by destruct (p =? 0). Qed.
Lemma unseen_ensure h : along unseen (ensure h).
Proof. apply along_guard, _. Qed.
Lemma unseen_c_int v : along unseen (c_int v).
Proof. apply along_lift, _. Qed.
Lemma unseen_c_uint b v : along unseen (c_uint b v).
Proof. apply along_lift, _. Qed.
End Quiet.

#[export] Hint Resolve unseen_peek unseen_load unseen_new unseen_store unseen_update unseen_fail
  unseen_fail_rc unseen_check_rc unseen_check_null unseen_ensure unseen_c_int unseen_c_uint : along.
#[export] Hint Extern 1 (along unseen (native _)) =>
  apply unseen_native; intros; constructor : along.
#[export] Hint Extern 1 (along unseen (native_ _)) =>
  apply unseen_native_; intros; constructor : along.
#[export] Hint Extern 1 (along unseen (modify _)) =>
  apply unseen_modify; by intros [] : along.

(** [quiet] for [unseen], which is no relation on the heap. *)
Ltac unnoticed :=
  repeat first
    [ progress intros
    | solve [auto 2 with along nocore typeclass_instances]
    | lazymatch goal with
      | |- along _ (mret _) => apply along_ret, _
      | |- along _ (raise _) => apply along_raise, _
      | |- along _ (lift _) => apply along_lift, _
      | |- along _ get => apply along_get, _
      | |- along _ (guard_raise _ _) => apply along_guard, _
      | |- along _ (_ ≫= _) => apply along_bind; [apply _|..]
      | |- along _ (try_except _ _) => apply along_try; [apply _|..]
      | |- along _ (try_finally _ _) => apply along_finally; [apply _|..]
      | |- along _ (for_each _ _) => apply along_for_each; [apply _|..]
      end
    | match goal with H : _ |- _ => apply H end
    | case_match ].

(** * The methods that make no extended call and no queue pair *)

#[export] Hint Unfold _dl opt_sym load_sym _req_sym set_sym efa_open efa_device_list is_efa
  efa_context_close efa_context_dealloc efa_num_comp_vectors efa_async_fd efa_query_device_attr
  query_efa_device efa_query_port efa_query_gid efa_alloc_pd efa_create_comp_channel efa_create_cq
  efa_get_async_event new_cq_ex efa_reg_mr efa_reg_dmabuf_mr efa_pd_close efa_pd_dealloc
  efa_mr_field efa_mr_closed efa_SGE_mr efa_mr_sge efa_mr_keepalive efa_mr_close efa_mr_dealloc
  need_symbol MR_query_efa efa_create_ah efa_chan_fd efa_get_cq_event efa_chan_close
  efa_chan_dealloc efa_cqe efa_req_notify efa_ack_events _query_efa_cq CQ_query_efa CQ_poll
  efa_cq_close efa_cq_dealloc CQEx_query_efa _cq_ptr efa_qp_num efa_state efa_query efa_modify
  efa_to_init efa_to_rtr efa_to_rts prepare ah_ensure efa_post_recv_qp efa_post_recv query_wqs
  qp_destroy qp_drop ahn efa_ah_close efa_ah_dealloc MR_closed : verbs_methods.

Section Framed.
Context {W : Type} `{!Libibverbs W} `{!LibibverbsLaws W} `{!Libefa W} `{!LibefaLaws W}.
Abbreviation B := (Binding W).
Abbreviation E := (Efa W).
Implicit Types (s : B) (w : W).

(** The heap evolves, and the record of the extended calls stays. *)
Definition framed {A} (m : M B A) : Prop := along evolves m ∧ along unseen m.

Lemma evolves_open_named want l : along evolves (open_named (W := W) want l).
Proof. induction l as [|d l IH]; cbn; [apply along_ret, _|]. case_match; [apply along_native, _|done]. Qed.
Lemma unseen_open_named want l : along unseen (open_named (W := W) want l).
Proof. induction l as [|d l IH]; cbn; [apply along_ret, _|]. case_match; [unnoticed|done]. Qed.
#[local] Hint Resolve evolves_open_named unseen_open_named : along.

#[local] Hint Extern 1 (settled _ _) =>
  split; [done|intros ? (? & [=] & ? & ?); subst; done] : along.
Ltac frame := split; autounfold with verbs_methods; [quiet|unnoticed].
Ltac frames := repeat match goal with |- _ ∧ _ => split end; intros; frame.

Lemma framed_context :
  (∀ d, framed (efa_open d)) ∧ framed efa_device_list ∧ (∀ r, framed (is_efa r)) ∧
  (∀ r, framed (efa_context_close r)) ∧ (∀ r, framed (efa_context_dealloc r)).
Proof. frames. Qed.

Lemma framed_queries :
  (∀ r, framed (efa_num_comp_vectors r)) ∧ (∀ r, framed (efa_async_fd r)) ∧
  (∀ r, framed (efa_query_device_attr r)) ∧ (∀ r, framed (query_efa_device r)) ∧
  (∀ r p, framed (efa_query_port r p)) ∧ (∀ r p i, framed (efa_query_gid r p i)) ∧
  (∀ r, framed (efa_alloc_pd r)) ∧ (∀ r, framed (efa_create_comp_channel r)) ∧
  (∀ r n c v, framed (efa_create_cq r n c v)) ∧ (∀ r, framed (efa_get_async_event r)) ∧
  (∀ r n c v f g, framed (new_cq_ex r n c v f g)).
Proof. frames. Qed.

Lemma framed_regions :
  (∀ r a l f, framed (efa_reg_mr r a l f)) ∧ (∀ r o l i d f, framed (efa_reg_dmabuf_mr r o l i d f)) ∧
  (∀ r, framed (efa_pd_close r)) ∧ (∀ r, framed (efa_pd_dealloc r)) ∧
  (∀ f r, framed (efa_mr_field f r)) ∧ (∀ r l k o, framed (efa_SGE_mr r l k o)) ∧
  (∀ r l o, framed (efa_mr_sge r l o)) ∧ (∀ r o, framed (efa_mr_keepalive r o)) ∧
  (∀ r, framed (efa_mr_close r)) ∧ (∀ r, framed (efa_mr_dealloc r)) ∧ (∀ r, framed (MR_query_efa r)) ∧
  (∀ r a i p, framed (efa_create_ah r a i p)) ∧ (∀ r, framed (ahn r)) ∧
  (∀ r, framed (efa_ah_close r)) ∧ (∀ r, framed (efa_ah_dealloc r)).
Proof. frames. Qed.

Lemma framed_queues :
  (∀ r, framed (efa_chan_fd r)) ∧ (∀ r, framed (efa_get_cq_event r)) ∧
  (∀ r, framed (efa_chan_close r)) ∧ (∀ r, framed (efa_chan_dealloc r)) ∧
  (∀ r, framed (efa_cqe r)) ∧ (∀ r b, framed (efa_req_notify r b)) ∧
  (∀ r n, framed (efa_ack_events r n)) ∧ (∀ r, framed (CQ_query_efa r)) ∧
  (∀ r, framed (CQEx_query_efa r)) ∧
  (∀ r n, framed (CQ_poll r n)) ∧ (∀ r, framed (efa_cq_close r)) ∧ (∀ r, framed (efa_cq_dealloc r)).
Proof. frames. Qed.

Lemma framed_qps :
  (∀ r, framed (efa_qp_num r)) ∧ (∀ r, framed (efa_state r)) ∧ (∀ r, framed (efa_query r)) ∧
  (∀ r m k f, framed (efa_modify r m k f)) ∧ (∀ r q p k, framed (efa_to_init r q p k)) ∧
  (∀ r, framed (efa_to_rtr r)) ∧ (∀ r p n, framed (efa_to_rts r p n)) ∧
  (∀ r q p n x, framed (prepare r q p n x)) ∧ (∀ r l, framed (efa_post_recv r l)) ∧
  (∀ r, framed (query_wqs r)) ∧ (∀ r, framed (qp_destroy r)) ∧ (∀ r, framed (qp_drop r)).
Proof. frames. Qed.
End Framed.
