(* ===== verification/EfaInvariant.v ===== *)
(** The methods of EfaObjects keep the invariant [EInv] of the EFA binding.

    Most of them are methods of the verbs binding, or equal to one on objects of EFA;
    the others step through the calls that only EFA makes.  [post_send] and the polling
    of an extended queue, whose calls come in an order, are in EfaPost. *)

From S2P Require Import Prelude Bytes Json.
From S2P Require Import VerbsLib VerbsValues VerbsPost.
From S2P Require Import VerbsObjects VerbsSafety VerbsMethods.
From S2P Require Import VerbsInvariant VerbsAlong VerbsRuns.
From S2P Require Import EfaLib EfaValues EfaObjects EfaSafety.
#[local] Open Scope Z_scope.

Section Invariant.
Context {W : Type} `{!Libibverbs W} `{!LibibverbsLaws W} `{!Libefa W} `{!LibefaLaws W}.
Abbreviation B := (Binding W).
Abbreviation E := (Efa W).
Implicit Types (b t : B) (s : E) (w : W) (q : gmap nat QPPart).

Definition all_plain b : Prop := ∀ r x, b_heap b !! r = Some x → plain x.

(** An open queue pair is kept with its extended view and the operations it has. *)
Definition views_kept b q : Prop :=
  ∀ r x h, b_heap b !! r = Some x → open_qp x h →
    ∃ p, q !! r = Some p ∧ qpp_qpx p = h ∧
      ex_ops (extended (b_world b)) !! h = Some (qpp_send_ops_flags p).

(** No batch and no poll is under way. *)
Definition at_rest w : Prop :=
  (∀ h, ex_batch (extended w) !! h = None) ∧ ex_polling (extended w) = ∅.

Record einv b q : Prop := {
  ei_inv : Inv b;
  ei_plain : all_plain b;
  ei_views : views_kept b q;
  ei_rest : at_rest (b_world b);
}.
Definition EInv s : Prop := einv (ef_b s) (ef_qpx s).

(** A method that keeps the invariant, whether it returns or raises. *)
Definition esafe {A} (f : M E A) : Prop := ∀ s, EInv s → wp f (λ _, EInv) (λ _, EInv) s.
(** The part on the heap and the library. *)
Definition bsafe {A} (f : M B A) : Prop :=
  ∀ b, Inv b → all_plain b → wp f (λ _, Inv) (λ _, Inv) b.

Lemma wp_vb {A} (m : M B A) (Q : A → E → Prop) X s :
  wp m (λ a t, Q a (set_b t s)) (λ e t, X e (set_b t s)) (ef_b s) → wp (vb m) Q X s.
Proof. unfold wp, vb. by destruct (m (ef_b s)) as [[a|e] t]. Qed.

Lemma plain_evolves b t : all_plain b → evolves b t → all_plain t.
Proof.
  intros Hp [Ho Hn] r x Hx. destruct (b_heap b !! r) as [y|] eqn:Hy; [|by apply (Hn r)].
  destruct (Ho _ _ Hy) as (x' & Hx' & Hs & _). rewrite Hx' in Hx. injection Hx as <-. eauto.
Qed.

Lemma einv_evolves b t q : einv b q → Inv t → evolves b t → unseen b t → einv t q.
Proof.
  intros [I Hp Hv Hr] It He Hu. unfold unseen in Hu. constructor; [done|by eapply plain_evolves| |].
  - intros r x h Hx Hh. rewrite Hu. destruct (b_heap b !! r) as [y|] eqn:Hy.
    + destruct (ev_old _ _ He _ _ Hy) as (x' & Hx' & _ & Hs). rewrite Hx' in Hx. injection Hx as <-. eauto.
    + destruct (ev_new _ _ He _ _ Hx Hy) as [_ Hno]. by destruct (Hno h).
  - unfold at_rest. by rewrite Hu.
Qed.

Lemma wp_framed {A} (m : M B A) (Q : A → B → Prop) X b :
  framed m → wp m Q X b →
  wp m (λ a t, Q a t ∧ evolves b t ∧ unseen b t) (λ e t, X e t ∧ evolves b t ∧ unseen b t) b.
Proof.
  intros [He Hu] Hm. apply wp_conj; [exact Hm|]. apply wp_conj; by apply wp_along.
Qed.

Lemma esafe_vb {A} (m : M B A) : framed m → bsafe m → esafe (vb m).
Proof.
  intros Hf Hm s I. apply wp_vb.
  eapply wp_mono; [apply wp_framed; [exact Hf|by apply Hm; destruct I]|..];
    intros a t (It & He & Hu); by eapply einv_evolves.
Qed.

Lemma bsafe_of {A} (m : M B A) : safe m → bsafe m.
Proof. intros Hm b I _. by apply Hm. Qed.

(** A method that does what another does on objects of EFA. *)
Lemma bsafe_eq {A} (m m' : M B A) : safe m' → (∀ b, all_plain b → m b = m' b) → bsafe m.
Proof. intros Hm He b I Hp. unfold wp. rewrite (He _ Hp). by apply Hm. Qed.

Lemma bsafe_bind {A C} (m : M B A) (f : A → M B C) :
  bsafe m → along evolves m → (∀ a, bsafe (f a)) → bsafe (m ≫= f).
Proof.
  intros Hm He Hf b I Hp. apply wp_bind.
  eapply wp_mono; [by apply wp_conj; [apply Hm|apply wp_along, He]| |by intros e t [? _]].
  intros a t [It Ht]. apply Hf; [done|by eapply plain_evolves].
Qed.
End Invariant.

(** * Methods equal to those of the verbs binding on objects of EFA *)

Section Equal.
Context {W : Type} `{!Libibverbs W} `{!LibibverbsLaws W} `{!Libefa W} `{!LibefaLaws W}.
Abbreviation B := (Binding W).
Implicit Types (b t : B) (w : W).

(** Split on the object at [r]; the flags that EFA does not have are clear. *)
Ltac at_object b r Hp :=
  unfold mbind, M_bind, load; destruct (b_heap b !! r) as [[]|] eqn:Hr; try done; cbn;
  pose proof (Hp _ _ Hr) as Hpl; cbn in Hpl.

Lemma context_close_eq r b : all_plain b → efa_context_close r b = Context_close r b.
Proof.
  intros Hp. unfold efa_context_close, Context_close. at_object b r Hp. rewrite Hpl. cbn.
  by destruct (ctx_ctx _ =? 0).
Qed.
Lemma context_dealloc_eq r b : all_plain b → efa_context_dealloc r b = Context_dealloc r b.
Proof.
  intros Hp. unfold efa_context_dealloc, Context_dealloc. at_object b r Hp. by rewrite Hpl.
Qed.
Lemma req_notify_eq r n b : all_plain b → efa_req_notify r n b = req_notify r n b.
Proof.
  intros Hp. unfold efa_req_notify, req_notify. at_object b r Hp. destruct Hpl as [E1 E2].
  destruct (cq_ensure _ b) as [[]]; [|done]. by rewrite E1.
Qed.
Lemma cq_close_eq r b : all_plain b → efa_cq_close r b = CQ_close r b.
Proof.
  intros Hp. unfold efa_cq_close, CQ_close. at_object b r Hp. destruct Hpl as [E1 E2].
  destruct (cq_cq _ =? 0); [done|]. by rewrite E2.
Qed.
Lemma qp_destroy_eq r b : all_plain b → qp_destroy r b = QP_close r b.
Proof.
  intros Hp. unfold qp_destroy, QP_close. at_object b r Hp. destruct Hpl as (E1 & E2 & E3).
  destruct (qp_qp _ =? 0); [done|]. rewrite E1, E3. cbn. unfold mbind, M_bind.
  by destruct (native _ b) as [[]].
Qed.
Lemma qp_drop_eq r b : all_plain b → qp_drop r b = QP_dealloc r b.
Proof.
  intros Hp. unfold qp_drop, QP_dealloc. at_object b r Hp. destruct Hpl as (E1 & E2 & E3).
  destruct (qp_qp _ =? 0); [done|]. rewrite E1. cbn. unfold mbind, M_bind.
  by destruct (native _ b) as [[]].
Qed.

Lemma context_close_bsafe r : bsafe (efa_context_close r).
Proof. eapply bsafe_eq; [apply Context_close_safe|apply context_close_eq]. Qed.
Lemma efa_req_notify_bsafe r n : bsafe (efa_req_notify r n).
Proof. eapply bsafe_eq; [apply (req_notify_safe r n)|apply req_notify_eq]. Qed.
Lemma cq_close_bsafe r : bsafe (efa_cq_close r).
Proof. eapply bsafe_eq; [apply (CQ_close_safe r)|apply cq_close_eq]. Qed.
Lemma qp_destroy_bsafe r : bsafe (qp_destroy r).
Proof. eapply bsafe_eq; [apply (QP_close_safe r)|apply qp_destroy_eq]. Qed.

(** * Methods of EFA's own *)

Lemma is_efa_bsafe r : bsafe (is_efa r).
Proof. intros s I _. unfold is_efa. steps. calls law_e_query_device. by steps. Qed.
Lemma query_efa_device_bsafe r : bsafe (query_efa_device r).
Proof. intros s I _. unfold query_efa_device. steps. calls law_e_query_device. by steps. Qed.
Lemma efa_query_device_attr_bsafe r : bsafe (efa_query_device_attr r).
Proof.
  intros s I _. unfold efa_query_device_attr. apply wp_bind.
  eapply wp_mono; [by apply query_device_safe| |done]. by intros [v a] t It.
Qed.
Lemma efa_query_port_bsafe r p : bsafe (efa_query_port r p).
Proof.
  intros s I _. unfold efa_query_port. apply wp_bind.
  eapply wp_mono; [by apply query_port_safe| |done]. by intros a t It.
Qed.
Lemma MR_query_efa_bsafe r : bsafe (MR_query_efa r).
Proof. intros s I _. unfold MR_query_efa, need_symbol. steps. calls law_e_query_mr. by steps. Qed.
Lemma CQ_query_efa_bsafe r : bsafe (CQ_query_efa r).
Proof.
  intros s I _. unfold CQ_query_efa, _query_efa_cq, need_symbol. steps. calls law_e_query_cq. by steps.
Qed.
Lemma CQ_poll_bsafe r n : bsafe (CQ_poll r n).
Proof. intros s I _. unfold CQ_poll. steps. calls law_poll_cq. by steps. Qed.
Lemma query_wqs_bsafe r : bsafe (query_wqs r).
Proof. intros s I _. unfold query_wqs, need_symbol. steps. calls law_e_query_qp_wqs. by steps. Qed.
Lemma ahn_bsafe r : bsafe (ahn r).
Proof.
  intros s I _. unfold ahn, ah_ensure. steps. calls law_e_query_ah. by steps.
Qed.
Lemma efa_query_bsafe r : bsafe (efa_query r).
Proof. intros s I _. unfold efa_query. steps. calls law_query_qp. destruct a as [rc [a c]]. by steps. Qed.
Lemma efa_modify_bsafe r m k f : bsafe (efa_modify r m k f).
Proof. intros s I _. unfold efa_modify. steps. calls law_modify_qp. by steps. Qed.
Lemma efa_to_init_bsafe r q p k : bsafe (efa_to_init r q p k).
Proof. intros s I _. unfold efa_to_init. steps. calls law_modify_qp. by steps. Qed.
Lemma efa_to_rtr_bsafe r : bsafe (efa_to_rtr r).
Proof. intros s I _. unfold efa_to_rtr. steps. calls law_modify_qp. by steps. Qed.
Lemma efa_to_rts_bsafe r p n : bsafe (efa_to_rts r p n).
Proof.
  intros s I _. unfold efa_to_rts. steps. destruct n as [n|]; steps; calls law_modify_qp; by steps.
Qed.
Lemma prepare_bsafe r q p n x : bsafe (prepare r q p n x).
Proof.
  unfold prepare. destruct (framed_qps (W := W)) as (_ & _ & _ & _ & F1 & F2 & F3 & _).
  apply bsafe_bind; [intros s I _; by steps|quiet|]. intros p'.
  apply bsafe_bind; [apply efa_to_init_bsafe|apply F1|]. intros _.
  apply bsafe_bind; [apply efa_to_rtr_bsafe|apply F2|]. intros _. apply efa_to_rts_bsafe.
Qed.
Lemma efa_post_recv_bsafe r l : bsafe (efa_post_recv r l).
Proof.
  intros s I _. unfold efa_post_recv, efa_post_recv_qp. steps.
  destruct (_ =? 0)%nat; steps; [done|]. calls law_post_recv. by steps.
Qed.
Lemma efa_create_ah_bsafe r a i p : bsafe (efa_create_ah r a i p).
Proof.
  intros s I _. unfold efa_create_ah. steps.
  eapply (make_leaf (λ h, mk_AH h r) _ KAH r (OPD o)); try done.
  apply law_create_ah; eauto with verbs.
Qed.
End Equal.

(** * The list of EFA devices, and the collection *)

Section Devices.
Context {W : Type} `{!Libibverbs W} `{!LibibverbsLaws W} `{!Libefa W} `{!LibefaLaws W}.
Abbreviation B := (Binding W).
Implicit Types (b t : B) (w : W).

Lemma bsafe_try {A} (m : M B A) h :
  bsafe m → along evolves m → (∀ e, bsafe (h e)) → bsafe (try_except m h).
Proof.
  intros Hm He Hh b I Hp. apply wp_try_except.
  eapply wp_mono; [by apply wp_conj; [apply Hm|apply wp_along, He]|by intros a t [? _]|].
  intros e t [It Ht]. apply Hh; [done|by eapply plain_evolves].
Qed.

Lemma bsafe_finally {A} (m : M B A) f :
  bsafe m → along evolves m → bsafe f → bsafe (try_finally m f).
Proof.
  intros Hm He Hf b I Hp. apply wp_try_finally.
  eapply wp_mono; [by apply wp_conj; [apply Hm|apply wp_along, He]|..];
    intros a t [It Ht]; apply Hf; try done; by eapply plain_evolves.
Qed.

Lemma bsafe_ret {A} (a : A) : bsafe (mret a).
Proof. by intros b I _. Qed.
Lemma bsafe_raise {A} e : bsafe (raise (A := A) e).
Proof. by intros b I _. Qed.

Lemma framed_probe d : framed (probe (W := W) d).
Proof.
  destruct (framed_context (W := W)) as (F1 & _ & F3 & F4 & _).
  destruct (F1 d) as [A1 A2]. split; unfold probe.
  - apply along_bind; [apply _| |].
    + apply along_try; [apply _| |intros []; apply along_raise || apply along_ret; apply _].
      apply along_bind; [apply _|apply A1|]. intros c. apply along_ret, _.
    + intros [c|]; [apply along_finally; [apply _|apply F3|apply F4]|apply along_ret, _].
  - apply along_bind; [apply _| |].
    + apply along_try; [apply _| |intros []; apply along_raise || apply along_ret; apply _].
      apply along_bind; [apply _|apply A2|]. intros c. apply along_ret, _.
    + intros [c|]; [apply along_finally; [apply _|apply F3|apply F4]|apply along_ret, _].
Qed.

Lemma framed_probe_all l : framed (probe_all (W := W) l).
Proof.
  induction l as [|d l [I1 I2]]; [split; apply along_ret, _|]. destruct (framed_probe d) as [P1 P2].
  split; cbn [probe_all]; (apply along_bind; [apply _|assumption|]); intros c;
    (apply along_bind; [apply _|assumption|]); intros out; apply along_ret, _.
Qed.

Lemma framed_efa_devices : framed (get_efa_device_list (W := W)).
Proof.
  destruct (framed_context (W := W)) as (_ & [F1 F2] & _). unfold get_efa_device_list.
  split; (apply along_bind; [apply _|assumption|]); intros l; apply framed_probe_all.
Qed.

Lemma probe_bsafe d : bsafe (probe (W := W) d).
Proof.
  destruct (framed_context (W := W)) as (F1 & _ & F3 & F4 & _). unfold probe.
  assert (Ho : along evolves (c ← efa_open (W := W) d; mret (Some c))).
  { apply along_bind; [apply _|apply F1|]. intros c. apply along_ret, _. }
  apply bsafe_bind.
  - apply bsafe_try; [|exact Ho|intros []; apply bsafe_raise || apply bsafe_ret].
    apply bsafe_bind; [by apply bsafe_of, Device_open_safe|apply F1|]. intros c. apply bsafe_ret.
  - apply along_try; [apply _|exact Ho|]. intros []; apply along_raise || apply along_ret; apply _.
  - intros [c|]; [|apply bsafe_ret].
    apply bsafe_finally; [apply is_efa_bsafe|apply F3|apply context_close_bsafe].
Qed.

Lemma efa_devices_bsafe : bsafe (get_efa_device_list (W := W)).
Proof.
  destruct (framed_context (W := W)) as (_ & [F1 _] & _). unfold get_efa_device_list.
  apply bsafe_bind; [apply bsafe_of, get_device_list_safe|exact F1|]. intros l.
  induction l as [|d l IH]; cbn [probe_all]; [apply bsafe_ret|].
  apply bsafe_bind; [apply probe_bsafe|apply framed_probe|]. intros c.
  apply bsafe_bind; [exact IH|apply framed_probe_all|intros out; apply bsafe_ret].
Qed.
End Devices.

(** * Extended completion queues *)

Section ExtendedQueues.
Context {W : Type} `{!Libibverbs W} `{!LibibverbsLaws W} `{!Libefa W} `{!LibefaLaws W}.
Abbreviation B := (Binding W).
Abbreviation E := (Efa W).
Implicit Types (b t : B) (s : E) (w : W).

Lemma esafe_bind {A C} (m : M E A) (f : A → M E C) :
  esafe m → (∀ a, esafe (f a)) → esafe (m ≫= f).
Proof.
  intros Hm Hf s I. apply wp_bind. eapply wp_mono; [by apply Hm| |done]. intros a t It. by apply Hf.
Qed.
Lemma esafe_ret {A} (a : A) : esafe (mret a).
Proof. by intros s I. Qed.
(** The extended views of completion queues are no part of the invariant. *)
Lemma esafe_cqx f : esafe (modify (λ s, set_cqx (f s) s)).
Proof. by intros s I. Qed.

(** A queue that took its object for context before the object was there. *)
Lemma creates_cq w w1 h u d r :
  creates live intact (KCQ u 0) d w (h, w1) → h ≠ 0 →
  creates live intact (KCQ r 0) d w (h, set_cq_context h r w1).
Proof.
  intros [Hi [[? _]|(_ & Hn & Hl)]] Hh; [done|]. cbn in *.
  destruct (law_set_cq_context h r u 0 d w1 Hi) as [Hi2 Hl2]; [rewrite Hl; apply lookup_insert_eq|].
  split; [done|]. right. cbn. split_and!; [done|done|]. by rewrite Hl2, Hl, insert_insert_eq.
Qed.

(** The object that [new_cq_ex] leaves, not yet counted by its context. *)
Definition fresh_cq b (self : nat) (p : nat * Z) t : Prop :=
  ∃ o w x deps, b_heap b !! self = Some (OContext o) ∧
    t = set_heap (<[p.1 := OCQ x]> (b_heap b)) (set_world w b) ∧
    fits (b_heap b) (b_world b) p.2 w (KCQ p.1 0) deps p.1 (OCQ x) ∧
    (∀ c', child_of c' (OCQ x) = if decide (c' = self) then 1 else 0).

Lemma new_cq_ex_spec self n channel v wf f b :
  Inv b → wp (new_cq_ex self n channel v wf f) (fresh_cq b self) (λ _, Inv) b.
Proof.
  intros I. unfold new_cq_ex. steps.
  eapply wp_mono; [by apply wp_channel| |done]. intros chp t [-> Hch]. steps.
  assert (Halive : chp = 0 ∨ alive (live (b_world b)) (only KChannel) chp).
  { destruct channel as [ch|]; [right|by left]. destruct Hch as (c & Hc & <- & Hz). eauto with verbs. }
  set (x := fresh_ref (b_heap b)).
  match goal with |- wp (native ?g ≫= _) _ _ _ => set (create := g) end.
  assert (Hlaw : creates live intact (KCQ 0 0) (cq_deps (ctx_ctx o) chp) (b_world b) (create (b_world b))).
  { apply (law_e_create_cq (ctx_ctx o)); eauto with verbs. }
  apply wp_bind, wp_native. intros h w1 Hf. rewrite Hf in Hlaw. step. apply wp_check_null.
  2:{ intros -> e. apply Inv_keeps; [done|]. destruct Hlaw as [Hi [[_ Hl]|[? _]]]; done. }
  intros Hh. pose proof (creates_cq _ _ _ _ _ x Hlaw Hh) as Hc. step. step. step.
  unfold native_. apply wp_native. intros [] w [= <-]. step. apply wp_new. step. cbn.
  exists o, (set_cq_context h x w1), (mk_CQ h self channel 0 false 0), (cq_deps (ctx_ctx o) chp).
  split_and!; [done|done| |intros c'; by apply child_at].
  constructor; try done; [apply fresh_ref_new| |].
  - cbn. match goal with H : b_heap b !! self = _ |- _ => rewrite (hd_handle _ _ H) end.
    unfold cq_deps. cbn. f_equal. destruct channel as [ch|]; cbn in Hch; [|by subst].
    destruct Hch as (c & Hcc & <- & Hz). cbn. rewrite (hd_handle _ _ Hcc). cbn.
    by replace (chan_chan c =? 0) with false by lia.
  - intros kp p Hin. cbn in Hin. apply elem_of_cons in Hin as [[= -> ->]|Hin].
    + match goal with H : b_heap b !! self = _, H0 : ctx_ctx o ≠ 0 |- _ =>
        pose proof (open_at_of _ _ _ H H0) as Ho end. cbn in Ho. by destruct (ctx_owned o).
    + destruct channel as [ch|]; [|by apply not_elem_of_nil in Hin]. cbn in Hin.
      apply list_elem_of_singleton in Hin as [= -> ->]. destruct Hch as (c & Hcc & <- & Hz).
      by apply (open_at_of _ _ _ Hcc).
Qed.

Lemma create_cq_ex_esafe self n channel v wf sg un : esafe (create_cq_ex self n channel v wf sg un).
Proof.
  intros s I. unfold create_cq_ex. apply wp_bind, wp_vb.
  eapply wp_mono; [apply wp_framed; [apply framed_queries|apply new_cq_ex_spec, I]| |].
  2:{ intros e t (It & He & Hu). by eapply einv_evolves. }
  intros [r h] t [(o & w & x & deps & Ho & -> & F & Hk) [He Hu]]. cbn in F, Hk, He, Hu.
  apply wp_bind, wp_vb.
  match goal with |- wp _ _ _ ?b => set (b1 := b) in * end.
  assert (wp (if cq_ex_flags sg un =? 0 then mret 0 else peek (λ w, e_cq_from_cq_ex w h))
            (λ _ t, t = b1) (λ _ _, False) b1) as Hp by by case_match.
  eapply wp_mono; [exact Hp| |done]. intros ecq t ->. apply wp_bind, wp_modify, wp_bind, wp_vb.
  unfold _add_child. pose proof (fits_fresh _ _ _ _ _ _ _ _ F) as Hr.
  assert (Ho1 : b_heap b1 !! self = Some (OContext o)).
  { cbn. rewrite lookup_insert_ne; [done|congruence]. }
  eapply (wp_update_at _ _ o); [exact Ho1|done|]. apply wp_ret.
  unfold EInv. cbn. eapply (einv_evolves (ef_b s)); [exact I| | |exact Hu].
  - destruct I as [I _ _ _]. exact (inv_create_child _ _ _ _ _ _ _ _ _ _ I F eq_refl Hk Ho).
  - etransitivity; [exact He|]. eapply (hr_store (R := evolves)); [exact Ho1|]. split; [done|].
    by intros ? (? & [=] & _).
Qed.

Lemma CQEx_close_esafe r : esafe (CQEx_close r).
Proof.
  unfold CQEx_close. apply esafe_bind.
  { apply esafe_vb; [split; [quiet|unnoticed]|]. intros b I _. by step. }
  intros o. destruct (cq_cq o =? 0); [apply esafe_ret|]. apply esafe_bind; [|intros _; apply esafe_cqx].
  apply esafe_vb; [apply framed_queues|apply cq_close_bsafe].
Qed.
End ExtendedQueues.

(** * Queue pairs *)

Section EfaQueuePairs.
Context {W : Type} `{!Libibverbs W} `{!LibibverbsLaws W} `{!Libefa W} `{!LibefaLaws W}.
Abbreviation B := (Binding W).
Abbreviation E := (Efa W).
Implicit Types (b t : B) (s : E) (w : W) (q : gmap nat QPPart).

Lemma einv_qpx b q q' :
  einv b q → (∀ r, q' !! r = q !! r ∨ ∀ x h, b_heap b !! r = Some x → ¬ open_qp x h) → einv b q'.
Proof.
  intros [I Hp Hv Hr] Hq. constructor; [done..| |done].
  intros r x h Hx Hh. destruct (Hq r) as [->|Hno]; [by eapply Hv|]. by destruct (Hno _ _ Hx Hh).
Qed.

(** The queue pair at [r] is closed. *)
Definition shut b (r : nat) : Prop := ∀ x h, b_heap b !! r = Some x → ¬ open_qp x h.

Lemma shut_closed b r o : b_heap b !! r = Some (OQP o) → qp_qp o = 0 → shut b r.
Proof. intros Hr Hz x h Hx (o' & -> & Ho & Hh). rewrite Hr in Hx. injection Hx as <-. congruence. Qed.

Lemma qp_destroy_shut r b : wp (qp_destroy r) (λ _ t, shut t r) (λ _ _, True) b.
Proof.
  unfold qp_destroy. step. apply wp_load; [|done]. intros o Hr. destruct (qp_qp o =? 0) eqn:E0.
  { step. eapply shut_closed; [exact Hr|lia]. }
  apply wp_bind, wp_native. intros rc w _. step. apply wp_check_rc; [|done]. intros _.
  eapply wp_update_at; [exact Hr|done|]. eapply shut_closed; [apply lookup_insert_eq|done].
Qed.
Lemma qp_drop_shut r b : wp (qp_drop r) (λ _ t, shut t r) (λ _ _, True) b.
Proof.
  unfold qp_drop. step. apply wp_load; [|done]. intros o Hr. destruct (qp_qp o =? 0) eqn:E0.
  { step. eapply shut_closed; [exact Hr|lia]. }
  apply wp_bind, wp_native. intros rc w _.
  eapply wp_update_at; [exact Hr|done|]. eapply shut_closed; [apply lookup_insert_eq|done].
Qed.

Lemma drop_qpx_einv b q r f : einv b q → shut b r → einv b (alter f r q).
Proof.
  intros I Hs. eapply einv_qpx; [exact I|]. intros r'. destruct (decide (r = r')) as [<-|Hne].
  - by right.
  - left. by rewrite lookup_alter_ne.
Qed.

Lemma load_qp_esafe r : esafe (vb (load (O := QP) r)).
Proof. apply esafe_vb; [split; [quiet|unnoticed]|]. intros b I _. by step. Qed.

Lemma efa_qp_close_esafe r : esafe (efa_qp_close r).
Proof.
  unfold efa_qp_close. apply esafe_bind; [apply load_qp_esafe|]. intros o.
  destruct (qp_qp o =? 0); [apply esafe_ret|]. intros s I. apply wp_bind, wp_vb.
  eapply wp_mono.
  - apply wp_conj; [|apply qp_destroy_shut].
    apply wp_framed; [apply framed_qps|by apply qp_destroy_bsafe; destruct I].
  - intros [] t [(It & He & Hu) Hs]. apply wp_modify. apply drop_qpx_einv; [|exact Hs].
    by eapply einv_evolves.
  - intros e t [(It & He & Hu) _]. by eapply einv_evolves.
Qed.

(** ** Creation *)

Lemma fill_efa_fields scq rcq i a ops :
  fill_efa_attr scq rcq i = Ok (a, ops) → ia_send_cq a = scq ∧ ia_recv_cq a = rcq ∧ ia_srq a = 0.
Proof.
  unfold fill_efa_attr, mbind, result_bind. intros H. repeat case_match; by simplify_eq.
Qed.

(** What [create_qp] has of the library: a new queue pair, of which no object knows. *)
Definition new_native b (self : nat) (i : EfaQPInitAttr) (h ops : Z) t : Prop :=
  ∃ o w scq rcq a, t = set_world w b ∧ b_heap b !! self = Some (OPD o) ∧ pd_pd o ≠ 0 ∧ h ≠ 0 ∧
    creates live intact (KQP 0) (qp_deps (pd_pd o) a 0) (b_world b) (h, w) ∧
    b_heap b !! ei_send_cq i = Some (OCQ scq) ∧ b_heap b !! ei_recv_cq i = Some (OCQ rcq) ∧
    cq_cq scq ≠ 0 ∧ cq_cq rcq ≠ 0 ∧ cq_context scq = pd_context o ∧ cq_context rcq = pd_context o ∧
    ia_send_cq a = cq_cq scq ∧ ia_recv_cq a = cq_cq rcq ∧ ia_srq a = 0 ∧
    extended w = new_qp h ops (extended (b_world b)).
(** A failure that leaves the heap and the record. *)
Definition failed b t : Prop :=
  Inv t ∧ b_heap t = b_heap b ∧ live (b_world t) = live (b_world b) ∧ unseen b t.

Lemma failed_refl b : Inv b → failed b b.
Proof. by intros I. Qed.

Lemma failed_einv b t q : einv b q → failed b t → einv t q.
Proof. intros I (It & Hh & _ & Hu). eapply einv_evolves; [exact I|done|by apply evolves_same|done]. Qed.

(** The creation of one kind. *)
Lemma wp_create_native (f : W → Z * W) deps ops (Q : Z → B → Prop) b :
  Inv b → creates live intact (KQP 0) deps (b_world b) (f (b_world b)) →
  extended (f (b_world b)).2 = new_qp (f (b_world b)).1 ops (extended (b_world b)) →
  (∀ h w, h ≠ 0 → creates live intact (KQP 0) deps (b_world b) (h, w) →
     extended w = new_qp h ops (extended (b_world b)) → Q h (set_world w b)) →
  wp (qp ← native f; check_null qp;; mret qp) Q (λ _, failed b) b.
Proof.
  intros I Hc Hx HQ. apply wp_bind, wp_native. intros h w Hf. rewrite Hf in Hc, Hx. step.
  apply wp_check_null; [intros Hh; step; by apply HQ|]. intros -> e. destruct Hc as [Hi [[_ Hl]|[? _]]]; [|done].
  split_and!; [by apply Inv_keeps|done|exact Hl|exact Hx].
Qed.

Lemma efa_new_qp_spec self i b :
  Inv b → wp (efa_new_qp self i) (λ p t, new_native b self i p.1.1 p.2 t) (λ _, failed b) b.
Proof.
  intros I. pose proof (failed_refl b I) as If. unfold efa_new_qp, _cq_ptr. steps.
  match goal with H : negb _ || negb _ = false |- _ => apply orb_false_iff in H as [E1 E2] end.
  apply negb_false_iff, Nat.eqb_eq in E1, E2.
  match goal with H : fill_efa_attr _ _ _ = Ok (?x, ?y) |- _ =>
    rename x into a, y into ops; destruct (fill_efa_fields _ _ _ _ _ H) as (A1 & A2 & A3) end.
  rename o2 into c.
  assert (Hc : ctx_ctx c ≠ 0).
  { apply (open_parent b self (OPD o) LContext (pd_context o) (OContext c)); try done. left. }
  assert (Halive : alive (live (b_world b)) is_context (ctx_ctx c) ∧ alive (live (b_world b)) (only KPD) (pd_pd o) ∧
    alive (live (b_world b)) is_cq (cq_cq o0) ∧ alive (live (b_world b)) is_cq (cq_cq o1))
    by (split_and!; eauto with verbs).
  destruct Halive as (L1 & L2 & L3 & L4).
  assert (Hend : ∀ ty h w deps, h ≠ 0 →
    deps = qp_deps (pd_pd o) a 0 → creates live intact (KQP 0) deps (b_world b) (h, w) →
    extended w = new_qp h ops (extended (b_world b)) →
    wp (mret (h, ty, ops)) (λ (p : Z * Z * Z) t, new_native b self i p.1.1 p.2 t) (λ _, failed b) (set_world w b)).
  { intros ty h w deps Hh -> Hcr Hx. step. exists o, w, o0, o1, a. by split_and!. }
  unfold efa_create_native. destruct (_ =? _QPT_SRD); [|destruct (_ =? _EQPT_UD)].
  - do 2 step. eapply (wp_create_native _ _ ops); [done| | |].
    + apply (law_e_create_qp_ex (ctx_ctx c)); cbn [iax_pd iax_attr ia_send_cq ia_recv_cq ia_srq];
        rewrite ?A1, ?A2; first [done|by apply inv_intact].
    + apply ext_create_qp_ex.
    + intros h w Hh Hcr Hx. by eapply Hend.
  - eapply (wp_create_native _ _ ops); [done| | |].
    + apply (law_v_create_qp_ex (ctx_ctx c)); cbn [iax_pd iax_attr ia_send_cq ia_recv_cq ia_srq];
        rewrite ?A1, ?A2; first [done|by apply inv_intact].
    + apply ext_v_create_qp_ex.
    + intros h w Hh Hcr Hx. by eapply Hend.
  - by step.
Qed.
(** ** The object of a new queue pair *)

Lemma new_qp_ops h ops x k : k ≠ h → ex_ops (new_qp h ops x) !! k = ex_ops x !! k.
Proof. intros Hk. unfold new_qp. case_match; [done|]. cbn. by rewrite lookup_insert_ne. Qed.

Lemma new_qp_rest h ops w w' : extended w' = new_qp h ops (extended w) → at_rest w → at_rest w'.
Proof.
  intros Hx [Hb Hp]. unfold at_rest. rewrite Hx. unfold new_qp. case_match; [done|]. split; [|done].
  intros k. cbn. destruct (decide (k = h)) as [->|Hne]; [by rewrite lookup_delete_eq|].
  by rewrite lookup_delete_ne.
Qed.

(** The handle of an open queue pair is alive, so it is not the new one. *)
Lemma open_not_new b r x h h' k d w :
  Inv b → creates live intact k d (b_world b) (h', w) → h' ≠ 0 →
  b_heap b !! r = Some x → open_qp x h → h ≠ h'.
Proof.
  intros I [_ [[? _]|(_ & Hn & _)]] Hh Hx (o & -> & Ho & Hz) ->; [done|]. cbn in Hn.
  pose proof (inv_live I r (OQP o) Hx) as Hl. cbn in Hl. rewrite Ho in Hl. rewrite Hl in Hn; done.
Qed.

Lemma qp_wrap_fails b self i h ops t w2 rc :
  Inv b → new_native b self i h ops t → v_destroy_qp h (b_world t) = (rc, w2) →
  Inv (set_world w2 t) ∧ live w2 = live (b_world b) ∧
  extended w2 = new_qp h ops (extended (b_world b)).
Proof.
  intros I (o & w & sq & rq & a & -> & Ho & Hpo & Hh & Hc & Hs & Hr & Hsz & Hrz & _ & _ & A1 & A2 & A3 & Hx) Hf.
  cbn in Hf. destruct (Hc) as [Hi [[? _]|(_ & Hn & Hl)]]; [done|]. cbn in Hi, Hn, Hl.
  assert (Ha : alive (live w) (only (KQP 0)) h).
  { exists (mkN (KQP 0) (qp_deps (pd_pd o) a 0)). rewrite Hl, lookup_insert_eq. split; [done|].
    by apply bool_decide_eq_true. }
  pose proof (law_destroy_qp h w Hi Ha) as [Hi2 Hd]. rewrite Hf in Hi2, Hd. cbn in Hi2, Hd.
  assert (Hun : ¬ used (live w) h).
  { intros (k & n & Hk & Hd'). rewrite Hl in Hk. apply lookup_insert_Some in Hk as [[<- <-]|[_ Hk]].
    - cbn in Hd'. rewrite A1, A2, A3 in Hd'. cbn in Hd'.
      repeat (apply elem_of_cons in Hd' as [->|Hd']); [| | |by apply not_elem_of_nil in Hd'].
      + pose proof (inv_live I _ _ Ho Hpo) as E. cbn in E. congruence.
      + pose proof (inv_live I _ _ Hs Hsz) as E. cbn in E. congruence.
      + pose proof (inv_live I _ _ Hr Hrz) as E. cbn in E. congruence.
    - destruct (deps_alive _ _ _ _ _ I Hk Hd') as [? Hd2]. congruence. }
  destruct Hd as [(_ & _ & Hl2)|(_ & Hu & _)]; [|done].
  assert (live w2 = live (b_world b)) as Hl3 by by rewrite Hl2, Hl, delete_insert_id.
  split_and!; [|done|].
  - change (Inv (set_world w2 b)). by apply Inv_keeps.
  - rewrite <-Hx. assert (w2 = (v_destroy_qp h w).2) as -> by by rewrite Hf.
    apply ext_verb_call. constructor.
Qed.

(** The state with the new object and its attributes. *)
Lemma new_qp_einv b q self i h ops t r p :
  einv b q → new_native b self i h ops t → r = fresh_ref (b_heap b) →
  qpp_qpx p = h → qpp_send_ops_flags p = ops →
  einv (set_heap (<[r := OQP (mk_QP h self (ei_send_cq i) (ei_recv_cq i) None 1 0 None false 0)]> (b_heap b)) t)
    (<[r := p]> q).
Proof.
  intros [I Hp Hv Hr] (o & w & sq & rq & a & -> & Ho & Hpo & Hh & Hc & Hs & Hrq & Hsz & Hrz & C1 & C2 & A1 & A2 & A3 & Hx)
    Hfr Hp1 Hp2.
  assert (Hnone : b_heap b !! r = None) by (subst r; apply fresh_ref_new).
  assert (Hopen : ∀ k x h', b_heap b !! k = Some x → open_qp x h' → h' ≠ h)
    by (intros k x h' Hk Hop; by eapply open_not_new).
  constructor.
  - unfold Inv. cbn. eapply inv_create; [exact I| |done|done].
    pose (i' := mk_QPInitAttr (ei_send_cq i) (ei_recv_cq i) 0 0 0 0 0 0 None false).
    apply (fits_qp _ _ _ _ _ _ o (pd_context o) i' (cq_cq sq) (cq_cq rq) 0 a 0 None); try done.
    unfold queues_ok. cbn. split_and!; [eauto..|done|done|done].
  - intros k x Hk. cbn in Hk. apply lookup_insert_Some in Hk as [[_ <-]|[_ Hk]]; [done|by eapply Hp].
  - intros k x h' Hk Hop. cbn in Hk. apply lookup_insert_Some in Hk as [[<- <-]|[Hne Hk]].
    + destruct Hop as (o' & [= <-] & Ho' & _). cbn in Ho'. subst h'. exists p.
      rewrite lookup_insert_eq. split_and!; [done|done|]. cbn. rewrite Hx, Hp2. unfold new_qp.
      rewrite (proj2 (Z.eqb_neq _ _) Hh). cbn. apply lookup_insert_eq.
    + destruct (Hv _ _ _ Hk Hop) as (p' & Hq & H1 & H2). exists p'. rewrite lookup_insert_ne by done.
      split_and!; [done|done|]. cbn. rewrite Hx, new_qp_ops; [done|by eapply Hopen].
  - cbn. by eapply new_qp_rest.
Qed.

Lemma efa_create_qp_esafe self i : esafe (efa_create_qp self i).
Proof.
  intros s I. unfold efa_create_qp. apply wp_bind, wp_vb.
  eapply wp_mono; [apply efa_new_qp_spec, I|..].
  2:{ intros e t Ht. unfold EInv. cbn. by eapply failed_einv. }
  intros [[h ty] ops] t Ht. cbn in Ht. apply wp_bind, wp_vb. cbn.
  assert (Ht' := Ht). destruct Ht' as (o & w & sq & rq & a & Et & _ & _ & Hh & Hc & _ & _ & _ & _ & _ & _ & _ & _ & _ & Hx).
  unfold efa_qp_wrap. step. apply wp_peek. destruct (v_qp_to_qp_ex (b_world t) h =? 0) eqn:E0.
  - apply wp_bind, wp_native. intros rc w2 Hf. apply wp_fail. intros e. unfold EInv. cbn.
    destruct (qp_wrap_fails _ _ _ _ _ _ _ _ (ei_inv _ _ I) Ht Hf) as (I2 & _ & Hx2). rewrite Et in I2 |- *.
    destruct I as [I Hp Hv Hr]. constructor; [exact I2|exact Hp| |by eapply new_qp_rest].
    intros r x h' Hr' Ho'. destruct (Hv _ _ _ Hr' Ho') as (p & Hq & H1 & H2). exists p. split_and!; [done..|].
    cbn. rewrite Hx2, new_qp_ops; [done|].
    by apply (open_not_new _ _ _ _ _ _ _ _ I Hc Hh Hr' Ho').
  - unfold QP_wrap. step. apply wp_new. step. apply wp_bind, wp_modify, wp_ret.
    unfold EInv. cbn. destruct (qp_to_qp_ex (b_world t) h) as [Eq|Eq]; [by rewrite Eq in E0|].
    assert (b_heap t = b_heap (ef_b s)) as Eh by by rewrite Et. rewrite Eh.
    eapply (new_qp_einv _ _ _ _ h ops); try done.
Qed.
End EfaQueuePairs.
