(* ===== verification/EfaPost.v ===== *)
(** Posting and polling in the EFA binding: the calls of EfaObjects that the library
    takes in an order only.

    [QP.post_send] builds a batch between [ibv_wr_start] and [ibv_wr_complete] or
    [ibv_wr_abort].  [refusal] says for which reason a work request is refused and
    [request_of] what it asks; the batch is submitted whole, or not at all.
    [CQEx.poll] reads entries between [ibv_start_poll] and [ibv_end_poll], and returns
    the entries it took. *)

From S2P Require Import Prelude Bytes Json.
From S2P Require Import VerbsLib VerbsValues VerbsPost.
From S2P Require Import VerbsObjects VerbsSafety VerbsMethods.
From S2P Require Import VerbsInvariant VerbsAlong VerbsRuns.
From S2P Require Import EfaLib EfaValues EfaObjects EfaSafety EfaInvariant.
#[local] Open Scope Z_scope.

(** * What a work request asks *)

Definition inline (w : EfaSendWR) : bool := negb (Z.land (es_send_flags w) _SEND_INLINE =? 0).
Definition data_of (w : EfaSendWR) : wr_data :=
  if inline w then WrInline ((λ s, (sge_addr s, sge_length s)) <$> es_sg_list w)
  else WrSges (c_sge <$> es_sg_list w).

Definition request_of (m : gmap nat PyObj) (w : EfaSendWR) : option wr_entry :=
  r ← es_ah w;
  x ← m !! r;
  ah ← (of_obj x : option AH);
  op ← wr_op_of w;
  Some (mk_wr_entry (es_wr_id w) (es_send_flags w) op
          (Some (ah_ah ah, es_remote_qpn w, es_remote_qkey w)) (Some (data_of w))).

(** The exception for a work request, on a queue pair with the operations [ops]. *)
Definition refusal (m : gmap nat PyObj) (ops : Z) (w : EfaSendWR) : option exn :=
  match es_ah w with
  | None => Some ValueError
  | Some r =>
      match m !! r ≫= of_obj with
      | None => Some TypeError
      | Some ah =>
          if ah_ah ah =? 0 then Some (VerbsError EBADF)
          else if (64 <? length (es_sg_list w))%nat then Some ValueError
          else if _op_required_bit (es_opcode w) =? 0 then Some ValueError
          else if Z.land ops (_op_required_bit (es_opcode w)) =? 0 then Some ValueError
          else None
      end
  end.
Definition accepted (m : gmap nat PyObj) (ops : Z) (w : EfaSendWR) : Prop := refusal m ops w = None.

Lemma required_bit w : _op_required_bit (es_opcode w) = from_option op_bit 0 (wr_op_of w).
Proof. unfold _op_required_bit, wr_op_of. by repeat case_match. Qed.

Lemma op_bit_nonzero o : op_bit o ≠ 0.
Proof. by destruct o. Qed.

(** ** The arrays *)

Lemma length_fill_at {A} (l : list A) : ∀ i arr, length (fill_at i l arr) = length arr.
Proof. induction l as [|x l IH]; intros i arr; [done|]. cbn. by rewrite IH, length_insert. Qed.

Lemma lookup_fill_at {A} (l : list A) : ∀ i arr k,
  (k < i)%nat → fill_at i l arr !! k = arr !! k.
Proof.
  induction l as [|x l IH]; intros i arr k Hk; [done|]. cbn. rewrite IH by lia.
  apply list_lookup_insert_ne. lia.
Qed.

Lemma drop_fill_at {A} (l : list A) : ∀ i arr,
  (i + length l ≤ length arr)%nat → take (length l) (drop i (fill_at i l arr)) = l.
Proof.
  induction l as [|x l IH]; intros i arr Hi; [done|]. cbn [length fill_at] in *.
  assert (Hx : fill_at (S i) l (<[i:=x]> arr) !! i = Some x).
  { rewrite lookup_fill_at by lia. apply list_lookup_insert_eq. lia. }
  rewrite (drop_S _ x) by exact Hx. cbn [take]. f_equal. apply IH. rewrite length_insert. lia.
Qed.

Lemma take_fill_at {A C} (f : A → C) (l : list A) arr :
  (length l ≤ length arr)%nat → take (length l) (fill_at 0 (f <$> l) arr) = f <$> l.
Proof. rewrite <-(length_fmap f l). exact (drop_fill_at (f <$> l) 0 arr). Qed.

(** * One call of a batch or poll *)

Section Post.
Context {W : Type} `{!Libibverbs W} `{!LibibverbsLaws W} `{!Libefa W} `{!LibefaLaws W}.
Abbreviation B := (Binding W).
Abbreviation E := (Efa W).
Implicit Types (b t : B) (s : E) (w : W) (x : Extended).

Lemma wp_ordered {A} (f : W → A * W) (Q : A → B → Prop) X b :
  Inv b → keeps live intact (b_world b) (f (b_world b)).2 →
  (Inv (set_world (f (b_world b)).2 b) → Q (f (b_world b)).1 (set_world (f (b_world b)).2 b)) →
  wp (native f) Q X b.
Proof.
  intros I Hk HQ. unfold wp, native. specialize (HQ (Inv_keeps _ _ I Hk)).
  by destruct (f (b_world b)).
Qed.

Lemma wp_assoc {S A C D} (n : M S A) (f : A → M S C) (g : C → M S D) Q X (s : S) :
  wp (n ≫= f) (λ c, wp (g c) Q X) X s → wp (n ≫= λ a, f a ≫= g) Q X s.
Proof.
  rewrite !wp_bind. intros H. eapply wp_mono; [exact H| |done]. intros a t Ht. by apply wp_bind.
Qed.

Lemma wp_load_eq {O} `{!PyClass O} r (Q : O → B → Prop) X b :
  wp (load r) Q X b ↔ match b_heap b !! r ≫= of_obj with Some o => Q o b | None => X TypeError b end.
Proof. unfold wp, load. by destruct (_ ≫= _). Qed.

(** The batch of [q] is [l], and nothing else has changed since [x]. *)
Definition batch q l x : Extended := set_batch (<[q := l]> (ex_batch x)) x.

Lemma batch_batch q l l' x : batch q l (batch q l' x) = batch q l x.
Proof. unfold batch, set_batch. cbn. by rewrite insert_insert_eq. Qed.
Lemma add_to_batch q l e x : add_entry q e (batch q l x) = batch q (l ++ [e]) x.
Proof. unfold add_entry, batch, set_batch. cbn. by rewrite lookup_insert_eq, insert_insert_eq. Qed.
Lemma change_in_batch q l e f x : change_last q f (batch q (l ++ [e]) x) = batch q (l ++ [f e]) x.
Proof.
  unfold change_last, batch, set_batch. cbn. f_equal. rewrite alter_insert_eq. f_equal.
  rewrite rev_app_distr. cbn. by rewrite rev_involutive.
Qed.
Lemma end_of_batch q l ok x :
  ex_batch x !! q = None →
  end_batch q ok (batch q l x) =
    if ok : bool then set_sent (<[q := sent x q ++ l]> (ex_sent x)) x else x.
Proof.
  intros Hq. unfold end_batch, batch, set_batch, set_sent. cbn. rewrite lookup_insert_eq.
  rewrite delete_insert_id by done. by destruct ok, x.
Qed.

(** ** Posting *)

(** While a batch is built, on the heap [m]. *)
Record batching (m : gmap nat PyObj) (q : Z) (l : list wr_entry) (x : Extended) t : Prop := {
  bt_inv : Inv t;
  bt_heap : b_heap t = m;
  bt_ext : extended (b_world t) = batch q l x;
}.

Context (m : gmap nat PyObj) (q : Z).
Context (Hq : ∃ r o, m !! r = Some (OQP o) ∧ qp_qp o = q ∧ q ≠ 0).

Lemma batching_alive t : Inv t → b_heap t = m → alive (live (b_world t)) is_qp q.
Proof using Hq.
  intros I Hm. destruct Hq as (r & o & Hr & <- & Hz). rewrite <-Hm in Hr. by eapply alive_qp.
Qed.

Context (ops : Z) (x : Extended) (Hops : ex_ops x !! q = Some ops).

(** One call of a batch, which becomes [l']. *)
Lemma wp_batched (f : W → W) l l' (Q : unit → B → Prop) X t :
  batching m q l x t →
  (intact (b_world t) → alive (live (b_world t)) is_qp q →
   ex_batch (extended (b_world t)) !! q = Some l → ex_ops (extended (b_world t)) !! q = Some ops →
   keeps live intact (b_world t) (f (b_world t))) →
  extended (f (b_world t)) = batch q l' x →
  (∀ t', batching m q l' x t' → Q tt t') → wp (native_ f) Q X t.
Proof using Hq Hops.
  intros [I Hm Hx] Hk Hf HQ. apply wp_ordered; [done| |].
  - cbn. apply Hk; [by apply inv_intact|by apply batching_alive| |]; rewrite Hx; [apply lookup_insert_eq|done].
  - cbn. intros I'. by apply HQ.
Qed.

(** The call for the operation and the destination. *)
Lemma wp_dispatch (id flags qpn qkey : Z) op ah r l (Q : unit → B → Prop) X t :
  batching m q l x t → forallb complete l = true → m !! r = Some (OAH ah) → ah_ah ah ≠ 0 →
  installed ops op →
  (∀ t', batching m q (l ++ [mk_wr_entry id flags op (Some (ah_ah ah, qpn, qkey)) None]) x t' → Q tt t') →
  wp (native_ (wr_op_call q id flags op);; native_ (wr_set_ud_addr q (ah_ah ah) qpn qkey)) Q X t.
Proof using Hq Hops.
  intros Ht Hl Hr Hz Hop HQ. apply wp_bind.
  eapply (wp_batched _ l (l ++ [mk_wr_entry id flags op None None])); [exact Ht| | |].
  - intros ????. by eapply law_wr_op.
  - rewrite ext_wr_op, (bt_ext _ _ _ _ _ Ht). apply add_to_batch.
  - intros t1 Ht1. eapply wp_batched; [exact Ht1| | |exact HQ].
    + intros ????. eapply law_wr_set_ud_addr; [done..|].
      destruct Ht1 as [I Hm _]. eapply alive_ah; [done|by rewrite Hm|done].
    + rewrite ext_wr_set_ud_addr, (bt_ext _ _ _ _ _ Ht1). apply change_in_batch.
Qed.

Lemma wp_data d e l (Q : unit → B → Prop) X t :
  batching m q (l ++ [e]) x t → (∀ t', batching m q (l ++ [set_data d e]) x t' → Q tt t') →
  wp (native_ (wr_set_data q d)) Q X t.
Proof using Hq Hops.
  intros Ht HQ. eapply wp_batched; [exact Ht| | |exact HQ].
  - intros ????. by eapply law_wr_set_data.
  - rewrite ext_wr_set_data, (bt_ext _ _ _ _ _ Ht). apply change_in_batch.
Qed.

(** One work request: refused before any call, or added to the batch as it asks. *)
Definition sized {A C} (p : list A * list C) : Prop := length p.1 = 64%nat ∧ length p.2 = 64%nat.

Lemma wp_post_one (wr : EfaSendWR) bufs sges l t :
  batching m q l x t → forallb complete l = true → sized (bufs, sges) →
  wp (post_one q ops wr bufs sges)
    (λ p t', sized p ∧ accepted m ops wr ∧
       ∃ e, request_of m wr = Some e ∧ complete e = true ∧ batching m q (l ++ [e]) x t')
    (λ e t', refusal m ops wr = Some e ∧ batching m q l x t') t.
Proof using Hq Hops.
  intros Ht Hl [Hb Hs]. cbn in Hb, Hs. pose proof (bt_heap _ _ _ _ _ Ht) as Hm.
  unfold post_one, accepted, refusal, request_of.
  destruct (es_ah wr) as [r|] eqn:Ha; [|by step]. cbn [mbind option_bind]. step.
  apply wp_load_eq. rewrite Hm. destruct (m !! r ≫= of_obj) as [ah|] eqn:Hr; [|done].
  assert (Hh : m !! r = Some (OAH ah)).
  { destruct (m !! r) as [[]|]; try done. cbn in Hr. by injection Hr as ->. }
  rewrite Hh in Hr |- *. cbn [mbind option_bind] in Hr |- *. rewrite ?Hr. cbn [mbind option_bind]. step. unfold ah_ensure, ensure.
  apply wp_guard_raise. destruct (ah_ah ah =? 0) eqn:Ez; [done|]. step. apply wp_guard_raise.
  destruct (64 <? length (es_sg_list wr))%nat eqn:E64; [done|]. step. apply wp_guard_raise.
  destruct (_op_required_bit (es_opcode wr) =? 0) eqn:Eb; [done|]. step. apply wp_guard_raise.
  destruct (Z.land ops _ =? 0) eqn:Eo; [done|]. rewrite required_bit in Eb, Eo.
  destruct (wr_op_of wr) as [op|]; [|done]. cbn [from_option mbind option_bind] in *.
  apply Nat.ltb_ge in E64. apply wp_assoc.
  eapply (wp_dispatch _ _ _ _ _ ah); [exact Ht|done|exact Hh|lia|unfold installed; lia|]. intros t1 Ht1.
  assert (Hd : ∀ d (p : list (Z * Z) * list ibv_sge), sized p → d = data_of wr →
    wp (native_ (wr_set_data q d);; mret p)
      (λ p t', sized p ∧ @None exn = None ∧ ∃ e,
        Some (mk_wr_entry (es_wr_id wr) (es_send_flags wr) op
          (Some (ah_ah ah, es_remote_qpn wr, es_remote_qkey wr)) (Some (data_of wr))) = Some e ∧
        complete e = true ∧ batching m q (l ++ [e]) x t')
      (λ e t', None = Some e ∧ batching m q l x t') t1).
  { intros d p Hp ->. step. eapply wp_data; [exact Ht1|]. intros t2 Ht2. step.
    split_and!; [apply Hp..|done|]. eexists. by split_and!. }
  unfold data_of, inline in Hd |- *. cbn zeta. destruct (negb _).
  - apply Hd; [by split; [cbn; rewrite length_fill_at|]|]. f_equal. apply take_fill_at. lia.
  - apply Hd; [by split; [|cbn; rewrite length_fill_at]|]. f_equal. apply take_fill_at. lia.
Qed.

(** The first work request that is refused gives the exception. *)
Definition refused (wrs : list EfaSendWR) (e : exn) : Prop :=
  ∃ pre wr rest, wrs = pre ++ wr :: rest ∧ Forall (accepted m ops) pre ∧ refusal m ops wr = Some e.
(** The work requests are all accepted, and ask for [es]. *)
Definition asked (wrs : list EfaSendWR) (es : list wr_entry) : Prop :=
  Forall (accepted m ops) wrs ∧ request_of m <$> wrs = Some <$> es.

Lemma wp_post_each wrs : ∀ bufs sges l t,
  batching m q l x t → forallb complete l = true → sized (bufs, sges) →
  wp (post_each q ops wrs bufs sges)
    (λ _ t', ∃ es, asked wrs es ∧ forallb complete (l ++ es) = true ∧ batching m q (l ++ es) x t')
    (λ e t', refused wrs e ∧ ∃ l', batching m q l' x t') t.
Proof using Hq Hops.
  induction wrs as [|wr wrs IH]; intros bufs sges l t Ht Hl Hs; cbn [post_each].
  { step. exists []. rewrite app_nil_r. by split_and!. }
  step. eapply wp_mono; [by apply wp_post_one| |].
  - intros [bufs' sges'] t1 (Hs' & Ha & e & He & Hc & Ht1). eapply wp_mono; [eapply IH; [exact Ht1| |exact Hs']| |].
    + by rewrite forallb_app, Hl; cbn; rewrite Hc.
    + intros _ t2 (es & [Has Hes] & Hce & Ht2). rewrite <-app_assoc in Hce, Ht2. exists (e :: es).
      split_and!; [|done|done]. split; [by constructor|]. cbn. by rewrite He, Hes.
    + intros e' t2 [(pre & wr' & rest & -> & Hp & Hr) Hl']. split; [|done].
      exists (wr :: pre), wr', rest. split_and!; [done|by constructor|done].
  - intros e t1 [Hr Ht1]. split; [|eauto]. exists [], wr, wrs. by split_and!.
Qed.
End Post.

(** ** The whole call *)

Section PostSend.
Context {W : Type} `{!Libibverbs W} `{!LibibverbsLaws W} `{!Libefa W} `{!LibefaLaws W}.
Abbreviation B := (Binding W).
Abbreviation E := (Efa W).
Implicit Types (b t : B) (s : E) (w : W) (x : Extended).

(** [es] was submitted to [q], and nothing else happened. *)
Record submitted (q : Z) (es : list wr_entry) x x' : Prop := {
  su_sent : sent x' q = sent x q ++ es;
  su_other k : k ≠ q → sent x' k = sent x k;
  su_rest : set_sent ∅ x' = set_sent ∅ x;
}.

Lemma submitted_set q es x : submitted q es x (set_sent (<[q := sent x q ++ es]> (ex_sent x)) x).
Proof.
  split; [| |done]; unfold sent; cbn; [by rewrite lookup_insert_eq|].
  intros k Hk. by rewrite lookup_insert_ne.
Qed.

Lemma wp_post_send_ex (m : gmap nat PyObj) q ops wrs b :
  Inv b → b_heap b = m → (∃ r o, m !! r = Some (OQP o) ∧ qp_qp o = q ∧ q ≠ 0) →
  ex_ops (extended (b_world b)) !! q = Some ops → ex_batch (extended (b_world b)) !! q = None →
  wp (_post_send_ex q wrs ops)
    (λ _ t, Inv t ∧ b_heap t = m ∧
       ∃ es, asked m ops wrs es ∧ submitted q es (extended (b_world b)) (extended (b_world t)))
    (λ e t, Inv t ∧ b_heap t = m ∧ extended (b_world t) = extended (b_world b) ∧
       (refused m ops wrs e ∨ ∃ es rc, asked m ops wrs es ∧ rc ≠ 0 ∧ e = VerbsError rc)) b.
Proof.
  intros I Hm Hq Hops Hb. set (x := extended (b_world b)) in *. unfold _post_send_ex.
  destruct (length wrs =? 0)%nat eqn:E0.
  { apply Nat.eqb_eq, nil_length_inv in E0 as ->. step. split_and!; [done..|]. exists [].
    split; [by split|]. split; [by rewrite app_nil_r|done|done]. }
  assert (Hal : ∀ t, Inv t → b_heap t = m → alive (live (b_world t)) is_qp q)
    by (intros t It Ht; by eapply batching_alive).
  step. apply wp_ordered; [done| |].
  { cbn. apply law_wr_start; [by apply inv_intact|by apply Hal|done]. }
  cbn. intros I1. set (t1 := set_world _ b) in *.
  assert (Ht1 : batching m q [] x t1).
  { split; [done|done|]. cbn. by rewrite ext_wr_start. }
  step. apply wp_try_except. eapply wp_mono; [by eapply wp_post_each| |].
  - intros _ t2 (es & Ha & Hc & [I2 Hm2 Hx2]). cbn [app] in *. apply wp_bind. apply wp_ordered; [done| |].
    { eapply law_wr_complete; [by apply inv_intact|by apply Hal| |exact Hc]. rewrite Hx2. apply lookup_insert_eq. }
    intros I3. pose proof (ext_wr_complete q (b_world t2)) as Hx3. rewrite Hx2, end_of_batch in Hx3 by done.
    destruct (wr_complete q (b_world t2)) as [rc w3]. cbn [fst snd] in *.
    apply wp_guard_raise. destruct (rc =? 0) eqn:Erc; cbn [negb].
    + split_and!; [done|done|]. exists es. split; [done|]. cbn. rewrite Hx3. apply submitted_set.
    + split_and!; [done|done|done|]. right. exists es, rc. split_and!; [done|lia|done].
  - intros e t2 (Hr & l' & [I2 Hm2 Hx2]). step. apply wp_ordered; [done| |].
    { eapply law_wr_abort; [by apply inv_intact|by apply Hal|]. rewrite Hx2. apply lookup_insert_eq. }
    cbn. intros I3. split_and!; [done|done| |by left]. by rewrite ext_wr_abort, Hx2, end_of_batch.
Qed.

(** [post_send] on an open queue pair. *)
Lemma wp_efa_post_send self o p wrs s :
  EInv s → b_heap (ef_b s) !! self = Some (OQP o) → qp_qp o ≠ 0 → ef_qpx s !! self = Some p →
  wp (efa_post_send self wrs)
    (λ _ u, EInv u ∧ b_heap (ef_b u) = b_heap (ef_b s) ∧
       ∃ es, asked (b_heap (ef_b s)) (qpp_send_ops_flags p) wrs es ∧
         submitted (qp_qp o) es (extended (b_world (ef_b s))) (extended (b_world (ef_b u))))
    (λ e u, EInv u ∧ b_heap (ef_b u) = b_heap (ef_b s) ∧
       extended (b_world (ef_b u)) = extended (b_world (ef_b s)) ∧
       (refused (b_heap (ef_b s)) (qpp_send_ops_flags p) wrs e ∨
        ∃ es rc, asked (b_heap (ef_b s)) (qpp_send_ops_flags p) wrs es ∧ rc ≠ 0 ∧ e = VerbsError rc)) s.
Proof.
  destruct s as [b cqx qpx lh]. unfold EInv. cbn. intros I Hs Hz Hp. unfold efa_post_send.
  apply wp_bind, wp_vb, wp_load_eq. cbn. rewrite Hs. cbn. apply wp_bind, wp_vb, wp_guard_raise.
  rewrite (proj2 (Z.eqb_neq _ _) Hz).
  apply wp_bind. unfold qpx_of. step. apply wp_get. cbn. rewrite Hp. step.
  destruct I as [I Hpl Hv Hr]. destruct (Hv self (OQP o) (qp_qp o) Hs) as (p' & Hp' & Hx & Hops); [by exists o|].
  rewrite Hp in Hp'. injection Hp' as <-. apply wp_vb. cbn.
  assert (Hkeep : ∀ t, Inv t → b_heap t = b_heap b →
    set_sent ∅ (extended (b_world t)) = set_sent ∅ (extended (b_world b)) → einv t qpx).
  { intros t It Ht Hxt. unfold set_sent in Hxt. injection Hxt as E1 E2 E3 E4. constructor; [done| | |].
    - intros r y Hy. rewrite Ht in Hy. by eapply Hpl.
    - intros r y h Hy Hh. rewrite Ht in Hy. destruct (Hv _ _ _ Hy Hh) as (p' & ? & ? & Ho).
      exists p'. by rewrite E2.
    - unfold at_rest in *. by rewrite E1, E3. }
  rewrite Hx. eapply wp_mono; [apply (wp_post_send_ex (b_heap b)); [done|done|by eauto|done|by apply Hr]| |].
  - intros _ t (It & Ht & es & Ha & Hsu). cbn. split_and!; [|done|eauto]. apply Hkeep; [done..|]. by destruct Hsu.
  - intros e t (It & Ht & Hxt & Hex). cbn. split_and!; [|done..]. apply Hkeep; [done..|]. by rewrite Hxt.
Qed.

Lemma efa_post_send_esafe self wrs : esafe (efa_post_send self wrs).
Proof.
  intros s I. destruct (b_heap (ef_b s) !! self) as [x|] eqn:Hs.
  2:{ unfold efa_post_send. apply wp_bind, wp_vb, wp_load_eq. rewrite Hs. cbn. by destruct s. }
  destruct (of_obj x : option QP) as [o|] eqn:Ho.
  2:{ unfold efa_post_send. apply wp_bind, wp_vb, wp_load_eq. rewrite Hs.
      cbn [mbind option_bind]. rewrite Ho. by destruct s. }
  rewrite (of_obj_some _ _ Ho) in Hs. destruct (decide (qp_qp o = 0)) as [Hz|Hz].
  { unfold efa_post_send. apply wp_bind, wp_vb, wp_load_eq. rewrite Hs. cbn.
    apply wp_bind, wp_vb, wp_guard_raise. rewrite Hz. by destruct s. }
  destruct (ei_views _ _ I self (OQP o) (qp_qp o) Hs) as (p & Hp & _); [by exists o|].
  eapply wp_mono; [by eapply wp_efa_post_send|..]; by intros ?? [? _].
Qed.
End PostSend.

(** * Polling *)

Section Polling.
Context {W : Type} `{!Libibverbs W} `{!LibibverbsLaws W} `{!Libefa W} `{!LibefaLaws W}.
Abbreviation B := (Binding W).
Abbreviation E := (Efa W).
Implicit Types (b t : B) (s u : E) (w : W) (x : Extended).

(** The entries [vs] were taken from [c]. *)
Definition polled (c : Z) (vs : list cqe_view) x : Extended :=
  set_taken (<[c := taken x c ++ vs]> (ex_taken x)) x.
Definition in_poll (c : Z) x : Extended := set_polling ({[c]} ∪ ex_polling x) x.

Lemma polled_more c vs v x : take_entry c v (polled c vs x) = polled c (vs ++ [v]) x.
Proof.
  unfold take_entry, polled, set_taken, taken. cbn. rewrite lookup_insert_eq, insert_insert_eq. cbn.
  by rewrite (assoc_L (++)).
Qed.
Lemma polled_taken c vs x : taken (polled c vs x) c = taken x c ++ vs.
Proof. unfold polled, taken. cbn. by rewrite lookup_insert_eq. Qed.

(** The queue [c] is being polled: [vs] were taken, the last of which it is at. *)
Record polling (m : gmap nat PyObj) (c : Z) (vs : list cqe_view) x t : Prop := {
  po_inv : Inv t;
  po_heap : b_heap t = m;
  po_ext : extended (b_world t) = polled c vs (in_poll c x);
  po_at : last vs = Some (cq_current (b_world t) c);
}.
(** ... wherever it is. *)
Definition taking (m : gmap nat PyObj) c vs x t : Prop :=
  Inv t ∧ b_heap t = m ∧ extended (b_world t) = polled c vs (in_poll c x).

Context (m : gmap nat PyObj) (c : Z) (x : Extended) (part : CQExPart) (n : Z).
Context (Hc : ∃ r o, m !! r = Some (OCQ o) ∧ cq_cq o = c ∧ c ≠ 0).

Lemma polled_alive t : Inv t → b_heap t = m → alive (live (b_world t)) is_cq c.
Proof using Hc.
  intros I Hm. destruct Hc as (r & o & Hr & <- & Hz). rewrite <-Hm in Hr. by eapply alive_cq.
Qed.

Lemma wp_poll_loop fuel : ∀ out vs v t,
  polling m c (vs ++ [v]) x t → out = WC_of_cqe part <$> vs → Z.of_nat (length out) < n →
  (Z.to_nat (n - Z.of_nat (length out)) ≤ fuel)%nat →
  wp (poll_loop fuel c part n out)
    (λ out' t', ∃ vs', out' = WC_of_cqe part <$> vs' ∧ vs' ≠ [] ∧ Z.of_nat (length vs') ≤ n ∧ taking m c vs' x t')
    (λ _ t', ∃ vs', vs' ≠ [] ∧ Z.of_nat (length vs') < n ∧ taking m c vs' x t') t.
Proof using Hc.
  induction fuel as [|fuel IH]; intros out vs v t Ht Hout Hlt Hf; [lia|]. cbn [poll_loop].
  step. apply wp_peek. destruct Ht as [I Hm Hx Hat]. rewrite last_snoc in Hat. injection Hat as <-.
  cbn zeta. assert (Hl : length (out ++ [WC_of_cqe part v]) = S (length vs)).
  { rewrite length_app, Hout, length_fmap. cbn. lia. }
  assert (Ho : out ++ [WC_of_cqe part v] = WC_of_cqe part <$> vs ++ [v]) by by rewrite fmap_app, Hout.
  assert (Hne : vs ++ [v] ≠ []) by (intros E0; by apply app_nil in E0 as [_ ?]).
  rewrite Hl. rewrite Hout, length_fmap in Hlt, Hf.
  assert (Hlv : length (vs ++ [v]) = S (length vs)) by (rewrite length_app; cbn; lia).
  destruct (n <=? _) eqn:En.
  { step. exists (vs ++ [v]). split_and!; [done|done|lia|done]. }
  apply wp_bind. apply wp_ordered; [done| |].
  { apply law_next_poll; [by apply inv_intact|by apply polled_alive|]. rewrite Hx. cbn. set_solver. }
  intros I1. pose proof (ext_next_poll c (b_world t)) as Hx1. rewrite Hx, polled_more in Hx1.
  destruct (cq_next_poll c (b_world t)) as [rc w1]. cbn [fst snd] in *.
  destruct (rc =? ENOENT) eqn:Enoent.
  { replace (rc =? 0) with false in Hx1 by (unfold ENOENT in Enoent; lia). step.
    exists (vs ++ [v]). split_and!; [done|done|lia|by split_and!]. }
  step. apply wp_check_rc.
  - intros ->. cbn in Hx1. eapply (IH _ (vs ++ [v])); [|done|lia|lia]. split; [done|done|exact Hx1|].
    by rewrite last_snoc.
  - intros Hrc _. rewrite (proj2 (Z.eqb_neq _ _) Hrc) in Hx1. exists (vs ++ [v]).
    split_and!; [done|lia|by split_and!].
Qed.

Lemma wp_poll_ex b :
  Inv b → b_heap b = m → extended (b_world b) = x → c ∉ ex_polling x → 0 < n →
  wp (poll_ex c part n)
    (λ out t, Inv t ∧ b_heap t = m ∧ ∃ vs, out = WC_of_cqe part <$> vs ∧ Z.of_nat (length vs) ≤ n ∧
       extended (b_world t) = if bool_decide (vs = []) then x else polled c vs x)
    (λ _ t, Inv t ∧ b_heap t = m ∧ ∃ vs, Z.of_nat (length vs) < n ∧
       extended (b_world t) = if bool_decide (vs = []) then x else polled c vs x) b.
Proof using Hc.
  intros I Hm Hx Hp Hn. unfold poll_ex. apply wp_bind. apply wp_ordered; [done| |].
  { apply law_start_poll; [by apply inv_intact|by apply polled_alive|by rewrite Hx]. }
  intros I1. pose proof (ext_start_poll c (b_world b)) as Hx1. rewrite Hx in Hx1.
  destruct (cq_start_poll c (b_world b)) as [rc w1]. cbn [fst snd] in *.
  destruct (rc =? ENOENT) eqn:Enoent.
  { replace (rc =? 0) with false in Hx1 by (unfold ENOENT in Enoent; lia). step.
    split_and!; [done|done|]. exists []. cbn. split_and!; [done|lia|done]. }
  step. apply wp_check_rc.
  2:{ intros Hrc _. rewrite (proj2 (Z.eqb_neq _ _) Hrc) in Hx1. split_and!; [done|done|].
      exists []. cbn. split_and!; [lia|done]. }
  intros ->. cbn in Hx1. apply wp_try_finally.
  assert (Hend : ∀ vs t (Q : unit → B → Prop) X, vs ≠ [] → taking m c vs x t →
    (∀ t', Inv t' → b_heap t' = m →
       extended (b_world t') = (if bool_decide (vs = []) then x else polled c vs x) → Q tt t') →
    wp (native_ (cq_end_poll c)) Q X t).
  { intros vs t Q X Hne (It & Ht & Hxt) HQ. apply wp_ordered; [done| |].
    - cbn. apply law_end_poll; [by apply inv_intact|by apply polled_alive|]. rewrite Hxt. cbn. set_solver.
    - cbn. intros I'. apply HQ; [done|done|]. cbn. rewrite ext_end_poll, Hxt, bool_decide_false by done.
      unfold polled, in_poll, set_taken, set_polling. cbn. f_equal. set_solver. }
  eapply wp_mono; [apply (wp_poll_loop _ [] [] (cq_current w1 c))| |].
  - split; [done|done|exact Hx1|done].
  - done.
  - done.
  - cbn. lia.
  - intros out t (vs & -> & Hne & Hl & Ht). eapply Hend; [done|exact Ht|]. intros t' I' Hm' Hx'. eauto 6.
  - intros e t (vs & Hne & Hl & Ht). eapply Hend; [done|exact Ht|]. intros t' I' Hm' Hx'. eauto 6.
Qed.
End Polling.

(** ** The whole call *)

Section Poll.
Context {W : Type} `{!Libibverbs W} `{!LibibverbsLaws W} `{!Libefa W} `{!LibefaLaws W}.
Abbreviation B := (Binding W).
Abbreviation E := (Efa W).
Implicit Types (b t : B) (s u : E) (w : W) (x : Extended).

(** The entries [vs] were taken from [c], and nothing else happened. *)
Record received (c : Z) (vs : list cqe_view) x x' : Prop := {
  rc_taken : taken x' c = taken x c ++ vs;
  rc_other k : k ≠ c → taken x' k = taken x k;
  rc_rest : set_taken ∅ x' = set_taken ∅ x;
}.

Lemma received_polled c vs x x' :
  x' = (if bool_decide (vs = []) then x else polled c vs x) → received c vs x x'.
Proof.
  intros ->. case_bool_decide as Hv; [subst; split; [by rewrite app_nil_r|done|done]|].
  split; [apply polled_taken| |done]. intros k Hk. unfold taken, polled. cbn. by rewrite lookup_insert_ne.
Qed.

Lemma wp_CQEx_poll self o p n s :
  EInv s → b_heap (ef_b s) !! self = Some (OCQ o) → cq_cq o ≠ 0 → ef_cqx s !! self = Some p →
  wp (CQEx_poll self n)
    (λ out u, EInv u ∧ b_heap (ef_b u) = b_heap (ef_b s) ∧ ∃ vs, out = WC_of_cqe p <$> vs ∧
       Z.of_nat (length vs) ≤ n ∧
       received (cq_cq o) vs (extended (b_world (ef_b s))) (extended (b_world (ef_b u))))
    (λ _ u, EInv u ∧ b_heap (ef_b u) = b_heap (ef_b s) ∧ ∃ vs, (vs = [] ∨ Z.of_nat (length vs) < n) ∧
       received (cq_cq o) vs (extended (b_world (ef_b s))) (extended (b_world (ef_b u)))) s.
Proof.
  destruct s as [b cqx qpx lh]. unfold EInv. cbn. intros I Hs Hz Hp.
  set (c := cq_cq o). set (x := extended (b_world b)).
  assert (Hsame : received c [] x x) by (split; [by rewrite app_nil_r|done|done]).
  unfold CQEx_poll. apply wp_bind, wp_vb, wp_lift. destruct (to_int n) as [n'|e] eqn:En; [|cbn; eauto 6].
  apply to_int_ok in En as [-> _]. cbn. apply wp_bind. unfold cqx_of. step. apply wp_get. cbn. rewrite Hp. step.
  apply wp_bind, wp_vb, wp_load_eq. cbn. rewrite Hs. cbn. apply wp_bind, wp_vb, wp_guard_raise.
  rewrite (proj2 (Z.eqb_neq _ _) Hz). apply wp_bind, wp_vb, wp_guard_raise. cbn.
  destruct (n <=? 0) eqn:En; [cbn; eauto 6|]. apply wp_vb. cbn.
  destruct I as [I Hpl Hv [Hr1 Hr2]].
  assert (Hkeep : ∀ vs t, Inv t → b_heap t = b_heap b →
    extended (b_world t) = (if bool_decide (vs = []) then x else polled c vs x) →
    einv t qpx ∧ received c vs x (extended (b_world t))).
  { intros vs t It Ht Hxt. pose proof (received_polled _ _ _ _ Hxt) as Hrec. split; [|done].
    pose proof (rc_rest _ _ _ _ Hrec) as E0. unfold set_taken in E0. injection E0 as E1 E2 E3 E4.
    constructor; [done| | |].
    - intros r y Hy. rewrite Ht in Hy. by eapply Hpl.
    - intros r y h Hy Hh. rewrite Ht in Hy. destruct (Hv _ _ _ Hy Hh) as (p' & ? & ? & Ho).
      exists p'. by rewrite E3.
    - unfold at_rest. rewrite E1, E4. by split. }
  eapply wp_mono; [apply (wp_poll_ex (b_heap b) c x); try done; [by eauto|subst x; rewrite Hr2; set_solver|lia]| |].
  - intros out t (It & Ht & vs & -> & Hl & Hxt). destruct (Hkeep _ _ It Ht Hxt). eauto 6.
  - intros e t (It & Ht & vs & Hl & Hxt). destruct (Hkeep _ _ It Ht Hxt). eauto 7.
Qed.

Lemma CQEx_poll_esafe self n : esafe (CQEx_poll self n).
Proof.
  intros s I. destruct (ef_cqx s !! self) as [p|] eqn:Hp.
  2:{ unfold CQEx_poll. apply wp_bind, wp_vb, wp_lift. destruct (to_int n); [|by destruct s].
      apply wp_bind. unfold cqx_of. step. apply wp_get. cbn. by rewrite Hp; destruct s. }
  destruct (b_heap (ef_b s) !! self ≫= (of_obj : PyObj → option CQ)) as [o|] eqn:Ho.
  - assert (Hs : b_heap (ef_b s) !! self = Some (OCQ o)).
    { destruct (b_heap (ef_b s) !! self) as [[]|]; try done. cbn in Ho. by injection Ho as ->. }
    destruct (decide (cq_cq o = 0)) as [Hz|Hz].
    + unfold CQEx_poll. apply wp_bind, wp_vb, wp_lift. destruct (to_int n); [|by destruct s].
      apply wp_bind. unfold cqx_of. step. apply wp_get. cbn. rewrite Hp. step.
      apply wp_bind, wp_vb, wp_load_eq. destruct s as [b cqx qpx lh]. cbn in Hs |- *. rewrite Hs. cbn.
      apply wp_bind, wp_vb, wp_guard_raise. by rewrite Hz.
    + eapply wp_mono; [by eapply wp_CQEx_poll|..]; by intros ?? [? _].
  - unfold CQEx_poll. apply wp_bind, wp_vb, wp_lift. destruct (to_int n); [|by destruct s].
    apply wp_bind. unfold cqx_of. step. apply wp_get. cbn. rewrite Hp. step.
    apply wp_bind, wp_vb, wp_load_eq. destruct s as [b cqx qpx lh]. cbn [set_b ef_b] in Ho |- *. by rewrite Ho.
Qed.
End Poll.
