(* ===== verification/EfaRuns.v ===== *)
(** Runs of a program on the EFA binding: any sequence of the methods of EfaObjects on
    any arguments, going on after the exceptions they raise, with the garbage collector
    dropping objects in between.  Every state of a run satisfies the invariant of
    EfaInvariant; the one condition is on [ack_events], whose check compares as a
    signed number. *)

From S2P Require Import Prelude Bytes Json.
From S2P Require Import VerbsLib VerbsValues VerbsPost.
From S2P Require Import VerbsObjects VerbsSafety VerbsMethods.
From S2P Require Import VerbsInvariant VerbsAlong VerbsRuns.
From S2P Require Import EfaLib EfaValues EfaObjects EfaSafety EfaInvariant.
From S2P Require Import EfaPost.
#[local] Open Scope Z_scope.

(** * Loading, events and collection *)

Section Rest.
Context {W : Type} `{!Libibverbs W} `{!LibibverbsLaws W} `{!Libefa W} `{!LibefaLaws W}.
Abbreviation B := (Binding W).
Abbreviation E := (Efa W).
Implicit Types (b t : B) (s u : E) (w : W).

Lemma framed_loads :
  (∀ n, framed (_dl (W := W) n)) ∧ (∀ h, framed (modify (set_libhandle (W := W) h))) ∧
  (∀ h l, framed (for_each (load_sym (W := W) h) l)) ∧
  (∀ h l, framed (for_each (opt_sym (W := W) h) l)) ∧ (∀ h n, framed (opt_sym (W := W) h n)).
Proof.
  repeat match goal with |- _ ∧ _ => split end; intros; split;
    autounfold with verbs_methods; [quiet|unnoticed|quiet|unnoticed|quiet|unnoticed|quiet|unnoticed|quiet|unnoticed].
Qed.

Lemma dl_safe n : safe (_dl (W := W) n).
Proof.
  intros b I. unfold _dl. apply wp_bind, wp_kept; [done|by apply law_dl_open, inv_intact|].
  intros h t _ _ It. by steps.
Qed.
Lemma opt_sym_safe h n : safe (opt_sym (W := W) h n).
Proof. intros b I. unfold opt_sym, set_sym. step. step. by apply wp_modify. Qed.
Lemma opt_syms_safe h l : safe (for_each (opt_sym (W := W) h) l).
Proof.
  induction l as [|n l IH]; intros b I; [done|]. cbn [for_each]. step.
  eapply wp_mono; [by apply opt_sym_safe| |done]. intros [] t It. by apply IH.
Qed.

Lemma load_libraries_esafe : esafe (_load_libraries (W := W)).
Proof.
  destruct framed_loads as (F1 & F2 & F3 & F4 & F5). unfold _load_libraries.
  repeat (apply esafe_bind; [|intros ?]);
    try (apply esafe_vb; [done|apply bsafe_of]);
    auto using dl_safe, load_syms_safe, opt_sym_safe, opt_syms_safe.
  - intros b I. by apply wp_modify.
  - by intros s I.
Qed.

Lemma framed_ack_async_event r ev : framed (efa_ack_async_event (W := W) r ev).
Proof.
  unfold efa_ack_async_event, ack_async_event. split; [|unnoticed].
  intros b. unfold mbind, M_bind, load. destruct (b_heap b !! ev) as [[]|] eqn:Hev; try reflexivity.
  cbn. destruct (ev_acked _); [reflexivity|]. cbn.
  etransitivity; [apply (evolves_same b (set_world (v_ack_async_event (event_type o) (b_world b)) b)); reflexivity|].
  eapply (hr_store (R := evolves) (set_world _ b)); [exact Hev|]. split; [done|by intros ? (? & [=] & _)].
Qed.

(** ** Collection *)

(** [m] runs as a [__dealloc__] of the verbs binding. *)
Lemma dealloc_einv (m m' : M B unit) r s :
  EInv s → framed m → m (ef_b s) = m' (ef_b s) → wp m' (λ _, gone r) (λ _, Inv) (ef_b s) →
  wp (vb m) (λ _ u, EInv u ∧ gone r (ef_b u)) (λ _, EInv) s.
Proof.
  intros I Hf He Hm. apply wp_vb. eapply wp_mono.
  - apply wp_framed; [exact Hf|]. unfold wp in *. rewrite He. exact Hm.
  - intros [] t (Hg & Hev & Hu). split; [|exact Hg]. destruct (Hg) as [It _]. by eapply einv_evolves.
  - intros e t (It & Hev & Hu). by eapply einv_evolves.
Qed.

Lemma wp_load_vb {O A} `{!PyClass O} `{!PyClassLaws O} r (o : O) (f : O → M E A) Q X s :
  b_heap (ef_b s) !! r = Some (to_obj o) → of_obj (to_obj o) = Some o →
  wp (f o) Q X s → wp (o ← vb (load r); f o) Q X s.
Proof.
  intros Hr Ho Hf. apply wp_bind, wp_vb, wp_load_eq. rewrite Hr. cbn [mbind option_bind]. rewrite Ho.
  by destruct s.
Qed.

Lemma CQEx_dealloc_gone r o s :
  EInv s → b_heap (ef_b s) !! r = Some (OCQ o) → unparented (b_heap (ef_b s)) r →
  wp (CQEx_dealloc r) (λ _ u, EInv u ∧ gone r (ef_b u)) (λ _, EInv) s.
Proof.
  intros I Hr Hu. unfold CQEx_dealloc. eapply (wp_load_vb r o); [done|done|].
  destruct (cq_cq o =? 0) eqn:E0.
  { step. split; [done|]. eapply gone_closed; [by apply I|exact Hr|done|cbn; lia]. }
  apply wp_bind. eapply wp_mono; [eapply dealloc_einv; [done|apply framed_queues|reflexivity|]| |done].
  - eapply CQ_dealloc_gone; [by apply I|exact Hr|done].
  - intros [] u [Iu Hg]. by apply wp_modify.
Qed.

Lemma efa_qp_dealloc_gone r o s :
  EInv s → b_heap (ef_b s) !! r = Some (OQP o) → unparented (b_heap (ef_b s)) r →
  wp (efa_qp_dealloc r) (λ _ u, EInv u ∧ gone r (ef_b u)) (λ _, EInv) s.
Proof.
  intros I Hr Hu. unfold efa_qp_dealloc. eapply (wp_load_vb r o); [done|done|].
  destruct (qp_qp o =? 0) eqn:E0.
  { step. split; [done|]. eapply gone_closed; [by apply I|exact Hr|done|cbn; lia]. }
  apply wp_bind. eapply wp_mono; [eapply dealloc_einv; [done|apply framed_qps|apply qp_drop_eq, I|]| |done].
  - eapply QP_dealloc_gone; [by apply I|exact Hr|done].
  - intros [] u [Iu Hg]. apply wp_modify. split; [|exact Hg].
    destruct Hg as (_ & (y & Hy & Hz) & _). apply drop_qpx_einv; [exact Iu|].
    intros x h Hx (q & -> & <- & Hh). pose proof (eq_trans (eq_sym Hy) Hx) as [= ->].
    by destruct Hh.
Qed.

Lemma efa_dealloc_gone r x s :
  EInv s → b_heap (ef_b s) !! r = Some x → unparented (b_heap (ef_b s)) r →
  wp (efa_dealloc r x) (λ _ u, EInv u ∧ gone r (ef_b u)) (λ _, EInv) s.
Proof.
  intros I Hr Hu. pose proof (ei_inv _ _ I) as Ib. pose proof (ei_plain _ _ I r x Hr) as Hp.
  unfold efa_dealloc. step. apply wp_get.
  destruct x as [o|o|o|o|o|o|o|o|o|o]; try done.
  - eapply dealloc_einv; [done|apply framed_context|apply context_dealloc_eq, I|by eapply Context_dealloc_gone].
  - eapply dealloc_einv; [done|apply framed_regions|reflexivity|by eapply PD_dealloc_gone].
  - eapply dealloc_einv; [done|apply framed_regions|reflexivity|by eapply MR_dealloc_gone].
  - eapply dealloc_einv; [done|apply framed_queues|reflexivity|by eapply CompChannel_dealloc_gone].
  - case_bool_decide; [by eapply CQEx_dealloc_gone|].
    eapply dealloc_einv; [done|apply framed_queues|reflexivity|by eapply CQ_dealloc_gone].
  - by eapply efa_qp_dealloc_gone.
  - eapply dealloc_einv; [done|apply framed_regions|reflexivity|by eapply AH_dealloc_gone].
  - step. split; [done|]. by eapply gone_closed.
Qed.

Lemma efa_collect_esafe r : esafe (efa_collect (W := W) r).
Proof.
  intros s I. unfold efa_collect. step. apply wp_get.
  destruct (b_heap (ef_b s) !! r) as [x|] eqn:Hr; [|by step].
  destruct (referenced (b_heap (ef_b s)) r) eqn:Href; [by step|]. step.
  eapply wp_mono; [by apply efa_dealloc_gone, unreferenced| |done].
  intros [] u [Iu (_ & (y & Hy & H0) & Hu)]. apply wp_bind, wp_vb, wp_modify, wp_modify.
  unfold EInv. cbn. destruct Iu as [Ib Hp Hv Hrest]. constructor; [|intros k z| |exact Hrest].
  - unfold Inv. cbn. eapply inv_delete; [exact Ib|exact Hy|done|]. intros r2 z _ Hz. by eapply Hu.
  - cbn. intros [_ Hk]%lookup_delete_Some. by eapply Hp.
  - intros k z h. cbn. intros [Hne Hk]%lookup_delete_Some Hh. destruct (Hv _ _ _ Hk Hh) as (p & Hq & H1 & H2).
    exists p. by rewrite lookup_delete_ne.
Qed.
End Rest.

(** * Calls *)

Inductive mr_attr := mr_addr | mr_length | mr_lkey | mr_rkey | mr_handle.

(** The methods and functions of the module, and the collection of an object. *)
Inductive ecall :=
| E_load_libraries | E_get_device_list | E_get_efa_device_list | E_open (d : Device)
| E_num_comp_vectors (r : nat) | E_async_fd (r : nat) | E_query_device (r : nat)
| E_query_efa_device (r : nat) | E_query_port (r : nat) (port : Z)
| E_query_gid (r : nat) (port index : Z) | E_alloc_pd (r : nat) | E_create_comp_channel (r : nat)
| E_create_cq (r : nat) (cqe : Z) (channel : option nat) (comp_vector : Z)
| E_create_cq_ex (r : nat) (cqe : Z) (channel : option nat) (comp_vector : Z)
    (wc_flags : option Z) (sgid unsolicited : bool)
| E_get_async_event (r : nat) | E_ack_async_event (r ev : nat) | E_close_context (r : nat)
| E_reg_mr (r : nat) (addr len access : Z)
| E_reg_dmabuf_mr (r : nat) (offset len iova fd access : Z)
| E_create_qp (r : nat) (i : EfaQPInitAttr)
| E_create_ah (r : nat) (a : EfaAddr) (sgid_index port : Z) | E_close_pd (r : nat)
| E_mr_field (f : mr_attr) (r : nat) | E_sge_mr (r : nat) (len lkey offset : Z)
| E_sge (r : nat) (len : option Z) (offset : Z) | E_keepalive (r owner : nat)
| E_mr_query_efa (r : nat) | E_close_mr (r : nat)
| E_chan_fd (r : nat) | E_get_cq_event (r : nat) | E_close_chan (r : nat)
| E_cqe (r : nat) | E_poll (r : nat) (n : Z)
| E_req_notify (r : nat) (solicited : bool) | E_ack_events (r : nat) (n : Z)
| E_cq_query_efa (r : nat) | E_close_cq (r : nat)
| E_qp_num (r : nat) | E_state (r : nat) | E_query (r : nat)
| E_modify (r : nat) (mask : Z) (known : bool) (fields : list (qp_field * Z))
| E_to_init (r : nat) (qk port pkey : Z) | E_to_rtr (r : nat)
| E_to_rts (r : nat) (psn : Z) (rnr : option Z)
| E_prepare (r : nat) (qk port psn : Z) (rnr : option Z)
| E_post_send (r : nat) (wrs : list EfaSendWR) | E_post_recv (r : nat) (wrs : list RecvWR)
| E_query_wqs (r : nat) | E_close_qp (r : nat) | E_ahn (r : nat) | E_close_ah (r : nat)
| E_collect (r : nat).

Section Runs.
Context {W : Type} `{!Libibverbs W} `{!Libefa W}.
Abbreviation B := (Binding W).
Abbreviation E := (Efa W).
Implicit Types (s : E).

Definition mr_attr_of (f : mr_attr) : W → Z → Z :=
  match f with
  | mr_addr => v_mr_addr | mr_length => v_mr_length | mr_lkey => v_mr_lkey
  | mr_rkey => v_mr_rkey | mr_handle => v_mr_handle
  end.

(** The state after a call, which returns or raises. *)
Definition leaves {A} (f : M E A) (s : E) : E := (f s).2.
Definition leaves_vb {A} (f : M B A) : E → E := leaves (vb f).
(** A method that [CQEx] overrides. *)
Definition by_class (r : nat) (ex cq : E → E) (s : E) : E :=
  if bool_decide (is_Some (ef_cqx s !! r)) then ex s else cq s.

Definition run_ecall (c : ecall) : E → E :=
  match c with
  | E_load_libraries => leaves _load_libraries
  | E_get_device_list => leaves_vb efa_device_list
  | E_get_efa_device_list => leaves_vb get_efa_device_list
  | E_open d => leaves_vb (efa_open d)
  | E_num_comp_vectors r => leaves_vb (efa_num_comp_vectors r)
  | E_async_fd r => leaves_vb (efa_async_fd r)
  | E_query_device r => leaves_vb (efa_query_device_attr r)
  | E_query_efa_device r => leaves_vb (query_efa_device r)
  | E_query_port r p => leaves_vb (efa_query_port r p)
  | E_query_gid r p i => leaves_vb (efa_query_gid r p i)
  | E_alloc_pd r => leaves_vb (efa_alloc_pd r)
  | E_create_comp_channel r => leaves_vb (efa_create_comp_channel r)
  | E_create_cq r n ch v => leaves_vb (efa_create_cq r n ch v)
  | E_create_cq_ex r n ch v f g u => leaves (create_cq_ex r n ch v f g u)
  | E_get_async_event r => leaves_vb (efa_get_async_event r)
  | E_ack_async_event r e => leaves_vb (efa_ack_async_event r e)
  | E_close_context r => leaves_vb (efa_context_close r)
  | E_reg_mr r a l f => leaves_vb (efa_reg_mr r a l f)
  | E_reg_dmabuf_mr r o l i fd f => leaves_vb (efa_reg_dmabuf_mr r o l i fd f)
  | E_create_qp r i => leaves (efa_create_qp r i)
  | E_create_ah r a i p => leaves_vb (efa_create_ah r a i p)
  | E_close_pd r => leaves_vb (efa_pd_close r)
  | E_mr_field f r => leaves_vb (efa_mr_field (mr_attr_of f) r)
  | E_sge_mr r l k o => leaves_vb (efa_SGE_mr r l k o)
  | E_sge r l o => leaves_vb (efa_mr_sge r l o)
  | E_keepalive r o => leaves_vb (efa_mr_keepalive r o)
  | E_mr_query_efa r => leaves_vb (MR_query_efa r)
  | E_close_mr r => leaves_vb (efa_mr_close r)
  | E_chan_fd r => leaves_vb (efa_chan_fd r)
  | E_get_cq_event r => leaves_vb (efa_get_cq_event r)
  | E_close_chan r => leaves_vb (efa_chan_close r)
  | E_cqe r => leaves_vb (efa_cqe r)
  | E_poll r n => by_class r (leaves (CQEx_poll r n)) (leaves_vb (CQ_poll r n))
  | E_req_notify r b => leaves_vb (efa_req_notify r b)
  | E_ack_events r n => leaves_vb (efa_ack_events r n)
  | E_cq_query_efa r => by_class r (leaves_vb (CQEx_query_efa r)) (leaves_vb (CQ_query_efa r))
  | E_close_cq r => by_class r (leaves (CQEx_close r)) (leaves_vb (efa_cq_close r))
  | E_qp_num r => leaves_vb (efa_qp_num r)
  | E_state r => leaves_vb (efa_state r)
  | E_query r => leaves_vb (efa_query r)
  | E_modify r m k f => leaves_vb (efa_modify r m k f)
  | E_to_init r q p k => leaves_vb (efa_to_init r q p k)
  | E_to_rtr r => leaves_vb (efa_to_rtr r)
  | E_to_rts r p n => leaves_vb (efa_to_rts r p n)
  | E_prepare r q p n x => leaves_vb (prepare r q p n x)
  | E_post_send r l => leaves (efa_post_send r l)
  | E_post_recv r l => leaves_vb (efa_post_recv r l)
  | E_query_wqs r => leaves_vb (query_wqs r)
  | E_close_qp r => leaves (efa_qp_close r)
  | E_ahn r => leaves_vb (ahn r)
  | E_close_ah r => leaves_vb (efa_ah_close r)
  | E_collect r => leaves (efa_collect r)
  end.
Definition run_ecalls (l : list ecall) s : E := foldl (λ s c, run_ecall c s) s l.

(** The program acknowledges fewer than 2^31 events at a time. *)
Definition eallowed (c : ecall) : Prop :=
  match c with E_ack_events _ n => n < 2 ^ 31 | _ => True end.

(** The states of the runs that start in [s0]. *)
Inductive ereach (s0 : E) : E → Prop :=
| ereach_start : ereach s0 s0
| ereach_call s c : ereach s0 s → eallowed c → ereach s0 (run_ecall c s).

Lemma ereach_run s0 l : ∀ s, ereach s0 s → Forall eallowed l → ereach s0 (run_ecalls l s).
Proof.
  induction l as [|c l IH]; intros s Hs Hl; [done|]. inversion Hl; subst. by apply IH; [constructor|].
Qed.
End Runs.

(** * The invariant along a run *)

Create HintDb efa_safe discriminated.
#[export] Hint Resolve is_efa_bsafe context_close_bsafe efa_devices_bsafe query_efa_device_bsafe
  efa_query_device_attr_bsafe efa_query_port_bsafe MR_query_efa_bsafe CQ_query_efa_bsafe
  CQ_poll_bsafe query_wqs_bsafe ahn_bsafe efa_query_bsafe efa_modify_bsafe efa_to_init_bsafe
  efa_to_rtr_bsafe efa_to_rts_bsafe prepare_bsafe efa_post_recv_bsafe efa_create_ah_bsafe
  efa_req_notify_bsafe cq_close_bsafe: efa_safe.

(** The methods that are those of the verbs binding. *)
Create HintDb efa_alias.
#[export] Hint Unfold efa_open efa_device_list efa_num_comp_vectors efa_async_fd efa_query_gid
  efa_alloc_pd efa_create_comp_channel efa_create_cq efa_get_async_event efa_ack_async_event
  efa_reg_mr efa_reg_dmabuf_mr efa_pd_close efa_mr_field efa_SGE_mr efa_mr_sge efa_mr_keepalive
  efa_mr_close efa_chan_fd efa_get_cq_event efa_chan_close efa_cqe efa_qp_num efa_state
  efa_ah_close CQEx_query_efa : efa_alias.

Section Reachable.
Context {W : Type} `{!Libibverbs W} `{!LibibverbsLaws W} `{!Libefa W} `{!LibefaLaws W}.
Abbreviation B := (Binding W).
Abbreviation E := (Efa W).
Implicit Types (s : E).

Lemma leaves_einv {A} (f : M E A) s : EInv s → esafe f → EInv (leaves f s).
Proof.
  intros I Hf. specialize (Hf s I). unfold wp in Hf. unfold leaves. by destruct (f s) as [[] u].
Qed.
Lemma leaves_vb_einv {A} (f : M B A) s : EInv s → framed f → bsafe f → EInv (leaves_vb f s).
Proof. intros I Hf Hb. apply leaves_einv; [done|]. by apply esafe_vb. Qed.

Lemma ack_events_einv r n s : EInv s → n < 2 ^ 31 → EInv (leaves_vb (efa_ack_events r n) s).
Proof.
  intros I Hn. unfold leaves_vb, leaves.
  assert (wp (vb (efa_ack_events r n)) (λ _, EInv) (λ _, EInv) s) as H.
  { apply wp_vb. eapply wp_mono; [apply wp_framed; [apply framed_queues|by apply ack_events_safe; [apply I|]]|..];
      intros ?? (It & He & Hu); by eapply einv_evolves. }
  unfold wp in H. by destruct (vb _ s) as [[] u].
Qed.

Lemma ecall_einv c s : EInv s → eallowed c → EInv (run_ecall c s).
Proof.
  intros I Ha. pose proof (framed_context (W := W)) as F1. pose proof (framed_queries (W := W)) as F2.
  pose proof (framed_regions (W := W)) as F3. pose proof (framed_queues (W := W)) as F4.
  pose proof (framed_qps (W := W)) as F5. pose proof (framed_efa_devices (W := W)) as F6.
  pose proof (framed_ack_async_event (W := W)) as F7. destruct_and!.
  destruct c; cbn [run_ecall]; unfold by_class; try case_bool_decide.
  all: first
    [ apply leaves_vb_einv; [exact I|match goal with F : _ |- framed _ => simple apply F end|];
      first [solve [auto 2 with efa_safe nocore]
            |apply bsafe_of; autounfold with efa_alias; solve [auto 2 with verbs_safe nocore]]
    | lazymatch goal with |- EInv (leaves _ _) => apply leaves_einv; [exact I|] end
    | idtac ].
  - apply load_libraries_esafe.
  - apply create_cq_ex_esafe.
  - apply efa_create_qp_esafe.
  - apply CQEx_poll_esafe.
  - by apply ack_events_einv.
  - apply CQEx_close_esafe.
  - apply leaves_vb_einv; [exact I|apply framed_qps|apply prepare_bsafe].
  - apply efa_post_send_esafe.
  - apply efa_qp_close_esafe.
  - apply efa_collect_esafe.
Qed.

(** A program at its start: no object, no call made. *)
Record estarted s : Prop := {
  estart_heap : b_heap (ef_b s) = ∅;
  estart_intact : intact (b_world (ef_b s));
  estart_live : live (b_world (ef_b s)) = ∅;
  estart_rest : at_rest (b_world (ef_b s));
}.

Lemma estarted_einv s : estarted s → EInv s.
Proof.
  intros [Hh Hi Hl Hr]. constructor; [by apply started_inv|..|done]; intros r x; by rewrite Hh.
Qed.

Lemma ereach_einv s0 s : estarted s0 → ereach s0 s → EInv s.
Proof. intros Hs. induction 1; [by apply estarted_einv|by apply ecall_einv]. Qed.
End Reachable.
