(* ===== verification/EfaTheorems.v ===== *)
(** What holds of the EFA binding in every state of a run of EfaRuns: open objects hold
    live native objects, no batch and no poll is left open, a batch is submitted whole
    or not at all, and a failing call leaves no native object behind. *)

From S2P Require Import Prelude Bytes Json.
From S2P Require Import VerbsLib VerbsValues VerbsPost.
From S2P Require Import VerbsObjects VerbsSafety VerbsMethods.
From S2P Require Import VerbsInvariant VerbsAlong VerbsRuns VerbsTheorems.
From S2P Require Import EfaLib EfaValues EfaObjects EfaSafety EfaInvariant.
From S2P Require Import EfaPost EfaRuns.
#[local] Open Scope Z_scope.

(** The library has these objects and no others, and the heap is the same. *)
Definition unchanged {W} `{!Libibverbs W} `{!LibibverbsLaws W} (b t : Binding W) : Prop :=
  b_heap t = b_heap b ∧ live (b_world t) = live (b_world b).

Section Theorems.
Context {W : Type} `{!Libibverbs W} `{!LibibverbsLaws W} `{!Libefa W} `{!LibefaLaws W}.
Abbreviation B := (Binding W).
Abbreviation E := (Efa W).
Implicit Types (b t : B) (s u : E) (w : W).

(** C33: In every state of a run of the EFA binding the libraries' memory is intact; an open object's
    native object is alive, of its kind, made from its open parents and owned by no other object; no
    batch of work requests and no poll is under way; and an open queue pair keeps its extended view
    with the operations it was created with, so that [post_send] calls no operation it lacks. *)
Theorem efa_handles_alive (s0 s : E) :
  estarted s0 → ereach s0 s →
  intact (b_world (ef_b s)) ∧ owners_alive (ef_b s) ∧
  (∀ h, ex_batch (extended (b_world (ef_b s))) !! h = None) ∧
  ex_polling (extended (b_world (ef_b s))) = ∅ ∧
  (∀ r o, b_heap (ef_b s) !! r = Some (OQP o) → qp_qp o ≠ 0 →
     ∃ p, ef_qpx s !! r = Some p ∧ qpp_qpx p = qp_qp o ∧
       ex_ops (extended (b_world (ef_b s))) !! qp_qp o = Some (qpp_send_ops_flags p)).
Proof.
  intros Hs Hr. destruct (ereach_einv _ _ Hs Hr) as [I _ Hv [R1 R2]].
  split_and!; [by apply inv_intact|by apply inv_owners|done|done|].
  intros r o Hr' Hz. eapply Hv; [exact Hr'|]. by exists o.
Qed.

(** C34: [post_send] on an open queue pair, in a run, is all or nothing.  When it returns, every work
    request was accepted and exactly what they ask (operation, destination, data, in order) was
    submitted to that queue pair, and nothing to another; when it raises, nothing was submitted, and
    the exception is that of the first refused work request or the code of [ibv_wr_complete]. *)
Theorem post_send_whole (s0 s : E) self o p wrs :
  estarted s0 → ereach s0 s → b_heap (ef_b s) !! self = Some (OQP o) → qp_qp o ≠ 0 →
  ef_qpx s !! self = Some p →
  wp (efa_post_send self wrs)
    (λ _ u, b_heap (ef_b u) = b_heap (ef_b s) ∧
       ∃ es, asked (b_heap (ef_b s)) (qpp_send_ops_flags p) wrs es ∧
         submitted (qp_qp o) es (extended (b_world (ef_b s))) (extended (b_world (ef_b u))))
    (λ e u, b_heap (ef_b u) = b_heap (ef_b s) ∧
       extended (b_world (ef_b u)) = extended (b_world (ef_b s)) ∧
       (refused (b_heap (ef_b s)) (qpp_send_ops_flags p) wrs e ∨
        ∃ es rc, asked (b_heap (ef_b s)) (qpp_send_ops_flags p) wrs es ∧ rc ≠ 0 ∧ e = VerbsError rc)) s.
Proof.
  intros Hs Hr Ho Hz Hp. eapply wp_mono; [eapply wp_efa_post_send; eauto using ereach_einv|..];
    by intros ?? [_ ?].
Qed.

(** C35: [CQEx.poll] on an open extended queue, in a run, returns at most [num_entries] completions,
    which are all the entries it took from the queue, in order; if it raises, it took fewer than
    [num_entries], which are lost; either way the poll has ended and nothing else happened. *)
Theorem cqex_poll_returns_taken (s0 s : E) self o p n :
  estarted s0 → ereach s0 s → b_heap (ef_b s) !! self = Some (OCQ o) → cq_cq o ≠ 0 →
  ef_cqx s !! self = Some p →
  wp (CQEx_poll self n)
    (λ out u, b_heap (ef_b u) = b_heap (ef_b s) ∧ ∃ vs, out = WC_of_cqe p <$> vs ∧
       Z.of_nat (length vs) ≤ n ∧
       received (cq_cq o) vs (extended (b_world (ef_b s))) (extended (b_world (ef_b u))))
    (λ _ u, b_heap (ef_b u) = b_heap (ef_b s) ∧ ∃ vs, (vs = [] ∨ Z.of_nat (length vs) < n) ∧
       received (cq_cq o) vs (extended (b_world (ef_b s))) (extended (b_world (ef_b u)))) s.
Proof.
  intros Hs Hr Ho Hz Hp. eapply wp_mono; [eapply wp_CQEx_poll; eauto using ereach_einv|..];
    by intros ?? [_ ?].
Qed.
End Theorems.

(** * Failures and temporary objects *)

Section Failures.
Context {W : Type} `{!Libibverbs W} `{!LibibverbsLaws W} `{!Libefa W} `{!LibefaLaws W}.
Abbreviation B := (Binding W).
Abbreviation E := (Efa W).
Implicit Types (b t : B) (s u : E) (w : W).

Lemma wp_create_qp_outcome self i s :
  EInv s →
  wp (efa_create_qp self i)
    (λ r u, ∃ h o a, h ≠ 0 ∧ b_heap (ef_b s) !! self = Some (OPD o) ∧
       live (b_world (ef_b s)) !! h = None ∧
       live (b_world (ef_b u)) = <[h := mkN (KQP 0) (qp_deps (pd_pd o) a 0)]> (live (b_world (ef_b s))) ∧
       b_heap (ef_b s) !! r = None ∧
       b_heap (ef_b u) = <[r := OQP (mk_QP h self (ei_send_cq i) (ei_recv_cq i) None 1 0 None false 0)]>
                           (b_heap (ef_b s)))
    (λ _ u, unchanged (ef_b s) (ef_b u)) s.
Proof.
  intros I. unfold efa_create_qp. apply wp_bind, wp_vb.
  eapply wp_mono; [apply efa_new_qp_spec, I|..].
  2:{ intros e t (_ & Hh & Hl & _). by split. }
  intros [[h ty] ops] t Ht. cbn in Ht. apply wp_bind, wp_vb. cbn.
  assert (Ht' := Ht). destruct Ht' as (o & w & sq & rq & a & Et & Ho & _ & Hh & Hc & _).
  unfold efa_qp_wrap. step. apply wp_peek. destruct (v_qp_to_qp_ex (b_world t) h =? 0) eqn:E0.
  - apply wp_bind, wp_native. intros rc w2 Hf. apply wp_fail. intros e.
    destruct (qp_wrap_fails _ _ _ _ _ _ _ _ (ei_inv _ _ I) Ht Hf) as (_ & Hl & _). subst t. by split.
  - unfold QP_wrap. step. apply wp_new. step. apply wp_bind, wp_modify, wp_ret. subst t. cbn.
    destruct Hc as [_ [[? _]|(_ & Hn & Hl)]]; [done|]. cbn in Hn, Hl.
    exists h, o, a. split_and!; [done..|apply fresh_ref_new|done].
Qed.

(** ** The probes of [get_efa_device_list] *)

(** The heap gains closed objects only, and the library is as it was. *)
Definition no_trace b t : Prop :=
  b_heap b ⊆ b_heap t ∧
  (∀ r x, b_heap t !! r = Some x → b_heap b !! r = None → handle_of x = 0) ∧
  live (b_world t) = live (b_world b).

Lemma no_trace_trans b1 b2 b3 : no_trace b1 b2 → no_trace b2 b3 → no_trace b1 b3.
Proof.
  intros (S1 & N1 & L1) (S2 & N2 & L2). split_and!; [by etransitivity| |congruence].
  intros r x Hx Hn. destruct (b_heap b2 !! r) as [y|] eqn:Hy; [|by eapply N2].
  pose proof (lookup_weaken _ _ _ _ Hy S2) as Hy'. rewrite Hx in Hy'. injection Hy' as ->. by eapply N1.
Qed.
Lemma unchanged_no_trace b t : unchanged b t → no_trace b t.
Proof. intros [Hh Hl]. split_and!; [by rewrite Hh| |done]. rewrite Hh. congruence. Qed.

(** [is_efa] and [close] on a context just opened. *)
Definition shut_at b (c : nat) (name : str) w : B :=
  set_heap (<[c := OContext (mk_Context 0 name 0 true)]> (b_heap b)) (set_world w b).

Lemma wp_probed c h name b (Q : bool → B → Prop) X :
  Inv b → b_heap b !! c = Some (OContext (mk_Context h name 0 true)) → h ≠ 0 →
  (∀ v w, live w = delete h (live (b_world b)) → Inv (shut_at b c name w) → Q v (shut_at b c name w)) →
  (∀ e t, live (b_world t) = live (b_world b) ∨ live (b_world t) = delete h (live (b_world b)) → X e t) →
  wp (try_finally (is_efa c) (efa_context_close c)) Q X b.
Proof.
  intros I Hc Hh HQ HX. set (o := mk_Context h name 0 true) in *.
  assert (Hclose : ∀ w1 (Q' : unit → B → Prop), keeps live intact (b_world b) w1 →
    (∀ w, live w = delete h (live (b_world b)) → Inv (shut_at b c name w) → Q' tt (shut_at b c name w)) →
    wp (efa_context_close c) Q' X (set_world w1 b)).
  { intros w1 Q' Hk HQ'. pose proof (Inv_keeps _ _ I Hk) as I1. destruct Hk as [_ Hl1].
    unfold efa_context_close. apply wp_bind, wp_load_eq. cbn. rewrite Hc. cbn.
    rewrite (proj2 (Z.eqb_neq _ _) Hh). cbn iota. apply wp_bind, wp_ret.
    apply wp_bind, (wp_close_device c o); try done. intros rc w Hi Hl. cbn in Hl. rewrite Hl1 in Hl.
    apply wp_bind. apply wp_if_fail; intros Erc.
    - destruct Hl as [[_ Hl]|[? _]]; [|lia]. eapply (wp_update_at _ _ o); [exact Hc|done|].
      apply HQ'; [done|]. unfold Inv. cbn.
      eapply (inv_close_context _ (b_world b) _ c o); [exact I|exact Hc|done|done|done|done|by left].
    - intros e. apply HX. left. cbn. destruct Hl as [[? _]|[_ Hl]]; [lia|done]. }
  apply wp_try_finally. unfold is_efa. apply wp_bind, wp_load_eq. rewrite Hc. cbn.
  apply wp_bind, wp_guard_raise. cbn [ctx_ctx o]. rewrite (proj2 (Z.eqb_neq _ _) Hh).
  assert (Hk : keeps live intact (b_world b) (e_query_device h (b_world b)).2).
  { apply law_e_query_device; [by apply inv_intact|]. by apply (alive_context b c o). }
  apply wp_bind, wp_native. intros [rc a] w1 Hw. cbn in Hw. rewrite Hw in Hk. cbn in Hk. step.
  apply Hclose; [exact Hk|]. intros w Hl Iw. by apply HQ.
Qed.

Lemma wp_probe d b :
  Inv b → wp (probe d) (λ _ t, Inv t ∧ no_trace b t) (λ _ t, live (b_world b) ⊆ live (b_world t)) b.
Proof.
  intros I. unfold probe. apply wp_bind, wp_try_except, wp_bind.
  eapply wp_mono; [by apply Device_open_spec| |].
  - intros c t (h & name & Hh & Hc & -> & Ht & It). step. set (c := fresh_ref (b_heap b)) in *.
    destruct Hc as [_ [[? _]|(_ & Hn & Hl)]]; [done|]. cbn in Hn, Hl.
    assert (Hcn : b_heap b !! c = None) by apply fresh_ref_new.
    assert (Hct : b_heap t !! c = Some (OContext (mk_Context h name 0 true))) by (rewrite Ht; apply lookup_insert_eq).
    eapply (wp_probed c h name t); [done|exact Hct|done| |].
    + intros v w Hw Iw. split; [done|]. unfold shut_at, no_trace. cbn. rewrite Ht, insert_insert_eq. split_and!.
      * by apply insert_subseteq.
      * intros r x [[<- <-]|[_ Hx]]%lookup_insert_Some Hr; [done|congruence].
      * rewrite Hw, Hl. by apply delete_insert_id.
    + intros e u [Hu|Hu]; rewrite Hu, Hl; [by apply insert_subseteq|]. by rewrite delete_insert_id.
  - intros e t (It & Ht). assert (no_trace b t) as Hnt by by apply unchanged_no_trace.
    destruct e; try (cbn; destruct Ht as [_ ->]; done). cbn. done.
Qed.

Lemma wp_probe_all devs : ∀ b,
  Inv b → wp (probe_all devs) (λ l t, l `sublist_of` devs ∧ Inv t ∧ no_trace b t)
            (λ _ t, live (b_world b) ⊆ live (b_world t)) b.
Proof.
  induction devs as [|d devs IH]; intros b I; cbn [probe_all].
  { step. split_and!; [done|done|by apply unchanged_no_trace]. }
  apply wp_bind. eapply wp_mono; [by apply wp_probe| |done]. intros v t [It Ht]. apply wp_bind.
  eapply wp_mono; [by apply IH| |].
  - intros l t' (Hs & It' & Ht'). step. split_and!; [|done|by eapply no_trace_trans].
    destruct v; [by apply sublist_skip|by apply sublist_cons].
  - intros e t' Hle. destruct Ht as (_ & _ & Hl). by rewrite <-Hl.
Qed.

Lemma wp_device_list b :
  Inv b → wp get_device_list (λ _ t, Inv t ∧ unchanged b t) (λ _ t, unchanged b t) b.
Proof.
  intros I. unfold get_device_list. apply wp_bind, wp_native. intros lst w Hw.
  pose proof (law_get_device_list (b_world b) (inv_intact _ I)) as Hk. rewrite Hw in Hk.
  pose proof (Inv_keeps _ _ I Hk) as It. destruct Hk as [_ Hl]. cbn in Hl.
  destruct lst as [l|]; [|by apply wp_fail]. apply wp_try_finally.
  assert (Hfree : ∀ (Q : unit → B → Prop) X, (∀ t, Inv t → unchanged b t → Q tt t) →
    wp (native_ v_free_device_list) Q X (set_world w b)).
  { intros Q X HQ. apply wp_ordered; [done|by apply law_free_device_list, inv_intact|]. cbn. intros I2.
    apply HQ; [done|]. split; [done|]. cbn. rewrite <-Hl.
    by destruct (law_free_device_list w (inv_intact _ It)). }
  apply wp_lift. destruct (describe_devices l); by apply Hfree.
Qed.

(** C36: [PD.create_qp], in a run of the EFA binding: when it returns, there is one new native queue
    pair, made from the domain and the completion queues of the parameters, and one new object that
    owns it; when it raises (a closed or foreign completion queue, a value out of range, a failed
    creation, no extended view), no native object and no object was added or lost. *)
Theorem create_qp_leaves_nothing (s0 s : E) self i :
  estarted s0 → ereach s0 s →
  wp (efa_create_qp self i)
    (λ r u, ∃ h o a, h ≠ 0 ∧ b_heap (ef_b s) !! self = Some (OPD o) ∧
       live (b_world (ef_b s)) !! h = None ∧
       live (b_world (ef_b u)) = <[h := mkN (KQP 0) (qp_deps (pd_pd o) a 0)]> (live (b_world (ef_b s))) ∧
       b_heap (ef_b s) !! r = None ∧
       b_heap (ef_b u) = <[r := OQP (mk_QP h self (ei_send_cq i) (ei_recv_cq i) None 1 0 None false 0)]>
                           (b_heap (ef_b s)))
    (λ _ u, unchanged (ef_b s) (ef_b u)) s.
Proof. intros Hs Hr. by eapply wp_create_qp_outcome, ereach_einv. Qed.

(** [get_efa_device_list], in a run, opens every device to ask whether it is an EFA device.  When
    it returns, it returns some of the devices, in order, every context it opened is closed again, the
    objects that were there are untouched and the library has the objects it had before; when it
    raises, no object of the library was lost. *)
Theorem efa_device_list_closes (s0 s : E) :
  estarted s0 → ereach s0 s →
  wp get_efa_device_list
    (λ l t, (∃ devs t0, efa_device_list (ef_b s) = (Ok devs, t0) ∧ l `sublist_of` devs) ∧ no_trace (ef_b s) t)
    (λ _ t, live (b_world (ef_b s)) ⊆ live (b_world t)) (ef_b s).
Proof.
  intros Hs Hr. pose proof (ei_inv _ _ (ereach_einv _ _ Hs Hr)) as I. unfold get_efa_device_list.
  apply wp_bind. pose proof (wp_device_list _ I) as Hl. unfold wp in Hl |- * at 1.
  unfold efa_device_list. destruct (get_device_list (ef_b s)) as [[devs|e] t]; [|by destruct Hl as [_ ->]].
  destruct Hl as [It Ht]. eapply wp_mono; [by apply wp_probe_all| |].
  - intros l t' (Hsub & _ & Hn). split; [eauto|].
    eapply no_trace_trans; [by apply unchanged_no_trace|done].
  - intros e t' Hle. destruct Ht as [_ Ht]. by rewrite <-Ht.
Qed.
End Failures.
