(* ===== verification/EfaModel.v ===== *)
(** A library for the EFA binding to run on: that of VerbsModel, with the extended calls.
    It builds batches, answers polls from a script, and notes a call made out of its
    order or on an operation that a queue pair does not have.  It satisfies the laws of
    EfaLib, so that they can hold, and runs the examples of EfaExamples. *)

From S2P Require Import Prelude Bytes Json.
From S2P Require Import VerbsLib VerbsModel.
From S2P Require Import EfaLib.
#[local] Open Scope Z_scope.

(** * A library with more state *)

Section Lift.
Context {W X : Type} `{!Libibverbs W}.

Definition lifted {A} (f : W → A * W) (w : W * X) : A * (W * X) :=
  let r := f w.1 in (r.1, (r.2, w.2)).

#[global] Instance Lift_verbs : Libibverbs (W * X) := {
  c_errno w := c_errno w.1;
  dl_open a := lifted (dl_open a);
  dl_sym w := dl_sym w.1;
  v_get_device_list := lifted v_get_device_list;
  v_free_device_list w := (v_free_device_list w.1, w.2);
  v_open_device a := lifted (v_open_device a);
  v_close_device a := lifted (v_close_device a);
  v_device_name w := v_device_name w.1;
  v_num_comp_vectors w := v_num_comp_vectors w.1;
  v_async_fd w := v_async_fd w.1;
  v_query_device a := lifted (v_query_device a);
  v_query_port a b := lifted (v_query_port a b);
  v_query_gid a b c := lifted (v_query_gid a b c);
  v_get_async_event a := lifted (v_get_async_event a);
  v_ack_async_event a w := (v_ack_async_event a w.1, w.2);
  v_alloc_pd a := lifted (v_alloc_pd a);
  v_dealloc_pd a := lifted (v_dealloc_pd a);
  v_reg_mr_iova2 a b c d e := lifted (v_reg_mr_iova2 a b c d e);
  v_reg_dmabuf_mr a b c d e f := lifted (v_reg_dmabuf_mr a b c d e f);
  v_dereg_mr a := lifted (v_dereg_mr a);
  v_mr_addr w := v_mr_addr w.1;
  v_mr_length w := v_mr_length w.1;
  v_mr_lkey w := v_mr_lkey w.1;
  v_mr_rkey w := v_mr_rkey w.1;
  v_mr_handle w := v_mr_handle w.1;
  v_create_comp_channel a := lifted (v_create_comp_channel a);
  v_destroy_comp_channel a := lifted (v_destroy_comp_channel a);
  v_chan_fd w := v_chan_fd w.1;
  v_create_cq a b c d e := lifted (v_create_cq a b c d e);
  v_destroy_cq a := lifted (v_destroy_cq a);
  v_cqe w := v_cqe w.1;
  v_get_cq_event a := lifted (v_get_cq_event a);
  v_ack_cq_events a b w := (v_ack_cq_events a b w.1, w.2);
  v_poll_cq a b := lifted (v_poll_cq a b);
  v_req_notify_cq a b := lifted (v_req_notify_cq a b);
  v_create_qp a b := lifted (v_create_qp a b);
  v_destroy_qp a := lifted (v_destroy_qp a);
  v_qp_num w := v_qp_num w.1;
  v_qp_type w := v_qp_type w.1;
  v_modify_qp a b c := lifted (v_modify_qp a b c);
  v_query_qp a b := lifted (v_query_qp a b);
  v_post_send a b c := lifted (v_post_send a b c);
  v_post_recv a b c := lifted (v_post_recv a b c);
  v_create_ah a b := lifted (v_create_ah a b);
  v_destroy_ah a := lifted (v_destroy_ah a);
  v_create_srq a b := lifted (v_create_srq a b);
  v_destroy_srq a := lifted (v_destroy_srq a);
  v_query_srq a := lifted (v_query_srq a);
  v_modify_srq a b c := lifted (v_modify_srq a b c);
  v_post_srq_recv a b c := lifted (v_post_srq_recv a b c);
  mlx5_qp_info_of a := lifted (mlx5_qp_info_of a);
  mlx5_cq_info_of a := lifted (mlx5_cq_info_of a);
  idna := idna (W := W);
  cm_getaddrinfo a b c := lifted (cm_getaddrinfo a b c);
  cm_answer w := cm_answer w.1;
  cm_freeaddrinfo a w := (cm_freeaddrinfo a w.1, w.2);
  cm_create_ep a := lifted (cm_create_ep a);
  cm_destroy_ep a w := (cm_destroy_ep a w.1, w.2);
  cm_id_verbs w := cm_id_verbs w.1;
  cm_id_qp w := cm_id_qp w.1;
  cm_create_qp a b c := lifted (cm_create_qp a b c);
  cm_destroy_qp a w := (cm_destroy_qp a w.1, w.2);
  cm_connect a b := lifted (cm_connect a b);
  cm_event_data w := cm_event_data w.1;
  cm_disconnect a := lifted (cm_disconnect a);
}.

Context `{!LibibverbsLaws W}.

#[global] Instance Lift_laws : LibibverbsLaws (W * X).
Proof.
  refine {| live w := live w.1; intact w := intact w.1;
    null_dead w := null_dead w.1; live_bounded w := live_bounded w.1;
    events_bounded w h u ev d := events_bounded w.1 h u ev d;
    law_dl_open f w := law_dl_open f w.1; law_get_device_list w := law_get_device_list w.1;
    law_free_device_list w := law_free_device_list w.1;
    law_open_device d w := law_open_device d w.1; law_close_device h w := law_close_device h w.1;
    law_query_device h w := law_query_device h w.1;
    law_query_port h p w := law_query_port h p w.1;
    law_query_gid h p i w := law_query_gid h p i w.1;
    law_get_async_event h w := law_get_async_event h w.1;
    law_ack_async_event e w := law_ack_async_event e w.1; law_alloc_pd h w := law_alloc_pd h w.1;
    law_dealloc_pd h w := law_dealloc_pd h w.1;
    law_reg_mr h a l i f w := law_reg_mr h a l i f w.1;
    law_reg_dmabuf_mr h o l i fd f w := law_reg_dmabuf_mr h o l i fd f w.1;
    law_dereg_mr h w := law_dereg_mr h w.1;
    law_create_comp_channel h w := law_create_comp_channel h w.1;
    law_destroy_comp_channel h w := law_destroy_comp_channel h w.1;
    law_create_cq h n u c v w := law_create_cq h n u c v w.1;
    law_destroy_cq h u d w := law_destroy_cq h u d w.1;
    law_ack_cq_events h n u ev d w := law_ack_cq_events h n u ev d w.1;
    law_poll_cq h n w := law_poll_cq h n w.1;
    law_req_notify_cq h n w := law_req_notify_cq h n w.1;
    law_create_qp h a w := law_create_qp h a w.1; law_destroy_qp h w := law_destroy_qp h w.1;
    law_modify_qp h a m w := law_modify_qp h a m w.1; law_query_qp h m w := law_query_qp h m w.1;
    law_post_send h rs gs w := law_post_send h rs gs w.1;
    law_post_recv h rs gs w := law_post_recv h rs gs w.1;
    law_create_ah h a w := law_create_ah h a w.1; law_destroy_ah h w := law_destroy_ah h w.1;
    law_create_srq h a w := law_create_srq h a w.1; law_destroy_srq h w := law_destroy_srq h w.1;
    law_query_srq h w := law_query_srq h w.1; law_modify_srq h a m w := law_modify_srq h a m w.1;
    law_post_srq_recv h rs gs w := law_post_srq_recv h rs gs w.1;
    law_mlx5_qp_info h w := law_mlx5_qp_info h w.1;
    law_mlx5_cq_info h w := law_mlx5_cq_info h w.1;
    law_freeaddrinfo p w := law_freeaddrinfo p w.1;
    law_destroy_ep id d w := law_destroy_ep id d w.1; law_cm_id_qp id w := law_cm_id_qp id w.1;
    law_cm_destroy_qp id w := law_cm_destroy_qp id w.1;
    law_cm_connect id p w := law_cm_connect id p w.1;
    law_cm_disconnect id w := law_cm_disconnect id w.1 |}.
  - intros c w Hi Ha. pose proof (law_get_cq_event c w.1 Hi Ha) as H. cbn.
    by destruct (v_get_cq_event c w.1) as [[] ?].
  - intros n v hints w Hi Ha. pose proof (law_getaddrinfo n v hints w.1 Hi Ha) as H. cbn.
    by destruct (cm_getaddrinfo n v hints w.1) as [[] ?].
  - intros p w Hi Ha. pose proof (law_create_ep p w.1 Hi Ha) as H. cbn.
    by destruct (cm_create_ep p w.1) as [[] ?].
  - intros id h a w Hi H1 H2 H3 H4 H5 H6. pose proof (law_cm_create_qp id h a w.1 Hi H1 H2 H3 H4 H5 H6) as H.
    cbn. by destruct (cm_create_qp id h a w.1) as [rc ?].
Defined.
End Lift.

(** * The extended calls *)

(** The record of the calls, the answers to the next polls, and the entry that a poll is
    at. *)
Record Extra := mk_Extra { x_ext : Extended; x_script : list (Z * cqe_view); x_at : cqe_view }.
Definition ELib : Type := Lib * Extra.
Implicit Types (w : ELib).

Definition on_ext (f : Extended → Extended) w : ELib :=
  (w.1, mk_Extra (f (x_ext w.2)) (x_script w.2) (x_at w.2)).
Definition elegal (b : bool) w : ELib := (legal b w.1, w.2).
Definition etouch (P : NKind → bool) (h : Z) w : ELib := elegal (aliveb (objs w.1) P h) w.

Definition batch_of w (q : Z) : option (list wr_entry) := ex_batch (x_ext w.2) !! q.
Definition batch_is (P : list wr_entry → bool) w (q : Z) : bool :=
  match batch_of w q with Some l => P l | None => false end.
Definition nonempty {A} (l : list A) : bool := match l with [] => false | _ => true end.
Definition has_op w (q : Z) (o : wr_op) : bool :=
  match ex_ops (x_ext w.2) !! q with Some m => negb (Z.land m (op_bit o) =? 0) | None => false end.

Definition l_create_qp_ex (h : Z) (a : ibv_qp_init_attr_ex) w : Z * ELib :=
  let r := create (aliveb (objs w.1) is_context h && qp_legal (iax_pd a) (iax_attr a) w.1)
             (KQP 0) (qp_deps (iax_pd a) (iax_attr a) 0) w.1 in
  (r.1, on_ext (new_qp r.1 (iax_send_ops_flags a)) (r.2, w.2)).
Definition l_create_cq_ex (h : Z) (a : ibv_cq_init_attr_ex) w : Z * ELib :=
  lifted (λ l, create (aliveb (objs l) is_context h &&
                       ((cax_channel a =? 0) || aliveb (objs l) (only KChannel) (cax_channel a)))
                 (KCQ 0 0) (cq_deps h (cax_channel a)) l) w.
Definition l_set_cq_context (h : Z) (r : nat) (l : Lib) : Lib :=
  match objs l !! h with
  | Some (mkN (KCQ u ev) d) => set_objs (<[h := mkN (KCQ r ev) d]> (objs l)) l
  | _ => break l
  end.

(** A poll takes the next answer of the script, and an entry if it is 0. *)
Definition answer (c : Z) (f : Extended → Extended) w : Z * ELib :=
  match x_script w.2 with
  | [] => (ENOENT, w)
  | (rc, v) :: rest =>
      (rc, (w.1, mk_Extra (if rc =? 0 then take_entry c v (f (x_ext w.2)) else x_ext w.2) rest v))
  end.
Definition polling_now w (c : Z) : bool := bool_decide (c ∈ ex_polling (x_ext w.2)).

#[global] Instance ELib_efa : Libefa ELib := {
  e_query_device h w := ((0, mk_EfaDeviceAttr 0 0 0 0 0 0 0), etouch is_context h w);
  e_query_ah h w := ((0, 7), etouch (only KAH) h w);
  e_query_mr h w := ((0, mk_MRAttr 0 0 0 0), etouch (only KMR) h w);
  e_query_cq h w := ((0, mk_CQAttr 0 0 0 0), etouch is_cq h w);
  e_query_qp_wqs h w := ((0, (mk_WQAttr 0 0 0 0 0, mk_WQAttr 0 0 0 0 0)), etouch is_qp h w);
  e_create_qp_ex h a _ w := l_create_qp_ex h a w;
  v_create_qp_ex h a w := l_create_qp_ex h a w;
  v_qp_to_qp_ex _ h := h;
  e_create_cq h a _ w := l_create_cq_ex h a w;
  set_cq_context h r w := (l_set_cq_context h r w.1, w.2);
  e_cq_from_cq_ex _ h := h;
  wr_start q w :=
    on_ext (λ x, set_batch (<[q := []]> (ex_batch x)) x)
      (elegal (aliveb (objs w.1) is_qp q && bool_decide (batch_of w q = None)) w);
  wr_op_call q i f o w :=
    on_ext (add_entry q (mk_wr_entry i f o None None))
      (elegal (aliveb (objs w.1) is_qp q && batch_is (forallb complete) w q && has_op w q o) w);
  wr_set_ud_addr q a n k w :=
    on_ext (change_last q (set_dest (a, n, k)))
      (elegal (aliveb (objs w.1) is_qp q && batch_is nonempty w q && aliveb (objs w.1) (only KAH) a) w);
  wr_set_data q d w :=
    on_ext (change_last q (set_data d)) (elegal (aliveb (objs w.1) is_qp q && batch_is nonempty w q) w);
  wr_abort q w :=
    on_ext (end_batch q false) (elegal (aliveb (objs w.1) is_qp q && batch_is (λ _, true) w q) w);
  wr_complete q w :=
    (0, on_ext (end_batch q true)
          (elegal (aliveb (objs w.1) is_qp q && batch_is (forallb complete) w q) w));
  cq_start_poll c w :=
    answer c (λ x, set_polling ({[c]} ∪ ex_polling x) x)
      (elegal (aliveb (objs w.1) is_cq c && negb (polling_now w c)) w);
  cq_next_poll c w := answer c (λ x, x) (elegal (aliveb (objs w.1) is_cq c && polling_now w c) w);
  cq_end_poll c w :=
    on_ext (λ x, set_polling (ex_polling x ∖ {[c]}) x)
      (elegal (aliveb (objs w.1) is_cq c && polling_now w c) w);
  cq_current w _ := x_at w.2;
}.

Lemma ext_answer c f w :
  x_ext (answer c f w).2.2 =
    if (answer c f w).1 =? 0 then take_entry c (x_at (answer c f w).2.2) (f (x_ext w.2)) else x_ext w.2.
Proof. unfold answer. destruct (x_script w.2) as [|[rc v] l]; [done|]. cbn. by destruct (rc =? 0). Qed.

Lemma keeps_legal b (f : ELib → ELib) w :
  intact w → b = true → (∀ w, (f w).1 = w.1) → keeps live intact w (f (elegal b w)).
Proof. intros Hi -> Hf. unfold keeps. cbn in *. by rewrite Hf. Qed.

Lemma answer_keeps c f w : (answer c f w).2.1 = w.1.
Proof. unfold answer. by destruct (x_script w.2) as [|[rc v] l]. Qed.

Lemma l_create_qp_creates h a w :
  intact w → alive (live w) is_context h → alive (live w) (only KPD) (iax_pd a) →
  alive (live w) is_cq (ia_send_cq (iax_attr a)) → alive (live w) is_cq (ia_recv_cq (iax_attr a)) →
  ia_srq (iax_attr a) = 0 →
  creates live intact (KQP 0) (qp_deps (iax_pd a) (iax_attr a) 0) w (l_create_qp_ex h a w).
Proof.
  intros Hi Hc%alive_b H1 H2 H3 H4. cbn in Hc.
  pose proof (create_creates (aliveb (objs w.1) is_context h && qp_legal (iax_pd a) (iax_attr a) w.1)
    (KQP 0) (qp_deps (iax_pd a) (iax_attr a) 0) w.1 Hi) as H.
  apply H; [|by intros ?]. rewrite Hc. apply qp_legal_b; [done..|by left].
Qed.

(** The condition of an extended call, from the hypotheses of its law. *)
Lemma nonempty_snoc {A} (l : list A) e : nonempty (l ++ [e]) = true.
Proof. by destruct l. Qed.
Lemma has_op_true w q m o : ex_ops (x_ext w.2) !! q = Some m → installed m o → has_op w q o = true.
Proof.
  intros Hm Ho. unfold has_op. rewrite Hm. apply negb_true_iff, Z.eqb_neq, Ho.
Qed.
Lemma batch_is_true P w q l : ex_batch (x_ext w.2) !! q = Some l → P l = true → batch_is P w q = true.
Proof. intros Hb Hp. unfold batch_is, batch_of. by rewrite Hb. Qed.

Ltac permitted :=
  repeat match goal with
  | |- _ && _ = true => apply andb_true_iff; split
  | |- aliveb _ _ _ = true => by apply alive_b
  | |- bool_decide _ = true => by apply bool_decide_eq_true
  | |- batch_is _ _ _ = true => eapply batch_is_true; [eassumption|first [done|apply nonempty_snoc]]
  | |- has_op _ _ _ = true => by eapply has_op_true
  | |- polling_now _ _ = true => by apply bool_decide_eq_true
  end.

#[global] Instance ELib_laws : LibefaLaws ELib.
Proof.
  refine {| extended w := x_ext w.2 |}; try done.
  - intros w w' H. by inversion H.
  - intros c w. cbn -[answer]. by rewrite ext_answer.
  - intros c w. cbn -[answer]. by rewrite ext_answer.
  - intros w h. by right.
  - intros h w Hi Ha. by apply (keeps_legal _ id); [|permitted|].
  - intros h w Hi Ha. by apply (keeps_legal _ id); [|permitted|].
  - intros h w Hi Ha. by apply (keeps_legal _ id); [|permitted|].
  - intros h w Hi Ha. by apply (keeps_legal _ id); [|permitted|].
  - intros h w Hi Ha. by apply (keeps_legal _ id); [|permitted|].
  - intros h a b w. apply l_create_qp_creates.
  - intros h a w. apply l_create_qp_creates.
  - intros h a f w Hi Ha%alive_b Hc. cbn in Hi, Ha.
    apply (create_creates _ _ _ w.1 Hi); [|cbn; lia]. rewrite Ha.
    destruct Hc as [->|Hc%alive_b]; [done|]. cbn in Hc |- *. by rewrite Hc, orb_true_r.
  - intros h r u ev d w Hi Hh. cbn in *. unfold l_set_cq_context. rewrite Hh. split; [|done].
    pose proof (ok_events _ Hi _ _ _ _ Hh). by eapply ok_set_events.
  - intros q w Hi Ha Hb. apply (keeps_legal _ (on_ext _)); [done|permitted|done].
  - intros q i f o w l m Hi Ha Hb Hl Hm Ho. apply (keeps_legal _ (on_ext _)); [done|permitted|done].
  - intros q a n k w l e Hi Ha Hb Hh. apply (keeps_legal _ (on_ext _)); [done|permitted|done].
  - intros q d w l e Hi Ha Hb. apply (keeps_legal _ (on_ext _)); [done|permitted|done].
  - intros q w l Hi Ha Hb. apply (keeps_legal _ (on_ext _)); [done|permitted|done].
  - intros q w l Hi Ha Hb Hl. apply (keeps_legal _ (on_ext _)); [done|permitted|done].
  - intros c w Hi Ha Hp. apply (keeps_legal _ (λ w, (answer c _ w).2)); [done| |apply answer_keeps].
    permitted. apply negb_true_iff. by apply bool_decide_eq_false.
  - intros c w Hi Ha Hp. apply (keeps_legal _ (λ w, (answer c _ w).2)); [done|permitted|apply answer_keeps].
  - intros c w Hi Ha Hp. apply (keeps_legal _ (on_ext _)); [done|permitted|done].
Defined.
