(* ===== verification/EfaExamples.v ===== *)
(** Runs of the EFA binding on the library of EfaModel: the theorems of EfaTheorems at a
    concrete program, and two programs that show what the binding does not prevent. *)

From S2P Require Import Prelude Bytes Json.
From S2P Require Import VerbsLib VerbsValues VerbsPost.
From S2P Require Import VerbsObjects VerbsSafety VerbsMethods.
From S2P Require Import VerbsInvariant VerbsRuns VerbsTheorems.
From S2P Require Import VerbsModel.
From S2P Require Import EfaLib EfaValues EfaObjects EfaSafety EfaInvariant.
From S2P Require Import EfaPost EfaRuns EfaTheorems EfaModel.
#[local] Open Scope Z_scope.

(** The program before its first call; [script] answers its polls. *)
Definition entry (id : Z) : cqe_view :=
  mk_cqe_view (mk_ibv_wc id 0 128 0 64 0 5 9 0) (Some (replicate 16 1)) false.
Definition e0 (script : list (Z * cqe_view)) : Efa ELib :=
  mk_Efa (mk_Binding ∅ ∅ 0 0 0 0
            (mk_Lib ∅ 1 true, mk_Extra (mk_Extended ∅ ∅ ∅ ∅ ∅) script (entry 0))) ∅ ∅ 0.

Lemma e0_started script : estarted (e0 script).
Proof. split; [done| |done|done]. cbn. by constructor. Qed.

(** A device, a domain, an extended completion queue, an SRD queue pair and an address
    handle: the objects 0 to 4. *)
Definition srd_attr : EfaQPInitAttr :=
  EfaQPInitAttr_init 2 2 None 16 16 1 1 0 false None 0 false.
Definition efa_setup : list ecall :=
  [E_open (mk_Device [109] 7); E_alloc_pd 0; E_create_cq_ex 0 16 None 0 None true false;
   E_create_qp 1 srd_attr; E_create_ah 1 (AddrBytes (replicate 16 2)) 0 1].
Definition efa_opened (script : list (Z * cqe_view)) : Efa ELib := run_ecalls efa_setup (e0 script).

Lemma efa_opened_reach script : ereach (e0 script) (efa_opened script).
Proof. apply ereach_run; [constructor|]. by repeat constructor. Qed.

Example efa_opened_objects :
  map_to_list (handle_of <$> b_heap (ef_b (efa_opened []))) = map_to_list (list_to_map
    [(0%nat, 1); (1%nat, 2); (2%nat, 3); (3%nat, 4); (4%nat, 5)] : gmap nat Z).
Proof. vm_compute. reflexivity. Qed.

(** The object at a reference of a concrete state. *)
Ltac object_at m r x Hx :=
  destruct (m !! r) as [x|] eqn:Hx; [|vm_compute in Hx; discriminate];
  let H := fresh in pose proof Hx as H; vm_compute in H; injection H as <-.

Lemma efa_handles_alive_witness :
  live (b_world (ef_b (efa_opened []))) !! 4 = Some (mkN (KQP 0) [2; 3; 3]) ∧
  ∃ p, ef_qpx (efa_opened []) !! 3%nat = Some p ∧ qpp_qpx p = 4 ∧
    ex_ops (extended (b_world (ef_b (efa_opened [])))) !! 4 = Some (qpp_send_ops_flags p).
Proof.
  destruct (efa_handles_alive (e0 []) (efa_opened []) (e0_started []) (efa_opened_reach []))
    as (_ & [Ho _] & _ & _ & Hq).
  object_at (b_heap (ef_b (efa_opened []))) 3%nat x Hx. split.
  - destruct (Ho _ _ Hx ltac:(by vm_compute)) as [H _]. exact H.
  - exact (Hq _ _ Hx ltac:(by vm_compute)).
Defined.

(** A datagram with immediate data and an RDMA write. *)
Definition two_requests : list EfaSendWR :=
  [mk_EfaSendWR 1 [mk_SGE 4096 64 5 None] 3 2 0 0 258 (Some 4%nat) 9 17;
   mk_EfaSendWR 2 [mk_SGE 8192 32 5 None] 0 2 65536 11 0 (Some 4%nat) 9 17].
Definition two_entries : list wr_entry :=
  [mk_wr_entry 1 2 (WrSendImm 33619968) (Some (5, 9, 17)) (Some (WrSges [mk_ibv_sge 4096 64 5]));
   mk_wr_entry 2 2 (WrWrite 11 65536) (Some (5, 9, 17)) (Some (WrSges [mk_ibv_sge 8192 32 5]))].

Lemma post_send_whole_witness :
  sent (extended (b_world (ef_b (efa_post_send 3 two_requests (efa_opened [])).2))) 4 = two_entries.
Proof.
  object_at (b_heap (ef_b (efa_opened []))) 3%nat x Hx.
  destruct (ef_qpx (efa_opened []) !! 3%nat) as [p|] eqn:Hp; [|vm_compute in Hp; discriminate].
  pose proof (post_send_whole (e0 []) (efa_opened []) 3 _ p two_requests (e0_started [])
    (efa_opened_reach []) Hx ltac:(by vm_compute) Hp) as H.
  assert (Hok : (efa_post_send 3 two_requests (efa_opened [])).1 = Ok tt) by (vm_compute; reflexivity).
  unfold wp in H. destruct (efa_post_send 3 two_requests (efa_opened [])) as [r u]. cbn in Hok. subst r.
  destruct H as (_ & es & [_ Hes] & [Hsent _ _]). cbn [qp_qp] in Hsent. cbn [snd].
  etransitivity; [exact Hsent|]. change (sent _ 4) with (@nil wr_entry). cbn [app].
  apply (inj (fmap Some)). rewrite <-Hes. vm_compute. reflexivity.
Defined.

(** Two entries are there, and both are returned. *)
Definition two_ready : list (Z * cqe_view) := [(0, entry 11); (0, entry 12)].

Lemma cqex_poll_returns_taken_witness :
  taken (extended (b_world (ef_b (CQEx_poll 2 8 (efa_opened two_ready)).2))) 3 = [entry 11; entry 12].
Proof.
  object_at (b_heap (ef_b (efa_opened two_ready))) 2%nat x Hx.
  destruct (ef_cqx (efa_opened two_ready) !! 2%nat) as [p|] eqn:Hp; [|vm_compute in Hp; discriminate].
  pose proof Hp as Hp'. vm_compute in Hp'. injection Hp' as <-.
  pose proof (cqex_poll_returns_taken (e0 two_ready) (efa_opened two_ready) 2 _ _ 8 (e0_started two_ready)
    (efa_opened_reach two_ready) Hx ltac:(by vm_compute) Hp) as H.
  assert (Hok : (wc_wr_id ∘ ewc) <$> match (CQEx_poll 2 8 (efa_opened two_ready)).1 with Ok l => l | _ => [] end = [11; 12])
    by (vm_compute; reflexivity).
  unfold wp in H. destruct (CQEx_poll 2 8 (efa_opened two_ready)) as [[out|e] u] eqn:Hout; [|discriminate].
  destruct H as (_ & vs & -> & _ & [Ht _ _]). cbn [cq_cq] in Ht. cbn [snd].
  vm_compute in Hout. injection Hout as _ <-. vm_compute. reflexivity.
Defined.

Lemma create_qp_leaves_nothing_witness :
  unchanged (ef_b (efa_opened [])) (ef_b (efa_create_qp 1
    (EfaQPInitAttr_init 2 2 (Some 2) 16 16 1 1 0 false None 0 false) (efa_opened [])).2).
Proof.
  pose proof (create_qp_leaves_nothing (e0 []) (efa_opened []) 1
    (EfaQPInitAttr_init 2 2 (Some 2) 16 16 1 1 0 false None 0 false) (e0_started []) (efa_opened_reach [])) as H.
  assert (Hex : (efa_create_qp 1 (EfaQPInitAttr_init 2 2 (Some 2) 16 16 1 1 0 false None 0 false)
    (efa_opened [])).1 = Raise ValueError) by (vm_compute; reflexivity).
  unfold wp in H. destruct (efa_create_qp _ _ _) as [r u]. cbn in Hex. subst r. exact H.
Defined.

Lemma efa_device_list_closes_witness :
  no_trace (ef_b (efa_opened [])) (get_efa_device_list (ef_b (efa_opened []))).2 ∧
  (get_efa_device_list (ef_b (efa_opened []))).1 = Ok [mk_Device [109] 7].
Proof.
  pose proof (efa_device_list_closes (e0 []) (efa_opened []) (e0_started []) (efa_opened_reach [])) as H.
  assert (Hok : (get_efa_device_list (ef_b (efa_opened []))).1 = Ok [mk_Device [109] 7]) by (vm_compute; reflexivity).
  unfold wp in H. destruct (get_efa_device_list _) as [r u]. cbn in Hok. subst r.
  destruct H as [_ H]. by split.
Defined.

(** ** What the binding does not prevent *)

(** Completions can be lost: there is a run after which [CQEx.poll] takes the completion of work
    request 11 from the queue, gets an error from [ibv_next_poll] and raises it without returning that
    completion, which no later poll reports. *)
Theorem poll_error_loses_completions :
  ∃ s0 s, estarted s0 ∧ ereach s0 s ∧
    (CQEx_poll 2 8 s).1 = Raise (VerbsError 5) ∧
    (iwc_wr_id ∘ cv_wc) <$> taken (extended (b_world (ef_b (CQEx_poll 2 8 s).2))) 3 = [11] ∧
    (CQEx_poll 2 8 (CQEx_poll 2 8 s).2).1 = Ok [].
Proof.
  exists (e0 [(0, entry 11); (5, entry 0)]), (efa_opened [(0, entry 11); (5, entry 0)]).
  split_and!; [apply e0_started|apply efa_opened_reach|vm_compute; reflexivity..].
Qed.

(** The condition on [ack_events] is needed: there is a run after which acknowledging 2^32 - 1
    events, an argument the method's type admits, where none is outstanding breaks the library, for the
    guard compares the count as a signed integer. *)
Theorem efa_ack_condition_needed :
  ∃ s0 s r n, estarted s0 ∧ ereach s0 s ∧ 0 ≤ n < 2 ^ 32 ∧
    ¬ intact (b_world (ef_b (run_ecall (E_ack_events r n) s))).
Proof.
  exists (e0 []), (efa_opened []), 2%nat, (2 ^ 32 - 1).
  split_and!; [apply e0_started|apply efa_opened_reach|done|done|].
  intros [Hf _ _ _ _ _]. by vm_compute in Hf.
Qed.
