(* ===== verification/CudaExamples.v ===== *)
(** Registrations of GPU memory on a concrete host: the library of VerbsModel beside a
    CUDA driver with a table of descriptors, which satisfies the laws of CudaTheorems. *)

From S2P Require Import Prelude Bytes Json.
From S2P Require Import VerbsLib VerbsValues VerbsPost.
From S2P Require Import VerbsObjects VerbsSafety VerbsMethods.
From S2P Require Import VerbsInvariant VerbsRuns VerbsTheorems.
From S2P Require Import Cuda CudaTheorems.
From S2P Require Import VerbsModel VerbsExamples.
From S2P Require Import EfaModel EfaExamples.
#[local] Open Scope Z_scope.

(** * A host *)

(** Descriptors count from 3; an export succeeds while [vmm] holds, which is whether the
    memory can be exported. *)
Record Host := mk_Host { vmm : bool; table : list Z }.
Abbreviation CLib := (Lib * Host)%type.

Definition next_fd (l : list Z) : Z := 1 + foldr Z.max 2 l.

Lemma next_fd_new l : next_fd l ∉ l.
Proof.
  assert (H : ∀ x, x ∈ l → x ≤ foldr Z.max 2 l).
  { induction l as [|y l IH]; intros x Hx; [by apply not_elem_of_nil in Hx|]. cbn.
    apply elem_of_cons in Hx as [->|Hx]; [lia|]. specialize (IH x Hx). lia. }
  intros Hin%H. unfold next_fd in Hin. lia.
Qed.

(** A driver with the symbols [has]. *)
Definition host (has : string → bool) : CudaDriver CLib := {|
  _PAGE := 4096;
  cu_dlopen w := (true, w);
  cu_has _ := has;
  cu_get_handle _ _ w :=
    if vmm w.2 then ((0, next_fd (table w.2)), (w.1, mk_Host true (next_fd (table w.2) :: table w.2)))
    else ((801, -1), w);
  cu_ctx_synchronize w := (0, w);
  cu_flush _ _ w := (0, w);
  os_close fd w := (true, (w.1, mk_Host (vmm w.2) (filter (λ x, x ≠ fd) (table w.2))));
|}.

Lemma clib_keeps (w : CLib) h : intact w → keeps live intact w (w.1, h).
Proof. by destruct w. Qed.

#[global] Instance host_laws has : CudaLaws CLib (CudaDriver0 := host has).
Proof.
  refine (@Build_CudaLaws _ _ _ (host has) (λ w : CLib, list_to_set (table w.2)) _ _ _ _ _ _ _ _);
    try done.
  - intros p l w Hw. cbn. split; [by destruct (vmm w.2); [apply clib_keeps|]|].
    destruct (vmm w.2); cbn; [|done]. split; [|set_solver].
    rewrite elem_of_list_to_set. apply next_fd_new.
  - intros fd w Hw Hin. cbn. split; [by apply clib_keeps|]. apply set_eq. intros x.
    rewrite elem_of_difference, !elem_of_list_to_set, list_elem_of_filter, elem_of_singleton. tauto.
Qed.

(** * A registration *)

(** A device and a domain, opened after the libraries were loaded. *)
Definition c0 (vmm : bool) : Cuda CLib :=
  mk_Cuda (run_calls [C_load_libibverbs; C_open (mk_Device [109] 7); C_alloc_pd 0]
    (mk_Binding ∅ ∅ 0 0 0 0 (mk_Lib ∅ 1 true, mk_Host vmm [0; 1; 2]))) false.

Lemma c0_inv vmm : Inv (cs_b (c0 vmm)).
Proof.
  eapply (reach_inv (mk_Binding ∅ ∅ 0 0 0 0 (mk_Lib ∅ 1 true, mk_Host vmm [0; 1; 2]))).
  - split; [done| |done]. cbn. by constructor.
  - apply reach_run; [constructor|]. by repeat constructor.
Qed.

(** A tensor of 100 floats that starts 16 bytes into its page. *)
Definition floats : GpuTensor :=
  mk_GpuTensor (Some true) (Some true) None (Some 8208) (Some 100) (Some 4) None.
Definition modern : string → bool := λ _, true.
Definition before_11_7 : string → bool := λ n, negb (String.eqb n "cuMemGetHandleForAddressRange").

Definition registered (vmm : bool) : result GpuMR * Cuda CLib :=
  register_tensor (CudaDriver0 := host modern) ibverbs_required 1 floats 1 (c0 vmm).


Lemma page_range_smallest_witness :
  page_range (CudaDriver0 := host modern) 8208 400 = (8192, 16, 4096) ∧
  page_aligned (CudaDriver0 := host modern) 8192 4096.
Proof.
  destruct (page_range_smallest (CudaDriver0 := host modern) 8208 400 ltac:(done) ltac:(done)) as [H _].
  split; [by vm_compute|exact H].
Defined.

Lemma floats_registrable : registrable floats 8208 400.
Proof. done. Qed.

(** The memory cannot be exported: the registration is by address. *)
Example registered_by_address :
  (registered false).1 = Ok (mk_GpuMR 2 8208 400 (Some floats)).
Proof. by vm_compute. Qed.

Lemma export_required : "cuMemGetHandleForAddressRange"%string ∈ ibverbs_required.
Proof. unfold ibverbs_required. set_solver. Qed.

(** An older driver: the registration by address, which would succeed, is not tried. *)
Lemma old_driver_no_fallback_witness :
  (register_tensor (CudaDriver0 := host before_11_7) ibverbs_required 1 floats 1 (c0 true)).1 =
    Raise AttributeError ∧
  (reg_mr 1 8208 400 1 (cs_b (c0 true))).1 = Ok 2%nat.
Proof.
  split; [|by vm_compute].
  pose proof (old_driver_no_fallback (CudaDriver0 := host before_11_7) ibverbs_required 1 floats 1
    8208 400 (c0 true) floats_registrable ltac:(done)
    (or_intror (conj eq_refl export_required))) as H.
  unfold wp in H. destruct (register_tensor _ _ _ _ _) as [[g|e] u]; [done|]. by destruct H as [-> _].
Defined.
